(* ===== verification/_CoqProject ===== *)
-Q . S2P
Prelude.v
TlSerial.v
TlLogic.v
TlCrc.v
TlSkipBase.v
TlSkipParts.v
TlSkipMedia.v
TlSkipChat.v
TlSkipPage.v
TlSkipMessage.v
TlSkipSafe.v
TlSchema.v
TlRefine.v
TlRefineBase.v
TlRefineMedia.v
TlRefineMessage.v
TlExtract.v
TlTheorems.v
CLib.v
World.v
IgeAes.v
MtprotoCrypto.v
MtprotoSession.v
Transport.v
WireTheorems.v
MtprotoRpc.v
RpcCorrect.v
ApiCall.v
ApiCorrect.v
RpcTheorems.v
Request.v
CallLogic.v
BigNum.v
ServerKey.v
PqFactor.v
MtprotoAuth.v
AuthCorrect.v
AuthSafe.v
AuthRun.v
AuthHonest.v
AuthTheorems.v
FileSys.v
FileLogic.v
SessionStore.v
StoreTheorems.v
Login.v
Auth2fa.v
LoginCorrect.v
LoginTheorems.v
Wcwidth.v
Text.v
TextTheorems.v
ArgParse.v
ArgTheorems.v
UpdatesStore.v
DomainWrite.v
DomainWriteTheorems.v
History.v
HistoryCorrect.v
SearchUpdates.v
HistoryTheorems.v
Contacts.v
Resolver.v
ResolveCache.v
Dialogs.v
ReadSafe.v
DialogsTheorems.v
ReadTheorems.v
Progress.v
Machine.v
AuthFlow.v
DcSession.v
ProcessLogic.v
MediaIndex.v
Media.v
Upload.v
TransferTheorems.v
FlowTheorems.v
Config.v
ConfigTheorems.v
