(* ===== verification/Prelude.v ===== *)
(** * tg-cli: a verification of the protocol core

    tg-cli is a command line client for Telegram written in C11.  Its own
    protocol stack sits between the TCP socket and the commands:

<<
      commands, TUI      src/main, src/tui, src/app
      domain             src/domain/read, src/domain/write
      API calls          src/infrastructure/api_call.c
      RPC messages       src/infrastructure/mtproto_rpc.c
      session, crypto    src/core/mtproto_session.c, mtproto_crypto.c, ige_aes.c
      framing            src/infrastructure/transport.c
      TL values          src/core/tl_serial.c, tl_registry.c, tl_skip.c
>>

    Bytes from the server pass upwards: [transport_recv] takes a frame off
    the stream, [rpc_recv_encrypted] authenticates and decrypts it,
    [api_call_once] drops service frames and unwraps containers, results and
    gzip, and the domain code walks the TL objects with the functions of
    tl_skip.c.  A request goes the other way.  This library models these
    layers and proves what each promises to the next.

    ** How C is modelled

    - Integers are [Z] with the wrap-around of their width written out
      ([u8], [u32], [u64], [s32], [s64]); [size_t] is 64 bits, the host is
      little-endian, as src/ assumes.
    - Buffers are lists of bytes.  A C function is a computation in the
      monad [M S A]: from the state of the object it works on to [Done] (the
      C function returns 0 or a value), [Fail] (it returns -1, with the state
      it leaves behind), [Fault] (an access outside a buffer, undefined in C)
      or [NoFuel] (the recursion bound of the model is exhausted).  That
      neither [Fault] nor [NoFuel] happens is a theorem wherever it holds.
    - The environment (random bytes, the clock, the sequence of full, partial,
      interrupted and failed socket calls) is a [World] with arbitrary
      contents, so a theorem over all worlds holds for all of them.
    - OpenSSL primitives are the class [Crypto]; what the code relies on is
      the class [CryptoLaws] (digest and block sizes, decryption inverts
      encryption), with an instance that satisfies the laws.  The
      decompressor of src/vendor/tinf is a parameter.
    - [malloc] does not fail, [NULL] arguments of public functions are not
      passed, and logging has no effect.

    ** The files

    - Prelude: integers, the monad, loops, list lemmas, tactics.
    - TlSerial: [TlWriter] and [TlReader] of tl_serial.c ([Writer], [Reader]),
      the encodings they implement ([Encode]) and what each reader does in
      front of an encoding ([Decode]).
    - TlLogic: two judgements about code that walks a buffer, [safe_upto]
      (stays inside, ends) and [reads] (succeeds on these bytes and stops
      behind them), with rules per construct.  The rules are hints, and the
      tactics built on them prove most lemmas about a skipper.
    - TlCrc: the constructor identifiers and tl_registry.c.
    - TlSkipBase, TlSkipParts, TlSkipMedia, TlSkipChat, TlSkipPage,
      TlSkipMessage: tl_skip.c, one definition per C function under the C
      name.  A function with an out-parameter works on a reader and an
      optional object, [None] for [NULL].
    - TlSkipSafe: every function of tl_skip.c is safe on arbitrary bytes.
    - TlSchema: the abstract specification, the TL grammar and the schema of
      the objects as data.  TlRefine, TlRefineBase, TlRefineMedia,
      TlRefineMessage: every skipper refines the schema.
    - TlExtract: what the walkers with an out-parameter extract, and how deep
      the recursive ones go.
    - TlTheorems: the theorems about the TL layer.
    - World: the environment and the cryptographic primitives.  IgeAes,
      MtprotoCrypto, MtprotoSession, Transport: one file per C file, with its
      lemmas.  WireTheorems: the theorems about them.
    - MtprotoRpc, RpcCorrect: mtproto_rpc.c and its lemmas.  ApiCall,
      ApiCorrect: api_call.c and its lemmas.  RpcTheorems: their theorems.
    - BigNum: the big number wrappers of crypto.c over the class [BigNum] for
      OpenSSL's, with the instance on integers.  ServerKey: the server's RSA
      key and its fingerprint.  PqFactor: factorization.  MtprotoAuth: the
      four steps of the key exchange.
    - AuthCorrect (the session is kept until the end), AuthSafe (lengths and
      buffers), AuthRun (what each successful step has sent, taken in and
      checked), AuthHonest (the run against a server that follows the
      protocol, and how that server reads what it gets), AuthTheorems: their
      theorems.
    - Request: what the calls above api_call share (the query buffer, the
      parser over the response, errors).  CallLogic: the rules with which
      such calls are proved safe.  Login: sending a code, signing in,
      moving an authorization, logging out.  Auth2fa: the SRP proof of the
      second factor, over the class [Kdf] for PBKDF2.  LoginCorrect (with the
      server's side of SRP), LoginTheorems: their theorems.
    - CLib: the part of the C library the text code uses.  Text: the display
      filter, the redaction of phone numbers and JSON escaping, writing
      arrays.  TextTheorems: their theorems.  Wcwidth: character widths and
      their theorem.  ArgParse, ArgTheorems: command lines.
    - FileSys: a file system with inodes, descriptors and locks, and programs
      of system calls, whose runs can be cut or interleaved between any two
      calls; streams that keep bytes back as the class [Stdio] says.  FileLogic: what the calls do to one file and to the
      temporary file that replaces it.  SessionStore: session_store.c as such
      programs.  StoreTheorems: its lemmas and theorems.
      UpdatesStore: the file of the updates state, with its theorems.
    - DomainWrite, DomainWriteTheorems: src/domain/write, the requests
      that send, edit, delete, forward and mark as read.
    - History: history.c, the parser of a message with its service actions
      and the loop over a list of them.  SearchUpdates: search.c and
      updates.c, which use the same loop.  HistoryCorrect, HistoryTheorems:
      their lemmas and theorems.
    - Contacts: self.c and contacts.c.  Resolver: user_info.c with the cache
      of names.  ResolveCache: that cache as a map with expiry.  Dialogs:
      dialogs.c with the two cached folders and the join of titles.
      ReadSafe, DialogsTheorems, ReadTheorems: their lemmas and theorems.
      The static caches are part of the state of the call; the time is that
      of the [World].
    - Progress: what every call leaves of the environment (no exchange makes
      the incoming bytes more, a successful one takes some), from which the
      loops over calls end.
    - Machine: the endpoints of dc_config.c, and the process that the code
      above shares: its files, the connections it dials, the overrides.
      AuthFlow: auth_flow.c, with the prompts as functions.  DcSession:
      dc_session.c.  MediaIndex: media_index.c with its theorem.  Media:
      media.c, downloads.  Upload: upload.c, the parts of a file and the
      requests that send it.
    - ProcessLogic: the rules with which functions of the process are proved
      safe, with the login flow and the sessions of other data centres.
      TransferTheorems: what downloads and uploads have done when they
      succeed.  FlowTheorems: what a login leaves for the next start.
    - Config: config.ini, written by the wizard of config_wizard.c, read by
      credentials.c and by bootstrap.c, each with a parser of its own.
      ConfigTheorems: its lemmas and theorems.

    ** What is proved

    - TL layer: bytes, strings and scalars round trip; writers only append;
      no skipper reads outside its buffer on any input; on every encoding of
      the schema a skipper stops exactly behind it, so a vector of messages
      is walked to its end; users, channels and photos give the fields that
      were encoded; the nesting depth of media is capped, the depth of rich
      text is not.
    - Wire: IGE decryption inverts encryption; message encryption round
      trips with padding of 12 to 27 bytes; decryption accepts only a
      matching message key; message ids increase and are divisible by 4
      whatever the clock does; framing refines the abridged format for every
      schedule of partial and interrupted calls.
    - RPC: a receive accepts exactly the frames of the session; sends and
      receives are inverse to the peer's; containers stay inside the input;
      a call is an [exchange]: one request, or two around a change of salt,
      and the [response] inside a frame [received] for the session.  That
      something arrives is stated for deliveries of three bytes or more
      ([patient]), because a split length prefix makes a receive fail.
    - Key exchange: against a server that follows the protocol it finishes,
      the three frames sent have the fields that server reads ([serves]), and
      both sides hold the same key; whoever answers, success means that the
      [transcript] of sent and received frames is the one of the protocol and
      the peer knew the nonces and the key; a failure leaves the session
      alone; the context stays inside its arrays; every run ends.
      Factorization returns the two primes, Euclid's loop is the greatest
      common divisor, the fingerprint is the hash of the TL encoding.
    - Session store: the file is a map from data centres to keys; a save is
      atomic under a crash at any system call; the lock does not exclude a
      second writer, and a store of a newer version is lost.
    - Login: the SRP proof is the one a server with the verifier expects; all
      calls are safe whatever is answered; the parsers store what was
      announced, except that the id of a user of the current schema is
      misread; logging out always removes the session.
    - Text: the filtered text has no bidi control and fits; a redacted number
      shows its last four digits only; an escaped string is a JSON body for
      the same bytes; the width is what the tables say.
    - Command lines: writing an abstract command and parsing it gives its
      fields; an accepted line has what the command needs, in range; a peer
      with a minus sign, which the manual pages offer, is refused.
    - Updates state: a saved state is loaded back, a cut save leaves the old
      one or the new one.
    - Media index: storing and looking up implement a finite map; the index
      is lost when a store is stopped behind the truncation.
    - Login flow: a login that succeeds is found by the next start, which
      asks for nothing; all of it ends safely whatever the server, the
      network and the kernel do; behind a failed handshake with the data
      centre of a redirect nothing can succeed, since the key is gone.
    - Transfers: a download that succeeds has written the bytes of the chunks
      in order, except what [fclose] could not write, since its result is not
      looked at; an upload has sent the file in numbered parts; an answer that
      is cut short ends a download as a success.
    - Configuration: the credentials the wizard writes are read back; the
      readers end and stay inside their arrays on every file; the wizard
      loses the server key that was in the file; a hash from the environment
      may go unchecked.
    - Writing: every request is safe and has the layout of the schema; the
      id handed out is the one the server assigned to this message.
    - Reading: on arbitrary answers every query stays inside its buffers,
      ends, and fills its lists and strings within their limits.  On
      well-formed answers history shows every message with its text in
      order, contacts and dialogs are listed completely with the fields of
      the users and chats they belong to ([listed_as] for dialogs), and a
      dialog is found by its id.  The cache of names refines a map
      with expiry; names and dialogs are served again without a message to
      the server while they are fresh.  A difference is never moved past,
      and the body of an unknown service action is read as a message.
    - Defects the model shows: an overflow of the encryption buffer for
      queries close to 1 MiB, a failure on a split length prefix, answers
      that are not matched with requests, recursion without a cap.

    ** Bounds and fuel

    Loops over a counter recurse over it.  The recursive skippers take the
    number of unread bytes as fuel ([fuelled]): every level reads at least
    the four bytes of a constructor, and the safety theorems include that
    [NoFuel] does not happen.  The receive loops recurse over the number of
    scheduled socket calls, after which every call fails; [classify_rec]
    over the length of the frame, since a body is shorter than its
    container.

    ** What is not modelled

    The terminal user interface (src/tui: its panes are views over the list
    widget of libtuikit, a submodule whose code is not in the repository),
    the executables (dispatch and printing), the two stores no program calls
    (cache_store.c, config_store.c), the wrappers of single system calls, the
    logger.  In the login
    layer the optional out-parameters are assumed to be passed.
    tinf, OpenSSL and the terminal are outside the library, stdio but for the
    streams that downloads write: the text of every other writer reaches the
    kernel in one call, at the [write], [fflush] or [fclose] that ends it. *)

From stdpp Require Export base list numbers.
From coqutil Require Export Byte.
From coqutil Require Export Word.LittleEndianList.
From Stdlib Require Export ZArith Lia Btauto.

#[global] Open Scope Z_scope.

(** ** Machine integers

    A C unsigned integer of [w] bits is a [Z] in [0 .. 2^w - 1]; every
    operation that can leave the range is wrapped explicitly. *)

Definition u8 (z : Z) : Z := z mod 2 ^ 8.
Definition u32 (z : Z) : Z := z mod 2 ^ 32.
Definition u64 (z : Z) : Z := z mod 2 ^ 64.

(** Conversion of an unsigned value to the signed type of the same width
    (two's complement, as every supported compiler does it). *)
Definition s32 (z : Z) : Z := (z + 2 ^ 31) mod 2 ^ 32 - 2 ^ 31.
Definition s64 (z : Z) : Z := (z + 2 ^ 63) mod 2 ^ 64 - 2 ^ 63.

(** Ranges of the C types. *)
Definition is_u32 (z : Z) : Prop := 0 <= z < 2 ^ 32.
Definition is_u64 (z : Z) : Prop := 0 <= z < 2 ^ 64.
Definition is_s32 (z : Z) : Prop := - 2 ^ 31 <= z < 2 ^ 31.
Definition is_s64 (z : Z) : Prop := - 2 ^ 63 <= z < 2 ^ 63.

(** Length of a list as a C [size_t] value. *)
Definition zlen {A} (l : list A) : Z := Z.of_nat (length l).

(** [flags & (1u << n)] used as a condition. *)
Definition flag (flags n : Z) : bool := negb (Z.land flags (Z.shiftl 1 n) =? 0).

(** ** Hint databases *)

Create Rewrite HintDb zlen.

(** Lemmas that solve safety and consumption goals, by the structure of the
    reader. *)
Create HintDb tl_safe.
Create HintDb tl_consume.

(** ** Tactics *)

(** Reduce every boolean comparison in the context to a proposition. *)
Ltac bool_prop :=
  repeat match goal with
  | H : context [Z.ltb _ _ = true] |- _ => rewrite Z.ltb_lt in H
  | H : context [Z.ltb _ _ = false] |- _ => rewrite Z.ltb_ge in H
  | H : context [Z.leb _ _ = true] |- _ => rewrite Z.leb_le in H
  | H : context [Z.leb _ _ = false] |- _ => rewrite Z.leb_gt in H
  | H : context [Z.eqb _ _ = true] |- _ => rewrite Z.eqb_eq in H
  | H : context [Z.eqb _ _ = false] |- _ => rewrite Z.eqb_neq in H
  | H : negb _ = true |- _ => apply negb_true_iff in H
  | H : negb _ = false |- _ => apply negb_false_iff in H
  | H : andb _ _ = true |- _ => apply andb_true_iff in H as [? ?]
  | H : orb _ _ = false |- _ => apply orb_false_iff in H as [? ?]
  end.

(** Case split on the [if] conditions of the goal, as propositions. *)
Ltac split_ifs :=
  repeat match goal with
  | |- context [if ?b then _ else _] => destruct b eqn:?
  end; bool_prop.

(** ** Integer lemmas *)

Lemma u8_range z : 0 <= u8 z < 256.
Proof. apply Z.mod_pos_bound. lia. Qed.

Lemma u32_range z : is_u32 (u32 z).
Proof. apply Z.mod_pos_bound. lia. Qed.

Lemma u64_range z : is_u64 (u64 z).
Proof. apply Z.mod_pos_bound. lia. Qed.

Lemma u32_id z : is_u32 z -> u32 z = z.
Proof. apply Z.mod_small. Qed.

Lemma u64_id z : is_u64 z -> u64 z = z.
Proof. apply Z.mod_small. Qed.

Lemma u64_sub_neg a b : 0 <= a < b -> b < 2 ^ 64 -> u64 (a - b) = a - b + 2 ^ 64.
Proof.
  intros Ha Hb. unfold u64.
  rewrite <- (Z.mod_add _ 1) by lia. apply Z.mod_small. lia.
Qed.

Lemma s32_u32 z : is_s32 z -> s32 (u32 z) = z.
Proof.
  unfold is_s32, s32, u32. intros H.
  rewrite Zplus_mod_idemp_l, Z.mod_small; lia.
Qed.

Lemma s64_u64 z : is_s64 z -> s64 (u64 z) = z.
Proof.
  unfold is_s64, s64, u64. intros H.
  rewrite Zplus_mod_idemp_l, Z.mod_small; lia.
Qed.

Lemma s32_id z : is_s32 z -> s32 z = z.
Proof. unfold is_s32, s32. intros H. rewrite Z.mod_small; lia. Qed.

Lemma s32_range z : is_s32 (s32 z).
Proof. unfold is_s32, s32. pose proof (Z.mod_pos_bound (z + 2 ^ 31) (2 ^ 32)). lia. Qed.

Lemma s64_range z : is_s64 (s64 z).
Proof. unfold is_s64, s64. pose proof (Z.mod_pos_bound (z + 2 ^ 63) (2 ^ 64)). lia. Qed.

Lemma u32_s32 v : u32 (s32 v) = u32 v.
Proof.
  unfold u32, s32. rewrite Zminus_mod, Zmod_mod, <- Zminus_mod. f_equal. lia.
Qed.

Lemma u64_s64 v : u64 (s64 v) = u64 v.
Proof.
  unfold u64, s64. rewrite Zminus_mod, Zmod_mod, <- Zminus_mod. f_equal. lia.
Qed.

(** [flags & (1u << n)] tests bit [n]. *)
Lemma flag_testbit flags n : 0 <= n -> flag flags n = Z.testbit flags n.
Proof.
  intros Hn. unfold flag.
  assert (Hb : Z.land flags (Z.shiftl 1 n) = if Z.testbit flags n then 2 ^ n else 0).
  { rewrite Z.shiftl_1_l. apply Z.bits_inj'. intros i Hi.
    rewrite Z.land_spec, Z.pow2_bits_eqb by lia.
    destruct (Z.eqb_spec n i) as [->|Hne].
    - rewrite andb_true_r. destruct (Z.testbit flags i).
      + by rewrite Z.pow2_bits_true.
      + by rewrite Z.bits_0.
    - rewrite andb_false_r. destruct (Z.testbit flags n).
      + by rewrite Z.pow2_bits_false by lia.
      + by rewrite Z.bits_0. }
  rewrite Hb. pose proof (Z.pow_pos_nonneg 2 n).
  destruct (Z.testbit flags n); [apply negb_true_iff, Z.eqb_neq; lia | done].
Qed.

(** Rounding up to a multiple of [2^k], the way the sources write it:
    [(n + 2^k - 1) & ~(2^k - 1)]. *)
Lemma land_lnot_ones n k : 0 <= k -> Z.land n (Z.lnot (Z.ones k)) = n - n mod 2 ^ k.
Proof.
  intros Hk. rewrite <- Z.ldiff_land, Z.ldiff_ones_r by lia.
  rewrite Z.shiftl_mul_pow2, Z.shiftr_div_pow2 by lia.
  pose proof (Z.div_mod n (2 ^ k)). lia.
Qed.

(** The same on 64-bit operands: the mask is [~(size_t)(2^k - 1)]. *)
Lemma land_lnot_ones64 n k :
  is_u64 n -> 0 <= k <= 64 -> Z.land n (u64 (Z.lnot (Z.ones k))) = n - n mod 2 ^ k.
Proof.
  intros Hn Hk. rewrite <- land_lnot_ones by lia. unfold u64.
  rewrite <- Z.land_ones, (Z.land_comm (Z.lnot _)), Z.land_assoc by lia.
  f_equal. rewrite Z.land_ones by lia. by apply Z.mod_small.
Qed.

(** [hi | lo] of operands without a common bit is their sum. *)
Lemma lor_disjoint a b k : 0 <= k -> 0 <= b < 2 ^ k -> Z.lor (a * 2 ^ k) b = a * 2 ^ k + b.
Proof.
  intros Hk Hb. rewrite <- Z.add_lor_land.
  replace (Z.land (a * 2 ^ k) b) with 0; [lia|]. symmetry. apply Z.bits_inj'. intros i Hi.
  rewrite Z.land_spec, Z.bits_0. destruct (Z.ltb_spec i k).
  - by rewrite Z.mul_pow2_bits_low by lia.
  - rewrite <- (Z.mod_small b (2 ^ k)), Z.mod_pow2_bits_high by lia. apply andb_false_r.
Qed.

(** ** List lemmas *)

Lemma zlen_nonneg {A} (l : list A) : 0 <= zlen l.
Proof. unfold zlen. lia. Qed.

Lemma zlen_app {A} (l k : list A) : zlen (l ++ k) = zlen l + zlen k.
Proof. unfold zlen. rewrite length_app. lia. Qed.

Lemma zlen_cons {A} (x : A) l : zlen (x :: l) = 1 + zlen l.
Proof. unfold zlen. simpl. lia. Qed.

Lemma zlen_nil {A} : zlen (@nil A) = 0.
Proof. done. Qed.

Lemma zlen_le_split n v : zlen (le_split n v) = Z.of_nat n.
Proof. unfold zlen. by rewrite length_le_split. Qed.

Lemma zlen_replicate {A} n (x : A) : zlen (replicate n x) = Z.of_nat n.
Proof. unfold zlen. by rewrite length_replicate. Qed.

Lemma zlen_take {A} n (l : list A) : 0 <= n <= zlen l -> zlen (take (Z.to_nat n) l) = n.
Proof. unfold zlen. rewrite length_take. lia. Qed.

Lemma zlen_drop {A} n (l : list A) : 0 <= n <= zlen l -> zlen (drop (Z.to_nat n) l) = zlen l - n.
Proof. unfold zlen. rewrite length_drop. lia. Qed.

#[export] Hint Rewrite @zlen_app @zlen_cons @zlen_nil zlen_le_split @zlen_replicate : zlen.

(** Split a list at [n] elements. *)
Lemma take_app_exact {A} (l k : list A) n : n = zlen l -> take (Z.to_nat n) (l ++ k) = l.
Proof. intros ->. unfold zlen. by rewrite Nat2Z.id, take_app_length. Qed.

Lemma drop_app_exact {A} (l k : list A) n : n = zlen l -> drop (Z.to_nat n) (l ++ k) = k.
Proof. intros ->. unfold zlen. by rewrite Nat2Z.id, drop_app_length. Qed.

(** ** C strings

    A [char] array that holds a string is the list of the bytes before its
    terminator. *)

(** The string stored at the start of a byte array: up to the first NUL. *)
Fixpoint cstr (l : list byte) : list byte :=
  match l with
  | [] => []
  | b :: l => if Byte.eqb b Byte.x00 then [] else b :: cstr l
  end.

Definition strlen (l : list byte) : Z := zlen (cstr l).

(** [n = strlen(s); if (n >= cap) n = cap - 1; memcpy(out, s, n); out[n] = 0;] *)
Definition copy_trunc (cap : Z) (s : list byte) : list byte :=
  let n := strlen s in
  take (Z.to_nat (if cap <=? n then cap - 1 else n)) (cstr s).

Lemma cstr_len l : zlen (cstr l) <= zlen l.
Proof.
  induction l as [|b l IH]; [done|]. cbn. destruct (Byte.eqb b Byte.x00).
  - rewrite zlen_cons. pose proof (zlen_nonneg l). unfold zlen. cbn. lia.
  - rewrite !zlen_cons. lia.
Qed.

Lemma cstr_idemp l : cstr (cstr l) = cstr l.
Proof.
  induction l as [|b l IH]; [done|]. cbn. destruct (Byte.eqb b Byte.x00) eqn:E; [done|].
  cbn. by rewrite E, IH.
Qed.

(** The copy is a prefix of the string and leaves room for the terminator. *)
Lemma copy_trunc_spec cap s :
  0 < cap -> zlen (copy_trunc cap s) < cap /\ copy_trunc cap s `prefix_of` cstr s.
Proof.
  intros Hc. unfold copy_trunc, strlen. pose proof (zlen_nonneg (cstr s)).
  split; [|apply prefix_take].
  destruct (Z.leb_spec cap (zlen (cstr s))); rewrite zlen_take; lia.
Qed.

(** ** Little-endian words *)

Lemma le_val_u32 v : le_combine (le_split 4 v) = u32 v.
Proof. by rewrite le_combine_split. Qed.

Lemma le_val_u64 v : le_combine (le_split 8 v) = u64 v.
Proof. by rewrite le_combine_split. Qed.

Lemma byte_of_Z_u8 z : byte.of_Z (u8 z) = byte.of_Z z.
Proof.
  apply byte.unsigned_inj. rewrite !byte.unsigned_of_Z. unfold byte.wrap, u8.
  by rewrite Zmod_mod.
Qed.

Lemma byte_land_ff x : byte.of_Z (Z.land x 0xFF) = byte.of_Z x.
Proof.
  change 0xFF with (Z.ones 8). rewrite Z.land_ones by lia. apply byte_of_Z_u8.
Qed.

Lemma le_split_range n v :
  0 <= v < 2 ^ (Z.of_nat n * 8) -> le_combine (le_split n v) = v.
Proof. intros H. rewrite le_combine_split. by apply Z.mod_small. Qed.

(** ** State, failure, and the two ways a C function can go wrong

    A function that works on a mutable object [s] and returns [0] or a value
    is [Done a s'], one that returns [-1] is [Fail s'] (the object keeps the
    changes made before the failure, as in C).  [Fault] is an access outside
    the object's memory and [NoFuel] an exhausted recursion bound: theorems
    show that neither is reachable. *)

Inductive outcome (S A : Type) : Type :=
| Done (a : A) (s : S)
| Fail (s : S)
| Fault
| NoFuel.
Arguments Done {S A} a s.
Arguments Fail {S A} s.
Arguments Fault {S A}.
Arguments NoFuel {S A}.

Definition M (S A : Type) : Type := S -> outcome S A.

#[global] Instance M_ret S : MRet (M S) := fun A a s => Done a s.

#[global] Instance M_bind S : MBind (M S) := fun A B k m s =>
  match m s with
  | Done a s' => k a s'
  | Fail s' => Fail s'
  | Fault => Fault
  | NoFuel => NoFuel
  end.

(** [return -1;] *)
Definition fail {S A} : M S A := fun s => Fail s.

(** The recursion bound is exhausted. *)
Definition no_fuel {S A} : M S A := fun _ => NoFuel.

(** [if (c) return -1;] *)
Definition fail_if {S} (c : S -> bool) : M S unit := fun s =>
  if c s then Fail s else Done tt s.

(** [if (c) { m }] *)
Definition when {S} (c : bool) (m : M S unit) : M S unit := if c then m else mret tt.

(** [switch (v) { case ..: m ... default: d }]; a case with several labels
    lists them all. *)
Fixpoint switch {S A} (v : Z) (cases : list (list Z * M S A)) (d : M S A) : M S A :=
  match cases with
  | [] => d
  | (labels, m) :: cs => if existsb (Z.eqb v) labels then m else switch v cs d
  end.

(** [for (uint32_t i = 0; i < n; i++) { m }] for a body that does not use
    the counter.  The recursion is on the binary counter, so that a loop
    with a huge bound that fails early also evaluates early. *)
Fixpoint repeat_pos {S} (p : positive) (m : M S unit) : M S unit :=
  match p with
  | xH => m
  | xO q => repeat_pos q m ;; repeat_pos q m
  | xI q => m ;; (repeat_pos q m ;; repeat_pos q m)
  end.

Definition for_n {S} (n : Z) (m : M S unit) : M S unit :=
  match n with Zpos p => repeat_pos p m | _ => mret tt end.

(** Run a computation on the first component of a pair. *)
Definition lift {S T A} (m : M S A) : M (S * T) A := fun st =>
  match m (fst st) with
  | Done a s' => Done a (s', snd st)
  | Fail s' => Fail (s', snd st)
  | Fault => Fault
  | NoFuel => NoFuel
  end.

(** [out] parameters: the second component of the state is the caller's
    object, [None] when the caller passed [NULL]. *)
Definition ask_out {S T} : M (S * T) T := fun st => Done (snd st) st.

(** [if (out) update the object with f;] *)
Definition upd_out {S T} (f : T -> T) : M (S * option T) unit :=
  fun st => Done tt (fst st, f <$> snd st).

(** Call a function with [out = NULL]. *)
Definition with_null {S T A} (m : M (S * option T) A) : M S A := fun s =>
  match m (s, None) with
  | Done a st => Done a (fst st)
  | Fail st => Fail (fst st)
  | Fault => Fault
  | NoFuel => NoFuel
  end.

(** Run with a local variable [x] beside the caller's state. *)
Definition with_local {S X T A} (x : X) (m : M (S * (X * T)) A) : M (S * T) A := fun st =>
  match m (fst st, (x, snd st)) with
  | Done a s => Done a (fst s, snd (snd s))
  | Fail s => Fail (fst s, snd (snd s))
  | Fault => Fault
  | NoFuel => NoFuel
  end.

(** ** Laws of the state monad *)

Section MonadLaws.
Context {S : Type}.

Lemma bind_ret_l {A B} (a : A) (k : A -> M S B) s : (mret a ≫= k) s = k a s.
Proof. done. Qed.

(** A step of a computation that has a result. *)
Lemma run_inv {A B} (m : M S A) (k : A -> M S B) s b s' :
  (m ≫= k) s = Done b s' -> exists a s1, m s = Done a s1 /\ k a s1 = Done b s'.
Proof. unfold mbind, M_bind. destruct (m s) as [a s1|s1| |]; eauto; done. Qed.

Lemma bind_Done {A B} (m : M S A) (k : A -> M S B) s a s' :
  m s = Done a s' -> (m ≫= k) s = k a s'.
Proof. unfold mbind, M_bind. by intros ->. Qed.

Lemma bind_Fail {A B} (m : M S A) (k : A -> M S B) s s' :
  m s = Fail s' -> (m ≫= k) s = Fail s'.
Proof. unfold mbind, M_bind. by intros ->. Qed.

Lemma bind_assoc {A B C} (m : M S A) (k : A -> M S B) (h : B -> M S C) s :
  ((m ≫= k) ≫= h) s = (m ≫= (fun a => k a ≫= h)) s.
Proof. unfold mbind, M_bind. by destruct (m s). Qed.

Lemma bind_ext {A B} (m m' : M S A) (k k' : A -> M S B) s :
  m s = m' s -> (forall a s', k a s' = k' a s') -> (m ≫= k) s = (m' ≫= k') s.
Proof. unfold mbind, M_bind. intros -> Hk. destruct (m' s); auto. Qed.

(** The loop by iteration on [nat], and its agreement with [for_n]. *)
Fixpoint repeat_nat (n : nat) (m : M S unit) : M S unit :=
  match n with O => mret tt | Datatypes.S n => m ;; repeat_nat n m end.

Lemma repeat_nat_add n k m s :
  repeat_nat (n + k) m s = (repeat_nat n m ;; repeat_nat k m) s.
Proof.
  revert s. induction n as [|n IH]; intros s; [done|].
  cbn [repeat_nat Nat.add]. rewrite bind_assoc. by apply bind_ext; intros.
Qed.

Lemma repeat_pos_nat p m s : repeat_pos p m s = repeat_nat (Pos.to_nat p) m s.
Proof.
  revert s. induction p as [q IH|q IH|]; intros s; cbn [repeat_pos].
  - rewrite Pos2Nat.inj_xI. cbn [repeat_nat].
    apply bind_ext; [done|intros _ s']. rewrite Nat.mul_succ_l, Nat.mul_1_l, repeat_nat_add.
    by apply bind_ext; intros.
  - rewrite Pos2Nat.inj_xO. rewrite Nat.mul_succ_l, Nat.mul_1_l, repeat_nat_add.
    by apply bind_ext; intros.
  - change (Pos.to_nat 1) with 1%nat. cbn [repeat_nat].
    unfold mbind, M_bind, mret, M_ret. by destruct (m s) as [[]| | |].
Qed.

Lemma for_n_nat n m s : for_n n m s = repeat_nat (Z.to_nat n) m s.
Proof. destruct n as [|p|p]; [done| |done]. apply repeat_pos_nat. Qed.

End MonadLaws.
