(* ===== verification/TlSerial.v ===== *)
(** * TL binary serialization (src/core/tl_serial.c, tl_serial.h)

    The growable writer [TlWriter], the bounded cursor [TlReader], one
    definition per function of tl_serial.c, and the encoding/decoding
    theorems: what each writer appends, that the buffer capacity always
    covers the bytes copied into it, and that each reader returns what the
    corresponding writer wrote. *)

From S2P Require Import Prelude.

(** ** Writer *)

Module Writer.

(** [w_data] holds the [w_len] bytes written so far; the bytes of the
    allocation beyond [w_len] are not read by any function.  Allocation
    succeeds: an out-of-memory [realloc] aborts the program. *)
Record TlWriter := mkWriter { w_data : list byte; w_len : Z; w_cap : Z }.

Definition TL_BOOL_TRUE : Z := 0x997275b5.
Definition TL_BOOL_FALSE : Z := 0xbc799737.
Definition TL_VECTOR_CTOR : Z := 0x1cb5c415.

(** The doubling loop [while (new_cap < need) new_cap *= 2;] on [size_t]. *)
Fixpoint grow_cap (fuel : nat) (new_cap need : Z) : Z :=
  match fuel with
  | O => new_cap
  | S f => if new_cap <? need then grow_cap f (u64 (new_cap * 2)) need else new_cap
  end.

Definition writer_ensure (w : TlWriter) (needed : Z) : TlWriter :=
  if u64 (w_len w + needed) <=? w_cap w then w
  else
    let new_cap := if w_cap w =? 0 then 64 else w_cap w in
    mkWriter (w_data w) (w_len w) (grow_cap 64 new_cap (u64 (w_len w + needed))).

Definition writer_put (w : TlWriter) (src : list byte) : TlWriter :=
  let w' := writer_ensure w (zlen src) in
  mkWriter (w_data w' ++ src) (u64 (w_len w' + zlen src)) (w_cap w').

Definition tl_writer_init : TlWriter := mkWriter [] 0 0.

Definition tl_writer_free (w : TlWriter) : TlWriter := mkWriter [] 0 0.

Definition tl_write_raw (w : TlWriter) (data : list byte) : TlWriter := writer_put w data.

Definition write_le32 (w : TlWriter) (val : Z) : TlWriter :=
  writer_put w
    [byte.of_Z val; byte.of_Z (Z.shiftr val 8);
     byte.of_Z (Z.shiftr val 16); byte.of_Z (Z.shiftr val 24)].

Definition write_le64 (w : TlWriter) (val : Z) : TlWriter :=
  writer_put w (map (fun i => byte.of_Z (Z.shiftr val (8 * Z.of_nat i))) (seq 0 8)).

Definition tl_write_int32 (w : TlWriter) (val : Z) : TlWriter := write_le32 w (u32 val).
Definition tl_write_uint32 (w : TlWriter) (val : Z) : TlWriter := write_le32 w val.
Definition tl_write_int64 (w : TlWriter) (val : Z) : TlWriter := write_le64 w (u64 val).
Definition tl_write_uint64 (w : TlWriter) (val : Z) : TlWriter := write_le64 w val.

(** [val] is the caller's 16- or 32-byte array. *)
Definition tl_write_int128 (w : TlWriter) (val : list byte) : TlWriter :=
  writer_put w (take 16 val).
Definition tl_write_int256 (w : TlWriter) (val : list byte) : TlWriter :=
  writer_put w (take 32 val).

(** A double is its IEEE 754 bit pattern, a 64-bit value. *)
Definition tl_write_double (w : TlWriter) (raw : Z) : TlWriter := write_le64 w raw.

Definition tl_write_bool (w : TlWriter) (val : Z) : TlWriter :=
  write_le32 w (if val =? 0 then TL_BOOL_FALSE else TL_BOOL_TRUE).

Definition bytes_prefix (len : Z) : list byte :=
  if len <? 254 then [byte.of_Z len]
  else [byte.of_Z 0xFE; byte.of_Z len; byte.of_Z (Z.shiftr len 8); byte.of_Z (Z.shiftr len 16)].

Definition tl_write_bytes (w : TlWriter) (data : list byte) : TlWriter :=
  let len := zlen data in
  let w := writer_put w (bytes_prefix len) in
  let w := if 0 <? len then writer_put w data else w in
  let header := if len <? 254 then 1 else 4 in
  let total := u64 (header + len) in
  let pad := (4 - total mod 4) mod 4 in
  if 0 <? pad then writer_put w (replicate (Z.to_nat pad) Byte.x00) else w.

(** A C string up to its terminator; [NULL] is written as the empty string. *)
Definition tl_write_string (w : TlWriter) (s : option (list byte)) : TlWriter :=
  tl_write_bytes w (default [] s).

Definition tl_write_vector_begin (w : TlWriter) (count : Z) : TlWriter :=
  write_le32 (write_le32 w TL_VECTOR_CTOR) count.

End Writer.
Export Writer.

(** ** Reader *)

Module Reader.

(** [r_data] is the memory behind the pointer [data]: at least [r_len] bytes
    of it belong to the reader. *)
Record TlReader := mkReader { r_data : list byte; r_len : Z; r_pos : Z }.

Abbreviation Rd := (M TlReader).

Definition set_pos (r : TlReader) (p : Z) : TlReader := mkReader (r_data r) (r_len r) p.

(** The bytes [data[p .. p+n-1]]; [None] when they are not all inside the
    object [data] points to. *)
Definition mem_read (data : list byte) (p n : Z) : option (list byte) :=
  if (0 <=? p) && (0 <=? n) && (p + n <=? zlen data)
  then Some (take (Z.to_nat n) (drop (Z.to_nat p) data)) else None.

Definition reader_has (r : TlReader) (n : Z) : bool := u64 (r_pos r + n) <=? r_len r.

Definition read_le32 : Rd Z := fun r =>
  if negb (reader_has r 4) then Done 0 (set_pos r (r_len r))
  else match mem_read (r_data r) (r_pos r) 4 with
       | Some bs => Done (le_combine bs) (set_pos r (u64 (r_pos r + 4)))
       | None => Fault
       end.

Definition read_le64 : Rd Z := fun r =>
  if negb (reader_has r 8) then Done 0 (set_pos r (r_len r))
  else match mem_read (r_data r) (r_pos r) 8 with
       | Some bs => Done (le_combine bs) (set_pos r (u64 (r_pos r + 8)))
       | None => Fault
       end.

Definition tl_reader_init (data : list byte) (len : Z) : TlReader := mkReader data len 0.

Definition tl_reader_ok (r : TlReader) : bool := r_pos r <? r_len r.

Definition tl_read_int32 : Rd Z := v ← read_le32; mret (s32 v).
Definition tl_read_uint32 : Rd Z := read_le32.
Definition tl_read_int64 : Rd Z := v ← read_le64; mret (s64 v).
Definition tl_read_uint64 : Rd Z := read_le64.

(** Copy [n] bytes out, or [n] zeros when fewer than [n] are left. *)
Definition tl_read_raw (n : Z) : Rd (list byte) := fun r =>
  if negb (reader_has r n) then Done (replicate (Z.to_nat n) Byte.x00) (set_pos r (r_len r))
  else match mem_read (r_data r) (r_pos r) n with
       | Some bs => Done bs (set_pos r (u64 (r_pos r + n)))
       | None => Fault
       end.

Definition tl_read_int128 : Rd (list byte) := tl_read_raw 16.
Definition tl_read_int256 : Rd (list byte) := tl_read_raw 32.

(** The bit pattern of the double. *)
Definition tl_read_double : Rd Z := read_le64.

Definition tl_read_bool : Rd Z :=
  magic ← read_le32;
  mret (if magic =? TL_BOOL_TRUE then 1 else if magic =? TL_BOOL_FALSE then 0 else -1).

(** The second half of [tl_read_bytes], once the length prefix is decoded:
    check that the bytes are there, copy them, skip the padding.  [None] is
    the [NULL] result; [malloc] succeeds. *)
Definition read_bytes_body (header_size data_len : Z) : Rd (option (list byte)) := fun r =>
  let total_raw := u64 (header_size + data_len) in
  if negb (reader_has r total_raw) then Done None (set_pos r (r_len r))
  else match mem_read (r_data r) (u64 (r_pos r + header_size)) data_len with
       | Some bs =>
           let padded := Z.land (u64 (total_raw + 3)) (u64 (Z.lnot 3)) in
           Done (Some bs) (set_pos r (u64 (r_pos r + padded)))
       | None => Fault
       end.

Definition tl_read_bytes : Rd (option (list byte)) := fun r =>
  if negb (reader_has r 1) then Done None (set_pos r (r_len r))
  else match mem_read (r_data r) (r_pos r) 1 with
       | Some (first :: _) =>
           if byte.unsigned first <? 254 then read_bytes_body 1 (byte.unsigned first) r
           else if negb (reader_has r 4) then Done None (set_pos r (r_len r))
           else match mem_read (r_data r) (u64 (r_pos r + 1)) 3 with
                | Some bs => read_bytes_body 4 (le_combine bs) r
                | None => Fault
                end
       | _ => Fault
       end.

(** The bytes before the added terminator. *)
Definition tl_read_string : Rd (option (list byte)) := tl_read_bytes.

Definition tl_read_skip (n : Z) : Rd unit := fun r =>
  if r_len r <? u64 (r_pos r + n) then Done tt (set_pos r (r_len r))
  else Done tt (set_pos r (u64 (r_pos r + n))).

End Reader.
Export Reader.

(** ** What the writer produces *)

Module Encode.

Definition enc32 (v : Z) : list byte := le_split 4 v.
Definition enc64 (v : Z) : list byte := le_split 8 v.

(** Zero bytes that bring [n] bytes to a 4-byte boundary. *)
Definition padding (n : Z) : list byte := replicate (Z.to_nat ((4 - n mod 4) mod 4)) Byte.x00.

(** TL [bytes]/[string]: prefix, contents, padding. *)
Definition enc_bytes (data : list byte) : list byte :=
  let p := bytes_prefix (zlen data) in
  p ++ data ++ padding (zlen p + zlen data).

Definition enc_bool (b : bool) : list byte := enc32 (if b then TL_BOOL_TRUE else TL_BOOL_FALSE).

(** The writer invariant: the length counts the bytes, the capacity covers
    them, and the capacity is [0] or a power of two from 64 on. *)
Definition writer_inv (w : TlWriter) : Prop :=
  w_len w = zlen (w_data w) /\ w_len w <= w_cap w /\
  (w_cap w = 0 \/ exists k, 6 <= k <= 63 /\ w_cap w = 2 ^ k).

Lemma grow_cap_spec fuel k need :
  6 <= k <= 63 -> need <= 2 ^ 63 -> 63 - k <= Z.of_nat fuel ->
  need <= grow_cap fuel (2 ^ k) need /\
  exists k', k <= k' <= 63 /\ grow_cap fuel (2 ^ k) need = 2 ^ k'.
Proof.
  revert k. induction fuel as [|fuel IH]; intros k Hk Hn Hf; cbn [grow_cap].
  { assert (k = 63) as -> by lia. split; [done|]. exists 63. lia. }
  destruct (Z.ltb_spec (2 ^ k) need) as [Hlt|Hge].
  2: { split; [lia|]. exists k. lia. }
  assert (Hk' : k < 63) by (apply (Z.pow_lt_mono_r_iff 2); lia).
  replace (u64 (2 ^ k * 2)) with (2 ^ (k + 1)).
  - destruct (IH (k + 1)) as (Hle & k' & Hb & Heq); [lia..|].
    split; [done|]. exists k'. split; [lia|done].
  - rewrite Z.pow_add_r, Z.pow_1_r by lia. symmetry. apply u64_id.
    pose proof (Z.pow_lt_mono_r 2 (k + 1) 64). rewrite Z.pow_add_r in * by lia.
    unfold is_u64. lia.
Qed.

(** Every copy of [writer_put] fits in the buffer and appends its bytes. *)
Lemma writer_put_spec w src :
  writer_inv w -> zlen (w_data w) + zlen src <= 2 ^ 63 ->
  writer_inv (writer_put w src) /\ w_data (writer_put w src) = w_data w ++ src.
Proof.
  intros (Hl & Hc & Hk) Hb. pose proof (zlen_nonneg src). pose proof (zlen_nonneg (w_data w)).
  unfold writer_put, writer_ensure, writer_inv.
  rewrite (u64_id (w_len w + zlen src)) by (unfold is_u64; lia).
  destruct (Z.leb_spec (w_len w + zlen src) (w_cap w)) as [Hle|Hgt]; cbn.
  - rewrite zlen_app, u64_id by (unfold is_u64; lia).
    split_and!; [lia|lia|done|done].
  - rewrite zlen_app, u64_id by (unfold is_u64; lia).
    assert (exists k, 6 <= k <= 63 /\ (if w_cap w =? 0 then 64 else w_cap w) = 2 ^ k)
      as (k & Hk' & ->).
    { destruct (Z.eqb_spec (w_cap w) 0) as [_|Hne].
      - exists 6. lia.
      - destruct Hk as [?|(k & ? & ?)]; [lia|eauto]. }
    destruct (grow_cap_spec 64 k (w_len w + zlen src)) as (Hle & k' & Hk2 & Heq); [lia..|].
    split_and!; [lia|exact Hle| |done]. right. exists k'. split; [lia|exact Heq].
Qed.

Lemma writer_init_inv : writer_inv tl_writer_init.
Proof. split; [done|]. split; [done|]. by left. Qed.

(** A writer operation that appends exactly [bs]. *)
Definition appends (op : TlWriter -> TlWriter) (bs : list byte) : Prop :=
  forall w, writer_inv w -> zlen (w_data w) + zlen bs <= 2 ^ 63 ->
            writer_inv (op w) /\ w_data (op w) = w_data w ++ bs.

Lemma appends_put bs : appends (fun w => writer_put w bs) bs.
Proof. intros w. apply writer_put_spec. Qed.

Lemma appends_nil : appends (fun w => w) [].
Proof. intros w Hw _. by rewrite app_nil_r. Qed.

Lemma appends_comp f g bs cs :
  appends f bs -> appends g cs -> appends (fun w => g (f w)) (bs ++ cs).
Proof.
  intros Hf Hg w Hw Hb. rewrite zlen_app in Hb. pose proof (zlen_nonneg cs).
  destruct (Hf w Hw ltac:(lia)) as [Hi Hd].
  destruct (Hg (f w) Hi) as [Hi' Hd']; [rewrite Hd, zlen_app; lia|].
  split; [done|]. by rewrite Hd', Hd, app_assoc.
Qed.

Lemma le_bytes32 val :
  [byte.of_Z val; byte.of_Z (Z.shiftr val 8); byte.of_Z (Z.shiftr val 16);
   byte.of_Z (Z.shiftr val 24)] = enc32 val.
Proof. unfold enc32, le_split. by rewrite !Z.shiftr_shiftr by lia. Qed.

Lemma le_bytes64 val :
  map (fun i => byte.of_Z (Z.shiftr val (8 * Z.of_nat i))) (seq 0 8) = enc64 val.
Proof.
  unfold enc64, le_split. cbn [map seq]. rewrite !Z.shiftr_shiftr by lia. by rewrite Z.shiftr_0_r.
Qed.

Lemma enc32_u32 v : enc32 (u32 v) = enc32 v.
Proof. unfold enc32, u32. symmetry. apply (le_split_mod v 4). Qed.

Lemma enc64_u64 v : enc64 (u64 v) = enc64 v.
Proof. unfold enc64, u64. symmetry. apply (le_split_mod v 8). Qed.

Lemma enc32_s32 v : enc32 (s32 v) = enc32 v.
Proof. by rewrite <- enc32_u32, u32_s32, enc32_u32. Qed.

Lemma enc64_s64 v : enc64 (s64 v) = enc64 v.
Proof. by rewrite <- enc64_u64, u64_s64, enc64_u64. Qed.

Lemma combine_enc32 v : is_u32 v -> le_combine (enc32 v) = v.
Proof. intros H. unfold enc32. by rewrite le_val_u32, u32_id. Qed.

Lemma s32_combine v : is_s32 v -> s32 (le_combine (enc32 v)) = v.
Proof. intros H. unfold enc32. by rewrite le_val_u32, s32_u32. Qed.

Lemma s64_combine v : is_s64 v -> s64 (le_combine (enc64 v)) = v.
Proof. intros H. unfold enc64. by rewrite le_val_u64, s64_u64. Qed.

Lemma appends_uint32 v : appends (fun w => tl_write_uint32 w v) (enc32 v).
Proof. unfold tl_write_uint32, write_le32. rewrite le_bytes32. apply appends_put. Qed.

Lemma appends_int32 v : appends (fun w => tl_write_int32 w v) (enc32 v).
Proof. rewrite <- enc32_u32. apply appends_uint32. Qed.

Lemma appends_uint64 v : appends (fun w => tl_write_uint64 w v) (enc64 v).
Proof. unfold tl_write_uint64, write_le64. rewrite le_bytes64. apply appends_put. Qed.

Lemma appends_int64 v : appends (fun w => tl_write_int64 w v) (enc64 v).
Proof. rewrite <- enc64_u64. apply appends_uint64. Qed.

Lemma appends_raw bs : appends (fun w => tl_write_raw w bs) bs.
Proof. apply appends_put. Qed.

Lemma appends_bool (b : bool) : appends (fun w => tl_write_bool w (if b then 1 else 0)) (enc_bool b).
Proof. destruct b; apply appends_uint32. Qed.

Lemma appends_vector_begin n :
  appends (fun w => tl_write_vector_begin w n) (enc32 TL_VECTOR_CTOR ++ enc32 n).
Proof. apply (appends_comp _ _ _ _ (appends_uint32 _) (appends_uint32 _)). Qed.

Lemma bytes_prefix_len n : zlen (bytes_prefix n) = if n <? 254 then 1 else 4.
Proof. unfold bytes_prefix. by destruct (n <? 254). Qed.

Lemma padding_range n : 0 <= (4 - n mod 4) mod 4 < 4.
Proof. apply Z.mod_pos_bound. lia. Qed.

Lemma enc_bytes_len data :
  zlen (enc_bytes data) mod 4 = 0 /\ zlen data < zlen (enc_bytes data) <= zlen data + 7.
Proof.
  unfold enc_bytes, padding. autorewrite with zlen. rewrite bytes_prefix_len.
  pose proof (zlen_nonneg data).
  destruct (zlen data <? 254) eqn:E; bool_prop; rewrite Z2Nat.id by apply padding_range;
    Z.div_mod_to_equations; lia.
Qed.

(** Appending an optional piece. *)
Lemma appends_if (c : bool) bs :
  (c = false -> bs = []) -> appends (fun w => if c then writer_put w bs else w) bs.
Proof. destruct c; [intros _; apply appends_put|]. intros ->; [apply appends_nil|done]. Qed.

(** [tl_write_bytes] appends the TL encoding of its argument. *)
Lemma appends_bytes data :
  appends (fun w => tl_write_bytes w data) (enc_bytes data).
Proof.
  intros w Hw Hb. pose proof (enc_bytes_len data) as [_ Hlen].
  pose proof (zlen_nonneg data). pose proof (zlen_nonneg (w_data w)).
  unfold tl_write_bytes, enc_bytes in *. cbn zeta in *.
  rewrite <- bytes_prefix_len, (u64_id (_ + _)) by
    (unfold is_u64; rewrite bytes_prefix_len; destruct (_ <? _); lia).
  set (p := bytes_prefix (zlen data)) in *.
  set (n := (4 - (zlen p + zlen data) mod 4) mod 4).
  set (f := fun w => if 0 <? zlen data then writer_put w data else w).
  set (g := fun w => if 0 <? n then writer_put w (replicate (Z.to_nat n) Byte.x00) else w).
  assert (Hc : appends (fun w => g (f (writer_put w p))) (p ++ data ++ padding (zlen p + zlen data))).
  { apply (appends_comp (fun w => writer_put w p) (fun w => g (f w))); [apply appends_put|].
    apply (appends_comp f g).
    - apply appends_if. intros Hz. bool_prop. apply length_zero_iff_nil. unfold zlen in Hz. lia.
    - apply appends_if. intros Hz. bool_prop. unfold padding. by rewrite Z2Nat.nonpos. }
  by apply Hc.
Qed.

Lemma appends_string s : appends (fun w => tl_write_string w s) (enc_bytes (default [] s)).
Proof. apply appends_bytes. Qed.

End Encode.
Export Encode.

(** ** What the reader consumes *)

Module Decode.

(** Buffers are smaller than [2^62] bytes, so positions never wrap. *)
Definition SIZE_LIM : Z := 2 ^ 62.

(** A well-formed reader: the [r_len] bytes exist, and the cursor is at most
    three bytes past them ([tl_read_bytes] skips padding that a truncated
    buffer may not contain). *)
Definition reader_wf (r : TlReader) : Prop :=
  0 <= r_pos r <= r_len r + 3 /\ r_len r <= zlen (r_data r) /\ 0 <= r_len r <= SIZE_LIM.

(** The unread bytes. *)
Definition rest (r : TlReader) : list byte :=
  drop (Z.to_nat (r_pos r)) (take (Z.to_nat (r_len r)) (r_data r)).

(** How many there are. *)
Definition left (r : TlReader) : Z := Z.max 0 (r_len r - r_pos r).

Definition adv (r : TlReader) (n : Z) : TlReader := set_pos r (r_pos r + n).

(** [r'] is [r] later: same buffer, nothing un-read. *)
Definition later (r r' : TlReader) : Prop :=
  reader_wf r' /\ r_data r' = r_data r /\ r_len r' = r_len r /\ left r' <= left r.

Lemma left_nonneg r : 0 <= left r.
Proof. unfold left. lia. Qed.

Lemma rest_len r : reader_wf r -> zlen (rest r) = left r.
Proof.
  unfold reader_wf, rest, left, zlen. intros H. rewrite length_drop, length_take. lia.
Qed.

Lemma later_refl r : reader_wf r -> later r r.
Proof. unfold later. intuition lia. Qed.

Lemma later_trans r1 r2 r3 : later r1 r2 -> later r2 r3 -> later r1 r3.
Proof. unfold later. intuition (try congruence; lia). Qed.

Lemma reader_init_wf data len :
  0 <= len <= zlen data -> len <= SIZE_LIM -> reader_wf (tl_reader_init data len).
Proof. unfold reader_wf. cbn. lia. Qed.

Lemma rest_init data : rest (tl_reader_init data (zlen data)) = data.
Proof. unfold rest, zlen. cbn. by rewrite Nat2Z.id, firstn_all. Qed.

Section At.
Context (r : TlReader) (bs tl : list byte).
Context (Hwf : reader_wf r) (Hrest : rest r = bs ++ tl).

Lemma rest_split_pos : 0 < zlen bs -> r_pos r + zlen bs <= r_len r.
Proof.
  intros Hb. pose proof (rest_len r Hwf) as Hl. rewrite Hrest, zlen_app in Hl.
  pose proof (zlen_nonneg tl). unfold left in Hl. lia.
Qed.

Lemma has_at : 0 < zlen bs -> reader_has r (zlen bs) = true.
Proof.
  intros Hb. pose proof (rest_split_pos Hb). unfold reader_has, reader_wf, SIZE_LIM in *.
  apply Z.leb_le. rewrite u64_id; unfold is_u64; lia.
Qed.

Lemma drop_data : drop (Z.to_nat (r_pos r)) (r_data r) =
  bs ++ tl ++ drop (Z.to_nat (Z.max (r_pos r) (r_len r))) (r_data r).
Proof.
  destruct Hwf as (Hp & Hd & _). unfold rest in Hrest.
  rewrite app_assoc, <- Hrest.
  destruct (decide (r_pos r <= r_len r)) as [Hle|Hgt].
  - rewrite Z.max_r by lia.
    rewrite <- (take_drop (Z.to_nat (r_len r)) (r_data r)) at 1.
    rewrite drop_app_le; [done|]. unfold zlen in Hd. rewrite length_take. lia.
  - rewrite Z.max_l by lia. rewrite (drop_ge (take _ _)); [done|]. rewrite length_take. lia.
Qed.

Lemma mem_at off n :
  0 <= off -> 0 <= n -> off + n <= zlen bs -> 0 < zlen bs ->
  mem_read (r_data r) (r_pos r + off) n = Some (take (Z.to_nat n) (drop (Z.to_nat off) bs)).
Proof.
  intros Ho Hn Hs Hb. pose proof (rest_split_pos Hb). destruct Hwf as (Hp & Hd & _).
  unfold mem_read.
  rewrite (proj2 (Z.leb_le 0 (r_pos r + off))), (proj2 (Z.leb_le 0 n)),
    (proj2 (Z.leb_le _ (zlen (r_data r)))) by lia. cbn.
  rewrite Z2Nat.inj_add, <- drop_drop, drop_data by lia.
  unfold zlen in *. rewrite drop_app_le by lia. rewrite take_app_le; [done|].
  rewrite length_drop. lia.
Qed.

Lemma mem_at0 : 0 < zlen bs -> mem_read (r_data r) (r_pos r) (zlen bs) = Some bs.
Proof.
  intros Hb. pose proof (mem_at 0 (zlen bs)) as H. rewrite Z.add_0_r in H.
  rewrite H by lia. unfold zlen. by rewrite Nat2Z.id, drop_0, firstn_all.
Qed.

Lemma rest_adv n : n = zlen bs -> rest (adv r n) = tl.
Proof.
  intros ->. destruct Hwf as (Hp & _). unfold rest, adv in *. cbn. pose proof (zlen_nonneg bs).
  rewrite Z2Nat.inj_add, <- drop_drop, Hrest by lia. by apply drop_app_exact.
Qed.

Lemma adv_wf n : n = zlen bs -> reader_wf (adv r n).
Proof.
  intros ->. pose proof (zlen_nonneg bs). destruct (decide (zlen bs = 0)) as [->|Hne].
  - unfold adv, reader_wf in *. cbn. rewrite Z.add_0_r. done.
  - pose proof (rest_split_pos ltac:(lia)). unfold adv, reader_wf in *. cbn. lia.
Qed.

Lemma u64_pos : u64 (r_pos r + zlen bs) = r_pos r + zlen bs.
Proof.
  apply u64_id. pose proof (zlen_nonneg bs). destruct (decide (zlen bs = 0)) as [->|Hne].
  - unfold reader_wf, SIZE_LIM, is_u64 in *. lia.
  - pose proof (rest_split_pos ltac:(lia)). unfold reader_wf, SIZE_LIM, is_u64 in *. lia.
Qed.

End At.

(** Fixed-width reads return the bytes at the cursor. *)
Lemma read_le32_at r v tl :
  reader_wf r -> rest r = enc32 v ++ tl -> read_le32 r = Done (u32 v) (adv r 4).
Proof.
  intros Hwf Hr. pose proof (has_at r _ _ Hwf Hr). pose proof (mem_at0 r _ _ Hwf Hr).
  pose proof (u64_pos r _ _ Hwf Hr). unfold enc32 in *. rewrite zlen_le_split in *.
  change (Z.of_nat 4) with 4 in *.
  unfold read_le32. rewrite H, H0, H1 by lia. cbn. by rewrite le_val_u32.
Qed.

Lemma read_le64_at r v tl :
  reader_wf r -> rest r = enc64 v ++ tl -> read_le64 r = Done (u64 v) (adv r 8).
Proof.
  intros Hwf Hr. pose proof (has_at r _ _ Hwf Hr). pose proof (mem_at0 r _ _ Hwf Hr).
  pose proof (u64_pos r _ _ Hwf Hr). unfold enc64 in *. rewrite zlen_le_split in *.
  change (Z.of_nat 8) with 8 in *.
  unfold read_le64. rewrite H, H0, H1 by lia. cbn. by rewrite le_val_u64.
Qed.

Lemma read_raw_at r bs tl :
  reader_wf r -> rest r = bs ++ tl -> 0 < zlen bs ->
  tl_read_raw (zlen bs) r = Done bs (adv r (zlen bs)).
Proof.
  intros Hwf Hr Hb. unfold tl_read_raw.
  rewrite (has_at r _ _ Hwf Hr Hb), (mem_at0 r _ _ Hwf Hr Hb), (u64_pos r _ _ Hwf Hr). done.
Qed.

(** [(n + 3) & ~3]: [n] rounded up to a multiple of four. *)
Lemma padded_value n : 0 <= n <= SIZE_LIM ->
  Z.land (u64 (n + 3)) (u64 (Z.lnot 3)) = n + (4 - n mod 4) mod 4.
Proof.
  unfold SIZE_LIM. intros Hn. change 3 with (Z.ones 2) at 2.
  rewrite land_lnot_ones64 by (try apply u64_range; lia).
  rewrite u64_id by (unfold is_u64; lia). Z.div_mod_to_equations. lia.
Qed.

Lemma reader_has_le r n : reader_wf r -> 0 <= n <= SIZE_LIM ->
  reader_has r n = (r_pos r + n <=? r_len r).
Proof.
  unfold reader_wf, reader_has, SIZE_LIM. intros Hwf Hn. rewrite u64_id; [done|].
  unfold is_u64. lia.
Qed.

(** The three length bytes of the long prefix. *)
Lemma le_prefix3 n : 0 <= n < 2 ^ 24 ->
  le_combine [byte.of_Z n; byte.of_Z (Z.shiftr n 8); byte.of_Z (Z.shiftr n 16)] = n.
Proof.
  intros Hn. rewrite <- (le_split_range 3 n) at 4 by done.
  unfold le_split. by rewrite Z.shiftr_shiftr by lia.
Qed.

Lemma read_bytes_body_at r p data tl :
  reader_wf r -> rest r = (p ++ data ++ padding (zlen p + zlen data)) ++ tl ->
  0 < zlen p <= 4 -> zlen data < 2 ^ 24 ->
  read_bytes_body (zlen p) (zlen data) r =
  Done (Some data) (adv r (zlen (p ++ data ++ padding (zlen p + zlen data)))).
Proof.
  intros Hwf Hr Hp Hd. pose proof (zlen_nonneg data) as Hd0.
  pose proof (padding_range (zlen p + zlen data)) as Hpr.
  assert (Hlim : 0 <= r_pos r <= SIZE_LIM + 3) by (unfold reader_wf in Hwf; lia).
  assert (Hl : zlen (p ++ data ++ padding (zlen p + zlen data)) =
               zlen p + zlen data + (4 - (zlen p + zlen data) mod 4) mod 4).
  { unfold padding. autorewrite with zlen. rewrite Z2Nat.id by lia. lia. }
  assert (Hpos : r_pos r + (zlen p + zlen data + (4 - (zlen p + zlen data) mod 4) mod 4) <= r_len r).
  { rewrite <- Hl. apply (rest_split_pos r _ _ Hwf Hr). lia. }
  unfold read_bytes_body, SIZE_LIM in *. rewrite (u64_id (zlen p + zlen data)) by (unfold is_u64; lia).
  rewrite reader_has_le by (done || unfold SIZE_LIM; lia).
  rewrite (proj2 (Z.leb_le (r_pos r + (zlen p + zlen data)) (r_len r))) by lia. cbn [negb].
  rewrite (u64_id (r_pos r + zlen p)) by (unfold is_u64; lia).
  rewrite (mem_at r _ _ Hwf Hr) by lia.
  rewrite padded_value by (unfold SIZE_LIM; lia). rewrite u64_id by (unfold is_u64; lia).
  rewrite drop_app_exact, take_app_exact by done. unfold adv. by rewrite Hl.
Qed.

(** Reading back a TL string or byte array. *)
Lemma read_bytes_at r data tl :
  reader_wf r -> rest r = enc_bytes data ++ tl -> zlen data < 2 ^ 24 ->
  tl_read_bytes r = Done (Some data) (adv r (zlen (enc_bytes data))).
Proof.
  intros Hwf Hr Hd. pose proof (enc_bytes_len data) as [_ Hlen].
  pose proof (zlen_nonneg data) as Hd0.
  pose proof (rest_split_pos r _ _ Hwf Hr ltac:(lia)) as Hp.
  assert (Hlim : 0 <= r_pos r <= SIZE_LIM) by (unfold reader_wf in Hwf; lia).
  pose proof (mem_at r _ _ Hwf Hr) as Hmem.
  unfold enc_bytes in *. cbn zeta in *.
  pose proof (read_bytes_body_at r _ _ _ Hwf Hr) as Hbody.
  rewrite bytes_prefix_len in Hbody at 1 2 3.
  unfold tl_read_bytes. rewrite !(reader_has_le r) by (done || unfold SIZE_LIM; lia).
  rewrite (proj2 (Z.leb_le (r_pos r + 1) (r_len r))) by lia. cbn [negb].
  pose proof (Hmem 0 1) as H1. rewrite Z.add_0_r in H1.
  unfold bytes_prefix in *. destruct (Z.ltb_spec (zlen data) 254) as [Hs|Hs]; cbn [app] in *;
    rewrite !zlen_cons in *; rewrite H1 by lia;
    change (Z.to_nat 1) with 1%nat; change (Z.to_nat 0) with 0%nat; cbn [take drop].
  - rewrite byte.unsigned_of_Z. unfold byte.wrap. rewrite Z.mod_small by lia.
    rewrite (proj2 (Z.ltb_lt (zlen data) 254)) by lia. apply Hbody; lia.
  - change (byte.unsigned (byte.of_Z 254) <? 254) with false. cbn iota.
    rewrite (proj2 (Z.leb_le (r_pos r + 4) (r_len r))) by (pose proof (zlen_nonneg data); lia).
    cbn [negb]. unfold SIZE_LIM in Hlim.
    rewrite (u64_id (r_pos r + 1)), Hmem by (unfold is_u64; lia).
    change (Z.to_nat 1) with 1%nat. change (Z.to_nat 3) with 3%nat. cbn [take drop].
    rewrite le_prefix3 by lia. apply Hbody; lia.
Qed.

End Decode.
Export Decode.
