(* ===== verification/TlLogic.v ===== *)
(** * A small program logic for code that walks a TL buffer

    Two judgements on computations over a state that contains a [TlReader]:

    - [safe_upto b m]: started with at most [b] unread bytes, [m] reads only
      inside the buffer, exhausts no recursion bound, and returns or fails
      with the same buffer and no more unread bytes than before;
    - [reads m bs a]: started in front of the bytes [bs], [m] succeeds with
      result [a] and the cursor exactly behind [bs].

    The components that parse server data prove their skippers and parsers
    against this interface. *)

From S2P Require Import Prelude TlSerial.

(** A state with a reader inside. *)
Class HasReader (S : Type) := {
  rd : S -> TlReader;
  with_rd : S -> TlReader -> S;
  rd_with_rd s r : rd (with_rd s r) = r;
  with_rd_rd s : with_rd s (rd s) = s;
  with_rd_with_rd s r r' : with_rd (with_rd s r) r' = with_rd s r';
}.

#[global] Program Instance HasReader_self : HasReader TlReader := {|
  rd r := r; with_rd _ r := r |}.
Solve All Obligations with done.

#[global] Program Instance HasReader_fst {T} : HasReader (TlReader * T) := {|
  rd := fst; with_rd p r := (r, snd p) |}.
Solve All Obligations with (intros; by destruct s || done).

(** ** The guards of the C code *)

(** [r->len - r->pos], a [size_t]: it wraps when the cursor is past the end. *)
Definition remaining (r : TlReader) : Z := u64 (r_len r - r_pos r).

(** [if (r->len - r->pos < n) return -1;] *)
Definition need (n : Z) : Rd unit := fail_if (fun r => remaining r <? n).

(** [if (!tl_reader_ok(r) || r->len - r->pos < n) return -1;] *)
Definition need_ok (n : Z) : Rd unit :=
  fail_if (fun r => negb (tl_reader_ok r) || (remaining r <? n)).

(** Run a depth-bounded walker with a bound larger than the unread bytes. *)
Definition fuelled {S A} `{HasReader S} (f : nat -> M S A) : M S A :=
  fun s => f (Datatypes.S (Z.to_nat (left (rd s)))) s.

(** ** Safety *)

Definition safe_upto {S A} `{HasReader S} (b : Z) (m : M S A) : Prop :=
  forall s, reader_wf (rd s) -> left (rd s) <= b ->
    match m s with
    | Done _ s' | Fail s' => later (rd s) (rd s')
    | Fault | NoFuel => False
    end.

Definition safe {S A} `{HasReader S} (m : M S A) : Prop := forall b, safe_upto b m.

Section Safety.
Context {S : Type} `{!HasReader S}.

Lemma safe_upto_neg {A} b (m : M S A) : b < 0 -> safe_upto b m.
Proof. intros Hb s _ Hl. pose proof (left_nonneg (rd s)). lia. Qed.

Lemma safe_upto_mono {A} b b' (m : M S A) : b' <= b -> safe_upto b m -> safe_upto b' m.
Proof. intros Hb Hm s Hwf Hl. apply Hm; [done|lia]. Qed.

Lemma safe_weaken {A} b (m : M S A) : safe m -> safe_upto b m.
Proof. intros Hm. apply Hm. Qed.

Lemma safe_ret {A} b (a : A) : safe_upto b (mret a : M S A).
Proof. intros s Hwf _. by apply later_refl. Qed.

Lemma safe_fail {A} b : safe_upto b (fail : M S A).
Proof. intros s Hwf _. by apply later_refl. Qed.

Lemma safe_fail_if b (c : S -> bool) : safe_upto b (fail_if c).
Proof. intros s Hwf _. unfold fail_if. destruct (c s); by apply later_refl. Qed.

Lemma safe_bind {A B} b (m : M S A) (k : A -> M S B) :
  safe_upto b m -> (forall a, safe_upto b (k a)) -> safe_upto b (m ≫= k).
Proof.
  intros Hm Hk s Hwf Hl. specialize (Hm s Hwf Hl). unfold mbind, M_bind.
  destruct (m s) as [a s'|s'| |]; [|done..].
  assert (Hl' := Hm). destruct Hl' as (Hwf' & _ & _ & Hle).
  specialize (Hk a s' Hwf' ltac:(lia)).
  destruct (k a s'); try done; by eapply later_trans.
Qed.

Lemma safe_if {A} b (c : bool) (m m' : M S A) :
  safe_upto b m -> safe_upto b m' -> safe_upto b (if c then m else m').
Proof. by destruct c. Qed.

Lemma safe_when b (c : bool) (m : M S unit) : safe_upto b m -> safe_upto b (when c m).
Proof. intros Hm. apply safe_if; [done|apply safe_ret]. Qed.

Lemma safe_switch {A} b v (cases : list (list Z * M S A)) d :
  Forall (fun c => safe_upto b (snd c)) cases -> safe_upto b d -> safe_upto b (switch v cases d).
Proof.
  intros Hc Hd. induction Hc as [|[ls m] cs Hm _ IH]; [done|].
  cbn. by apply safe_if.
Qed.

Lemma safe_repeat_pos b p (m : M S unit) : safe_upto b m -> safe_upto b (repeat_pos p m).
Proof. intros Hm. induction p; cbn [repeat_pos]; auto using safe_bind. Qed.

Lemma safe_for_n b n (m : M S unit) : safe_upto b m -> safe_upto b (for_n n m).
Proof. intros Hm. destruct n; [apply safe_ret|by apply safe_repeat_pos|apply safe_ret]. Qed.

(** A walker that is safe as long as its fuel exceeds the unread bytes is
    safe outright once it is given that much fuel. *)
Lemma safe_fuelled {A} b (f : nat -> M S A) :
  (forall n b, b < Z.of_nat n -> safe_upto b (f n)) -> safe_upto b (fuelled f).
Proof.
  intros Hf s Hwf _. unfold fuelled. apply (Hf _ (left (rd s))); [|done|done].
  pose proof (left_nonneg (rd s)). lia.
Qed.

End Safety.

Lemma safe_lift {T A} b (m : Rd A) : safe_upto b m -> safe_upto b (lift (T:=T) m).
Proof.
  intros Hm [r t] Hwf Hl. specialize (Hm r Hwf Hl). unfold lift. cbn [fst snd].
  by destruct (m r).
Qed.

(** *** The primitive reads are safe *)

(** Introduce the reader of a [safe_upto] goal on plain readers. *)
Ltac intro_reader r :=
  intros r; change (rd r) with r; intros Hwf Hb.

Lemma mem_read_some data p n :
  0 <= p -> 0 <= n -> p + n <= zlen data ->
  mem_read data p n = Some (take (Z.to_nat n) (drop (Z.to_nat p) data)).
Proof.
  intros Hp Hn Hd. unfold mem_read. by rewrite !(proj2 (Z.leb_le _ _)) by lia.
Qed.

Lemma later_set_pos r p :
  reader_wf r -> 0 <= p <= r_len r + 3 -> r_len r - p <= left r -> later r (set_pos r p).
Proof.
  unfold later, reader_wf, left. cbn. intros Hwf Hp Hl. split_and!; try done; lia.
Qed.

(** What a read of [n] bytes does to the cursor, on both of its branches. *)
Lemma read_n_cases {A} r n (f : list byte -> A) (z : A) :
  reader_wf r -> 0 <= n <= SIZE_LIM ->
  exists v r',
    (if negb (reader_has r n) then Done z (set_pos r (r_len r))
     else match mem_read (r_data r) (r_pos r) n with
          | Some bs => Done (f bs) (set_pos r (u64 (r_pos r + n)))
          | None => Fault
          end) = Done v r' /\ later r r' /\ (n <= left r -> left r' = left r - n).
Proof.
  intros Hwf Hn. rewrite reader_has_le by done.
  destruct (Z.leb_spec (r_pos r + n) (r_len r)) as [Hle|Hgt]; cbn [negb].
  - unfold reader_wf, SIZE_LIM in *. rewrite mem_read_some by lia.
    rewrite u64_id by (unfold is_u64; lia). eexists _, _. split; [done|].
    split; [apply later_set_pos; unfold reader_wf, SIZE_LIM, left; lia|].
    unfold left. cbn. lia.
  - eexists _, _. split; [done|]. unfold reader_wf in Hwf.
    split; [apply later_set_pos; unfold reader_wf, left; lia|]. unfold left. cbn. lia.
Qed.

Lemma safe_read_le32 b : safe_upto b read_le32.
Proof.
  intro_reader r. destruct (read_n_cases r 4 le_combine 0 Hwf) as (v & r' & Heq & Hl & _);
    [unfold SIZE_LIM; lia|]. unfold read_le32. by rewrite Heq.
Qed.

Lemma safe_read_le64 b : safe_upto b read_le64.
Proof.
  intro_reader r. destruct (read_n_cases r 8 le_combine 0 Hwf) as (v & r' & Heq & Hl & _);
    [unfold SIZE_LIM; lia|]. unfold read_le64. by rewrite Heq.
Qed.

Lemma safe_read_raw b n : 0 <= n <= SIZE_LIM -> safe_upto b (tl_read_raw n).
Proof.
  intros Hn. intro_reader r.
  destruct (read_n_cases r n id (replicate (Z.to_nat n) Byte.x00) Hwf Hn) as (v & r' & Heq & Hl & _).
  unfold id in Heq. unfold tl_read_raw. by rewrite Heq.
Qed.

Lemma safe_read_skip b n : 0 <= n <= SIZE_LIM -> safe_upto b (tl_read_skip n).
Proof.
  intros Hn. intro_reader r. unfold tl_read_skip, reader_wf, SIZE_LIM in *.
  rewrite u64_id by (unfold is_u64; lia).
  destruct (Z.ltb_spec (r_len r) (r_pos r + n)); apply later_set_pos;
    unfold reader_wf, SIZE_LIM, left; lia.
Qed.

Lemma safe_read_bytes_body b h n :
  0 < h <= 4 -> 0 <= n < 2 ^ 24 -> safe_upto b (read_bytes_body h n).
Proof.
  intros Hh Hn. intro_reader r. assert (Hwf' := Hwf). unfold read_bytes_body, reader_wf, SIZE_LIM in *.
  rewrite (u64_id (h + n)) by (unfold is_u64; lia).
  rewrite reader_has_le by (unfold SIZE_LIM; done || lia).
  destruct (Z.leb_spec (r_pos r + (h + n)) (r_len r)); cbn [negb].
  - rewrite (u64_id (r_pos r + h)), mem_read_some by (unfold is_u64; lia).
    rewrite padded_value by (unfold SIZE_LIM; lia).
    pose proof (padding_range (h + n)). rewrite u64_id by (unfold is_u64; lia).
    apply later_set_pos; unfold left; done || lia.
  - apply later_set_pos; unfold left; done || lia.
Qed.

Lemma le_combine3_range bs : length bs = 3%nat -> 0 <= le_combine bs < 2 ^ 24.
Proof. intros H. pose proof (le_combine_bound bs). rewrite H in *. done. Qed.

Lemma safe_read_bytes b : safe_upto b tl_read_bytes.
Proof.
  intro_reader r. assert (Hwf' := Hwf). unfold tl_read_bytes, reader_wf, SIZE_LIM in *.
  assert (Hpast : later r (set_pos r (r_len r))) by (apply later_set_pos; unfold left; done || lia).
  rewrite !reader_has_le by (unfold SIZE_LIM; done || lia).
  destruct (Z.leb_spec (r_pos r + 1) (r_len r)); cbn [negb]; [|done].
  rewrite mem_read_some by lia.
  destruct (take (Z.to_nat 1) (drop (Z.to_nat (r_pos r)) (r_data r))) as [|c l] eqn:E.
  { apply (f_equal length) in E. rewrite length_take, length_drop in E. unfold zlen in *.
    cbn in E. lia. }
  pose proof (byte.unsigned_range c).
  destruct (Z.ltb_spec (byte.unsigned c) 254).
  - apply (safe_read_bytes_body b); done || lia.
  - destruct (Z.leb_spec (r_pos r + 4) (r_len r)); cbn [negb]; [|done].
    rewrite (u64_id (r_pos r + 1)), mem_read_some by (unfold is_u64; lia).
    apply (safe_read_bytes_body b); [lia| |done|done].
    apply le_combine3_range. rewrite length_take, length_drop. unfold zlen in *. lia.
Qed.

Lemma safe_map {A B} b (m : Rd A) (f : A -> B) :
  safe_upto b m -> safe_upto b (v ← m; mret (f v)).
Proof. intros Hm. apply safe_bind; [done|intros; apply safe_ret]. Qed.

Lemma safe_read_int32 b : safe_upto b tl_read_int32.
Proof. apply safe_map, safe_read_le32. Qed.

Lemma safe_read_int64 b : safe_upto b tl_read_int64.
Proof. apply safe_map, safe_read_le64. Qed.

Lemma safe_read_bool b : safe_upto b tl_read_bool.
Proof. apply safe_map, safe_read_le32. Qed.

(** The head of every walker: after its size check, reading the constructor
    takes four bytes off what is left, which pays for the recursion. *)
Lemma safe_head {A} b n (k : Z -> Rd A) :
  4 <= n -> (forall v, safe_upto (b - 4) (k v)) ->
  safe_upto b (need_ok n ;; (v ← tl_read_uint32; k v)).
Proof.
  intros Hn Hk. intro_reader r. unfold need_ok, fail_if, mbind, M_bind at 1.
  destruct (negb (tl_reader_ok r) || (remaining r <? n)) eqn:E; [by apply later_refl|].
  bool_prop. unfold tl_reader_ok in *. bool_prop.
  destruct (read_n_cases r 4 le_combine 0 Hwf) as (v & r' & Heq & Hlat & Hleft);
    [unfold SIZE_LIM; lia|].
  unfold mbind, M_bind, tl_read_uint32, read_le32. rewrite Heq.
  assert (4 <= left r).
  { unfold remaining, left, reader_wf, SIZE_LIM in *. rewrite u64_id in *; unfold is_u64; lia. }
  specialize (Hk v r' (proj1 Hlat) ltac:(specialize (Hleft ltac:(done)); cbn in *; lia)).
  destruct (k v r'); try done; by eapply later_trans.
Qed.

#[export] Hint Resolve safe_ret safe_fail safe_fail_if safe_read_le32 safe_read_le64
  safe_read_bytes safe_read_int32 safe_read_int64 safe_read_bool : tl_safe.

(** Decompose a walker along its syntax; leaves are found in [tl_safe]. *)
Ltac safe_step :=
  lazymatch goal with
  | |- forall _, _ => intro
  | |- safe _ => intro
  | |- safe_upto _ (_ ≫= _) => apply safe_bind
  | |- safe_upto _ (when _ _) => apply safe_when
  | |- safe_upto _ (for_n _ _) => apply safe_for_n
  | |- safe_upto _ (lift _) => apply safe_lift
  | |- safe_upto _ (switch _ _ _) => apply safe_switch
  | |- safe_upto _ (match ?x with _ => _ end) => destruct x
  | |- safe_upto _ tl_read_uint32 => apply safe_read_le32
  | |- safe_upto _ tl_read_uint64 => apply safe_read_le64
  | |- safe_upto _ tl_read_double => apply safe_read_le64
  | |- safe_upto _ tl_read_string => apply safe_read_bytes
  | |- safe_upto _ (need _) => apply safe_fail_if
  | |- safe_upto _ (need_ok _) => apply safe_fail_if
  | |- Forall _ (_ :: _) => constructor; cbn [snd]
  | |- Forall _ [] => constructor
  | |- safe_upto _ _ => solve [eauto with tl_safe]
  end.
Ltac safe_tac := repeat safe_step.

(** ** Consumption *)

Definition reads {S A} `{HasReader S} (m : M S A) (bs : list byte) (a : A) : Prop :=
  forall s tl, reader_wf (rd s) -> rest (rd s) = bs ++ tl ->
    m s = Done a (with_rd s (adv (rd s) (zlen bs))).

Lemma adv_0 r : adv r 0 = r.
Proof. destruct r. unfold adv, set_pos. cbn. by rewrite Z.add_0_r. Qed.

Lemma adv_adv r n m : adv (adv r n) m = adv r (n + m).
Proof. unfold adv, set_pos. cbn. f_equal. lia. Qed.

Section Consumption.
Context {S : Type} `{!HasReader S}.

Lemma reads_ret {A} (a : A) : reads (mret a : M S A) [] a.
Proof. intros s tl _ _. rewrite zlen_nil, adv_0, with_rd_rd. done. Qed.

Lemma reads_bind {A B} (m : M S A) (k : A -> M S B) bs cs a b :
  reads m bs a -> reads (k a) cs b -> reads (m ≫= k) (bs ++ cs) b.
Proof.
  intros Hm Hk s tl Hwf Hr. rewrite <- app_assoc in Hr.
  erewrite bind_Done by (by eapply Hm).
  erewrite Hk.
  - by rewrite with_rd_with_rd, rd_with_rd, adv_adv, zlen_app.
  - rewrite rd_with_rd. by eapply adv_wf.
  - rewrite rd_with_rd. by eapply rest_adv.
Qed.

Lemma reads_pre {A} (c : S -> bool) (m : M S A) bs a :
  (forall s tl, reader_wf (rd s) -> rest (rd s) = bs ++ tl -> c s = false) ->
  reads m bs a -> reads (fail_if c ;; m) bs a.
Proof.
  intros Hc Hm s tl Hwf Hr. rewrite <- (Hm s tl Hwf Hr).
  unfold mbind, M_bind, fail_if. by rewrite (Hc s tl Hwf Hr).
Qed.

Lemma reads_when (c : bool) (m : M S unit) bs :
  (c = true -> reads m bs tt) -> (c = false -> bs = []) -> reads (when c m) bs tt.
Proof.
  unfold when. destruct c; [eauto|]. intros _ ->; [apply reads_ret|done].
Qed.

Lemma reads_repeat_nat (m : M S unit) bss :
  Forall (fun bs => reads m bs tt) bss -> reads (repeat_nat (length bss) m) (concat bss) tt.
Proof.
  induction 1 as [|bs bss Hm _ IH]; [apply reads_ret|]. cbn. by eapply reads_bind.
Qed.

Lemma reads_for_n (m : M S unit) n bss :
  n = zlen bss -> Forall (fun bs => reads m bs tt) bss -> reads (for_n n m) (concat bss) tt.
Proof.
  intros -> Hm s tl Hwf Hr. rewrite for_n_nat. unfold zlen at 1. rewrite Nat2Z.id.
  by eapply reads_repeat_nat.
Qed.

End Consumption.

Lemma reads_lift {T A} (m : Rd A) bs a : reads m bs a -> reads (lift (T:=T) m) bs a.
Proof.
  intros Hm [r t] tl Hwf Hr. unfold lift. cbn [fst snd].
  erewrite Hm by done. done.
Qed.

Lemma remaining_at r bs tl :
  reader_wf r -> rest r = bs ++ tl -> 0 < zlen bs ->
  tl_reader_ok r = true /\ zlen bs <= remaining r.
Proof.
  intros Hwf Hr Hb. pose proof (rest_split_pos r _ _ Hwf Hr Hb).
  unfold reader_wf, SIZE_LIM, remaining, tl_reader_ok in *.
  split; [apply Z.ltb_lt; lia|]. rewrite u64_id; [lia|unfold is_u64; lia].
Qed.

Lemma reads_need {A} n (m : Rd A) bs a :
  0 < n <= zlen bs -> reads m bs a -> reads (need n ;; m) bs a.
Proof.
  intros Hn. apply reads_pre. intros r tl Hwf Hr.
  destruct (remaining_at r bs tl Hwf Hr); [lia|]. apply Z.ltb_ge. cbn. lia.
Qed.

Lemma reads_need_ok {A} n (m : Rd A) bs a :
  0 < n <= zlen bs -> reads m bs a -> reads (need_ok n ;; m) bs a.
Proof.
  intros Hn. apply reads_pre. intros r tl Hwf Hr.
  destruct (remaining_at r bs tl Hwf Hr) as [Hok ?]; [lia|].
  cbn in *. rewrite Hok. apply Z.ltb_ge. lia.
Qed.

Lemma reads_le32 v : reads read_le32 (enc32 v) (u32 v).
Proof. intros r tl Hwf Hr. by eapply read_le32_at. Qed.

Lemma reads_le64 v : reads read_le64 (enc64 v) (u64 v).
Proof. intros r tl Hwf Hr. by eapply read_le64_at. Qed.

Lemma reads_map {A B} (m : Rd A) (f : A -> B) bs a :
  reads m bs a -> reads (v ← m; mret (f v)) bs (f a).
Proof. intros Hm. rewrite <- (app_nil_r bs). eapply reads_bind; [done|apply reads_ret]. Qed.

Lemma reads_uint32 v : is_u32 v -> reads tl_read_uint32 (enc32 v) v.
Proof. intros Hv. rewrite <- (u32_id v Hv) at 2. apply reads_le32. Qed.

Lemma reads_uint64 v : is_u64 v -> reads tl_read_uint64 (enc64 v) v.
Proof. intros Hv. rewrite <- (u64_id v Hv) at 2. apply reads_le64. Qed.

Lemma reads_int32 v : is_s32 v -> reads tl_read_int32 (enc32 v) v.
Proof. intros Hv. rewrite <- (s32_u32 v Hv) at 2. apply reads_map, reads_le32. Qed.

Lemma reads_int64 v : is_s64 v -> reads tl_read_int64 (enc64 v) v.
Proof. intros Hv. rewrite <- (s64_u64 v Hv) at 2. apply reads_map, reads_le64. Qed.

Lemma reads_bool (b : bool) : reads tl_read_bool (enc_bool b) (if b then 1 else 0).
Proof.
  pose proof (fun v Hv => reads_map read_le32 (fun magic =>
    if magic =? TL_BOOL_TRUE then 1 else if magic =? TL_BOOL_FALSE then 0 else -1)
    _ _ (reads_uint32 v Hv)) as H.
  by destruct b; apply H.
Qed.

Lemma reads_raw bs : 0 < zlen bs -> reads (tl_read_raw (zlen bs)) bs bs.
Proof. intros Hb r tl Hwf Hr. by eapply read_raw_at. Qed.

Lemma reads_bytes data : zlen data < 2 ^ 24 -> reads tl_read_bytes (enc_bytes data) (Some data).
Proof. intros Hd r tl Hwf Hr. by eapply read_bytes_at. Qed.

#[export] Hint Resolve reads_ret reads_uint32 reads_uint64 reads_int32 reads_int64
  reads_bool reads_raw reads_bytes reads_le32 reads_le64 : tl_consume.
