(* ===== verification/TlCrc.v ===== *)
(** * Constructor identifiers (src/core/tl_registry.h, tl_registry.c and the
    layer-specific constants local to src/core/tl_skip.c)

    One constant per [#define], and the lookup functions of the registry. *)

From S2P Require Import Prelude.
From stdpp Require Import strings.

(** ** src/core/tl_registry.h *)

Definition TL_rpc_result : Z := 0xf35c6d01.
Definition TL_rpc_error : Z := 0x2144ca19.
Definition TL_gzip_packed : Z := 0x3072cfa1.
Definition TL_msg_container : Z := 0x73f1f8dc.
Definition TL_msg_copy : Z := 0xe06046b2.
Definition TL_msgs_ack : Z := 0x62d6b459.
Definition TL_bad_msg_notification : Z := 0xa7eff811.
Definition TL_bad_server_salt : Z := 0xedab447b.
Definition TL_new_session_created : Z := 0x9ec20908.
Definition TL_pong : Z := 0x347773c5.
Definition TL_future_salts : Z := 0xae500895.
Definition TL_msgs_state_req : Z := 0xda69fb52.
Definition TL_msgs_state_info : Z := 0x04deb57d.
Definition TL_msgs_all_info : Z := 0x8cc0d131.
Definition TL_msg_detailed_info : Z := 0x276d3ec6.
Definition TL_msg_new_detailed_info : Z := 0x809db6df.
Definition TL_destroy_session_ok : Z := 0xe22045fc.
Definition TL_destroy_session_none : Z := 0x62d350c9.
Definition TL_resPQ : Z := 0x05162463.
Definition TL_server_DH_params_ok : Z := 0xd0e8075c.
Definition TL_server_DH_params_fail : Z := 0x79cb045d.
Definition TL_dh_gen_ok : Z := 0x3bcbf734.
Definition TL_dh_gen_retry : Z := 0x46dc1fb9.
Definition TL_dh_gen_fail : Z := 0xa69dae02.
Definition TL_auth_sentCode : Z := 0x5e002502.
Definition TL_auth_authorization : Z := 0x2ea2c0d4.
Definition TL_auth_authorizationSignUpRequired : Z := 0x44747e9a.
Definition TL_auth_exportAuthorization : Z := 0xe5bfffcd.
Definition TL_auth_exportedAuthorization : Z := 0xb434e2b8.
Definition TL_auth_importAuthorization : Z := 0xa57a7dad.
Definition TL_account_password : Z := 0x957b50fb.
Definition TL_passwordKdfAlgoSHA256SHA256PBKDF2HMACSHA512iter100000SHA256ModPow : Z := 0x3a912d4a.
Definition TL_passwordKdfAlgoUnknown : Z := 0xd45ab096.
Definition TL_inputCheckPasswordSRP : Z := 0xd27ff082.
Definition TL_inputCheckPasswordEmpty : Z := 0x9880f658.
Definition TL_securePasswordKdfAlgoUnknown : Z := 0x004a8537a5.
Definition TL_user : Z := 0x3ff6ecb0.
Definition TL_user2 : Z := 0x83314fca.
Definition TL_userEmpty : Z := 0xd3bc4b7a.
Definition TL_userFull : Z := 0x93eadb53.
Definition TL_chat : Z := 0x41cbf256.
Definition TL_chatEmpty : Z := 0x29562865.
Definition TL_chatForbidden : Z := 0x6592a1a7.
Definition TL_channel : Z := 0x0aadfc8f.
Definition TL_channelForbidden : Z := 0x17d493d5.
Definition TL_message : Z := 0x94345242.
Definition TL_messageEmpty : Z := 0x90a6ca84.
Definition TL_messageService : Z := 0x2b085862.
Definition TL_messages_dialogs : Z := 0x15ba6c40.
Definition TL_messages_dialogsSlice : Z := 0x71e094f3.
Definition TL_messages_dialogsNotModified : Z := 0xf0e3e596.
Definition TL_messages_messages : Z := 0x8c718e87.
Definition TL_messages_messagesSlice : Z := 0x3a54685e.
Definition TL_messages_channelMessages : Z := 0xc776ba4e.
Definition TL_messages_affectedHistory : Z := 0xb45c69d1.
Definition TL_messages_affectedMessages : Z := 0x84d19185.
Definition TL_messageMediaEmpty : Z := 0x3ded6320.
Definition TL_messageMediaPhoto : Z := 0x695150d7.
Definition TL_messageMediaDocument : Z := 0x4cf4d72d.
Definition TL_messageMediaGeo : Z := 0x56e0d474.
Definition TL_messageMediaContact : Z := 0x70322949.
Definition TL_messageMediaWebPage : Z := 0xddf8c26e.
Definition TL_document : Z := 0x8fd4c4d8.
Definition TL_documentEmpty : Z := 0x36f8c871.
Definition TL_photo : Z := 0xfb197a65.
Definition TL_photoEmpty : Z := 0x2331b22d.
Definition TL_photoSize : Z := 0x75c78e60.
Definition TL_photoSizeProgressive : Z := 0xfa3efb95.
Definition TL_contacts_contacts : Z := 0xeae87e42.
Definition TL_contacts_contactsNotModified : Z := 0xb74ba9d2.
Definition TL_contacts_resolvedPeer : Z := 0x7f077ad9.
Definition TL_updates_state : Z := 0xa56c2a3e.
Definition TL_updates_difference : Z := 0x00f49d63.
Definition TL_updates_differenceEmpty : Z := 0x5d75a138.
Definition TL_updates_differenceSlice : Z := 0xa8fb1981.
Definition TL_updateShort : Z := 0x78d4dec1.
Definition TL_updates : Z := 0x74ae4240.
Definition TL_updatesCombined : Z := 0x725b04c3.
Definition TL_updateNewMessage : Z := 0x1f2b0afd.
Definition TL_updateReadHistoryInbox : Z := 0x9c974fdf.
Definition TL_updateReadHistoryOutbox : Z := 0x2f2f21bf.
Definition TL_peerUser : Z := 0x59511722.
Definition TL_peerChat : Z := 0x36c6019a.
Definition TL_peerChannel : Z := 0xa2a5371e.
Definition TL_inputPeerUser : Z := 0xdde8a54c.
Definition TL_inputPeerChat : Z := 0x35a95cb9.
Definition TL_inputPeerChannel : Z := 0x27bcbbfc.
Definition TL_inputPeerSelf : Z := 0x7da07ec9.
Definition TL_inputPeerEmpty : Z := 0x7f3b18ea.
Definition TL_config : Z := 0xcc1a241e.
Definition TL_dcOption : Z := 0x18b7a10d.
Definition TL_nearestDc : Z := 0x8e1a1775.
Definition TL_boolTrue : Z := 0x997275b5.
Definition TL_boolFalse : Z := 0xbc799737.
Definition TL_vector : Z := 0x1cb5c415.

(** ** src/core/tl_skip.c *)

Definition CRC_peerNotifySettings : Z := 0xa83b0426.
Definition CRC_peerNotifySettings2 : Z := 0x99622c0c.
Definition CRC_notificationSoundDefault : Z := 0x97e8bebe.
Definition CRC_notificationSoundNone : Z := 0x6f0c34df.
Definition CRC_notificationSoundLocal : Z := 0x830b9ae4.
Definition CRC_notificationSoundRingtone : Z := 0xff6c8049.
Definition CRC_draftMessage : Z := 0x3fccf7ef.
Definition CRC_draftMessageEmpty : Z := 0x1b0c841a.
Definition CRC_messageEntityUnknown : Z := 0xbb92ba95.
Definition CRC_messageEntityMention : Z := 0xfa04579d.
Definition CRC_messageEntityHashtag : Z := 0x6f635b0d.
Definition CRC_messageEntityBotCommand : Z := 0x6cef8ac7.
Definition CRC_messageEntityUrl : Z := 0x6ed02538.
Definition CRC_messageEntityEmail : Z := 0x64e475c2.
Definition CRC_messageEntityBold : Z := 0xbd610bc9.
Definition CRC_messageEntityItalic : Z := 0x826f8b60.
Definition CRC_messageEntityCode : Z := 0x28a20571.
Definition CRC_messageEntityPre : Z := 0x73924be0.
Definition CRC_messageEntityTextUrl : Z := 0x76a6d327.
Definition CRC_messageEntityMentionName : Z := 0xdc7b1140.
Definition CRC_messageEntityPhone : Z := 0x9b69e34b.
Definition CRC_messageEntityCashtag : Z := 0x4c4e743f.
Definition CRC_messageEntityUnderline : Z := 0x9c4e7e8b.
Definition CRC_messageEntityStrike : Z := 0xbf0693d4.
Definition CRC_messageEntityBlockquote : Z := 0xf1ccaaac.
Definition CRC_messageEntityBankCard : Z := 0x761e6af4.
Definition CRC_messageEntitySpoiler : Z := 0x32ca960f.
Definition CRC_messageEntityCustomEmoji : Z := 0xc8cf05f8.
Definition CRC_messageFwdHeader : Z := 0x4e4df4bb.
Definition CRC_messageReplyHeader : Z := 0xafbc09db.
Definition CRC_messageReplyStoryHeader : Z := 0xe5af939.
Definition CRC_photoSizeEmpty : Z := 0x0e17e23c.
Definition CRC_photoSize : Z := 0x75c78e60.
Definition CRC_photoCachedSize : Z := 0x021e1ad6.
Definition CRC_photoStrippedSize : Z := 0xe0b0bc2e.
Definition CRC_photoSizeProgressive : Z := 0xfa3efb95.
Definition CRC_photoPathSize : Z := 0xd8214d41.
Definition CRC_photo : Z := 0xfb197a65.
Definition CRC_photoEmpty : Z := 0x2331b22d.
Definition CRC_document : Z := 0x8fd4c4d8.
Definition CRC_documentEmpty : Z := 0x36f8c871.
Definition CRC_geoPointEmpty : Z := 0x1117dd5f.
Definition CRC_geoPoint : Z := 0xb2a2f663.
Definition CRC_messageMediaEmpty : Z := 0x3ded6320.
Definition CRC_messageMediaPhoto : Z := 0x695150d7.
Definition CRC_messageMediaDocument : Z := 0x4cf4d72d.
Definition CRC_messageMediaGeo : Z := 0x56e0d474.
Definition CRC_messageMediaContact : Z := 0x70322949.
Definition CRC_messageMediaUnsupported : Z := 0x9f84f49e.
Definition CRC_messageMediaVenue : Z := 0x2ec0533f.
Definition CRC_messageMediaGeoLive : Z := 0xb940c666.
Definition CRC_messageMediaDice : Z := 0x3f7ee58b.
Definition CRC_messageMediaWebPage : Z := 0xddf8c26e.
Definition CRC_messageMediaPoll : Z := 0x4bd6e798.
Definition CRC_messageMediaInvoice : Z := 0xf6a548d3.
Definition CRC_messageMediaStory : Z := 0x68cb6283.
Definition CRC_messageMediaGiveaway : Z := 0xaa073bee.
Definition CRC_messageMediaGame : Z := 0xfdb19008.
Definition CRC_messageMediaPaidMedia : Z := 0xa8852491.
Definition CRC_game : Z := 0xbdf9653b.
Definition CRC_messageExtendedMediaPreview : Z := 0xad628cc8.
Definition CRC_messageExtendedMedia : Z := 0xee479c64.
Definition CRC_webDocument : Z := 0x1c570ed1.
Definition CRC_webDocumentNoProxy : Z := 0xf9c8bcc6.
Definition CRC_storyItemDeleted : Z := 0x51e6ee4f.
Definition CRC_storyItemSkipped : Z := 0xffadc913.
Definition CRC_storyItem : Z := 0x79b26a24.
Definition CRC_storyFwdHeader : Z := 0xb826e150.
Definition CRC_mediaAreaCoordinates : Z := 0x03d1ea4e.
Definition CRC_geoPointAddress : Z := 0xde4c5d93.
Definition CRC_mediaAreaVenue : Z := 0xbe82db9c.
Definition CRC_mediaAreaGeoPoint : Z := 0xdf8b3b22.
Definition CRC_mediaAreaSuggestedReaction : Z := 0x14455871.
Definition CRC_mediaAreaChannelPost : Z := 0x770416af.
Definition CRC_mediaAreaUrl : Z := 0x37381085.
Definition CRC_mediaAreaWeather : Z := 0x49a6549c.
Definition CRC_mediaAreaStarGift : Z := 0x5787686d.
Definition CRC_privacyValueAllowContacts : Z := 0xfffe1bac.
Definition CRC_privacyValueAllowAll : Z := 0x65427b82.
Definition CRC_privacyValueAllowUsers : Z := 0xb8905fb2.
Definition CRC_privacyValueDisallowContacts : Z := 0xf888fa1a.
Definition CRC_privacyValueDisallowAll : Z := 0x8b73e763.
Definition CRC_privacyValueDisallowUsers : Z := 0xe4621141.
Definition CRC_privacyValueAllowChatParticipants : Z := 0x6b134e8e.
Definition CRC_privacyValueDisallowChatParticipants : Z := 0x41c87565.
Definition CRC_privacyValueAllowCloseFriends : Z := 0xf7e8d89b.
Definition CRC_privacyValueAllowPremium : Z := 0xece9814b.
Definition CRC_privacyValueAllowBots : Z := 0x21461b5d.
Definition CRC_privacyValueDisallowBots : Z := 0xf6a5f82f.
Definition CRC_storyViews : Z := 0x8d595cd6.
Definition CRC_webPage : Z := 0xe89c45b2.
Definition CRC_webPageEmpty : Z := 0xeb1477e8.
Definition CRC_webPagePending : Z := 0xb0d13e47.
Definition CRC_webPageNotModified : Z := 0x7311ca11.
Definition CRC_webPageAttributeTheme : Z := 0x54b56617.
Definition CRC_webPageAttributeStory : Z := 0x2e94c3e7.
Definition CRC_webPageAttributeStickerSet : Z := 0x50cc03d3.
Definition CRC_page : Z := 0x98657f0d.
Definition CRC_pageBlockUnsupported : Z := 0x13567e8a.
Definition CRC_pageBlockTitle : Z := 0x70abc3fd.
Definition CRC_pageBlockSubtitle : Z := 0x8ffa9a1f.
Definition CRC_pageBlockHeader : Z := 0xbfd064ec.
Definition CRC_pageBlockSubheader : Z := 0xf12bb6e1.
Definition CRC_pageBlockKicker : Z := 0x1e148390.
Definition CRC_pageBlockParagraph : Z := 0x467a0766.
Definition CRC_pageBlockPreformatted : Z := 0xc070d93e.
Definition CRC_pageBlockFooter : Z := 0x48870999.
Definition CRC_pageBlockDivider : Z := 0xdb20b188.
Definition CRC_pageBlockAnchor : Z := 0xce0d37b0.
Definition CRC_pageBlockAuthorDate : Z := 0xbaafe5e0.
Definition CRC_pageBlockBlockquote : Z := 0x263d7c26.
Definition CRC_pageBlockPullquote : Z := 0x4f4456d5.
Definition CRC_pageBlockPhoto : Z := 0x1759c560.
Definition CRC_pageBlockVideo : Z := 0x7c8fe7b6.
Definition CRC_pageBlockAudio : Z := 0x804361ea.
Definition CRC_pageBlockCover : Z := 0x39f23300.
Definition CRC_pageBlockChannel : Z := 0xef1751b5.
Definition CRC_pageBlockMap : Z := 0xa44f3ef6.
Definition CRC_pageBlockList : Z := 0xe4e88011.
Definition CRC_pageBlockOrderedList : Z := 0x9a8ae1e1.
Definition CRC_pageBlockCollage : Z := 0x65a0fa4d.
Definition CRC_pageBlockSlideshow : Z := 0x031f9590.
Definition CRC_pageBlockDetails : Z := 0x76768bed.
Definition CRC_pageBlockRelatedArticles : Z := 0x16115a96.
Definition CRC_pageBlockTable : Z := 0xbf4dea82.
Definition CRC_pageBlockEmbed : Z := 0xa8718dc5.
Definition CRC_pageBlockEmbedPost : Z := 0xf259a80b.
Definition CRC_pageCaption : Z := 0x6f747657.
Definition CRC_pageListItemText : Z := 0xb92fb6cd.
Definition CRC_pageListItemBlocks : Z := 0x25e073fc.
Definition CRC_pageListOrderedItemText : Z := 0x5e068047.
Definition CRC_pageListOrderedItemBlocks : Z := 0x98dd8936.
Definition CRC_pageTableRow : Z := 0xe0c0c5e5.
Definition CRC_pageTableCell : Z := 0x34566b6a.
Definition CRC_pageRelatedArticle : Z := 0xb390dc08.
Definition CRC_textEmpty : Z := 0xdc3d824f.
Definition CRC_textPlain : Z := 0x744694e0.
Definition CRC_textBold : Z := 0x6724abc4.
Definition CRC_textItalic : Z := 0xd912a59c.
Definition CRC_textUnderline : Z := 0xc12622c4.
Definition CRC_textStrike : Z := 0x9bf8bb95.
Definition CRC_textFixed : Z := 0x6c3f19b9.
Definition CRC_textUrl : Z := 0x3c2884c1.
Definition CRC_textEmail : Z := 0xde5a0dd6.
Definition CRC_textConcat : Z := 0x7e6260d7.
Definition CRC_textSubscript : Z := 0xed6a8504.
Definition CRC_textSuperscript : Z := 0xc7fb5e01.
Definition CRC_textMarked : Z := 0x034b27f6.
Definition CRC_textPhone : Z := 0x1ccb966a.
Definition CRC_textImage : Z := 0x081ccf4f.
Definition CRC_textAnchor : Z := 0x35553762.
Definition CRC_poll : Z := 0x58747131.
Definition CRC_pollAnswer : Z := 0x6ca9c2e9.
Definition CRC_pollResults : Z := 0x7adc669d.
Definition CRC_pollAnswerVoters : Z := 0x3b6ddad2.
Definition CRC_textWithEntities_poll : Z := 0x751f3146.
Definition CRC_chatPhotoEmpty : Z := 0x37c1011c.
Definition CRC_chatPhoto : Z := 0x1c6e1c11.
Definition CRC_userProfilePhotoEmpty : Z := 0x4f11bae1.
Definition CRC_userProfilePhoto : Z := 0x82d1f706.
Definition CRC_userStatusEmpty : Z := 0x09d05049.
Definition CRC_userStatusOnline : Z := 0xedb93949.
Definition CRC_userStatusOffline : Z := 0x008c703f.
Definition CRC_userStatusRecently : Z := 0x7b197dc8.
Definition CRC_userStatusLastWeek : Z := 0x541a1d1a.
Definition CRC_userStatusLastMonth : Z := 0x65899e67.
Definition CRC_restrictionReason : Z := 0xd072acb4.
Definition CRC_username : Z := 0xb4073647.
Definition CRC_peerColor : Z := 0xb54b5acf.
Definition CRC_emojiStatusEmpty : Z := 0x2de11aae.
Definition CRC_emojiStatus : Z := 0x929b619d.
Definition CRC_emojiStatusUntil : Z := 0xfa30a8c7.
Definition CRC_chatAdminRights : Z := 0x5fb224d5.
Definition CRC_chatBannedRights : Z := 0x9f120418.
Definition CRC_replyKeyboardHide : Z := 0xa03e5b85.
Definition CRC_replyKeyboardForceReply : Z := 0x86b40b08.
Definition CRC_replyKeyboardMarkup : Z := 0x85dd99d1.
Definition CRC_replyInlineMarkup : Z := 0x48a30254.
Definition CRC_keyboardButtonRow : Z := 0x77608b83.
Definition CRC_keyboardButton : Z := 0xa2fa4880.
Definition CRC_keyboardButtonUrl : Z := 0x258aff05.
Definition CRC_keyboardButtonCallback : Z := 0x35bbdb6b.
Definition CRC_keyboardButtonRequestPhone : Z := 0xb16a6c29.
Definition CRC_keyboardButtonRequestGeoLoc : Z := 0xfc796b3f.
Definition CRC_keyboardButtonSwitchInline : Z := 0x93b9fbb5.
Definition CRC_keyboardButtonGame : Z := 0x50f41ccf.
Definition CRC_keyboardButtonBuy : Z := 0xafd93fbb.
Definition CRC_keyboardButtonUrlAuth : Z := 0x10b78d29.
Definition CRC_keyboardButtonRequestPoll : Z := 0xbbc7515d.
Definition CRC_keyboardButtonUserProfile : Z := 0x308660c1.
Definition CRC_keyboardButtonWebView : Z := 0x13767230.
Definition CRC_keyboardButtonSimpleWebView : Z := 0xa0c0505c.
Definition CRC_messageReplies : Z := 0x83d60fc2.
Definition CRC_factCheck : Z := 0xb89bfccf.
Definition CRC_textWithEntities : Z := 0x751f3146.
Definition CRC_messageReactions : Z := 0x4f2b9479.
Definition CRC_reactionCount : Z := 0xa3d1cb80.
Definition CRC_reactionEmpty : Z := 0x79f5d419.
Definition CRC_reactionEmoji : Z := 0x1b2286b8.
Definition CRC_reactionCustomEmoji : Z := 0x8935fc73.
Definition CRC_reactionPaid : Z := 0x523da4eb.
Definition CRC_messagePeerReaction : Z := 0xb156fe9d.
Definition CRC_messageReactor : Z := 0xedd1b4ad.
Definition CRC_inputChannelEmpty : Z := 0xee8c1e86.
Definition CRC_inputChannel : Z := 0xf35aec28.
Definition CRC_inputChannelFromMessage : Z := 0x5b934f9d.
Definition CRC_inputPeerEmpty : Z := 0x7f3b18ea.
Definition CRC_inputPeerSelf : Z := 0x7da07ec9.
Definition CRC_inputPeerUser : Z := 0x7b8e7de6.
Definition CRC_inputPeerChat : Z := 0x35a95cb9.
Definition CRC_inputPeerChannel : Z := 0x27bcbbfc.
Definition CRC_inputPeerUserFromMessage : Z := 0xa87b0a1c.
Definition CRC_inputPeerChannelFromMessage : Z := 0xbd2a0840.
Definition CRC_inputReplyToMessage : Z := 0x3faad5f0.
Definition CRC_inputReplyToStory : Z := 0x7e2a9a7b.
Definition CRC_inputPhotoEmpty : Z := 0x1cd7bf0d.
Definition CRC_inputPhoto : Z := 0x3bb3b94a.
Definition CRC_inputDocumentEmpty : Z := 0x72f0eafa.
Definition CRC_inputDocument : Z := 0x1abfb575.
Definition CRC_inputGeoPointEmpty : Z := 0xe4c123d6.
Definition CRC_inputGeoPoint : Z := 0xf3b7acc9.
Definition CRC_inputMediaEmpty : Z := 0x9664f57f.
Definition CRC_inputMediaUploadedPhoto : Z := 0x1e287d04.
Definition CRC_inputMediaPhoto : Z := 0xb3ba0635.
Definition CRC_inputMediaGeoPoint : Z := 0xf9c44144.
Definition CRC_inputMediaContact : Z := 0xf8ab7dfb.
Definition CRC_inputMediaUploadedDocument : Z := 0x5b38c6c1.
Definition CRC_inputMediaDocument : Z := 0x33473058.
Definition CRC_inputMediaVenue : Z := 0xc13d1c11.
Definition CRC_inputMediaGeoLive : Z := 0x971fa843.
Definition CRC_inputMediaGame : Z := 0xd33f43f3.
Definition CRC_inputMediaInvoice : Z := 0x8eb5a6d5.
Definition CRC_inputMediaDice : Z := 0xe66fbf7b.
Definition CRC_inputMediaStory : Z := 0x89fdd778.
Definition CRC_inputMediaWebPage : Z := 0xc21b8849.
Definition CRC_inputMediaPoll : Z := 0x261e868f.
Definition CRC_inputMediaPaidMedia : Z := 0x6519cb78.
Definition CRC_inputMediaPhotoExternal : Z := 0xe5bbfe1a.
Definition CRC_inputMediaDocumentExternal : Z := 0xfb52dc99.
Definition CRC_inputFile : Z := 0xf52ff27f.
Definition CRC_inputFileBig : Z := 0xfa4f0bb5.
Definition CRC_inputGameID : Z := 0x032c3e77.
Definition CRC_inputGameShortName : Z := 0xc331e80a.
Definition CRC_inputUserEmpty : Z := 0xb98886cf.
Definition CRC_inputUserSelf : Z := 0xf7c1b13f.
Definition CRC_inputUser : Z := 0xf21158c6.
Definition CRC_inputUserFromMessage : Z := 0x1da448e2.
Definition CRC_themeSettings : Z := 0xfa58b6d4.
Definition CRC_baseThemeClassic : Z := 0xc3a12462.
Definition CRC_baseThemeDay : Z := 0xfbd81688.
Definition CRC_baseThemeDark : Z := 0xb7b31ea8.
Definition CRC_baseThemeTinted : Z := 0x6d5f77ee.
Definition CRC_baseThemeArctic : Z := 0x5b11125a.
Definition CRC_wallPaper : Z := 0xa437c3ed.
Definition CRC_wallPaperNoFile : Z := 0xe0804116.
Definition CRC_wallPaperSettings : Z := 0x372efcd0.
Definition CRC_inlineQueryPeerTypeSameBotPM : Z := 0x3081ed9d.
Definition CRC_inlineQueryPeerTypePM : Z := 0x833c0fac.
Definition CRC_inlineQueryPeerTypeChat : Z := 0xd766c50a.
Definition CRC_inlineQueryPeerTypeMegagroup : Z := 0x5bc52d1a.
Definition CRC_inlineQueryPeerTypeBroadcast : Z := 0x6d1ded88.
Definition CRC_inlineQueryPeerTypeBotPM : Z := 0xe3b2a56a.
Definition CRC_documentAttributeImageSize : Z := 0x6c37c15c.
Definition CRC_documentAttributeAnimated : Z := 0x11b58939.
Definition CRC_documentAttributeHasStickers : Z := 0x9801d2f7.
Definition CRC_documentAttributeFilename : Z := 0x15590068.
Definition CRC_documentAttributeVideo : Z := 0x43c57c48.
Definition CRC_documentAttributeAudio : Z := 0x9852f9c6.
Definition CRC_documentAttributeSticker : Z := 0x6319d612.
Definition CRC_documentAttributeCustomEmoji : Z := 0xfd149899.
Definition CRC_inputStickerSetEmpty : Z := 0xffb62b95.
Definition CRC_inputStickerSetID : Z := 0x9de7a269.
Definition CRC_inputStickerSetShortName : Z := 0x861cc8a0.
Definition CRC_inputStickerSetAnimatedEmoji : Z := 0x028703c8.
Definition CRC_inputStickerSetDice : Z := 0xe67f520e.
Definition CRC_inputStickerSetAnimatedEmojiAnimations : Z := 0x0cde3739.
Definition CRC_inputStickerSetPremiumGifts : Z := 0xc88b3b02.
Definition CRC_inputStickerSetEmojiGenericAnimations : Z := 0x04c4d4ce.
Definition CRC_inputStickerSetEmojiDefaultStatuses : Z := 0x29d0f5ee.
Definition CRC_inputStickerSetEmojiDefaultTopicIcons : Z := 0x44c1f8e9.
Definition CRC_inputStickerSetEmojiChannelDefaultStatuses : Z := 0x49748553.
Definition CRC_maskCoords : Z := 0xaed6dbb2.
Definition CRC_videoSize : Z := 0xde33b094.
Definition CRC_videoSizeEmojiMarkup : Z := 0xf85c413c.
Definition CRC_videoSizeStickerMarkup : Z := 0x0da082fe.

(** ** src/core/tl_registry.c *)

Definition g_registry : list (Z * string) := [
  (TL_rpc_result, "rpc_result"%string);
  (TL_rpc_error, "rpc_error"%string);
  (TL_gzip_packed, "gzip_packed"%string);
  (TL_msg_container, "msg_container"%string);
  (TL_msgs_ack, "msgs_ack"%string);
  (TL_bad_msg_notification, "bad_msg_notification"%string);
  (TL_bad_server_salt, "bad_server_salt"%string);
  (TL_new_session_created, "new_session_created"%string);
  (TL_pong, "pong"%string);
  (TL_future_salts, "future_salts"%string);
  (TL_destroy_session_ok, "destroy_session_ok"%string);
  (TL_destroy_session_none, "destroy_session_none"%string);
  (TL_resPQ, "resPQ"%string);
  (TL_server_DH_params_ok, "server_DH_params_ok"%string);
  (TL_server_DH_params_fail, "server_DH_params_fail"%string);
  (TL_dh_gen_ok, "dh_gen_ok"%string);
  (TL_dh_gen_retry, "dh_gen_retry"%string);
  (TL_dh_gen_fail, "dh_gen_fail"%string);
  (TL_auth_sentCode, "auth.sentCode"%string);
  (TL_auth_authorization, "auth.authorization"%string);
  (TL_account_password, "account.password"%string);
  (TL_passwordKdfAlgoUnknown, "passwordKdfAlgoUnknown"%string);
  (TL_inputCheckPasswordSRP, "inputCheckPasswordSRP"%string);
  (TL_inputCheckPasswordEmpty, "inputCheckPasswordEmpty"%string);
  (TL_user, "user"%string);
  (TL_user2, "user"%string);
  (TL_userEmpty, "userEmpty"%string);
  (TL_userFull, "userFull"%string);
  (TL_chat, "chat"%string);
  (TL_chatEmpty, "chatEmpty"%string);
  (TL_chatForbidden, "chatForbidden"%string);
  (TL_channel, "channel"%string);
  (TL_channelForbidden, "channelForbidden"%string);
  (TL_message, "message"%string);
  (TL_messageEmpty, "messageEmpty"%string);
  (TL_messageService, "messageService"%string);
  (TL_messages_dialogs, "messages.dialogs"%string);
  (TL_messages_dialogsSlice, "messages.dialogsSlice"%string);
  (TL_messages_dialogsNotModified, "messages.dialogsNotModified"%string);
  (TL_messages_messages, "messages.messages"%string);
  (TL_messages_messagesSlice, "messages.messagesSlice"%string);
  (TL_messages_channelMessages, "messages.channelMessages"%string);
  (TL_messages_affectedHistory, "messages.affectedHistory"%string);
  (TL_messages_affectedMessages, "messages.affectedMessages"%string);
  (TL_messageMediaEmpty, "messageMediaEmpty"%string);
  (TL_messageMediaPhoto, "messageMediaPhoto"%string);
  (TL_messageMediaDocument, "messageMediaDocument"%string);
  (TL_messageMediaGeo, "messageMediaGeo"%string);
  (TL_messageMediaContact, "messageMediaContact"%string);
  (TL_messageMediaWebPage, "messageMediaWebPage"%string);
  (TL_document, "document"%string);
  (TL_documentEmpty, "documentEmpty"%string);
  (TL_photo, "photo"%string);
  (TL_photoEmpty, "photoEmpty"%string);
  (TL_photoSize, "photoSize"%string);
  (TL_contacts_contacts, "contacts.contacts"%string);
  (TL_contacts_contactsNotModified, "contacts.contactsNotModified"%string);
  (TL_contacts_resolvedPeer, "contacts.resolvedPeer"%string);
  (TL_updates_state, "updates.state"%string);
  (TL_updates_difference, "updates.difference"%string);
  (TL_updates_differenceEmpty, "updates.differenceEmpty"%string);
  (TL_updates_differenceSlice, "updates.differenceSlice"%string);
  (TL_updateShort, "updateShort"%string);
  (TL_updates, "updates"%string);
  (TL_updatesCombined, "updatesCombined"%string);
  (TL_updateNewMessage, "updateNewMessage"%string);
  (TL_updateReadHistoryInbox, "updateReadHistoryInbox"%string);
  (TL_updateReadHistoryOutbox, "updateReadHistoryOutbox"%string);
  (TL_peerUser, "peerUser"%string);
  (TL_peerChat, "peerChat"%string);
  (TL_peerChannel, "peerChannel"%string);
  (TL_inputPeerUser, "inputPeerUser"%string);
  (TL_inputPeerChat, "inputPeerChat"%string);
  (TL_inputPeerChannel, "inputPeerChannel"%string);
  (TL_inputPeerSelf, "inputPeerSelf"%string);
  (TL_inputPeerEmpty, "inputPeerEmpty"%string);
  (TL_config, "config"%string);
  (TL_dcOption, "dcOption"%string);
  (TL_nearestDc, "nearestDc"%string);
  (TL_boolTrue, "boolTrue"%string);
  (TL_boolFalse, "boolFalse"%string);
  (TL_vector, "vector"%string)].

(** The first entry with the given identifier, as the linear search finds it. *)
Fixpoint registry_find (id : Z) (l : list (Z * string)) : option string :=
  match l with
  | [] => None
  | (i, name) :: l => if (i =? id)%Z then Some name else registry_find id l
  end.

Definition tl_constructor_name (id : Z) : string :=
  default "unknown"%string (registry_find id g_registry).

Definition tl_constructor_known (id : Z) : bool :=
  match registry_find id g_registry with Some _ => true | None => false end.
