(* ===== verification/TlSkipBase.v ===== *)
(** * TL object skippers, part 1 (src/core/tl_skip.c)

    Peers, notification settings, message entities, polls, drafts and their
    InputMedia, reply markup, reactions, replies, fact checks and forward
    headers.  Every skipper is the C function line by line: the same size
    guards in the same order, the same reads, the same constructor tests.
    Logging has no effect on the reader and is left out. *)

From S2P Require Import Prelude TlSerial TlLogic TlCrc.

(** ** Idioms of tl_skip.c *)

(** A read whose value is not used. *)
Definition skip_int32 : Rd unit := tl_read_int32 ;; mret tt.
Definition skip_uint32 : Rd unit := tl_read_uint32 ;; mret tt.
Definition skip_int64 : Rd unit := tl_read_int64 ;; mret tt.
Definition skip_double : Rd unit := tl_read_double ;; mret tt.

(** [if (!c) return -1;] *)
Definition check (c : bool) : Rd unit := if c then mret tt else fail.

(** [{ if (r->len - r->pos < 4) return -1; tl_read_int32(r); }] *)
Definition int_field : Rd unit := need 4 ;; skip_int32.

(** [{ if (r->len - r->pos < 8) return -1; tl_read_int64(r); }] *)
Definition long_field : Rd unit := need 8 ;; skip_int64.

(** The vector loop: constructor, count, then [count] elements. *)
Definition vector_body (elem : Rd unit) : Rd unit :=
  vec ← tl_read_uint32;
  check (vec =? TL_vector) ;;
  n ← tl_read_uint32;
  for_n n elem.

(** The loop behind [if (r->len - r->pos < 8) return -1;] *)
Definition vector_of (elem : Rd unit) : Rd unit := need 8 ;; vector_body elem.

(** The loop behind [if (!tl_reader_ok(r) || r->len - r->pos < 8) return -1;] *)
Definition vector_ok_of (elem : Rd unit) : Rd unit := need_ok 8 ;; vector_body elem.

(** [for (int i = 0; i < n; i++) { m }] for a literal [n]. *)
Definition times (n : nat) (m : Rd unit) : Rd unit := repeat_nat n m.

(** ** Primitive values *)

Definition tl_skip_bool : Rd unit := need_ok 4 ;; skip_uint32.

Definition tl_skip_string : Rd unit :=
  fail_if (fun r => negb (tl_reader_ok r)) ;;
  s ← tl_read_string;
  match s with None => fail | Some _ => mret tt end.

(** ** Peers and notification settings *)

Definition tl_skip_peer : Rd unit :=
  need_ok 12 ;;
  crc ← tl_read_uint32;
  skip_int64 ;;
  switch crc [([TL_peerUser; TL_peerChat; TL_peerChannel], mret tt)] fail.

Definition tl_skip_notification_sound : Rd unit :=
  need_ok 4 ;;
  crc ← tl_read_uint32;
  switch crc [
    ([CRC_notificationSoundDefault; CRC_notificationSoundNone], mret tt);
    ([CRC_notificationSoundRingtone], need 8 ;; skip_int64);
    ([CRC_notificationSoundLocal], tl_skip_string ;; tl_skip_string)] fail.

Definition tl_skip_peer_notify_settings : Rd unit :=
  need_ok 8 ;;
  crc ← tl_read_uint32;
  check ((crc =? CRC_peerNotifySettings) || (crc =? CRC_peerNotifySettings2)) ;;
  flags ← tl_read_uint32;
  when (flag flags 0) tl_skip_bool ;;
  when (flag flags 1) tl_skip_bool ;;
  when (flag flags 2) int_field ;;
  when (flag flags 3) tl_skip_notification_sound ;;
  when (flag flags 4) tl_skip_notification_sound ;;
  when (flag flags 5) tl_skip_notification_sound ;;
  when (flag flags 6) tl_skip_bool ;;
  when (flag flags 7) tl_skip_bool ;;
  when (flag flags 8) tl_skip_notification_sound ;;
  when (flag flags 9) tl_skip_notification_sound ;;
  when (flag flags 10) tl_skip_notification_sound.

(** ** Message entities *)

Definition tl_skip_message_entity : Rd unit :=
  need_ok 4 ;;
  crc ← tl_read_uint32;
  switch crc [
    ([CRC_messageEntityUnknown; CRC_messageEntityMention; CRC_messageEntityHashtag;
      CRC_messageEntityBotCommand; CRC_messageEntityUrl; CRC_messageEntityEmail;
      CRC_messageEntityBold; CRC_messageEntityItalic; CRC_messageEntityCode;
      CRC_messageEntityPhone; CRC_messageEntityCashtag; CRC_messageEntityUnderline;
      CRC_messageEntityStrike; CRC_messageEntityBankCard; CRC_messageEntitySpoiler],
     need 8 ;; skip_int32 ;; skip_int32);
    ([CRC_messageEntityPre], need 8 ;; skip_int32 ;; skip_int32 ;; tl_skip_string);
    ([CRC_messageEntityTextUrl], need 8 ;; skip_int32 ;; skip_int32 ;; tl_skip_string);
    ([CRC_messageEntityMentionName], need 16 ;; skip_int32 ;; skip_int32 ;; skip_int64);
    ([CRC_messageEntityCustomEmoji], need 16 ;; skip_int32 ;; skip_int32 ;; skip_int64);
    ([CRC_messageEntityBlockquote], need 12 ;; skip_uint32 ;; skip_int32 ;; skip_int32)]
    fail.

Definition tl_skip_message_entities_vector : Rd unit := vector_ok_of tl_skip_message_entity.

(** ** Polls *)

Definition skip_text_with_entities : Rd unit :=
  need_ok 4 ;;
  crc ← tl_read_uint32;
  check (crc =? CRC_textWithEntities_poll) ;;
  tl_skip_string ;;
  tl_skip_message_entities_vector.

(** The body of the answers loop of [skip_poll]. *)
Definition skip_poll_answer : Rd unit :=
  need 4 ;;
  pa_crc ← tl_read_uint32;
  check (pa_crc =? CRC_pollAnswer) ;;
  skip_text_with_entities ;;
  tl_skip_string.

Definition skip_poll : Rd unit :=
  need_ok 4 ;;
  crc ← tl_read_uint32;
  check (crc =? CRC_poll) ;;
  need 12 ;;
  flags ← tl_read_uint32;
  skip_int64 ;;
  skip_text_with_entities ;;
  vector_of skip_poll_answer ;;
  when (flag flags 4) int_field ;;
  when (flag flags 5) int_field.

Definition skip_poll_answer_voters : Rd unit :=
  need_ok 4 ;;
  crc ← tl_read_uint32;
  check (crc =? CRC_pollAnswerVoters) ;;
  need 4 ;;
  skip_uint32 ;;
  tl_skip_string ;;
  need 4 ;;
  skip_int32.

Definition skip_poll_results : Rd unit :=
  need_ok 4 ;;
  crc ← tl_read_uint32;
  check (crc =? CRC_pollResults) ;;
  need 4 ;;
  flags ← tl_read_uint32;
  when (flag flags 1) (vector_of skip_poll_answer_voters) ;;
  when (flag flags 2) int_field ;;
  when (flag flags 3) (vector_of tl_skip_peer) ;;
  when (flag flags 4) (tl_skip_string ;; tl_skip_message_entities_vector).

(** ** InputPeer, InputMedia, InputReplyTo and drafts *)

(** The self-recursive skippers take a bound on the recursion depth; the
    function of the C code is the bounded one run with more depth than there
    are unread bytes ([fuelled]). *)
Fixpoint skip_input_peer_rec (depth : nat) : Rd unit :=
  match depth with
  | O => no_fuel
  | S depth =>
    need_ok 4 ;;
    (crc ← tl_read_uint32;
     switch crc [
       ([CRC_inputPeerEmpty; CRC_inputPeerSelf], mret tt);
       ([CRC_inputPeerUser; CRC_inputPeerChannel], need 16 ;; skip_int64 ;; skip_int64);
       ([CRC_inputPeerChat], need 8 ;; skip_int64);
       ([CRC_inputPeerUserFromMessage; CRC_inputPeerChannelFromMessage],
        skip_input_peer_rec depth ;; need 12 ;; skip_int32 ;; skip_int64)] fail)
  end.

Definition skip_input_peer : Rd unit := fuelled skip_input_peer_rec.

Definition skip_input_geo_point : Rd unit :=
  need_ok 4 ;;
  crc ← tl_read_uint32;
  if crc =? CRC_inputGeoPointEmpty then mret tt
  else
    check (crc =? CRC_inputGeoPoint) ;;
    need 4 ;;
    flags ← tl_read_uint32;
    need 16 ;;
    skip_double ;; skip_double ;;
    when (flag flags 0) int_field.

Definition skip_input_photo : Rd unit :=
  need_ok 4 ;;
  crc ← tl_read_uint32;
  if crc =? CRC_inputPhotoEmpty then need 8 ;; skip_int64
  else
    check (crc =? CRC_inputPhoto) ;;
    need 16 ;;
    skip_int64 ;; skip_int64 ;;
    tl_skip_string.

Definition skip_input_document : Rd unit :=
  need_ok 4 ;;
  crc ← tl_read_uint32;
  if crc =? CRC_inputDocumentEmpty then need 8 ;; skip_int64
  else
    check (crc =? CRC_inputDocument) ;;
    need 16 ;;
    skip_int64 ;; skip_int64 ;;
    tl_skip_string.

Definition skip_input_user : Rd unit :=
  need_ok 4 ;;
  crc ← tl_read_uint32;
  switch crc [
    ([CRC_inputUserEmpty; CRC_inputUserSelf], mret tt);
    ([CRC_inputUser], need 16 ;; skip_int64 ;; skip_int64);
    ([CRC_inputUserFromMessage], skip_input_peer ;; need 12 ;; skip_int32 ;; skip_int64)]
    fail.

Definition skip_input_game : Rd unit :=
  need_ok 4 ;;
  crc ← tl_read_uint32;
  if crc =? CRC_inputGameID then need 16 ;; skip_int64 ;; skip_int64
  else if crc =? CRC_inputGameShortName then skip_input_user ;; tl_skip_string
  else fail.

Fixpoint skip_input_media_rec (depth : nat) : Rd unit :=
  match depth with
  | O => no_fuel
  | S depth =>
    need_ok 4 ;;
    (crc ← tl_read_uint32;
     switch crc [
       ([CRC_inputMediaEmpty], mret tt);
       ([CRC_inputMediaPhoto],
        need 4 ;; flags ← tl_read_uint32;
        skip_input_photo ;;
        when (flag flags 0) int_field);
       ([CRC_inputMediaGeoPoint], skip_input_geo_point);
       ([CRC_inputMediaContact], times 4 tl_skip_string);
       ([CRC_inputMediaDocument],
        need 4 ;; flags ← tl_read_uint32;
        skip_input_document ;;
        when (flag flags 0) int_field ;;
        when (flag flags 1) tl_skip_string);
       ([CRC_inputMediaVenue], skip_input_geo_point ;; times 5 tl_skip_string);
       ([CRC_inputMediaGeoLive],
        need 4 ;; flags ← tl_read_uint32;
        skip_input_geo_point ;;
        when (flag flags 2) int_field ;;
        need 4 ;; skip_int32 ;;
        when (flag flags 3) int_field);
       ([CRC_inputMediaGame], skip_input_game);
       ([CRC_inputMediaDice], tl_skip_string);
       ([CRC_inputMediaStory], skip_input_peer ;; need 4 ;; skip_int32);
       ([CRC_inputMediaWebPage],
        need 4 ;; flags ← tl_read_uint32;
        tl_skip_string ;;
        when (flag flags 4) tl_skip_string);
       ([CRC_inputMediaPoll],
        need 4 ;; flags ← tl_read_uint32;
        skip_poll ;;
        when (flag flags 0) (vector_of tl_skip_string) ;;
        when (flag flags 1) tl_skip_string ;;
        when (flag flags 2) tl_skip_message_entities_vector);
       ([CRC_inputMediaPaidMedia],
        need 8 ;; skip_int64 ;;
        vector_of (skip_input_media_rec depth));
       ([CRC_inputMediaPhotoExternal],
        need 4 ;; flags ← tl_read_uint32;
        tl_skip_string ;;
        when (flag flags 0) int_field);
       ([CRC_inputMediaDocumentExternal],
        need 4 ;; flags ← tl_read_uint32;
        tl_skip_string ;;
        when (flag flags 0) int_field);
       ([CRC_inputMediaUploadedPhoto; CRC_inputMediaUploadedDocument; CRC_inputMediaInvoice],
        fail)] fail)
  end.

Definition skip_input_media : Rd unit := fuelled skip_input_media_rec.

Definition skip_input_reply_to : Rd unit :=
  need_ok 4 ;;
  crc ← tl_read_uint32;
  if crc =? CRC_inputReplyToMessage then
    need 8 ;;
    flags ← tl_read_uint32;
    skip_int32 ;;
    when (flag flags 0) int_field ;;
    when (flag flags 1) skip_input_peer ;;
    when (flag flags 2) tl_skip_string ;;
    when (flag flags 3) tl_skip_message_entities_vector ;;
    when (flag flags 4) int_field
  else if crc =? CRC_inputReplyToStory then
    skip_input_peer ;; need 4 ;; skip_int32
  else fail.

Definition tl_skip_draft_message : Rd unit :=
  need_ok 4 ;;
  crc ← tl_read_uint32;
  if crc =? CRC_draftMessageEmpty then
    need 4 ;;
    flags ← tl_read_uint32;
    when (flag flags 0) int_field
  else if crc =? CRC_draftMessage then
    need 4 ;;
    flags ← tl_read_uint32;
    when (flag flags 4) skip_input_reply_to ;;
    tl_skip_string ;;
    when (flag flags 3) tl_skip_message_entities_vector ;;
    when (flag flags 5) skip_input_media ;;
    need 4 ;;
    skip_int32
  else fail.
