(* ===== verification/TlSkipParts.v ===== *)
(** * TL object skippers, part 2 (src/core/tl_skip.c)

    The optional parts of a Message that hold no media: reply markup,
    reactions, replies, fact checks and forward headers; and the photo sizes
    every media object uses. *)

From S2P Require Import Prelude TlSerial TlLogic TlCrc TlSkipBase.

(** ** ReplyMarkup *)

Definition skip_inline_query_peer_type_vector : Rd unit :=
  vector_ok_of
    (need 4 ;;
     crc ← tl_read_uint32;
     switch crc [
       ([CRC_inlineQueryPeerTypeSameBotPM; CRC_inlineQueryPeerTypePM;
         CRC_inlineQueryPeerTypeChat; CRC_inlineQueryPeerTypeMegagroup;
         CRC_inlineQueryPeerTypeBroadcast; CRC_inlineQueryPeerTypeBotPM], mret tt)] fail).

Definition skip_keyboard_button : Rd unit :=
  need_ok 4 ;;
  crc ← tl_read_uint32;
  switch crc [
    ([CRC_keyboardButton; CRC_keyboardButtonRequestPhone; CRC_keyboardButtonRequestGeoLoc;
      CRC_keyboardButtonGame; CRC_keyboardButtonBuy], tl_skip_string);
    ([CRC_keyboardButtonUrl], tl_skip_string ;; tl_skip_string);
    ([CRC_keyboardButtonCallback], need 4 ;; skip_uint32 ;; tl_skip_string ;; tl_skip_string);
    ([CRC_keyboardButtonSwitchInline],
     need 4 ;; flags ← tl_read_uint32;
     tl_skip_string ;; tl_skip_string ;;
     when (flag flags 1) skip_inline_query_peer_type_vector);
    ([CRC_keyboardButtonUrlAuth],
     need 4 ;; flags ← tl_read_uint32;
     tl_skip_string ;;
     when (flag flags 0) tl_skip_string ;;
     tl_skip_string ;;
     need 4 ;; skip_int32);
    ([CRC_keyboardButtonRequestPoll],
     need 4 ;; flags ← tl_read_uint32;
     when (flag flags 0) (need 4 ;; skip_uint32) ;;
     tl_skip_string);
    ([CRC_keyboardButtonUserProfile], tl_skip_string ;; need 8 ;; skip_int64);
    ([CRC_keyboardButtonWebView; CRC_keyboardButtonSimpleWebView],
     tl_skip_string ;; tl_skip_string)] fail.

Definition skip_keyboard_button_row : Rd unit :=
  need_ok 4 ;;
  crc ← tl_read_uint32;
  check (crc =? CRC_keyboardButtonRow) ;;
  vector_of skip_keyboard_button.

Definition skip_button_row_vector : Rd unit := vector_ok_of skip_keyboard_button_row.

Definition tl_skip_reply_markup : Rd unit :=
  need_ok 4 ;;
  crc ← tl_read_uint32;
  switch crc [
    ([CRC_replyKeyboardHide; CRC_replyKeyboardForceReply],
     need 4 ;; flags ← tl_read_uint32;
     when ((crc =? CRC_replyKeyboardForceReply) && flag flags 3) tl_skip_string);
    ([CRC_replyKeyboardMarkup],
     need 4 ;; flags ← tl_read_uint32;
     skip_button_row_vector ;;
     when (flag flags 3) tl_skip_string);
    ([CRC_replyInlineMarkup], skip_button_row_vector)] fail.

(** ** MessageReactions *)

Definition skip_reaction : Rd unit :=
  need_ok 4 ;;
  crc ← tl_read_uint32;
  switch crc [
    ([CRC_reactionEmpty; CRC_reactionPaid], mret tt);
    ([CRC_reactionEmoji], tl_skip_string);
    ([CRC_reactionCustomEmoji], need 8 ;; skip_int64)] fail.

Definition skip_reaction_count : Rd unit :=
  need_ok 4 ;;
  crc ← tl_read_uint32;
  check (crc =? CRC_reactionCount) ;;
  need 4 ;;
  flags ← tl_read_uint32;
  when (flag flags 0) int_field ;;
  skip_reaction ;;
  need 4 ;;
  skip_int32.

Definition skip_message_peer_reaction : Rd unit :=
  need_ok 4 ;;
  crc ← tl_read_uint32;
  check (crc =? CRC_messagePeerReaction) ;;
  need 4 ;;
  skip_uint32 ;;
  skip_reaction ;;
  need 4 ;;
  skip_int32 ;;
  tl_skip_peer.

Definition skip_message_reactor : Rd unit :=
  need_ok 4 ;;
  crc ← tl_read_uint32;
  check (crc =? CRC_messageReactor) ;;
  need 4 ;;
  flags ← tl_read_uint32;
  when (flag flags 3) tl_skip_peer ;;
  need 8 ;;
  skip_int32 ;;
  skip_int32.

Definition tl_skip_message_reactions : Rd unit :=
  need_ok 4 ;;
  crc ← tl_read_uint32;
  check (crc =? CRC_messageReactions) ;;
  need 4 ;;
  flags ← tl_read_uint32;
  vector_of skip_reaction_count ;;
  when (flag flags 1) (vector_of skip_message_peer_reaction) ;;
  when (flag flags 2) (vector_of skip_message_reactor).

(** ** MessageReplies, FactCheck, MessageFwdHeader *)

Definition tl_skip_message_replies : Rd unit :=
  need_ok 4 ;;
  crc ← tl_read_uint32;
  check (crc =? CRC_messageReplies) ;;
  need 12 ;;
  flags ← tl_read_uint32;
  skip_int32 ;;
  skip_int32 ;;
  when (flag flags 1) (vector_of tl_skip_peer) ;;
  when (flag flags 0) long_field ;;
  when (flag flags 2) int_field ;;
  when (flag flags 3) int_field.

Definition tl_skip_factcheck : Rd unit :=
  need_ok 4 ;;
  crc ← tl_read_uint32;
  check (crc =? CRC_factCheck) ;;
  need 4 ;;
  flags ← tl_read_uint32;
  when (flag flags 1)
    (tl_skip_string ;;
     need 4 ;;
     twe_crc ← tl_read_uint32;
     check (twe_crc =? CRC_textWithEntities) ;;
     tl_skip_string ;;
     tl_skip_message_entities_vector) ;;
  need 8 ;;
  skip_int64.

Definition tl_skip_message_fwd_header : Rd unit :=
  need_ok 8 ;;
  crc ← tl_read_uint32;
  check (crc =? CRC_messageFwdHeader) ;;
  flags ← tl_read_uint32;
  when (flag flags 0) tl_skip_peer ;;
  when (flag flags 5) tl_skip_string ;;
  need 4 ;;
  skip_int32 ;;
  when (flag flags 2) int_field ;;
  when (flag flags 3) tl_skip_string ;;
  when (flag flags 4) (tl_skip_peer ;; need 4 ;; skip_int32) ;;
  when (flag flags 8) tl_skip_peer ;;
  when (flag flags 9) tl_skip_string ;;
  when (flag flags 10) int_field ;;
  when (flag flags 6) tl_skip_string.

(** ** PhotoSize *)

(** [sizes:Vector<int>]: the whole payload is checked before the loop. *)
Definition skip_int_vector : Rd unit :=
  need 8 ;;
  vec_crc ← tl_read_uint32;
  check (vec_crc =? TL_vector) ;;
  count ← tl_read_uint32;
  need (u64 (count * 4)) ;;
  for_n count skip_int32.

Definition tl_skip_photo_size : Rd unit :=
  need_ok 4 ;;
  crc ← tl_read_uint32;
  switch crc [
    ([CRC_photoSizeEmpty], tl_skip_string);
    ([CRC_photoSize], tl_skip_string ;; need 12 ;; skip_int32 ;; skip_int32 ;; skip_int32);
    ([CRC_photoCachedSize],
     tl_skip_string ;; need 8 ;; skip_int32 ;; skip_int32 ;; tl_skip_string);
    ([CRC_photoStrippedSize; CRC_photoPathSize], tl_skip_string ;; tl_skip_string);
    ([CRC_photoSizeProgressive],
     tl_skip_string ;; need 8 ;; skip_int32 ;; skip_int32 ;; skip_int_vector)] fail.

Definition tl_skip_photo_size_vector : Rd unit := vector_ok_of tl_skip_photo_size.
