(* ===== verification/TlSkipMedia.v ===== *)
(** * TL object skippers, part 3 (src/core/tl_skip.c)

    Photos and documents, with the metadata ([MediaInfo]) the download code
    needs; geo points, games, web documents; and the self-contained parts of
    a story item. *)

From S2P Require Import Prelude TlSerial TlLogic TlCrc TlSkipBase TlSkipParts.

(** ** MediaInfo (src/core/tl_skip.h) *)

Inductive MediaKind :=
| MEDIA_NONE | MEDIA_EMPTY | MEDIA_UNSUPPORTED | MEDIA_PHOTO | MEDIA_DOCUMENT
| MEDIA_GEO | MEDIA_CONTACT | MEDIA_VENUE | MEDIA_GEO_LIVE | MEDIA_DICE
| MEDIA_WEBPAGE | MEDIA_POLL | MEDIA_INVOICE | MEDIA_STORY | MEDIA_GIVEAWAY
| MEDIA_GAME | MEDIA_PAID | MEDIA_OTHER.

#[global] Instance MediaKind_eq_dec : EqDecision MediaKind.
Proof. solve_decision. Defined.

Definition MEDIA_FILE_REF_MAX : Z := 128.

(** [file_reference] holds the first [file_reference_len] bytes of the array. *)
Record MediaInfo := mkMediaInfo {
  kind : MediaKind;
  photo_id : Z;
  document_id : Z;
  dc_id : Z;
  access_hash : Z;
  file_reference : list byte;
  thumb_type : list byte;
  document_size : Z;
  document_mime : list byte;
  document_filename : list byte;
}.

Definition media_zero : MediaInfo := mkMediaInfo MEDIA_NONE 0 0 0 0 [] [] 0 [] [].

Definition set_kind k (m : MediaInfo) := mkMediaInfo k (photo_id m) (document_id m) (dc_id m)
  (access_hash m) (file_reference m) (thumb_type m) (document_size m) (document_mime m)
  (document_filename m).
Definition set_photo_id v (m : MediaInfo) := mkMediaInfo (kind m) v (document_id m) (dc_id m)
  (access_hash m) (file_reference m) (thumb_type m) (document_size m) (document_mime m)
  (document_filename m).
Definition set_document_id v (m : MediaInfo) := mkMediaInfo (kind m) (photo_id m) v (dc_id m)
  (access_hash m) (file_reference m) (thumb_type m) (document_size m) (document_mime m)
  (document_filename m).
Definition set_dc_id v (m : MediaInfo) := mkMediaInfo (kind m) (photo_id m) (document_id m) v
  (access_hash m) (file_reference m) (thumb_type m) (document_size m) (document_mime m)
  (document_filename m).
Definition set_access_hash v (m : MediaInfo) := mkMediaInfo (kind m) (photo_id m)
  (document_id m) (dc_id m) v (file_reference m) (thumb_type m) (document_size m)
  (document_mime m) (document_filename m).
Definition set_file_reference v (m : MediaInfo) := mkMediaInfo (kind m) (photo_id m)
  (document_id m) (dc_id m) (access_hash m) v (thumb_type m) (document_size m)
  (document_mime m) (document_filename m).
Definition set_thumb_type v (m : MediaInfo) := mkMediaInfo (kind m) (photo_id m)
  (document_id m) (dc_id m) (access_hash m) (file_reference m) v (document_size m)
  (document_mime m) (document_filename m).
Definition set_document_size v (m : MediaInfo) := mkMediaInfo (kind m) (photo_id m)
  (document_id m) (dc_id m) (access_hash m) (file_reference m) (thumb_type m) v
  (document_mime m) (document_filename m).
Definition set_document_mime v (m : MediaInfo) := mkMediaInfo (kind m) (photo_id m)
  (document_id m) (dc_id m) (access_hash m) (file_reference m) (thumb_type m)
  (document_size m) v (document_filename m).
Definition set_document_filename v (m : MediaInfo) := mkMediaInfo (kind m) (photo_id m)
  (document_id m) (dc_id m) (access_hash m) (file_reference m) (thumb_type m)
  (document_size m) (document_mime m) v.

(** Functions with a [MediaInfo *out] parameter. *)
Abbreviation MRd := (M (TlReader * option MediaInfo)).

(** [Vector<long>] whose payload is checked before the loop. *)
Definition skip_long_vector : Rd unit :=
  need 8 ;;
  vc ← tl_read_uint32;
  check (vc =? TL_vector) ;;
  n ← tl_read_uint32;
  need (u64 (n * 8)) ;;
  for_n n skip_int64.

(** ** Sticker sets, masks, video sizes *)

Definition skip_input_sticker_set : Rd unit :=
  need_ok 4 ;;
  crc ← tl_read_uint32;
  switch crc [
    ([CRC_inputStickerSetEmpty; CRC_inputStickerSetAnimatedEmoji;
      CRC_inputStickerSetAnimatedEmojiAnimations; CRC_inputStickerSetPremiumGifts;
      CRC_inputStickerSetEmojiGenericAnimations; CRC_inputStickerSetEmojiDefaultStatuses;
      CRC_inputStickerSetEmojiDefaultTopicIcons;
      CRC_inputStickerSetEmojiChannelDefaultStatuses], mret tt);
    ([CRC_inputStickerSetID], need 16 ;; skip_int64 ;; skip_int64);
    ([CRC_inputStickerSetShortName], tl_skip_string);
    ([CRC_inputStickerSetDice], tl_skip_string)] fail.

Definition skip_mask_coords : Rd unit :=
  need_ok 4 ;;
  crc ← tl_read_uint32;
  check (crc =? CRC_maskCoords) ;;
  need (4 + 3 * 8) ;;
  skip_int32 ;;
  skip_double ;; skip_double ;; skip_double.

Definition skip_video_size : Rd unit :=
  need_ok 4 ;;
  crc ← tl_read_uint32;
  switch crc [
    ([CRC_videoSize],
     need 4 ;; flags ← tl_read_uint32;
     tl_skip_string ;;
     need 12 ;; skip_int32 ;; skip_int32 ;; skip_int32 ;;
     when (flag flags 0) (need 8 ;; skip_double));
    ([CRC_videoSizeEmojiMarkup], need 8 ;; skip_int64 ;; skip_int_vector);
    ([CRC_videoSizeStickerMarkup],
     skip_input_sticker_set ;; need 8 ;; skip_int64 ;; skip_int_vector)] fail.

Definition skip_video_size_vector : Rd unit := vector_ok_of skip_video_size.

(** ** Photo *)

(** One round of the loop of [walk_photo_size_vector]: the score of the
    PhotoSize and its type label. *)
Definition walk_photo_size : Rd (Z * list byte) :=
  need_ok 4 ;;
  crc ← tl_read_uint32;
  s ← tl_read_string;
  match s with
  | None => fail
  | Some s =>
    let type_buf := copy_trunc 8 s in
    switch crc [
      ([CRC_photoSizeEmpty], mret (-1, type_buf));
      ([CRC_photoSize],
       need 12 ;; w ← tl_read_int32; h ← tl_read_int32; skip_int32 ;;
       mret (w * h, type_buf));
      ([CRC_photoCachedSize],
       need 8 ;; w ← tl_read_int32; h ← tl_read_int32; tl_skip_string ;;
       mret (w * h, type_buf));
      ([CRC_photoStrippedSize; CRC_photoPathSize], tl_skip_string ;; mret (0, type_buf));
      ([CRC_photoSizeProgressive],
       need 8 ;; w ← tl_read_int32; h ← tl_read_int32; skip_int_vector ;;
       mret (w * h, type_buf))] fail
  end.

(** The end of the round: keep the type of the best score so far.  The local
    variable is [best_score]; the best type goes to [thumb_type] (capacity 8)
    when [out] is given. *)
Definition keep_best (score : Z) (type_buf : list byte)
    : M (TlReader * (Z * option MediaInfo)) unit := fun '(r, (best_score, out)) =>
  match out with
  | Some m =>
      if best_score <? score
      then Done tt (r, (score, Some (set_thumb_type (copy_trunc 8 type_buf) m)))
      else Done tt (r, (best_score, Some m))
  | None => Done tt (r, (best_score, None))
  end.

Definition walk_photo_size_vector : MRd unit :=
  lift (need_ok 8) ;;
  vec_crc ← lift tl_read_uint32;
  lift (check (vec_crc =? TL_vector)) ;;
  count ← lift tl_read_uint32;
  upd_out (set_thumb_type []) ;;
  with_local (-1)
    (for_n count (st ← lift walk_photo_size; keep_best (fst st) (snd st))).

(** The file_reference field, truncated to the array.  [tl_read_bytes] sets
    the length to 0 whenever it returns [NULL], so the test
    [!fr && fr_len != 0] that follows it never fires. *)
Definition read_file_reference : MRd unit :=
  fr ← lift tl_read_bytes;
  upd_out (set_file_reference (take (Z.to_nat MEDIA_FILE_REF_MAX) (default [] fr))).

Definition photo_full : MRd unit :=
  lift (need_ok 4) ;;
  crc ← lift tl_read_uint32;
  if crc =? CRC_photoEmpty then
    lift (need 8) ;;
    id ← lift tl_read_int64;
    upd_out (set_photo_id id)
  else
    lift (check (crc =? CRC_photo)) ;;
    lift (need 4) ;;
    flags ← lift tl_read_uint32;
    lift (need 16) ;;
    id ← lift tl_read_int64;
    access ← lift tl_read_int64;
    upd_out (fun m => set_access_hash access (set_photo_id id m)) ;;
    read_file_reference ;;
    lift (need 4 ;; skip_int32) ;;
    walk_photo_size_vector ;;
    lift (when (flag flags 1) skip_video_size_vector) ;;
    lift (need 4) ;;
    dc ← lift tl_read_int32;
    upd_out (set_dc_id dc).

Definition tl_skip_photo : Rd unit := with_null photo_full.

(** ** Document *)

(** [size_t before = r->pos; s = tl_read_string(r); if (!s) { r->pos = before; return -1; }] *)
Definition read_string_or_restore : Rd (list byte) := fun r =>
  match tl_read_string r with
  | Done (Some s) r' => Done s r'
  | Done None _ => Fail r
  | Fail r' => Fail r'
  | Fault => Fault
  | NoFuel => NoFuel
  end.

Definition skip_document_attribute : MRd unit :=
  lift (need_ok 4) ;;
  crc ← lift tl_read_uint32;
  switch crc [
    ([CRC_documentAttributeImageSize], lift (need 8 ;; skip_int32 ;; skip_int32));
    ([CRC_documentAttributeAnimated; CRC_documentAttributeHasStickers], mret tt);
    ([CRC_documentAttributeFilename],
     s ← lift read_string_or_restore;
     upd_out (set_document_filename (copy_trunc 128 s)));
    ([CRC_documentAttributeVideo],
     lift
       (need 4 ;; flags ← tl_read_uint32;
        need (8 + 4 + 4) ;;
        skip_double ;; skip_int32 ;; skip_int32 ;;
        when (flag flags 2) int_field ;;
        when (flag flags 4) (need 8 ;; skip_double) ;;
        when (flag flags 5) tl_skip_string));
    ([CRC_documentAttributeAudio],
     lift
       (need 8 ;; flags ← tl_read_uint32;
        skip_int32 ;;
        when (flag flags 0) tl_skip_string ;;
        when (flag flags 1) tl_skip_string ;;
        when (flag flags 2) tl_skip_string));
    ([CRC_documentAttributeSticker],
     lift
       (need 4 ;; flags ← tl_read_uint32;
        tl_skip_string ;;
        skip_input_sticker_set ;;
        when (flag flags 0) skip_mask_coords));
    ([CRC_documentAttributeCustomEmoji],
     lift (need 4 ;; skip_uint32 ;; tl_skip_string ;; skip_input_sticker_set))]
    fail.

Definition document_inner : MRd unit :=
  lift (need_ok 4) ;;
  crc ← lift tl_read_uint32;
  if crc =? CRC_documentEmpty then
    lift (need 8) ;;
    id ← lift tl_read_int64;
    upd_out (set_document_id id)
  else
    lift (check (crc =? CRC_document)) ;;
    lift (need 4) ;;
    flags ← lift tl_read_uint32;
    lift (need 16) ;;
    id ← lift tl_read_int64;
    access ← lift tl_read_int64;
    upd_out (fun m => set_access_hash access (set_document_id id m)) ;;
    read_file_reference ;;
    lift (need 4 ;; skip_int32) ;;
    mime ← lift read_string_or_restore;
    upd_out (set_document_mime (copy_trunc 64 mime)) ;;
    lift (need 8) ;;
    size ← lift tl_read_int64;
    upd_out (set_document_size size) ;;
    lift (when (flag flags 0) tl_skip_photo_size_vector) ;;
    lift (when (flag flags 1) skip_video_size_vector) ;;
    lift (need 4) ;;
    dc ← lift tl_read_int32;
    upd_out (set_dc_id dc) ;;
    lift (need 8) ;;
    vec_crc ← lift tl_read_uint32;
    lift (check (vec_crc =? TL_vector)) ;;
    n_attrs ← lift tl_read_uint32;
    for_n n_attrs skip_document_attribute.

Definition tl_skip_document : Rd unit := with_null document_inner.

(** ** Geo points, games, web documents *)

Definition skip_geo_point : Rd unit :=
  need_ok 4 ;;
  crc ← tl_read_uint32;
  if crc =? CRC_geoPointEmpty then mret tt
  else
    check (crc =? CRC_geoPoint) ;;
    need 28 ;;
    flags ← tl_read_uint32;
    skip_double ;; skip_double ;; skip_int64 ;;
    when (flag flags 0) int_field.

Definition skip_game : Rd unit :=
  need_ok 4 ;;
  crc ← tl_read_uint32;
  check (crc =? CRC_game) ;;
  need (4 + 8 + 8) ;;
  flags ← tl_read_uint32;
  skip_int64 ;; skip_int64 ;;
  tl_skip_string ;; tl_skip_string ;; tl_skip_string ;;
  tl_skip_photo ;;
  when (flag flags 0) tl_skip_document.

Definition skip_web_document : Rd unit :=
  need_ok 4 ;;
  crc ← tl_read_uint32;
  has_access_hash ← switch crc [
    ([CRC_webDocument], mret true);
    ([CRC_webDocumentNoProxy], mret false)] fail;
  tl_skip_string ;;
  when has_access_hash long_field ;;
  need 4 ;; skip_int32 ;;
  tl_skip_string ;;
  vector_of (with_null skip_document_attribute).

(** ** Parts of a story *)

Definition skip_story_fwd_header : Rd unit :=
  need_ok 4 ;;
  crc ← tl_read_uint32;
  check (crc =? CRC_storyFwdHeader) ;;
  need 4 ;;
  flags ← tl_read_uint32;
  when (flag flags 0) tl_skip_peer ;;
  when (flag flags 1) tl_skip_string ;;
  when (flag flags 2) int_field.

Definition skip_media_area_coordinates : Rd unit :=
  need_ok 4 ;;
  crc ← tl_read_uint32;
  check (crc =? CRC_mediaAreaCoordinates) ;;
  need (4 + 5 * 8) ;;
  flags ← tl_read_uint32;
  times 5 skip_double ;;
  when (flag flags 0) (need 8 ;; skip_double).

Definition skip_geo_point_address : Rd unit :=
  need_ok 4 ;;
  crc ← tl_read_uint32;
  check (crc =? CRC_geoPointAddress) ;;
  need 4 ;;
  flags ← tl_read_uint32;
  tl_skip_string ;;
  when (flag flags 0) tl_skip_string ;;
  when (flag flags 1) tl_skip_string ;;
  when (flag flags 2) tl_skip_string.

Definition skip_media_area : Rd unit :=
  need_ok 4 ;;
  crc ← tl_read_uint32;
  switch crc [
    ([CRC_mediaAreaVenue],
     skip_media_area_coordinates ;; skip_geo_point ;;
     tl_skip_string ;; tl_skip_string ;; tl_skip_string ;; tl_skip_string ;; tl_skip_string);
    ([CRC_mediaAreaGeoPoint],
     need 4 ;; flags ← tl_read_uint32;
     skip_media_area_coordinates ;; skip_geo_point ;;
     when (flag flags 0) skip_geo_point_address);
    ([CRC_mediaAreaSuggestedReaction],
     need 4 ;; skip_uint32 ;; skip_media_area_coordinates ;; skip_reaction);
    ([CRC_mediaAreaChannelPost],
     skip_media_area_coordinates ;; need 12 ;; skip_int64 ;; skip_int32);
    ([CRC_mediaAreaUrl], skip_media_area_coordinates ;; tl_skip_string);
    ([CRC_mediaAreaWeather],
     skip_media_area_coordinates ;; tl_skip_string ;;
     need (8 + 4) ;; skip_double ;; skip_int32);
    ([CRC_mediaAreaStarGift], skip_media_area_coordinates ;; tl_skip_string)] fail.

Definition skip_privacy_rule : Rd unit :=
  need_ok 4 ;;
  crc ← tl_read_uint32;
  switch crc [
    ([CRC_privacyValueAllowContacts; CRC_privacyValueAllowAll;
      CRC_privacyValueDisallowContacts; CRC_privacyValueDisallowAll;
      CRC_privacyValueAllowCloseFriends; CRC_privacyValueAllowPremium;
      CRC_privacyValueAllowBots; CRC_privacyValueDisallowBots], mret tt);
    ([CRC_privacyValueAllowUsers; CRC_privacyValueDisallowUsers;
      CRC_privacyValueAllowChatParticipants; CRC_privacyValueDisallowChatParticipants],
     skip_long_vector)] fail.

Definition skip_story_views : Rd unit :=
  need_ok 4 ;;
  crc ← tl_read_uint32;
  check (crc =? CRC_storyViews) ;;
  need 4 ;;
  flags ← tl_read_uint32;
  need 4 ;; skip_int32 ;;
  when (flag flags 2) int_field ;;
  when (flag flags 3) (vector_of skip_reaction_count) ;;
  when (flag flags 4) int_field ;;
  when (flag flags 0) skip_long_vector.
