(* ===== verification/TlSkipChat.v ===== *)
(** * TL object skippers, part 4 (src/core/tl_skip.c): Chat and User

    The walkers that also extract the summary the dialog list shows. *)

From S2P Require Import Prelude TlSerial TlLogic TlCrc TlSkipBase.

(** ** Summaries (src/core/tl_skip.h) *)

Record ChatSummary := mkChatSummary {
  chat_id : Z; chat_access_hash : Z; chat_have_access_hash : bool; chat_title : list byte }.

Record UserSummary := mkUserSummary {
  user_id : Z; user_access_hash : Z; user_have_access_hash : bool;
  user_name : list byte; user_username : list byte }.

Definition chat_zero : ChatSummary := mkChatSummary 0 0 false [].
Definition user_zero : UserSummary := mkUserSummary 0 0 false [] [].

Definition chat_set_id v (c : ChatSummary) :=
  mkChatSummary v (chat_access_hash c) (chat_have_access_hash c) (chat_title c).
Definition chat_set_hash v (c : ChatSummary) := mkChatSummary (chat_id c) v true (chat_title c).
Definition chat_set_title v (c : ChatSummary) :=
  mkChatSummary (chat_id c) (chat_access_hash c) (chat_have_access_hash c) v.

Definition user_set_id v (u : UserSummary) :=
  mkUserSummary v (user_access_hash u) (user_have_access_hash u) (user_name u) (user_username u).
Definition user_set_hash v (u : UserSummary) :=
  mkUserSummary (user_id u) v true (user_name u) (user_username u).
Definition user_set_name v (u : UserSummary) :=
  mkUserSummary (user_id u) (user_access_hash u) (user_have_access_hash u) v (user_username u).
Definition user_set_username v (u : UserSummary) :=
  mkUserSummary (user_id u) (user_access_hash u) (user_have_access_hash u) (user_name u) v.

Abbreviation CRd := (M (TlReader * option ChatSummary)).
Abbreviation URd := (M (TlReader * option UserSummary)).

(** ** String helpers *)

(** Read a TL string into the field [set] of the caller's object, which has
    room for [out_cap] bytes with the terminator. *)
Definition read_string_into {T} (set : list byte -> T -> T) (out_cap : Z)
    : M (TlReader * option T) unit :=
  s ← lift tl_read_string;
  match s with
  | None => upd_out (set []) ;; fail
  | Some s => upd_out (set (copy_trunc out_cap s))
  end.

(** The same into a local buffer, dead once the function has failed. *)
Definition read_string_local (out_cap : Z) : Rd (list byte) :=
  s ← tl_read_string;
  match s with None => fail | Some s => mret (copy_trunc out_cap s) end.

Definition str_append (dst : list byte) (dst_cap : Z) (src : list byte) : list byte :=
  if dst_cap =? 0 then dst
  else if dst_cap - 1 <=? zlen dst then dst
  else
    let room := dst_cap - 1 - zlen dst in
    let n := if room <? zlen src then room else zlen src in
    dst ++ take (Z.to_nat n) src.

(** [if (out) read_string_into(field) else tl_skip_string] *)
Definition string_field {T} (set : list byte -> T -> T) (cap : Z)
    : M (TlReader * option T) unit :=
  o ← ask_out;
  match o with
  | Some _ => read_string_into set cap
  | None => lift tl_skip_string
  end.

(** ** Parts *)

Definition tl_skip_chat_photo : Rd unit :=
  need_ok 4 ;;
  crc ← tl_read_uint32;
  if crc =? CRC_chatPhotoEmpty then mret tt
  else
    check (crc =? CRC_chatPhoto) ;;
    need 4 ;;
    flags ← tl_read_uint32;
    need 8 ;; skip_int64 ;;
    when (flag flags 1) tl_skip_string ;;
    need 4 ;; skip_int32.

Definition tl_skip_user_profile_photo : Rd unit :=
  need_ok 4 ;;
  crc ← tl_read_uint32;
  if crc =? CRC_userProfilePhotoEmpty then mret tt
  else
    check (crc =? CRC_userProfilePhoto) ;;
    need 4 ;;
    flags ← tl_read_uint32;
    need 8 ;; skip_int64 ;;
    when (flag flags 1) tl_skip_string ;;
    need 4 ;; skip_int32.

Definition tl_skip_user_status : Rd unit :=
  need_ok 4 ;;
  crc ← tl_read_uint32;
  switch crc [
    ([CRC_userStatusEmpty], mret tt);
    ([CRC_userStatusOnline; CRC_userStatusOffline; CRC_userStatusRecently;
      CRC_userStatusLastWeek; CRC_userStatusLastMonth], need 4 ;; skip_int32)] fail.

Definition tl_skip_restriction_reason_vector : Rd unit :=
  vector_ok_of
    (need 4 ;;
     crc ← tl_read_uint32;
     check (crc =? CRC_restrictionReason) ;;
     tl_skip_string ;; tl_skip_string ;; tl_skip_string).

Definition tl_skip_username_vector : Rd unit :=
  vector_ok_of
    (need 8 ;;
     crc ← tl_read_uint32;
     check (crc =? CRC_username) ;;
     skip_uint32 ;;
     tl_skip_string).

Definition tl_skip_peer_color : Rd unit :=
  need_ok 8 ;;
  crc ← tl_read_uint32;
  check (crc =? CRC_peerColor) ;;
  flags ← tl_read_uint32;
  when (flag flags 0) int_field ;;
  when (flag flags 1) long_field.

Definition tl_skip_emoji_status : Rd unit :=
  need_ok 4 ;;
  crc ← tl_read_uint32;
  switch crc [
    ([CRC_emojiStatusEmpty], mret tt);
    ([CRC_emojiStatus], need 8 ;; skip_int64);
    ([CRC_emojiStatusUntil], need 12 ;; skip_int64 ;; skip_int32)] fail.

Definition skip_chat_admin_rights : Rd unit :=
  need_ok 8 ;;
  crc ← tl_read_uint32;
  check (crc =? CRC_chatAdminRights) ;;
  skip_uint32.

Definition skip_chat_banned_rights : Rd unit :=
  need_ok 12 ;;
  crc ← tl_read_uint32;
  check (crc =? CRC_chatBannedRights) ;;
  skip_uint32 ;;
  skip_int32.

(** ** Chat *)

(** The [migrated_to] field of chat. *)
Definition skip_migrated_to : Rd unit :=
  need 4 ;;
  ic_crc ← tl_read_uint32;
  if ic_crc =? CRC_inputChannelEmpty then mret tt
  else if (ic_crc =? CRC_inputChannel) || (ic_crc =? CRC_inputChannelFromMessage) then
    need 16 ;; skip_int64 ;; skip_int64
  else fail.

Definition extract_chat_inner : CRd unit :=
  upd_out (fun _ => chat_zero) ;;
  lift (need_ok 4) ;;
  crc ← lift tl_read_uint32;
  if crc =? TL_chatEmpty then
    lift (need 8) ;;
    id ← lift tl_read_int64;
    upd_out (chat_set_id id)
  else if crc =? TL_chatForbidden then
    lift (need 8) ;;
    id ← lift tl_read_int64;
    upd_out (chat_set_id id) ;;
    string_field chat_set_title 128
  else if crc =? TL_chat then
    lift (need 4) ;;
    flags ← lift tl_read_uint32;
    lift (when (flag flags 6) skip_migrated_to) ;;
    lift (need 8) ;;
    id ← lift tl_read_int64;
    upd_out (chat_set_id id) ;;
    string_field chat_set_title 128 ;;
    lift tl_skip_chat_photo ;;
    lift (need 12 ;; skip_int32 ;; skip_int32 ;; skip_int32) ;;
    lift (when (flag flags 14) skip_chat_admin_rights) ;;
    lift (when (flag flags 18) skip_chat_banned_rights)
  else if crc =? TL_channelForbidden then
    lift (need 4) ;;
    flags ← lift tl_read_uint32;
    lift (need 16) ;;
    id ← lift tl_read_int64;
    upd_out (chat_set_id id) ;;
    access_hash ← lift tl_read_int64;
    upd_out (chat_set_hash access_hash) ;;
    string_field chat_set_title 128 ;;
    lift (when (flag flags 16) int_field)
  else if crc =? TL_channel then
    lift (need 8) ;;
    flags ← lift tl_read_uint32;
    flags2 ← lift tl_read_uint32;
    lift (need 8) ;;
    id ← lift tl_read_int64;
    upd_out (chat_set_id id) ;;
    when (flag flags 13)
      (lift (need 8) ;;
       access_hash ← lift tl_read_int64;
       upd_out (chat_set_hash access_hash)) ;;
    string_field chat_set_title 128 ;;
    lift (when (flag flags 6) tl_skip_string) ;;
    lift tl_skip_chat_photo ;;
    lift (need 4 ;; skip_int32) ;;
    lift (when (flag flags 9) tl_skip_restriction_reason_vector) ;;
    lift (when (flag flags 14) skip_chat_admin_rights) ;;
    lift (when (flag flags 15) skip_chat_banned_rights) ;;
    lift (when (flag flags 18) skip_chat_banned_rights) ;;
    lift (when (flag flags 17) int_field) ;;
    lift (when (flag flags2 0) tl_skip_username_vector) ;;
    lift (when (flag flags2 4) int_field) ;;
    lift (when (flag flags2 7) tl_skip_peer_color) ;;
    lift (when (flag flags2 8) tl_skip_peer_color) ;;
    lift (when (flag flags2 9) tl_skip_emoji_status) ;;
    lift (when (flag flags2 10) int_field) ;;
    lift (when (flag flags2 11) int_field)
  else fail.

Definition tl_skip_chat : Rd unit := with_null extract_chat_inner.

(** [out == NULL] and [out != NULL] are the two forms of the state. *)
Definition tl_extract_chat : CRd unit := extract_chat_inner.

(** ** User *)

Definition space : list byte := [Byte.x20].

(** first_name: appended to the (empty) name. *)
Definition read_first_name : URd unit :=
  o ← ask_out;
  match o with
  | Some _ =>
      first ← lift (read_string_local 96);
      upd_out (fun u => user_set_name (str_append (user_name u) 128 first) u)
  | None => lift tl_skip_string
  end.

(** last_name: joined with a space when both parts are there. *)
Definition join_last_name (last : list byte) (u : UserSummary) : UserSummary :=
  match last with
  | [] => u
  | _ :: _ =>
      let name := match user_name u with
                  | [] => []
                  | n => str_append n 128 space
                  end in
      user_set_name (str_append name 128 last) u
  end.

Definition read_last_name : URd unit :=
  o ← ask_out;
  match o with
  | Some _ =>
      last ← lift (read_string_local 96);
      upd_out (join_last_name last)
  | None => lift tl_skip_string
  end.

Definition extract_user_inner : URd unit :=
  upd_out (fun _ => user_zero) ;;
  lift (need_ok 4) ;;
  crc ← lift tl_read_uint32;
  if crc =? TL_userEmpty then
    lift (need 8) ;;
    id ← lift tl_read_int64;
    upd_out (user_set_id id)
  else
    lift (check ((crc =? TL_user) || (crc =? TL_user2))) ;;
    lift (need 8) ;;
    flags ← lift tl_read_uint32;
    flags2 ← lift tl_read_uint32;
    lift (need 8) ;;
    id ← lift tl_read_int64;
    upd_out (user_set_id id) ;;
    when (flag flags 0)
      (lift (need 8) ;;
       access_hash ← lift tl_read_int64;
       upd_out (user_set_hash access_hash)) ;;
    when (flag flags 1) read_first_name ;;
    when (flag flags 2) read_last_name ;;
    when (flag flags 3) (string_field user_set_username 64) ;;
    lift (when (flag flags 4) tl_skip_string) ;;
    lift (when (flag flags 5) tl_skip_user_profile_photo) ;;
    lift (when (flag flags 6) tl_skip_user_status) ;;
    lift (when (flag flags 14) int_field) ;;
    lift (when (flag flags 18) tl_skip_restriction_reason_vector) ;;
    lift (when (flag flags 19) tl_skip_string) ;;
    lift (when (flag flags 22) tl_skip_string) ;;
    lift (when (flag flags 30) tl_skip_emoji_status) ;;
    lift (when (flag flags2 0) tl_skip_username_vector) ;;
    lift (when (flag flags2 5) int_field) ;;
    lift (when (flag flags2 8) tl_skip_peer_color) ;;
    lift (when (flag flags2 9) tl_skip_peer_color) ;;
    lift (when (flag flags2 12) int_field).

Definition tl_skip_user : Rd unit := with_null extract_user_inner.

Definition tl_extract_user : URd unit := extract_user_inner.
