(* ===== verification/TlSkipPage.v ===== *)
(** * TL object skippers, part 5 (src/core/tl_skip.c): pages and web pages

    The RichText and PageBlock trees of an instant view page, theme settings
    and the WebPage variants. *)

From S2P Require Import Prelude TlSerial TlLogic TlCrc TlSkipBase TlSkipParts TlSkipMedia.
From S2P Require Import TlSkipChat.

(** ** RichText *)

Fixpoint skip_rich_text_rec (depth : nat) : Rd unit :=
  match depth with
  | O => no_fuel
  | S depth =>
    need_ok 4 ;;
    (crc ← tl_read_uint32;
     switch crc [
       ([CRC_textEmpty], mret tt);
       ([CRC_textPlain], tl_skip_string);
       ([CRC_textBold; CRC_textItalic; CRC_textUnderline; CRC_textStrike; CRC_textFixed;
         CRC_textSubscript; CRC_textSuperscript; CRC_textMarked], skip_rich_text_rec depth);
       ([CRC_textUrl],
        skip_rich_text_rec depth ;; tl_skip_string ;; need 8 ;; skip_int64);
       ([CRC_textEmail; CRC_textPhone], skip_rich_text_rec depth ;; tl_skip_string);
       ([CRC_textConcat], vector_of (skip_rich_text_rec depth));
       ([CRC_textImage], need 16 ;; skip_int64 ;; skip_int32 ;; skip_int32);
       ([CRC_textAnchor], skip_rich_text_rec depth ;; tl_skip_string)] fail)
  end.

Definition skip_rich_text : Rd unit := fuelled skip_rich_text_rec.

Definition skip_page_caption : Rd unit :=
  need_ok 4 ;;
  crc ← tl_read_uint32;
  check (crc =? CRC_pageCaption) ;;
  skip_rich_text ;;
  skip_rich_text.

Definition skip_page_table_cell : Rd unit :=
  need_ok 4 ;;
  crc ← tl_read_uint32;
  check (crc =? CRC_pageTableCell) ;;
  need 4 ;;
  flags ← tl_read_uint32;
  when (flag flags 7) skip_rich_text ;;
  when (flag flags 1) int_field ;;
  when (flag flags 2) int_field.

Definition skip_page_table_row : Rd unit :=
  need_ok 4 ;;
  crc ← tl_read_uint32;
  check (crc =? CRC_pageTableRow) ;;
  vector_of skip_page_table_cell.

Definition skip_page_related_article : Rd unit :=
  need_ok 4 ;;
  crc ← tl_read_uint32;
  check (crc =? CRC_pageRelatedArticle) ;;
  need 4 ;;
  flags ← tl_read_uint32;
  tl_skip_string ;;
  need 8 ;; skip_int64 ;;
  when (flag flags 0) tl_skip_string ;;
  when (flag flags 1) tl_skip_string ;;
  when (flag flags 2) long_field ;;
  when (flag flags 3) tl_skip_string ;;
  when (flag flags 4) int_field.

(** ** PageBlock

    [block] is the recursive call of [skip_page_block]. *)

Section Blocks.
Context (block : Rd unit).

Definition skip_page_block_vector : Rd unit := vector_ok_of block.

Definition skip_page_list_item : Rd unit :=
  need_ok 4 ;;
  crc ← tl_read_uint32;
  switch crc [
    ([CRC_pageListItemText], skip_rich_text);
    ([CRC_pageListItemBlocks], skip_page_block_vector)] fail.

Definition skip_page_list_ordered_item : Rd unit :=
  need_ok 4 ;;
  crc ← tl_read_uint32;
  switch crc [
    ([CRC_pageListOrderedItemText], tl_skip_string ;; skip_rich_text);
    ([CRC_pageListOrderedItemBlocks], tl_skip_string ;; skip_page_block_vector)] fail.

Definition page_block_body (crc : Z) : Rd unit :=
  switch crc [
    ([CRC_pageBlockUnsupported; CRC_pageBlockDivider], mret tt);
    ([CRC_pageBlockTitle; CRC_pageBlockSubtitle; CRC_pageBlockHeader; CRC_pageBlockSubheader;
      CRC_pageBlockKicker; CRC_pageBlockParagraph; CRC_pageBlockFooter], skip_rich_text);
    ([CRC_pageBlockAnchor], tl_skip_string);
    ([CRC_pageBlockPreformatted], skip_rich_text ;; tl_skip_string);
    ([CRC_pageBlockAuthorDate], skip_rich_text ;; need 4 ;; skip_int32);
    ([CRC_pageBlockBlockquote; CRC_pageBlockPullquote], skip_rich_text ;; skip_rich_text);
    ([CRC_pageBlockPhoto],
     need 4 ;; flags ← tl_read_uint32;
     need 8 ;; skip_int64 ;;
     skip_page_caption ;;
     when (flag flags 0) (tl_skip_string ;; need 8 ;; skip_int64));
    ([CRC_pageBlockVideo], need 12 ;; skip_uint32 ;; skip_int64 ;; skip_page_caption);
    ([CRC_pageBlockAudio], need 8 ;; skip_int64 ;; skip_page_caption);
    ([CRC_pageBlockCover], block);
    ([CRC_pageBlockChannel], tl_skip_chat);
    ([CRC_pageBlockMap],
     skip_geo_point ;; need 12 ;; skip_int32 ;; skip_int32 ;; skip_int32 ;; skip_page_caption);
    ([CRC_pageBlockList], vector_of skip_page_list_item);
    ([CRC_pageBlockOrderedList], vector_of skip_page_list_ordered_item);
    ([CRC_pageBlockCollage; CRC_pageBlockSlideshow],
     skip_page_block_vector ;; skip_page_caption);
    ([CRC_pageBlockDetails], need 4 ;; skip_uint32 ;; skip_page_block_vector ;; skip_rich_text);
    ([CRC_pageBlockRelatedArticles], skip_rich_text ;; vector_of skip_page_related_article);
    ([CRC_pageBlockTable],
     need 4 ;; skip_uint32 ;; skip_rich_text ;; vector_of skip_page_table_row);
    ([CRC_pageBlockEmbed],
     need 4 ;; flags ← tl_read_uint32;
     when (flag flags 1) tl_skip_string ;;
     when (flag flags 2) tl_skip_string ;;
     when (flag flags 4) long_field ;;
     when (flag flags 5) (need 8 ;; skip_int32 ;; skip_int32) ;;
     skip_page_caption);
    ([CRC_pageBlockEmbedPost],
     tl_skip_string ;;
     need 16 ;; skip_int64 ;; skip_int64 ;;
     tl_skip_string ;;
     need 4 ;; skip_int32 ;;
     skip_page_block_vector ;; skip_page_caption)] fail.

End Blocks.

Fixpoint skip_page_block_rec (depth : nat) : Rd unit :=
  match depth with
  | O => no_fuel
  | S depth =>
    need_ok 4 ;;
    (crc ← tl_read_uint32; page_block_body (skip_page_block_rec depth) crc)
  end.

Definition skip_page_block : Rd unit := fuelled skip_page_block_rec.

Definition skip_page : Rd unit :=
  need_ok 4 ;;
  crc ← tl_read_uint32;
  check (crc =? CRC_page) ;;
  need 4 ;;
  flags ← tl_read_uint32;
  tl_skip_string ;;
  vector_of skip_page_block ;;
  vector_of tl_skip_photo ;;
  vector_of tl_skip_document ;;
  when (flag flags 3) int_field.

(** ** Themes *)

Definition skip_wallpaper_settings : Rd unit :=
  need_ok 4 ;;
  crc ← tl_read_uint32;
  check (crc =? CRC_wallPaperSettings) ;;
  need 4 ;;
  flags ← tl_read_uint32;
  when (flag flags 0) int_field ;;
  when (flag flags 4) int_field ;;
  when (flag flags 5) int_field ;;
  when (flag flags 6) int_field ;;
  when (flag flags 3) int_field ;;
  when (flag flags 7) int_field ;;
  when (flag flags 8) tl_skip_string.

Definition skip_wallpaper : Rd unit :=
  need_ok 4 ;;
  crc ← tl_read_uint32;
  if crc =? CRC_wallPaper then
    need 16 ;; skip_int64 ;; skip_int64 ;;
    tl_skip_string ;; tl_skip_string ;;
    skip_wallpaper_settings ;;
    need 4 ;;
    doc_flags ← tl_read_uint32;
    when (flag doc_flags 2) tl_skip_document
  else if crc =? CRC_wallPaperNoFile then
    need 12 ;; skip_int64 ;;
    flags ← tl_read_uint32;
    when (flag flags 2) skip_wallpaper_settings
  else fail.

Definition skip_theme_settings : Rd unit :=
  need_ok 4 ;;
  crc ← tl_read_uint32;
  check (crc =? CRC_themeSettings) ;;
  need 4 ;;
  flags ← tl_read_uint32;
  need 4 ;;
  bt ← tl_read_uint32;
  check ((bt =? CRC_baseThemeClassic) || (bt =? CRC_baseThemeDay) || (bt =? CRC_baseThemeDark)
         || (bt =? CRC_baseThemeTinted) || (bt =? CRC_baseThemeArctic)) ;;
  need 4 ;; skip_int32 ;;
  when (flag flags 0) long_field ;;
  when (flag flags 3) int_field ;;
  when (flag flags 1) skip_int_vector ;;
  when (flag flags 2) skip_wallpaper.

(** ** WebPage

    [story] is [skip_story_item], defined after the media dispatcher. *)

Section Web.
Context (story : Rd unit).

Definition skip_webpage_attributes_vector : Rd unit :=
  vector_ok_of
    (need 4 ;;
     crc ← tl_read_uint32;
     switch crc [
       ([CRC_webPageAttributeTheme],
        need 4 ;; flags ← tl_read_uint32;
        when (flag flags 0) (vector_of tl_skip_document) ;;
        when (flag flags 1) skip_theme_settings);
       ([CRC_webPageAttributeStory],
        need 4 ;; flags ← tl_read_uint32;
        tl_skip_peer ;;
        need 4 ;; skip_int32 ;;
        when (flag flags 0) story);
       ([CRC_webPageAttributeStickerSet],
        need 4 ;; skip_uint32 ;; vector_of tl_skip_document)] fail).

Definition skip_webpage : Rd unit :=
  need_ok 4 ;;
  crc ← tl_read_uint32;
  switch crc [
    ([CRC_webPageEmpty],
     need 12 ;; flags ← tl_read_uint32; skip_int64 ;;
     when (flag flags 0) tl_skip_string);
    ([CRC_webPagePending],
     need 12 ;; flags ← tl_read_uint32; skip_int64 ;;
     when (flag flags 0) tl_skip_string ;;
     need 4 ;; skip_int32);
    ([CRC_webPageNotModified],
     need 4 ;; flags ← tl_read_uint32;
     when (flag flags 0) int_field);
    ([CRC_webPage],
     need 16 ;; flags ← tl_read_uint32;
     skip_int64 ;;
     tl_skip_string ;; tl_skip_string ;;
     need 4 ;; skip_int32 ;;
     when (flag flags 0) tl_skip_string ;;
     when (flag flags 1) tl_skip_string ;;
     when (flag flags 2) tl_skip_string ;;
     when (flag flags 3) tl_skip_string ;;
     when (flag flags 4) (with_null photo_full) ;;
     when (flag flags 5) (tl_skip_string ;; tl_skip_string) ;;
     when (flag flags 6) (need 8 ;; skip_int32 ;; skip_int32) ;;
     when (flag flags 7) int_field ;;
     when (flag flags 8) tl_skip_string ;;
     when (flag flags 9) tl_skip_document ;;
     when (flag flags 10) skip_page ;;
     when (flag flags 12) skip_webpage_attributes_vector)] fail.

End Web.
