(* ===== verification/TlSkipMessage.v ===== *)
(** * TL object skippers, part 6 (src/core/tl_skip.c): media dispatcher and Message *)

From S2P Require Import Prelude TlSerial TlLogic TlCrc TlSkipBase TlSkipParts TlSkipMedia.
From S2P Require Import TlSkipChat TlSkipPage.

(** ** MessageMedia

    The static [recursion_depth] of [tl_skip_message_media_ex] goes up by one
    around every call of the body and comes back on every path, so inside
    the call it is the number of enclosing media objects.  [media] stands for
    [tl_skip_message_media_ex(r, NULL)] one level further down. *)

Definition MEDIA_RECURSION_MAX : nat := 4.

Section MediaBody.
Context (media : Rd unit).

Definition skip_message_extended_media : Rd unit :=
  need_ok 4 ;;
  crc ← tl_read_uint32;
  switch crc [
    ([CRC_messageExtendedMediaPreview],
     need 4 ;; flags ← tl_read_uint32;
     when (flag flags 0) (need 8 ;; skip_int32 ;; skip_int32) ;;
     when (flag flags 1) tl_skip_photo_size ;;
     when (flag flags 2) int_field);
    ([CRC_messageExtendedMedia], media)] fail.

Definition skip_story_item : Rd unit :=
  need_ok 4 ;;
  crc ← tl_read_uint32;
  switch crc [
    ([CRC_storyItemDeleted], need 4 ;; skip_int32);
    ([CRC_storyItemSkipped],
     need 4 ;; skip_uint32 ;; need 12 ;; skip_int32 ;; skip_int32 ;; skip_int32);
    ([CRC_storyItem],
     need 4 ;; flags ← tl_read_uint32;
     need 8 ;; skip_int32 ;; skip_int32 ;;
     when (flag flags 18) tl_skip_peer ;;
     when (flag flags 17) skip_story_fwd_header ;;
     need 4 ;; skip_int32 ;;
     when (flag flags 0) tl_skip_string ;;
     when (flag flags 1) tl_skip_message_entities_vector ;;
     media ;;
     when (flag flags 14) (vector_of skip_media_area) ;;
     when (flag flags 2) (vector_of skip_privacy_rule) ;;
     when (flag flags 3) skip_story_views ;;
     when (flag flags 15) skip_reaction)] fail.

Definition skip_message_media_body : MRd unit :=
  upd_out (fun _ => media_zero) ;;
  lift (need_ok 4) ;;
  crc ← lift tl_read_uint32;
  let out_kind k := upd_out (set_kind k) in
  switch crc [
    ([CRC_messageMediaEmpty], out_kind MEDIA_EMPTY);
    ([CRC_messageMediaUnsupported], out_kind MEDIA_UNSUPPORTED);
    ([CRC_messageMediaGeo], out_kind MEDIA_GEO ;; lift skip_geo_point);
    ([CRC_messageMediaContact],
     out_kind MEDIA_CONTACT ;;
     lift (tl_skip_string ;; tl_skip_string ;; tl_skip_string ;; tl_skip_string ;;
           need 8 ;; skip_int64));
    ([CRC_messageMediaVenue],
     out_kind MEDIA_VENUE ;;
     lift (skip_geo_point ;; tl_skip_string ;; tl_skip_string ;; tl_skip_string ;;
           tl_skip_string ;; tl_skip_string));
    ([CRC_messageMediaGeoLive],
     out_kind MEDIA_GEO_LIVE ;;
     lift (need 4 ;; flags ← tl_read_uint32;
           skip_geo_point ;;
           when (flag flags 0) int_field ;;
           need 4 ;; skip_int32 ;;
           when (flag flags 1) int_field));
    ([CRC_messageMediaDice], out_kind MEDIA_DICE ;; lift (need 4 ;; skip_int32 ;; tl_skip_string));
    ([CRC_messageMediaPhoto],
     out_kind MEDIA_PHOTO ;;
     lift (need 4) ;; flags ← lift tl_read_uint32;
     when (flag flags 0) photo_full ;;
     lift (when (flag flags 2) int_field));
    ([CRC_messageMediaWebPage],
     out_kind MEDIA_WEBPAGE ;;
     lift (need 4 ;; skip_uint32 ;; skip_webpage skip_story_item));
    ([CRC_messageMediaPoll], out_kind MEDIA_POLL ;; lift (skip_poll ;; skip_poll_results));
    ([CRC_messageMediaInvoice],
     out_kind MEDIA_INVOICE ;;
     lift (need 4 ;; flags ← tl_read_uint32;
           tl_skip_string ;; tl_skip_string ;;
           when (flag flags 0) skip_web_document ;;
           when (flag flags 2) int_field ;;
           tl_skip_string ;;
           need 8 ;; skip_int64 ;;
           tl_skip_string ;;
           when (flag flags 4) skip_message_extended_media));
    ([CRC_messageMediaStory],
     out_kind MEDIA_STORY ;;
     lift (need 4 ;; flags ← tl_read_uint32;
           tl_skip_peer ;;
           need 4 ;; skip_int32 ;;
           when (flag flags 0) skip_story_item));
    ([CRC_messageMediaGiveaway],
     out_kind MEDIA_GIVEAWAY ;;
     lift (need 4 ;; flags ← tl_read_uint32;
           skip_long_vector ;;
           when (flag flags 1) (vector_of tl_skip_string) ;;
           when (flag flags 3) tl_skip_string ;;
           need 4 ;; skip_int32 ;;
           when (flag flags 4) int_field ;;
           when (flag flags 5) long_field ;;
           need 4 ;; skip_int32));
    ([CRC_messageMediaGame], out_kind MEDIA_GAME ;; lift skip_game);
    ([CRC_messageMediaPaidMedia],
     out_kind MEDIA_PAID ;;
     lift (need 8 ;; skip_int64 ;; vector_of skip_message_extended_media));
    ([CRC_messageMediaDocument],
     out_kind MEDIA_DOCUMENT ;;
     lift (need 4) ;; flags ← lift tl_read_uint32;
     when (flag flags 0) document_inner ;;
     lift (when (flag flags 2) int_field) ;;
     lift (when (flag flags 10) (vector_of tl_skip_document)))]
    (out_kind MEDIA_OTHER ;; fail).

End MediaBody.

(** [levels] is [MEDIA_RECURSION_MAX - recursion_depth]. *)
Fixpoint media_ex_at (levels : nat) : MRd unit :=
  match levels with
  | O => fail
  | S levels => skip_message_media_body (with_null (media_ex_at levels))
  end.

Definition tl_skip_message_media_ex : MRd unit := media_ex_at MEDIA_RECURSION_MAX.

Definition tl_skip_message_media : Rd unit := with_null tl_skip_message_media_ex.

(** ** MessageReplyHeader *)

Definition tl_skip_message_reply_header : Rd unit :=
  need_ok 4 ;;
  crc ← tl_read_uint32;
  if crc =? CRC_messageReplyStoryHeader then
    tl_skip_peer ;; need 4 ;; skip_int32
  else
    check (crc =? CRC_messageReplyHeader) ;;
    need 4 ;;
    flags ← tl_read_uint32;
    when (flag flags 4) int_field ;;
    when (flag flags 0) tl_skip_peer ;;
    when (flag flags 5) tl_skip_message_fwd_header ;;
    when (flag flags 8) tl_skip_message_media ;;
    when (flag flags 1) int_field ;;
    when (flag flags 6) tl_skip_string ;;
    when (flag flags 7) tl_skip_message_entities_vector ;;
    when (flag flags 10) int_field.

(** ** MessageAction *)

(** [users:Vector<long>], at most 4096 of them. *)
Definition skip_user_vector : Rd unit :=
  need 8 ;;
  vcrc ← tl_read_uint32;
  check (vcrc =? TL_vector) ;;
  n ← tl_read_uint32;
  check (n <=? 4096) ;;
  need (u64 (n * 8)) ;;
  for_n n skip_int64.

Definition skip_message_action : Rd unit :=
  need 4 ;;
  acrc ← tl_read_uint32;
  switch acrc [
    ([0xb6aef7b0; 0x95e3fbef; 0x94bd38ed; 0x9fbab604; 0x4792929b; 0x9244c2ad; 0xb4c38cb5],
     mret tt);
    ([0xb5a1ce5a; 0x95d2ac92; 0xfae69f56], tl_skip_string);
    ([0xa43f30cc; 0xe1037f92; 0x031224c3], need 8 ;; skip_int64);
    ([0xbd47cbad], tl_skip_string ;; skip_user_vector);
    ([0x15cefd00], skip_user_vector);
    ([0xea3948e9], tl_skip_string ;; need 8 ;; skip_int64);
    ([0x7fcb13a8], tl_skip_photo);
    ([0x80e11a7f],
     need (4 + 8) ;; pflags ← tl_read_uint32;
     skip_int64 ;;
     when (flag pflags 0) (need 4 ;; skip_uint32) ;;
     when (flag pflags 1) int_field);
    ([0x7a0d7f42],
     need 4 ;; gflags ← tl_read_uint32;
     need (4 + 16) ;; skip_uint32 ;; skip_int64 ;; skip_int64 ;;
     when (flag gflags 0) int_field);
    ([0xb3a07661],
     need (4 + 16 + 4) ;; skip_uint32 ;; skip_int64 ;; skip_int64 ;; skip_int32);
    ([0x502f92f7],
     need (4 + 16) ;; skip_uint32 ;; skip_int64 ;; skip_int64 ;; skip_user_vector)] fail.

(** ** Message *)

Definition tl_skip_message : Rd unit :=
  need_ok 4 ;;
  crc ← tl_read_uint32;
  if crc =? TL_messageEmpty then
    need 8 ;;
    flags ← tl_read_uint32;
    skip_int32 ;;
    when (flag flags 0) tl_skip_peer
  else if crc =? TL_messageService then
    need 8 ;;
    flags ← tl_read_uint32;
    skip_int32 ;;
    when (flag flags 8) tl_skip_peer ;;
    tl_skip_peer ;;
    when (flag flags 3) tl_skip_message_reply_header ;;
    need 4 ;; skip_int32 ;;
    skip_message_action ;;
    when (flag flags 20) tl_skip_message_reactions ;;
    when (flag flags 25) int_field
  else
    check (crc =? TL_message) ;;
    need 12 ;;
    flags ← tl_read_uint32;
    flags2 ← tl_read_uint32;
    skip_int32 ;;
    when (flag flags 8) tl_skip_peer ;;
    tl_skip_peer ;;
    when (flag flags 28) tl_skip_peer ;;
    when (flag flags 2) tl_skip_message_fwd_header ;;
    when (flag flags 11) long_field ;;
    when (flag flags2 0) long_field ;;
    when (flag flags 3) tl_skip_message_reply_header ;;
    need 4 ;; skip_int32 ;;
    tl_skip_string ;;
    when (flag flags 9) tl_skip_message_media ;;
    when (flag flags 6) tl_skip_reply_markup ;;
    when (flag flags 7) tl_skip_message_entities_vector ;;
    when (flag flags 10) (need 8 ;; skip_int32 ;; skip_int32) ;;
    when (flag flags 23) tl_skip_message_replies ;;
    when (flag flags 15) int_field ;;
    when (flag flags 16) tl_skip_string ;;
    when (flag flags 17) long_field ;;
    when (flag flags 20) tl_skip_message_reactions ;;
    when (flag flags 22) tl_skip_restriction_reason_vector ;;
    when (flag flags 25) int_field ;;
    when (flag flags2 30) int_field ;;
    when (flag flags2 2) long_field ;;
    when (flag flags2 3) tl_skip_factcheck.
