(* ===== verification/TlSkipSafe.v ===== *)
(** * Safety of the skippers (src/core/tl_skip.c)

    Every skipper, on every well-formed reader over arbitrary (server
    controlled) bytes, terminates, reads only inside the buffer, and leaves
    the buffer as it was with no more unread bytes than before. *)

From S2P Require Import Prelude TlSerial TlLogic TlCrc TlSkipBase TlSkipParts TlSkipMedia.
From S2P Require Import TlSkipChat TlSkipPage TlSkipMessage.

(** ** Rules for the idioms *)

Lemma safe_check b c : safe_upto b (check c).
Proof. unfold check. safe_tac. Qed.
#[export] Hint Resolve safe_check : tl_safe.

Lemma safe_repeat_nat b n (m : Rd unit) : safe_upto b m -> safe_upto b (repeat_nat n m).
Proof. intros Hm. induction n; cbn [repeat_nat]; [apply safe_ret|by apply safe_bind]. Qed.

Lemma safe_vector_body b m : safe_upto b m -> safe_upto b (vector_body m).
Proof. intros Hm. unfold vector_body. safe_tac. Qed.

Lemma safe_vector_of b m : safe_upto b m -> safe_upto b (vector_of m).
Proof. intros Hm. unfold vector_of. apply safe_bind; [safe_tac|intros; by apply safe_vector_body]. Qed.

Lemma safe_vector_ok_of b m : safe_upto b m -> safe_upto b (vector_ok_of m).
Proof. intros Hm. unfold vector_ok_of. apply safe_bind; [safe_tac|intros; by apply safe_vector_body]. Qed.

Lemma safe_with_null {T A} b (m : M (TlReader * option T) A) :
  safe_upto b m -> safe_upto b (with_null m).
Proof.
  intros Hm r Hwf Hl. specialize (Hm (r, None) Hwf Hl). unfold with_null.
  by destruct (m (r, None)).
Qed.

Lemma safe_with_local {X T A} b (x : X) (m : M (TlReader * (X * T)) A) :
  safe_upto b m -> safe_upto b (with_local x m).
Proof.
  intros Hm [r t] Hwf Hl. specialize (Hm (r, (x, t)) Hwf Hl). unfold with_local. cbn [fst snd].
  by destruct (m (r, (x, t))).
Qed.

Lemma safe_upd_out {T} b (f : T -> T) : safe_upto b (upd_out (S:=TlReader) f).
Proof. intros [r t] Hwf _. by apply later_refl. Qed.

Lemma safe_ask_out {T} b : safe_upto b (ask_out (S:=TlReader) (T:=T)).
Proof. intros [r t] Hwf _. by apply later_refl. Qed.

#[export] Hint Resolve safe_upd_out safe_ask_out : tl_safe.

Ltac skip_step :=
  lazymatch goal with
  | |- safe_upto _ (vector_of _) => apply safe_vector_of
  | |- safe_upto _ (vector_ok_of _) => apply safe_vector_ok_of
  | |- safe_upto _ (times _ _) => apply safe_repeat_nat
  | |- safe_upto _ (with_null _) => apply safe_with_null
  | |- safe_upto _ (with_local _ _) => apply safe_with_local
  | |- _ => safe_step
  end.
Ltac skip_safe := repeat skip_step.

Lemma safe_skip_int32 b : safe_upto b skip_int32.
Proof. unfold skip_int32. skip_safe. Qed.
Lemma safe_skip_uint32 b : safe_upto b skip_uint32.
Proof. unfold skip_uint32. skip_safe. Qed.
Lemma safe_skip_int64 b : safe_upto b skip_int64.
Proof. unfold skip_int64. skip_safe. Qed.
Lemma safe_skip_double b : safe_upto b skip_double.
Proof. unfold skip_double. skip_safe. Qed.
#[export] Hint Resolve safe_skip_int32 safe_skip_uint32 safe_skip_int64 safe_skip_double : tl_safe.

Lemma safe_int_field b : safe_upto b int_field.
Proof. unfold int_field. skip_safe. Qed.
Lemma safe_long_field b : safe_upto b long_field.
Proof. unfold long_field. skip_safe. Qed.
Lemma safe_tl_skip_bool b : safe_upto b tl_skip_bool.
Proof. unfold tl_skip_bool. skip_safe. Qed.
Lemma safe_tl_skip_string b : safe_upto b tl_skip_string.
Proof. unfold tl_skip_string. skip_safe. Qed.
#[export] Hint Resolve safe_int_field safe_long_field safe_tl_skip_bool safe_tl_skip_string : tl_safe.

(** ** Skippers, part 1 *)

Lemma safe_tl_skip_peer b : safe_upto b tl_skip_peer.
Proof. unfold tl_skip_peer. skip_safe. Qed.
#[export] Hint Resolve safe_tl_skip_peer : tl_safe.

Lemma safe_tl_skip_notification_sound b : safe_upto b tl_skip_notification_sound.
Proof. unfold tl_skip_notification_sound. skip_safe. Qed.
#[export] Hint Resolve safe_tl_skip_notification_sound : tl_safe.

Lemma safe_tl_skip_peer_notify_settings b : safe_upto b tl_skip_peer_notify_settings.
Proof. unfold tl_skip_peer_notify_settings. skip_safe. Qed.
#[export] Hint Resolve safe_tl_skip_peer_notify_settings : tl_safe.

Lemma safe_tl_skip_message_entity b : safe_upto b tl_skip_message_entity.
Proof. unfold tl_skip_message_entity. skip_safe. Qed.
#[export] Hint Resolve safe_tl_skip_message_entity : tl_safe.

Lemma safe_tl_skip_message_entities_vector b : safe_upto b tl_skip_message_entities_vector.
Proof. unfold tl_skip_message_entities_vector. skip_safe. Qed.
#[export] Hint Resolve safe_tl_skip_message_entities_vector : tl_safe.

Lemma safe_skip_text_with_entities b : safe_upto b skip_text_with_entities.
Proof. unfold skip_text_with_entities. skip_safe. Qed.
#[export] Hint Resolve safe_skip_text_with_entities : tl_safe.

Lemma safe_skip_poll_answer b : safe_upto b skip_poll_answer.
Proof. unfold skip_poll_answer. skip_safe. Qed.
#[export] Hint Resolve safe_skip_poll_answer : tl_safe.

Lemma safe_skip_poll b : safe_upto b skip_poll.
Proof. unfold skip_poll. skip_safe. Qed.
#[export] Hint Resolve safe_skip_poll : tl_safe.

Lemma safe_skip_poll_answer_voters b : safe_upto b skip_poll_answer_voters.
Proof. unfold skip_poll_answer_voters. skip_safe. Qed.
#[export] Hint Resolve safe_skip_poll_answer_voters : tl_safe.

Lemma safe_skip_poll_results b : safe_upto b skip_poll_results.
Proof. unfold skip_poll_results. skip_safe. Qed.
#[export] Hint Resolve safe_skip_poll_results : tl_safe.

Lemma safe_skip_input_peer_rec n b : b < Z.of_nat n -> safe_upto b (skip_input_peer_rec n).
Proof.
  revert b. induction n as [|n IH]; intros b Hb; [apply safe_upto_neg; lia|].
  cbn [skip_input_peer_rec]. apply safe_head; [lia|].
  assert (Hrec : safe_upto (b - 4) (skip_input_peer_rec n)) by (apply IH; lia).
  skip_safe; done.
Qed.

Lemma safe_skip_input_peer b : safe_upto b skip_input_peer.
Proof. apply safe_fuelled, safe_skip_input_peer_rec. Qed.
#[export] Hint Resolve safe_skip_input_peer : tl_safe.

Lemma safe_skip_input_geo_point b : safe_upto b skip_input_geo_point.
Proof. unfold skip_input_geo_point. skip_safe. Qed.
#[export] Hint Resolve safe_skip_input_geo_point : tl_safe.

Lemma safe_skip_input_photo b : safe_upto b skip_input_photo.
Proof. unfold skip_input_photo. skip_safe. Qed.
#[export] Hint Resolve safe_skip_input_photo : tl_safe.

Lemma safe_skip_input_document b : safe_upto b skip_input_document.
Proof. unfold skip_input_document. skip_safe. Qed.
#[export] Hint Resolve safe_skip_input_document : tl_safe.

Lemma safe_skip_input_user b : safe_upto b skip_input_user.
Proof. unfold skip_input_user. skip_safe. Qed.
#[export] Hint Resolve safe_skip_input_user : tl_safe.

Lemma safe_skip_input_game b : safe_upto b skip_input_game.
Proof. unfold skip_input_game. skip_safe. Qed.
#[export] Hint Resolve safe_skip_input_game : tl_safe.

Lemma safe_skip_input_media_rec n b : b < Z.of_nat n -> safe_upto b (skip_input_media_rec n).
Proof.
  revert b. induction n as [|n IH]; intros b Hb; [apply safe_upto_neg; lia|].
  cbn [skip_input_media_rec]. apply safe_head; [lia|].
  assert (Hrec : safe_upto (b - 4) (skip_input_media_rec n)) by (apply IH; lia).
  skip_safe; done.
Qed.

Lemma safe_skip_input_media b : safe_upto b skip_input_media.
Proof. apply safe_fuelled, safe_skip_input_media_rec. Qed.
#[export] Hint Resolve safe_skip_input_media : tl_safe.

Lemma safe_skip_input_reply_to b : safe_upto b skip_input_reply_to.
Proof. unfold skip_input_reply_to. skip_safe. Qed.
#[export] Hint Resolve safe_skip_input_reply_to : tl_safe.

Lemma safe_tl_skip_draft_message b : safe_upto b tl_skip_draft_message.
Proof. unfold tl_skip_draft_message. skip_safe. Qed.
#[export] Hint Resolve safe_tl_skip_draft_message : tl_safe.


(** ** Skippers, part 2 *)

Lemma safe_skip_inline_query_peer_type_vector b : safe_upto b skip_inline_query_peer_type_vector.
Proof. unfold skip_inline_query_peer_type_vector. skip_safe. Qed.
#[export] Hint Resolve safe_skip_inline_query_peer_type_vector : tl_safe.

Lemma safe_skip_keyboard_button b : safe_upto b skip_keyboard_button.
Proof. unfold skip_keyboard_button. skip_safe. Qed.
#[export] Hint Resolve safe_skip_keyboard_button : tl_safe.

Lemma safe_skip_keyboard_button_row b : safe_upto b skip_keyboard_button_row.
Proof. unfold skip_keyboard_button_row. skip_safe. Qed.
#[export] Hint Resolve safe_skip_keyboard_button_row : tl_safe.

Lemma safe_skip_button_row_vector b : safe_upto b skip_button_row_vector.
Proof. unfold skip_button_row_vector. skip_safe. Qed.
#[export] Hint Resolve safe_skip_button_row_vector : tl_safe.

Lemma safe_tl_skip_reply_markup b : safe_upto b tl_skip_reply_markup.
Proof. unfold tl_skip_reply_markup. skip_safe. Qed.
#[export] Hint Resolve safe_tl_skip_reply_markup : tl_safe.

Lemma safe_skip_reaction b : safe_upto b skip_reaction.
Proof. unfold skip_reaction. skip_safe. Qed.
#[export] Hint Resolve safe_skip_reaction : tl_safe.

Lemma safe_skip_reaction_count b : safe_upto b skip_reaction_count.
Proof. unfold skip_reaction_count. skip_safe. Qed.
#[export] Hint Resolve safe_skip_reaction_count : tl_safe.

Lemma safe_skip_message_peer_reaction b : safe_upto b skip_message_peer_reaction.
Proof. unfold skip_message_peer_reaction. skip_safe. Qed.
#[export] Hint Resolve safe_skip_message_peer_reaction : tl_safe.

Lemma safe_skip_message_reactor b : safe_upto b skip_message_reactor.
Proof. unfold skip_message_reactor. skip_safe. Qed.
#[export] Hint Resolve safe_skip_message_reactor : tl_safe.

Lemma safe_tl_skip_message_reactions b : safe_upto b tl_skip_message_reactions.
Proof. unfold tl_skip_message_reactions. skip_safe. Qed.
#[export] Hint Resolve safe_tl_skip_message_reactions : tl_safe.

Lemma safe_tl_skip_message_replies b : safe_upto b tl_skip_message_replies.
Proof. unfold tl_skip_message_replies. skip_safe. Qed.
#[export] Hint Resolve safe_tl_skip_message_replies : tl_safe.

Lemma safe_tl_skip_factcheck b : safe_upto b tl_skip_factcheck.
Proof. unfold tl_skip_factcheck. skip_safe. Qed.
#[export] Hint Resolve safe_tl_skip_factcheck : tl_safe.

Lemma safe_tl_skip_message_fwd_header b : safe_upto b tl_skip_message_fwd_header.
Proof. unfold tl_skip_message_fwd_header. skip_safe. Qed.
#[export] Hint Resolve safe_tl_skip_message_fwd_header : tl_safe.

Lemma safe_skip_int_vector b : safe_upto b skip_int_vector.
Proof. unfold skip_int_vector. skip_safe. Qed.
#[export] Hint Resolve safe_skip_int_vector : tl_safe.

Lemma safe_tl_skip_photo_size b : safe_upto b tl_skip_photo_size.
Proof. unfold tl_skip_photo_size. skip_safe. Qed.
#[export] Hint Resolve safe_tl_skip_photo_size : tl_safe.

Lemma safe_tl_skip_photo_size_vector b : safe_upto b tl_skip_photo_size_vector.
Proof. unfold tl_skip_photo_size_vector. skip_safe. Qed.
#[export] Hint Resolve safe_tl_skip_photo_size_vector : tl_safe.


(** ** Skippers, part 3 *)

Lemma safe_skip_long_vector b : safe_upto b skip_long_vector.
Proof. unfold skip_long_vector. skip_safe. Qed.
#[export] Hint Resolve safe_skip_long_vector : tl_safe.

Lemma safe_skip_input_sticker_set b : safe_upto b skip_input_sticker_set.
Proof. unfold skip_input_sticker_set. skip_safe. Qed.
#[export] Hint Resolve safe_skip_input_sticker_set : tl_safe.

Lemma safe_skip_mask_coords b : safe_upto b skip_mask_coords.
Proof. unfold skip_mask_coords. skip_safe. Qed.
#[export] Hint Resolve safe_skip_mask_coords : tl_safe.

Lemma safe_skip_video_size b : safe_upto b skip_video_size.
Proof. unfold skip_video_size. skip_safe. Qed.
#[export] Hint Resolve safe_skip_video_size : tl_safe.

Lemma safe_skip_video_size_vector b : safe_upto b skip_video_size_vector.
Proof. unfold skip_video_size_vector. skip_safe. Qed.
#[export] Hint Resolve safe_skip_video_size_vector : tl_safe.

Lemma safe_walk_photo_size b : safe_upto b walk_photo_size.
Proof. unfold walk_photo_size. skip_safe. Qed.
#[export] Hint Resolve safe_walk_photo_size : tl_safe.

Lemma safe_keep_best b score ty : safe_upto b (keep_best score ty).
Proof.
  intros [r [best [m|]]] Hwf _; cbn; [destruct (best <? score)|]; by apply later_refl.
Qed.
#[export] Hint Resolve safe_keep_best : tl_safe.

Lemma safe_walk_photo_size_vector b : safe_upto b walk_photo_size_vector.
Proof. unfold walk_photo_size_vector. skip_safe. Qed.
#[export] Hint Resolve safe_walk_photo_size_vector : tl_safe.

Lemma safe_read_file_reference b : safe_upto b read_file_reference.
Proof. unfold read_file_reference. skip_safe. Qed.
#[export] Hint Resolve safe_read_file_reference : tl_safe.

Lemma safe_photo_full b : safe_upto b photo_full.
Proof. unfold photo_full. skip_safe. Qed.
#[export] Hint Resolve safe_photo_full : tl_safe.

Lemma safe_tl_skip_photo b : safe_upto b tl_skip_photo.
Proof. unfold tl_skip_photo. skip_safe. Qed.
#[export] Hint Resolve safe_tl_skip_photo : tl_safe.

Lemma safe_read_string_or_restore b : safe_upto b read_string_or_restore.
Proof.
  intro_reader r. pose proof (safe_read_bytes b r Hwf Hb) as H. cbn in H.
  unfold read_string_or_restore, tl_read_string.
  destruct (tl_read_bytes r) as [[s|] r'|r'| |]; [done|by apply later_refl|done..].
Qed.
#[export] Hint Resolve safe_read_string_or_restore : tl_safe.

Lemma safe_skip_document_attribute b : safe_upto b skip_document_attribute.
Proof. unfold skip_document_attribute. skip_safe. Qed.
#[export] Hint Resolve safe_skip_document_attribute : tl_safe.

Lemma safe_document_inner b : safe_upto b document_inner.
Proof. unfold document_inner. skip_safe. Qed.
#[export] Hint Resolve safe_document_inner : tl_safe.

Lemma safe_tl_skip_document b : safe_upto b tl_skip_document.
Proof. unfold tl_skip_document. skip_safe. Qed.
#[export] Hint Resolve safe_tl_skip_document : tl_safe.

Lemma safe_skip_geo_point b : safe_upto b skip_geo_point.
Proof. unfold skip_geo_point. skip_safe. Qed.
#[export] Hint Resolve safe_skip_geo_point : tl_safe.

Lemma safe_skip_game b : safe_upto b skip_game.
Proof. unfold skip_game. skip_safe. Qed.
#[export] Hint Resolve safe_skip_game : tl_safe.

Lemma safe_skip_web_document b : safe_upto b skip_web_document.
Proof. unfold skip_web_document. skip_safe. Qed.
#[export] Hint Resolve safe_skip_web_document : tl_safe.

Lemma safe_skip_story_fwd_header b : safe_upto b skip_story_fwd_header.
Proof. unfold skip_story_fwd_header. skip_safe. Qed.
#[export] Hint Resolve safe_skip_story_fwd_header : tl_safe.

Lemma safe_skip_media_area_coordinates b : safe_upto b skip_media_area_coordinates.
Proof. unfold skip_media_area_coordinates. skip_safe. Qed.
#[export] Hint Resolve safe_skip_media_area_coordinates : tl_safe.

Lemma safe_skip_geo_point_address b : safe_upto b skip_geo_point_address.
Proof. unfold skip_geo_point_address. skip_safe. Qed.
#[export] Hint Resolve safe_skip_geo_point_address : tl_safe.

Lemma safe_skip_media_area b : safe_upto b skip_media_area.
Proof. unfold skip_media_area. skip_safe. Qed.
#[export] Hint Resolve safe_skip_media_area : tl_safe.

Lemma safe_skip_privacy_rule b : safe_upto b skip_privacy_rule.
Proof. unfold skip_privacy_rule. skip_safe. Qed.
#[export] Hint Resolve safe_skip_privacy_rule : tl_safe.

Lemma safe_skip_story_views b : safe_upto b skip_story_views.
Proof. unfold skip_story_views. skip_safe. Qed.
#[export] Hint Resolve safe_skip_story_views : tl_safe.


(** ** Skippers, part 4 *)

Lemma safe_read_string_into {T} b (set : list byte -> T -> T) cap :
  safe_upto b (read_string_into set cap).
Proof. unfold read_string_into. skip_safe. Qed.
#[export] Hint Resolve safe_read_string_into : tl_safe.

Lemma safe_read_string_local b cap : safe_upto b (read_string_local cap).
Proof. unfold read_string_local. skip_safe. Qed.
#[export] Hint Resolve safe_read_string_local : tl_safe.

Lemma safe_string_field {T} b (set : list byte -> T -> T) cap :
  safe_upto b (string_field set cap).
Proof. unfold string_field. skip_safe. Qed.
#[export] Hint Resolve safe_string_field : tl_safe.

Lemma safe_tl_skip_chat_photo b : safe_upto b tl_skip_chat_photo.
Proof. unfold tl_skip_chat_photo. skip_safe. Qed.
#[export] Hint Resolve safe_tl_skip_chat_photo : tl_safe.

Lemma safe_tl_skip_user_profile_photo b : safe_upto b tl_skip_user_profile_photo.
Proof. unfold tl_skip_user_profile_photo. skip_safe. Qed.
#[export] Hint Resolve safe_tl_skip_user_profile_photo : tl_safe.

Lemma safe_tl_skip_user_status b : safe_upto b tl_skip_user_status.
Proof. unfold tl_skip_user_status. skip_safe. Qed.
#[export] Hint Resolve safe_tl_skip_user_status : tl_safe.

Lemma safe_tl_skip_restriction_reason_vector b : safe_upto b tl_skip_restriction_reason_vector.
Proof. unfold tl_skip_restriction_reason_vector. skip_safe. Qed.
#[export] Hint Resolve safe_tl_skip_restriction_reason_vector : tl_safe.

Lemma safe_tl_skip_username_vector b : safe_upto b tl_skip_username_vector.
Proof. unfold tl_skip_username_vector. skip_safe. Qed.
#[export] Hint Resolve safe_tl_skip_username_vector : tl_safe.

Lemma safe_tl_skip_peer_color b : safe_upto b tl_skip_peer_color.
Proof. unfold tl_skip_peer_color. skip_safe. Qed.
#[export] Hint Resolve safe_tl_skip_peer_color : tl_safe.

Lemma safe_tl_skip_emoji_status b : safe_upto b tl_skip_emoji_status.
Proof. unfold tl_skip_emoji_status. skip_safe. Qed.
#[export] Hint Resolve safe_tl_skip_emoji_status : tl_safe.

Lemma safe_skip_chat_admin_rights b : safe_upto b skip_chat_admin_rights.
Proof. unfold skip_chat_admin_rights. skip_safe. Qed.
#[export] Hint Resolve safe_skip_chat_admin_rights : tl_safe.

Lemma safe_skip_chat_banned_rights b : safe_upto b skip_chat_banned_rights.
Proof. unfold skip_chat_banned_rights. skip_safe. Qed.
#[export] Hint Resolve safe_skip_chat_banned_rights : tl_safe.

Lemma safe_skip_migrated_to b : safe_upto b skip_migrated_to.
Proof. unfold skip_migrated_to. skip_safe. Qed.
#[export] Hint Resolve safe_skip_migrated_to : tl_safe.

Lemma safe_extract_chat_inner b : safe_upto b extract_chat_inner.
Proof. unfold extract_chat_inner. skip_safe. Qed.
#[export] Hint Resolve safe_extract_chat_inner : tl_safe.

Lemma safe_tl_skip_chat b : safe_upto b tl_skip_chat.
Proof. unfold tl_skip_chat. skip_safe. Qed.
#[export] Hint Resolve safe_tl_skip_chat : tl_safe.

Lemma safe_read_first_name b : safe_upto b read_first_name.
Proof. unfold read_first_name. skip_safe. Qed.
#[export] Hint Resolve safe_read_first_name : tl_safe.

Lemma safe_read_last_name b : safe_upto b read_last_name.
Proof. unfold read_last_name. skip_safe. Qed.
#[export] Hint Resolve safe_read_last_name : tl_safe.

Lemma safe_extract_user_inner b : safe_upto b extract_user_inner.
Proof. unfold extract_user_inner. skip_safe. Qed.
#[export] Hint Resolve safe_extract_user_inner : tl_safe.

Lemma safe_tl_skip_user b : safe_upto b tl_skip_user.
Proof. unfold tl_skip_user. skip_safe. Qed.
#[export] Hint Resolve safe_tl_skip_user : tl_safe.


(** ** Skippers, part 5 *)

Lemma safe_skip_rich_text_rec n b : b < Z.of_nat n -> safe_upto b (skip_rich_text_rec n).
Proof.
  revert b. induction n as [|n IH]; intros b Hb; [apply safe_upto_neg; lia|].
  cbn [skip_rich_text_rec]. apply safe_head; [lia|].
  assert (Hrec : safe_upto (b - 4) (skip_rich_text_rec n)) by (apply IH; lia).
  skip_safe; done.
Qed.

Lemma safe_skip_rich_text b : safe_upto b skip_rich_text.
Proof. apply safe_fuelled, safe_skip_rich_text_rec. Qed.
#[export] Hint Resolve safe_skip_rich_text : tl_safe.

Lemma safe_skip_page_caption b : safe_upto b skip_page_caption.
Proof. unfold skip_page_caption. skip_safe. Qed.
#[export] Hint Resolve safe_skip_page_caption : tl_safe.

Lemma safe_skip_page_table_cell b : safe_upto b skip_page_table_cell.
Proof. unfold skip_page_table_cell. skip_safe. Qed.
#[export] Hint Resolve safe_skip_page_table_cell : tl_safe.

Lemma safe_skip_page_table_row b : safe_upto b skip_page_table_row.
Proof. unfold skip_page_table_row. skip_safe. Qed.
#[export] Hint Resolve safe_skip_page_table_row : tl_safe.

Lemma safe_skip_page_related_article b : safe_upto b skip_page_related_article.
Proof. unfold skip_page_related_article. skip_safe. Qed.
#[export] Hint Resolve safe_skip_page_related_article : tl_safe.

Lemma safe_page_block_body b block crc : safe_upto b block -> safe_upto b (page_block_body block crc).
Proof.
  intros Hblock.
  assert (Hvec : safe_upto b (skip_page_block_vector block)).
  { unfold skip_page_block_vector. skip_safe; done. }
  unfold page_block_body, skip_page_list_item, skip_page_list_ordered_item.
  skip_safe; done.
Qed.

Lemma safe_skip_page_block_rec n b : b < Z.of_nat n -> safe_upto b (skip_page_block_rec n).
Proof.
  revert b. induction n as [|n IH]; intros b Hb; [apply safe_upto_neg; lia|].
  cbn [skip_page_block_rec]. apply safe_head; [lia|]. intros v.
  apply safe_page_block_body, IH. lia.
Qed.

Lemma safe_skip_page_block b : safe_upto b skip_page_block.
Proof. apply safe_fuelled, safe_skip_page_block_rec. Qed.
#[export] Hint Resolve safe_skip_page_block : tl_safe.

Lemma safe_skip_page b : safe_upto b skip_page.
Proof. unfold skip_page. skip_safe. Qed.
#[export] Hint Resolve safe_skip_page : tl_safe.

Lemma safe_skip_wallpaper_settings b : safe_upto b skip_wallpaper_settings.
Proof. unfold skip_wallpaper_settings. skip_safe. Qed.
#[export] Hint Resolve safe_skip_wallpaper_settings : tl_safe.

Lemma safe_skip_wallpaper b : safe_upto b skip_wallpaper.
Proof. unfold skip_wallpaper. skip_safe. Qed.
#[export] Hint Resolve safe_skip_wallpaper : tl_safe.

Lemma safe_skip_theme_settings b : safe_upto b skip_theme_settings.
Proof. unfold skip_theme_settings. skip_safe. Qed.
#[export] Hint Resolve safe_skip_theme_settings : tl_safe.


(** ** Skippers, part 6 *)

Section MediaSafe.
Context (media : Rd unit) (Hmedia : safe media).

Lemma safe_skip_message_extended_media b : safe_upto b (skip_message_extended_media media).
Proof. unfold skip_message_extended_media. skip_safe; apply Hmedia. Qed.

Lemma safe_skip_story_item b : safe_upto b (skip_story_item media).
Proof. unfold skip_story_item. skip_safe; apply Hmedia. Qed.
#[local] Hint Resolve safe_skip_message_extended_media safe_skip_story_item : tl_safe.

Lemma safe_skip_webpage b : safe_upto b (skip_webpage (skip_story_item media)).
Proof. unfold skip_webpage, skip_webpage_attributes_vector. skip_safe. Qed.
#[local] Hint Resolve safe_skip_webpage : tl_safe.

Lemma safe_skip_message_media_body b : safe_upto b (skip_message_media_body media).
Proof. unfold skip_message_media_body. skip_safe. Qed.

End MediaSafe.

Lemma safe_media_ex_at n b : safe_upto b (media_ex_at n).
Proof.
  revert b. induction n as [|n IH]; intros b; cbn [media_ex_at]; [apply safe_fail|].
  apply safe_skip_message_media_body. intros b'. by apply safe_with_null.
Qed.

Lemma safe_tl_skip_message_media_ex b : safe_upto b tl_skip_message_media_ex.
Proof. apply safe_media_ex_at. Qed.

Lemma safe_tl_skip_message_media b : safe_upto b tl_skip_message_media.
Proof. apply safe_with_null, safe_media_ex_at. Qed.
#[export] Hint Resolve safe_tl_skip_message_media : tl_safe.

Lemma safe_tl_skip_message_reply_header b : safe_upto b tl_skip_message_reply_header.
Proof. unfold tl_skip_message_reply_header. skip_safe. Qed.
#[export] Hint Resolve safe_tl_skip_message_reply_header : tl_safe.

Lemma safe_skip_user_vector b : safe_upto b skip_user_vector.
Proof. unfold skip_user_vector. skip_safe. Qed.
#[export] Hint Resolve safe_skip_user_vector : tl_safe.

Lemma safe_skip_message_action b : safe_upto b skip_message_action.
Proof. unfold skip_message_action. skip_safe. Qed.
#[export] Hint Resolve safe_skip_message_action : tl_safe.

Lemma safe_tl_skip_message b : safe_upto b tl_skip_message.
Proof. unfold tl_skip_message. skip_safe. Qed.
#[export] Hint Resolve safe_tl_skip_message : tl_safe.
