(* ===== verification/TlSchema.v ===== *)
(** * The TL schema as an abstract specification

    The grammar of the TL binary encoding and the schema of the object types
    src/core/tl_skip.c knows, transcribed from the TL lines its comments
    give (constructor, then the fields in order; [flags.n?t] is present when
    bit [n] of the flags word is set).  [enc t bs] says that [bs] is the
    encoding of some value of type [t].  It does not mention readers,
    cursors or guards: TlRefine proves the skippers against it. *)

From S2P Require Import Prelude TlSerial TlCrc.

(** ** Types, fields, constructors *)

(** The boxed types.  The types that can contain a MessageMedia carry the
    number of nesting levels below them. *)
Inductive tname :=
| Bool | Peer | NotificationSound | PeerNotifySettings | MessageEntity
| TextWithEntities | PollAnswer | Poll | PollAnswerVoters | PollResults
| InputPeer | InputGeoPoint | InputPhoto | InputDocument | InputUser | InputGame
| InputMedia | InputReplyTo | DraftMessage
| InlineQueryPeerType | KeyboardButton | KeyboardButtonRow | ReplyMarkup
| Reaction | ReactionCount | MessagePeerReaction | MessageReactor | MessageReactions
| MessageReplies | FactCheck | MessageFwdHeader
| PhotoSize | VideoSize | InputStickerSet | MaskCoords | Photo | DocumentAttribute | Document
| GeoPoint | Game | WebDocument
| StoryFwdHeader | MediaAreaCoordinates | GeoPointAddress | MediaArea | PrivacyRule | StoryViews
| ChatPhoto | UserProfilePhoto | UserStatus | RestrictionReason | Username | PeerColor
| EmojiStatus | ChatAdminRights | ChatBannedRights | InputChannel | Chat | User
| RichText | PageCaption | PageTableCell | PageTableRow | PageRelatedArticle
| PageListItem | PageListOrderedItem | PageBlock | Page
| WallPaperSettings | WallPaper | BaseTheme | ThemeSettings
| WebPageAttribute (k : nat) | WebPage (k : nat) | MessageExtendedMedia (k : nat)
| StoryItem (k : nat) | MessageMedia (k : nat)
| MessageReplyHeader | MessageAction | Message.

Inductive ty :=
| TBare (n : Z)       (** [n] bytes: int, long, double *)
| TBytes              (** string or bytes *)
| TVec (t : ty)       (** boxed Vector *)
| TVecMax (m : Z) (t : ty) (** boxed Vector of at most [m] elements *)
| TRef (nm : tname).  (** a boxed object *)

Inductive field :=
| FFlags                          (** a flags word, bound to the next slot *)
| FReq (t : ty)                   (** a field that is always there *)
| FOpt (i : nat) (bit : Z) (t : ty). (** there when [bit] of flags word [i] is set *)

Record ctor := Ctor { c_id : Z; c_fields : list field }.

Definition int := TBare 4.
Definition long := TBare 8.
Definition double := TBare 8.
Definition ref nm := FReq (TRef nm).
Definition str := FReq TBytes.
Definition opt bit t := FOpt 0 bit t.
Definition opt2 bit t := FOpt 1 bit t.

(** The constructors without fields, with one field list. *)
Definition ctors (fs : list field) (ids : list Z) : list ctor := map (fun i => Ctor i fs) ids.

(** ** Schema, part 1: peers, entities, polls, drafts *)

Definition schema_base (nm : tname) : list ctor :=
  match nm with
  | Bool => ctors [] [TL_boolTrue; TL_boolFalse]
  | Peer => ctors [FReq long] [TL_peerUser; TL_peerChat; TL_peerChannel]
  | NotificationSound =>
      ctors [] [CRC_notificationSoundDefault; CRC_notificationSoundNone] ++
      [Ctor CRC_notificationSoundRingtone [FReq long];
       Ctor CRC_notificationSoundLocal [str; str]]
  | PeerNotifySettings =>
      ctors [FFlags; opt 0 (TRef Bool); opt 1 (TRef Bool); opt 2 int;
             opt 3 (TRef NotificationSound); opt 4 (TRef NotificationSound);
             opt 5 (TRef NotificationSound); opt 6 (TRef Bool); opt 7 (TRef Bool);
             opt 8 (TRef NotificationSound); opt 9 (TRef NotificationSound);
             opt 10 (TRef NotificationSound)]
            [CRC_peerNotifySettings; CRC_peerNotifySettings2]
  | MessageEntity =>
      ctors [FReq int; FReq int]
        [CRC_messageEntityUnknown; CRC_messageEntityMention; CRC_messageEntityHashtag;
         CRC_messageEntityBotCommand; CRC_messageEntityUrl; CRC_messageEntityEmail;
         CRC_messageEntityBold; CRC_messageEntityItalic; CRC_messageEntityCode;
         CRC_messageEntityPhone; CRC_messageEntityCashtag; CRC_messageEntityUnderline;
         CRC_messageEntityStrike; CRC_messageEntityBankCard; CRC_messageEntitySpoiler] ++
      [Ctor CRC_messageEntityPre [FReq int; FReq int; str];
       Ctor CRC_messageEntityTextUrl [FReq int; FReq int; str];
       Ctor CRC_messageEntityMentionName [FReq int; FReq int; FReq long];
       Ctor CRC_messageEntityCustomEmoji [FReq int; FReq int; FReq long];
       Ctor CRC_messageEntityBlockquote [FFlags; FReq int; FReq int]]
  | TextWithEntities => [Ctor CRC_textWithEntities [str; FReq (TVec (TRef MessageEntity))]]
  | PollAnswer => [Ctor CRC_pollAnswer [ref TextWithEntities; str]]
  | Poll =>
      [Ctor CRC_poll [FFlags; FReq long; ref TextWithEntities; FReq (TVec (TRef PollAnswer));
                      opt 4 int; opt 5 int]]
  | PollAnswerVoters => [Ctor CRC_pollAnswerVoters [FFlags; str; FReq int]]
  | PollResults =>
      [Ctor CRC_pollResults [FFlags; opt 1 (TVec (TRef PollAnswerVoters)); opt 2 int;
                             opt 3 (TVec (TRef Peer)); opt 4 TBytes;
                             opt 4 (TVec (TRef MessageEntity))]]
  | InputPeer =>
      ctors [] [CRC_inputPeerEmpty; CRC_inputPeerSelf] ++
      ctors [FReq long; FReq long] [CRC_inputPeerUser; CRC_inputPeerChannel] ++
      [Ctor CRC_inputPeerChat [FReq long]] ++
      ctors [ref InputPeer; FReq int; FReq long]
            [CRC_inputPeerUserFromMessage; CRC_inputPeerChannelFromMessage]
  | InputGeoPoint =>
      [Ctor CRC_inputGeoPointEmpty [];
       Ctor CRC_inputGeoPoint [FFlags; FReq double; FReq double; opt 0 int]]
  | InputPhoto =>
      [Ctor CRC_inputPhotoEmpty [FReq long]; Ctor CRC_inputPhoto [FReq long; FReq long; str]]
  | InputDocument =>
      [Ctor CRC_inputDocumentEmpty [FReq long];
       Ctor CRC_inputDocument [FReq long; FReq long; str]]
  | InputUser =>
      ctors [] [CRC_inputUserEmpty; CRC_inputUserSelf] ++
      [Ctor CRC_inputUser [FReq long; FReq long];
       Ctor CRC_inputUserFromMessage [ref InputPeer; FReq int; FReq long]]
  | InputGame =>
      [Ctor CRC_inputGameID [FReq long; FReq long];
       Ctor CRC_inputGameShortName [ref InputUser; str]]
  | InputMedia =>
      [Ctor CRC_inputMediaEmpty [];
       Ctor CRC_inputMediaPhoto [FFlags; ref InputPhoto; opt 0 int];
       Ctor CRC_inputMediaGeoPoint [ref InputGeoPoint];
       Ctor CRC_inputMediaContact [str; str; str; str];
       Ctor CRC_inputMediaDocument [FFlags; ref InputDocument; opt 0 int; opt 1 TBytes];
       Ctor CRC_inputMediaVenue [ref InputGeoPoint; str; str; str; str; str];
       Ctor CRC_inputMediaGeoLive [FFlags; ref InputGeoPoint; opt 2 int; FReq int; opt 3 int];
       Ctor CRC_inputMediaGame [ref InputGame];
       Ctor CRC_inputMediaDice [str];
       Ctor CRC_inputMediaStory [ref InputPeer; FReq int];
       Ctor CRC_inputMediaWebPage [FFlags; str; opt 4 TBytes];
       Ctor CRC_inputMediaPoll [FFlags; ref Poll; opt 0 (TVec TBytes); opt 1 TBytes;
                                opt 2 (TVec (TRef MessageEntity))];
       Ctor CRC_inputMediaPaidMedia [FReq long; FReq (TVec (TRef InputMedia))];
       Ctor CRC_inputMediaPhotoExternal [FFlags; str; opt 0 int];
       Ctor CRC_inputMediaDocumentExternal [FFlags; str; opt 0 int]]
  | InputReplyTo =>
      [Ctor CRC_inputReplyToMessage [FFlags; FReq int; opt 0 int; opt 1 (TRef InputPeer);
                                     opt 2 TBytes; opt 3 (TVec (TRef MessageEntity)); opt 4 int];
       Ctor CRC_inputReplyToStory [ref InputPeer; FReq int]]
  | DraftMessage =>
      [Ctor CRC_draftMessageEmpty [FFlags; opt 0 int];
       Ctor CRC_draftMessage [FFlags; opt 4 (TRef InputReplyTo); str;
                              opt 3 (TVec (TRef MessageEntity)); opt 5 (TRef InputMedia);
                              FReq int]]
  | _ => []
  end.

(** ** Schema, part 2: markup, reactions, headers, photo sizes *)

Definition schema_parts (nm : tname) : list ctor :=
  match nm with
  | InlineQueryPeerType =>
      ctors [] [CRC_inlineQueryPeerTypeSameBotPM; CRC_inlineQueryPeerTypePM;
                CRC_inlineQueryPeerTypeChat; CRC_inlineQueryPeerTypeMegagroup;
                CRC_inlineQueryPeerTypeBroadcast; CRC_inlineQueryPeerTypeBotPM]
  | KeyboardButton =>
      ctors [str] [CRC_keyboardButton; CRC_keyboardButtonRequestPhone;
                   CRC_keyboardButtonRequestGeoLoc; CRC_keyboardButtonGame;
                   CRC_keyboardButtonBuy] ++
      [Ctor CRC_keyboardButtonUrl [str; str];
       Ctor CRC_keyboardButtonCallback [FFlags; str; str];
       Ctor CRC_keyboardButtonSwitchInline
         [FFlags; str; str; opt 1 (TVec (TRef InlineQueryPeerType))];
       Ctor CRC_keyboardButtonUrlAuth [FFlags; str; opt 0 TBytes; str; FReq int];
       Ctor CRC_keyboardButtonRequestPoll [FFlags; opt 0 (TRef Bool); str];
       Ctor CRC_keyboardButtonUserProfile [str; FReq long];
       Ctor CRC_keyboardButtonWebView [str; str];
       Ctor CRC_keyboardButtonSimpleWebView [str; str]]
  | KeyboardButtonRow => [Ctor CRC_keyboardButtonRow [FReq (TVec (TRef KeyboardButton))]]
  | ReplyMarkup =>
      [Ctor CRC_replyKeyboardHide [FFlags];
       Ctor CRC_replyKeyboardForceReply [FFlags; opt 3 TBytes];
       Ctor CRC_replyKeyboardMarkup
         [FFlags; FReq (TVec (TRef KeyboardButtonRow)); opt 3 TBytes];
       Ctor CRC_replyInlineMarkup [FReq (TVec (TRef KeyboardButtonRow))]]
  | Reaction =>
      ctors [] [CRC_reactionEmpty; CRC_reactionPaid] ++
      [Ctor CRC_reactionEmoji [str]; Ctor CRC_reactionCustomEmoji [FReq long]]
  | ReactionCount => [Ctor CRC_reactionCount [FFlags; opt 0 int; ref Reaction; FReq int]]
  | MessagePeerReaction =>
      [Ctor CRC_messagePeerReaction [FFlags; ref Reaction; FReq int; ref Peer]]
  | MessageReactor =>
      [Ctor CRC_messageReactor [FFlags; opt 3 (TRef Peer); FReq int; FReq int]]
  | MessageReactions =>
      [Ctor CRC_messageReactions [FFlags; FReq (TVec (TRef ReactionCount));
                                  opt 1 (TVec (TRef MessagePeerReaction));
                                  opt 2 (TVec (TRef MessageReactor))]]
  | MessageReplies =>
      [Ctor CRC_messageReplies [FFlags; FReq int; FReq int; opt 1 (TVec (TRef Peer));
                                opt 0 long; opt 2 int; opt 3 int]]
  | FactCheck =>
      [Ctor CRC_factCheck [FFlags; opt 1 TBytes; opt 1 (TRef TextWithEntities); FReq long]]
  | MessageFwdHeader =>
      [Ctor CRC_messageFwdHeader [FFlags; opt 0 (TRef Peer); opt 5 TBytes; FReq int; opt 2 int;
                                  opt 3 TBytes; opt 4 (TRef Peer); opt 4 int;
                                  opt 8 (TRef Peer); opt 9 TBytes; opt 10 int; opt 6 TBytes]]
  | PhotoSize =>
      [Ctor CRC_photoSizeEmpty [str];
       Ctor CRC_photoSize [str; FReq int; FReq int; FReq int];
       Ctor CRC_photoCachedSize [str; FReq int; FReq int; str];
       Ctor CRC_photoStrippedSize [str; str];
       Ctor CRC_photoPathSize [str; str];
       Ctor CRC_photoSizeProgressive [str; FReq int; FReq int; FReq (TVec int)]]
  | _ => []
  end.

(** ** Schema, part 3: photos, documents, story parts *)

Definition schema_media (nm : tname) : list ctor :=
  match nm with
  | VideoSize =>
      [Ctor CRC_videoSize [FFlags; str; FReq int; FReq int; FReq int; opt 0 double];
       Ctor CRC_videoSizeEmojiMarkup [FReq long; FReq (TVec int)];
       Ctor CRC_videoSizeStickerMarkup [ref InputStickerSet; FReq long; FReq (TVec int)]]
  | InputStickerSet =>
      ctors [] [CRC_inputStickerSetEmpty; CRC_inputStickerSetAnimatedEmoji;
                CRC_inputStickerSetAnimatedEmojiAnimations; CRC_inputStickerSetPremiumGifts;
                CRC_inputStickerSetEmojiGenericAnimations;
                CRC_inputStickerSetEmojiDefaultStatuses;
                CRC_inputStickerSetEmojiDefaultTopicIcons;
                CRC_inputStickerSetEmojiChannelDefaultStatuses] ++
      [Ctor CRC_inputStickerSetID [FReq long; FReq long];
       Ctor CRC_inputStickerSetShortName [str]; Ctor CRC_inputStickerSetDice [str]]
  | MaskCoords => [Ctor CRC_maskCoords [FReq int; FReq double; FReq double; FReq double]]
  | Photo =>
      [Ctor CRC_photoEmpty [FReq long];
       Ctor CRC_photo [FFlags; FReq long; FReq long; str; FReq int;
                       FReq (TVec (TRef PhotoSize)); opt 1 (TVec (TRef VideoSize)); FReq int]]
  | DocumentAttribute =>
      [Ctor CRC_documentAttributeImageSize [FReq int; FReq int];
       Ctor CRC_documentAttributeAnimated []; Ctor CRC_documentAttributeHasStickers [];
       Ctor CRC_documentAttributeFilename [str];
       Ctor CRC_documentAttributeVideo [FFlags; FReq double; FReq int; FReq int;
                                        opt 2 int; opt 4 double; opt 5 TBytes];
       Ctor CRC_documentAttributeAudio [FFlags; FReq int; opt 0 TBytes; opt 1 TBytes; opt 2 TBytes];
       Ctor CRC_documentAttributeSticker [FFlags; str; ref InputStickerSet; opt 0 (TRef MaskCoords)];
       Ctor CRC_documentAttributeCustomEmoji [FFlags; str; ref InputStickerSet]]
  | Document =>
      [Ctor CRC_documentEmpty [FReq long];
       Ctor CRC_document [FFlags; FReq long; FReq long; str; FReq int; str; FReq long;
                          opt 0 (TVec (TRef PhotoSize)); opt 1 (TVec (TRef VideoSize)); FReq int;
                          FReq (TVec (TRef DocumentAttribute))]]
  | GeoPoint =>
      [Ctor CRC_geoPointEmpty [];
       Ctor CRC_geoPoint [FFlags; FReq double; FReq double; FReq long; opt 0 int]]
  | Game =>
      [Ctor CRC_game [FFlags; FReq long; FReq long; str; str; str; ref Photo;
                      opt 0 (TRef Document)]]
  | WebDocument =>
      [Ctor CRC_webDocument [str; FReq long; FReq int; str; FReq (TVec (TRef DocumentAttribute))];
       Ctor CRC_webDocumentNoProxy [str; FReq int; str; FReq (TVec (TRef DocumentAttribute))]]
  | StoryFwdHeader =>
      [Ctor CRC_storyFwdHeader [FFlags; opt 0 (TRef Peer); opt 1 TBytes; opt 2 int]]
  | MediaAreaCoordinates =>
      [Ctor CRC_mediaAreaCoordinates [FFlags; FReq double; FReq double; FReq double; FReq double;
                                      FReq double; opt 0 double]]
  | GeoPointAddress =>
      [Ctor CRC_geoPointAddress [FFlags; str; opt 0 TBytes; opt 1 TBytes; opt 2 TBytes]]
  | MediaArea =>
      [Ctor CRC_mediaAreaVenue [ref MediaAreaCoordinates; ref GeoPoint; str; str; str; str; str];
       Ctor CRC_mediaAreaGeoPoint [FFlags; ref MediaAreaCoordinates; ref GeoPoint;
                                   opt 0 (TRef GeoPointAddress)];
       Ctor CRC_mediaAreaSuggestedReaction [FFlags; ref MediaAreaCoordinates; ref Reaction];
       Ctor CRC_mediaAreaChannelPost [ref MediaAreaCoordinates; FReq long; FReq int];
       Ctor CRC_mediaAreaUrl [ref MediaAreaCoordinates; str];
       Ctor CRC_mediaAreaWeather [ref MediaAreaCoordinates; str; FReq double; FReq int];
       Ctor CRC_mediaAreaStarGift [ref MediaAreaCoordinates; str]]
  | PrivacyRule =>
      ctors [] [CRC_privacyValueAllowContacts; CRC_privacyValueAllowAll;
                CRC_privacyValueDisallowContacts; CRC_privacyValueDisallowAll;
                CRC_privacyValueAllowCloseFriends; CRC_privacyValueAllowPremium;
                CRC_privacyValueAllowBots; CRC_privacyValueDisallowBots] ++
      ctors [FReq (TVec long)]
        [CRC_privacyValueAllowUsers; CRC_privacyValueDisallowUsers;
         CRC_privacyValueAllowChatParticipants; CRC_privacyValueDisallowChatParticipants]
  | StoryViews =>
      [Ctor CRC_storyViews [FFlags; FReq int; opt 2 int; opt 3 (TVec (TRef ReactionCount));
                            opt 4 int; opt 0 (TVec long)]]
  | _ => []
  end.

(** ** Schema, part 4: chats and users *)

Definition schema_chat (nm : tname) : list ctor :=
  match nm with
  | ChatPhoto =>
      [Ctor CRC_chatPhotoEmpty []; Ctor CRC_chatPhoto [FFlags; FReq long; opt 1 TBytes; FReq int]]
  | UserProfilePhoto =>
      [Ctor CRC_userProfilePhotoEmpty [];
       Ctor CRC_userProfilePhoto [FFlags; FReq long; opt 1 TBytes; FReq int]]
  | UserStatus =>
      [Ctor CRC_userStatusEmpty []] ++
      ctors [FReq int] [CRC_userStatusOnline; CRC_userStatusOffline; CRC_userStatusRecently;
                        CRC_userStatusLastWeek; CRC_userStatusLastMonth]
  | RestrictionReason => [Ctor CRC_restrictionReason [str; str; str]]
  | Username => [Ctor CRC_username [FFlags; str]]
  | PeerColor => [Ctor CRC_peerColor [FFlags; opt 0 int; opt 1 long]]
  | EmojiStatus =>
      [Ctor CRC_emojiStatusEmpty []; Ctor CRC_emojiStatus [FReq long];
       Ctor CRC_emojiStatusUntil [FReq long; FReq int]]
  | ChatAdminRights => [Ctor CRC_chatAdminRights [FFlags]]
  | ChatBannedRights => [Ctor CRC_chatBannedRights [FFlags; FReq int]]
  | InputChannel =>
      [Ctor CRC_inputChannelEmpty []] ++
      ctors [FReq long; FReq long] [CRC_inputChannel; CRC_inputChannelFromMessage]
  | Chat =>
      [Ctor TL_chatEmpty [FReq long];
       Ctor TL_chatForbidden [FReq long; str];
       Ctor TL_chat [FFlags; opt 6 (TRef InputChannel); FReq long; str; ref ChatPhoto;
                     FReq int; FReq int; FReq int; opt 14 (TRef ChatAdminRights);
                     opt 18 (TRef ChatBannedRights)];
       Ctor TL_channelForbidden [FFlags; FReq long; FReq long; str; opt 16 int];
       Ctor TL_channel [FFlags; FFlags; FReq long; opt 13 long; str; opt 6 TBytes; ref ChatPhoto;
                        FReq int; opt 9 (TVec (TRef RestrictionReason));
                        opt 14 (TRef ChatAdminRights); opt 15 (TRef ChatBannedRights);
                        opt 18 (TRef ChatBannedRights); opt 17 int;
                        opt2 0 (TVec (TRef Username)); opt2 4 int; opt2 7 (TRef PeerColor);
                        opt2 8 (TRef PeerColor); opt2 9 (TRef EmojiStatus); opt2 10 int;
                        opt2 11 int]]
  | User =>
      [Ctor TL_userEmpty [FReq long]] ++
      ctors [FFlags; FFlags; FReq long; opt 0 long; opt 1 TBytes; opt 2 TBytes; opt 3 TBytes;
             opt 4 TBytes; opt 5 (TRef UserProfilePhoto); opt 6 (TRef UserStatus); opt 14 int;
             opt 18 (TVec (TRef RestrictionReason)); opt 19 TBytes; opt 22 TBytes;
             opt 30 (TRef EmojiStatus); opt2 0 (TVec (TRef Username)); opt2 5 int;
             opt2 8 (TRef PeerColor); opt2 9 (TRef PeerColor); opt2 12 int]
            [TL_user; TL_user2]
  | _ => []
  end.

(** ** Schema, part 5: instant view pages and web pages *)

Definition schema_page (nm : tname) : list ctor :=
  match nm with
  | RichText =>
      [Ctor CRC_textEmpty []; Ctor CRC_textPlain [str]] ++
      ctors [ref RichText] [CRC_textBold; CRC_textItalic; CRC_textUnderline; CRC_textStrike;
                            CRC_textFixed; CRC_textSubscript; CRC_textSuperscript;
                            CRC_textMarked] ++
      [Ctor CRC_textUrl [ref RichText; str; FReq long];
       Ctor CRC_textEmail [ref RichText; str]; Ctor CRC_textPhone [ref RichText; str];
       Ctor CRC_textConcat [FReq (TVec (TRef RichText))];
       Ctor CRC_textImage [FReq long; FReq int; FReq int];
       Ctor CRC_textAnchor [ref RichText; str]]
  | PageCaption => [Ctor CRC_pageCaption [ref RichText; ref RichText]]
  | PageTableCell =>
      [Ctor CRC_pageTableCell [FFlags; opt 7 (TRef RichText); opt 1 int; opt 2 int]]
  | PageTableRow => [Ctor CRC_pageTableRow [FReq (TVec (TRef PageTableCell))]]
  | PageRelatedArticle =>
      [Ctor CRC_pageRelatedArticle [FFlags; str; FReq long; opt 0 TBytes; opt 1 TBytes;
                                    opt 2 long; opt 3 TBytes; opt 4 int]]
  | PageListItem =>
      [Ctor CRC_pageListItemText [ref RichText];
       Ctor CRC_pageListItemBlocks [FReq (TVec (TRef PageBlock))]]
  | PageListOrderedItem =>
      [Ctor CRC_pageListOrderedItemText [str; ref RichText];
       Ctor CRC_pageListOrderedItemBlocks [str; FReq (TVec (TRef PageBlock))]]
  | PageBlock =>
      ctors [] [CRC_pageBlockUnsupported; CRC_pageBlockDivider] ++
      ctors [ref RichText] [CRC_pageBlockTitle; CRC_pageBlockSubtitle; CRC_pageBlockHeader;
                            CRC_pageBlockSubheader; CRC_pageBlockKicker; CRC_pageBlockParagraph;
                            CRC_pageBlockFooter] ++
      [Ctor CRC_pageBlockAnchor [str];
       Ctor CRC_pageBlockPreformatted [ref RichText; str];
       Ctor CRC_pageBlockAuthorDate [ref RichText; FReq int];
       Ctor CRC_pageBlockBlockquote [ref RichText; ref RichText];
       Ctor CRC_pageBlockPullquote [ref RichText; ref RichText];
       Ctor CRC_pageBlockPhoto [FFlags; FReq long; ref PageCaption; opt 0 TBytes; opt 0 long];
       Ctor CRC_pageBlockVideo [FFlags; FReq long; ref PageCaption];
       Ctor CRC_pageBlockAudio [FReq long; ref PageCaption];
       Ctor CRC_pageBlockCover [ref PageBlock];
       Ctor CRC_pageBlockChannel [ref Chat];
       Ctor CRC_pageBlockMap [ref GeoPoint; FReq int; FReq int; FReq int; ref PageCaption];
       Ctor CRC_pageBlockList [FReq (TVec (TRef PageListItem))];
       Ctor CRC_pageBlockOrderedList [FReq (TVec (TRef PageListOrderedItem))];
       Ctor CRC_pageBlockCollage [FReq (TVec (TRef PageBlock)); ref PageCaption];
       Ctor CRC_pageBlockSlideshow [FReq (TVec (TRef PageBlock)); ref PageCaption];
       Ctor CRC_pageBlockDetails [FFlags; FReq (TVec (TRef PageBlock)); ref RichText];
       Ctor CRC_pageBlockRelatedArticles [ref RichText; FReq (TVec (TRef PageRelatedArticle))];
       Ctor CRC_pageBlockTable [FFlags; ref RichText; FReq (TVec (TRef PageTableRow))];
       Ctor CRC_pageBlockEmbed [FFlags; opt 1 TBytes; opt 2 TBytes; opt 4 long; opt 5 int;
                                opt 5 int; ref PageCaption];
       Ctor CRC_pageBlockEmbedPost [str; FReq long; FReq long; str; FReq int;
                                    FReq (TVec (TRef PageBlock)); ref PageCaption]]
  | Page =>
      [Ctor CRC_page [FFlags; str; FReq (TVec (TRef PageBlock)); FReq (TVec (TRef Photo));
                      FReq (TVec (TRef Document)); opt 3 int]]
  | WallPaperSettings =>
      [Ctor CRC_wallPaperSettings [FFlags; opt 0 int; opt 4 int; opt 5 int; opt 6 int; opt 3 int;
                                   opt 7 int; opt 8 TBytes]]
  | WallPaper =>
      [Ctor CRC_wallPaper [FReq long; FReq long; str; str; ref WallPaperSettings; FFlags;
                           opt 2 (TRef Document)];
       Ctor CRC_wallPaperNoFile [FReq long; FFlags; opt 2 (TRef WallPaperSettings)]]
  | BaseTheme =>
      ctors [] [CRC_baseThemeClassic; CRC_baseThemeDay; CRC_baseThemeDark; CRC_baseThemeTinted;
                CRC_baseThemeArctic]
  | ThemeSettings =>
      [Ctor CRC_themeSettings [FFlags; ref BaseTheme; FReq int; opt 0 long; opt 3 int;
                               opt 1 (TVec int); opt 2 (TRef WallPaper)]]
  | WebPageAttribute k =>
      [Ctor CRC_webPageAttributeTheme [FFlags; opt 0 (TVec (TRef Document));
                                       opt 1 (TRef ThemeSettings)];
       Ctor CRC_webPageAttributeStory [FFlags; ref Peer; FReq int; opt 0 (TRef (StoryItem k))];
       Ctor CRC_webPageAttributeStickerSet [FFlags; FReq (TVec (TRef Document))]]
  | WebPage k =>
      [Ctor CRC_webPageEmpty [FFlags; FReq long; opt 0 TBytes];
       Ctor CRC_webPagePending [FFlags; FReq long; opt 0 TBytes; FReq int];
       Ctor CRC_webPageNotModified [FFlags; opt 0 int];
       Ctor CRC_webPage [FFlags; FReq long; str; str; FReq int; opt 0 TBytes; opt 1 TBytes;
                         opt 2 TBytes; opt 3 TBytes; opt 4 (TRef Photo); opt 5 TBytes;
                         opt 5 TBytes; opt 6 int; opt 6 int; opt 7 int; opt 8 TBytes;
                         opt 9 (TRef Document); opt 10 (TRef Page);
                         opt 12 (TVec (TRef (WebPageAttribute k)))]]
  | _ => []
  end.

(** ** Schema, part 6: media and messages

    A [MessageMedia k] has at most [k] levels of media, itself included. *)

Definition schema_message (nm : tname) : list ctor :=
  match nm with
  | MessageExtendedMedia k =>
      [Ctor CRC_messageExtendedMediaPreview [FFlags; opt 0 int; opt 0 int;
                                             opt 1 (TRef PhotoSize); opt 2 int];
       Ctor CRC_messageExtendedMedia [ref (MessageMedia k)]]
  | StoryItem k =>
      [Ctor CRC_storyItemDeleted [FReq int];
       Ctor CRC_storyItemSkipped [FFlags; FReq int; FReq int; FReq int];
       Ctor CRC_storyItem [FFlags; FReq int; FReq int; opt 18 (TRef Peer);
                           opt 17 (TRef StoryFwdHeader); FReq int; opt 0 TBytes;
                           opt 1 (TVec (TRef MessageEntity)); ref (MessageMedia k);
                           opt 14 (TVec (TRef MediaArea)); opt 2 (TVec (TRef PrivacyRule));
                           opt 3 (TRef StoryViews); opt 15 (TRef Reaction)]]
  | MessageMedia O => []
  | MessageMedia (S k) =>
      [Ctor CRC_messageMediaEmpty []; Ctor CRC_messageMediaUnsupported [];
       Ctor CRC_messageMediaGeo [ref GeoPoint];
       Ctor CRC_messageMediaContact [str; str; str; str; FReq long];
       Ctor CRC_messageMediaVenue [ref GeoPoint; str; str; str; str; str];
       Ctor CRC_messageMediaGeoLive [FFlags; ref GeoPoint; opt 0 int; FReq int; opt 1 int];
       Ctor CRC_messageMediaDice [FReq int; str];
       Ctor CRC_messageMediaPhoto [FFlags; opt 0 (TRef Photo); opt 2 int];
       Ctor CRC_messageMediaWebPage [FFlags; ref (WebPage k)];
       Ctor CRC_messageMediaPoll [ref Poll; ref PollResults];
       Ctor CRC_messageMediaInvoice [FFlags; str; str; opt 0 (TRef WebDocument); opt 2 int; str;
                                     FReq long; str; opt 4 (TRef (MessageExtendedMedia k))];
       Ctor CRC_messageMediaStory [FFlags; ref Peer; FReq int; opt 0 (TRef (StoryItem k))];
       Ctor CRC_messageMediaGiveaway [FFlags; FReq (TVec long); opt 1 (TVec TBytes); opt 3 TBytes;
                                      FReq int; opt 4 int; opt 5 long; FReq int];
       Ctor CRC_messageMediaGame [ref Game];
       Ctor CRC_messageMediaPaidMedia [FReq long; FReq (TVec (TRef (MessageExtendedMedia k)))];
       Ctor CRC_messageMediaDocument [FFlags; opt 0 (TRef Document); opt 2 int;
                                      opt 10 (TVec (TRef Document))]]
  | MessageReplyHeader =>
      [Ctor CRC_messageReplyStoryHeader [ref Peer; FReq int];
       Ctor CRC_messageReplyHeader [FFlags; opt 4 int; opt 0 (TRef Peer);
                                    opt 5 (TRef MessageFwdHeader); opt 8 (TRef (MessageMedia 4));
                                    opt 1 int; opt 6 TBytes; opt 7 (TVec (TRef MessageEntity));
                                    opt 10 int]]
  | MessageAction =>
      ctors [] [0xb6aef7b0; 0x95e3fbef; 0x94bd38ed; 0x9fbab604; 0x4792929b; 0x9244c2ad;
                0xb4c38cb5] ++
      ctors [str] [0xb5a1ce5a; 0x95d2ac92; 0xfae69f56] ++
      ctors [FReq long] [0xa43f30cc; 0xe1037f92; 0x031224c3] ++
      [Ctor 0xbd47cbad [str; FReq (TVecMax 4096 long)];
       Ctor 0x15cefd00 [FReq (TVecMax 4096 long)];
       Ctor 0x502f92f7 [FReq int; FReq long; FReq long; FReq (TVecMax 4096 long)];
       Ctor 0xea3948e9 [str; FReq long];
       Ctor 0x7fcb13a8 [ref Photo];
       Ctor 0x80e11a7f [FFlags; FReq long; opt 0 int; opt 1 int];
       Ctor 0x7a0d7f42 [FFlags; FReq int; FReq long; FReq long; opt 0 int];
       Ctor 0xb3a07661 [FReq int; FReq long; FReq long; FReq int]]
  | Message =>
      [Ctor TL_messageEmpty [FFlags; FReq int; opt 0 (TRef Peer)];
       Ctor TL_messageService [FFlags; FReq int; opt 8 (TRef Peer); ref Peer;
                               opt 3 (TRef MessageReplyHeader); FReq int; ref MessageAction;
                               opt 20 (TRef MessageReactions); opt 25 int];
       Ctor TL_message [FFlags; FFlags; FReq int; opt 8 (TRef Peer); ref Peer;
                        opt 28 (TRef Peer); opt 2 (TRef MessageFwdHeader); opt 11 long;
                        opt2 0 long; opt 3 (TRef MessageReplyHeader); FReq int; str;
                        opt 9 (TRef (MessageMedia 4)); opt 6 (TRef ReplyMarkup);
                        opt 7 (TVec (TRef MessageEntity)); opt 10 int; opt 10 int;
                        opt 23 (TRef MessageReplies); opt 15 int; opt 16 TBytes; opt 17 long;
                        opt 20 (TRef MessageReactions); opt 22 (TVec (TRef RestrictionReason));
                        opt 25 int; opt2 30 int; opt2 2 long; opt2 3 (TRef FactCheck)]]
  | _ => []
  end.

Definition schema (nm : tname) : list ctor :=
  schema_base nm ++ schema_parts nm ++ schema_media nm ++ schema_chat nm ++ schema_page nm ++
  schema_message nm.

(** ** Encodings *)

Inductive enc : ty -> list byte -> Prop :=
| enc_bare n bs : zlen bs = n -> enc (TBare n) bs
| enc_str d : zlen d < 2 ^ 24 -> enc TBytes (enc_bytes d)
| enc_vec t n bs : Z.of_nat n < 2 ^ 32 -> enc_many t n bs ->
    enc (TVec t) (enc32 TL_vector ++ enc32 (Z.of_nat n) ++ bs)
| enc_vec_max m t n bs : Z.of_nat n <= m -> m < 2 ^ 32 -> enc_many t n bs ->
    enc (TVecMax m t) (enc32 TL_vector ++ enc32 (Z.of_nat n) ++ bs)
| enc_ref nm c bs : In c (schema nm) -> enc_fields [] (c_fields c) bs ->
    enc (TRef nm) (enc32 (c_id c) ++ bs)
with enc_many : ty -> nat -> list byte -> Prop :=
| many_nil t : enc_many t 0 []
| many_cons t n b bs : enc t b -> enc_many t n bs -> enc_many t (S n) (b ++ bs)
with enc_opt : bool -> ty -> list byte -> Prop :=
| opt_absent t : enc_opt false t []
| opt_present t b : enc t b -> enc_opt true t b
with enc_fields : list Z -> list field -> list byte -> Prop :=
| ef_nil env : enc_fields env [] []
| ef_flags env v fs bs : is_u32 v -> enc_fields (env ++ [v]) fs bs ->
    enc_fields env (FFlags :: fs) (enc32 v ++ bs)
| ef_req env t fs b bs : enc t b -> enc_fields env fs bs ->
    enc_fields env (FReq t :: fs) (b ++ bs)
| ef_opt env i bit t fs b bs :
    enc_opt (Z.testbit (nth i env 0) bit) t b -> enc_fields env fs bs ->
    enc_fields env (FOpt i bit t :: fs) (b ++ bs).

Lemma enc_many_concat t n bs :
  enc_many t n bs -> exists bss, bs = concat bss /\ length bss = n /\ Forall (enc t) bss.
Proof.
  induction 1 as [|t n b bs Hb _ (bss & -> & <- & Hall)]; [by exists []|].
  exists (b :: bss). auto.
Qed.

Lemma concat_elem_len (bss : list (list byte)) b : In b bss -> zlen b <= zlen (concat bss).
Proof.
  induction bss as [|c bss IH]; [done|]. cbn. rewrite zlen_app.
  pose proof (zlen_nonneg c). pose proof (zlen_nonneg (concat bss)).
  intros [->|Hin]; [lia|]. specialize (IH Hin). lia.
Qed.
