(* ===== verification/TlRefine.v ===== *)
(** * The skippers implement the schema

    For every type of the schema: a skipper that stands in front of an
    encoding of the type succeeds and stops exactly behind it, whatever
    follows.  This is the property vector iteration relies on. *)

From S2P Require Import Prelude TlSerial TlLogic TlCrc TlSchema.
From S2P Require Import TlSkipBase TlSkipParts TlSkipMedia TlSkipChat TlSkipPage TlSkipMessage.

(** ** Inversion of encodings *)

Lemma enc_ref_inv nm bs :
  enc (TRef nm) bs -> exists c cs, bs = enc32 (c_id c) ++ cs /\ In c (schema nm) /\
                                   enc_fields [] (c_fields c) cs.
Proof. inversion 1; subst. eauto. Qed.

Lemma enc_bare_inv n bs : enc (TBare n) bs -> zlen bs = n.
Proof. by inversion 1. Qed.

Lemma enc_str_inv bs : enc TBytes bs -> exists d, bs = enc_bytes d /\ zlen d < 2 ^ 24.
Proof. inversion 1; subst. eauto. Qed.

Lemma enc_vec_inv t bs :
  enc (TVec t) bs -> exists bss, zlen bss < 2 ^ 32 /\ Forall (enc t) bss /\
    bs = enc32 TL_vector ++ enc32 (zlen bss) ++ concat bss.
Proof.
  inversion 1 as [| |? n cs Hn Hm| |]; subst.
  apply enc_many_concat in Hm as (bss & -> & <- & Hall). by exists bss.
Qed.

Lemma enc_vec_max_inv m t bs :
  enc (TVecMax m t) bs -> exists bss, zlen bss <= m < 2 ^ 32 /\ Forall (enc t) bss /\
    bs = enc32 TL_vector ++ enc32 (zlen bss) ++ concat bss.
Proof.
  inversion 1 as [| | |? ? n cs Hn Hm Hmany|]; subst.
  apply enc_many_concat in Hmany as (bss & -> & <- & Hall). exists bss. unfold zlen. auto.
Qed.

Lemma ef_nil_inv env bs : enc_fields env [] bs -> bs = [].
Proof. by inversion 1. Qed.

Lemma ef_flags_inv env fs bs :
  enc_fields env (FFlags :: fs) bs ->
  exists v cs, bs = enc32 v ++ cs /\ is_u32 v /\ enc_fields (env ++ [v]) fs cs.
Proof. inversion 1; subst. eauto. Qed.

Lemma ef_req_inv env t fs bs :
  enc_fields env (FReq t :: fs) bs ->
  exists b cs, bs = b ++ cs /\ enc t b /\ enc_fields env fs cs.
Proof. inversion 1; subst. eauto. Qed.

Lemma ef_opt_inv env i k t fs bs :
  enc_fields env (FOpt i k t :: fs) bs ->
  exists b cs, bs = b ++ cs /\ enc_opt (Z.testbit (nth i env 0) k) t b /\ enc_fields env fs cs.
Proof. inversion 1; subst. eauto. Qed.

Lemma enc_bytes_ge4 d : 4 <= zlen (enc_bytes d).
Proof.
  pose proof (enc_bytes_len d). pose proof (zlen_nonneg d). Z.div_mod_to_equations. lia.
Qed.

Lemma zlen_enc32 v : zlen (enc32 v) = 4.
Proof. apply zlen_le_split. Qed.

Lemma zlen_enc64 v : zlen (enc64 v) = 8.
Proof. apply zlen_le_split. Qed.
#[export] Hint Rewrite zlen_enc32 zlen_enc64 : zlen.

(** ** Consumption rules for the idioms *)

(** Any [n] bytes are the encoding of some [n]-byte word. *)
Lemma enc32_any b : zlen b = 4 -> enc32 (le_combine b) = b.
Proof. intros H. apply split_le_combine'. unfold zlen in H. lia. Qed.

Lemma enc64_any b : zlen b = 8 -> enc64 (le_combine b) = b.
Proof. intros H. apply split_le_combine'. unfold zlen in H. lia. Qed.

Lemma reads_discard {A} (m : Rd A) bs a : reads m bs a -> reads (m ;; mret tt) bs tt.
Proof. apply (reads_map m (fun _ => tt)). Qed.

Lemma reads_skip_int32 b : zlen b = 4 -> reads skip_int32 b tt.
Proof. intros H. rewrite <- (enc32_any b H). eapply reads_discard, reads_map, reads_le32. Qed.

Lemma reads_skip_uint32 b : zlen b = 4 -> reads skip_uint32 b tt.
Proof. intros H. rewrite <- (enc32_any b H). eapply reads_discard, reads_le32. Qed.

Lemma reads_skip_int64 b : zlen b = 8 -> reads skip_int64 b tt.
Proof. intros H. rewrite <- (enc64_any b H). eapply reads_discard, reads_map, reads_le64. Qed.

Lemma reads_skip_double b : zlen b = 8 -> reads skip_double b tt.
Proof. intros H. rewrite <- (enc64_any b H). eapply reads_discard, reads_le64. Qed.

Lemma reads_int_field b : zlen b = 4 -> reads int_field b tt.
Proof. intros H. apply reads_need; [lia|]. by apply reads_skip_int32. Qed.

Lemma reads_long_field b : zlen b = 8 -> reads long_field b tt.
Proof. intros H. apply reads_need; [lia|]. by apply reads_skip_int64. Qed.

Lemma reads_skip_string d : zlen d < 2 ^ 24 -> reads tl_skip_string (enc_bytes d) tt.
Proof.
  intros Hd. unfold tl_skip_string. apply reads_pre.
  - intros r tl Hwf Hr. destruct (remaining_at r _ _ Hwf Hr) as [Hok _].
    + pose proof (enc_bytes_ge4 d). lia.
    + apply negb_false_iff, Hok.
  - rewrite <- (app_nil_r (enc_bytes d)). eapply reads_bind; [by apply reads_bytes|].
    apply reads_ret.
Qed.

Lemma reads_check {A} c (m : Rd A) bs a : c = true -> reads m bs a -> reads (check c ;; m) bs a.
Proof. intros -> Hm. exact Hm. Qed.

Lemma reads_if_true {S A} `{!HasReader S} (c : bool) (m m' : M S A) bs a :
  c = true -> reads m bs a -> reads (if c then m else m') bs a.
Proof. by intros ->. Qed.

Lemma reads_if_false {S A} `{!HasReader S} (c : bool) (m m' : M S A) bs a :
  c = false -> reads m' bs a -> reads (if c then m else m') bs a.
Proof. by intros ->. Qed.

Lemma reads_switch_hit {S A} `{!HasReader S} v ls (m : M S A) cs d bs a :
  existsb (Z.eqb v) ls = true -> reads m bs a -> reads (switch v ((ls, m) :: cs) d) bs a.
Proof. cbn. by intros ->. Qed.

Lemma reads_switch_skip {S A} `{!HasReader S} v ls (m : M S A) cs d bs a :
  existsb (Z.eqb v) ls = false -> reads (switch v cs d) bs a ->
  reads (switch v ((ls, m) :: cs) d) bs a.
Proof. cbn. by intros ->. Qed.

Lemma reads_bind_nil {S A B} `{!HasReader S} (m : M S A) (k : A -> M S B) bs a b :
  reads m [] a -> reads (k a) bs b -> reads (m ≫= k) bs b.
Proof. apply (reads_bind m k []). Qed.

Lemma reads_assoc {S A B C} `{!HasReader S} (m : M S A) (k : A -> M S B) (h : B -> M S C) bs c :
  reads (m ≫= fun a => k a ≫= h) bs c -> reads ((m ≫= k) ≫= h) bs c.
Proof. intros H s tl Hwf Hr. rewrite bind_assoc. by eapply H. Qed.

Lemma reads_opt {S} `{!HasReader S} v k t (m : M S unit) b :
  0 <= k -> enc_opt (Z.testbit v k) t b -> (enc t b -> reads m b tt) ->
  reads (when (flag v k) m) b tt.
Proof.
  intros Hk Ho Hm. rewrite flag_testbit by done. apply reads_when; intros E; rewrite E in Ho.
  - inversion Ho; subst. auto.
  - by inversion Ho.
Qed.

(** Two fields under the same flag, skipped by one conditional. *)
Lemma reads_opt2 {S} `{!HasReader S} v k t1 t2 (m : M S unit) b1 b2 :
  0 <= k -> enc_opt (Z.testbit v k) t1 b1 -> enc_opt (Z.testbit v k) t2 b2 ->
  (enc t1 b1 -> enc t2 b2 -> reads m (b1 ++ b2) tt) ->
  reads (when (flag v k) m) (b1 ++ b2) tt.
Proof.
  intros Hk H1 H2 Hm. rewrite flag_testbit by done.
  apply reads_when; intros E; rewrite E in H1, H2.
  - inversion H1; subst. inversion H2; subst. auto.
  - inversion H1; subst. by inversion H2.
Qed.

Lemma reads_vector_body m bss :
  zlen bss < 2 ^ 32 -> Forall (fun b => reads m b tt) bss ->
  reads (vector_body m) (enc32 TL_vector ++ enc32 (zlen bss) ++ concat bss) tt.
Proof.
  intros Hn Hall. unfold vector_body. pose proof (zlen_nonneg bss).
  eapply reads_bind; [by apply reads_uint32|]. apply reads_check; [done|].
  eapply reads_bind; [apply reads_uint32; unfold is_u32; lia|].
  by apply reads_for_n.
Qed.

Lemma reads_vector_of m t bs :
  (forall b, zlen b < zlen bs -> enc t b -> reads m b tt) -> enc (TVec t) bs ->
  reads (vector_of m) bs tt.
Proof.
  intros Hm H. apply enc_vec_inv in H as (bss & Hn & Hall & ->).
  apply reads_need; [autorewrite with zlen; pose proof (zlen_nonneg (concat bss)); lia|].
  apply reads_vector_body; [done|]. rewrite Forall_forall in Hall |- *. intros b Hb.
  apply Hm; [|by apply Hall]. apply concat_elem_len in Hb.
  autorewrite with zlen. lia.
Qed.

Lemma reads_vector_ok_of m t bs :
  (forall b, zlen b < zlen bs -> enc t b -> reads m b tt) -> enc (TVec t) bs ->
  reads (vector_ok_of m) bs tt.
Proof.
  intros Hm H. apply enc_vec_inv in H as (bss & Hn & Hall & ->).
  apply reads_need_ok; [autorewrite with zlen; pose proof (zlen_nonneg (concat bss)); lia|].
  apply reads_vector_body; [done|]. rewrite Forall_forall in Hall |- *. intros b Hb.
  apply Hm; [|by apply Hall]. apply concat_elem_len in Hb.
  autorewrite with zlen. lia.
Qed.

(** Vectors of fixed-width words, whose payload is checked before the loop. *)
Lemma concat_words n (bss : list (list byte)) :
  Forall (fun b => zlen b = n) bss -> zlen (concat bss) = zlen bss * n.
Proof. induction 1 as [|b bss Hb _ IH]; [done|]. cbn [concat]. autorewrite with zlen. lia. Qed.

Lemma reads_words_body (w : Z) (m : Rd unit) bss :
  0 < w <= 8 -> zlen bss < 2 ^ 32 -> (forall b, zlen b = w -> reads m b tt) ->
  Forall (enc (TBare w)) bss ->
  reads (need (u64 (zlen bss * w)) ;; for_n (zlen bss) m) (concat bss) tt.
Proof.
  intros Hw Hn Hm Hall. pose proof (zlen_nonneg bss).
  assert (Hl : Forall (fun b => zlen b = w) bss)
    by (eapply Forall_impl; [intros b; apply enc_bare_inv|exact Hall]).
  rewrite u64_id by (unfold is_u64; nia).
  destruct (decide (bss = [])) as [->|Hne].
  - change (concat [] : list byte) with ([] ++ [] : list byte).
    eapply reads_bind; [|apply reads_ret]. intros r tl Hwf _. unfold need, fail_if.
    rewrite (proj2 (Z.ltb_ge _ _)) by apply u64_range. by rewrite adv_0.
  - assert (0 < zlen bss) by (destruct bss; [done|]; rewrite zlen_cons; pose proof (zlen_nonneg bss); lia).
    apply reads_need; [rewrite (concat_words w) by done; nia|].
    apply reads_for_n; [done|]. eapply Forall_impl; [exact Hm|exact Hl].
Qed.

Lemma reads_int_vector bs : enc (TVec int) bs -> reads skip_int_vector bs tt.
Proof.
  intros H. apply enc_vec_inv in H as (bss & Hn & Hall & ->). unfold skip_int_vector.
  pose proof (zlen_nonneg (concat bss)). pose proof (zlen_nonneg bss).
  apply reads_need; [autorewrite with zlen; lia|].
  eapply reads_bind; [by apply reads_uint32|]. apply reads_check; [done|].
  eapply reads_bind; [apply reads_uint32; unfold is_u32; lia|].
  apply reads_words_body; [lia|done|apply reads_skip_int32|done].
Qed.

Lemma reads_long_vector bs : enc (TVec long) bs -> reads skip_long_vector bs tt.
Proof.
  intros H. apply enc_vec_inv in H as (bss & Hn & Hall & ->). unfold skip_long_vector.
  pose proof (zlen_nonneg (concat bss)). pose proof (zlen_nonneg bss).
  apply reads_need; [autorewrite with zlen; lia|].
  eapply reads_bind; [by apply reads_uint32|]. apply reads_check; [done|].
  eapply reads_bind; [apply reads_uint32; unfold is_u32; lia|].
  apply reads_words_body; [lia|done|apply reads_skip_int64|done].
Qed.

Lemma reads_user_vector bs : enc (TVecMax 4096 long) bs -> reads skip_user_vector bs tt.
Proof.
  intros H. apply enc_vec_max_inv in H as (bss & Hn & Hall & ->). unfold skip_user_vector.
  pose proof (zlen_nonneg (concat bss)). pose proof (zlen_nonneg bss).
  apply reads_need; [autorewrite with zlen; lia|].
  eapply reads_bind; [by apply reads_uint32|]. apply reads_check; [done|].
  eapply reads_bind; [apply reads_uint32; unfold is_u32; lia|].
  apply reads_check; [apply Z.leb_le; lia|].
  apply reads_words_body; [lia|lia|apply reads_skip_int64|done].
Qed.

Lemma reads_fuelled {S A} `{!HasReader S} (f : nat -> M S A) bs a :
  (forall n, zlen bs < Z.of_nat n -> reads (f n) bs a) -> reads (fuelled f) bs a.
Proof.
  intros Hf s tl Hwf Hr. unfold fuelled. apply (Hf _) with (tl := tl); [|done|done].
  rewrite <- rest_len, Hr, zlen_app by done. pose proof (zlen_nonneg bs).
  pose proof (zlen_nonneg tl). lia.
Qed.

#[export] Hint Resolve reads_skip_int32 reads_skip_uint32 reads_skip_int64 reads_skip_double
  reads_int_field reads_long_field reads_skip_string zlen_enc32
  reads_int_vector reads_long_vector reads_user_vector : tl_consume.

(** ** Automation *)

(** Solve [n <= zlen (pieces)]. *)
Ltac solve_len :=
  autorewrite with zlen;
  repeat match goal with
  | |- context [zlen (enc_bytes ?d)] =>
      lazymatch goal with
      | _ : 4 <= zlen (enc_bytes d) |- _ => fail
      | _ => pose proof (enc_bytes_ge4 d)
      end
  | |- context [zlen ?b] =>
      lazymatch goal with
      | _ : 0 <= zlen b |- _ => fail
      | _ => pose proof (zlen_nonneg b)
      end
  end; lia.

Ltac solve_u32 :=
  first [ assumption
        | split; [apply Z.leb_le; reflexivity | apply Z.ltb_lt; reflexivity] ].

(** Split an encoding into its pieces. *)
Ltac inv_step :=
  match goal with
  | H : enc_fields _ [] _ |- _ => apply ef_nil_inv in H; subst
  | H : enc_fields _ (FFlags :: _) _ |- _ =>
      apply ef_flags_inv in H as (? & ? & -> & ? & H); cbn [app] in H
  | H : enc_fields _ (FReq _ :: _) _ |- _ => apply ef_req_inv in H as (? & ? & -> & ? & H)
  | H : enc_fields _ (FOpt _ _ _ :: _) _ |- _ =>
      apply ef_opt_inv in H as (? & ? & -> & ? & H)
  | H : enc (TBare _) _ |- _ => apply enc_bare_inv in H
  | H : enc TBytes _ |- _ => apply enc_str_inv in H as (? & -> & ?)
  end.

(** Case split on the constructor, then on its fields. *)
Ltac inv_ctor H :=
  apply enc_ref_inv in H as (? & ? & -> & H & ?);
  cbn [schema schema_base schema_parts schema_media schema_chat schema_page schema_message
       ctors map app In] in H;
  repeat (destruct H as [<-|H]); try contradiction;
  cbn [c_id c_fields] in *;
  unfold ref, str, opt, opt2, int, long, double in *;
  repeat inv_step; cbn [nth] in *; rewrite ?app_nil_r.

(** Lower bounds of the lengths the context and the goal mention. *)
Ltac pose_lens :=
  repeat match goal with
  | H : context [zlen ?b] |- _ =>
      is_var b;
      lazymatch goal with
      | _ : 0 <= zlen b |- _ => fail
      | _ => pose proof (zlen_nonneg b)
      end
  | H : context [zlen (enc_bytes ?d)] |- _ =>
      lazymatch goal with
      | _ : 4 <= zlen (enc_bytes d) |- _ => fail
      | _ => pose proof (enc_bytes_ge4 d)
      end
  end.

(** The recursive call of a depth-bounded walker: the piece is shorter. *)
Ltac reads_rec :=
  match goal with
  | IH : forall bs, zlen bs < Z.of_nat ?n -> _ |- reads _ ?b _ =>
      apply IH; [autorewrite with zlen in *; pose_lens; lia | assumption]
  | IH : forall bs, zlen bs <= Z.of_nat ?n -> _ |- reads _ ?b _ =>
      apply IH; [autorewrite with zlen in *; pose_lens; lia | assumption]
  end.

(** A leaf: a primitive or a skipper whose refinement is known. *)
Ltac reads_leaf :=
  rewrite ?app_nil_r;
  first [ solve [ eauto with tl_consume ] | reads_rec ].

Ltac reads_step :=
  lazymatch goal with
  | |- forall _, _ => intros; repeat inv_step
  | |- reads (need_ok _ ≫= _) _ _ => apply reads_need_ok; [solve_len|]
  | |- reads (need _ ≫= _) _ _ => first [apply reads_need; [solve_len|] | reads_leaf]
  | |- reads (check _ ≫= _) _ _ => apply reads_check; [reflexivity|]
  | |- reads (tl_read_uint32 ≫= _) (enc32 _ ++ _) _ =>
      eapply reads_bind; [apply reads_uint32; solve_u32|]; cbn beta
  | |- reads (tl_read_uint32 ≫= _) (enc32 ?v) _ => rewrite <- (app_nil_r (enc32 v))
  | |- reads (switch _ _ _) _ _ =>
      first [ apply reads_switch_hit; [reflexivity|]
            | apply reads_switch_skip; [reflexivity|] ]
  | |- reads (if _ then _ else _) _ _ =>
      first [ apply reads_if_true; [reflexivity|] | apply reads_if_false; [reflexivity|] ]
  | |- reads (mret _) [] _ => apply reads_ret
  | |- reads (when (?c && _) _) _ _ =>
      let v := eval vm_compute in c in change c with v; cbn [andb]
  | |- reads (when false _) [] _ => apply reads_ret
  | |- reads (mret _ ≫= _) _ _ => eapply reads_bind_nil; [apply reads_ret|]; cbn beta
  | |- reads (times _ _ ≫= _) _ _ => unfold times; cbn [repeat_nat]
  | |- reads ((_ ≫= _) ≫= _) _ _ => apply reads_assoc; cbn beta
  | |- reads (switch _ _ _ ≫= _) _ _ =>
      eapply reads_bind_nil; [solve [repeat reads_step]|]; cbn beta
  | |- reads (when true ?m ≫= _) _ _ => change (when true m) with m
  | |- reads (when false _ ≫= _) _ _ => eapply reads_bind_nil; [apply reads_ret|]
  | |- reads (when (flag _ _) _ ≫= _) (_ ++ _) _ =>
      first
        [ eapply reads_bind; [eapply reads_opt; [lia|eassumption|solve [reads_solve]]|]
        | rewrite app_assoc; eapply reads_bind;
          [eapply reads_opt2; [lia|eassumption|eassumption|solve [reads_solve]]|] ]
  | |- reads (when (flag _ _) _) _ _ =>
      first
        [ eapply reads_opt; [lia|eassumption|solve [reads_solve]]
        | eapply reads_opt2; [lia|eassumption|eassumption|solve [reads_solve]] ]
  | |- reads (times _ _) _ _ => unfold times; cbn [repeat_nat]
  | |- reads (vector_of _) _ _ => eapply reads_vector_of; [|eassumption]
  | |- reads (vector_ok_of _) _ _ => eapply reads_vector_ok_of; [|eassumption]
  | |- reads (_ ≫= _) (_ ++ _) _ => eapply reads_bind; [solve [reads_solve]|]; cbn beta iota zeta
  | |- reads (_ ≫= _) ?b _ => rewrite <- (app_nil_r b)
  | |- reads _ _ _ => reads_leaf
  end
with reads_solve := intros; repeat inv_step; repeat reads_step.

Ltac refine_skip H := inv_ctor H; repeat reads_step.
