(* ===== verification/TlRefineBase.v ===== *)
(** * Refinement of the schema: base types and message parts

    One lemma per type: in front of an encoding of the type, its skipper
    succeeds and stops exactly behind it. *)

From S2P Require Import Prelude TlSerial TlLogic TlCrc TlSchema TlSkipBase TlSkipParts.
From S2P Require Import TlSkipMedia TlSkipChat TlSkipPage TlSkipMessage TlRefine.

(** ** Peers, notification settings, entities, polls *)

Lemma reads_Bool bs : enc (TRef Bool) bs -> reads tl_skip_bool bs tt.
Proof. intros H. unfold tl_skip_bool. refine_skip H. Qed.

(** A Bool skipped as a plain word. *)
Lemma reads_Bool_word bs : enc (TRef Bool) bs -> reads (need 4 ;; skip_uint32) bs tt.
Proof. intros H. refine_skip H. Qed.
#[export] Hint Resolve reads_Bool reads_Bool_word : tl_consume.

Lemma reads_Peer bs : enc (TRef Peer) bs -> reads tl_skip_peer bs tt.
Proof. intros H. unfold tl_skip_peer. refine_skip H. Qed.
#[export] Hint Resolve reads_Peer : tl_consume.

Lemma reads_NotificationSound bs :
  enc (TRef NotificationSound) bs -> reads tl_skip_notification_sound bs tt.
Proof. intros H. unfold tl_skip_notification_sound. refine_skip H. Qed.
#[export] Hint Resolve reads_NotificationSound : tl_consume.

Lemma reads_PeerNotifySettings bs :
  enc (TRef PeerNotifySettings) bs -> reads tl_skip_peer_notify_settings bs tt.
Proof. intros H. unfold tl_skip_peer_notify_settings. refine_skip H. Qed.
#[export] Hint Resolve reads_PeerNotifySettings : tl_consume.

Lemma reads_MessageEntity bs : enc (TRef MessageEntity) bs -> reads tl_skip_message_entity bs tt.
Proof. intros H. unfold tl_skip_message_entity. refine_skip H. Qed.
#[export] Hint Resolve reads_MessageEntity : tl_consume.

Lemma reads_entities bs :
  enc (TVec (TRef MessageEntity)) bs -> reads tl_skip_message_entities_vector bs tt.
Proof. intros H. unfold tl_skip_message_entities_vector. reads_solve. Qed.
#[export] Hint Resolve reads_entities : tl_consume.

Lemma reads_TextWithEntities bs :
  enc (TRef TextWithEntities) bs -> reads skip_text_with_entities bs tt.
Proof. intros H. unfold skip_text_with_entities. refine_skip H. Qed.
#[export] Hint Resolve reads_TextWithEntities : tl_consume.

Lemma reads_PollAnswer bs : enc (TRef PollAnswer) bs -> reads skip_poll_answer bs tt.
Proof. intros H. unfold skip_poll_answer. refine_skip H. Qed.
#[export] Hint Resolve reads_PollAnswer : tl_consume.

Lemma reads_Poll bs : enc (TRef Poll) bs -> reads skip_poll bs tt.
Proof. intros H. unfold skip_poll. refine_skip H. Qed.
#[export] Hint Resolve reads_Poll : tl_consume.

Lemma reads_PollAnswerVoters bs :
  enc (TRef PollAnswerVoters) bs -> reads skip_poll_answer_voters bs tt.
Proof. intros H. unfold skip_poll_answer_voters. refine_skip H. Qed.
#[export] Hint Resolve reads_PollAnswerVoters : tl_consume.

Lemma reads_PollResults bs : enc (TRef PollResults) bs -> reads skip_poll_results bs tt.
Proof. intros H. unfold skip_poll_results. refine_skip H. Qed.
#[export] Hint Resolve reads_PollResults : tl_consume.

(** ** Input objects and drafts *)

Lemma reads_InputPeer_rec n bs :
  zlen bs < Z.of_nat n -> enc (TRef InputPeer) bs -> reads (skip_input_peer_rec n) bs tt.
Proof.
  revert bs. induction n as [|n IH]; intros bs Hn H; [pose_lens; lia|].
  cbn [skip_input_peer_rec]. refine_skip H.
Qed.

Lemma reads_InputPeer bs : enc (TRef InputPeer) bs -> reads skip_input_peer bs tt.
Proof. intros H. apply reads_fuelled. intros n Hn. by apply reads_InputPeer_rec. Qed.
#[export] Hint Resolve reads_InputPeer : tl_consume.

Lemma reads_InputGeoPoint bs : enc (TRef InputGeoPoint) bs -> reads skip_input_geo_point bs tt.
Proof. intros H. unfold skip_input_geo_point. refine_skip H. Qed.
#[export] Hint Resolve reads_InputGeoPoint : tl_consume.

Lemma reads_InputPhoto bs : enc (TRef InputPhoto) bs -> reads skip_input_photo bs tt.
Proof. intros H. unfold skip_input_photo. refine_skip H. Qed.
#[export] Hint Resolve reads_InputPhoto : tl_consume.

Lemma reads_InputDocument bs : enc (TRef InputDocument) bs -> reads skip_input_document bs tt.
Proof. intros H. unfold skip_input_document. refine_skip H. Qed.
#[export] Hint Resolve reads_InputDocument : tl_consume.

Lemma reads_InputUser bs : enc (TRef InputUser) bs -> reads skip_input_user bs tt.
Proof. intros H. unfold skip_input_user. refine_skip H. Qed.
#[export] Hint Resolve reads_InputUser : tl_consume.

Lemma reads_InputGame bs : enc (TRef InputGame) bs -> reads skip_input_game bs tt.
Proof. intros H. unfold skip_input_game. refine_skip H. Qed.
#[export] Hint Resolve reads_InputGame : tl_consume.

Lemma reads_InputMedia_rec n bs :
  zlen bs < Z.of_nat n -> enc (TRef InputMedia) bs -> reads (skip_input_media_rec n) bs tt.
Proof.
  revert bs. induction n as [|n IH]; intros bs Hn H; [pose_lens; lia|].
  cbn [skip_input_media_rec]. refine_skip H.
Qed.

Lemma reads_InputMedia bs : enc (TRef InputMedia) bs -> reads skip_input_media bs tt.
Proof. intros H. apply reads_fuelled. intros n Hn. by apply reads_InputMedia_rec. Qed.
#[export] Hint Resolve reads_InputMedia : tl_consume.

Lemma reads_InputReplyTo bs : enc (TRef InputReplyTo) bs -> reads skip_input_reply_to bs tt.
Proof. intros H. unfold skip_input_reply_to. refine_skip H. Qed.
#[export] Hint Resolve reads_InputReplyTo : tl_consume.

Lemma reads_DraftMessage bs : enc (TRef DraftMessage) bs -> reads tl_skip_draft_message bs tt.
Proof. intros H. unfold tl_skip_draft_message. refine_skip H. Qed.
#[export] Hint Resolve reads_DraftMessage : tl_consume.

(** ** Reply markup, reactions, replies, fact checks, forward headers *)

Lemma reads_peer_types bs :
  enc (TVec (TRef InlineQueryPeerType)) bs -> reads skip_inline_query_peer_type_vector bs tt.
Proof.
  intros H. eapply reads_vector_ok_of; [|exact H]. intros b _ Hb. refine_skip Hb.
Qed.
#[export] Hint Resolve reads_peer_types : tl_consume.

Lemma reads_KeyboardButton bs : enc (TRef KeyboardButton) bs -> reads skip_keyboard_button bs tt.
Proof. intros H. unfold skip_keyboard_button. refine_skip H. Qed.
#[export] Hint Resolve reads_KeyboardButton : tl_consume.

Lemma reads_KeyboardButtonRow bs : enc (TRef KeyboardButtonRow) bs -> reads skip_keyboard_button_row bs tt.
Proof. intros H. unfold skip_keyboard_button_row. refine_skip H. Qed.
#[export] Hint Resolve reads_KeyboardButtonRow : tl_consume.

Lemma reads_button_rows bs : enc (TVec (TRef KeyboardButtonRow)) bs -> reads skip_button_row_vector bs tt.
Proof. intros H. unfold skip_button_row_vector. reads_solve. Qed.
#[export] Hint Resolve reads_button_rows : tl_consume.

Lemma reads_ReplyMarkup bs : enc (TRef ReplyMarkup) bs -> reads tl_skip_reply_markup bs tt.
Proof. intros H. unfold tl_skip_reply_markup. refine_skip H. Qed.
#[export] Hint Resolve reads_ReplyMarkup : tl_consume.

Lemma reads_Reaction bs : enc (TRef Reaction) bs -> reads skip_reaction bs tt.
Proof. intros H. unfold skip_reaction. refine_skip H. Qed.
#[export] Hint Resolve reads_Reaction : tl_consume.

Lemma reads_ReactionCount bs : enc (TRef ReactionCount) bs -> reads skip_reaction_count bs tt.
Proof. intros H. unfold skip_reaction_count. refine_skip H. Qed.
#[export] Hint Resolve reads_ReactionCount : tl_consume.

Lemma reads_MessagePeerReaction bs : enc (TRef MessagePeerReaction) bs -> reads skip_message_peer_reaction bs tt.
Proof. intros H. unfold skip_message_peer_reaction. refine_skip H. Qed.
#[export] Hint Resolve reads_MessagePeerReaction : tl_consume.

Lemma reads_MessageReactor bs : enc (TRef MessageReactor) bs -> reads skip_message_reactor bs tt.
Proof. intros H. unfold skip_message_reactor. refine_skip H. Qed.
#[export] Hint Resolve reads_MessageReactor : tl_consume.

Lemma reads_MessageReactions bs : enc (TRef MessageReactions) bs -> reads tl_skip_message_reactions bs tt.
Proof. intros H. unfold tl_skip_message_reactions. refine_skip H. Qed.
#[export] Hint Resolve reads_MessageReactions : tl_consume.

Lemma reads_MessageReplies bs : enc (TRef MessageReplies) bs -> reads tl_skip_message_replies bs tt.
Proof. intros H. unfold tl_skip_message_replies. refine_skip H. Qed.
#[export] Hint Resolve reads_MessageReplies : tl_consume.

(** The TextWithEntities of a fact check, skipped in line. *)
Lemma reads_TextWithEntities_word bs :
  enc (TRef TextWithEntities) bs ->
  reads (need 4 ;;
         twe_crc ← tl_read_uint32;
         check (twe_crc =? CRC_textWithEntities) ;;
         tl_skip_string ;;
         tl_skip_message_entities_vector) bs tt.
Proof. intros H. refine_skip H. Qed.
#[export] Hint Resolve reads_TextWithEntities_word : tl_consume.

Lemma reads_FactCheck bs : enc (TRef FactCheck) bs -> reads tl_skip_factcheck bs tt.
Proof. intros H. unfold tl_skip_factcheck. refine_skip H. Qed.
#[export] Hint Resolve reads_FactCheck : tl_consume.

Lemma reads_MessageFwdHeader bs : enc (TRef MessageFwdHeader) bs -> reads tl_skip_message_fwd_header bs tt.
Proof. intros H. unfold tl_skip_message_fwd_header. refine_skip H. Qed.
#[export] Hint Resolve reads_MessageFwdHeader : tl_consume.

Lemma reads_PhotoSize bs : enc (TRef PhotoSize) bs -> reads tl_skip_photo_size bs tt.
Proof. intros H. unfold tl_skip_photo_size. refine_skip H. Qed.
#[export] Hint Resolve reads_PhotoSize : tl_consume.

Lemma reads_photo_sizes bs : enc (TVec (TRef PhotoSize)) bs -> reads tl_skip_photo_size_vector bs tt.
Proof. intros H. unfold tl_skip_photo_size_vector. reads_solve. Qed.
#[export] Hint Resolve reads_photo_sizes : tl_consume.
