(* ===== verification/TlRefineMedia.v ===== *)
(** * Refinement of the schema: functions with an out parameter

    [walks m bs a] is the consumption judgement for a function that also
    fills a caller's object: whatever the object holds, [m] stops behind
    [bs], and a [NULL] object stays [NULL].  With it the photo, document,
    chat and user walkers refine the schema as the plain skippers do. *)

From S2P Require Import Prelude TlSerial TlLogic TlCrc TlSchema TlSkipBase TlSkipParts.
From S2P Require Import TlSkipMedia TlSkipChat TlSkipPage TlSkipMessage TlRefine TlRefineBase.

(** ** The judgement and its rules *)

Definition walks {T A} (m : M (TlReader * option T) A) (bs : list byte) (a : A) : Prop :=
  forall r tl o, reader_wf r -> rest r = bs ++ tl ->
    exists o', m (r, o) = Done a (adv r (zlen bs), o') /\ (o = None <-> o' = None).

Section Walks.
Context {T : Type}.
Implicit Types m : M (TlReader * option T) unit.

Lemma walks_ret {A} (a : A) : walks (T:=T) (mret a) [] a.
Proof. intros r tl o _ _. exists o. by rewrite zlen_nil, adv_0. Qed.

Lemma walks_bind {A B} (m : M (TlReader * option T) A) (k : A -> M (TlReader * option T) B)
    bs cs a b :
  walks m bs a -> walks (k a) cs b -> walks (m ≫= k) (bs ++ cs) b.
Proof.
  intros Hm Hk r tl o Hwf Hr. rewrite <- app_assoc in Hr.
  destruct (Hm r _ o Hwf Hr) as (o1 & E1 & N1).
  destruct (Hk (adv r (zlen bs)) tl o1) as (o2 & E2 & N2);
    [by eapply adv_wf|by eapply rest_adv|].
  exists o2. rewrite (bind_Done _ _ _ _ _ E1), E2, adv_adv, zlen_app. tauto.
Qed.

Lemma walks_lift {A} (m : Rd A) bs a : reads m bs a -> walks (T:=T) (lift m) bs a.
Proof.
  intros Hm r tl o Hwf Hr. exists o. unfold lift. cbn [fst snd]. by erewrite Hm.
Qed.

Lemma walks_lift_bind {A B C} (m : Rd A) (k : A -> Rd B) (h : B -> M (TlReader * option T) C)
    bs c :
  walks (lift m ≫= fun a => lift (k a) ≫= h) bs c -> walks (lift (m ≫= k) ≫= h) bs c.
Proof.
  intros H r tl o Hwf Hr. destruct (H r tl o Hwf Hr) as (o' & E & N). exists o'.
  split; [|done]. rewrite <- E. unfold lift, mbind, M_bind. cbn [fst snd]. by destruct (m r).
Qed.

Lemma walks_upd (f : T -> T) : walks (upd_out f) [] tt.
Proof.
  intros r tl o _ _. exists (f <$> o). rewrite zlen_nil, adv_0. split; [done|by destruct o].
Qed.

Lemma walks_need {A} n (m : M (TlReader * option T) A) bs a :
  0 < n <= zlen bs -> walks m bs a -> walks (lift (need n) ;; m) bs a.
Proof.
  intros Hn Hm r tl o Hwf Hr. destruct (Hm r tl o Hwf Hr) as (o' & E & N). exists o'.
  split; [|done]. rewrite <- E. apply (bind_Done _ (fun _ => m) _ tt). unfold lift, need, fail_if. cbn [fst snd].
  destruct (remaining_at r bs tl Hwf Hr); [lia|]. by rewrite (proj2 (Z.ltb_ge _ _)) by lia.
Qed.

Lemma walks_need_ok {A} n (m : M (TlReader * option T) A) bs a :
  0 < n <= zlen bs -> walks m bs a -> walks (lift (need_ok n) ;; m) bs a.
Proof.
  intros Hn Hm r tl o Hwf Hr. destruct (Hm r tl o Hwf Hr) as (o' & E & N). exists o'.
  split; [|done]. rewrite <- E. apply (bind_Done _ (fun _ => m) _ tt). unfold lift, need_ok, fail_if. cbn [fst snd].
  destruct (remaining_at r bs tl Hwf Hr) as [-> ?]; [lia|].
  by rewrite (proj2 (Z.ltb_ge _ _)) by lia.
Qed.

Lemma walks_check {A} c (m : M (TlReader * option T) A) bs a :
  c = true -> walks m bs a -> walks (lift (check c) ;; m) bs a.
Proof. intros -> Hm. exact Hm. Qed.

Lemma walks_if_true {A} (c : bool) (m m' : M (TlReader * option T) A) bs a :
  c = true -> walks m bs a -> walks (if c then m else m') bs a.
Proof. by intros ->. Qed.

Lemma walks_if_false {A} (c : bool) (m m' : M (TlReader * option T) A) bs a :
  c = false -> walks m' bs a -> walks (if c then m else m') bs a.
Proof. by intros ->. Qed.

Lemma walks_switch_hit {A} v ls (m : M (TlReader * option T) A) cs d bs a :
  existsb (Z.eqb v) ls = true -> walks m bs a -> walks (switch v ((ls, m) :: cs) d) bs a.
Proof. cbn. by intros ->. Qed.

Lemma walks_switch_skip {A} v ls (m : M (TlReader * option T) A) cs d bs a :
  existsb (Z.eqb v) ls = false -> walks (switch v cs d) bs a ->
  walks (switch v ((ls, m) :: cs) d) bs a.
Proof. cbn. by intros ->. Qed.

Lemma walks_opt v k t m b :
  0 <= k -> enc_opt (Z.testbit v k) t b -> (enc t b -> walks m b tt) ->
  walks (when (flag v k) m) b tt.
Proof.
  intros Hk Ho Hm. rewrite flag_testbit by done. unfold when.
  destruct (Z.testbit v k); inversion Ho; subst; [auto|apply walks_ret].
Qed.

Lemma walks_for_n m n bss :
  n = zlen bss -> Forall (fun bs => walks m bs tt) bss -> walks (for_n n m) (concat bss) tt.
Proof.
  intros -> Hm. assert (walks (repeat_nat (length bss) m) (concat bss) tt) as Hw.
  { induction Hm as [|bs bss Hb _ IH]; [apply walks_ret|]. cbn. by eapply walks_bind. }
  intros r tl o Hwf Hr. rewrite for_n_nat. unfold zlen at 1. rewrite Nat2Z.id. by eapply Hw.
Qed.

Lemma walks_null {A} (m : M (TlReader * option T) A) bs a :
  walks m bs a -> reads (with_null m) bs a.
Proof.
  intros Hm r tl Hwf Hr. destruct (Hm r tl None Hwf Hr) as (o' & E & _).
  unfold with_null. by rewrite E.
Qed.

End Walks.

(** Any eight bytes are read as some long, any four as some int. *)
Lemma reads_int64_any b : zlen b = 8 -> reads tl_read_int64 b (s64 (u64 (le_combine b))).
Proof. intros H. rewrite <- (enc64_any b H) at 1. apply reads_map, reads_le64. Qed.

Lemma reads_int32_any b : zlen b = 4 -> reads tl_read_int32 b (s32 (u32 (le_combine b))).
Proof. intros H. rewrite <- (enc32_any b H) at 1. apply reads_map, reads_le32. Qed.

Lemma reads_string d : zlen d < 2 ^ 24 -> reads tl_read_string (enc_bytes d) (Some d).
Proof. apply reads_bytes. Qed.

Lemma reads_string_or_restore d : zlen d < 2 ^ 24 -> reads read_string_or_restore (enc_bytes d) d.
Proof.
  intros Hd r tl Hwf Hr. unfold read_string_or_restore, tl_read_string.
  by erewrite (reads_bytes d Hd).
Qed.

#[export] Hint Resolve reads_int64_any reads_int32_any reads_string reads_string_or_restore
  : tl_consume.

Lemma walks_file_reference d : zlen d < 2 ^ 24 -> walks read_file_reference (enc_bytes d) tt.
Proof.
  intros Hd. unfold read_file_reference. rewrite <- (app_nil_r (enc_bytes d)).
  eapply walks_bind; [by apply walks_lift, reads_bytes|apply walks_upd].
Qed.

Lemma walks_string_field {T} (set : list byte -> T -> T) cap d :
  zlen d < 2 ^ 24 -> walks (string_field set cap) (enc_bytes d) tt.
Proof.
  intros Hd r tl o Hwf Hr. unfold string_field. rewrite (bind_Done _ _ _ o (r, o)) by done.
  destruct o as [t|].
  - exists (Some (set (copy_trunc cap d) t)). split; [|done]. unfold read_string_into.
    erewrite bind_Done; [|unfold lift; cbn [fst snd]; by erewrite (reads_string d Hd)]. done.
  - exists None. split; [|done]. unfold lift. cbn [fst snd].
    by erewrite (reads_skip_string d Hd).
Qed.

#[export] Hint Resolve walks_ret walks_upd walks_file_reference walks_string_field : tl_consume.

(** ** Automation *)

Ltac walks_leaf :=
  rewrite ?app_nil_r;
  first [ solve [ eauto with tl_consume ]
        | apply walks_lift; solve [ reads_solve ] ].

Ltac walks_step :=
  lazymatch goal with
  | |- forall _, _ => intros; repeat inv_step
  | |- walks (lift (need_ok _) ≫= _) _ _ => apply walks_need_ok; [solve_len|]
  | |- walks (lift (need _) ≫= _) _ _ => first [apply walks_need; [solve_len|] | walks_leaf]
  | |- walks (lift (check _) ≫= _) _ _ => apply walks_check; [reflexivity|]
  | |- walks (upd_out _ ≫= _) ?b _ =>
      change b with ([] ++ b); eapply walks_bind; [apply walks_upd|]; cbn beta
  | |- walks (lift tl_read_uint32 ≫= _) (enc32 _ ++ _) _ =>
      eapply walks_bind; [apply walks_lift, reads_uint32; solve_u32|]; cbn beta
  | |- walks (switch _ _ _) _ _ =>
      first [ apply walks_switch_hit; [reflexivity|]
            | apply walks_switch_skip; [reflexivity|] ]
  | |- walks (if _ then _ else _) _ _ =>
      first [ apply walks_if_true; [reflexivity|] | apply walks_if_false; [reflexivity|] ]
  | |- walks (when (flag _ _) _ ≫= _) (_ ++ _) _ =>
      eapply walks_bind; [eapply walks_opt; [lia|eassumption|solve [walks_solve]]|]
  | |- walks (when (flag _ _) _) _ _ => eapply walks_opt; [lia|eassumption|solve [walks_solve]]
  | |- walks (lift ?m ≫= _) (_ ++ _) _ =>
      first [ eapply walks_bind; [walks_leaf|]; cbn beta
            | apply walks_lift_bind; cbn beta ]
  | |- walks (_ ≫= _) (_ ++ _) _ => eapply walks_bind; [walks_leaf|]; cbn beta
  | |- walks (_ ≫= _) ?b _ => rewrite <- (app_nil_r b)
  | |- walks _ _ _ => walks_leaf
  end
with walks_solve := intros; repeat inv_step; repeat walks_step.

Ltac refine_walk H := inv_ctor H; repeat walks_step.

(** ** Sticker sets, video sizes, photos *)

Lemma reads_InputStickerSet bs :
  enc (TRef InputStickerSet) bs -> reads skip_input_sticker_set bs tt.
Proof. intros H. unfold skip_input_sticker_set. refine_skip H. Qed.
#[export] Hint Resolve reads_InputStickerSet : tl_consume.

Lemma reads_MaskCoords bs : enc (TRef MaskCoords) bs -> reads skip_mask_coords bs tt.
Proof. intros H. unfold skip_mask_coords. refine_skip H. Qed.
#[export] Hint Resolve reads_MaskCoords : tl_consume.

Lemma reads_VideoSize bs : enc (TRef VideoSize) bs -> reads skip_video_size bs tt.
Proof. intros H. unfold skip_video_size. refine_skip H. Qed.
#[export] Hint Resolve reads_VideoSize : tl_consume.

Lemma reads_video_sizes bs : enc (TVec (TRef VideoSize)) bs -> reads skip_video_size_vector bs tt.
Proof. intros H. unfold skip_video_size_vector. reads_solve. Qed.
#[export] Hint Resolve reads_video_sizes : tl_consume.

(** *** The size loop of a photo *)

(** The score and the label [walk_photo_size_vector] sees in a PhotoSize. *)
Lemma reads_walk_photo_size bs :
  enc (TRef PhotoSize) bs -> exists st, reads walk_photo_size bs st.
Proof.
  intros H. unfold walk_photo_size. inv_ctor H; eexists; repeat reads_step.
Qed.

(** What one round of the loop does to the best score and the caller's
    object: a strictly better size replaces the label. *)
Definition pick (acc : Z * option MediaInfo) (st : Z * list byte) : Z * option MediaInfo :=
  match snd acc with
  | Some m => if fst acc <? fst st
              then (fst st, Some (set_thumb_type (copy_trunc 8 (snd st)) m)) else acc
  | None => acc
  end.

Lemma pick_null sts best : snd (fold_left pick sts (best, None)) = None.
Proof. by induction sts. Qed.

Lemma pick_some sts best m : exists best' m', fold_left pick sts (best, Some m) = (best', Some m').
Proof.
  revert best m. induction sts as [|st sts IH]; intros best m; [by eexists _, _|].
  cbn [fold_left]. unfold pick at 2. cbn [fst snd]. by destruct (best <? fst st).
Qed.

Lemma photo_size_loop bss sts :
  Forall2 (fun b st => reads walk_photo_size b st) bss sts ->
  forall r tl acc, reader_wf r -> rest r = concat bss ++ tl ->
  repeat_nat (length bss) (st ← lift walk_photo_size; keep_best (fst st) (snd st)) (r, acc) =
  Done tt (adv r (zlen (concat bss)), fold_left pick sts acc).
Proof.
  induction 1 as [|b st bss sts Hb _ IH]; intros r tl acc Hwf Hr; cbn [concat] in *.
  - by rewrite zlen_nil, adv_0.
  - rewrite <- app_assoc in Hr. cbn [length repeat_nat fold_left].
    erewrite bind_Done.
    + rewrite IH with (tl := tl); [|by eapply adv_wf|by eapply rest_adv].
      by rewrite adv_adv, zlen_app.
    + erewrite bind_Done; [|unfold lift; cbn [fst snd]; by erewrite Hb].
      destruct acc as [best [m|]], st as [score ty]; [|done].
      unfold keep_best, pick. cbn. by destruct (best <? score).
Qed.

(** The size vector: the cursor ends behind it, and the caller's object has
    the label picked from the sizes. *)
Lemma photo_size_vector_at bss sts r tl o :
  Forall2 (fun b st => reads walk_photo_size b st) bss sts -> zlen bss < 2 ^ 32 ->
  reader_wf r -> rest r = (enc32 TL_vector ++ enc32 (zlen bss) ++ concat bss) ++ tl ->
  walk_photo_size_vector (r, o) =
  Done tt (adv r (zlen (enc32 TL_vector ++ enc32 (zlen bss) ++ concat bss)),
           snd (fold_left pick sts (-1, set_thumb_type [] <$> o))).
Proof.
  intros Hall Hn Hwf Hr. pose proof (zlen_nonneg bss). pose proof (zlen_nonneg (concat bss)).
  set (head := need_ok 8 ;; vc ← tl_read_uint32; check (vc =? TL_vector) ;; tl_read_uint32).
  assert (Hh : reads head (enc32 TL_vector ++ enc32 (zlen bss)) (zlen bss)).
  { apply reads_need_ok; [autorewrite with zlen; lia|].
    eapply reads_bind; [by apply reads_uint32|]. apply reads_check; [done|].
    apply reads_uint32. unfold is_u32. lia. }
  rewrite app_assoc in Hr. rewrite app_assoc. rewrite <- app_assoc in Hr.
  specialize (Hh r _ Hwf Hr). set (hd := enc32 TL_vector ++ enc32 (zlen bss)) in *.
  assert (Hwf' := adv_wf r _ _ Hwf Hr _ eq_refl).
  assert (Hr' := rest_adv r _ _ Hwf Hr _ eq_refl).
  pose proof (photo_size_loop bss sts Hall _ _ (-1, set_thumb_type [] <$> o) Hwf' Hr') as Hloop.
  assert (E : walk_photo_size_vector (r, o) =
    (lift head ≫= fun count => upd_out (set_thumb_type []) ;;
       with_local (-1) (for_n count (st ← lift walk_photo_size; keep_best (fst st) (snd st))))
      (r, o)).
  { unfold walk_photo_size_vector, head, lift, mbind, M_bind. cbn [fst snd].
    destruct (need_ok 8 r) as [[] r1|r1| |]; [|done..]. cbn [fst snd].
    destruct (tl_read_uint32 r1) as [v r2|r2| |]; [|done..]. cbn [fst snd].
    destruct (check (v =? TL_vector) r2) as [[] r3|r3| |]; [|done..]. cbn [fst snd].
    by destruct (tl_read_uint32 r3). }
  rewrite E. erewrite bind_Done; [|unfold lift; cbn [fst snd]; by rewrite Hh].
  rewrite (bind_Done _ _ _ tt (adv r (zlen hd), set_thumb_type [] <$> o)) by done.
  unfold with_local. cbn [fst snd]. rewrite for_n_nat. unfold zlen at 1. rewrite Nat2Z.id.
  rewrite Hloop. cbn [fst snd]. by rewrite adv_adv, zlen_app.
Qed.

Lemma walks_photo_sizes bs :
  enc (TVec (TRef PhotoSize)) bs -> walks walk_photo_size_vector bs tt.
Proof.
  intros H. apply enc_vec_inv in H as (bss & Hn & Hall & ->).
  assert (exists sts, Forall2 (fun b st => reads walk_photo_size b st) bss sts) as [sts Hsts].
  { clear Hn. induction Hall as [|b bss Hb _ [sts IH]]; [by exists []|].
    destruct (reads_walk_photo_size b Hb) as [st Hst]. exists (st :: sts). by constructor. }
  intros r tl o Hwf Hr. eexists. split; [by eapply photo_size_vector_at|].
  destruct o as [m|]; cbn [fmap option_fmap option_map].
  - by destruct (pick_some sts (-1) (set_thumb_type [] m)) as (b & m' & ->).
  - by rewrite pick_null.
Qed.
#[export] Hint Resolve walks_photo_sizes : tl_consume.

Lemma walks_Photo bs : enc (TRef Photo) bs -> walks photo_full bs tt.
Proof. intros H. unfold photo_full. refine_walk H. Qed.
#[export] Hint Resolve walks_Photo : tl_consume.

Lemma reads_Photo_null bs : enc (TRef Photo) bs -> reads (with_null photo_full) bs tt.
Proof. intros H. by apply walks_null, walks_Photo. Qed.

Lemma reads_Photo bs : enc (TRef Photo) bs -> reads tl_skip_photo bs tt.
Proof. apply reads_Photo_null. Qed.
#[export] Hint Resolve reads_Photo_null reads_Photo : tl_consume.

(** ** Documents *)

Lemma walks_DocumentAttribute bs :
  enc (TRef DocumentAttribute) bs -> walks skip_document_attribute bs tt.
Proof. intros H. unfold skip_document_attribute. refine_walk H. Qed.
#[export] Hint Resolve walks_DocumentAttribute : tl_consume.

Lemma reads_DocumentAttribute bs :
  enc (TRef DocumentAttribute) bs -> reads (with_null skip_document_attribute) bs tt.
Proof. intros H. by apply walks_null, walks_DocumentAttribute. Qed.
#[export] Hint Resolve reads_DocumentAttribute : tl_consume.

(** The attribute loop at the end of a document. *)
Lemma walks_attributes bs :
  enc (TVec (TRef DocumentAttribute)) bs ->
  walks (lift (need 8) ;;
         vec_crc ← lift tl_read_uint32;
         lift (check (vec_crc =? TL_vector)) ;;
         n_attrs ← lift tl_read_uint32;
         for_n n_attrs skip_document_attribute) bs tt.
Proof.
  intros H. apply enc_vec_inv in H as (bss & Hn & Hall & ->).
  pose proof (zlen_nonneg bss). pose proof (zlen_nonneg (concat bss)).
  apply walks_need; [autorewrite with zlen; lia|].
  eapply walks_bind; [by apply walks_lift, reads_uint32|]. apply walks_check; [done|].
  eapply walks_bind; [apply walks_lift, reads_uint32; unfold is_u32; lia|].
  apply walks_for_n; [done|]. eapply Forall_impl; [apply walks_DocumentAttribute|done].
Qed.
#[export] Hint Resolve walks_attributes : tl_consume.

Lemma walks_Document bs : enc (TRef Document) bs -> walks document_inner bs tt.
Proof. intros H. unfold document_inner. refine_walk H. Qed.
#[export] Hint Resolve walks_Document : tl_consume.

Lemma reads_Document bs : enc (TRef Document) bs -> reads tl_skip_document bs tt.
Proof. intros H. by apply walks_null, walks_Document. Qed.
#[export] Hint Resolve reads_Document : tl_consume.

(** ** Geo points, games, web documents, story parts *)

Lemma reads_GeoPoint bs : enc (TRef GeoPoint) bs -> reads skip_geo_point bs tt.
Proof. intros H. unfold skip_geo_point. refine_skip H. Qed.
#[export] Hint Resolve reads_GeoPoint : tl_consume.

Lemma reads_Game bs : enc (TRef Game) bs -> reads skip_game bs tt.
Proof. intros H. unfold skip_game. refine_skip H. Qed.
#[export] Hint Resolve reads_Game : tl_consume.

Lemma reads_WebDocument bs : enc (TRef WebDocument) bs -> reads skip_web_document bs tt.
Proof. intros H. unfold skip_web_document. refine_skip H. Qed.
#[export] Hint Resolve reads_WebDocument : tl_consume.

Lemma reads_StoryFwdHeader bs : enc (TRef StoryFwdHeader) bs -> reads skip_story_fwd_header bs tt.
Proof. intros H. unfold skip_story_fwd_header. refine_skip H. Qed.
#[export] Hint Resolve reads_StoryFwdHeader : tl_consume.

Lemma reads_MediaAreaCoordinates bs :
  enc (TRef MediaAreaCoordinates) bs -> reads skip_media_area_coordinates bs tt.
Proof. intros H. unfold skip_media_area_coordinates. refine_skip H. Qed.
#[export] Hint Resolve reads_MediaAreaCoordinates : tl_consume.

Lemma reads_GeoPointAddress bs :
  enc (TRef GeoPointAddress) bs -> reads skip_geo_point_address bs tt.
Proof. intros H. unfold skip_geo_point_address. refine_skip H. Qed.
#[export] Hint Resolve reads_GeoPointAddress : tl_consume.

Lemma reads_MediaArea bs : enc (TRef MediaArea) bs -> reads skip_media_area bs tt.
Proof. intros H. unfold skip_media_area. refine_skip H. Qed.
#[export] Hint Resolve reads_MediaArea : tl_consume.

Lemma reads_PrivacyRule bs : enc (TRef PrivacyRule) bs -> reads skip_privacy_rule bs tt.
Proof. intros H. unfold skip_privacy_rule. refine_skip H. Qed.
#[export] Hint Resolve reads_PrivacyRule : tl_consume.

Lemma reads_StoryViews bs : enc (TRef StoryViews) bs -> reads skip_story_views bs tt.
Proof. intros H. unfold skip_story_views. refine_skip H. Qed.
#[export] Hint Resolve reads_StoryViews : tl_consume.
