(* ===== verification/TlRefineMessage.v ===== *)
(** * Refinement of the schema: chats, users, pages, media and messages

    Up to [tl_skip_message]: the walker of the largest object the server
    sends refines the schema of Message. *)

From S2P Require Import Prelude TlSerial TlLogic TlCrc TlSchema TlSkipBase TlSkipParts.
From S2P Require Import TlSkipMedia TlSkipChat TlSkipPage TlSkipMessage TlRefine TlRefineBase.
From S2P Require Import TlRefineMedia.

(** ** Chats and users *)

Lemma reads_ChatPhoto bs : enc (TRef ChatPhoto) bs -> reads tl_skip_chat_photo bs tt.
Proof. intros H. unfold tl_skip_chat_photo. refine_skip H. Qed.
#[export] Hint Resolve reads_ChatPhoto : tl_consume.

Lemma reads_UserProfilePhoto bs :
  enc (TRef UserProfilePhoto) bs -> reads tl_skip_user_profile_photo bs tt.
Proof. intros H. unfold tl_skip_user_profile_photo. refine_skip H. Qed.
#[export] Hint Resolve reads_UserProfilePhoto : tl_consume.

Lemma reads_UserStatus bs : enc (TRef UserStatus) bs -> reads tl_skip_user_status bs tt.
Proof. intros H. unfold tl_skip_user_status. refine_skip H. Qed.
#[export] Hint Resolve reads_UserStatus : tl_consume.

Lemma reads_restriction_reasons bs :
  enc (TVec (TRef RestrictionReason)) bs -> reads tl_skip_restriction_reason_vector bs tt.
Proof. intros H. eapply reads_vector_ok_of; [|exact H]. intros b _ Hb. refine_skip Hb. Qed.

Lemma reads_usernames bs :
  enc (TVec (TRef Username)) bs -> reads tl_skip_username_vector bs tt.
Proof. intros H. eapply reads_vector_ok_of; [|exact H]. intros b _ Hb. refine_skip Hb. Qed.
#[export] Hint Resolve reads_restriction_reasons reads_usernames : tl_consume.

Lemma reads_PeerColor bs : enc (TRef PeerColor) bs -> reads tl_skip_peer_color bs tt.
Proof. intros H. unfold tl_skip_peer_color. refine_skip H. Qed.
#[export] Hint Resolve reads_PeerColor : tl_consume.

Lemma reads_EmojiStatus bs : enc (TRef EmojiStatus) bs -> reads tl_skip_emoji_status bs tt.
Proof. intros H. unfold tl_skip_emoji_status. refine_skip H. Qed.
#[export] Hint Resolve reads_EmojiStatus : tl_consume.

Lemma reads_ChatAdminRights bs :
  enc (TRef ChatAdminRights) bs -> reads skip_chat_admin_rights bs tt.
Proof. intros H. unfold skip_chat_admin_rights. refine_skip H. Qed.
#[export] Hint Resolve reads_ChatAdminRights : tl_consume.

Lemma reads_ChatBannedRights bs :
  enc (TRef ChatBannedRights) bs -> reads skip_chat_banned_rights bs tt.
Proof. intros H. unfold skip_chat_banned_rights. refine_skip H. Qed.
#[export] Hint Resolve reads_ChatBannedRights : tl_consume.

Lemma reads_InputChannel bs : enc (TRef InputChannel) bs -> reads skip_migrated_to bs tt.
Proof. intros H. unfold skip_migrated_to. refine_skip H. Qed.
#[export] Hint Resolve reads_InputChannel : tl_consume.

Lemma walks_Chat bs : enc (TRef Chat) bs -> walks extract_chat_inner bs tt.
Proof. intros H. unfold extract_chat_inner. refine_walk H. Qed.
#[export] Hint Resolve walks_Chat : tl_consume.

Lemma reads_Chat bs : enc (TRef Chat) bs -> reads tl_skip_chat bs tt.
Proof. intros H. by apply walks_null, walks_Chat. Qed.
#[export] Hint Resolve reads_Chat : tl_consume.

Lemma walks_first_name d : zlen d < 2 ^ 24 -> walks read_first_name (enc_bytes d) tt.
Proof.
  intros Hd r tl o Hwf Hr. unfold read_first_name. rewrite (bind_Done _ _ _ o (r, o)) by done.
  destruct o as [u|]; unfold read_string_local, lift, mbind, M_bind; cbn [fst snd].
  - erewrite (reads_string d Hd) by done. eexists. by split.
  - erewrite (reads_skip_string d Hd) by done. by exists None.
Qed.

Lemma walks_last_name d : zlen d < 2 ^ 24 -> walks read_last_name (enc_bytes d) tt.
Proof.
  intros Hd r tl o Hwf Hr. unfold read_last_name. rewrite (bind_Done _ _ _ o (r, o)) by done.
  destruct o as [u|]; unfold read_string_local, lift, mbind, M_bind; cbn [fst snd].
  - erewrite (reads_string d Hd) by done. eexists. by split.
  - erewrite (reads_skip_string d Hd) by done. by exists None.
Qed.
#[export] Hint Resolve walks_first_name walks_last_name : tl_consume.

Lemma walks_User bs : enc (TRef User) bs -> walks extract_user_inner bs tt.
Proof. intros H. unfold extract_user_inner. refine_walk H. Qed.
#[export] Hint Resolve walks_User : tl_consume.

Lemma reads_User bs : enc (TRef User) bs -> reads tl_skip_user bs tt.
Proof. intros H. by apply walks_null, walks_User. Qed.
#[export] Hint Resolve reads_User : tl_consume.

(** ** Instant view pages *)

Lemma reads_RichText_rec n bs :
  zlen bs < Z.of_nat n -> enc (TRef RichText) bs -> reads (skip_rich_text_rec n) bs tt.
Proof.
  revert bs. induction n as [|n IH]; intros bs Hn H; [pose_lens; lia|].
  cbn [skip_rich_text_rec]. refine_skip H.
Qed.

Lemma reads_RichText bs : enc (TRef RichText) bs -> reads skip_rich_text bs tt.
Proof. intros H. apply reads_fuelled. intros n Hn. by apply reads_RichText_rec. Qed.
#[export] Hint Resolve reads_RichText : tl_consume.

Lemma reads_PageCaption bs : enc (TRef PageCaption) bs -> reads skip_page_caption bs tt.
Proof. intros H. unfold skip_page_caption. refine_skip H. Qed.
#[export] Hint Resolve reads_PageCaption : tl_consume.

Lemma reads_PageTableCell bs : enc (TRef PageTableCell) bs -> reads skip_page_table_cell bs tt.
Proof. intros H. unfold skip_page_table_cell. refine_skip H. Qed.
#[export] Hint Resolve reads_PageTableCell : tl_consume.

Lemma reads_PageTableRow bs : enc (TRef PageTableRow) bs -> reads skip_page_table_row bs tt.
Proof. intros H. unfold skip_page_table_row. refine_skip H. Qed.
#[export] Hint Resolve reads_PageTableRow : tl_consume.

Lemma reads_PageRelatedArticle bs :
  enc (TRef PageRelatedArticle) bs -> reads skip_page_related_article bs tt.
Proof. intros H. unfold skip_page_related_article. refine_skip H. Qed.
#[export] Hint Resolve reads_PageRelatedArticle : tl_consume.

(** The recursive call of [skip_page_block] is known on shorter encodings. *)
Section Blocks.
Context (n : nat) (block : Rd unit).
Context (IH : forall bs, zlen bs < Z.of_nat n -> enc (TRef PageBlock) bs -> reads block bs tt).

Lemma reads_block_vector bs :
  zlen bs <= Z.of_nat n -> enc (TVec (TRef PageBlock)) bs ->
  reads (skip_page_block_vector block) bs tt.
Proof.
  intros Hn H. eapply reads_vector_ok_of; [|exact H]. intros b Hb He. apply IH; [lia|done].
Qed.

Lemma reads_list_item bs :
  zlen bs <= Z.of_nat n -> enc (TRef PageListItem) bs -> reads (skip_page_list_item block) bs tt.
Proof.
  intros Hn H. unfold skip_page_list_item. refine_skip H.
  apply reads_block_vector; [autorewrite with zlen in Hn; lia|done].
Qed.

Lemma reads_list_ordered_item bs :
  zlen bs <= Z.of_nat n -> enc (TRef PageListOrderedItem) bs ->
  reads (skip_page_list_ordered_item block) bs tt.
Proof.
  intros Hn H. unfold skip_page_list_ordered_item. refine_skip H.
  apply reads_block_vector; [autorewrite with zlen in Hn; pose_lens; lia|done].
Qed.

End Blocks.

Lemma reads_PageBlock_rec n bs :
  zlen bs < Z.of_nat n -> enc (TRef PageBlock) bs -> reads (skip_page_block_rec n) bs tt.
Proof.
  revert bs. induction n as [|n IH]; intros bs Hn H; [pose_lens; lia|].
  cbn [skip_page_block_rec]. unfold page_block_body.
  pose proof (reads_block_vector n _ IH). pose proof (reads_list_item n _ IH).
  pose proof (reads_list_ordered_item n _ IH). refine_skip H.
Qed.

Lemma reads_PageBlock bs : enc (TRef PageBlock) bs -> reads skip_page_block bs tt.
Proof. intros H. apply reads_fuelled. intros n Hn. by apply reads_PageBlock_rec. Qed.
#[export] Hint Resolve reads_PageBlock : tl_consume.

Lemma reads_Page bs : enc (TRef Page) bs -> reads skip_page bs tt.
Proof. intros H. unfold skip_page. refine_skip H. Qed.
#[export] Hint Resolve reads_Page : tl_consume.

(** ** Themes *)

Lemma reads_WallPaperSettings bs :
  enc (TRef WallPaperSettings) bs -> reads skip_wallpaper_settings bs tt.
Proof. intros H. unfold skip_wallpaper_settings. refine_skip H. Qed.
#[export] Hint Resolve reads_WallPaperSettings : tl_consume.

Lemma reads_WallPaper bs : enc (TRef WallPaper) bs -> reads skip_wallpaper bs tt.
Proof. intros H. unfold skip_wallpaper. refine_skip H. Qed.
#[export] Hint Resolve reads_WallPaper : tl_consume.

Lemma reads_ThemeSettings bs : enc (TRef ThemeSettings) bs -> reads skip_theme_settings bs tt.
Proof.
  intros H. unfold skip_theme_settings. inv_ctor H.
  match goal with Hb : enc (TRef BaseTheme) _ |- _ => inv_ctor Hb end; repeat reads_step.
Qed.
#[export] Hint Resolve reads_ThemeSettings : tl_consume.

(** ** MessageMedia, level by level

    [media] skips the encodings with at most [k] levels of media. *)

Section MediaLevel.
Context (k : nat) (media : Rd unit).
Context (Hmedia : forall bs, enc (TRef (MessageMedia k)) bs -> reads media bs tt).

Lemma reads_ExtendedMedia bs :
  enc (TRef (MessageExtendedMedia k)) bs -> reads (skip_message_extended_media media) bs tt.
Proof. intros H. unfold skip_message_extended_media. refine_skip H. Qed.

Lemma reads_StoryItem bs :
  enc (TRef (StoryItem k)) bs -> reads (skip_story_item media) bs tt.
Proof. intros H. unfold skip_story_item. refine_skip H. Qed.

Hint Resolve reads_ExtendedMedia reads_StoryItem : tl_consume.

Lemma reads_webpage_attributes bs :
  enc (TVec (TRef (WebPageAttribute k))) bs ->
  reads (skip_webpage_attributes_vector (skip_story_item media)) bs tt.
Proof. intros H. eapply reads_vector_ok_of; [|exact H]. intros b _ Hb. refine_skip Hb. Qed.

Hint Resolve reads_webpage_attributes : tl_consume.

Lemma reads_WebPage bs :
  enc (TRef (WebPage k)) bs -> reads (skip_webpage (skip_story_item media)) bs tt.
Proof. intros H. unfold skip_webpage. refine_skip H. Qed.

Hint Resolve reads_WebPage : tl_consume.

Lemma walks_media_body bs :
  enc (TRef (MessageMedia (S k))) bs -> walks (skip_message_media_body media) bs tt.
Proof. intros H. unfold skip_message_media_body. refine_walk H. Qed.

End MediaLevel.

Lemma walks_MessageMedia k bs : enc (TRef (MessageMedia k)) bs -> walks (media_ex_at k) bs tt.
Proof.
  revert bs. induction k as [|k IH]; intros bs H.
  - by apply enc_ref_inv in H as (? & ? & _ & [] & _).
  - apply (walks_media_body k); [|done]. intros b Hb. by apply walks_null, IH.
Qed.

Lemma reads_MessageMedia bs :
  enc (TRef (MessageMedia 4)) bs -> reads tl_skip_message_media bs tt.
Proof. intros H. by apply walks_null, walks_MessageMedia. Qed.
#[export] Hint Resolve reads_MessageMedia : tl_consume.

(** ** Messages *)

Lemma reads_MessageReplyHeader bs :
  enc (TRef MessageReplyHeader) bs -> reads tl_skip_message_reply_header bs tt.
Proof. intros H. unfold tl_skip_message_reply_header. refine_skip H. Qed.
#[export] Hint Resolve reads_MessageReplyHeader : tl_consume.

Lemma reads_MessageAction bs : enc (TRef MessageAction) bs -> reads skip_message_action bs tt.
Proof. intros H. unfold skip_message_action. refine_skip H. Qed.
#[export] Hint Resolve reads_MessageAction : tl_consume.

Lemma reads_Message bs : enc (TRef Message) bs -> reads tl_skip_message bs tt.
Proof. intros H. unfold tl_skip_message. refine_skip H. Qed.
