(* ===== verification/TlExtract.v ===== *)
(** * Extraction and depth (src/core/tl_skip.c)

    [tl_extract_user] and [tl_extract_chat] on a well-formed object: besides
    stopping behind it, they fill the caller's summary with the id, the
    access hash, the joined and truncated display name and the username.  The
    second part is about how deep the recursive skippers go. *)

From S2P Require Import Prelude TlSerial TlLogic TlCrc TlSkipBase TlSkipParts TlSkipMedia.
From S2P Require Import TlSkipChat TlSkipPage TlSkipMessage TlSchema TlRefine TlRefineBase.
From S2P Require Import TlRefineMedia TlRefineMessage.

(** ** A judgement that tracks the caller's object *)

Definition yields {T A} (m : M (TlReader * T) A) (bs : list byte) (t : T) (a : A) (t' : T) : Prop :=
  forall r tl, reader_wf r -> rest r = bs ++ tl -> m (r, t) = Done a (adv r (zlen bs), t').

Section Yields.
Context {T : Type}.

Lemma yields_ret {A} (a : A) (t : T) : yields (mret a) [] t a t.
Proof. intros r tl _ _. by rewrite zlen_nil, adv_0. Qed.

Lemma yields_bind {A B} (m : M (TlReader * T) A) (k : A -> M (TlReader * T) B)
    bs cs t a t1 b t2 :
  yields m bs t a t1 -> yields (k a) cs t1 b t2 -> yields (m ≫= k) (bs ++ cs) t b t2.
Proof.
  intros Hm Hk r tl Hwf Hr. rewrite <- app_assoc in Hr.
  rewrite (bind_Done _ _ _ _ _ (Hm r _ Hwf Hr)).
  rewrite (Hk _ tl); [by rewrite adv_adv, zlen_app|by eapply adv_wf|by eapply rest_adv].
Qed.

Lemma yields_lift {A} (m : Rd A) bs a (t : T) : reads m bs a -> yields (lift m) bs t a t.
Proof. intros Hm r tl Hwf Hr. unfold lift. cbn [fst snd]. by erewrite Hm. Qed.

Lemma yields_pre {A} n (m : M (TlReader * T) A) bs (t : T) a t' :
  0 < n <= zlen bs -> yields m bs t a t' -> yields (lift (need n) ;; m) bs t a t'.
Proof.
  intros Hn Hm r tl Hwf Hr. rewrite <- (Hm r tl Hwf Hr).
  apply (bind_Done _ (fun _ => m) _ tt). unfold lift, need, fail_if. cbn [fst snd].
  destruct (remaining_at r bs tl Hwf Hr); [lia|]. by rewrite (proj2 (Z.ltb_ge _ _)) by lia.
Qed.

Lemma yields_pre_ok {A} n (m : M (TlReader * T) A) bs (t : T) a t' :
  0 < n <= zlen bs -> yields m bs t a t' -> yields (lift (need_ok n) ;; m) bs t a t'.
Proof.
  intros Hn Hm r tl Hwf Hr. rewrite <- (Hm r tl Hwf Hr).
  apply (bind_Done _ (fun _ => m) _ tt). unfold lift, need_ok, fail_if. cbn [fst snd].
  destruct (remaining_at r bs tl Hwf Hr) as [-> ?]; [lia|].
  by rewrite (proj2 (Z.ltb_ge _ _)) by lia.
Qed.

Lemma yields_check {A} c (m : M (TlReader * T) A) bs (t : T) a t' :
  c = true -> yields m bs t a t' -> yields (lift (check c) ;; m) bs t a t'.
Proof. intros -> Hm. exact Hm. Qed.

End Yields.

(** A piece that is there when [c] holds, and changes the object then. *)
Lemma yields_when {T} (c : bool) (m : M (TlReader * option T) unit) bs (t t' : T) :
  yields m bs (Some t) tt (Some t') ->
  yields (when c m) (if c then bs else []) (Some t) tt (Some (if c then t' else t)).
Proof. intros Hm. destruct c; [exact Hm|apply yields_ret]. Qed.

Lemma yields_upd {T} (f : T -> T) t : yields (upd_out f) [] (Some t) tt (Some (f t)).
Proof. intros r tl _ _. by rewrite zlen_nil, adv_0. Qed.

Lemma yields_upd_bind {T A} (f : T -> T) (k : unit -> M (TlReader * option T) A) bs t a t' :
  yields (k tt) bs (Some (f t)) a t' -> yields (upd_out f ≫= k) bs (Some t) a t'.
Proof. intros H. apply (yields_bind _ _ [] bs _ tt (Some (f t))); [apply yields_upd|done]. Qed.

Lemma yields_string_field {T} (set : list byte -> T -> T) cap d t :
  zlen d < 2 ^ 24 ->
  yields (string_field set cap) (enc_bytes d) (Some t) tt (Some (set (copy_trunc cap d) t)).
Proof.
  intros Hd r tl Hwf Hr. unfold string_field.
  rewrite (bind_Done _ _ _ (Some t) (r, Some t)) by done. unfold read_string_into.
  erewrite bind_Done; [|unfold lift; cbn [fst snd]; by erewrite (reads_string d Hd)]. done.
Qed.

Lemma yields_string_local {A} cap d (k : list byte -> M (TlReader * A) unit) (t t' : A) :
  zlen d < 2 ^ 24 -> yields (k (copy_trunc cap d)) [] t tt t' ->
  yields (lift (read_string_local cap) ≫= k) (enc_bytes d) t tt t'.
Proof.
  intros Hd Hk. rewrite <- (app_nil_r (enc_bytes d)). eapply yields_bind; [|exact Hk].
  apply yields_lift. unfold read_string_local. rewrite <- (app_nil_r (enc_bytes d)).
  eapply reads_bind; [by apply reads_string|apply reads_ret].
Qed.

(** ** The display name *)

(** First and last name, with a space when both are there, cut to the 127
    bytes the summary has room for. *)
Definition display_name (first last : list byte) : list byte :=
  take 127 (first ++ (match first, last with _ :: _, _ :: _ => space | _, _ => [] end) ++ last).

Lemma str_append_take dst src cap :
  0 < cap -> zlen dst < cap -> str_append dst cap src = take (Z.to_nat (cap - 1)) (dst ++ src).
Proof.
  intros Hc Hd. unfold str_append. rewrite (proj2 (Z.eqb_neq cap 0)) by lia.
  destruct (Z.leb_spec (cap - 1) (zlen dst)).
  - assert (zlen dst = cap - 1) by lia. symmetry. by apply take_app_exact.
  - rewrite take_app, (take_ge dst) by (unfold zlen in *; lia). f_equal.
    destruct (Z.ltb_spec (cap - 1 - zlen dst) (zlen src)); unfold zlen in *.
    + f_equal. lia.
    + rewrite !take_ge; [done|lia..].
Qed.

Lemma str_append_len dst src cap : zlen dst < cap -> zlen (str_append dst cap src) < cap.
Proof.
  intros Hd. pose proof (zlen_nonneg dst). rewrite str_append_take by lia.
  unfold zlen. rewrite length_take. lia.
Qed.

(** Appending the first name to the empty name, then the last name. *)
Lemma name_join u first last :
  user_name u = [] -> zlen first < 96 -> zlen last < 96 ->
  user_name (join_last_name last (user_set_name (str_append (user_name u) 128 first) u)) =
  display_name first last.
Proof.
  intros Hu Hf Hl. rewrite Hu, (str_append_take [] first) by (unfold zlen; cbn; lia).
  change (Z.to_nat (128 - 1)) with 127%nat. cbn [app].
  rewrite (take_ge first) by (unfold zlen in *; lia). unfold join_last_name, display_name.
  destruct last as [|b last], first as [|c first]; cbn [user_set_name user_name app].
  - done.
  - rewrite app_nil_r. symmetry. apply take_ge. unfold zlen in *. cbn in *. lia.
  - rewrite (str_append_take []) by (unfold zlen; cbn; lia). done.
  - rewrite (str_append_take (c :: first) space) by lia.
    rewrite (str_append_take (take _ _)).
    + change (Z.to_nat (128 - 1)) with 127%nat. f_equal.
      rewrite take_ge; [by rewrite <- app_assoc|].
      unfold zlen in *. rewrite length_app. cbn in *. lia.
    + lia.
    + unfold zlen. rewrite length_take. lia.
Qed.

(** ** Users *)

(** The fields of user# behind the username. *)
Definition user_tail_fields : list field :=
  [opt 4 TBytes; opt 5 (TRef UserProfilePhoto); opt 6 (TRef UserStatus); opt 14 int;
   opt 18 (TVec (TRef RestrictionReason)); opt 19 TBytes; opt 22 TBytes;
   opt 30 (TRef EmojiStatus); opt2 0 (TVec (TRef Username)); opt2 5 int;
   opt2 8 (TRef PeerColor); opt2 9 (TRef PeerColor); opt2 12 int].

(** user#215c4438 with its leading fields spelled out. *)
Definition user_bytes (crc flags flags2 id hash : Z) (first last uname tail : list byte)
    : list byte :=
  enc32 crc ++ enc32 flags ++ enc32 flags2 ++ enc64 id ++
  (if flag flags 0 then enc64 hash else []) ++
  (if flag flags 1 then enc_bytes first else []) ++
  (if flag flags 2 then enc_bytes last else []) ++
  (if flag flags 3 then enc_bytes uname else []) ++ tail.

(** The summary of that user. *)
Definition user_view (flags id hash : Z) (first last uname : list byte) : UserSummary :=
  {| user_id := id;
     user_access_hash := if flag flags 0 then hash else 0;
     user_have_access_hash := flag flags 0;
     user_name := display_name (if flag flags 1 then copy_trunc 96 first else [])
                               (if flag flags 2 then copy_trunc 96 last else []);
     user_username := if flag flags 3 then copy_trunc 64 uname else [] |}.

Lemma yields_eq {T A} (m : M (TlReader * T) A) bs t a t1 t2 :
  yields m bs t a t1 -> t1 = t2 -> yields m bs t a t2.
Proof. by intros H <-. Qed.

Lemma yields_hash {T} (set : Z -> T -> T) hash t :
  is_s64 hash ->
  yields (lift (need 8) ;; access_hash ← lift tl_read_int64; upd_out (set access_hash))
         (enc64 hash) (Some t) tt (Some (set hash t)).
Proof.
  intros Hh. apply yields_pre; [unfold enc64; autorewrite with zlen; lia|].
  rewrite <- (app_nil_r (enc64 hash)).
  eapply yields_bind; [by apply yields_lift, reads_int64|apply yields_upd].
Qed.

Lemma yields_first_name d u :
  zlen d < 2 ^ 24 ->
  yields read_first_name (enc_bytes d) (Some u) tt
         (Some (user_set_name (str_append (user_name u) 128 (copy_trunc 96 d)) u)).
Proof.
  intros Hd. apply (yields_string_local 96 d (fun first =>
    upd_out (fun u => user_set_name (str_append (user_name u) 128 first) u)) (Some u)
    (Some _) Hd).
  apply (yields_upd (fun u => user_set_name (str_append (user_name u) 128 _) u)).
Qed.

Lemma yields_last_name d u :
  zlen d < 2 ^ 24 ->
  yields read_last_name (enc_bytes d) (Some u) tt (Some (join_last_name (copy_trunc 96 d) u)).
Proof.
  intros Hd.
  apply (yields_string_local 96 d (fun last => upd_out (join_last_name last)) _ _ Hd).
  apply yields_upd.
Qed.

(** The summary the four optional fields build up is the view of the user. *)
Lemma join_keeps last u :
  join_last_name last u = user_set_name (user_name (join_last_name last u)) u.
Proof. by destruct u, last. Qed.

Lemma user_view_build flags id hash first last uname u1 u2 u3 u4 :
  u1 = (if flag flags 0 then user_set_hash hash (user_set_id id user_zero)
        else user_set_id id user_zero) ->
  u2 = (if flag flags 1 then user_set_name (str_append (user_name u1) 128 (copy_trunc 96 first)) u1
        else u1) ->
  u3 = (if flag flags 2 then join_last_name (copy_trunc 96 last) u2 else u2) ->
  u4 = (if flag flags 3 then user_set_username (copy_trunc 64 uname) u3 else u3) ->
  u4 = user_view flags id hash first last uname.
Proof.
  intros E1 E2 E3 E4.
  assert (N1 : user_name u1 = []) by (by rewrite E1; destruct (flag flags 0)).
  set (f := if flag flags 1 then copy_trunc 96 first else []).
  set (l := if flag flags 2 then copy_trunc 96 last else []).
  assert (Hf : zlen f < 96) by (unfold f; destruct (flag flags 1); [apply copy_trunc_spec|]; done).
  assert (Hl : zlen l < 96) by (unfold l; destruct (flag flags 2); [apply copy_trunc_spec|]; done).
  assert (E2' : u2 = user_set_name (str_append (user_name u1) 128 f) u1).
  { rewrite E2. unfold f. destruct (flag flags 1); [done|]. rewrite N1.
    clear -N1. destruct u1; cbn in *. by subst. }
  assert (E3' : u3 = user_set_name (display_name f l) u1).
  { rewrite E3. transitivity (join_last_name l u2); [unfold l; by destruct (flag flags 2)|].
    rewrite join_keeps, E2', name_join by done. by destruct u1. }
  rewrite E4, E3', E1. unfold user_view. fold f l.
  by destruct (flag flags 0), (flag flags 3).
Qed.

(** One step over the read part of a walker. *)
Ltac yields_step :=
  lazymatch goal with
  | |- yields (upd_out _ ≫= _) _ _ _ _ => apply yields_upd_bind
  | |- yields (upd_out _) [] _ _ _ => apply yields_upd
  | |- yields (lift (need_ok _) ≫= _) _ _ _ _ => apply yields_pre_ok; [solve_len|]
  | |- yields (lift (need _) ≫= _) _ _ _ _ => apply yields_pre; [solve_len|]
  | |- yields (lift (check _) ≫= _) _ _ _ _ => apply yields_check; [done|]
  | |- yields (lift tl_read_uint32 ≫= _) _ _ _ _ =>
      eapply yields_bind; [apply yields_lift, reads_uint32; solve_u32|]; cbn beta
  | |- yields (lift tl_read_int64 ≫= _) (_ ++ _) _ _ _ =>
      eapply yields_bind; [by apply yields_lift, reads_int64|]; cbn beta
  | |- yields (when _ _ ≫= _) _ _ _ _ =>
      eapply yields_bind;
      [apply yields_when;
       first [by apply yields_hash | by apply yields_first_name | by apply yields_last_name
             | by apply yields_string_field]|]
  | |- yields (lift _ ≫= _) (_ ++ _) _ _ _ =>
      eapply yields_bind; [apply yields_lift; solve [reads_solve]|]
  | |- yields (string_field _ _ ≫= _) _ _ _ _ =>
      eapply yields_bind; [by apply yields_string_field|]
  | |- yields (string_field _ _) _ _ _ _ => by apply yields_string_field
  | |- yields (lift _) _ _ _ _ => apply yields_lift; solve [reads_solve]
  | |- yields (if _ then _ else _) _ _ _ _ => cbn [Z.eqb Pos.eqb]
  end.

(** The walker on a whole user: the cursor ends behind it and the summary is
    the one of the user, whatever it held before. *)
Lemma extract_user_at crc flags flags2 id hash first last uname tail u0 :
  crc = TL_user \/ crc = TL_user2 -> is_u32 flags -> is_u32 flags2 -> is_s64 id -> is_s64 hash ->
  zlen first < 2 ^ 24 -> zlen last < 2 ^ 24 -> zlen uname < 2 ^ 24 ->
  enc_fields [flags; flags2] user_tail_fields tail ->
  yields extract_user_inner (user_bytes crc flags flags2 id hash first last uname tail)
         (Some u0) tt (Some (user_view flags id hash first last uname)).
Proof.
  intros Hcrc Hf Hf2 Hid Hhash Hfirst Hlast Huname Htail.
  unfold extract_user_inner, user_bytes.
  unfold user_tail_fields, opt, opt2, int in Htail. repeat inv_step. cbn [nth] in *.
  rewrite app_nil_r.
  assert (is_u32 crc) by (destruct Hcrc as [->| ->]; done).
  eapply yields_eq; [repeat yields_step|].
  - replace (crc =? TL_userEmpty) with false by (destruct Hcrc as [->| ->]; done).
    replace ((crc =? TL_user) || (crc =? TL_user2)) with true
      by (destruct Hcrc as [->| ->]; done).
    repeat yields_step.
  - f_equal. by eapply user_view_build.
Qed.

(** ** Channels *)

(** The fields of channel# behind the title. *)
Definition channel_tail_fields : list field :=
  [opt 6 TBytes; ref ChatPhoto; FReq int; opt 9 (TVec (TRef RestrictionReason));
   opt 14 (TRef ChatAdminRights); opt 15 (TRef ChatBannedRights);
   opt 18 (TRef ChatBannedRights); opt 17 int;
   opt2 0 (TVec (TRef Username)); opt2 4 int; opt2 7 (TRef PeerColor);
   opt2 8 (TRef PeerColor); opt2 9 (TRef EmojiStatus); opt2 10 int; opt2 11 int].

Definition channel_bytes (flags flags2 id hash : Z) (title tail : list byte) : list byte :=
  enc32 TL_channel ++ enc32 flags ++ enc32 flags2 ++ enc64 id ++
  (if flag flags 13 then enc64 hash else []) ++ enc_bytes title ++ tail.

Definition channel_view (flags id hash : Z) (title : list byte) : ChatSummary :=
  {| chat_id := id;
     chat_access_hash := if flag flags 13 then hash else 0;
     chat_have_access_hash := flag flags 13;
     chat_title := copy_trunc 128 title |}.

Lemma extract_channel_at flags flags2 id hash title tail c0 :
  is_u32 flags -> is_u32 flags2 -> is_s64 id -> is_s64 hash -> zlen title < 2 ^ 24 ->
  enc_fields [flags; flags2] channel_tail_fields tail ->
  yields extract_chat_inner (channel_bytes flags flags2 id hash title tail)
         (Some c0) tt (Some (channel_view flags id hash title)).
Proof.
  intros Hf Hf2 Hid Hhash Ht Htail. unfold extract_chat_inner, channel_bytes.
  unfold channel_tail_fields, opt, opt2, int, ref in Htail. repeat inv_step. cbn [nth] in *.
  rewrite app_nil_r.
  assert (is_u32 TL_channel) by done.
  eapply yields_eq; [repeat yields_step|].
  - change (TL_channel =? TL_chatEmpty) with false.
    change (TL_channel =? TL_chatForbidden) with false. change (TL_channel =? TL_chat) with false.
    change (TL_channel =? TL_channelForbidden) with false.
    change (TL_channel =? TL_channel) with true. cbn iota. repeat yields_step.
  - unfold channel_view. by destruct (flag flags 13).
Qed.

(** ** Photos *)

(** The label of the first size with the highest score above [best]. *)
Fixpoint best_label (best : Z) (lbl : list byte) (sts : list (Z * list byte)) : Z * list byte :=
  match sts with
  | [] => (best, lbl)
  | (score, ty) :: sts =>
      if best <? score then best_label score (copy_trunc 8 ty) sts else best_label best lbl sts
  end.

Lemma pick_best_label sts best m :
  fold_left pick sts (best, Some m) =
  (fst (best_label best (thumb_type m) sts),
   Some (set_thumb_type (snd (best_label best (thumb_type m) sts)) m)).
Proof.
  revert best m. induction sts as [|[score ty] sts IH]; intros best m; [by destruct m|].
  cbn [fold_left best_label]. unfold pick at 2. cbn [fst snd].
  destruct (best <? score); by rewrite IH.
Qed.

(** The chosen label belongs to a size that no other size beats. *)
Lemma best_label_max sts best lbl :
  (forall st, In st sts -> fst st <= fst (best_label best lbl sts)) /\
  best <= fst (best_label best lbl sts) /\
  (best_label best lbl sts = (best, lbl) \/
   exists st, In st sts /\ best_label best lbl sts = (fst st, copy_trunc 8 (snd st))).
Proof.
  revert best lbl. induction sts as [|[score ty] sts IH]; intros best lbl.
  - cbn. split; [done|]. split; [lia|by left].
  - cbn [best_label]. destruct (Z.ltb_spec best score) as [Hlt|Hge].
    + destruct (IH score (copy_trunc 8 ty)) as (Hm & Hb & Hc). split_and!.
      * intros st [<-|Hin]; [done|by apply Hm].
      * lia.
      * right. destruct Hc as [->|(st & Hin & ->)]; [exists (score, ty)|exists st]; cbn; auto.
    + destruct (IH best lbl) as (Hm & Hb & Hc). split_and!.
      * intros st [<-|Hin]; [cbn; lia|by apply Hm].
      * lia.
      * destruct Hc as [->|(st & Hin & ->)]; [by left|]. right. exists st. cbn. auto.
Qed.

Definition photo_bytes (flags id hash : Z) (fref date : list byte) (sizes : list (list byte))
    (video : list byte) (dc : Z) : list byte :=
  enc32 CRC_photo ++ enc32 flags ++ enc64 id ++ enc64 hash ++ enc_bytes fref ++ date ++
  (enc32 TL_vector ++ enc32 (zlen sizes) ++ concat sizes) ++ video ++ enc32 dc.

Definition photo_view (id hash : Z) (fref lbl : list byte) (dc : Z) (m : MediaInfo) : MediaInfo :=
  {| kind := kind m; photo_id := id; document_id := document_id m; dc_id := dc;
     access_hash := hash; file_reference := take 128 fref; thumb_type := lbl;
     document_size := document_size m; document_mime := document_mime m;
     document_filename := document_filename m |}.

Lemma yields_file_reference d m :
  zlen d < 2 ^ 24 ->
  yields read_file_reference (enc_bytes d) (Some m) tt
         (Some (set_file_reference (take 128 d) m)).
Proof.
  intros Hd. unfold read_file_reference. rewrite <- (app_nil_r (enc_bytes d)).
  eapply yields_bind; [by apply yields_lift, reads_bytes|apply yields_upd].
Qed.

Lemma photo_at flags id hash fref date sizes sts video dc m :
  is_u32 flags -> is_s64 id -> is_s64 hash -> zlen fref < 2 ^ 24 -> zlen date = 4 ->
  Forall2 (fun b st => reads walk_photo_size b st) sizes sts -> zlen sizes < 2 ^ 32 ->
  enc_opt (Z.testbit flags 1) (TVec (TRef VideoSize)) video -> is_s32 dc ->
  yields photo_full (photo_bytes flags id hash fref date sizes video dc) (Some m) tt
         (Some (photo_view id hash fref (snd (best_label (-1) [] sts)) dc m)).
Proof.
  intros Hf Hid Hhash Hfr Hdate Hsts Hn Hv Hdc. unfold photo_full, photo_bytes.
  assert (is_u32 CRC_photo) by done. repeat yields_step.
  change (CRC_photo =? CRC_photoEmpty) with false. change (CRC_photo =? CRC_photo) with true.
  cbn iota. repeat yields_step.
  eapply yields_bind; [by apply yields_file_reference|]. repeat yields_step.
  eapply yields_bind.
  { intros r tl Hwf Hr. by eapply (photo_size_vector_at sizes sts). }
  cbn [fmap option_fmap option_map]. rewrite pick_best_label. cbn [fst snd].
  eapply yields_bind; [apply yields_lift; solve [reads_solve]|].
  apply yields_pre; [solve_len|]. rewrite <- (app_nil_r (enc32 dc)).
  eapply yields_eq; [eapply yields_bind; [by apply yields_lift, reads_int32|apply yields_upd]|].
  done.
Qed.

(** * Recursion depth of the skippers (src/core/tl_skip.c)

    The media dispatcher caps its recursion at [MEDIA_RECURSION_MAX] levels;
    the RichText walker has no cap, and its depth grows with the input. *)

(** ** Media inside paid media *)

(** messageMediaPaidMedia with one extended media, which holds [inner]. *)
Definition paid_media (inner : list byte) : list byte :=
  enc32 CRC_messageMediaPaidMedia ++ enc64 1 ++ enc32 TL_vector ++ enc32 1 ++
  enc32 CRC_messageExtendedMedia ++ inner.

(** [k] levels of paid media around an empty media. *)
Fixpoint nested_media (k : nat) : list byte :=
  match k with
  | O => enc32 CRC_messageMediaEmpty
  | S k => paid_media (nested_media k)
  end.

Lemma nested_media_len k : 4 <= zlen (nested_media k).
Proof.
  induction k as [|k IH]; [done|]. cbn [nested_media]. unfold paid_media.
  rewrite !zlen_app, zlen_enc64, !zlen_enc32. lia.
Qed.

Lemma nested_media_enc n k : (k < n)%nat -> enc (TRef (MessageMedia n)) (nested_media k).
Proof.
  revert k. induction n as [|n IH]; intros k Hk; [lia|]. destruct k as [|k]; cbn [nested_media].
  - rewrite <- (app_nil_r (enc32 _)).
    refine (enc_ref (MessageMedia (S n)) (Ctor CRC_messageMediaEmpty []) _ _ _); [cbn; tauto|].
    apply ef_nil.
  - refine (enc_ref (MessageMedia (S n)) (Ctor CRC_messageMediaPaidMedia
      [FReq long; FReq (TVec (TRef (MessageExtendedMedia n)))]) _ _ _); [cbn; tauto|].
    cbn [c_fields]. apply ef_req; [by apply enc_bare|].
    rewrite <- (app_nil_r (enc32 TL_vector ++ _)). apply ef_req; [|apply ef_nil].
    apply (enc_vec _ 1); [done|].
    rewrite <- (app_nil_r (enc32 CRC_messageExtendedMedia ++ _)).
    apply many_cons; [|apply many_nil].
    refine (enc_ref (MessageExtendedMedia n)
      (Ctor CRC_messageExtendedMedia [ref (MessageMedia n)]) _ _ _); [cbn; tauto|].
    cbn [c_fields]. rewrite <- (app_nil_r (nested_media k)).
    apply ef_req; [apply IH; lia|apply ef_nil].
Qed.

(** In front of [bs], [m] fails. *)
Definition fails (m : Rd unit) (bs : list byte) : Prop :=
  forall r tl, reader_wf r -> rest r = bs ++ tl -> exists r', m r = Fail r'.

Lemma fails_bind {A} (m : Rd A) (k : A -> Rd unit) bs cs a :
  reads m bs a -> fails (k a) cs -> fails (m ≫= k) (bs ++ cs).
Proof.
  intros Hm Hk r tl Hwf Hr. rewrite <- app_assoc in Hr.
  rewrite (bind_Done _ _ _ _ _ (Hm r _ Hwf Hr)).
  apply (Hk _ tl); [by eapply adv_wf|by eapply rest_adv].
Qed.

Lemma fails_need {n} (m : Rd unit) bs :
  0 < n <= zlen bs -> fails m bs -> fails (need n ;; m) bs.
Proof.
  intros Hn Hm r tl Hwf Hr. destruct (remaining_at r bs tl Hwf Hr); [lia|].
  unfold mbind, M_bind, need, fail_if. rewrite (proj2 (Z.ltb_ge _ _)) by lia. by eapply Hm.
Qed.

Lemma fails_need_ok {n} (m : Rd unit) bs :
  0 < n <= zlen bs -> fails m bs -> fails (need_ok n ;; m) bs.
Proof.
  intros Hn Hm r tl Hwf Hr. destruct (remaining_at r bs tl Hwf Hr) as [Hok ?]; [lia|].
  unfold mbind, M_bind, need_ok, fail_if. rewrite Hok, (proj2 (Z.ltb_ge _ _)) by lia.
  by eapply Hm.
Qed.

Lemma fails_extended media inner :
  4 <= zlen inner -> fails media inner ->
  fails (skip_message_extended_media media) (enc32 CRC_messageExtendedMedia ++ inner).
Proof.
  intros Hl Hm. unfold skip_message_extended_media.
  apply fails_need_ok; [rewrite zlen_app, zlen_enc32; lia|].
  eapply fails_bind; [by apply reads_uint32|]. exact Hm.
Qed.

Lemma fails_paid media inner :
  4 <= zlen inner -> fails media inner ->
  fails (with_null (skip_message_media_body media)) (paid_media inner).
Proof.
  intros Hl Hm r tl Hwf Hr.
  assert (Hv : fails (need_ok 4 ;; tl_read_uint32 ;; need 8 ;; skip_int64 ;;
                      vector_of (skip_message_extended_media media)) (paid_media inner)).
  { unfold paid_media.
    apply fails_need_ok; [rewrite !zlen_app, zlen_enc64, !zlen_enc32; lia|].
    eapply fails_bind; [by apply reads_uint32|].
    apply fails_need; [rewrite !zlen_app, zlen_enc64, !zlen_enc32; lia|].
    eapply fails_bind; [by apply reads_skip_int64|]. unfold vector_of.
    apply fails_need; [rewrite !zlen_app, !zlen_enc32; lia|]. unfold vector_body.
    eapply fails_bind; [by apply reads_uint32|].
    apply (fails_bind (mret tt) (fun _ =>
      n ← tl_read_uint32; for_n n (skip_message_extended_media media)) []
      (enc32 1 ++ enc32 CRC_messageExtendedMedia ++ inner) tt); [apply reads_ret|].
    eapply fails_bind; [by apply reads_uint32|]. cbn [for_n repeat_pos].
    by apply fails_extended. }
  destruct (Hv r tl Hwf Hr) as [r' E].
  assert (Hc : exists r1, tl_read_uint32 r = Done CRC_messageMediaPaidMedia r1).
  { eexists. unfold paid_media in Hr. rewrite <- app_assoc in Hr.
    by apply (reads_uint32 CRC_messageMediaPaidMedia ltac:(done) r _ Hwf Hr). }
  destruct Hc as [r1 Hc]. unfold with_null, skip_message_media_body.
  rewrite (bind_Done _ _ _ tt (r, None)) by done.
  unfold mbind, M_bind, lift in E |- *. cbn [fst snd].
  destruct (need_ok 4 r) as [[] r0|r0| |] eqn:E0; [|by eauto|done..]. cbn [fst snd].
  assert (r0 = r) as -> by (unfold need_ok, fail_if in E0; destruct (_ || _); congruence).
  rewrite Hc in *. cbn [fst snd].
  change (switch CRC_messageMediaPaidMedia ?l ?d) with
    (upd_out (S:=TlReader) (set_kind MEDIA_PAID) ;;
     lift (need 8 ;; skip_int64 ;; vector_of (skip_message_extended_media media))).
  unfold mbind, M_bind, lift, upd_out. cbn [fst snd fmap option_fmap option_map].
  rewrite E. by eauto.
Qed.

Lemma nested_media_fails n k : (n <= k)%nat -> fails (with_null (media_ex_at n)) (nested_media k).
Proof.
  revert k. induction n as [|n IH]; intros k Hk.
  - intros r tl _ _. by exists r.
  - destruct k as [|k]; [lia|]. cbn [nested_media media_ex_at].
    apply fails_paid; [apply nested_media_len|]. apply IH. lia.
Qed.

(** The media walker steps over up to three levels of paid media
    around another one, four levels in all, and rejects any deeper nesting:
    server data cannot drive its recursion further. *)
Theorem media_depth_capped k :
  ((k < MEDIA_RECURSION_MAX)%nat -> reads tl_skip_message_media (nested_media k) tt) /\
  ((MEDIA_RECURSION_MAX <= k)%nat -> fails tl_skip_message_media (nested_media k)).
Proof.
  split; intros Hk.
  - apply reads_MessageMedia. by apply nested_media_enc.
  - by apply nested_media_fails.
Qed.

(** ** RichText *)

(** [n] textBold around an empty text. *)
Fixpoint nested_bold (n : nat) : list byte :=
  match n with
  | O => enc32 CRC_textEmpty
  | S n => enc32 CRC_textBold ++ nested_bold n
  end.

Lemma nested_bold_len n : zlen (nested_bold n) = 4 * (Z.of_nat n + 1).
Proof.
  induction n as [|n IH]; [done|]. cbn [nested_bold]. rewrite zlen_app, zlen_enc32, IH. lia.
Qed.

Lemma nested_bold_enc n : enc (TRef RichText) (nested_bold n).
Proof.
  induction n as [|n IH]; cbn [nested_bold].
  - rewrite <- (app_nil_r (enc32 _)).
    refine (enc_ref RichText (Ctor CRC_textEmpty []) _ _ _); [cbn; tauto|apply ef_nil].
  - rewrite <- (app_nil_r (nested_bold n)).
    refine (enc_ref RichText (Ctor CRC_textBold [ref RichText]) _ _ _); [cbn; tauto|].
    cbn [c_fields]. by apply ef_req; [|apply ef_nil].
Qed.

Lemma nested_bold_exhausts n r tl :
  reader_wf r -> rest r = nested_bold n ++ tl -> skip_rich_text_rec n r = NoFuel.
Proof.
  revert r. induction n as [|n IH]; intros r Hwf Hr; [done|]. cbn [nested_bold] in Hr.
  rewrite <- app_assoc in Hr. cbn [skip_rich_text_rec].
  assert (H4 : 4 <= zlen (enc32 CRC_textBold ++ nested_bold n))
    by (rewrite zlen_app, zlen_enc32; pose proof (zlen_nonneg (nested_bold n)); lia).
  destruct (remaining_at r (enc32 CRC_textBold ++ nested_bold n) tl Hwf) as [Hok ?];
    [by rewrite <- app_assoc|lia|].
  rewrite (bind_Done _ _ _ tt r)
    by (unfold need_ok, fail_if; by rewrite Hok, (proj2 (Z.ltb_ge _ _)) by lia).
  rewrite (bind_Done _ _ _ _ _ (reads_uint32 CRC_textBold ltac:(done) r _ Hwf Hr)).
  apply (IH (adv r 4)); [by eapply adv_wf|by eapply rest_adv].
Qed.

(** The RichText walker has no depth cap: [4 * (n + 1)] well-formed
    bytes drive it [n + 1] calls deep, for every [n], since [n] nested calls
    are not enough to walk them. *)
Theorem rich_text_depth_unbounded n :
  enc (TRef RichText) (nested_bold n) /\ zlen (nested_bold n) = 4 * (Z.of_nat n + 1) /\
  reads (skip_rich_text_rec (4 * n + 5)) (nested_bold n) tt /\
  forall r tl, reader_wf r -> rest r = nested_bold n ++ tl -> skip_rich_text_rec n r = NoFuel.
Proof.
  split_and!; [apply nested_bold_enc|apply nested_bold_len| |intros r tl; apply nested_bold_exhausts].
  apply reads_RichText_rec; [rewrite nested_bold_len; lia|apply nested_bold_enc].
Qed.

Lemma media_depth_capped_witness :
  reads tl_skip_message_media (nested_media 3) tt /\ fails tl_skip_message_media (nested_media 4).
Proof.
  split; [apply (media_depth_capped 3)|apply (media_depth_capped 4)]; unfold MEDIA_RECURSION_MAX; lia.
Defined.

Lemma rich_text_depth_unbounded_witness :
  skip_rich_text_rec 2 (tl_reader_init (nested_bold 2) 12) = NoFuel.
Proof.
  apply (rich_text_depth_unbounded 2) with (tl := []); [|reflexivity].
  unfold reader_wf, SIZE_LIM. vm_compute. repeat split; discriminate.
Defined.
