(* ===== verification/TlTheorems.v ===== *)
(** * TL serialization and object skipping: the theorems

    What src/core/tl_serial.c and src/core/tl_skip.c guarantee: the writer
    and the reader are inverse, every skipper is memory safe on arbitrary
    bytes and steps exactly over the objects of the schema, and the
    extracting walkers return the fields of the object. *)

From S2P Require Import Prelude TlSerial TlLogic TlCrc TlSchema TlSkipBase TlSkipParts.
From S2P Require Import TlSkipMedia TlSkipChat TlSkipPage TlSkipMessage TlSkipSafe TlRefine.
From S2P Require Import TlRefineBase TlRefineMedia TlRefineMessage TlExtract.

(** ** Sample encodings *)

(** Build a derivation of [enc] for a concrete encoding. *)
Ltac enc_step :=
  lazymatch goal with
  | |- enc (TBare _) _ => apply enc_bare; reflexivity
  | |- enc TBytes _ => apply enc_str; reflexivity
  | |- enc (TVec _) _ => eapply (enc_vec _ 1); [reflexivity|]
  | |- enc_many _ 0 _ => apply many_nil
  | |- enc_many _ (S _) _ => eapply many_cons
  | |- enc_fields _ [] _ => apply ef_nil
  | |- enc_fields _ (FFlags :: _) _ =>
      eapply ef_flags; [split; [apply Z.leb_le|apply Z.ltb_lt]; reflexivity|]
  | |- enc_fields _ (FReq _ :: _) _ => eapply ef_req
  | |- enc_fields ?e (FOpt ?i ?k ?t :: ?fs) ?bs =>
      lazymatch eval vm_compute in (Z.testbit (nth i e 0) k) with
      | false => refine (ef_opt e i k t fs [] bs (opt_absent t) _)
      | true => eapply ef_opt; [apply opt_present|]
      end
  end.

Definition sample_entity : list byte := enc32 CRC_messageEntityBold ++ enc32 0 ++ enc32 2 ++ [].

Lemma sample_entity_ok : enc (TRef MessageEntity) sample_entity.
Proof.
  refine (enc_ref MessageEntity (Ctor CRC_messageEntityBold [FReq int; FReq int]) _ _ _);
    [cbn; tauto|cbn [c_fields]; unfold int, long; repeat enc_step].
Qed.

Definition sample_peer : list byte := enc32 TL_peerUser ++ enc64 42 ++ [].

Lemma sample_peer_ok : enc (TRef Peer) sample_peer.
Proof.
  refine (enc_ref Peer (Ctor TL_peerUser [FReq long]) _ _ _); [cbn; tauto|cbn [c_fields]; unfold int, long; repeat enc_step].
Qed.

(** A text message with one bold entity (flag 7). *)
Definition sample_message : list byte :=
  enc32 TL_message ++ enc32 128 ++ enc32 0 ++ enc32 7 ++ sample_peer ++ enc32 1700000000 ++
  enc_bytes [Byte.x68; Byte.x69] ++
  (enc32 TL_vector ++ enc32 1 ++ sample_entity ++ []) ++ [].

Lemma sample_message_ok : enc (TRef Message) sample_message.
Proof.
  refine (enc_ref Message (nth 2 (schema_message Message) (Ctor 0 [])) _ _ _); [cbn; tauto|].
  cbn [schema_message nth c_fields]. unfold ref, str, opt, opt2, int, long.
  repeat first [apply sample_peer_ok | apply sample_entity_ok | enc_step].
Qed.

(** ** Skipping *)

(** (C1) [tl_skip_message] steps exactly over a Message: in front of any
    encoding of the schema, whatever follows it, it returns 0 and leaves the
    cursor behind the encoding. *)
Theorem tl_skip_message_refines bs :
  enc (TRef Message) bs -> reads tl_skip_message bs tt.
Proof. apply reads_Message. Qed.

Lemma tl_skip_message_refines_witness : reads tl_skip_message sample_message tt.
Proof. apply tl_skip_message_refines. apply sample_message_ok. Defined.

(** (C2) On every reader over arbitrary server-controlled bytes the message,
    media, draft, notification-settings, chat and user walkers terminate,
    read only inside the buffer, and return or fail with the same buffer and
    no more unread bytes than before. *)
Theorem tl_skip_safe :
  safe tl_skip_message /\ safe tl_skip_message_media_ex /\ safe tl_skip_draft_message /\
  safe tl_skip_peer_notify_settings /\ safe tl_extract_chat /\ safe tl_extract_user.
Proof.
  split_and!; intros b; [apply safe_tl_skip_message|apply safe_tl_skip_message_media_ex|
    apply safe_tl_skip_draft_message|apply safe_tl_skip_peer_notify_settings| |].
  - apply safe_extract_chat_inner.
  - apply safe_extract_user_inner.
Qed.

(** Iterating over a vector of messages stays aligned: [n] calls in
    front of [n] encoded messages succeed and end behind the last one. *)
Theorem message_vector_aligned bss :
  Forall (enc (TRef Message)) bss -> reads (for_n (zlen bss) tl_skip_message) (concat bss) tt.
Proof. intros H. apply reads_for_n; [done|]. eapply Forall_impl; [apply reads_Message|done]. Qed.

Lemma message_vector_aligned_witness :
  reads (for_n 2 tl_skip_message) (sample_message ++ sample_message ++ []) tt.
Proof.
  apply (message_vector_aligned [sample_message; sample_message]).
  repeat constructor; apply sample_message_ok.
Defined.

(** ** Extraction *)

(** [tl_extract_user] in front of a user# object stops behind it and
    fills the summary with the id, the access hash when flag 0 is set, first
    and last name joined by a space and cut to 127 bytes, and the username. *)
Theorem extract_user_fields crc flags flags2 id hash first last uname tail u0 :
  crc = TL_user \/ crc = TL_user2 -> is_u32 flags -> is_u32 flags2 -> is_s64 id -> is_s64 hash ->
  zlen first < 2 ^ 24 -> zlen last < 2 ^ 24 -> zlen uname < 2 ^ 24 ->
  enc_fields [flags; flags2] user_tail_fields tail ->
  yields tl_extract_user (user_bytes crc flags flags2 id hash first last uname tail)
         (Some u0) tt (Some (user_view flags id hash first last uname)).
Proof. apply extract_user_at. Qed.

(** A user with an access hash, both names and nothing else. *)
Lemma extract_user_fields_witness :
  yields tl_extract_user
    (user_bytes TL_user 7 0 99 (-5) [Byte.x41; Byte.x64; Byte.x61] [Byte.x4c] [] [])
    (Some user_zero) tt
    (Some (mkUserSummary 99 (-5) true [Byte.x41; Byte.x64; Byte.x61; Byte.x20; Byte.x4c] [])).
Proof.
  apply (extract_user_fields TL_user 7 0 99 (-5) [Byte.x41; Byte.x64; Byte.x61] [Byte.x4c] [] []
           user_zero); try (split; [apply Z.leb_le|apply Z.ltb_lt]; reflexivity); try reflexivity.
  - by left.
  - unfold user_tail_fields, opt, opt2. repeat enc_step.
Defined.

(** [tl_extract_chat] in front of a channel# object stops behind it and
    fills the summary with the id, the access hash when flag 13 is set, and
    the title cut to 127 bytes. *)
Theorem extract_channel_fields flags flags2 id hash title tail c0 :
  is_u32 flags -> is_u32 flags2 -> is_s64 id -> is_s64 hash -> zlen title < 2 ^ 24 ->
  enc_fields [flags; flags2] channel_tail_fields tail ->
  yields tl_extract_chat (channel_bytes flags flags2 id hash title tail)
         (Some c0) tt (Some (channel_view flags id hash title)).
Proof. apply extract_channel_at. Qed.

Definition sample_channel_tail : list byte := (enc32 CRC_chatPhotoEmpty ++ []) ++ enc32 5 ++ [].

Lemma extract_channel_fields_witness :
  yields tl_extract_chat (channel_bytes 8192 0 31 77 [Byte.x54] sample_channel_tail)
    (Some chat_zero) tt (Some (mkChatSummary 31 77 true [Byte.x54])).
Proof.
  apply (extract_channel_fields 8192 0 31 77 [Byte.x54] sample_channel_tail chat_zero);
    try (split; [apply Z.leb_le|apply Z.ltb_lt]; reflexivity); try reflexivity.
  unfold channel_tail_fields, opt, opt2, ref, int, sample_channel_tail.
  repeat first
    [ refine (enc_ref ChatPhoto (Ctor CRC_chatPhotoEmpty []) _ _ _); [cbn; tauto|cbn [c_fields]]
    | enc_step ].
Defined.

(** The photo walker stops behind a photo# object and stores the id, the
    access hash, the file reference cut to 128 bytes, the DC, and the type
    label of a size that no other size of the photo exceeds (none if every
    size scores below zero). *)
Theorem photo_fields flags id hash fref date sizes sts video dc m :
  is_u32 flags -> is_s64 id -> is_s64 hash -> zlen fref < 2 ^ 24 -> zlen date = 4 ->
  Forall2 (fun b st => reads walk_photo_size b st) sizes sts -> zlen sizes < 2 ^ 32 ->
  enc_opt (Z.testbit flags 1) (TVec (TRef VideoSize)) video -> is_s32 dc ->
  exists lbl,
    yields photo_full (photo_bytes flags id hash fref date sizes video dc) (Some m) tt
           (Some (photo_view id hash fref lbl dc m)) /\
    ((Forall (fun st => fst st <= -1) sts /\ lbl = []) \/
     exists st, In st sts /\ lbl = copy_trunc 8 (snd st) /\
                Forall (fun st' => fst st' <= fst st) sts).
Proof.
  intros Hf Hid Hhash Hfr Hd Hs Hn Hv Hdc. eexists. split; [by apply photo_at|].
  destruct (best_label_max sts (-1) []) as (Hmax & _ & Hc). rewrite Forall_forall.
  destruct Hc as [E|(st & Hin & E)]; rewrite E in *; cbn [fst snd] in *; [by left|].
  right. exists st. rewrite Forall_forall. done.
Qed.

Definition sample_size : list byte :=
  enc32 CRC_photoSize ++ enc_bytes [Byte.x78] ++ enc32 320 ++ enc32 200 ++ enc32 900 ++ [].

Lemma sample_size_reads : reads walk_photo_size sample_size (64000, [Byte.x78]).
Proof.
  unfold walk_photo_size, sample_size.
  apply reads_need_ok; [split; [reflexivity|vm_compute; discriminate]|]. eapply reads_bind; [by apply reads_uint32|].
  eapply reads_bind; [by apply reads_string|]. cbn iota.
  apply reads_switch_skip; [done|]. apply reads_switch_hit; [done|].
  apply reads_need; [split; [reflexivity|vm_compute; discriminate]|]. eapply reads_bind; [by apply reads_int32|].
  eapply reads_bind; [by apply reads_int32|].
  eapply reads_bind; [by apply reads_skip_int32|]. apply reads_ret.
Qed.

Lemma photo_fields_witness :
  exists lbl,
    yields photo_full (photo_bytes 0 5 6 [] (enc32 1) [sample_size] [] 2) (Some media_zero) tt
           (Some (photo_view 5 6 [] lbl 2 media_zero)) /\
    ((Forall (fun st => fst st <= -1) [(64000, [Byte.x78])] /\ lbl = []) \/
     exists st, In st [(64000, [Byte.x78])] /\ lbl = copy_trunc 8 (snd st) /\
                Forall (fun st' => fst st' <= fst st) [(64000, [Byte.x78])]).
Proof.
  apply (photo_fields 0 5 6 [] (enc32 1) [sample_size] [(64000, [Byte.x78])] [] 2 media_zero);
    try (split; [apply Z.leb_le|apply Z.ltb_lt]; reflexivity); try reflexivity.
  - constructor; [apply sample_size_reads|constructor].
  - apply opt_absent.
Defined.

(** ** Writing and reading back *)

(** Writing with [op] at the end of any writer and reading with [rd] from
    where it started gives [a] and ends where the writer ended. *)
Definition round_trip {A} (op : TlWriter -> TlWriter) (rd : Rd A) (a : A) : Prop :=
  forall w tl, writer_inv w -> zlen (w_data (op w) ++ tl) <= SIZE_LIM ->
    rd (mkReader (w_data (op w) ++ tl) (zlen (w_data (op w) ++ tl)) (w_len w)) =
    Done a (mkReader (w_data (op w) ++ tl) (zlen (w_data (op w) ++ tl)) (w_len (op w))).

Lemma round_trip_intro {A} op (rdr : Rd A) bs a :
  appends op bs -> zlen bs < 2 ^ 25 -> (forall w, zlen (w_data w) <= zlen (w_data (op w))) ->
  reads rdr bs a -> round_trip op rdr a.
Proof.
  intros Ha Hb Hmono Hr w tl Hw Hlim. pose proof (Hmono w) as Hm.
  rewrite zlen_app in Hlim. pose proof (zlen_nonneg tl). unfold SIZE_LIM in Hlim.
  destruct (Ha w Hw ltac:(lia)) as [(Hlen & _) Hd].
  assert (Hlw : w_len w = zlen (w_data w)) by apply Hw.
  pose proof (zlen_nonneg bs). pose proof (zlen_nonneg (w_data w)).
  rewrite Hd, zlen_app in Hlim. rewrite Hlen, Hd, Hlw, <- app_assoc.
  set (r := mkReader _ _ _). rewrite (Hr r tl).
  - unfold with_rd, HasReader_self, adv, set_pos, r. cbn. by rewrite (zlen_app (w_data w) bs).
  - change (rd r) with r. unfold reader_wf, r, SIZE_LIM. cbn. autorewrite with zlen. lia.
  - change (rd r) with r. unfold rest, r. cbn [r_data r_len r_pos].
    rewrite (take_ge (_ ++ _)) by (unfold zlen; lia). by rewrite drop_app_exact.
Qed.

Lemma put_mono w bs : zlen (w_data w) <= zlen (w_data (writer_put w bs)).
Proof.
  unfold writer_put, writer_ensure. destruct (_ <=? _); cbn; rewrite zlen_app;
    pose proof (zlen_nonneg bs); lia.
Qed.

Lemma write_bytes_mono w data : zlen (w_data w) <= zlen (w_data (tl_write_bytes w data)).
Proof.
  unfold tl_write_bytes. cbn zeta.
  etransitivity; [apply (put_mono w (bytes_prefix (zlen data)))|].
  set (w1 := writer_put w _).
  set (w2 := if 0 <? zlen data then writer_put w1 data else w1).
  transitivity (zlen (w_data w2)).
  - unfold w2. destruct (0 <? zlen data); [apply put_mono|done].
  - clearbody w2. destruct (0 <? _); [apply put_mono|done].
Qed.

(** A byte string below 16 MiB, written with [tl_write_bytes] behind
    anything, is read back by [tl_read_bytes] whatever follows, with the
    cursor behind its padding. *)
Theorem bytes_round_trip data :
  zlen data < 2 ^ 24 -> round_trip (fun w => tl_write_bytes w data) tl_read_bytes (Some data).
Proof.
  intros Hd. apply (round_trip_intro _ _ (enc_bytes data)).
  - apply appends_bytes.
  - pose proof (enc_bytes_len data). lia.
  - intros w. apply write_bytes_mono.
  - by apply reads_bytes.
Qed.

Lemma bytes_round_trip_witness :
  round_trip (fun w => tl_write_bytes w (replicate 300 Byte.x41)) tl_read_bytes
             (Some (replicate 300 Byte.x41)).
Proof. apply (bytes_round_trip (replicate 300 Byte.x41)). reflexivity. Defined.

(** Every fixed-width scalar is read back as it was written: unsigned
    and signed 32- and 64-bit integers over their whole range, doubles as bit
    patterns, booleans. *)
Theorem scalars_round_trip v32 v64 s32 s64 (b : bool) :
  is_u32 v32 -> is_u64 v64 -> is_s32 s32 -> is_s64 s64 ->
  round_trip (fun w => tl_write_uint32 w v32) tl_read_uint32 v32 /\
  round_trip (fun w => tl_write_uint64 w v64) tl_read_uint64 v64 /\
  round_trip (fun w => tl_write_int32 w s32) tl_read_int32 s32 /\
  round_trip (fun w => tl_write_int64 w s64) tl_read_int64 s64 /\
  round_trip (fun w => tl_write_double w v64) tl_read_double v64 /\
  round_trip (fun w => tl_write_bool w (if b then 1 else 0)) tl_read_bool (if b then 1 else 0).
Proof.
  intros H1 H2 H3 H4.
  assert (L4 : forall v, zlen (enc32 v) < 2 ^ 25) by (intros; rewrite zlen_enc32; lia).
  assert (L8 : forall v, zlen (enc64 v) < 2 ^ 25) by (intros; rewrite zlen_enc64; lia).
  split_and!.
  - apply (round_trip_intro _ _ (enc32 v32));
      [apply appends_uint32|apply L4|intros w; apply put_mono|by apply reads_uint32].
  - apply (round_trip_intro _ _ (enc64 v64));
      [apply appends_uint64|apply L8|intros w; apply put_mono|by apply reads_uint64].
  - apply (round_trip_intro _ _ (enc32 s32));
      [apply appends_int32|apply L4|intros w; apply put_mono|by apply reads_int32].
  - apply (round_trip_intro _ _ (enc64 s64));
      [apply appends_int64|apply L8|intros w; apply put_mono|by apply reads_int64].
  - apply (round_trip_intro _ _ (enc64 v64));
      [apply appends_uint64|apply L8|intros w; apply put_mono|by apply reads_uint64].
  - apply (round_trip_intro _ _ (enc_bool b));
      [apply appends_bool|apply L4|intros w; apply put_mono|apply reads_bool].
Qed.

Lemma scalars_round_trip_witness :
  round_trip (fun w => tl_write_uint32 w 1) tl_read_uint32 1 /\
  round_trip (fun w => tl_write_uint64 w 2) tl_read_uint64 2 /\
  round_trip (fun w => tl_write_int32 w (-7)) tl_read_int32 (-7) /\
  round_trip (fun w => tl_write_int64 w (-9)) tl_read_int64 (-9) /\
  round_trip (fun w => tl_write_double w 2) tl_read_double 2 /\
  round_trip (fun w => tl_write_bool w (if true then 1 else 0)) tl_read_bool (if true then 1 else 0).
Proof.
  apply (scalars_round_trip 1 2 (-7) (-9) true);
    split; try (apply Z.leb_le; reflexivity); apply Z.ltb_lt; reflexivity.
Defined.

(** The writes a caller makes. *)
Inductive write_op :=
| WInt32 (v : Z) | WUint32 (v : Z) | WInt64 (v : Z) | WUint64 (v : Z) | WRaw (bs : list byte)
| WBytes (bs : list byte) | WBool (b : bool) | WVector (n : Z).

Definition run_write (w : TlWriter) (op : write_op) : TlWriter :=
  match op with
  | WInt32 v => tl_write_int32 w v
  | WUint32 v => tl_write_uint32 w v
  | WInt64 v => tl_write_int64 w v
  | WUint64 v => tl_write_uint64 w v
  | WRaw bs => tl_write_raw w bs
  | WBytes bs => tl_write_bytes w bs
  | WBool b => tl_write_bool w (if b then 1 else 0)
  | WVector n => tl_write_vector_begin w n
  end.

Definition bytes_of_write (op : write_op) : list byte :=
  match op with
  | WInt32 v | WUint32 v => enc32 v
  | WInt64 v | WUint64 v => enc64 v
  | WRaw bs => bs
  | WBytes bs => enc_bytes bs
  | WBool b => enc_bool b
  | WVector n => enc32 TL_VECTOR_CTOR ++ enc32 n
  end.

Lemma run_write_appends op : appends (fun w => run_write w op) (bytes_of_write op).
Proof.
  destruct op; cbn [run_write bytes_of_write];
    [apply appends_int32|apply appends_uint32|apply appends_int64|apply appends_uint64|
     apply appends_raw|apply appends_bytes|apply appends_bool|apply appends_vector_begin].
Qed.

(** Any sequence of writes into a fresh writer leaves exactly the
    concatenated encodings, a length that counts them, and a capacity that
    covers every byte copied: no write passes the end of the allocation. *)
Theorem writes_append ops :
  zlen (concat (map bytes_of_write ops)) <= 2 ^ 63 ->
  let w := fold_left run_write ops tl_writer_init in
  w_data w = concat (map bytes_of_write ops) /\ w_len w = zlen (w_data w) /\ w_len w <= w_cap w.
Proof.
  intros Hz.
  cut (forall w, writer_inv w -> zlen (w_data w) + zlen (concat (map bytes_of_write ops)) <= 2 ^ 63 ->
    writer_inv (fold_left run_write ops w) /\
    w_data (fold_left run_write ops w) = w_data w ++ concat (map bytes_of_write ops)).
  { intros H. destruct (H tl_writer_init writer_init_inv) as [(Hl & Hc & _) Hd];
      [exact Hz|]. cbn zeta. done. }
  clear Hz. induction ops as [|op ops IH]; intros w Hw Hz; cbn [fold_left map concat] in *.
  - by rewrite app_nil_r.
  - rewrite zlen_app in Hz. pose proof (zlen_nonneg (concat (map bytes_of_write ops))).
    destruct (run_write_appends op w Hw ltac:(lia)) as [Hw1 Hd1].
    destruct (IH (run_write w op) Hw1) as [Hw2 Hd2]; [rewrite Hd1, zlen_app; lia|].
    split; [done|]. by rewrite Hd2, Hd1, app_assoc.
Qed.

Lemma writes_append_witness :
  let w := fold_left run_write [WUint32 1; WBytes (replicate 254 Byte.x41); WBool true] tl_writer_init in
  w_data w = concat (map bytes_of_write [WUint32 1; WBytes (replicate 254 Byte.x41); WBool true]) /\
  w_len w = zlen (w_data w) /\ w_len w <= w_cap w.
Proof.
  apply (writes_append [WUint32 1; WBytes (replicate 254 Byte.x41); WBool true]).
  vm_compute. discriminate.
Defined.
