(* ===== verification/CLib.v ===== *)
(** * The part of the C library that the text code uses

    String literals, [strtol] and its relatives in base 10, decimal printing,
    and [snprintf] with one string. *)

From Stdlib Require Import String.
From S2P Require Import Prelude.

#[local] Open Scope Z_scope.

(** ** Strings *)

#[global] Instance byte_eq_decision : EqDecision byte := Byte.byte_eq_dec.

(** The bytes of a literal. *)
Definition ascii (s : String.string) : list byte := String.list_byte_of_string s.

(** A C string: no byte of it is the terminator. *)
Definition no_nul (l : list byte) : Prop := Forall (fun b => b <> Byte.x00) l.

(** [strcmp(a, b) == 0] *)
Definition str_eq (a b : list byte) : bool := bool_decide (a = b).

(** [snprintf(out, cap, "%s", s)]: what the buffer holds afterwards, for
    [cap > 0]. *)
Definition snprintf_s (cap : Z) (s : list byte) : list byte := take (Z.to_nat (cap - 1)) s.

(** ** Numbers *)

Definition is_digit (b : byte) : bool := (48 <=? byte.unsigned b) && (byte.unsigned b <=? 57).

(** The value of a string of decimal digits. *)
Definition decimal (ds : list byte) : Z :=
  fold_left (fun v d => 10 * v + (byte.unsigned d - 48)) ds 0.

(** [isspace] in the C locale. *)
Definition is_space (b : byte) : bool :=
  (byte.unsigned b =? 32) || ((9 <=? byte.unsigned b) && (byte.unsigned b <=? 13)).

Fixpoint skip_space (s : list byte) : list byte :=
  match s with
  | b :: l => if is_space b then skip_space l else s
  | [] => []
  end.

(** The longest prefix of digits and what follows it. *)
Fixpoint span_digits (s : list byte) : list byte * list byte :=
  match s with
  | b :: l => if is_digit b then let '(ds, r) := span_digits l in (b :: ds, r) else ([], s)
  | [] => ([], [])
  end.

Definition long_clamp (v : Z) : Z := Z.max (- 2 ^ 63) (Z.min (2 ^ 63 - 1) v).

(** The number at the start of a string, behind white space and an optional
    sign, and the string behind its last digit; [None] when there is none. *)
Definition scan_long (s : list byte) : option (Z * list byte) :=
  let '(neg, t) :=
    match skip_space s with
    | Byte.x2d :: t => (true, t)
    | Byte.x2b :: t => (false, t)
    | t => (false, t)
    end in
  match span_digits t with
  | ([], _) => None
  | (ds, r) => Some (long_clamp (if (neg : bool) then - decimal ds else decimal ds), r)
  end.

(** [strtol(s, &end, 10)] with a 64-bit [long], and [strtoll]: the value and
    the string at [end]. *)
Definition strtol (s : list byte) : Z * list byte := default (0, s) (scan_long s).

(** [%d] and [%lld]: digits of a number below [10 ^ fuel], most significant
    first. *)
Definition digit (v : Z) : byte := byte.of_Z (48 + v).

Fixpoint print_nat (fuel : nat) (v : Z) : list byte :=
  match fuel with
  | O => []
  | S fuel => if v <? 10 then [digit v] else print_nat fuel (v / 10) ++ [digit (v mod 10)]
  end.

Definition print_dec (v : Z) : list byte :=
  if v <? 0 then Byte.x2d :: print_nat 20 (- v) else print_nat 20 v.

(** ** Lines *)

Definition newline : byte := Byte.x0a.
Definition carriage : byte := Byte.x0d.
Definition tab : byte := Byte.x09.

(** At most [k] bytes, up to and with the first newline, and the rest. *)
Fixpoint line_upto (k : nat) (s : list byte) : list byte * list byte :=
  match k, s with
  | S k, b :: s =>
      if Byte.eqb b newline then ([b], s) else let '(l, r) := line_upto k s in (b :: l, r)
  | _, _ => ([], s)
  end.

(** [fgets(buf, cap, fp)] on what is left of the file: the bytes before the
    terminator it stores, and what is left then; [None] at the end. *)
Definition fgets (cap : nat) (s : list byte) : option (list byte * list byte) :=
  match s with
  | [] => None
  | _ => Some (line_upto (cap - 1) s)
  end.

(** The part of a string before its first [c], and [strchr(s, c) + 1] when
    there is one. *)
Fixpoint split_at (c : byte) (s : list byte) : list byte * option (list byte) :=
  match s with
  | [] => ([], None)
  | b :: s => if Byte.eqb b c then ([], Some s) else let '(l, r) := split_at c s in (b :: l, r)
  end.

(** ** Lemmas *)

Lemma cstr_no_nul l : no_nul l -> cstr l = l.
Proof.
  induction 1 as [|b l Hb _ IH]; [done|]. cbn. destruct (Byte.eqb b Byte.x00) eqn:E.
  - apply Byte.byte_dec_bl in E. done.
  - by rewrite IH.
Qed.

Lemma no_nul_cstr s : no_nul (cstr s).
Proof.
  induction s as [|b s IH]; cbn; [constructor|]. destruct (Byte.eqb b Byte.x00) eqn:E; [constructor|].
  constructor; [|done]. intros ->. done.
Qed.

Lemma no_nul_take n l : no_nul l -> no_nul (take n l).
Proof. apply Forall_take. Qed.

(** What a truncating copy leaves in an array. *)
Lemma copy_trunc_ok cap s : 0 < cap -> zlen (copy_trunc cap s) < cap /\ no_nul (copy_trunc cap s).
Proof.
  intros Hc. unfold copy_trunc, strlen. cbn zeta. split; [|apply no_nul_take, no_nul_cstr].
  unfold zlen. rewrite length_take. destruct (Z.leb_spec cap (Z.of_nat (length (cstr s)))); lia.
Qed.

Lemma copy_trunc_fits cap s : no_nul s -> zlen s < cap -> copy_trunc cap s = s.
Proof.
  intros Hn Hc. unfold copy_trunc, strlen. cbn zeta. rewrite (cstr_no_nul s Hn).
  rewrite (proj2 (Z.leb_gt _ _)) by done. apply take_ge. unfold zlen. lia.
Qed.

Lemma digits_no_nul ds : Forall (fun b => is_digit b = true) ds -> no_nul ds.
Proof. intros H. eapply Forall_impl; [|exact H]. intros b Hb ->. done. Qed.

Lemma str_eq_true a b : str_eq a b = true <-> a = b.
Proof. apply bool_decide_eq_true. Qed.

Lemma str_eq_refl a : str_eq a a = true.
Proof. by apply str_eq_true. Qed.

Lemma str_eq_neq a b : a <> b -> str_eq a b = false.
Proof. apply bool_decide_eq_false_2. Qed.

Lemma decimal_snoc ds d : decimal (ds ++ [d]) = 10 * decimal ds + (byte.unsigned d - 48).
Proof. unfold decimal. by rewrite fold_left_app. Qed.

Lemma digit_unsigned v : 0 <= v < 10 -> byte.unsigned (digit v) = 48 + v.
Proof.
  intros H. unfold digit. rewrite byte.unsigned_of_Z. unfold byte.wrap. apply Z.mod_small. lia.
Qed.

Lemma digit_is_digit v : 0 <= v < 10 -> is_digit (digit v) = true.
Proof. intros H. unfold is_digit. rewrite digit_unsigned by done. lia. Qed.

Lemma digit_not_space b : is_digit b = true -> is_space b = false.
Proof. unfold is_digit, is_space. lia. Qed.

Lemma print_nat_spec fuel v :
  0 <= v < 10 ^ Z.of_nat fuel -> (0 < fuel)%nat ->
  Forall (fun b => is_digit b = true) (print_nat fuel v) /\ decimal (print_nat fuel v) = v /\
  (1 <= length (print_nat fuel v) <= fuel)%nat.
Proof.
  revert v. induction fuel as [|fuel IH]; intros v Hv Hf; [lia|]. cbn [print_nat].
  destruct (Z.ltb_spec v 10) as [Hs|Hl].
  - split_and!; [repeat constructor; apply digit_is_digit; lia| |cbn; lia|cbn; lia].
    unfold decimal. cbn. rewrite digit_unsigned; lia.
  - pose proof (Z.mod_pos_bound v 10). pose proof (Z.div_mod v 10).
    assert (Hd : 0 <= v / 10 < 10 ^ Z.of_nat fuel).
    { split; [apply Z.div_pos; lia|]. apply Z.div_lt_upper_bound; [lia|].
      rewrite Nat2Z.inj_succ, Z.pow_succ_r in Hv by lia. lia. }
    assert (Hf' : (0 < fuel)%nat).
    { destruct fuel; [|lia]. change (10 ^ Z.of_nat 0) with 1 in Hd. lia. }
    destruct (IH _ Hd Hf') as (Hall & Hdec & Hlen).
    rewrite length_app, decimal_snoc, Hdec, digit_unsigned by lia. cbn [length].
    split_and!; [|lia|lia|lia]. apply Forall_app. split; [done|].
    repeat constructor. apply digit_is_digit. lia.
Qed.

Lemma span_digits_app ds r :
  Forall (fun b => is_digit b = true) ds ->
  match r with b :: _ => is_digit b = false | [] => True end ->
  span_digits (ds ++ r) = (ds, r).
Proof.
  intros Hd Hr. induction Hd as [|d ds Hd _ IH]; cbn.
  - destruct r as [|b r]; [done|]. cbn. by rewrite Hr.
  - by rewrite Hd, IH.
Qed.

Lemma skip_space_none b l : is_space b = false -> skip_space (b :: l) = b :: l.
Proof. intros H. cbn. by rewrite H. Qed.

(** Reading back what was printed, whatever follows that is no digit. *)
Lemma scan_long_print v r :
  is_s64 v -> match r with b :: _ => is_digit b = false | [] => True end ->
  scan_long (print_dec v ++ r) = Some (v, r).
Proof.
  intros Hv Hr. unfold is_s64 in Hv. unfold print_dec, scan_long.
  destruct (Z.ltb_spec v 0) as [Hn|Hp].
  - destruct (print_nat_spec 20 (- v)) as (Hd & He & Hl); [lia|lia|].
    cbn [app]. rewrite skip_space_none by done. rewrite span_digits_app by done.
    destruct (print_nat 20 (- v)) as [|d ds]; [cbn in Hl; lia|].
    rewrite He. do 2 f_equal. unfold long_clamp. lia.
  - destruct (print_nat_spec 20 v) as (Hd & He & Hl); [lia|lia|].
    destruct (print_nat 20 v) as [|d ds]; [cbn in Hl; lia|]. cbn [app].
    inversion Hd as [|? ? Hd1 Hds]; subst.
    rewrite skip_space_none by (by apply digit_not_space).
    assert (E : match d :: ds ++ r with
            | Byte.x2d :: t => (true, t) | Byte.x2b :: t => (false, t) | t => (false, t) end
            = (false, (d :: ds) ++ r)) by (destruct d; done).
    rewrite E, span_digits_app by done. do 2 f_equal. unfold long_clamp. lia.
Qed.

Lemma strtol_print v r :
  is_s64 v -> match r with b :: _ => is_digit b = false | [] => True end ->
  strtol (print_dec v ++ r) = (v, r).
Proof. intros Hv Hr. unfold strtol. by rewrite scan_long_print. Qed.

Lemma print_dec_len v : is_s64 v -> (length (print_dec v) <= 21)%nat.
Proof.
  intros Hv. unfold is_s64 in Hv. unfold print_dec. destruct (Z.ltb_spec v 0).
  - destruct (print_nat_spec 20 (- v)) as (_ & _ & Hl); cbn [length]; lia.
  - destruct (print_nat_spec 20 v) as (_ & _ & Hl); lia.
Qed.

Lemma print_dec_nonempty v : is_s64 v -> (0 < length (print_dec v))%nat.
Proof.
  intros Hv. unfold is_s64 in Hv. unfold print_dec. destruct (Z.ltb_spec v 0).
  - cbn [length]. lia.
  - destruct (print_nat_spec 20 v) as (_ & _ & Hl); lia.
Qed.

(** A printed number is made of digits and a sign. *)
Lemma print_dec_chars v :
  is_s64 v -> Forall (fun b => is_digit b = true \/ b = Byte.x2d) (print_dec v).
Proof.
  intros Hv. unfold is_s64 in Hv. unfold print_dec. destruct (Z.ltb_spec v 0).
  - destruct (print_nat_spec 20 (- v)) as (Hd & _); [lia|lia|]. constructor; [by right|].
    eapply Forall_impl; [|exact Hd]. by left.
  - destruct (print_nat_spec 20 v) as (Hd & _); [lia|lia|].
    eapply Forall_impl; [|exact Hd]. by left.
Qed.

Lemma print_dec_no_nul v : is_s64 v -> no_nul (print_dec v).
Proof.
  intros Hv. eapply Forall_impl; [|by apply print_dec_chars].
  intros b [Hb| ->]; [by intros ->|done].
Qed.

Lemma snprintf_s_len cap s : 0 < cap -> zlen (snprintf_s cap s) < cap.
Proof. intros Hc. unfold snprintf_s, zlen. rewrite length_take. lia. Qed.

Lemma snprintf_s_fits cap s : zlen s < cap -> snprintf_s cap s = s.
Proof. intros Hc. unfold snprintf_s, zlen in *. apply take_ge. lia. Qed.

Lemma byte_eqb_refl b : Byte.eqb b b = true.
Proof. by apply Byte.byte_dec_lb. Qed.

Lemma byte_eqb_neq b c : b <> c -> Byte.eqb b c = false.
Proof. intros H. destruct (Byte.eqb b c) eqn:E; [|done]. by apply Byte.byte_dec_bl in E. Qed.

Lemma line_upto_line k l r :
  Forall (fun b => b <> newline) l -> (length l < k)%nat ->
  line_upto k (l ++ newline :: r) = (l ++ [newline], r).
Proof.
  intros Hl. revert k. induction Hl as [|b l Hb _ IH]; intros k Hk; (destruct k as [|k]; [cbn in Hk; lia|]).
  - done.
  - cbn [app line_upto]. rewrite byte_eqb_neq, IH by (done || (cbn in Hk; lia)). done.
Qed.

(** A line that fits its buffer. *)
Lemma fgets_line cap l r :
  Forall (fun b => b <> newline) l -> (S (length l) < cap)%nat ->
  fgets cap (l ++ newline :: r) = Some (l ++ [newline], r).
Proof.
  intros Hl Hc. unfold fgets. destruct (l ++ newline :: r) as [|b s] eqn:E.
  - by destruct l.
  - rewrite <- E. by rewrite line_upto_line by (done || lia).
Qed.

Lemma split_at_app c l r :
  Forall (fun b => b <> c) l -> split_at c (l ++ c :: r) = (l, Some r).
Proof.
  induction 1 as [|b l Hb _ IH]; cbn [app split_at]; [by rewrite byte_eqb_refl|].
  by rewrite byte_eqb_neq, IH.
Qed.

Lemma split_at_none c l : Forall (fun b => b <> c) l -> split_at c l = (l, None).
Proof.
  induction 1 as [|b l Hb _ IH]; cbn [split_at]; [done|]. by rewrite byte_eqb_neq, IH.
Qed.

(** A byte that is no digit and no minus sign is not in a printed number. *)
Lemma print_dec_avoids v c :
  is_s64 v -> is_digit c = false -> c <> Byte.x2d -> Forall (fun b => b <> c) (print_dec v).
Proof.
  intros Hv Hd Hm. eapply Forall_impl; [|by apply print_dec_chars].
  intros b [Hb| ->]; [|congruence]. intros ->. congruence.
Qed.
