(* ===== verification/World.v ===== *)
(** * The outside world: randomness, clock, socket, files

    What the core calls and does not implement: OpenSSL (through
    src/core/crypto.c), [time], the TCP socket (src/platform/posix/socket.c)
    and stdio.  Randomness and time are arbitrary sequences, the socket
    follows an arbitrary schedule of full, partial, interrupted and failed
    calls, so a theorem over all worlds holds whatever the environment does.
    The cryptographic primitives are a class whose laws are the documented
    behaviour of AES, SHA-256 and SHA-1. *)

From S2P Require Import Prelude.

(** ** Cryptographic primitives (src/core/crypto.h) *)

Class Crypto := {
  crypto_sha256 : list byte -> list byte;
  crypto_sha1 : list byte -> list byte;
  (** one block under a 256-bit key *)
  crypto_aes_encrypt_block : list byte -> list byte -> list byte;
  crypto_aes_decrypt_block : list byte -> list byte -> list byte;
}.

(** What the core relies on: digest and block sizes, and that decryption
    inverts encryption under the same key. *)
Class CryptoLaws (C : Crypto) : Prop := {
  sha256_len d : length (crypto_sha256 d) = 32%nat;
  sha1_len d : length (crypto_sha1 d) = 20%nat;
  aes_encrypt_len k b : length b = 16%nat -> length (crypto_aes_encrypt_block k b) = 16%nat;
  aes_decrypt_len k b : length b = 16%nat -> length (crypto_aes_decrypt_block k b) = 16%nat;
  aes_decrypt_encrypt k b :
    length k = 32%nat -> length b = 16%nat ->
    crypto_aes_decrypt_block k (crypto_aes_encrypt_block k b) = b;
}.

(** An instance that satisfies the laws: digests that keep the first bytes,
    and a block cipher that reverses the block. *)
Definition pad_to (n : nat) (d : list byte) : list byte := take n (d ++ replicate n Byte.x00).

Definition toy_crypto : Crypto := {|
  crypto_sha256 := pad_to 32;
  crypto_sha1 := pad_to 20;
  crypto_aes_encrypt_block _ b := rev b;
  crypto_aes_decrypt_block _ b := rev b;
|}.

Lemma pad_to_len n d : length (pad_to n d) = n.
Proof. unfold pad_to. rewrite length_take, length_app, length_replicate. lia. Qed.

#[global] Instance toy_crypto_laws : CryptoLaws toy_crypto.
Proof.
  split; cbn; intros; auto using pad_to_len; by rewrite ?length_rev, ?rev_involutive.
Qed.

(** ** Socket *)

(** Results of a [send] or [recv] call: [Some n] bytes may move, or the call
    fails, with [EINTR]/[EAGAIN] or with another error. *)
Inductive sock_ev := SockN (n : Z) | SockRetry | SockErr.

(** The schedule of the calls to come; the bytes sent so far; the bytes the
    peer has sent that were not received yet; the results of the next
    [socket] and [connect].  Behind the end of a schedule calls fail. *)
Record Net := mkNet {
  n_send_evs : list sock_ev;
  n_recv_evs : list sock_ev;
  n_out : list byte;
  n_in : list byte;
  n_socket : Z;
  n_connect : Z;
}.

(** The value returned and whether [errno] is [EINTR] or [EAGAIN]. *)
Definition sys_socket_send (data : list byte) : M Net (Z * bool) := fun w =>
  match n_send_evs w with
  | [] => Done (-1, false) w
  | ev :: evs =>
      let w' := mkNet evs (n_recv_evs w) (n_out w) (n_in w) (n_socket w) (n_connect w) in
      match ev with
      | SockRetry => Done (-1, true) w'
      | SockErr => Done (-1, false) w'
      | SockN n =>
          let k := Z.min (Z.max 0 n) (zlen data) in
          Done (k, false) (mkNet evs (n_recv_evs w) (n_out w ++ take (Z.to_nat k) data) (n_in w)
                                 (n_socket w) (n_connect w))
      end
  end.

(** [recv] into a buffer of [cap] bytes: the bytes received (none when the
    peer has closed), or [-1]. *)
Definition sys_socket_recv (cap : Z) : M Net (option (list byte) * bool) := fun w =>
  match n_recv_evs w with
  | [] => Done (None, false) w
  | ev :: evs =>
      let w' := mkNet (n_send_evs w) evs (n_out w) (n_in w) (n_socket w) (n_connect w) in
      match ev with
      | SockRetry => Done (None, true) w'
      | SockErr => Done (None, false) w'
      | SockN n =>
          let k := Z.min (Z.max 0 n) cap in
          Done (Some (take (Z.to_nat k) (n_in w)), false)
               (mkNet (n_send_evs w) evs (n_out w) (drop (Z.to_nat k) (n_in w))
                      (n_socket w) (n_connect w))
      end
  end.

(** ** The world *)

Record World := mkWorld {
  w_rand : nat -> byte;   (** the bytes the random generator will produce *)
  w_rpos : nat;           (** how many were taken *)
  w_clock : nat -> Z;     (** the values [time(NULL)] will return *)
  w_ticks : nat;          (** how many calls were made *)
  w_net : Net;
}.

Definition set_net (w : World) (n : Net) : World :=
  mkWorld (w_rand w) (w_rpos w) (w_clock w) (w_ticks w) n.

(** [crypto_rand_bytes]; the generator does not fail. *)
Definition crypto_rand_bytes (n : nat) : M World (list byte) := fun w =>
  Done (map (w_rand w) (seq (w_rpos w) n))
       (mkWorld (w_rand w) (w_rpos w + n) (w_clock w) (w_ticks w) (w_net w)).

(** [(uint64_t)time(NULL)] *)
Definition time_now : M World Z := fun w =>
  Done (u64 (w_clock w (w_ticks w)))
       (mkWorld (w_rand w) (w_rpos w) (w_clock w) (S (w_ticks w)) (w_net w)).

(** Run on the second component, on the socket, on parts of a triple. *)
Definition on_snd {S T A} (m : M T A) : M (S * T) A := fun st =>
  match m (snd st) with
  | Done a t => Done a (fst st, t)
  | Fail t => Fail (fst st, t)
  | Fault => Fault
  | NoFuel => NoFuel
  end.

Definition on_net {A} (m : M Net A) : M World A := fun w =>
  match m (w_net w) with
  | Done a n => Done a (set_net w n)
  | Fail n => Fail (set_net w n)
  | Fault => Fault
  | NoFuel => NoFuel
  end.

(** The object a function works on. *)
Definition get_fst {S T} : M (S * T) S := fun st => Done (fst st) st.
Definition put_fst {S T} (s : S) : M (S * T) unit := fun st => Done tt (s, snd st).

Lemma rand_bytes_len n w bs w' :
  crypto_rand_bytes n w = Done bs w' -> length bs = n /\ w_net w' = w_net w.
Proof. intros [= <- <-]. by rewrite length_map, length_seq. Qed.
