(* ===== verification/IgeAes.v ===== *)
(** * AES-256-IGE (src/core/ige_aes.c)

    IGE mode over the single-block primitive.  The main theorem: decryption
    inverts encryption for every key, IV and whole number of blocks. *)

From S2P Require Import Prelude World.

(** ** XOR of blocks *)

Definition byte_xor (a b : byte) : byte :=
  byte.of_Z (Z.lxor (byte.unsigned a) (byte.unsigned b)).

(** [for (j = 0; j < 16; j++) out[j] = a[j] ^ b[j];] *)
Definition xor_block (a b : list byte) : list byte := zip_with byte_xor a b.

Lemma byte_xor_cancel a b : byte_xor (byte_xor a b) b = a.
Proof.
  apply byte.unsigned_inj. unfold byte_xor. rewrite !byte.unsigned_of_Z.
  pose proof (byte.unsigned_range a). pose proof (byte.unsigned_range b).
  unfold byte.wrap. rewrite (Z.mod_small (Z.lxor (byte.unsigned a) (byte.unsigned b))).
  - rewrite Z.lxor_assoc, Z.lxor_nilpotent, Z.lxor_0_r. by apply Z.mod_small.
  - split; [apply Z.lxor_nonneg; lia|].
    destruct (Z.eq_dec (Z.lxor (byte.unsigned a) (byte.unsigned b)) 0) as [->|Hne]; [lia|].
    apply Z.log2_lt_pow2; [pose proof (proj2 (Z.lxor_nonneg (byte.unsigned a) (byte.unsigned b))); lia|].
    pose proof (Z.log2_lxor (byte.unsigned a) (byte.unsigned b)).
    assert (forall x, 0 <= x < 2 ^ 8 -> Z.log2 x < 8) as Hlog.
    { intros x Hx. destruct (Z.eq_dec x 0) as [->|]; [done|]. apply Z.log2_lt_pow2; lia. }
    pose proof (Hlog (byte.unsigned a)). pose proof (Hlog (byte.unsigned b)). lia.
Qed.

Lemma xor_block_len a b : length a = 16%nat -> length b = 16%nat -> length (xor_block a b) = 16%nat.
Proof. intros Ha Hb. unfold xor_block. rewrite length_zip_with. lia. Qed.

Lemma xor_block_cancel a b : length a = length b -> xor_block (xor_block a b) b = a.
Proof.
  unfold xor_block. revert b. induction a as [|x a IH]; intros [|y b] H; try done.
  cbn. rewrite byte_xor_cancel, IH by (cbn in H; lia). done.
Qed.

(** ** The mode *)

Section Ige.
Context `{C : Crypto}.

(** The loop over the blocks; [iv_c] and [iv_p] are the previous ciphertext
    and plaintext blocks. *)
Fixpoint ige_encrypt_loop (blocks : nat) (key plain iv_c iv_p : list byte) : list byte :=
  match blocks with
  | O => []
  | S blocks =>
      let p := take 16 plain in
      let buf := xor_block p iv_c in
      let c := xor_block (crypto_aes_encrypt_block key buf) iv_p in
      c ++ ige_encrypt_loop blocks key (drop 16 plain) c p
  end.

Fixpoint ige_decrypt_loop (blocks : nat) (key cipher iv_c iv_p : list byte) : list byte :=
  match blocks with
  | O => []
  | S blocks =>
      let c := take 16 cipher in
      let buf := xor_block c iv_p in
      let p := xor_block (crypto_aes_decrypt_block key buf) iv_c in
      p ++ ige_decrypt_loop blocks key (drop 16 cipher) c p
  end.

(** The contents of the output buffer after the call; the early returns
    leave it as it was. *)
Definition aes_ige_encrypt (plain key iv out : list byte) : list byte :=
  let len := zlen plain in
  if len =? 0 then out
  else if negb (len mod 16 =? 0) then out
  else
    ige_encrypt_loop (Z.to_nat (len / 16)) (take 32 key) plain (take 16 iv)
                     (take 16 (drop 16 iv)) ++ drop (length plain) out.

Definition aes_ige_decrypt (cipher key iv out : list byte) : list byte :=
  let len := zlen cipher in
  if len =? 0 then out
  else if negb (len mod 16 =? 0) then out
  else
    ige_decrypt_loop (Z.to_nat (len / 16)) (take 32 key) cipher (take 16 iv)
                     (take 16 (drop 16 iv)) ++ drop (length cipher) out.

(** ** Correctness *)

Context {HC : CryptoLaws C}.

Lemma ige_encrypt_loop_len n key plain iv_c iv_p :
  length plain = (16 * n)%nat -> length iv_c = 16%nat -> length iv_p = 16%nat ->
  length (ige_encrypt_loop n key plain iv_c iv_p) = (16 * n)%nat.
Proof.
  revert plain iv_c iv_p. induction n as [|n IH]; intros plain iv_c iv_p Hp Hc Hv; [done|].
  cbn [ige_encrypt_loop]. assert (length (take 16 plain) = 16%nat) by (rewrite length_take; lia).
  rewrite length_app, IH; [rewrite xor_block_len|..]; auto using xor_block_len, aes_encrypt_len.
  - lia.
  - rewrite length_drop. lia.
Qed.

Lemma ige_decrypt_loop_len n key cipher iv_c iv_p :
  length cipher = (16 * n)%nat -> length iv_c = 16%nat -> length iv_p = 16%nat ->
  length (ige_decrypt_loop n key cipher iv_c iv_p) = (16 * n)%nat.
Proof.
  revert cipher iv_c iv_p. induction n as [|n IH]; intros cipher iv_c iv_p Hp Hc Hv; [done|].
  cbn [ige_decrypt_loop]. assert (length (take 16 cipher) = 16%nat) by (rewrite length_take; lia).
  rewrite length_app, IH; [rewrite xor_block_len|..]; auto using xor_block_len, aes_decrypt_len.
  - lia.
  - rewrite length_drop. lia.
Qed.

Lemma ige_loop_inverse n key plain iv_c iv_p :
  length key = 32%nat -> length plain = (16 * n)%nat -> length iv_c = 16%nat ->
  length iv_p = 16%nat ->
  ige_decrypt_loop n key (ige_encrypt_loop n key plain iv_c iv_p) iv_c iv_p = plain.
Proof.
  intros Hk. revert plain iv_c iv_p. induction n as [|n IH]; intros plain iv_c iv_p Hp Hc Hv.
  - by destruct plain.
  - cbn [ige_encrypt_loop ige_decrypt_loop].
    set (p := take 16 plain). assert (Hlp : length p = 16%nat) by (unfold p; rewrite length_take; lia).
    set (c := xor_block (crypto_aes_encrypt_block key (xor_block p iv_c)) iv_p).
    assert (Hlc : length c = 16%nat) by (apply xor_block_len; auto using aes_encrypt_len, xor_block_len).
    rewrite take_app_length', drop_app_length' by done.
    replace (xor_block (crypto_aes_decrypt_block key (xor_block c iv_p)) iv_c) with p.
    + rewrite IH; [apply take_drop|rewrite length_drop; lia|done|done].
    + unfold c. rewrite xor_block_cancel by (rewrite aes_encrypt_len; auto using xor_block_len).
      rewrite aes_decrypt_encrypt by auto using xor_block_len.
      by rewrite xor_block_cancel by congruence.
Qed.

(** Whole buffers. *)
Lemma aes_ige_encrypt_len plain key iv out :
  zlen plain mod 16 = 0 -> 0 < zlen plain -> length iv = 32%nat -> length out = length plain ->
  length (aes_ige_encrypt plain key iv out) = length plain.
Proof.
  intros Hm Hp Hi Ho. unfold aes_ige_encrypt.
  rewrite (proj2 (Z.eqb_neq _ _)), (proj2 (Z.eqb_eq (_ mod _) 0)) by lia. cbn [negb].
  assert (length plain = (16 * Z.to_nat (zlen plain / 16))%nat)
    by (unfold zlen in *; Z.div_mod_to_equations; lia).
  rewrite length_app, ige_encrypt_loop_len, length_drop;
    rewrite ?length_take, ?length_drop; lia.
Qed.

Lemma aes_ige_decrypt_len cipher key iv out :
  zlen cipher mod 16 = 0 -> 0 < zlen cipher -> length iv = 32%nat -> length out = length cipher ->
  length (aes_ige_decrypt cipher key iv out) = length cipher.
Proof.
  intros Hm Hp Hi Ho. unfold aes_ige_decrypt.
  rewrite (proj2 (Z.eqb_neq _ _)), (proj2 (Z.eqb_eq (_ mod _) 0)) by lia. cbn [negb].
  assert (length cipher = (16 * Z.to_nat (zlen cipher / 16))%nat)
    by (unfold zlen in *; Z.div_mod_to_equations; lia).
  rewrite length_app, ige_decrypt_loop_len, length_drop;
    rewrite ?length_take, ?length_drop; lia.
Qed.

Lemma aes_ige_inverse plain key iv out out' :
  zlen plain mod 16 = 0 -> 0 < zlen plain -> length key = 32%nat -> length iv = 32%nat ->
  length out = length plain -> length out' = length plain ->
  aes_ige_decrypt (aes_ige_encrypt plain key iv out) key iv out' = plain.
Proof.
  intros Hm Hp Hk Hi Ho Ho'. pose proof (aes_ige_encrypt_len plain key iv out Hm Hp Hi Ho) as Hl.
  assert (Hz : zlen (aes_ige_encrypt plain key iv out) = zlen plain) by (unfold zlen; by rewrite Hl).
  assert (length plain = (16 * Z.to_nat (zlen plain / 16))%nat)
    by (unfold zlen in *; Z.div_mod_to_equations; lia).
  unfold aes_ige_decrypt. rewrite Hz, Hl.
  rewrite (proj2 (Z.eqb_neq _ _)), (proj2 (Z.eqb_eq (_ mod _) 0)) by lia. cbn [negb].
  rewrite (drop_ge out'), app_nil_r by lia. unfold aes_ige_encrypt.
  rewrite (proj2 (Z.eqb_neq _ _)), (proj2 (Z.eqb_eq (_ mod _) 0)) by lia. cbn [negb].
  rewrite (drop_ge out), app_nil_r by lia.
  apply ige_loop_inverse; rewrite ?length_take, ?length_drop; lia.
Qed.

End Ige.
