(* ===== verification/MtprotoCrypto.v ===== *)
(** * MTProto 2.0 encryption (src/core/mtproto_crypto.c)

    Key derivation, message keys, padding, and the encrypt/decrypt pair.
    Theorems: the padding has the size the protocol prescribes, decryption
    inverts encryption, and decryption accepts a message only when the
    message key matches the plaintext it returns. *)

From S2P Require Import Prelude World IgeAes.
From S2P Require Export CLib.

(** [n] bytes of [l] from offset [off] ([memcpy] from the middle of an array). *)
Definition slice (off n : nat) (l : list byte) : list byte := take n (drop off l).

Lemma slice_len off n l : (off + n <= length l)%nat -> length (slice off n l) = n.
Proof. intros H. unfold slice. rewrite length_take, length_drop. lia. Qed.


(** ** Operations *)

Section Ops.
Context `{C : Crypto}.

(** [x] is 0 for client to server, 8 for server to client. *)
Definition mtproto_derive_keys (auth_key msg_key : list byte) (x : nat) : list byte * list byte :=
  let sha256_a := crypto_sha256 (take 16 msg_key ++ slice x 36 auth_key) in
  let sha256_b := crypto_sha256 (slice (x + 40) 36 auth_key ++ take 16 msg_key) in
  let aes_key := slice 0 8 sha256_a ++ slice 8 16 sha256_b ++ slice 24 8 sha256_a in
  let aes_iv := slice 0 8 sha256_b ++ slice 8 16 sha256_a ++ slice 24 8 sha256_b in
  (aes_key, aes_iv).

Definition mtproto_compute_msg_key (auth_key plain : list byte) (x : nat) : list byte :=
  let hash := crypto_sha256 (slice (88 + x) 32 auth_key ++ plain) in
  slice 8 16 hash.

(** The number of padding bytes for a plaintext of [plain_len] bytes. *)
Definition pad_len (plain_len : Z) : Z :=
  let min_pad := 12 in
  let total := u64 (plain_len + min_pad) in
  let total := Z.land (u64 (total + 15)) (u64 (Z.lnot 15)) in
  u64 (total - plain_len).

Definition mtproto_gen_padding (plain_len : Z) : M World (list byte) :=
  let n := pad_len plain_len in
  if 0 <? n then crypto_rand_bytes (Z.to_nat n) else mret [].

(** The ciphertext and the message key. *)
Definition mtproto_encrypt (plain auth_key : list byte) (x : nat)
    : M World (list byte * list byte) :=
  padding ← mtproto_gen_padding (zlen plain);
  let padded := plain ++ padding in
  let msg_key := mtproto_compute_msg_key auth_key padded x in
  let keys := mtproto_derive_keys auth_key msg_key x in
  mret (aes_ige_encrypt padded (fst keys) (snd keys) (replicate (length padded) Byte.x00),
        msg_key).

(** [None] is the return value [-1]. *)
Definition mtproto_decrypt (cipher auth_key msg_key : list byte) (x : nat)
    : option (list byte) :=
  if (zlen cipher <? 16) || negb (zlen cipher mod 16 =? 0) then None
  else
    let keys := mtproto_derive_keys auth_key msg_key x in
    let plain := aes_ige_decrypt cipher (fst keys) (snd keys)
                                 (replicate (length cipher) Byte.x00) in
    let verify_key := mtproto_compute_msg_key auth_key plain x in
    if bool_decide (take 16 msg_key = verify_key) then Some plain else None.

End Ops.

(** ** Padding *)

Lemma pad_len_value n :
  0 <= n <= 2 ^ 62 -> pad_len n = n + 27 - (n + 27) mod 16 - n.
Proof.
  intros Hn. unfold pad_len. change (Z.lnot 15) with (Z.lnot (Z.ones 4)).
  rewrite land_lnot_ones64 by (apply u64_range || lia).
  rewrite (u64_id (n + 12)), (u64_id (n + 12 + 15)) by (unfold is_u64; lia).
  replace (n + 12 + 15) with (n + 27) by lia. change (2 ^ 4) with 16.
  apply u64_id. unfold is_u64. Z.div_mod_to_equations. lia.
Qed.

Lemma pad_len_spec n :
  0 <= n <= 2 ^ 62 -> 12 <= pad_len n <= 27 /\ (n + pad_len n) mod 16 = 0.
Proof. intros Hn. rewrite pad_len_value by done. Z.div_mod_to_equations. lia. Qed.

Lemma gen_padding_at n w :
  0 <= n <= 2 ^ 62 ->
  exists pad w', mtproto_gen_padding n w = Done pad w' /\ zlen pad = pad_len n /\
                 w_net w' = w_net w.
Proof.
  intros Hn. pose proof (pad_len_spec n Hn) as [Hp _]. unfold mtproto_gen_padding.
  rewrite (proj2 (Z.ltb_lt _ _)) by lia.
  eexists _, _. split; [done|]. unfold zlen. rewrite length_map, length_seq. split; [lia|done].
Qed.

(** ** Encryption and decryption *)

Section Correct.
Context `{C : Crypto} {HC : CryptoLaws C}.

Lemma derive_keys_len auth_key msg_key x :
  let keys := mtproto_derive_keys auth_key msg_key x in
  length (fst keys) = 32%nat /\ length (snd keys) = 32%nat.
Proof.
  cbn. rewrite !length_app, !slice_len; rewrite ?sha256_len; lia.
Qed.

Lemma msg_key_len auth_key plain x : length (mtproto_compute_msg_key auth_key plain x) = 16%nat.
Proof. unfold mtproto_compute_msg_key. apply slice_len. rewrite sha256_len. lia. Qed.

(** What encryption produces, with the padding it drew. *)
Lemma encrypt_at plain auth_key x w :
  zlen plain <= 2 ^ 62 ->
  exists pad cipher w',
    mtproto_encrypt plain auth_key x w =
      Done (cipher, mtproto_compute_msg_key auth_key (plain ++ pad) x) w' /\
    zlen pad = pad_len (zlen plain) /\ zlen cipher = zlen plain + zlen pad /\
    w_net w' = w_net w /\
    mtproto_decrypt cipher auth_key (mtproto_compute_msg_key auth_key (plain ++ pad) x) x =
      Some (plain ++ pad).
Proof.
  intros Hp. pose proof (zlen_nonneg plain) as Hp0.
  destruct (gen_padding_at (zlen plain) w) as (pad & w' & E & Hpad & Hnet); [lia|].
  destruct (pad_len_spec (zlen plain)) as [Hr Hm]; [lia|].
  set (padded := plain ++ pad). set (mk := mtproto_compute_msg_key auth_key padded x).
  set (keys := mtproto_derive_keys auth_key mk x).
  destruct (derive_keys_len auth_key mk x) as [Hk Hi]. fold keys in Hk, Hi.
  set (cipher := aes_ige_encrypt padded (fst keys) (snd keys) (replicate (length padded) Byte.x00)).
  assert (Hz : zlen padded = zlen plain + pad_len (zlen plain))
    by (unfold padded; rewrite zlen_app; lia).
  assert (Hlc : length cipher = length padded).
  { apply aes_ige_encrypt_len; rewrite ?length_replicate, ?Hz; done || lia. }
  assert (Hzc : zlen cipher = zlen padded) by (unfold zlen; by rewrite Hlc).
  assert (16 <= zlen plain + pad_len (zlen plain))
    by (clear -Hm Hr Hp0; Z.div_mod_to_equations; lia).
  exists pad, cipher, w'. split_and!; [|done|lia|done|].
  - unfold mtproto_encrypt. by rewrite (bind_Done _ _ _ _ _ E).
  - unfold mtproto_decrypt. rewrite Hzc, Hz, Hm.
    rewrite (proj2 (Z.ltb_ge _ 16)) by lia. cbn [orb negb Z.eqb].
    fold padded mk keys. unfold cipher.
    rewrite aes_ige_inverse; rewrite ?length_replicate, ?Hz; try done; try lia.
    fold mk. rewrite take_ge by (unfold mk; rewrite msg_key_len; lia).
    by rewrite bool_decide_eq_true_2.
Qed.

(** Decryption only returns plaintexts whose message key is the one given. *)
Lemma decrypt_sound cipher auth_key msg_key x plain :
  mtproto_decrypt cipher auth_key msg_key x = Some plain ->
  zlen plain = zlen cipher /\ 16 <= zlen cipher /\ zlen cipher mod 16 = 0 /\
  mtproto_compute_msg_key auth_key plain x = take 16 msg_key.
Proof.
  unfold mtproto_decrypt. destruct (_ || _) eqn:E; [done|]. bool_prop.
  case_bool_decide as Hk; [|done]. intros [= <-].
  destruct (derive_keys_len auth_key msg_key x) as [_ Hi].
  split_and!; [|lia|done|done]. unfold zlen at 1. rewrite aes_ige_decrypt_len; try done.
  - lia.
  - by rewrite length_replicate.
Qed.

End Correct.
