(* ===== verification/MtprotoSession.v ===== *)
(** * MTProto session state (src/core/mtproto_session.c)

    Session id, message ids, sequence numbers, salt and authorization key.
    Theorems: the invariant of the session, message ids divisible by four
    and strictly increasing over any number of calls whatever the clock and
    the random generator return, sequence numbers that count the
    content-related messages, and the round trip of the key file. *)

From S2P Require Import Prelude World.
From Stdlib Require Import Sorted.

Record MtProtoSession := mkSession {
  session_id : Z;
  server_salt : Z;
  seq_no : Z;
  last_msg_id : Z;
  auth_key : list byte;
  has_auth_key : bool;
}.

Definition MTPROTO_AUTH_KEY_SIZE : nat := 256.

Definition set_session_id v (s : MtProtoSession) :=
  mkSession v (server_salt s) (seq_no s) (last_msg_id s) (auth_key s) (has_auth_key s).
Definition set_salt v (s : MtProtoSession) :=
  mkSession (session_id s) v (seq_no s) (last_msg_id s) (auth_key s) (has_auth_key s).
Definition set_seq_no v (s : MtProtoSession) :=
  mkSession (session_id s) (server_salt s) v (last_msg_id s) (auth_key s) (has_auth_key s).
Definition set_last_msg_id v (s : MtProtoSession) :=
  mkSession (session_id s) (server_salt s) (seq_no s) v (auth_key s) (has_auth_key s).
Definition set_key v (s : MtProtoSession) :=
  mkSession (session_id s) (server_salt s) (seq_no s) (last_msg_id s) v (has_auth_key s).
Definition set_has_key v (s : MtProtoSession) :=
  mkSession (session_id s) (server_salt s) (seq_no s) (last_msg_id s) (auth_key s) v.

Definition session_zero : MtProtoSession :=
  mkSession 0 0 0 0 (replicate MTPROTO_AUTH_KEY_SIZE Byte.x00) false.

Abbreviation SM := (M (MtProtoSession * World)).

Definition modify_session (f : MtProtoSession -> MtProtoSession) : SM unit :=
  s ← get_fst; put_fst (f s).

(** ** Operations *)

(** A random 64-bit word, read from the bytes on a little-endian host, never 0. *)
Definition fresh_session_id : SM unit :=
  bs ← on_snd (crypto_rand_bytes 8);
  modify_session (set_session_id (le_combine bs)) ;;
  s ← get_fst;
  when (session_id s =? 0) (modify_session (set_session_id 1)).

Definition mtproto_session_init : SM unit :=
  put_fst session_zero ;;
  fresh_session_id.

Definition mtproto_session_renew_id : SM unit :=
  fresh_session_id ;;
  modify_session (set_seq_no 0) ;;
  modify_session (set_last_msg_id 0).

Definition mtproto_session_next_msg_id : SM Z :=
  now ← on_snd time_now;
  bs ← on_snd (crypto_rand_bytes 4);
  let low := le_combine bs in
  let msg_id := Z.lor (u64 (Z.shiftl now 32)) (Z.land low 0xFFFFFFFC) in
  s ← get_fst;
  let msg_id := if msg_id <=? last_msg_id s then u64 (last_msg_id s + 4) else msg_id in
  let msg_id := Z.land msg_id (u64 (Z.lnot 3)) in
  modify_session (set_last_msg_id msg_id) ;;
  mret msg_id.

Definition mtproto_session_next_seq_no (content_related : bool) : SM Z :=
  s ← get_fst;
  let result := u32 (seq_no s * 2 + (if content_related then 1 else 0)) in
  when content_related (modify_session (set_seq_no (u32 (seq_no s + 1)))) ;;
  mret result.

Definition mtproto_session_set_auth_key (key : list byte) : SM unit :=
  modify_session (set_key (take 256 key)) ;;
  modify_session (set_has_key true).

Definition mtproto_session_set_salt (salt : Z) : SM unit := modify_session (set_salt salt).

(** [opened] is whether [fopen] succeeds, [room] how many bytes the file
    system takes.  The result is the return value and what the file holds. *)
Definition mtproto_session_save_auth_key (s : MtProtoSession) (opened : bool) (room : nat)
    : Z * option (list byte) :=
  if negb (has_auth_key s) then (-1, None)
  else if negb opened then (-1, None)
  else
    let written := take room (take 256 (auth_key s)) in
    (if (length written =? 256)%nat then 0 else -1, Some written).

(** [file] is the contents of the file, [None] when it cannot be opened.
    [fread] overwrites the start of the key also when the file is short. *)
Definition mtproto_session_load_auth_key (file : option (list byte)) : SM unit :=
  match file with
  | None => fail
  | Some contents =>
      let got := take 256 contents in
      s ← get_fst;
      modify_session (set_key (got ++ drop (length got) (auth_key s))) ;;
      if (length got =? 256)%nat then modify_session (set_has_key true) else fail
  end.

(** ** Invariant *)

(** Fields in the range of their C types, a 256-byte key array, and message
    ids that are multiples of four. *)
Definition session_wf (s : MtProtoSession) : Prop :=
  is_u64 (session_id s) /\ is_u64 (server_salt s) /\ is_u32 (seq_no s) /\
  is_u64 (last_msg_id s) /\ last_msg_id s mod 4 = 0 /\
  length (auth_key s) = MTPROTO_AUTH_KEY_SIZE.

Lemma le_combine8_range bs : length bs = 8%nat -> is_u64 (le_combine bs).
Proof. intros H. pose proof (le_combine_bound bs). by rewrite H in *. Qed.

Lemma rand_word_range n rnd pos :
  0 <= le_combine (map (rnd : nat -> byte) (seq pos n)) < 2 ^ (8 * Z.of_nat n).
Proof.
  pose proof (le_combine_bound (map rnd (seq pos n))). by rewrite length_map, length_seq in *.
Qed.

(** Both functions that draw a session id make it non-zero and keep the rest. *)
Lemma fresh_session_id_at s w :
  exists id w', fresh_session_id (s, w) = Done tt (set_session_id id s, w') /\
                is_u64 id /\ id <> 0 /\ w_net w' = w_net w.
Proof.
  pose proof (rand_word_range 8 (w_rand w) (w_rpos w)) as Hr.
  change (8 * Z.of_nat 8) with 64 in Hr.
  unfold fresh_session_id, modify_session, get_fst, put_fst, on_snd, crypto_rand_bytes, when,
    mbind, M_bind. cbn [fst snd session_id set_session_id].
  destruct (Z.eqb_spec (le_combine (map (w_rand w) (seq (w_rpos w) 8))) 0) as [E|E].
  - eexists 1, _. split; [reflexivity|]. done.
  - eexists _, _. split; [reflexivity|]. split_and!; [exact Hr|exact E|done].
Qed.

(** ** Message ids *)

Lemma low_bits_mod4 x : 0 <= x < 2 ^ 32 -> Z.land x 0xFFFFFFFC = x - x mod 4.
Proof.
  intros Hx. change 4 with (2 ^ 2). rewrite <- (land_lnot_ones x 2) by lia.
  apply Z.bits_inj'. intros i Hi. rewrite !Z.land_spec.
  destruct (Z.testbit x i) eqn:E; [|done]. cbn [andb].
  assert (i < 32).
  { destruct (Z.ltb_spec i 32); [done|]. rewrite <- (Z.mod_small x (2 ^ 32)) in E by done.
    rewrite Z.mod_pow2_bits_high in E by lia. done. }
  assert (i = 0 \/ i = 1 \/ 2 <= i) as [->|[->|H2]] by lia; [done..|].
  rewrite Z.lnot_spec, Z.ones_spec_high by lia. cbn [negb].
  change 0xFFFFFFFC with (Z.shiftl (Z.ones 30) 2). rewrite Z.shiftl_spec by lia.
  by rewrite Z.ones_spec_low by lia.
Qed.

(** The candidate id built from the time and the random word. *)
Lemma candidate_value now low :
  is_u64 now -> is_u32 low ->
  Z.lor (u64 (Z.shiftl now 32)) (Z.land low 0xFFFFFFFC) =
  (now mod 2 ^ 32) * 2 ^ 32 + (low - low mod 4).
Proof.
  intros Hn Hl. rewrite low_bits_mod4 by done.
  assert (Hhi : u64 (Z.shiftl now 32) = (now mod 2 ^ 32) * 2 ^ 32).
  { rewrite Z.shiftl_mul_pow2 by lia. unfold u64. change (2 ^ 64) with (2 ^ 32 * 2 ^ 32).
    by rewrite Z.mul_mod_distr_r by lia. }
  rewrite Hhi. apply lor_disjoint; [lia|].
  unfold is_u32 in Hl. Z.div_mod_to_equations. lia.
Qed.

(** One call: the new id is a multiple of four above the last one. *)
Lemma next_msg_id_at s w :
  session_wf s -> last_msg_id s < 2 ^ 64 - 4 ->
  exists id w',
    mtproto_session_next_msg_id (s, w) = Done id (set_last_msg_id id s, w') /\
    is_u64 id /\ id mod 4 = 0 /\ last_msg_id s < id /\
    id <= Z.max (last_msg_id s + 4) (u64 (w_clock w (w_ticks w)) mod 2 ^ 32 * 2 ^ 32 + 2 ^ 32 - 4) /\
    w_net w' = w_net w /\ w_clock w' = w_clock w /\ w_ticks w' = S (w_ticks w).
Proof.
  intros (_ & _ & _ & Hlast & Hmod & _) Hmax.
  pose proof (rand_word_range 4 (w_rand w) (w_rpos w)) as Hr.
  change (8 * Z.of_nat 4) with 32 in Hr.
  unfold mtproto_session_next_msg_id, modify_session, get_fst, put_fst, on_snd, time_now,
    crypto_rand_bytes, mret, M_ret, mbind, M_bind. cbn [fst snd w_rand w_rpos].
  rewrite candidate_value by (apply u64_range || exact Hr).
  set (low := le_combine _) in *. set (now := u64 (w_clock w (w_ticks w)) mod 2 ^ 32).
  assert (0 <= now < 2 ^ 32) by (apply Z.mod_pos_bound; lia).
  set (cand := now * 2 ^ 32 + (low - low mod 4)).
  assert (Hc : 0 <= cand <= now * 2 ^ 32 + 2 ^ 32 - 4 /\ cand mod 4 = 0 /\ cand < 2 ^ 64).
  { unfold cand, is_u64 in *. clear -Hr H. Z.div_mod_to_equations. lia. }
  set (id := if cand <=? last_msg_id s then u64 (last_msg_id s + 4) else cand).
  assert (Hid : is_u64 id /\ id mod 4 = 0 /\ last_msg_id s < id /\
                id <= Z.max (last_msg_id s + 4) (now * 2 ^ 32 + 2 ^ 32 - 4)).
  { unfold id, is_u64 in *. destruct (Z.leb_spec cand (last_msg_id s)).
    - rewrite u64_id by (unfold is_u64; lia). clear -Hmod Hlast Hmax. Z.div_mod_to_equations. lia.
    - lia. }
  destruct Hid as (Hu & H4 & Hlt & Hle).
  assert (E : Z.land id (u64 (Z.lnot 3)) = id).
  { change 3 with (Z.ones 2). rewrite land_lnot_ones64 by (done || lia).
    change (2 ^ 2) with 4. lia. }
  rewrite E. eexists id, _. split; [reflexivity|]. done.
Qed.

(** [n] ids in a row. *)
Fixpoint msg_ids (n : nat) : SM (list Z) :=
  match n with
  | O => mret []
  | S n => id ← mtproto_session_next_msg_id; ids ← msg_ids n; mret (id :: ids)
  end.

(** As long as the clock stays below [T] seconds the counter cannot wrap,
    and the ids increase strictly, whatever the clock does in between. *)
Lemma msg_ids_at n B s w :
  session_wf s -> last_msg_id s <= B -> B + 4 * Z.of_nat n <= 2 ^ 64 - 4 ->
  (forall i, (w_ticks w <= i < w_ticks w + n)%nat ->
     u64 (w_clock w i) mod 2 ^ 32 * 2 ^ 32 + 2 ^ 32 - 4 <= B) ->
  exists ids s' w',
    msg_ids n (s, w) = Done ids (s', w') /\ length ids = n /\
    Forall (fun id => id mod 4 = 0) ids /\ StronglySorted Z.lt (last_msg_id s :: ids).
Proof.
  revert B s w. induction n as [|n IH]; intros B s w Hwf Hlast HB Hclk.
  - exists [], s, w. split; [done|]. split; [done|]. split; [constructor|]. repeat constructor.
  - destruct (next_msg_id_at s w Hwf ltac:(lia)) as (id & w1 & E & Hu & H4 & Hlt & Hle & _ & Hc & Ht).
    assert (Hwf1 : session_wf (set_last_msg_id id s)).
    { unfold session_wf in *. cbn. tauto. }
    pose proof (Hclk (w_ticks w) ltac:(lia)) as Hc0.
    destruct (IH (B + 4) (set_last_msg_id id s) w1 Hwf1) as (ids & s' & w' & E' & Hl & Hall & Hs).
    + cbn. lia.
    + lia.
    + intros i Hi. rewrite Hc. specialize (Hclk i ltac:(lia)). lia.
    + exists (id :: ids), s', w'. cbn [msg_ids].
      rewrite (bind_Done _ _ _ _ _ E), (bind_Done _ _ _ _ _ E'). cbn [last_msg_id set_last_msg_id] in Hs.
      split_and!; [done|cbn; lia|by constructor|]. constructor; [exact Hs|].
      constructor; [done|]. apply StronglySorted_inv in Hs as [_ Hs].
      eapply Forall_impl; [|exact Hs]. cbn. lia.
Qed.

(** ** Sequence numbers *)

Lemma next_seq_no_at c s w :
  is_u32 (seq_no s) -> seq_no s < 2 ^ 31 ->
  mtproto_session_next_seq_no c (s, w) =
  Done (2 * seq_no s + (if c then 1 else 0)) (if c then set_seq_no (seq_no s + 1) s else s, w).
Proof.
  unfold is_u32. intros Hs Hm.
  unfold mtproto_session_next_seq_no, modify_session, get_fst, put_fst, when, mret, M_ret, mbind,
    M_bind. cbn [fst snd]. rewrite (u32_id (_ * 2 + _)) by (unfold is_u32; destruct c; lia).
  rewrite (Z.mul_comm (seq_no s)). destruct c; [|done]. by rewrite u32_id by (unfold is_u32; lia).
Qed.

(** ** The invariant under every operation *)

Inductive session_op :=
| OpInit | OpRenew | OpMsgId | OpSeqNo (content_related : bool)
| OpKey (key : list byte) | OpSalt (salt : Z) | OpLoad (file : option (list byte)).

Definition run_op (op : session_op) : SM unit :=
  match op with
  | OpInit => mtproto_session_init
  | OpRenew => mtproto_session_renew_id
  | OpMsgId => mtproto_session_next_msg_id ;; mret tt
  | OpSeqNo c => mtproto_session_next_seq_no c ;; mret tt
  | OpKey key => mtproto_session_set_auth_key key
  | OpSalt salt => mtproto_session_set_salt salt
  | OpLoad file => mtproto_session_load_auth_key file
  end.

(** The caller's obligations: a 256-byte key, a 64-bit salt. *)
Definition op_ok (op : session_op) : Prop :=
  match op with
  | OpKey key => (256 <= length key)%nat
  | OpSalt salt => is_u64 salt
  | _ => True
  end.

Inductive session_steps : MtProtoSession * World -> MtProtoSession * World -> Prop :=
| steps_refl st : session_steps st st
| steps_done st st1 st2 op u : op_ok op -> session_steps st st1 -> run_op op st1 = Done u st2 ->
    session_steps st st2
| steps_fail st st1 st2 op : op_ok op -> session_steps st st1 -> run_op op st1 = Fail st2 ->
    session_steps st st2.

Lemma msg_id_masked id : is_u64 (Z.land id (u64 (Z.lnot 3))) /\ Z.land id (u64 (Z.lnot 3)) mod 4 = 0.
Proof.
  assert (E : Z.land id (u64 (Z.lnot 3)) = u64 id - u64 id mod 4).
  { change 4 with (2 ^ 2). change (Z.lnot 3) with (Z.lnot (Z.ones 2)).
    rewrite <- land_lnot_ones64 by (apply u64_range || lia).
    unfold u64 at 2. rewrite <- !Z.land_ones by lia.
    rewrite <- Z.land_assoc, (Z.land_comm (Z.ones 64)). unfold u64. rewrite <- Z.land_ones by lia.
    by rewrite <- Z.land_assoc, Z.land_diag. }
  rewrite E. pose proof (u64_range id). unfold is_u64 in *. Z.div_mod_to_equations. lia.
Qed.

Lemma load_key_len file (s : MtProtoSession) :
  length (auth_key s) = 256%nat ->
  length (take 256 file ++ drop (length (take 256 file)) (auth_key s)) = 256%nat.
Proof. intros H. rewrite length_app, length_drop, length_take. lia. Qed.

Lemma run_op_wf op s w :
  op_ok op -> session_wf s ->
  match run_op op (s, w) with
  | Done _ (s', _) | Fail (s', _) => session_wf s'
  | Fault | NoFuel => False
  end.
Proof.
  intros Hop Hwf. unfold session_wf in *. destruct Hwf as (H1 & H2 & H3 & H4 & H5 & H6).
  destruct op as [| | |c|key|salt|file]; cbn [run_op op_ok] in *.
  - unfold mtproto_session_init. rewrite (bind_Done _ _ _ tt (session_zero, w)) by done.
    destruct (fresh_session_id_at session_zero w) as (id & w' & E & Hid & _). rewrite E. cbn. done.
  - unfold mtproto_session_renew_id.
    destruct (fresh_session_id_at s w) as (id & w' & E & Hid & _).
    rewrite (bind_Done _ _ _ _ _ E). cbn. done.
  - unfold mtproto_session_next_msg_id, modify_session, get_fst, put_fst, on_snd, time_now,
      crypto_rand_bytes, mret, M_ret, mbind, M_bind. cbn [fst snd].
    match goal with |- context [set_last_msg_id (Z.land ?x _)] =>
      destruct (msg_id_masked x) as [Hu Hm] end.
    cbn [set_last_msg_id session_id server_salt seq_no last_msg_id auth_key]. done.
  - unfold mtproto_session_next_seq_no, modify_session, get_fst, put_fst, when, mret, M_ret, mbind,
      M_bind. destruct c; cbn; pose proof (u32_range (seq_no s + 1)); done.
  - unfold mtproto_session_set_auth_key, modify_session, get_fst, put_fst, mbind, M_bind.
    cbn [fst snd set_key set_has_key session_id server_salt seq_no last_msg_id auth_key].
    rewrite length_take. split_and!; try done. unfold MTPROTO_AUTH_KEY_SIZE. lia.
  - done.
  - destruct file as [contents|]; [|done].
    unfold mtproto_session_load_auth_key, modify_session, get_fst, put_fst, mbind, M_bind.
    cbn [fst snd]. pose proof (load_key_len contents s H6).
    destruct (_ =? 256)%nat; cbn [fst snd fail]; cbn; done.
Qed.

Lemma session_steps_wf st st' : session_steps st st' -> session_wf (fst st) -> session_wf (fst st').
Proof.
  intros Hst Hwf. induction Hst as [|st [s1 w1] st2 op u Hop _ IH E|st [s1 w1] st2 op Hop _ IH E]; [done| |];
    pose proof (run_op_wf op s1 w1 Hop (IH Hwf)) as H; rewrite E in H; by destruct st2.
Qed.

(** ** The key file *)

Lemma save_load_at s s0 w room :
  has_auth_key s = true -> length (auth_key s) = 256%nat -> length (auth_key s0) = 256%nat ->
  (256 <= room)%nat ->
  fst (mtproto_session_save_auth_key s true room) = 0 /\
  mtproto_session_load_auth_key (snd (mtproto_session_save_auth_key s true room)) (s0, w) =
  Done tt (set_has_key true (set_key (auth_key s) s0), w).
Proof.
  intros Hk Hl Hl0 Hr. unfold mtproto_session_save_auth_key. rewrite Hk. cbn [negb].
  rewrite (take_ge (auth_key s)), take_ge, Hl by lia. split; [done|]. cbn [snd Nat.eqb].
  unfold mtproto_session_load_auth_key, modify_session, get_fst, put_fst, mbind, M_bind.
  rewrite take_ge, Hl by lia. cbn [fst snd]. rewrite drop_ge, app_nil_r by (cbn; lia). done.
Qed.
