(* ===== verification/Transport.v ===== *)
(** * Abridged TCP transport (src/infrastructure/transport.c)

    Connection setup and framing over a socket that may send and receive
    partially, be interrupted or fail at any call.  The abstract
    specification is the pair [frame]/[unframe]; the theorems show that a
    send that succeeds has put exactly one frame on the wire, that a receive
    that succeeds has taken exactly one frame off it, and that the two are
    inverse. *)

From S2P Require Import Prelude TlSerial World.

Record Transport := mkTransport { fd : Z; dc_id : Z; connected : bool }.

Definition ABRIDGED_MARKER : byte := byte.of_Z 0xEF.

Abbreviation TM := (M (Transport * World)).

Definition set_fd v (t : Transport) := mkTransport v (dc_id t) (connected t).
Definition set_connected v (t : Transport) := mkTransport (fd t) (dc_id t) v.

Definition modify_transport (f : Transport -> Transport) : TM unit :=
  t ← get_fst; put_fst (f t).

(** ** Retrying system calls *)

(** [do { n = sys_socket_send(..); } while (n < 0 && (errno == EINTR || errno == EAGAIN));]
    Every call takes an event off the schedule, so its length bounds the loop. *)
Fixpoint send_loop (fuel : nat) (data : list byte) : M Net Z :=
  match fuel with
  | O => no_fuel
  | S fuel =>
      r ← sys_socket_send data;
      if (fst r <? 0) && snd r then send_loop fuel data else mret (fst r)
  end.

Definition send_retry (data : list byte) : M Net Z := fun w =>
  send_loop (S (length (n_send_evs w))) data w.

(** The same around [sys_socket_recv]; [None] is a negative result. *)
Fixpoint recv_loop (fuel : nat) (cap : Z) : M Net (option (list byte)) :=
  match fuel with
  | O => no_fuel
  | S fuel =>
      sys_socket_recv cap ≫= fun r : option (list byte) * bool =>
      match fst r with
      | None => if snd r then recv_loop fuel cap else mret None
      | Some bs => mret (Some bs)
      end
  end.

Definition recv_retry (cap : Z) : M Net (option (list byte)) := fun w =>
  recv_loop (S (length (n_recv_evs w))) cap w.

(** ** Operations *)

Definition transport_init : TM unit := put_fst (mkTransport (-1) 0 false).

Definition transport_connect : TM unit :=
  w ← on_snd (fun w => Done w w);
  modify_transport (set_fd (n_socket (w_net w))) ;;
  if n_socket (w_net w) <? 0 then fail
  else if n_connect (w_net w) <? 0 then modify_transport (set_fd (-1)) ;; fail
  else
    msent ← on_snd (on_net (send_retry [ABRIDGED_MARKER]));
    if negb (msent =? 1) then modify_transport (set_fd (-1)) ;; fail
    else modify_transport (set_connected true).

(** The payload loop: every round sends what is left. *)
Fixpoint send_all (fuel : nat) (data : list byte) : M Net unit :=
  match data with
  | [] => mret tt
  | _ =>
      match fuel with
      | O => no_fuel
      | S fuel =>
          sent ← send_retry data;
          if sent <=? 0 then fail else send_all fuel (drop (Z.to_nat sent) data)
      end
  end.

(** The length prefix of a payload of [wire_len] words. *)
Definition length_prefix (wire_len : Z) : list byte :=
  if wire_len <? 0x7F then [byte.of_Z wire_len]
  else [byte.of_Z 0x7F; byte.of_Z (Z.land wire_len 0xFF);
        byte.of_Z (Z.land (Z.shiftr wire_len 8) 0xFF);
        byte.of_Z (Z.land (Z.shiftr wire_len 16) 0xFF)].

Definition transport_send (data : list byte) : TM unit :=
  t ← get_fst;
  if (zlen data =? 0) || (fd t <? 0) then fail
  else if negb (zlen data mod 4 =? 0) then fail
  else
    let prefix := length_prefix (zlen data / 4) in
    n ← on_snd (on_net (send_retry prefix));
    if negb (n =? zlen prefix) then fail
    else on_snd (on_net (send_all (length data) data)).

(** The payload loop: [need] bytes are missing. *)
Fixpoint recv_all (fuel : nat) (need : Z) : M Net (list byte) :=
  if need <=? 0 then mret []
  else
    match fuel with
    | O => no_fuel
    | S fuel =>
        r ← recv_retry need;
        match r with
        | Some (b :: bs) =>
            rest ← recv_all fuel (need - zlen (b :: bs)); mret ((b :: bs) ++ rest)
        | _ => fail
        end
    end.

(** [need] is below [4 * 2^24], and every round receives at least a byte. *)
Definition recv_exactly (need : Z) : M Net (list byte) := fun w =>
  recv_all (S (length (n_in w))) need w.

(** The word count of the frame. *)
Definition recv_wire_len : M Net Z :=
  r ← recv_retry 1;
  match r with
  | Some [first] =>
      if byte.unsigned first <? 0x7F then mret (byte.unsigned first)
      else
        extra ← recv_retry 3;
        match extra with
        | Some [e0; e1; e2] =>
            mret (Z.lor (Z.lor (byte.unsigned e0) (Z.shiftl (byte.unsigned e1) 8))
                        (Z.shiftl (byte.unsigned e2) 16))
        | _ => fail
        end
  | _ => fail
  end.

(** The payload; [*out_len] is its length. *)
Definition transport_recv (max_len : Z) : TM (list byte) :=
  t ← get_fst;
  if fd t <? 0 then fail
  else
    wire_len ← on_snd (on_net recv_wire_len);
    let payload_len := u64 (wire_len * 4) in
    if payload_len =? 0 then mret []
    else if max_len <? payload_len then fail
    else on_snd (on_net (recv_exactly payload_len)).

Definition transport_close : TM unit :=
  t ← get_fst;
  when (0 <=? fd t)
    (modify_transport (set_fd (-1)) ;; modify_transport (set_connected false)).

(** ** Specification: frames *)

Definition frame (data : list byte) : list byte := length_prefix (zlen data / 4) ++ data.

(** Take one frame off a byte stream. *)
Definition unframe (stream : list byte) : option (list byte * list byte) :=
  let body n l :=
    if zlen l <? 4 * n then None
    else Some (take (Z.to_nat (4 * n)) l, drop (Z.to_nat (4 * n)) l) in
  match stream with
  | [] => None
  | first :: l =>
      if byte.unsigned first <? 0x7F then body (byte.unsigned first) l
      else
        match l with
        | e0 :: e1 :: e2 :: l => body (le_combine [e0; e1; e2]) l
        | _ => None
        end
  end.

(** Payloads a frame can carry. *)
Definition framable (data : list byte) : Prop := zlen data mod 4 = 0 /\ zlen data / 4 < 2 ^ 24.

(** ** Frames are self-delimiting *)

Lemma word3_le e0 e1 e2 :
  Z.lor (Z.lor (byte.unsigned e0) (Z.shiftl (byte.unsigned e1) 8))
        (Z.shiftl (byte.unsigned e2) 16) = le_combine [e0; e1; e2].
Proof.
  unfold le_combine. change (Z.shiftl 0 8) with 0. rewrite Z.lor_0_r, Z.shiftl_lor, Z.shiftl_shiftl by lia.
  by rewrite Z.lor_assoc.
Qed.

Lemma unframe_frame data rest : framable data -> unframe (frame data ++ rest) = Some (data, rest).
Proof.
  intros [Hm Hn]. pose proof (zlen_nonneg data).
  assert (H4 : 4 * (zlen data / 4) = zlen data) by (Z.div_mod_to_equations; lia).
  assert (Hbody : (if zlen (data ++ rest) <? 4 * (zlen data / 4) then None
    else Some (take (Z.to_nat (4 * (zlen data / 4))) (data ++ rest),
               drop (Z.to_nat (4 * (zlen data / 4))) (data ++ rest))) = Some (data, rest)).
  { rewrite H4, zlen_app, (proj2 (Z.ltb_ge _ _)) by (pose proof (zlen_nonneg rest); lia).
    by rewrite take_app_exact, drop_app_exact. }
  unfold frame, length_prefix.
  assert (0 <= zlen data / 4) by (apply Z.div_pos; lia).
  destruct (Z.ltb_spec (zlen data / 4) 0x7F); cbn [app unframe].
  - rewrite byte.unsigned_of_Z. unfold byte.wrap. rewrite Z.mod_small by lia.
    rewrite (proj2 (Z.ltb_lt _ _)) by lia. exact Hbody.
  - change (byte.unsigned (byte.of_Z 127) <? 127) with false. cbn iota.
    rewrite !byte_land_ff, le_prefix3 by lia. exact Hbody.
Qed.

(** ** What the retrying calls do *)

Lemma send_loop_at fuel data w :
  (length (n_send_evs w) < fuel)%nat ->
  exists n w', send_loop fuel data w = Done n w' /\ n_in w' = n_in w /\
    n_recv_evs w' = n_recv_evs w /\ n <= zlen data /\
    n_out w' = n_out w ++ take (Z.to_nat n) data.
Proof.
  revert w. induction fuel as [|fuel IH]; intros w Hf; [lia|]. cbn [send_loop].
  unfold mbind, M_bind, sys_socket_send. pose proof (zlen_nonneg data).
  destruct (n_send_evs w) as [|[n| |] evs] eqn:E; cbn [fst snd Z.ltb Z.compare andb].
  - eexists _, _. split; [done|]. cbn. rewrite app_nil_r. split_and!; [done..|lia|done].
  - rewrite andb_false_r. eexists _, _. split; [done|]. cbn. split_and!; [done..|lia|done].
  - destruct (IH (mkNet evs (n_recv_evs w) (n_out w) (n_in w) (n_socket w) (n_connect w)))
      as (n & w' & E' & H1); [cbn in *; lia|]. rewrite E'. eauto.
  - eexists _, _. split; [done|]. cbn. rewrite app_nil_r. split_and!; [done..|lia|done].
Qed.

Lemma send_retry_at data w :
  exists n w', send_retry data w = Done n w' /\ n_in w' = n_in w /\
    n_recv_evs w' = n_recv_evs w /\ n <= zlen data /\
    n_out w' = n_out w ++ take (Z.to_nat n) data.
Proof. apply send_loop_at. lia. Qed.

Lemma recv_loop_at fuel cap w :
  (length (n_recv_evs w) < fuel)%nat ->
  exists r w', recv_loop fuel cap w = Done r w' /\ n_out w' = n_out w /\
    n_send_evs w' = n_send_evs w /\ n_in w = default [] r ++ n_in w' /\
    zlen (default [] r) <= Z.max 0 cap.
Proof.
  revert w. induction fuel as [|fuel IH]; intros w Hf; [lia|]. cbn [recv_loop].
  unfold mbind, M_bind, sys_socket_recv.
  destruct (n_recv_evs w) as [|[n| |] evs] eqn:E; cbn [fst snd].
  - eexists _, _. split; [done|]. split_and!; try done. cbn. unfold zlen. cbn. lia.
  - eexists _, _. split; [done|]. unfold default, id. cbn [from_option n_in n_out n_send_evs].
    rewrite take_drop. split_and!; try done. unfold zlen. rewrite length_take. lia.
  - destruct (IH (mkNet (n_send_evs w) evs (n_out w) (n_in w) (n_socket w) (n_connect w)))
      as (r & w' & E' & H1); [cbn in *; lia|]. rewrite E'. eauto.
  - eexists _, _. split; [done|]. split_and!; try done. cbn. unfold zlen. cbn. lia.
Qed.

Lemma recv_retry_at cap w :
  exists r w', recv_retry cap w = Done r w' /\ n_out w' = n_out w /\
    n_send_evs w' = n_send_evs w /\ n_in w = default [] r ++ n_in w' /\
    zlen (default [] r) <= Z.max 0 cap.
Proof. apply recv_loop_at. lia. Qed.

(** The payload loops. *)
Lemma send_all_at fuel data w :
  (length data <= fuel)%nat ->
  match send_all fuel data w with
  | Done _ w' => n_out w' = n_out w ++ data /\ n_in w' = n_in w /\ n_recv_evs w' = n_recv_evs w
  | Fail w' => exists p, p `prefix_of` data /\ n_out w' = n_out w ++ p
  | Fault | NoFuel => False
  end.
Proof.
  revert data w. induction fuel as [|fuel IH]; intros data w Hf.
  - destruct data; [|cbn in Hf; lia]. cbn. by rewrite app_nil_r.
  - destruct data as [|b data]; [cbn; by rewrite app_nil_r|]. cbn [send_all].
    destruct (send_retry_at (b :: data) w) as (n & w1 & E & Hi & Hr & Hn & Ho).
    rewrite (bind_Done _ _ _ _ _ E). destruct (Z.leb_spec n 0).
    + exists []. split; [apply prefix_nil|]. rewrite Ho. by rewrite Z2Nat.nonpos by lia.
    + specialize (IH (drop (Z.to_nat n) (b :: data)) w1). rewrite length_drop in IH.
      specialize (IH ltac:(cbn in *; lia)).
      destruct (send_all fuel (drop (Z.to_nat n) (b :: data)) w1) as [[] w'|w'| |]; [|..|done|done].
      * rewrite Hi, Hr, Ho in IH. rewrite <- app_assoc, take_drop in IH. done.
      * destruct IH as (p & Hp & Hw). exists (take (Z.to_nat n) (b :: data) ++ p).
        rewrite Hw, Ho, app_assoc. split; [|done].
        rewrite <- (take_drop (Z.to_nat n) (b :: data)) at 2. by apply prefix_app.
Qed.

Lemma recv_all_at fuel need w :
  (length (n_in w) < fuel)%nat ->
  match recv_all fuel need w with
  | Done bs w' => n_in w = bs ++ n_in w' /\ zlen bs = Z.max 0 need /\ n_out w' = n_out w /\
                  n_send_evs w' = n_send_evs w
  | Fail w' => exists p, n_in w = p ++ n_in w'
  | Fault | NoFuel => False
  end.
Proof.
  revert need w. induction fuel as [|fuel IH]; intros need w Hf; [lia|]. cbn [recv_all].
  destruct (Z.leb_spec need 0); [cbn; split_and!; try done; rewrite zlen_nil; lia|].
  destruct (recv_retry_at need w) as (r & w1 & E & Ho & Hs & Hin & Hl).
  rewrite (bind_Done _ _ _ _ _ E).
  destruct r as [[|b bs]|]; [by exists []| |by exists []].
  unfold default, id in Hin, Hl. cbn [from_option] in Hin, Hl.
  specialize (IH (need - zlen (b :: bs)) w1).
  assert (Hf1 : (length (n_in w1) < fuel)%nat).
  { apply (f_equal length) in Hin. rewrite length_app in Hin. cbn in Hin. lia. }
  specialize (IH Hf1).
  destruct (recv_all fuel (need - zlen (b :: bs)) w1) as [rest w'|w'| |] eqn:E2; [| |done|done].
  - rewrite (bind_Done _ _ _ _ _ E2). destruct IH as (Hi2 & Hz & Ho2 & Hs2).
    split_and!; [by rewrite Hin, Hi2, app_assoc| |congruence|congruence].
    rewrite zlen_app. lia.
  - rewrite (bind_Fail _ _ _ _ E2). destruct IH as [p Hp]. exists ((b :: bs) ++ p).
    by rewrite Hin, Hp, app_assoc.
Qed.

(** ** Sending and receiving *)

Lemma on_net_at {S A} (m : M Net A) (t : S) w :
  on_snd (on_net m) (t, w) =
  match m (w_net w) with
  | Done a n => Done a (t, set_net w n)
  | Fail n => Fail (t, set_net w n)
  | Fault => Fault
  | NoFuel => NoFuel
  end.
Proof. unfold on_snd, on_net. cbn. by destruct (m (w_net w)). Qed.

Lemma transport_send_at data t w :
  match transport_send data (t, w) with
  | Done _ (t', w') =>
      t' = t /\ 0 < zlen data /\ zlen data mod 4 = 0 /\
      n_out (w_net w') = n_out (w_net w) ++ frame data /\ n_in (w_net w') = n_in (w_net w) /\
      n_recv_evs (w_net w') = n_recv_evs (w_net w) /\ w' = set_net w (w_net w')
  | Fail (t', w') =>
      t' = t /\ w' = set_net w (w_net w') /\
      exists p, p `prefix_of` frame data /\ n_out (w_net w') = n_out (w_net w) ++ p
  | Fault | NoFuel => False
  end.
Proof.
  assert (Hnil : exists p, p `prefix_of` frame data /\ n_out (w_net w) = n_out (w_net w) ++ p)
    by (exists []; split; [apply prefix_nil|by rewrite app_nil_r]).
  assert (Hw : w = set_net w (w_net w)) by (by destruct w).
  unfold transport_send. rewrite (bind_Done _ _ _ t (t, w)) by done.
  destruct (_ || _) eqn:E0; [done|]. bool_prop.
  destruct (Z.eqb_spec (zlen data mod 4) 0) as [Hm|Hm]; cbn [negb]; [|done]. cbn zeta.
  set (prefix := length_prefix (zlen data / 4)).
  destruct (send_retry_at prefix (w_net w)) as (n & w1 & E & Hi & Hr & Hn & Ho).
  rewrite (bind_Done _ _ _ n (t, set_net w w1)) by (by rewrite on_net_at, E).
  destruct (Z.eqb_spec n (zlen prefix)) as [->|Hne]; cbn [negb].
  - rewrite on_net_at. cbn [w_net set_net].
    replace (take (Z.to_nat (zlen prefix)) prefix) with prefix in Ho
      by (unfold zlen; by rewrite Nat2Z.id, firstn_all).
    pose proof (send_all_at (length data) data w1 ltac:(lia)) as Hall.
    destruct (send_all (length data) data w1) as [[] w2|w2| |]; [| |done|done].
    + destruct Hall as (Ho2 & Hi2 & Hr2). cbn. pose proof (zlen_nonneg data).
      split_and!; try done; [lia|..].
      * by rewrite Ho2, Ho, <- app_assoc.
      * by rewrite Hi2.
      * by rewrite Hr2.
    + destruct Hall as (p & Hp & Ho2). split; [done|]. split; [done|]. exists (prefix ++ p).
      split; [by apply prefix_app|]. cbn. by rewrite Ho2, Ho, <- app_assoc.
  - split; [done|]. split; [done|]. exists (take (Z.to_nat n) prefix). cbn. split; [|done].
    transitivity prefix; [apply prefix_take|by apply prefix_app_r].
Qed.

(** The header of a frame, read from the stream. *)
Lemma recv_wire_len_at w :
  match recv_wire_len w with
  | Done n w' =>
      n_out w' = n_out w /\ n_send_evs w' = n_send_evs w /\ 0 <= n < 2 ^ 24 /\
      unframe (n_in w) =
        (if zlen (n_in w') <? 4 * n then None
         else Some (take (Z.to_nat (4 * n)) (n_in w'), drop (Z.to_nat (4 * n)) (n_in w'))) /\
      exists p, n_in w = p ++ n_in w'
  | Fail w' => exists p, n_in w = p ++ n_in w'
  | Fault | NoFuel => False
  end.
Proof.
  unfold recv_wire_len. destruct (recv_retry_at 1 w) as (r & w1 & E & Ho & Hs & Hin & Hl).
  rewrite (bind_Done _ _ _ _ _ E).
  destruct r as [[|first [|b bs]]|]; [by exists []| |by exists (first :: b :: bs)|by exists []].
  unfold default, id in Hin. cbn [from_option app] in Hin.
  pose proof (byte.unsigned_range first). destruct (Z.ltb_spec (byte.unsigned first) 0x7F).
  - split_and!; try done; [lia..| |by exists [first]].
    rewrite Hin. unfold unframe. by rewrite (proj2 (Z.ltb_lt _ _)) by lia.
  - destruct (recv_retry_at 3 w1) as (r2 & w2 & E2 & Ho2 & Hs2 & Hin2 & Hl2).
    rewrite (bind_Done _ _ _ _ _ E2).
    assert (Hp : exists p, n_in w = p ++ n_in w2)
      by (exists (first :: default [] r2); cbn; by rewrite Hin, Hin2).
    destruct r2 as [[|e0 [|e1 [|e2 [|e3 bs]]]]|]; try exact Hp.
    rewrite word3_le. unfold default, id in Hin2. cbn [from_option app] in Hin2.
    split_and!; try congruence; try exact Hp.
    + apply (le_combine_bound [e0; e1; e2]).
    + apply (le_combine_bound [e0; e1; e2]).
    + rewrite Hin, Hin2. unfold unframe. by rewrite (proj2 (Z.ltb_ge _ _)) by lia.
Qed.

Lemma transport_recv_at max_len t w :
  match transport_recv max_len (t, w) with
  | Done payload (t', w') =>
      t' = t /\ w' = set_net w (w_net w') /\ zlen payload <= Z.max 0 max_len /\
      n_out (w_net w') = n_out (w_net w) /\ n_send_evs (w_net w') = n_send_evs (w_net w) /\
      unframe (n_in (w_net w)) = Some (payload, n_in (w_net w'))
  | Fail (t', w') =>
      t' = t /\ w' = set_net w (w_net w') /\ exists p, n_in (w_net w) = p ++ n_in (w_net w')
  | Fault | NoFuel => False
  end.
Proof.
  assert (Hw : w = set_net w (w_net w)) by (by destruct w).
  unfold transport_recv. rewrite (bind_Done _ _ _ t (t, w)) by done.
  destruct (fd t <? 0); [split_and!; [done..|by exists []]|].
  pose proof (recv_wire_len_at (w_net w)) as Hl.
  destruct (recv_wire_len (w_net w)) as [n w1|w1| |] eqn:E; [| |done|done].
  - rewrite (bind_Done _ _ _ n (t, set_net w w1)) by (by rewrite on_net_at, E).
    destruct Hl as (Ho & Hs & Hn & Hu & Hp). cbn zeta.
    rewrite u64_id by (unfold is_u64; lia).
    destruct (Z.eqb_spec (n * 4) 0) as [Hz|Hz].
    + cbn. assert (n = 0) as -> by lia. rewrite Hu.
      split_and!; try done; [unfold zlen; cbn; lia|]. pose proof (zlen_nonneg (n_in w1)).
      by rewrite (proj2 (Z.ltb_ge _ _)) by lia.
    + destruct (Z.ltb_spec max_len (n * 4)); [done|].
      rewrite on_net_at. cbn [w_net set_net]. unfold recv_exactly.
      pose proof (recv_all_at (S (length (n_in w1))) (n * 4) w1 ltac:(lia)) as Ha.
      destruct (recv_all (S (length (n_in w1))) (n * 4) w1) as [bs w2|w2| |]; [| |done|done].
      * destruct Ha as (Hi & Hz2 & Ho2 & Hs2). cbn. split_and!; try congruence; try done; [lia|].
        rewrite Hu, Hi, (proj2 (Z.ltb_ge _ _)) by (rewrite zlen_app; pose proof (zlen_nonneg (n_in w2)); lia).
        by rewrite take_app_exact, drop_app_exact by lia.
      * destruct Ha as (p2 & Hp2). destruct Hp as (p & Hp). cbn. split_and!; [done..|].
        exists (p ++ p2). by rewrite Hp, Hp2, app_assoc.
  - erewrite (bind_Fail _ _ _ (t, set_net w w1)); [done|]. by rewrite on_net_at, E.
Qed.

(** ** Progress

    With a peer that has sent a whole frame and a socket that is at worst
    interrupted, as long as no call returns fewer than the three bytes of a
    long length prefix, receiving succeeds. *)

Definition is_full (e : sock_ev) : bool := match e with SockN n => 3 <=? n | _ => false end.
Definition patient (e : sock_ev) : Prop := e = SockRetry \/ is_full e = true.

(** How many calls of the schedule deliver bytes. *)
Definition deliveries (evs : list sock_ev) : Z := zlen (filter (fun e => is_full e = true) evs).

Lemma patient_recv cap w :
  Forall patient (n_recv_evs w) -> 0 < deliveries (n_recv_evs w) ->
  exists n w', 3 <= n /\
    recv_retry cap w = Done (Some (take (Z.to_nat (Z.min n cap)) (n_in w))) w' /\
    n_in w' = drop (Z.to_nat (Z.min n cap)) (n_in w) /\
    Forall patient (n_recv_evs w') /\ deliveries (n_recv_evs w') = deliveries (n_recv_evs w) - 1.
Proof.
  unfold recv_retry. remember (n_recv_evs w) as evs eqn:E.
  cut (forall fuel, (length evs < fuel)%nat -> forall w, evs = n_recv_evs w ->
    Forall patient evs -> 0 < deliveries evs ->
    exists n w', 3 <= n /\
      recv_loop fuel cap w = Done (Some (take (Z.to_nat (Z.min n cap)) (n_in w))) w' /\
      n_in w' = drop (Z.to_nat (Z.min n cap)) (n_in w) /\
      Forall patient (n_recv_evs w') /\ deliveries (n_recv_evs w') = deliveries evs - 1).
  { intros H Hp Hd. apply H; [lia|done..]. }
  clear w E. induction evs as [|ev evs IH]; intros fuel Hf w Hw Hall Hd; [done|].
  inversion Hall as [|? ? [->|Hfull] Hall']; subst; destruct fuel as [|fuel]; try (cbn in Hf; lia);
    cbn [recv_loop]; unfold mbind, M_bind, sys_socket_recv; rewrite <- Hw.
  - apply (IH fuel ltac:(cbn in Hf; lia)
      (mkNet (n_send_evs w) evs (n_out w) (n_in w) (n_socket w) (n_connect w))); [done..|].
    done.
  - destruct ev as [n| |]; [|done..]. cbn [is_full] in Hfull. apply Z.leb_le in Hfull.
    cbn [fst snd]. rewrite Z.max_r by lia. eexists n, _. split; [lia|]. split; [done|].
    split; [done|]. split; [done|]. unfold deliveries. cbn [n_recv_evs].
    rewrite filter_cons_True by (cbn; apply Z.leb_le; lia). rewrite zlen_cons. lia.
Qed.

Lemma patient_recv_all fuel need w rest bs :
  Forall patient (n_recv_evs w) -> n_in w = bs ++ rest -> zlen bs = need ->
  need <= deliveries (n_recv_evs w) -> (length (n_in w) < fuel)%nat ->
  exists w', recv_all fuel need w = Done bs w' /\ n_in w' = rest /\
    Forall patient (n_recv_evs w') /\ deliveries (n_recv_evs w) - need <= deliveries (n_recv_evs w').
Proof.
  revert need w bs. induction fuel as [|fuel IH]; intros need w bs Hp Hin Hz Hd Hf; [lia|].
  cbn [recv_all]. destruct (Z.leb_spec need 0).
  - destruct bs; [|rewrite zlen_cons in Hz; pose proof (zlen_nonneg bs); lia].
    rewrite zlen_nil in Hz. exists w. split_and!; [done..|lia].
  - destruct (patient_recv need w Hp) as (n & w1 & Hn & E & Hin1 & Hp1 & Hd1); [lia|].
    rewrite (bind_Done _ _ _ _ _ E). set (k := Z.min n need) in *.
    assert (Hk : 0 < k <= zlen bs) by lia.
    assert (Hlen : (Z.to_nat k <= length bs)%nat) by (unfold zlen in *; lia).
    rewrite Hin, take_app_le in * by done. rewrite drop_app_le in Hin1 by done.
    destruct (take (Z.to_nat k) bs) as [|b got] eqn:Eg.
    { apply (f_equal length) in Eg. rewrite length_take in Eg. cbn in Eg. lia. }
    assert (Hg : zlen (b :: got) = k) by (rewrite <- Eg; apply zlen_take; lia).
    destruct (IH (need - zlen (b :: got)) w1 (drop (Z.to_nat k) bs)) as (w' & E' & Hr & Hp' & Hd');
      [done|done| | | |].
    + rewrite zlen_drop; lia.
    + lia.
    + rewrite Hin1, length_app, length_drop. rewrite length_app in Hf. lia.
    + exists w'. rewrite (bind_Done _ _ _ _ _ E'). split_and!; [|done|done|lia]. cbn.
      by rewrite app_comm_cons, <- Eg, take_drop.
Qed.

Lemma patient_wire_len w data rest :
  Forall patient (n_recv_evs w) -> 2 <= deliveries (n_recv_evs w) -> framable data ->
  n_in w = frame data ++ rest ->
  exists w', recv_wire_len w = Done (zlen data / 4) w' /\ n_in w' = data ++ rest /\
    Forall patient (n_recv_evs w') /\ deliveries (n_recv_evs w) - 2 <= deliveries (n_recv_evs w').
Proof.
  intros Hp Hd [Hm Hn] Hin. unfold frame, length_prefix in Hin.
  assert (0 <= zlen data / 4) by (apply Z.div_pos; [apply zlen_nonneg|lia]).
  destruct (patient_recv 1 w Hp) as (n & w1 & Hn1 & E & Hin1 & Hp1 & Hd1); [lia|].
  rewrite Z.min_r in * by lia. change (Z.to_nat 1) with 1%nat in *.
  unfold recv_wire_len. rewrite (bind_Done _ _ _ _ _ E), Hin. rewrite Hin in Hin1.
  destruct (Z.ltb_spec (zlen data / 4) 0x7F); cbn [app take drop] in *.
  - rewrite byte.unsigned_of_Z. unfold byte.wrap. rewrite Z.mod_small by lia.
    rewrite (proj2 (Z.ltb_lt _ _)) by lia. exists w1. split_and!; try done. lia.
  - change (byte.unsigned (byte.of_Z 127) <? 127) with false. cbn iota.
    destruct (patient_recv 3 w1 Hp1) as (n2 & w2 & Hn2 & E2 & Hin2 & Hp2 & Hd2); [lia|].
    rewrite Z.min_r in * by lia. change (Z.to_nat 3) with 3%nat in *.
    rewrite (bind_Done _ _ _ _ _ E2), Hin1. rewrite Hin1 in Hin2. cbn [take drop] in *.
    exists w2. rewrite word3_le, !byte_land_ff, le_prefix3 by lia. split_and!; try done. lia.
Qed.

Lemma transport_recv_patient max_len t w data rest :
  0 <= fd t -> framable data -> zlen data <= max_len -> n_in (w_net w) = frame data ++ rest ->
  Forall patient (n_recv_evs (w_net w)) -> 2 + zlen data <= deliveries (n_recv_evs (w_net w)) ->
  exists n', transport_recv max_len (t, w) = Done data (t, set_net w n') /\ n_in n' = rest /\
    Forall patient (n_recv_evs n') /\
    deliveries (n_recv_evs (w_net w)) - (2 + zlen data) <= deliveries (n_recv_evs n').
Proof.
  intros Hfd Hfr Hmax Hin Hp Hd. pose proof (zlen_nonneg data).
  destruct (patient_wire_len (w_net w) data rest Hp ltac:(lia) Hfr Hin) as (w1 & E & Hin1 & Hp1 & Hd1).
  unfold transport_recv. rewrite (bind_Done _ _ _ t (t, w)), (proj2 (Z.ltb_ge _ _)) by done.
  rewrite (bind_Done _ _ _ (zlen data / 4) (t, set_net w w1)) by (by rewrite on_net_at, E).
  destruct Hfr as [Hm Hn]. assert (H4 : zlen data / 4 * 4 = zlen data) by (Z.div_mod_to_equations; lia).
  cbn zeta. rewrite H4, u64_id by (unfold is_u64; Z.div_mod_to_equations; lia).
  destruct (Z.eqb_spec (zlen data) 0) as [Hz|Hz].
  - destruct data; [|rewrite zlen_cons in Hz; pose proof (zlen_nonneg data); lia].
    exists w1. split_and!; done || lia.
  - rewrite (proj2 (Z.ltb_ge _ _)) by lia. rewrite on_net_at. cbn [w_net set_net]. unfold recv_exactly.
    destruct (patient_recv_all (S (length (n_in w1))) (zlen data) w1 rest data)
      as (w2 & E2 & Hr & Hp2 & Hd2); [done..|lia|lia|].
    rewrite E2. exists w2. split_and!; done || lia.
Qed.

Lemma transport_recv_progress max_len t w data rest :
  0 <= fd t -> framable data -> zlen data <= max_len -> n_in (w_net w) = frame data ++ rest ->
  Forall patient (n_recv_evs (w_net w)) -> 2 + zlen data <= deliveries (n_recv_evs (w_net w)) ->
  exists w', transport_recv max_len (t, w) = Done data (t, w') /\ n_in (w_net w') = rest.
Proof.
  intros Hfd Hfr Hmax Hin Hp Hd.
  destruct (transport_recv_patient max_len t w data rest Hfd Hfr Hmax Hin Hp Hd) as (n' & E & Hr & _).
  by exists (set_net w n').
Qed.

(** The same for sending: a short message goes out whole. *)
Lemma patient_send data w :
  Forall patient (n_send_evs w) -> 0 < deliveries (n_send_evs w) ->
  exists n w', 3 <= n /\ send_retry data w = Done (Z.min n (zlen data)) w' /\
    Forall patient (n_send_evs w') /\ deliveries (n_send_evs w') = deliveries (n_send_evs w) - 1.
Proof.
  unfold send_retry. remember (n_send_evs w) as evs eqn:E.
  cut (forall fuel, (length evs < fuel)%nat -> forall w, evs = n_send_evs w ->
    Forall patient evs -> 0 < deliveries evs ->
    exists n w', 3 <= n /\ send_loop fuel data w = Done (Z.min n (zlen data)) w' /\
      Forall patient (n_send_evs w') /\ deliveries (n_send_evs w') = deliveries evs - 1).
  { intros H Hp Hd. apply H; [lia|done..]. }
  clear w E. pose proof (zlen_nonneg data).
  induction evs as [|ev evs IH]; intros fuel Hf w Hw Hall Hd; [done|].
  inversion Hall as [|? ? [->|Hfull] Hall']; subst; destruct fuel as [|fuel]; try (cbn in Hf; lia);
    cbn [send_loop]; unfold mbind, M_bind, sys_socket_send; rewrite <- Hw.
  - apply (IH fuel ltac:(cbn in Hf; lia)
      (mkNet evs (n_recv_evs w) (n_out w) (n_in w) (n_socket w) (n_connect w))); [done..|].
    done.
  - destruct ev as [n| |]; [|done..]. cbn [is_full] in Hfull. apply Z.leb_le in Hfull.
    cbn [fst snd]. rewrite Z.max_r, (proj2 (Z.ltb_ge _ _)) by lia. cbn [andb].
    eexists n, _. split; [lia|]. split; [done|]. split; [done|]. unfold deliveries. cbn [n_send_evs].
    rewrite filter_cons_True by (cbn; apply Z.leb_le; lia). rewrite zlen_cons. lia.
Qed.

Lemma patient_send_all fuel data w :
  Forall patient (n_send_evs w) -> zlen data <= deliveries (n_send_evs w) ->
  (length data <= fuel)%nat ->
  exists w', send_all fuel data w = Done tt w' /\ Forall patient (n_send_evs w') /\
    deliveries (n_send_evs w) - zlen data <= deliveries (n_send_evs w').
Proof.
  revert data w. induction fuel as [|fuel IH]; intros data w Hp Hd Hf;
    (destruct data as [|b data]; [exists w; rewrite zlen_nil in *; split_and!; [done..|lia]|]).
  { cbn in Hf. lia. }
  cbn [send_all]. pose proof (zlen_nonneg data). rewrite zlen_cons in Hd.
  destruct (patient_send (b :: data) w Hp ltac:(lia)) as (n & w1 & Hn & E & Hp1 & Hd1).
  rewrite (bind_Done _ _ _ _ _ E). set (k := Z.min n (zlen (b :: data))) in *.
  assert (Hk : 0 < k <= zlen (b :: data)) by (subst k; rewrite zlen_cons; lia).
  rewrite (proj2 (Z.leb_gt _ _)) by lia.
  destruct (IH (drop (Z.to_nat k) (b :: data)) w1 Hp1) as (w' & E' & Hp' & Hd').
  - rewrite zlen_drop, zlen_cons by lia. lia.
  - rewrite length_drop. cbn in *. lia.
  - exists w'. split_and!; [exact E'|done|]. rewrite zlen_drop in Hd' by lia. lia.
Qed.

Lemma transport_send_patient t w data :
  0 <= fd t -> 0 < zlen data < 508 -> zlen data mod 4 = 0 ->
  Forall patient (n_send_evs (w_net w)) -> 1 + zlen data <= deliveries (n_send_evs (w_net w)) ->
  exists n', transport_send data (t, w) = Done tt (t, set_net w n') /\
    n_in n' = n_in (w_net w) /\ n_recv_evs n' = n_recv_evs (w_net w) /\
    n_out n' = n_out (w_net w) ++ frame data /\ Forall patient (n_send_evs n') /\
    deliveries (n_send_evs (w_net w)) - (1 + zlen data) <= deliveries (n_send_evs n').
Proof.
  intros Hfd Hz Hm Hp Hd. pose proof (transport_send_at data t w) as Hat.
  assert (E : exists n', transport_send data (t, w) = Done tt (t, set_net w n') /\
    Forall patient (n_send_evs n') /\
    deliveries (n_send_evs (w_net w)) - (1 + zlen data) <= deliveries (n_send_evs n')).
  { unfold transport_send. rewrite (bind_Done _ _ _ t (t, w)) by done.
    rewrite (proj2 (Z.eqb_neq (zlen data) 0)), (proj2 (Z.ltb_ge _ _)) by lia. cbn [orb]. rewrite Hm.
    cbn zeta. change (negb (0 =? 0)) with false. cbn iota.
    assert (Hpre : zlen (length_prefix (zlen data / 4)) = 1).
    { unfold length_prefix. rewrite (proj2 (Z.ltb_lt _ _)) by (Z.div_mod_to_equations; lia). done. }
    destruct (patient_send (length_prefix (zlen data / 4)) (w_net w) Hp ltac:(lia))
      as (n & w1 & Hn & E & Hp1 & Hd1).
    rewrite Hpre, Z.min_r in E by lia.
    rewrite (bind_Done _ _ _ 1 (t, set_net w w1)) by (by rewrite on_net_at, E).
    rewrite Hpre. change (negb (1 =? 1)) with false. cbn iota. rewrite on_net_at. cbn [w_net set_net].
    destruct (patient_send_all (length data) data w1 Hp1 ltac:(lia) ltac:(lia)) as (w2 & E2 & Hp2 & Hd2).
    rewrite E2. exists w2. split_and!; done || lia. }
  destruct E as (n' & E & Hp' & Hd'). rewrite E in Hat. exists n'.
  by destruct Hat as (_ & _ & _ & Ho & Hi & Hr & _).
Qed.
(** ** Limits *)

(** A payload of [2^24] words does not fit the prefix: what goes on the wire
    is read back as an empty frame followed by the payload as garbage. *)
Lemma oversized_frame data rest :
  zlen data = 2 ^ 26 -> unframe (frame data ++ rest) = Some ([], data ++ rest).
Proof.
  intros Hz. unfold frame, length_prefix. rewrite Hz.
  change (2 ^ 26 / 4 <? 127) with false. cbn iota. rewrite !byte_land_ff. cbn [app unframe].
  change (byte.unsigned (byte.of_Z 127) <? 127) with false. cbn iota.
  change (le_combine _) with 0. rewrite (proj2 (Z.ltb_ge _ _)) by apply zlen_nonneg. done.
Qed.

(** A long prefix that arrives in two pieces is an error, although the rest
    of the frame follows. *)
Lemma split_prefix_fails max_len t w e0 e1 e2 l k evs :
  0 <= fd t -> 0 < k < 3 ->
  n_in (w_net w) = byte.of_Z 0x7F :: e0 :: e1 :: e2 :: l ->
  n_recv_evs (w_net w) = SockN 1 :: SockN k :: evs ->
  exists w', transport_recv max_len (t, w) = Fail (t, w').
Proof.
  intros Hfd Hk Hin Hev. unfold transport_recv.
  rewrite (bind_Done _ _ _ t (t, w)), (proj2 (Z.ltb_ge _ _)) by done.
  assert (k = 1 \/ k = 2) as [->| ->] by lia;
  (eexists; apply bind_Fail; rewrite on_net_at;
   unfold recv_wire_len, recv_retry, mbind, M_bind; rewrite Hev; cbn [length recv_loop];
   unfold mbind, M_bind, sys_socket_recv; rewrite Hev, Hin; reflexivity).
Qed.
