(* ===== verification/WireTheorems.v ===== *)
(** * Encryption, session and transport: the theorems

    What src/core/ige_aes.c, mtproto_crypto.c, mtproto_session.c and
    src/infrastructure/transport.c guarantee to the layers above. *)

From S2P Require Import Prelude TlSerial World IgeAes MtprotoCrypto MtprotoSession Transport.
From Stdlib Require Import Sorted.

(** ** Sample objects *)

Definition sample_key : list byte := map byte.of_Z (map Z.of_nat (seq 0 256)).

(** A session with a key, and one without anything. *)
Definition sample_session : MtProtoSession := mkSession 7 11 0 0 sample_key true.

(** Random bytes that count up, a clock that stands still. *)
Definition sample_world (evs : list sock_ev) (input : list byte) : World :=
  mkWorld (fun i => byte.of_Z (Z.of_nat i)) 0 (fun _ => 1700000000) 0
          (mkNet evs evs [] input 3 0).

Lemma sample_session_wf : session_wf sample_session.
Proof. unfold session_wf. split_and!; try reflexivity; vm_compute; split; discriminate || done. Qed.

(** ** Encryption *)

(** (C36) IGE decryption inverts IGE encryption under every key and IV, for
    every whole number of blocks, whatever the output buffers held. *)
Theorem aes_ige_round_trip {C : Crypto} {HC : CryptoLaws C} plain key iv out out' :
  zlen plain mod 16 = 0 -> 0 < zlen plain -> length key = 32%nat -> length iv = 32%nat ->
  length out = length plain -> length out' = length plain ->
  aes_ige_decrypt (aes_ige_encrypt plain key iv out) key iv out' = plain.
Proof. apply aes_ige_inverse. Qed.

Lemma aes_ige_round_trip_witness :
  aes_ige_decrypt (C := toy_crypto)
    (aes_ige_encrypt (C := toy_crypto) (take 48 sample_key) (take 32 sample_key)
       (take 32 sample_key) (replicate 48 Byte.x00))
    (take 32 sample_key) (take 32 sample_key) (replicate 48 Byte.x01) = take 48 sample_key.
Proof.
  apply (aes_ige_round_trip (HC := toy_crypto_laws) (take 48 sample_key)); reflexivity.
Defined.

(** Encrypting a plaintext draws 12 to 27 bytes of padding, makes a
    ciphertext of whole blocks, and the receiver, with the same key and the
    returned message key, decrypts it to the plaintext and the padding. *)
Theorem encrypt_decrypt {C : Crypto} {HC : CryptoLaws C} plain auth_key x w :
  zlen plain <= 2 ^ 62 ->
  exists pad cipher mk w',
    mtproto_encrypt plain auth_key x w = Done (cipher, mk) w' /\
    12 <= zlen pad <= 27 /\ zlen cipher = zlen plain + zlen pad /\ zlen cipher mod 16 = 0 /\
    length mk = 16%nat /\ mtproto_decrypt cipher auth_key mk x = Some (plain ++ pad).
Proof.
  intros Hp. pose proof (zlen_nonneg plain).
  destruct (encrypt_at plain auth_key x w Hp) as (pad & cipher & w' & E & Hpad & Hc & _ & Hd).
  destruct (pad_len_spec (zlen plain)) as [Hr Hm]; [lia|].
  exists pad, cipher, (mtproto_compute_msg_key auth_key (plain ++ pad) x), w'.
  rewrite Hc, Hpad in *. split_and!; try done; [lia|lia|apply msg_key_len].
Qed.

Lemma encrypt_decrypt_witness :
  exists pad cipher mk w',
    mtproto_encrypt (C := toy_crypto) (take 20 sample_key) sample_key 0 (sample_world [] []) =
      Done (cipher, mk) w' /\
    12 <= zlen pad <= 27 /\ zlen cipher = zlen (take 20 sample_key) + zlen pad /\
    zlen cipher mod 16 = 0 /\ length mk = 16%nat /\
    mtproto_decrypt (C := toy_crypto) cipher sample_key mk 0 = Some (take 20 sample_key ++ pad).
Proof.
  apply (encrypt_decrypt (HC := toy_crypto_laws) (take 20 sample_key) sample_key 0 (sample_world [] [])).
  vm_compute. discriminate.
Defined.

(** Decryption accepts only whole blocks, at least one, and only when
    the message key recomputed from the plaintext it returns is the one on
    the wire; in every other case it returns -1. *)
Theorem decrypt_verifies {C : Crypto} {HC : CryptoLaws C} cipher auth_key msg_key x :
  match mtproto_decrypt cipher auth_key msg_key x with
  | Some plain =>
      zlen plain = zlen cipher /\ 16 <= zlen cipher /\ zlen cipher mod 16 = 0 /\
      mtproto_compute_msg_key auth_key plain x = take 16 msg_key
  | None =>
      zlen cipher < 16 \/ zlen cipher mod 16 <> 0 \/
      let keys := mtproto_derive_keys auth_key msg_key x in
      mtproto_compute_msg_key auth_key
        (aes_ige_decrypt cipher (fst keys) (snd keys) (replicate (length cipher) Byte.x00)) x <>
      take 16 msg_key
  end.
Proof.
  destruct (mtproto_decrypt cipher auth_key msg_key x) as [plain|] eqn:E.
  - by apply decrypt_sound in E.
  - unfold mtproto_decrypt in E. destruct (Z.ltb_spec (zlen cipher) 16); [by left|right].
    destruct (Z.eqb_spec (zlen cipher mod 16) 0); [right|by left].
    cbn [orb negb] in E. case_bool_decide as Hk; [done|]. intros keys Hk'. by apply Hk.
Qed.

Lemma decrypt_verifies_witness :
  mtproto_decrypt (C := toy_crypto) [Byte.x00] sample_key [] 8 = None /\
  (zlen [Byte.x00] < 16 \/ zlen [Byte.x00] mod 16 <> 0 \/
   let keys := mtproto_derive_keys (C := toy_crypto) sample_key [] 8 in
   mtproto_compute_msg_key (C := toy_crypto) sample_key
     (aes_ige_decrypt (C := toy_crypto) [Byte.x00] (fst keys) (snd keys)
        (replicate (length [Byte.x00]) Byte.x00)) 8 <> take 16 []).
Proof.
  split; [reflexivity|].
  exact (decrypt_verifies (HC := toy_crypto_laws) [Byte.x00] sample_key [] 8).
Defined.

(** ** Session *)

(** Message ids: over any number of calls, whatever the random generator
    returns and however the clock moves below a bound that leaves room in 64
    bits, the ids are multiples of four and strictly increase. *)
Theorem msg_ids_increase n B s w :
  session_wf s -> last_msg_id s <= B -> B + 4 * Z.of_nat n <= 2 ^ 64 - 4 ->
  (forall i, (w_ticks w <= i < w_ticks w + n)%nat ->
     u64 (w_clock w i) mod 2 ^ 32 * 2 ^ 32 + 2 ^ 32 - 4 <= B) ->
  exists ids s' w',
    msg_ids n (s, w) = Done ids (s', w') /\ length ids = n /\
    Forall (fun id => id mod 4 = 0) ids /\ StronglySorted Z.lt (last_msg_id s :: ids).
Proof. apply msg_ids_at. Qed.

Lemma msg_ids_increase_witness :
  exists ids s' w',
    msg_ids 3 (sample_session, sample_world [] []) = Done ids (s', w') /\ length ids = 3%nat /\
    Forall (fun id => id mod 4 = 0) ids /\ StronglySorted Z.lt (0 :: ids).
Proof.
  apply (msg_ids_increase 3 (2 ^ 63) sample_session (sample_world [] [])).
  - exact sample_session_wf.
  - vm_compute. discriminate.
  - vm_compute. discriminate.
  - intros i _. vm_compute. discriminate.
Defined.

(** The session invariant (fields in the range of their C types, a
    256-byte key, message ids divisible by four) holds in every state reached
    by session operations, failed loads of a key file included. *)
Theorem session_invariant st st' :
  session_steps st st' -> session_wf (fst st) -> session_wf (fst st').
Proof. apply session_steps_wf. Qed.

Definition loaded_session : MtProtoSession :=
  mkSession 7 11 0 0 (replicate 10 Byte.x41 ++ drop 10 sample_key) true.

Lemma session_invariant_witness : session_wf loaded_session.
Proof.
  apply (session_invariant (sample_session, sample_world [] []) (loaded_session, sample_world [] [])).
  - apply (steps_fail _ (sample_session, sample_world [] []) _ (OpLoad (Some (replicate 10 Byte.x41)))).
    + exact I.
    + apply steps_refl.
    + reflexivity.
  - exact sample_session_wf.
Defined.

(** A key that was saved completely is loaded back into any session,
    which then has the key and nothing else changed. *)
Theorem auth_key_file_round_trip s s0 w room :
  has_auth_key s = true -> length (auth_key s) = 256%nat -> length (auth_key s0) = 256%nat ->
  (256 <= room)%nat ->
  fst (mtproto_session_save_auth_key s true room) = 0 /\
  mtproto_session_load_auth_key (snd (mtproto_session_save_auth_key s true room)) (s0, w) =
  Done tt (set_has_key true (set_key (auth_key s) s0), w).
Proof. apply save_load_at. Qed.

Lemma auth_key_file_round_trip_witness :
  fst (mtproto_session_save_auth_key sample_session true 256) = 0 /\
  mtproto_session_load_auth_key (snd (mtproto_session_save_auth_key sample_session true 256))
    (session_zero, sample_world [] []) =
  Done tt (set_has_key true (set_key sample_key session_zero), sample_world [] []).
Proof.
  apply (auth_key_file_round_trip sample_session session_zero (sample_world [] []) 256);
    try reflexivity; lia.
Defined.

(** ** Transport *)

(** A send that succeeds has put exactly one frame of the payload behind
    what was sent before, however the socket split and interrupted it; one
    that fails has put at most a prefix of that frame; the payload is not
    empty and a whole number of words. *)
Theorem transport_send_frames data t w :
  match transport_send data (t, w) with
  | Done _ (t', w') =>
      t' = t /\ 0 < zlen data /\ zlen data mod 4 = 0 /\
      n_out (w_net w') = n_out (w_net w) ++ frame data
  | Fail (t', w') =>
      t' = t /\ exists p, p `prefix_of` frame data /\ n_out (w_net w') = n_out (w_net w) ++ p
  | Fault | NoFuel => False
  end.
Proof.
  pose proof (transport_send_at data t w) as H.
  destruct (transport_send data (t, w)) as [u [t' w']|[t' w']| |]; [|by destruct H as (? & _ & ?)|done..].
  destruct H as (? & ? & ? & ? & _). done.
Qed.

(** (C37) A receive that succeeds has taken exactly one frame off the stream
    and returned its payload, within the buffer; one that fails has only
    consumed input. *)
Theorem transport_recv_frames max_len t w :
  match transport_recv max_len (t, w) with
  | Done payload (t', w') =>
      t' = t /\ zlen payload <= Z.max 0 max_len /\ n_out (w_net w') = n_out (w_net w) /\
      unframe (n_in (w_net w)) = Some (payload, n_in (w_net w'))
  | Fail (t', w') => t' = t /\ exists p, n_in (w_net w) = p ++ n_in (w_net w')
  | Fault | NoFuel => False
  end.
Proof.
  pose proof (transport_recv_at max_len t w) as H.
  destruct (transport_recv max_len (t, w)) as [u [t' w']|[t' w']| |]; [|by destruct H as (? & _ & ?)|done..].
  destruct H as (? & _ & ? & ? & _ & ?). done.
Qed.

(** What one side frames the other side receives: with a whole frame on
    the stream and a socket that is at worst interrupted or partial by no
    less than three bytes, the receive returns the payload and leaves what
    follows the frame. *)
Theorem transport_round_trip max_len t w data rest :
  0 <= fd t -> framable data -> zlen data <= max_len -> n_in (w_net w) = frame data ++ rest ->
  Forall patient (n_recv_evs (w_net w)) -> 2 + zlen data <= deliveries (n_recv_evs (w_net w)) ->
  exists w', transport_recv max_len (t, w) = Done data (t, w') /\ n_in (w_net w') = rest.
Proof. apply transport_recv_progress. Qed.

Lemma transport_round_trip_witness :
  exists w',
    transport_recv 100 (mkTransport 3 2 true,
      sample_world (SockRetry :: replicate 8 (SockN 3)) (frame (replicate 4 Byte.x41) ++ [Byte.x02]))
    = Done (replicate 4 Byte.x41) (mkTransport 3 2 true, w') /\ n_in (w_net w') = [Byte.x02].
Proof.
  apply (transport_round_trip 100 (mkTransport 3 2 true)
    (sample_world (SockRetry :: replicate 8 (SockN 3)) (frame (replicate 4 Byte.x41) ++ [Byte.x02]))
    (replicate 4 Byte.x41) [Byte.x02]).
  - vm_compute. discriminate.
  - split; reflexivity.
  - vm_compute. discriminate.
  - reflexivity.
  - cbn. repeat constructor; first [left; reflexivity | right; reflexivity].
  - vm_compute. discriminate.
Defined.

(** The long length prefix must arrive in one piece: when TCP delivers
    its three bytes split, the receive fails although the whole frame is on
    its way, whatever the rest of the schedule. *)
Theorem split_length_prefix_fails max_len t w e0 e1 e2 l k evs :
  0 <= fd t -> 0 < k < 3 ->
  n_in (w_net w) = byte.of_Z 0x7F :: e0 :: e1 :: e2 :: l ->
  n_recv_evs (w_net w) = SockN 1 :: SockN k :: evs ->
  exists w', transport_recv max_len (t, w) = Fail (t, w').
Proof. apply split_prefix_fails. Qed.

Lemma split_length_prefix_fails_witness :
  exists w', transport_recv 1000 (mkTransport 3 2 true,
    sample_world [SockN 1; SockN 2; SockN 1; SockN 1000] (frame (replicate 508 Byte.x41))) =
  Fail (mkTransport 3 2 true, w').
Proof.
  apply (split_length_prefix_fails 1000 (mkTransport 3 2 true)
    (sample_world [SockN 1; SockN 2; SockN 1; SockN 1000] (frame (replicate 508 Byte.x41)))
    (byte.of_Z 127) (byte.of_Z 0) (byte.of_Z 0) (replicate 508 Byte.x41) 2 [SockN 1; SockN 1000]).
  - vm_compute. discriminate.
  - lia.
  - reflexivity.
  - reflexivity.
Defined.
