(* ===== verification/MtprotoRpc.v ===== *)
(** * MTProto RPC messages (src/infrastructure/mtproto_rpc.c)

    Unencrypted and encrypted messages over the transport, and the parsers
    of what the server sends back: gzip_packed, msg_container, rpc_result
    and rpc_error. *)

From Stdlib Require Import String.
From S2P Require Import Prelude TlSerial TlLogic TlCrc World MtprotoCrypto MtprotoSession.
From S2P Require Import Transport.
From S2P Require Export CLib.

Definition RPC_BUF_SIZE : Z := 1024 * 1024.

Definition CRC_gzip_packed : Z := 0x3072cfa1.
Definition CRC_msg_container : Z := 0x73f1f8dc.
Definition CRC_rpc_result : Z := 0xf35c6d01.
Definition CRC_rpc_error : Z := 0x2144ca19.

(** ** The state: a session, its transport, the world *)

Abbreviation CM := (M (MtProtoSession * Transport * World)).

Definition on_ses {A} (m : SM A) : CM A := fun '(s, t, w) =>
  match m (s, w) with
  | Done a (s', w') => Done a (s', t, w')
  | Fail (s', w') => Fail (s', t, w')
  | Fault => Fault
  | NoFuel => NoFuel
  end.

Definition on_tr {A} (m : TM A) : CM A := fun '(s, t, w) =>
  match m (t, w) with
  | Done a (t', w') => Done a (s, t', w')
  | Fail (t', w') => Fail (s, t', w')
  | Fault => Fault
  | NoFuel => NoFuel
  end.

Definition get_session : CM MtProtoSession := fun st => Done (fst (fst st)) st.

(** Parse a buffer; a failed parse is the function's [-1]. *)
Definition with_reader {S A} (buf : list byte) (m : Rd A) : M S A := fun s =>
  match m (tl_reader_init buf (zlen buf)) with
  | Done a _ => Done a s
  | Fail _ => Fail s
  | Fault => Fault
  | NoFuel => NoFuel
  end.

(** A heap buffer of [cap] bytes takes [n] of them. *)
Definition fits {S} (n cap : Z) : M S unit := fun s => if cap <? n then Fault else Done tt s.

(** ** Unencrypted messages *)

Definition rpc_send_unencrypted (data : list byte) : CM unit :=
  msg_id ← on_ses mtproto_session_next_msg_id;
  let w := tl_writer_init in
  let w := tl_write_uint64 w 0 in
  let w := tl_write_uint64 w msg_id in
  let w := tl_write_uint32 w (u32 (zlen data)) in
  let w := tl_write_raw w data in
  on_tr (transport_send (w_data w)).

(** [tl_read_raw] of the announced length, when it is not zero. *)
Definition read_payload (max_len data_len : Z) : Rd (list byte) :=
  if max_len <? data_len then fail
  else if 0 <? data_len then tl_read_raw data_len
  else mret [].

Definition rpc_recv_unencrypted (max_len : Z) : CM (list byte) :=
  buf ← on_tr (transport_recv RPC_BUF_SIZE);
  if zlen buf <? 20 then fail
  else
    with_reader buf
      (tl_read_uint64 ;;
       tl_read_uint64 ;;
       data_len ← tl_read_uint32;
       read_payload max_len data_len).

(** ** Encrypted messages *)

Section Encrypted.
Context `{C : Crypto}.

(** SHA1(auth_key)[12:20], as the word the host reads from those bytes. *)
Definition auth_key_id (key : list byte) : Z := le_combine (slice 12 8 (crypto_sha1 (take 256 key))).

Definition rpc_send_encrypted (data : list byte) (content_related : bool) : CM unit :=
  s ← get_session;
  if negb (has_auth_key s) then fail
  else
    msg_id ← on_ses mtproto_session_next_msg_id;
    seq ← on_ses (mtproto_session_next_seq_no content_related);
    let plain := tl_writer_init in
    let plain := tl_write_uint64 plain (server_salt s) in
    let plain := tl_write_uint64 plain (session_id s) in
    let plain := tl_write_uint64 plain msg_id in
    let plain := tl_write_uint32 plain seq in
    let plain := tl_write_uint32 plain (u32 (zlen data)) in
    let plain := tl_write_raw plain data in
    enc ← on_snd (mtproto_encrypt (w_data plain) (auth_key s) 0);
    fits (zlen (fst enc)) RPC_BUF_SIZE ;;
    let wire := tl_writer_init in
    let wire := tl_write_uint64 wire (auth_key_id (auth_key s)) in
    let wire := tl_write_raw wire (snd enc) in
    let wire := tl_write_raw wire (fst enc) in
    on_tr (transport_send (w_data wire)).

(** The plaintext of a received message. *)
Definition parse_plain (sid max_len : Z) : Rd (list byte) :=
  tl_read_uint64 ;;
  recv_session_id ← tl_read_uint64;
  if negb (recv_session_id =? sid) then fail
  else
    tl_read_uint64 ;;
    tl_read_uint32 ;;
    data_len ← tl_read_uint32;
    read_payload max_len data_len.

Definition rpc_recv_encrypted (max_len : Z) : CM (list byte) :=
  s ← get_session;
  if negb (has_auth_key s) then fail
  else
    buf ← on_tr (transport_recv RPC_BUF_SIZE);
    if zlen buf <? 24 then fail
    else
      hdr ← with_reader buf
        (id ← tl_read_uint64; mk ← tl_read_raw 16; mret (id, mk));
      let cipher := drop 24 buf in
      if negb (fst hdr =? auth_key_id (auth_key s)) then fail
      else
        match mtproto_decrypt cipher (auth_key s) (snd hdr) 8 with
        | None => fail
        | Some decrypted =>
            fits (zlen decrypted) RPC_BUF_SIZE ;;
            if zlen decrypted <? 32 then fail
            else with_reader decrypted (parse_plain (session_id s) max_len)
        end.

End Encrypted.

(** ** gzip_packed *)

(** The first four bytes as the word the host reads. *)
Definition first_word (data : list byte) : Z := le_combine (take 4 data).

Section Gzip.

(** [tinf_gzip_uncompress] into a buffer of the given capacity, [None] unless
    it returns [TINF_OK]. *)
Context (tinf : Z -> list byte -> option (list byte)).

(** [None] is the return value [-1]. *)
Definition rpc_unwrap_gzip (data : list byte) (max_len : Z) : option (list byte) :=
  let len := zlen data in
  if len <? 4 then if max_len <? len then None else Some data
  else if negb (first_word data =? CRC_gzip_packed) then
    if max_len <? len then None else Some data
  else
    match (tl_read_uint32 ;; tl_read_bytes) (tl_reader_init data len) with
    | Done (Some (b :: gz)) _ => tinf (u32 max_len) (b :: gz)
    | _ => None
    end.

End Gzip.

(** ** msg_container *)

(** [body] is the part of the input the pointer [body] designates. *)
Record RpcContainerMsg := mkMsg { msg_id : Z; seqno : Z; body_len : Z; body : list byte }.

(** One round of the message loop. *)
Definition container_msg : Rd RpcContainerMsg :=
  fail_if (fun r => negb (tl_reader_ok r)) ;;
  mid ← tl_read_uint64;
  sn ← tl_read_uint32;
  bl ← tl_read_uint32;
  if negb (bl mod 4 =? 0) then fail
  else
    fail_if (fun r => remaining r <? bl) ;;
    b ← (fun r => Done (take (Z.to_nat bl) (drop (Z.to_nat (r_pos r)) (r_data r))) r);
    tl_read_skip bl ;;
    mret (mkMsg mid sn bl b).

Fixpoint container_msgs (n : nat) : Rd (list RpcContainerMsg) :=
  match n with
  | O => mret []
  | S n => m ← container_msg; ms ← container_msgs n; mret (m :: ms)
  end.

Definition container_body (max_msgs : Z) : Rd (list RpcContainerMsg) :=
  tl_read_uint32 ;;
  msg_count ← tl_read_uint32;
  if max_msgs <? msg_count then fail else container_msgs (Z.to_nat msg_count).

Definition rpc_parse_container (data : list byte) (max_msgs : Z)
    : option (list RpcContainerMsg) :=
  if zlen data <? 4 then None
  else if negb (first_word data =? CRC_msg_container) then
    if max_msgs <? 1 then None else Some [mkMsg 0 0 (u32 (zlen data)) data]
  else
    match container_body max_msgs (tl_reader_init data (zlen data)) with
    | Done ms _ => Some ms
    | _ => None
    end.

(** ** rpc_result *)

(** The request id and the inner object. *)
Definition rpc_unwrap_result (data : list byte) : option (Z * list byte) :=
  if zlen data <? 12 then None
  else if negb (first_word data =? CRC_rpc_result) then None
  else Some (le_combine (slice 4 8 data), drop 12 data).

(** ** rpc_error *)

Record RpcError := mkError {
  error_code : Z; error_msg : list byte; migrate_dc : Z; flood_wait_secs : Z }.

(** [atoi] on a string of digits: [strtol], which saturates, cut to [int]. *)
Definition atoi_digits (ds : list byte) : Z :=
  s32 (u32 (Z.min (2 ^ 63 - 1) (fold_left (fun v d => 10 * v + (byte.unsigned d - 48)) ds 0))).

(** The digits at the end of a string: what the backward scan stops at. *)
Fixpoint trailing_digits (rev_msg acc : list byte) : list byte :=
  match rev_msg with
  | b :: l => if is_digit b then trailing_digits l (b :: acc) else acc
  | [] => acc
  end.

Definition extract_trailing_int (msg : list byte) : Z :=
  match trailing_digits (rev msg) [] with
  | [] => 0
  | ds => atoi_digits ds
  end.

(** [strncmp(msg, p, strlen(p)) == 0] *)
Definition starts_with (p msg : list byte) : bool := bool_decide (take (length p) msg = p).

Definition PHONE_MIGRATE : list byte := ascii "PHONE_MIGRATE_"%string.
Definition FILE_MIGRATE : list byte := ascii "FILE_MIGRATE_"%string.
Definition NETWORK_MIGRATE : list byte := ascii "NETWORK_MIGRATE_"%string.
Definition USER_MIGRATE : list byte := ascii "USER_MIGRATE_"%string.
Definition FLOOD_WAIT : list byte := ascii "FLOOD_WAIT_"%string.

(** The fields derived from the message, a C string. *)
Definition error_fields (code : Z) (msg : list byte) : RpcError :=
  let migrate := starts_with PHONE_MIGRATE msg || starts_with FILE_MIGRATE msg ||
                 starts_with NETWORK_MIGRATE msg || starts_with USER_MIGRATE msg in
  mkError code (copy_trunc 128 msg)
    (if migrate then extract_trailing_int msg else -1)
    (if migrate then 0 else if starts_with FLOOD_WAIT msg then extract_trailing_int msg else 0).

Definition rpc_parse_error (data : list byte) : option RpcError :=
  if zlen data <? 4 then None
  else if negb (first_word data =? CRC_rpc_error) then None
  else
    match (tl_read_uint32 ;; code ← tl_read_int32; s ← tl_read_string; mret (code, s))
            (tl_reader_init data (zlen data)) with
    | Done (code, None) _ => Some (mkError code [] (-1) 0)
    | Done (code, Some s) _ => Some (error_fields code (cstr s))
    | _ => None
    end.
