(* ===== verification/RpcCorrect.v ===== *)
(** * Correctness of the RPC layer (src/infrastructure/mtproto_rpc.c)

    What an encrypted send puts on the wire and what the peer decrypts from
    it; that a receive accepts exactly the frames of the session, and which
    bytes of the stream it took; round trips of containers, results and
    errors. *)

From Stdlib Require Import String.
From S2P Require Import Prelude TlSerial TlLogic TlCrc World MtprotoCrypto MtprotoSession.
From S2P Require Import Transport MtprotoRpc.

(** ** Helpers: writers, readers, parts of the state *)

Lemma put_data w src : w_data (writer_put w src) = w_data w ++ src.
Proof. unfold writer_put, writer_ensure. by destruct (_ <=? _). Qed.

(** The bytes of the three writers of this file. *)
Ltac writer_bytes :=
  unfold tl_write_raw, tl_write_uint32, tl_write_uint64, write_le32, write_le64;
  rewrite !put_data, ?le_bytes32, ?le_bytes64; cbn [w_data tl_writer_init app];
  by rewrite <- ?app_assoc.

Lemma unencrypted_written mid n data :
  w_data (tl_write_raw (tl_write_uint32 (tl_write_uint64 (tl_write_uint64 tl_writer_init 0) mid)
                          n) data) = enc64 0 ++ enc64 mid ++ enc32 n ++ data.
Proof. writer_bytes. Qed.

Lemma message_written salt sid mid seq n data :
  w_data (tl_write_raw (tl_write_uint32 (tl_write_uint32 (tl_write_uint64 (tl_write_uint64
            (tl_write_uint64 tl_writer_init salt) sid) mid) seq) n) data) =
  enc64 salt ++ enc64 sid ++ enc64 mid ++ enc32 seq ++ enc32 n ++ data.
Proof. writer_bytes. Qed.

Lemma packet_written id mk cipher :
  w_data (tl_write_raw (tl_write_raw (tl_write_uint64 tl_writer_init id) mk) cipher) =
  enc64 id ++ mk ++ cipher.
Proof. writer_bytes. Qed.

Lemma with_reader_at {S A} (m : Rd A) buf bs tl a (s : S) :
  reads m bs a -> buf = bs ++ tl -> zlen buf <= SIZE_LIM -> with_reader buf m s = Done a s.
Proof.
  intros Hm -> Hz. unfold with_reader. pose proof (zlen_nonneg (bs ++ tl)).
  erewrite Hm; [done|apply reader_init_wf; lia|apply rest_init].
Qed.

Lemma with_reader_safe {S A} (m : Rd A) buf (s : S) :
  (forall b, safe_upto b m) -> zlen buf <= SIZE_LIM ->
  (exists a, with_reader buf m s = Done a s) \/ with_reader buf m s = Fail s.
Proof.
  intros Hm Hz. unfold with_reader. pose proof (zlen_nonneg buf).
  specialize (Hm (left (tl_reader_init buf (zlen buf))) (tl_reader_init buf (zlen buf))).
  specialize (Hm ltac:(apply reader_init_wf; lia) ltac:(done)).
  destruct (m _); [left; eauto|by right|done..].
Qed.

Lemma enc64_combine b : zlen b = 8 -> enc64 (le_combine b) = b.
Proof. intros H. apply split_le_combine'. unfold zlen in H. lia. Qed.

Lemma enc32_len v : zlen (enc32 v) = 4.
Proof. apply zlen_le_split. Qed.

Lemma enc64_len v : zlen (enc64 v) = 8.
Proof. apply zlen_le_split. Qed.

(** ** What a read that returned says about the input

    Every reader gives a default at the end of the input instead of an
    error, so an inversion has two cases: the bytes were there, or the
    cursor is at the end now. *)

Lemma pos_u64 r n : reader_wf r -> 0 <= n <= SIZE_LIM -> u64 (r_pos r + n) = r_pos r + n.
Proof. unfold reader_wf, SIZE_LIM. intros. apply u64_id. unfold is_u64. lia. Qed.

Lemma mem_read_rest r k n : reader_wf r -> 0 <= k -> 0 <= n -> r_pos r + k + n <= r_len r ->
  mem_read (r_data r) (r_pos r + k) n = Some (take (Z.to_nat n) (drop (Z.to_nat k) (rest r))).
Proof.
  intros Hwf Hk Hn Hle. unfold reader_wf in Hwf. rewrite mem_read_some by lia. f_equal.
  unfold rest. rewrite drop_drop, <- Z2Nat.inj_add by lia.
  rewrite <- (take_drop (Z.to_nat (r_len r)) (r_data r)) at 1.
  rewrite drop_app, take_app.
  assert (Hl : zlen (take (Z.to_nat (r_len r)) (r_data r)) = r_len r) by (apply zlen_take; lia).
  replace (Z.to_nat n - length _)%nat with 0%nat; [by rewrite take_0, app_nil_r|].
  rewrite length_drop. unfold zlen in Hl. lia.
Qed.

Lemma rest_set_pos r n : reader_wf r -> 0 <= n -> rest (set_pos r (r_pos r + n)) = drop (Z.to_nat n) (rest r).
Proof.
  intros Hwf Hn. unfold rest, reader_wf in *. cbn [set_pos r_pos r_len r_data].
  rewrite drop_drop. f_equal. lia.
Qed.

Lemma rest_end r : reader_wf r -> reader_wf (set_pos r (r_len r)) /\ rest (set_pos r (r_len r)) = [].
Proof.
  intros Hwf. split; [unfold reader_wf in *; cbn; lia|]. unfold rest. cbn. apply drop_ge.
  rewrite length_take. lia.
Qed.

Lemma read_case {A} n (f : list byte -> A) z r v r' :
  reader_wf r -> 0 < n <= SIZE_LIM ->
  (if negb (reader_has r n) then Done z (set_pos r (r_len r))
   else match mem_read (r_data r) (r_pos r) n with
        | Some bs => Done (f bs) (set_pos r (u64 (r_pos r + n)))
        | None => Fault
        end) = Done v r' ->
  reader_wf r' /\ ((exists bs, zlen bs = n /\ v = f bs /\ rest r = bs ++ rest r') \/
                   (v = z /\ rest r' = [] /\ zlen (rest r) < n)).
Proof.
  intros Hwf Hn H. rewrite reader_has_le in H by (done || lia).
  pose proof (rest_len r Hwf) as Hl. unfold left in Hl.
  destruct (Z.leb_spec (r_pos r + n) (r_len r)) as [Hb|Hb]; cbn [negb] in H.
  - rewrite <- (Z.add_0_r (r_pos r)) in H at 1. rewrite mem_read_rest in H by (done || lia).
    change (Z.to_nat 0) with 0%nat in H. rewrite drop_0 in H.
    rewrite pos_u64 in H by (done || lia). injection H as <- <-. split.
    + unfold reader_wf in *. cbn. lia.
    + left. eexists. split; [|split; [done|]]; [apply zlen_take; lia|].
      by rewrite rest_set_pos, take_drop by (done || lia).
  - injection H as <- <-. destruct (rest_end r Hwf). split; [done|]. right. split_and!; [done..|lia].
Qed.

Lemma raw_case n r v r' : reader_wf r -> 0 < n <= SIZE_LIM -> tl_read_raw n r = Done v r' ->
  reader_wf r' /\ ((zlen v = n /\ rest r = v ++ rest r') \/
                   (v = replicate (Z.to_nat n) Byte.x00 /\ rest r' = [] /\ zlen (rest r) < n)).
Proof.
  intros Hr Hn H. destruct (read_case n id (replicate (Z.to_nat n) Byte.x00) r v r' Hr Hn H)
    as [Hr' [(bs & Hz & -> & Hb)|?]]; split; auto.
Qed.

Lemma le32_case r v r' : reader_wf r -> read_le32 r = Done v r' ->
  reader_wf r' /\ is_u32 v /\ (rest r = enc32 v ++ rest r' \/ (v = 0 /\ rest r' = [] /\ zlen (rest r) < 4)).
Proof.
  intros Hr H. destruct (read_case 4 le_combine 0 r v r' Hr ltac:(unfold SIZE_LIM; lia) H)
    as [Hr' [(bs & Hz & -> & Hb)|(-> & He)]]; (split; [done|]); [|by split; [|right]].
  split; [|left].
  - pose proof (le_combine_bound bs) as Hc. unfold zlen in Hz. replace (length bs) with 4%nat in Hc by lia. exact Hc.
  - rewrite Hb. f_equal. unfold enc32. change 4%nat with (Z.to_nat 4).
    rewrite <- Hz. unfold zlen. rewrite Nat2Z.id. symmetry. apply split_le_combine.
Qed.

Lemma le64_case r v r' : reader_wf r -> read_le64 r = Done v r' ->
  reader_wf r' /\ is_u64 v /\ (rest r = enc64 v ++ rest r' \/ (v = 0 /\ rest r' = [] /\ zlen (rest r) < 8)).
Proof.
  intros Hr H. destruct (read_case 8 le_combine 0 r v r' Hr ltac:(unfold SIZE_LIM; lia) H)
    as [Hr' [(bs & Hz & -> & Hb)|(-> & He)]]; (split; [done|]); [|by split; [|right]].
  split; [|left].
  - apply le_combine8_range. unfold zlen in Hz. lia.
  - by rewrite enc64_combine.
Qed.

(** The length in front of TL bytes: one byte below 254, or a byte from 254
    and three more. *)
Definition bytes_header (pre : list byte) (n : Z) : Prop :=
  match pre with
  | [b] => byte.unsigned b < 254 /\ n = byte.unsigned b
  | [b; e0; e1; e2] => 254 <= byte.unsigned b /\ n = le_combine [e0; e1; e2]
  | _ => False
  end.

(** TL bytes with the contents [v] as the reader takes them: header,
    contents, up to three bytes of padding of any value. *)
Definition tl_bytes (v e : list byte) : Prop :=
  exists pre pad, e = pre ++ v ++ pad /\ bytes_header pre (zlen v) /\ zlen pad < 4.

Lemma body_case h n r v r' pre : reader_wf r -> h = zlen pre -> 0 < h <= 4 -> 0 <= n < 2 ^ 24 ->
  (exists tl, rest r = pre ++ tl) -> read_bytes_body h n r = Done v r' ->
  reader_wf r' /\
  match v with
  | Some bs => zlen bs = n /\ exists pad, rest r = pre ++ bs ++ pad ++ rest r' /\ zlen pad < 4
  | None => rest r' = []
  end.
Proof.
  intros Hwf Hh Hh4 Hn (tl & Hr) H. unfold read_bytes_body in H. cbn zeta in H.
  assert (Hhn : u64 (h + n) = h + n) by (apply u64_id; unfold is_u64; lia). rewrite !Hhn in H.
  rewrite reader_has_le in H by (unfold SIZE_LIM; done || lia).
  pose proof (rest_len r Hwf) as Hl. unfold left in Hl.
  destruct (Z.leb_spec (r_pos r + (h + n)) (r_len r)) as [Hb|Hb]; cbn [negb] in H.
  2: { injection H as <- <-. apply rest_end, Hwf. }
  rewrite pos_u64, mem_read_rest in H by (done || unfold SIZE_LIM; lia).
  assert (Hpad : Z.land (u64 (h + n + 3)) (u64 (Z.lnot 3)) = (h + n + 3) / 4 * 4).
  { rewrite u64_id by (unfold is_u64; lia). change (Z.lnot 3) with (Z.lnot (Z.ones 2)).
    rewrite land_lnot_ones64 by (unfold is_u64; lia). change (2 ^ 2) with 4. Z.div_mod_to_equations. lia. }
  rewrite Hpad, pos_u64 in H by (done || (unfold SIZE_LIM; Z.div_mod_to_equations; lia)). injection H as <- <-.
  assert (Hbound : h + n <= (h + n + 3) / 4 * 4 < h + n + 4) by (Z.div_mod_to_equations; lia).
  set (m := (h + n + 3) / 4 * 4) in *.
  rewrite Hr, (drop_app_exact pre tl h) by lia.
  assert (Hz : zlen tl >= n) by (rewrite Hr, zlen_app in Hl; lia).
  split; [unfold reader_wf in *; cbn; lia|]. split; [apply zlen_take; lia|].
  exists (take (Z.to_nat (m - h - n)) (drop (Z.to_nat n) tl)). split.
  2: { unfold zlen. rewrite length_take. lia. }
  rewrite rest_set_pos, Hr by (done || lia).
  replace (drop (Z.to_nat m) (pre ++ tl)) with (drop (Z.to_nat (m - h - n)) (drop (Z.to_nat n) tl)).
  - by rewrite !take_drop.
  - rewrite drop_app. unfold zlen in *. rewrite (drop_ge pre) by lia. cbn [app].
    rewrite drop_drop. f_equal. lia.
Qed.

Lemma bytes_case r v r' : reader_wf r -> tl_read_bytes r = Done v r' ->
  reader_wf r' /\ match v with
                  | Some bs => exists e, rest r = e ++ rest r' /\ tl_bytes bs e
                  | None => rest r' = []
                  end.
Proof.
  intros Hwf H. unfold tl_read_bytes in H. pose proof (rest_len r Hwf) as Hl. unfold left in Hl.
  rewrite reader_has_le in H by (done || (unfold SIZE_LIM; lia)).
  destruct (Z.leb_spec (r_pos r + 1) (r_len r)) as [Hb|Hb]; cbn [negb] in H.
  2: { injection H as <- <-. apply rest_end, Hwf. }
  rewrite <- (Z.add_0_r (r_pos r)) in H at 1. rewrite mem_read_rest in H by (done || lia).
  change (Z.to_nat 0) with 0%nat in H. rewrite drop_0 in H.
  destruct (rest r) as [|b l] eqn:Er; [unfold zlen in Hl; cbn in Hl; lia|].
  change (take (Z.to_nat 1) (b :: l)) with [b] in H. cbn iota in H.
  pose proof (byte.unsigned_range b) as Hr.
  assert (Hend : forall pre n, bytes_header pre n -> 0 <= n < 2 ^ 24 -> (exists tl, b :: l = pre ++ tl) ->
    read_bytes_body (zlen pre) n r = Done v r' -> 0 < zlen pre <= 4 ->
    reader_wf r' /\ match v with
      | Some bs => exists e, b :: l = e ++ rest r' /\ tl_bytes bs e | None => rest r' = [] end).
  { intros pre n Hh Hn Htl E Hpre.
    destruct (body_case (zlen pre) n r v r' pre Hwf eq_refl Hpre Hn ltac:(by rewrite Er) E) as [Hwf' Hv].
    split; [done|]. destruct v as [bs|]; [|done]. destruct Hv as (Hz & pad & Hrest & Hpad).
    exists (pre ++ bs ++ pad). rewrite <- Er, Hrest, <- !app_assoc. split; [done|].
    exists pre, pad. by rewrite Hz. }
  destruct (Z.ltb_spec (byte.unsigned b) 254) as [Hs|Hs].
  - apply (Hend [b] (byte.unsigned b)); try done; [lia|by exists l].
  - rewrite reader_has_le in H by (done || (unfold SIZE_LIM; lia)).
    destruct (Z.leb_spec (r_pos r + 4) (r_len r)) as [Hb4|Hb4]; cbn [negb] in H.
    2: { injection H as <- <-. apply rest_end, Hwf. }
    rewrite pos_u64, mem_read_rest in H by (done || unfold SIZE_LIM; lia). rewrite Er in H.
    destruct l as [|e0 [|e1 [|e2 l]]]; try (unfold zlen in Hl; cbn in Hl; lia).
    change (take (Z.to_nat 3) (drop (Z.to_nat 1) (b :: e0 :: e1 :: e2 :: l))) with [e0; e1; e2] in H.
    pose proof (le_combine_bound [e0; e1; e2]) as Hc.
    apply (Hend [b; e0; e1; e2] (le_combine [e0; e1; e2])); try done. by exists l.
Qed.

(** With enough bytes left the first case holds. *)
Lemma le64_took r v r' : reader_wf r -> 8 <= zlen (rest r) -> read_le64 r = Done v r' ->
  reader_wf r' /\ is_u64 v /\ rest r = enc64 v ++ rest r' /\ zlen (rest r') = zlen (rest r) - 8.
Proof.
  intros Hwf Hl H. apply le64_case in H as (Hwf' & Hv & [Hr|(_ & _ & ?)]); [|lia|done].
  split_and!; try done. rewrite Hr, zlen_app, enc64_len. lia.
Qed.

Lemma le32_took r v r' : reader_wf r -> 4 <= zlen (rest r) -> read_le32 r = Done v r' ->
  reader_wf r' /\ is_u32 v /\ rest r = enc32 v ++ rest r' /\ zlen (rest r') = zlen (rest r) - 4.
Proof.
  intros Hwf Hl H. apply le32_case in H as (Hwf' & Hv & [Hr|(_ & _ & ?)]); [|lia|done].
  split_and!; try done. rewrite Hr, zlen_app, enc32_len. lia.
Qed.

(** ** Encrypted send *)

(** The message header and the payload. *)
Definition message_bytes (salt sid mid seq : Z) (data : list byte) : list byte :=
  enc64 salt ++ enc64 sid ++ enc64 mid ++ enc32 seq ++ enc32 (zlen data) ++ data.

(** The packet around a ciphertext. *)
Definition packet `{Crypto} (key mk cipher : list byte) : list byte :=
  enc64 (auth_key_id key) ++ mk ++ cipher.

Lemma message_len salt sid mid seq data : zlen (message_bytes salt sid mid seq data) = 32 + zlen data.
Proof.
  unfold message_bytes. rewrite !zlen_app, !enc64_len, !enc32_len. lia.
Qed.

Lemma on_tr_cases {A} (m : TM A) s t w :
  on_tr m (s, t, w) =
  match m (t, w) with
  | Done a (t', w') => Done a (s, t', w')
  | Fail (t', w') => Fail (s, t', w')
  | Fault => Fault
  | NoFuel => NoFuel
  end.
Proof. done. Qed.

Section Encrypted.
Context `{C : Crypto} {HC : CryptoLaws C}.

Definition session_after (s : MtProtoSession) (id : Z) (content_related : bool) : MtProtoSession :=
  let s1 := set_last_msg_id id s in
  if content_related then set_seq_no (seq_no s1 + 1) s1 else s1.

(** The part of a send before the socket: a fresh message id, a sequence
    number, and a packet the peer decrypts to the message. *)
Lemma send_prepares data (c : bool) s t w :
  session_wf s -> has_auth_key s = true -> last_msg_id s < 2 ^ 64 - 4 -> seq_no s < 2 ^ 31 ->
  zlen data < 2 ^ 32 ->
  exists (id : Z) (pad cipher mk : list byte) (w1 : World),
    last_msg_id s < id /\ id mod 4 = 0 /\ is_u64 id /\
    id <= Z.max (last_msg_id s + 4) (u64 (w_clock w (w_ticks w)) mod 2 ^ 32 * 2 ^ 32 + 2 ^ 32 - 4) /\
    w_net w1 = w_net w /\
    12 <= zlen pad <= 27 /\ length mk = 16%nat /\ zlen cipher mod 16 = 0 /\
    zlen cipher = 32 + zlen data + zlen pad /\
    mtproto_decrypt cipher (auth_key s) mk 0 =
      Some (message_bytes (server_salt s) (session_id s) id
              (2 * seq_no s + (if c then 1 else 0)) data ++ pad) /\
    rpc_send_encrypted data c (s, t, w) =
      if RPC_BUF_SIZE <? zlen cipher then Fault
      else on_tr (transport_send (packet (auth_key s) mk cipher)) (session_after s id c, t, w1).
Proof.
  intros Hwf Hk Hlast Hseq Hlen. pose proof (zlen_nonneg data) as Hd.
  destruct (next_msg_id_at s w Hwf Hlast) as (id & w1 & E1 & Hu & H4 & Hlt & Hbound & Hn1 & _).
  assert (Hs1 : is_u32 (seq_no (set_last_msg_id id s))) by apply Hwf.
  pose proof (next_seq_no_at c (set_last_msg_id id s) w1 Hs1 Hseq) as E2.
  set (msg := message_bytes (server_salt s) (session_id s) id
                (2 * seq_no s + (if c then 1 else 0)) data).
  assert (Hml : zlen msg = 32 + zlen data) by apply message_len.
  destruct (encrypt_at msg (auth_key s) 0 w1) as (pad & cipher & w2 & E3 & Hpad & Hcl & Hn2 & Hdec);
    [lia|].
  destruct (pad_len_spec (zlen msg)) as [Hpr Hpm]; [lia|].
  exists id, pad, cipher, (mtproto_compute_msg_key (auth_key s) (msg ++ pad) 0), w2.
  split; [exact Hlt|]. split; [exact H4|]. split; [exact Hu|]. split; [exact Hbound|].
  split; [congruence|].
  split; [lia|]. split; [apply msg_key_len|]. split; [rewrite Hcl, Hpad; exact Hpm|].
  split; [lia|].
  split; [exact Hdec|].
  unfold rpc_send_encrypted. rewrite (bind_Done _ _ _ s (s, t, w)) by done. rewrite Hk. cbn [negb].
  rewrite (bind_Done _ _ _ id (set_last_msg_id id s, t, w1)) by (unfold on_ses; by rewrite E1).
  rewrite (bind_Done _ _ _ (2 * seq_no s + (if c then 1 else 0)) (session_after s id c, t, w1))
    by (unfold on_ses; rewrite E2; by destruct c).
  cbn zeta. rewrite message_written, (u32_id (zlen data)) by (unfold is_u32; lia).
  fold (message_bytes (server_salt s) (session_id s) id (2 * seq_no s + (if c then 1 else 0)) data).
  fold msg. erewrite bind_Done; [|unfold on_snd; cbn [fst snd]; by rewrite E3].
  cbn [fst snd]. rewrite packet_written. unfold fits, mbind, M_bind.
  by destruct (RPC_BUF_SIZE <? zlen cipher).
Qed.

Lemma send_encrypted_at data (c : bool) s t w :
  session_wf s -> has_auth_key s = true -> last_msg_id s < 2 ^ 64 - 4 -> seq_no s < 2 ^ 31 ->
  zlen data + 59 <= RPC_BUF_SIZE ->
  exists (id : Z) (pad cipher mk : list byte),
    last_msg_id s < id /\ id mod 4 = 0 /\ 12 <= zlen pad <= 27 /\
    mtproto_decrypt cipher (auth_key s) mk 0 =
      Some (message_bytes (server_salt s) (session_id s) id
              (2 * seq_no s + (if c then 1 else 0)) data ++ pad) /\
    match rpc_send_encrypted data c (s, t, w) with
    | Done _ (s', t', w') =>
        s' = session_after s id c /\ t' = t /\
        n_out (w_net w') = n_out (w_net w) ++ frame (packet (auth_key s) mk cipher) /\
        n_in (w_net w') = n_in (w_net w)
    | Fail (s', t', w') =>
        s' = session_after s id c /\ t' = t /\
        exists p, p `prefix_of` frame (packet (auth_key s) mk cipher) /\
                  n_out (w_net w') = n_out (w_net w) ++ p
    | Fault | NoFuel => False
    end.
Proof.
  intros Hwf Hk Hlast Hseq Hlen.
  unfold RPC_BUF_SIZE in Hlen. pose proof (zlen_nonneg data).
  destruct (send_prepares data c s t w Hwf Hk Hlast Hseq ltac:(lia))
    as (id & pad & cipher & mk & w1 & Hlt & H4 & _ & _ & Hn & Hpad & Hmk & Hc & Hz & Hdec & E).
  exists id, pad, cipher, mk. split_and!; try done; try lia.
  rewrite E, on_tr_cases, (proj2 (Z.ltb_ge _ _)) by (unfold RPC_BUF_SIZE; lia).
  pose proof (transport_send_at (packet (auth_key s) mk cipher) t w1) as Ht.
  destruct (transport_send _ (t, w1)) as [[] [t' w']|[t' w']| |]; [| |done|done].
  - destruct Ht as (-> & _ & _ & Ho & Hi & _). rewrite Hn in Ho, Hi. done.
  - destruct Ht as (-> & _ & Hp). rewrite Hn in Hp. done.
Qed.

(** ** Encrypted receive *)

Lemma safe_read_payload b max_len n : 0 <= n < 2 ^ 32 -> safe_upto b (read_payload max_len n).
Proof.
  intros Hn. unfold read_payload. repeat apply safe_if; auto using safe_fail, safe_ret.
  apply safe_read_raw. unfold SIZE_LIM. lia.
Qed.

Lemma safe_read_u32_then {A} b (k : Z -> Rd A) :
  (forall v, 0 <= v < 2 ^ 32 -> safe_upto b (k v)) -> safe_upto b (v ← tl_read_uint32; k v).
Proof.
  intros Hk r Hwf Hl. pose proof (safe_read_le32 b r Hwf Hl) as Hs.
  unfold mbind, M_bind, tl_read_uint32 in *.
  destruct (read_le32 r) as [v r'|r'| |] eqn:E; [|done..].
  assert (Hv : 0 <= v < 2 ^ 32).
  { unfold read_le32 in E. destruct (negb (reader_has r 4)); [by injection E as <- _|].
    unfold mem_read in E. destruct ((0 <=? r_pos r) && (0 <=? 4) && _) eqn:Eb; [|done].
    injection E as <- _. bool_prop.
    pose proof (le_combine_bound (take (Z.to_nat 4) (drop (Z.to_nat (r_pos r)) (r_data r)))) as Hb.
    rewrite length_take, length_drop in Hb. unfold zlen in *.
    rewrite Nat.min_l in Hb by lia. exact Hb. }
  assert (Hs' := Hs). destruct Hs' as (Hwf' & _ & _ & Hle). change (rd r) with r in *.
  change (rd r') with r' in *.
  specialize (Hk v Hv r' Hwf' ltac:(cbn in *; lia)). destruct (k v r'); try done; by eapply later_trans.
Qed.

Lemma safe_parse_plain b sid max_len : safe_upto b (parse_plain sid max_len).
Proof.
  unfold parse_plain. do 2 (apply safe_bind; [safe_tac|intros ?]).
  apply safe_if; [safe_tac|]. do 2 (apply safe_bind; [safe_tac|intros ?]).
  apply safe_read_u32_then. intros v Hv. by apply safe_read_payload.
Qed.

Lemma read_raw_len n r out r' : tl_read_raw n r = Done out r' -> 0 <= n -> zlen out = n.
Proof.
  unfold tl_read_raw. intros H Hn. destruct (negb (reader_has r n)).
  - injection H as <- _. rewrite zlen_replicate. lia.
  - unfold mem_read in H. destruct (_ && _) eqn:E; [|done]. injection H as <- _. bool_prop.
    unfold zlen in *. rewrite length_take, length_drop. lia.
Qed.

Lemma read_payload_len max_len n r out r' :
  read_payload max_len n r = Done out r' -> zlen out <= Z.max 0 max_len.
Proof.
  unfold read_payload. destruct (Z.ltb_spec max_len n); [done|].
  destruct (Z.ltb_spec 0 n); intros H1.
  - apply read_raw_len in H1; lia.
  - injection H1 as <- _. rewrite zlen_nil. lia.
Qed.

(** What a successful parse of the plaintext says about it. *)
Lemma parse_plain_sound sid max_len plain out r' :
  16 <= zlen plain -> zlen plain <= SIZE_LIM ->
  parse_plain sid max_len (tl_reader_init plain (zlen plain)) = Done out r' ->
  slice 8 8 plain = enc64 sid /\ zlen out <= Z.max 0 max_len.
Proof.
  intros Hl Hlim H. unfold zlen in Hl.
  set (a := take 8 plain). set (b := slice 8 8 plain). set (c := drop 16 plain).
  assert (Ha : zlen a = 8) by (unfold a, zlen; rewrite length_take; lia).
  assert (Hb : zlen b = 8) by (unfold b, zlen; rewrite slice_len; lia).
  assert (Hsplit : plain = enc64 (le_combine a) ++ enc64 (le_combine b) ++ c).
  { rewrite !enc64_combine by done. unfold a, b, c, slice.
    rewrite <- (take_drop 8 plain) at 1. f_equal.
    rewrite <- (take_drop 8 (drop 8 plain)) at 1. by rewrite drop_drop. }
  pose proof (zlen_nonneg plain).
  assert (Hwf : reader_wf (tl_reader_init plain (zlen plain))) by (apply reader_init_wf; lia).
  assert (Hr : rest (tl_reader_init plain (zlen plain)) = enc64 (le_combine a) ++ enc64 (le_combine b) ++ c)
    by (rewrite rest_init; exact Hsplit).
  unfold parse_plain in H.
  rewrite (bind_Done _ _ _ _ _ (read_le64_at _ _ _ Hwf Hr)) in H.
  assert (Hwf1 := adv_wf _ _ _ Hwf Hr 8 (eq_sym (enc64_len _))).
  assert (Hr1 := rest_adv _ _ _ Hwf Hr 8 (eq_sym (enc64_len _))).
  rewrite (bind_Done _ _ _ _ _ (read_le64_at _ _ _ Hwf1 Hr1)) in H.
  destruct (Z.eqb_spec (u64 (le_combine b)) sid) as [<-|]; cbn [negb] in H; [|done].
  split; [by rewrite enc64_u64, enc64_combine|].
  unfold mbind, M_bind in H.
  repeat match type of H with
  | match ?m with Done _ _ => _ | Fail _ => _ | Fault => _ | NoFuel => _ end = _ =>
      destruct m; [|done..]
  end.
  by apply read_payload_len in H.
Qed.

(** What a receive hands out of a decrypted message of the session [sid]:
    the data of the message; and zeros when the message announces more data
    than it has. *)
Inductive opened (sid : Z) : list byte -> list byte -> Prop :=
| opened_whole salt mid seq data pad :
    is_u64 salt -> is_u64 mid -> is_u32 seq ->
    opened sid (message_bytes salt sid mid seq data ++ pad) data
| opened_short salt mid seq n pad :
    zlen pad < n < 2 ^ 32 ->
    opened sid (enc64 salt ++ enc64 sid ++ enc64 mid ++ enc32 seq ++ enc32 n ++ pad)
      (replicate (Z.to_nat n) Byte.x00).

Lemma parse_plain_opened sid max_len plain out r' :
  32 <= zlen plain -> zlen plain <= SIZE_LIM ->
  parse_plain sid max_len (tl_reader_init plain (zlen plain)) = Done out r' -> opened sid plain out.
Proof.
  intros Hl Hlim H. set (r0 := tl_reader_init plain (zlen plain)) in *.
  assert (Hwf : reader_wf r0) by (apply reader_init_wf; lia).
  assert (Hr : rest r0 = plain) by apply rest_init. clearbody r0.
  assert (L0 : zlen (rest r0) = zlen plain) by (by rewrite Hr). unfold parse_plain in H.
  apply run_inv in H as (salt & r1 & E & H). apply le64_took in E as (Hwf1 & Hsalt & E1 & L1); [|done|lia].
  apply run_inv in H as (sid' & r2 & E & H). apply le64_took in E as (Hwf2 & _ & E2 & L2); [|done|lia].
  destruct (Z.eqb_spec sid' sid) as [->|]; cbn [negb] in H; [|done].
  apply run_inv in H as (mid & r3 & E & H). apply le64_took in E as (Hwf3 & Hmid & E3 & L3); [|done|lia].
  apply run_inv in H as (seq & r4 & E & H). apply le32_took in E as (Hwf4 & Hseq & E4 & L4); [|done|lia].
  apply run_inv in H as (n & r5 & E & H). apply le32_took in E as (Hwf5 & Hn & E5 & L5); [|done|lia].
  rewrite <- Hr, E1, E2, E3, E4, E5. unfold is_u32 in Hn.
  unfold read_payload in H. destruct (max_len <? n); [done|]. destruct (Z.ltb_spec 0 n) as [Hpos|Hz].
  - apply raw_case in H as (Hwf6 & [[Hd ->]|(-> & _ & Hs)]); [|apply opened_short; lia|done|unfold SIZE_LIM; lia].
    rewrite <- Hd. pose proof (opened_whole sid salt mid seq out (rest r') Hsalt Hmid Hseq) as Ho.
    unfold message_bytes in Ho. by rewrite <- !app_assoc in Ho.
  - injection H as <- _. assert (n = 0) as -> by lia.
    pose proof (opened_whole sid salt mid seq [] (rest r5) Hsalt Hmid Hseq) as Ho.
    unfold message_bytes in Ho. by rewrite <- !app_assoc in Ho.
Qed.

(** The first 24 bytes of a packet. *)
Lemma reads_packet_header a mk :
  zlen a = 8 -> length mk = 16%nat ->
  reads (id ← tl_read_uint64; mk ← tl_read_raw 16; mret (id, mk)) (a ++ mk)
        (u64 (le_combine a), mk).
Proof.
  intros Ha Hm. rewrite <- (enc64_combine a Ha) at 1. eapply reads_bind; [apply reads_le64|].
  rewrite <- (app_nil_r mk) at 1. eapply reads_bind; [|apply reads_ret].
  replace 16 with (zlen mk) by (unfold zlen; lia). apply reads_raw. unfold zlen. lia.
Qed.

(** A buffer of at least 24 bytes is a key id, a message key and the rest. *)
Lemma packet_split buf :
  24 <= zlen buf ->
  exists a mk : list byte, buf = a ++ mk ++ drop 24 buf /\ zlen a = 8 /\ length mk = 16%nat.
Proof.
  unfold zlen. intros H. exists (take 8 buf), (slice 8 16 buf). split_and!.
  - rewrite <- (take_drop 8 buf) at 1. f_equal. unfold slice.
    rewrite <- (take_drop 16 (drop 8 buf)) at 1. by rewrite drop_drop.
  - rewrite length_take. lia.
  - rewrite slice_len; lia.
Qed.

(** What happens to a frame once it is read: every check of the function. *)
Definition accept (s : MtProtoSession) (max_len : Z) (buf : list byte) : option (list byte) :=
  if zlen buf <? 24 then None
  else if negb (u64 (le_combine (take 8 buf)) =? auth_key_id (auth_key s)) then None
  else
    match mtproto_decrypt (drop 24 buf) (auth_key s) (slice 8 16 buf) 8 with
    | None => None
    | Some plain =>
        if zlen plain <? 32 then None
        else match parse_plain (session_id s) max_len (tl_reader_init plain (zlen plain)) with
             | Done out _ => Some out
             | _ => None
             end
    end.

Lemma recv_encrypted_accept max_len s t w :
  has_auth_key s = true ->
  rpc_recv_encrypted max_len (s, t, w) =
  match transport_recv RPC_BUF_SIZE (t, w) with
  | Done buf (t', w') =>
      match accept s max_len buf with Some out => Done out (s, t', w') | None => Fail (s, t', w') end
  | Fail (t', w') => Fail (s, t', w')
  | Fault => Fault
  | NoFuel => NoFuel
  end.
Proof.
  intros Hk. unfold rpc_recv_encrypted. rewrite (bind_Done _ _ _ s (s, t, w)) by done.
  rewrite Hk. cbn [negb]. unfold mbind at 1, M_bind at 1. rewrite on_tr_cases.
  pose proof (transport_recv_at RPC_BUF_SIZE t w) as Ht.
  destruct (transport_recv RPC_BUF_SIZE (t, w)) as [buf [t' w']|[t' w']| |]; [|done..].
  destruct Ht as (_ & _ & Hz & _). unfold RPC_BUF_SIZE in Hz. rewrite Z.max_r in Hz by lia.
  unfold accept. destruct (Z.ltb_spec (zlen buf) 24) as [|H24]; [done|].
  destruct (packet_split buf H24) as (a & mk & Hb & Ha & Hm).
  set (cipher := drop 24 buf) in *.
  assert (Ht8 : take 8 buf = a) by (rewrite Hb; apply (take_app_exact a _ 8); lia).
  assert (Hs : slice 8 16 buf = mk).
  { unfold slice. rewrite Hb, (drop_app_exact a _ 8) by lia.
    apply (take_app_exact mk _ 16). unfold zlen. lia. }
  erewrite bind_Done;
    [|eapply with_reader_at; [by apply reads_packet_header|by rewrite <- app_assoc|unfold SIZE_LIM; lia]].
  cbn [fst snd]. rewrite Ht8, Hs. destruct (negb _); [done|].
  destruct (mtproto_decrypt cipher (auth_key s) mk 8) as [plain|] eqn:Ed; [|done].
  apply decrypt_sound in Ed as (Hpl & _). assert (Hc : zlen cipher = zlen buf - 24).
  { unfold cipher. apply (zlen_drop 24). lia. }
  rewrite (bind_Done _ _ _ tt (s, t', w'))
    by (unfold fits, RPC_BUF_SIZE; by rewrite (proj2 (Z.ltb_ge _ _)) by lia).
  destruct (zlen plain <? 32); [done|].
  assert (Hlim : zlen plain <= SIZE_LIM) by (unfold SIZE_LIM; lia).
  destruct (with_reader_safe (parse_plain (session_id s) max_len) plain (s, t', w')
              (fun b => safe_parse_plain b _ _) Hlim) as [[out E]|E];
    rewrite E; unfold with_reader in E; by destruct (parse_plain _ _ _); simplify_eq.
Qed.

Lemma accept_sound s max_len buf out :
  is_u64 (auth_key_id (auth_key s)) -> zlen buf <= SIZE_LIM -> accept s max_len buf = Some out ->
  zlen out <= Z.max 0 max_len /\
  exists mk cipher plain : list byte,
    buf = packet (auth_key s) mk cipher /\ length mk = 16%nat /\
    mtproto_decrypt cipher (auth_key s) mk 8 = Some plain /\
    slice 8 8 plain = enc64 (session_id s) /\ opened (session_id s) plain out.
Proof.
  intros Hid Hlim H. unfold accept in H. destruct (Z.ltb_spec (zlen buf) 24) as [|H24]; [done|].
  destruct (packet_split buf H24) as (a & mk & Hb & Ha & Hm).
  set (cipher := drop 24 buf) in *.
  assert (Ht8 : take 8 buf = a) by (rewrite Hb; apply (take_app_exact a _ 8); lia).
  assert (Hs : slice 8 16 buf = mk).
  { unfold slice. rewrite Hb, (drop_app_exact a _ 8) by lia.
    apply (take_app_exact mk _ 16). unfold zlen. lia. }
  rewrite Ht8, Hs in H. destruct (Z.eqb_spec (u64 (le_combine a)) (auth_key_id (auth_key s))) as [Hk|];
    cbn [negb] in H; [|done].
  destruct (mtproto_decrypt cipher (auth_key s) mk 8) as [plain|] eqn:Ed; [|done].
  assert (Hd := decrypt_sound _ _ _ _ _ Ed). destruct Hd as (Hpl & _).
  assert (Hc : zlen cipher = zlen buf - 24) by (unfold cipher; apply (zlen_drop 24); lia).
  destruct (Z.ltb_spec (zlen plain) 32); [done|].
  destruct (parse_plain _ _ _) as [out' r'| | |] eqn:Ep; [|done..]. injection H as <-.
  pose proof (parse_plain_opened _ _ _ _ _ ltac:(eassumption) ltac:(unfold SIZE_LIM in *; lia) Ep) as Ho.
  apply parse_plain_sound in Ep as [Hsid Hout]; [|lia|unfold SIZE_LIM in *; lia].
  split; [done|]. exists mk, cipher, plain. split_and!; try done.
  unfold packet. rewrite <- Hk, enc64_u64, enc64_combine by done. exact Hb.
Qed.

Lemma auth_key_id_range key : is_u64 (auth_key_id key).
Proof.
  unfold auth_key_id. apply le_combine8_range. apply slice_len. rewrite sha1_len. lia.
Qed.

(** Whatever arrives, a receive that returns a payload has taken one frame
    that carries the key id of the session, decrypts under the session key
    with a matching message key, and names the session. *)
Lemma recv_encrypted_at max_len s t w :
  match rpc_recv_encrypted max_len (s, t, w) with
  | Done out (s', t', w') =>
      s' = s /\ t' = t /\ zlen out <= Z.max 0 max_len /\ n_out (w_net w') = n_out (w_net w) /\
      exists mk cipher plain : list byte,
        unframe (n_in (w_net w)) = Some (packet (auth_key s) mk cipher, n_in (w_net w')) /\
        length mk = 16%nat /\ mtproto_decrypt cipher (auth_key s) mk 8 = Some plain /\
        slice 8 8 plain = enc64 (session_id s)
  | Fail (s', t', w') => s' = s /\ t' = t
  | Fault | NoFuel => False
  end.
Proof.
  destruct (has_auth_key s) eqn:Hk;
    [|unfold rpc_recv_encrypted; rewrite (bind_Done _ _ _ s (s, t, w)) by done; by rewrite Hk].
  rewrite recv_encrypted_accept by done. pose proof (transport_recv_at RPC_BUF_SIZE t w) as Ht.
  destruct (transport_recv RPC_BUF_SIZE (t, w)) as [buf [t' w']|[t' w']| |]; [| |done|done].
  - destruct Ht as (-> & _ & Hz & Ho & _ & Hu). unfold RPC_BUF_SIZE in Hz.
    destruct (accept s max_len buf) as [out|] eqn:Ea; [|done].
    apply accept_sound in Ea as (Hout & mk & cipher & plain & -> & Hm & Hd & Hs & _);
      [|apply auth_key_id_range|unfold SIZE_LIM; lia].
    split_and!; try done. by exists mk, cipher, plain.
  - by destruct Ht as (-> & _).
Qed.

(** One frame taken off the stream [input] is a message of the session that
    hands out [data]. *)
Definition received (s : MtProtoSession) (input data rest : list byte) : Prop :=
  exists mk cipher plain : list byte,
    unframe input = Some (packet (auth_key s) mk cipher, rest) /\ length mk = 16%nat /\
    mtproto_decrypt cipher (auth_key s) mk 8 = Some plain /\ opened (session_id s) plain data.

Lemma recv_encrypted_received max_len s t w out s' t' w' :
  rpc_recv_encrypted max_len (s, t, w) = Done out (s', t', w') ->
  received s (n_in (w_net w)) out (n_in (w_net w')).
Proof.
  destruct (has_auth_key s) eqn:Hk;
    [|unfold rpc_recv_encrypted; rewrite (bind_Done _ _ _ s (s, t, w)) by done; by rewrite Hk].
  rewrite recv_encrypted_accept by done. pose proof (transport_recv_at RPC_BUF_SIZE t w) as Ht.
  destruct (transport_recv RPC_BUF_SIZE (t, w)) as [buf [t1 w1]|[t1 w1]| |]; [|done..].
  destruct Ht as (-> & _ & Hz & _ & _ & Hu). unfold RPC_BUF_SIZE in Hz.
  destruct (accept s max_len buf) as [data|] eqn:Ea; [|done]. intros [= <- <- <- <-].
  apply accept_sound in Ea as (_ & mk & cipher & plain & -> & Hm & Hd & _ & Ho);
    [|apply auth_key_id_range|unfold SIZE_LIM; lia].
  by exists mk, cipher, plain.
Qed.

(** The plaintext of a message of this session is parsed to its payload. *)
Lemma parse_plain_message sid max_len salt mid seq data pad :
  is_u64 salt -> is_u64 sid -> is_u64 mid -> is_u32 seq -> zlen data < 2 ^ 32 ->
  zlen data <= max_len -> zlen pad <= 2 ^ 32 ->
  exists r', parse_plain sid max_len
    (tl_reader_init (message_bytes salt sid mid seq data ++ pad)
       (zlen (message_bytes salt sid mid seq data ++ pad))) = Done data r'.
Proof.
  intros Hsalt Hsid Hmid Hseq Hd Hmax Hpad. pose proof (zlen_nonneg data). pose proof (zlen_nonneg pad).
  assert (Hr : reads (parse_plain sid max_len) (message_bytes salt sid mid seq data) data).
  { unfold parse_plain, message_bytes.
    eapply reads_bind; [by apply reads_uint64|]. eapply reads_bind; [by apply reads_uint64|].
    cbn beta. rewrite Z.eqb_refl. cbn [negb].
    eapply reads_bind; [by apply reads_uint64|]. eapply reads_bind; [by apply reads_uint32|].
    eapply reads_bind; [apply reads_uint32; unfold is_u32; lia|]. cbn beta. unfold read_payload.
    rewrite (proj2 (Z.ltb_ge _ _)) by lia. destruct (Z.ltb_spec 0 (zlen data)); [by apply reads_raw|].
    destruct data; [apply reads_ret|]. rewrite zlen_cons in *. pose proof (zlen_nonneg data). lia. }
  eexists. apply (Hr _ pad); [|apply rest_init]. apply reader_init_wf; [|].
  - pose proof (zlen_nonneg (message_bytes salt sid mid seq data ++ pad)). lia.
  - rewrite zlen_app, message_len. unfold SIZE_LIM. lia.
Qed.

(** A message the peer encrypted for this session is received as its payload. *)
Lemma recv_from_peer max_len s t w salt mid seq data wp cipher mk wp' rest :
  session_wf s -> has_auth_key s = true -> is_u64 salt -> is_u64 mid -> is_u32 seq ->
  zlen data <= max_len -> zlen data + 83 <= RPC_BUF_SIZE ->
  mtproto_encrypt (message_bytes salt (session_id s) mid seq data) (auth_key s) 8 wp =
    Done (cipher, mk) wp' ->
  n_in (w_net w) = frame (packet (auth_key s) mk cipher) ++ rest ->
  0 <= fd t -> Forall patient (n_recv_evs (w_net w)) ->
  zlen data + 85 <= deliveries (n_recv_evs (w_net w)) ->
  exists w', rpc_recv_encrypted max_len (s, t, w) = Done data (s, t, w') /\ n_in (w_net w') = rest.
Proof.
  intros Hwf Hk Hsalt Hmid Hseq Hmax Hsz Henc Hin Hfd Hpat Hdel. unfold RPC_BUF_SIZE in *.
  pose proof (zlen_nonneg data).
  set (msg := message_bytes salt (session_id s) mid seq data) in *.
  assert (Hml : zlen msg = 32 + zlen data) by apply message_len.
  destruct (encrypt_at msg (auth_key s) 8 wp) as (pad & cipher' & wp'' & E & Hpad & Hcl & _ & Hdec); [lia|].
  rewrite Henc in E. injection E as <- -> ->.
  destruct (pad_len_spec (zlen msg)) as [Hpr Hpm]; [lia|].
  set (mk := mtproto_compute_msg_key (auth_key s) (msg ++ pad) 8) in *.
  assert (Hmk : length mk = 16%nat) by apply msg_key_len.
  assert (Hz : zlen (packet (auth_key s) mk cipher) = 24 + zlen cipher).
  { unfold packet. rewrite !zlen_app, enc64_len. unfold zlen. lia. }
  destruct (transport_recv_progress (1024 * 1024) t w (packet (auth_key s) mk cipher) rest)
    as (w' & E & Hr); try done; try lia.
  { split; rewrite Hz; Z.div_mod_to_equations; lia. }
  exists w'. rewrite recv_encrypted_accept by done. unfold RPC_BUF_SIZE. rewrite E. split; [|done].
  unfold accept. rewrite (proj2 (Z.ltb_ge _ _)) by lia. unfold packet.
  rewrite (take_app_exact (enc64 _) _ 8) by (by rewrite enc64_len).
  rewrite le_val_u64, (u64_id (u64 _)), (u64_id (auth_key_id _)) by (apply u64_range || apply auth_key_id_range).
  rewrite Z.eqb_refl. cbn [negb].
  replace (drop 24 _) with cipher.
  2: { rewrite app_assoc. symmetry. apply (drop_app_exact (_ ++ _) _ 24). rewrite zlen_app, enc64_len. unfold zlen. lia. }
  replace (slice 8 16 _) with mk.
  2: { unfold slice. rewrite (drop_app_exact (enc64 _) _ 8) by (by rewrite enc64_len).
       symmetry. apply (take_app_exact mk _ 16). unfold zlen. lia. }
  rewrite Hdec. rewrite (proj2 (Z.ltb_ge _ _)) by (rewrite zlen_app; lia).
  destruct (parse_plain_message (session_id s) max_len salt mid seq data pad) as [r' E'];
    try done; try lia; [apply Hwf|]. fold msg in E'. by rewrite E'.
Qed.

End Encrypted.

(** ** gzip_packed *)

Lemma first_word_enc32 v rest : is_u32 v -> first_word (enc32 v ++ rest) = v.
Proof.
  intros Hv. unfold first_word. change (take 4) with (take (A:=byte) (Z.to_nat 4)).
  rewrite (take_app_exact (enc32 v) rest 4) by (by rewrite enc32_len).
  unfold enc32. rewrite le_val_u32. by apply u32_id.
Qed.

Section Gzip.
Context (tinf : Z -> list byte -> option (list byte)).

Lemma unwrap_plain data max_len :
  first_word data <> CRC_gzip_packed -> zlen data <= max_len ->
  rpc_unwrap_gzip tinf data max_len = Some data.
Proof.
  intros Hw Hl. unfold rpc_unwrap_gzip. rewrite !(proj2 (Z.ltb_ge max_len _)) by lia.
  rewrite (proj2 (Z.eqb_neq _ _)) by done. by destruct (_ <? 4).
Qed.

Lemma unwrap_packed gz rest max_len :
  0 < zlen gz < 2 ^ 24 -> zlen rest <= 2 ^ 32 ->
  rpc_unwrap_gzip tinf (enc32 CRC_gzip_packed ++ enc_bytes gz ++ rest) max_len =
  tinf (u32 max_len) gz.
Proof.
  intros Hg Hrest. set (data := enc32 CRC_gzip_packed ++ enc_bytes gz ++ rest).
  pose proof (enc_bytes_len gz) as [_ Hel]. pose proof (zlen_nonneg rest).
  assert (Hz : zlen data = 4 + zlen (enc_bytes gz) + zlen rest)
    by (unfold data; rewrite !zlen_app, enc32_len; lia).
  unfold rpc_unwrap_gzip. rewrite (proj2 (Z.ltb_ge _ 4)) by lia.
  unfold data at 1. rewrite first_word_enc32, Z.eqb_refl by done. cbn [negb].
  assert (Hr : reads (tl_read_uint32 ;; tl_read_bytes) (enc32 CRC_gzip_packed ++ enc_bytes gz) (Some gz)).
  { eapply reads_bind; [by apply reads_uint32|apply reads_bytes; lia]. }
  erewrite (Hr _ rest); [|apply reader_init_wf; unfold SIZE_LIM; lia|].
  - destruct gz; [unfold zlen in Hg; cbn in Hg; lia|done].
  - change (rd ?r) with r. rewrite rest_init. unfold data. by rewrite app_assoc.
Qed.

End Gzip.

(** ** msg_container *)

(** A message inside a container. *)
Definition msg_bytes (m : RpcContainerMsg) : list byte :=
  enc64 (msg_id m) ++ enc32 (seqno m) ++ enc32 (body_len m) ++ body m.

Definition msg_ok (m : RpcContainerMsg) : Prop :=
  is_u64 (msg_id m) /\ is_u32 (seqno m) /\ body_len m = zlen (body m) /\
  body_len m mod 4 = 0 /\ body_len m < 2 ^ 32.

Definition container_bytes (ms : list RpcContainerMsg) : list byte :=
  enc32 CRC_msg_container ++ enc32 (zlen ms) ++ concat (map msg_bytes ms).

Lemma msg_bytes_len m : zlen (msg_bytes m) = 16 + zlen (body m).
Proof. unfold msg_bytes. rewrite !zlen_app, enc64_len, !enc32_len. lia. Qed.

(** The body check and the skip, behind a header. *)
Lemma container_msg_body r b tl mid sn :
  reader_wf r -> rest r = b ++ tl -> r_pos r + zlen b <= r_len r -> zlen b < 2 ^ 32 ->
  (fail_if (fun r => remaining r <? zlen b) ;;
   b' ← (fun r => Done (take (Z.to_nat (zlen b)) (drop (Z.to_nat (r_pos r)) (r_data r))) r);
   tl_read_skip (zlen b) ;;
   mret (mkMsg mid sn (zlen b) b')) r = Done (mkMsg mid sn (zlen b) b) (adv r (zlen b)).
Proof.
  intros Hwf Hr Hpos Hb. pose proof (zlen_nonneg b).
  assert (Hrem : remaining r = r_len r - r_pos r).
  { unfold remaining. apply u64_id. unfold reader_wf, SIZE_LIM, is_u64 in *. lia. }
  unfold mbind, M_bind, fail_if. rewrite Hrem, (proj2 (Z.ltb_ge _ _)) by lia.
  rewrite (drop_data r _ _ Hwf Hr), take_app_exact by done.
  unfold tl_read_skip. rewrite (u64_pos r _ _ Hwf Hr).
  by rewrite (proj2 (Z.ltb_ge _ _)) by lia.
Qed.

Lemma reads_container_msg m : msg_ok m -> reads container_msg (msg_bytes m) m.
Proof.
  intros (Hid & Hsn & Hbl & Hal & Hlt) r tl Hwf Hr. change (rd r) with r in *.
  pose proof (msg_bytes_len m) as Hlen. pose proof (zlen_nonneg (body m)).
  pose proof (rest_split_pos r _ _ Hwf Hr ltac:(lia)) as Hpos.
  destruct (remaining_at r _ _ Hwf Hr) as [Hok _]; [lia|].
  unfold container_msg. rewrite (bind_Done _ _ _ tt r) by (unfold fail_if; by rewrite Hok).
  unfold msg_bytes in Hr. rewrite <- !app_assoc in Hr.
  rewrite (bind_Done _ _ _ _ _ (read_le64_at _ _ _ Hwf Hr)), (u64_id (msg_id m)) by done.
  assert (Hwf1 := adv_wf _ _ _ Hwf Hr 8 (eq_sym (enc64_len _))).
  assert (Hr1 := rest_adv _ _ _ Hwf Hr 8 (eq_sym (enc64_len _))).
  rewrite (bind_Done _ _ _ _ _ (read_le32_at _ _ _ Hwf1 Hr1)), (u32_id (seqno m)) by done.
  assert (Hwf2 := adv_wf _ _ _ Hwf1 Hr1 4 (eq_sym (enc32_len _))).
  assert (Hr2 := rest_adv _ _ _ Hwf1 Hr1 4 (eq_sym (enc32_len _))).
  rewrite (bind_Done _ _ _ _ _ (read_le32_at _ _ _ Hwf2 Hr2)), (u32_id (body_len m))
    by (unfold is_u32; lia).
  assert (Hwf3 := adv_wf _ _ _ Hwf2 Hr2 4 (eq_sym (enc32_len _))).
  assert (Hr3 := rest_adv _ _ _ Hwf2 Hr2 4 (eq_sym (enc32_len _))).
  rewrite Hal. cbn [negb Z.eqb]. rewrite !adv_adv in *. rewrite Hbl.
  rewrite (container_msg_body _ (body m) tl _ _ Hwf3 Hr3); [|cbn; lia|lia].
  rewrite adv_adv, Hlen. rewrite <- Hbl at 1.
  replace (mkMsg (msg_id m) (seqno m) (body_len m) (body m)) with m by (by destruct m).
  unfold with_rd, HasReader_self. by replace (8 + 4 + 4) with 16 by lia.
Qed.

Lemma reads_container_msgs ms :
  Forall msg_ok ms -> reads (container_msgs (length ms)) (concat (map msg_bytes ms)) ms.
Proof.
  induction 1 as [|m ms Hm _ IH]; [apply reads_ret|]. cbn [length container_msgs map concat].
  eapply reads_bind; [by apply reads_container_msg|].
  rewrite <- (app_nil_r (concat _)). eapply reads_bind; [exact IH|apply reads_ret].
Qed.

(** Parsing gives back the messages of a container. *)
Lemma parse_container_at ms max_msgs :
  Forall msg_ok ms -> zlen ms <= max_msgs -> zlen ms < 2 ^ 32 ->
  zlen (container_bytes ms) <= SIZE_LIM ->
  rpc_parse_container (container_bytes ms) max_msgs = Some ms.
Proof.
  intros Hok Hmax Hn Hlim. pose proof (zlen_nonneg ms).
  assert (Hz : 8 <= zlen (container_bytes ms)).
  { unfold container_bytes. rewrite !zlen_app, !enc32_len.
    pose proof (zlen_nonneg (concat (map msg_bytes ms))). lia. }
  unfold rpc_parse_container. rewrite (proj2 (Z.ltb_ge _ 4)) by lia.
  replace (first_word (container_bytes ms)) with CRC_msg_container
    by (symmetry; by apply first_word_enc32).
  rewrite Z.eqb_refl. cbn [negb].
  assert (Hr : reads (container_body max_msgs) (container_bytes ms) ms).
  { unfold container_body, container_bytes. eapply reads_bind; [by apply reads_uint32|].
    eapply reads_bind; [apply reads_uint32; unfold is_u32; lia|]. cbn beta.
    rewrite (proj2 (Z.ltb_ge _ _)) by lia. unfold zlen at 1. rewrite Nat2Z.id.
    by apply reads_container_msgs. }
  erewrite (Hr _ []); [done|apply reader_init_wf; lia|].
  change (rd ?r) with r. by rewrite rest_init, app_nil_r.
Qed.

(** *** Every container the parser accepts *)

Lemma safe_container_msg b : safe_upto b container_msg.
Proof.
  unfold container_msg. apply safe_bind; [safe_tac|intros _].
  do 2 (apply safe_bind; [safe_tac|intros ?]). apply safe_read_u32_then. intros bl Hbl.
  apply safe_if; [safe_tac|]. apply safe_bind; [safe_tac|intros _].
  apply safe_bind; [intros r Hwf _; by apply later_refl|intros ?].
  apply safe_bind; [apply safe_read_skip; unfold SIZE_LIM; lia|intros _; safe_tac].
Qed.

Lemma safe_container_msgs b n : safe_upto b (container_msgs n).
Proof.
  induction n as [|n IH]; cbn [container_msgs]; [apply safe_ret|].
  apply safe_bind; [apply safe_container_msg|intros ?]. by apply safe_bind; [|intros; apply safe_ret].
Qed.

Lemma safe_container_body b max_msgs : safe_upto b (container_body max_msgs).
Proof.
  unfold container_body. do 2 (apply safe_bind; [safe_tac|intros ?]).
  apply safe_if; [safe_tac|apply safe_container_msgs].
Qed.

(** The cursor of the container parser stays inside the buffer. *)
Definition inb (r : TlReader) : Prop := reader_wf r /\ r_pos r <= r_len r.

(** [r'] is [r] moved forward inside the same buffer. *)
Definition fwd (r r' : TlReader) : Prop :=
  inb r' /\ r_data r' = r_data r /\ r_len r' = r_len r /\ r_pos r <= r_pos r'.

Lemma fwd_trans r1 r2 r3 : fwd r1 r2 -> fwd r2 r3 -> fwd r1 r3.
Proof. unfold fwd. intuition (congruence || lia). Qed.

Lemma read_fwd {A} n (f : list byte -> A) z r v r' :
  inb r -> 0 <= n <= SIZE_LIM ->
  (if negb (reader_has r n) then Done z (set_pos r (r_len r))
   else match mem_read (r_data r) (r_pos r) n with
        | Some bs => Done (f bs) (set_pos r (u64 (r_pos r + n)))
        | None => Fault
        end) = Done v r' -> fwd r r'.
Proof.
  intros [Hwf Hle] Hn. rewrite reader_has_le by done. unfold fwd, inb, reader_wf, SIZE_LIM in *.
  destruct (Z.leb_spec (r_pos r + n) (r_len r)); cbn [negb].
  - destruct (mem_read _ _ _); [|done]. intros [= _ <-]. cbn.
    rewrite u64_id by (unfold is_u64; lia). split_and!; try done; lia.
  - intros [= _ <-]. cbn. split_and!; try done; lia.
Qed.

Lemma read_le32_fwd r v r' : inb r -> read_le32 r = Done v r' -> fwd r r'.
Proof. intros Hi. apply read_fwd; [done|unfold SIZE_LIM; lia]. Qed.

Lemma read_le64_fwd r v r' : inb r -> read_le64 r = Done v r' -> fwd r r'.
Proof. intros Hi. apply read_fwd; [done|unfold SIZE_LIM; lia]. Qed.

(** [m] is a message whose body is a piece of [data] that ends by [hi] and
    starts at [lo] or later. *)
Definition msg_inside (data : list byte) (lo : Z) (m : RpcContainerMsg) : Prop :=
  exists pos, lo <= pos /\ pos + body_len m <= zlen data /\ 0 <= body_len m /\
    body_len m mod 4 = 0 /\ body m = take (Z.to_nat (body_len m)) (drop (Z.to_nat pos) data).

Lemma read_le32_val r v r' : inb r -> read_le32 r = Done v r' -> is_u32 v.
Proof.
  intros [Hwf _] H. unfold read_le32 in H. destruct (negb (reader_has r 4)); [by injection H as <- _|].
  unfold mem_read in H. destruct ((0 <=? r_pos r) && (0 <=? 4) && _) eqn:Eb; [|done].
  injection H as <- _. bool_prop.
  pose proof (le_combine_bound (take (Z.to_nat 4) (drop (Z.to_nat (r_pos r)) (r_data r)))) as Hb.
  rewrite length_take, length_drop in Hb. unfold zlen in *. rewrite Nat.min_l in Hb by lia. exact Hb.
Qed.

Lemma container_msg_inside r m r' :
  inb r -> container_msg r = Done m r' -> fwd r r' /\ msg_inside (r_data r) (r_pos r) m.
Proof.
  intros Hi H. unfold container_msg in H.
  unfold mbind at 1, M_bind at 1, fail_if at 1 in H. destruct (negb (tl_reader_ok r)); [done|].
  unfold mbind at 1, M_bind at 1 in H. unfold tl_read_uint64 in H.
  destruct (read_le64 r) as [mid r1|r1| |] eqn:E1; [|done..].
  pose proof (read_le64_fwd _ _ _ Hi E1) as F1. assert (I1 := proj1 F1).
  unfold mbind at 1, M_bind at 1 in H. unfold tl_read_uint32 in H.
  destruct (read_le32 r1) as [sn r2|r2| |] eqn:E2; [|done..].
  pose proof (read_le32_fwd _ _ _ I1 E2) as F2. assert (I2 := proj1 F2).
  unfold mbind at 1, M_bind at 1 in H.
  destruct (read_le32 r2) as [bl r3|r3| |] eqn:E3; [|done..].
  pose proof (read_le32_fwd _ _ _ I2 E3) as F3. pose proof (read_le32_val _ _ _ I2 E3) as Hbl.
  destruct (Z.eqb_spec (bl mod 4) 0) as [Hal|]; cbn [negb] in H; [|done].
  pose proof (fwd_trans _ _ _ (fwd_trans _ _ _ F1 F2) F3) as F.
  destruct F as ((Hwf3 & Hle3) & Hd3 & Hl3 & Hp3).
  unfold mbind, M_bind, fail_if in H. destruct (Z.ltb_spec (remaining r3) bl) as [|Hrem]; [done|].
  unfold remaining, reader_wf, SIZE_LIM, is_u32 in *.
  rewrite u64_id in Hrem by (unfold is_u64; lia).
  unfold tl_read_skip in H. rewrite u64_id in H by (unfold is_u64; lia).
  rewrite (proj2 (Z.ltb_ge _ _)) in H by lia. injection H as <- <-.
  unfold fwd, inb, reader_wf, SIZE_LIM. cbn. split.
  - destruct Hi. split_and!; try done; lia.
  - exists (r_pos r3). cbn. rewrite Hd3 in *. split_and!; try done; lia.
Qed.

Lemma msg_inside_weaken data lo lo' m : lo' <= lo -> msg_inside data lo m -> msg_inside data lo' m.
Proof. intros Hl (p & Hp). exists p. intuition lia. Qed.

Lemma container_msgs_inside n r ms r' :
  inb r -> container_msgs n r = Done ms r' ->
  length ms = n /\ Forall (msg_inside (r_data r) (r_pos r)) ms.
Proof.
  revert r ms r'. induction n as [|n IH]; intros r ms r' Hi H.
  - injection H as <- <-. done.
  - cbn [container_msgs] in H. unfold mbind at 1, M_bind at 1 in H.
    destruct (container_msg r) as [m r1|r1| |] eqn:E; [|done..].
    destruct (container_msg_inside _ _ _ Hi E) as [F Hm].
    unfold mbind, M_bind in H. destruct (container_msgs n r1) as [ms' r2|r2| |] eqn:E2; [|done..].
    injection H as <- <-. destruct F as (Hi1 & Hd & _ & Hp).
    destruct (IH _ _ _ Hi1 E2) as [Hl Hall]. rewrite Hd in Hall.
    split; [cbn; lia|]. constructor; [done|].
    eapply Forall_impl; [|exact Hall]. intros m'. by apply msg_inside_weaken.
Qed.

(** Whatever the bytes, an accepted container has at most [max_msgs]
    messages, and every body is an aligned piece of the input behind its
    constructor: no message reaches outside the buffer. *)
Lemma parse_container_sound data max_msgs ms :
  zlen data <= SIZE_LIM -> first_word data = CRC_msg_container ->
  rpc_parse_container data max_msgs = Some ms ->
  zlen ms <= max_msgs /\ Forall (msg_inside data 4) ms.
Proof.
  intros Hlim Hw H. unfold rpc_parse_container in H.
  destruct (Z.ltb_spec (zlen data) 4) as [|H4]; [done|].
  rewrite (proj2 (Z.eqb_eq _ _)) in H by done. cbn [negb] in H.
  destruct (container_body _ _) as [ms' r'| | |] eqn:E; [|done..]. injection H as <-.
  set (r := tl_reader_init data (zlen data)) in *.
  assert (Hi : inb r) by (split; [apply reader_init_wf; lia|cbn; lia]).
  assert (Hwf := proj1 Hi). unfold container_body in E. unfold mbind at 1, M_bind at 1 in E.
  destruct (tl_read_uint32 r) as [c r1|r1| |] eqn:E1; [|done..].
  pose proof (read_le32_fwd _ _ _ Hi E1) as (Hi1 & Hd1 & _ & _).
  assert (Hp1 : r_pos r1 = 4).
  { unfold tl_read_uint32, read_le32 in E1. rewrite reader_has_le in E1 by (done || (unfold SIZE_LIM; lia)).
    rewrite (proj2 (Z.leb_le _ _)) in E1 by (cbn; lia). cbn [negb] in E1.
    destruct (mem_read _ _ _); [|done]. injection E1 as _ <-. cbn. by rewrite u64_id. }
  unfold mbind at 1, M_bind at 1 in E.
  destruct (tl_read_uint32 r1) as [n r2|r2| |] eqn:E2; [|done..].
  pose proof (read_le32_fwd _ _ _ Hi1 E2) as (Hi2 & Hd2 & _ & Hp2).
  pose proof (read_le32_val _ _ _ Hi1 E2) as Hn. unfold is_u32 in Hn.
  destruct (Z.ltb_spec max_msgs n); [done|].
  destruct (container_msgs_inside _ _ _ _ Hi2 E) as [Hl Hall].
  split; [unfold zlen; lia|]. rewrite Hd2, Hd1 in Hall. change (r_data r) with data in Hall.
  eapply Forall_impl; [|exact Hall]. intros m. apply msg_inside_weaken. lia.
Qed.

Lemma msg_inside_len data lo m :
  0 <= lo -> msg_inside data lo m -> zlen (body m) = body_len m /\ zlen (body m) + lo <= zlen data.
Proof.
  intros Hlo (p & Hp & Hend & Hbl & _ & Hb).
  assert (Hl : zlen (body m) = body_len m).
  { rewrite Hb. unfold zlen in *. rewrite length_take, length_drop. lia. }
  lia.
Qed.

(** ** rpc_result *)

Lemma unwrap_result_at id inner :
  is_u64 id -> rpc_unwrap_result (enc32 CRC_rpc_result ++ enc64 id ++ inner) = Some (id, inner).
Proof.
  intros Hid. unfold rpc_unwrap_result. pose proof (zlen_nonneg inner).
  rewrite (proj2 (Z.ltb_ge _ 12)) by (rewrite !zlen_app, enc32_len, enc64_len; lia).
  rewrite first_word_enc32, Z.eqb_refl by done. cbn [negb].
  rewrite app_assoc, (drop_app_exact (_ ++ _) _ 12)
    by (by rewrite zlen_app, enc32_len, enc64_len).
  rewrite <- app_assoc. unfold slice.
  rewrite (drop_app_exact (enc32 _) _ 4), (take_app_exact (enc64 _) _ 8)
    by (by rewrite ?enc32_len, ?enc64_len).
  unfold enc64. rewrite le_val_u64. by rewrite u64_id.
Qed.

(** ** rpc_error *)

Lemma parse_error_at code msg rest :
  is_s32 code -> zlen msg < 2 ^ 24 -> zlen rest <= 2 ^ 32 ->
  rpc_parse_error (enc32 CRC_rpc_error ++ enc32 code ++ enc_bytes msg ++ rest) =
  Some (error_fields code (cstr msg)).
Proof.
  intros Hc Hm Hrest. set (data := enc32 CRC_rpc_error ++ enc32 code ++ enc_bytes msg ++ rest).
  pose proof (enc_bytes_len msg) as [_ Hel]. pose proof (zlen_nonneg rest). pose proof (zlen_nonneg msg).
  assert (Hz : zlen data = 8 + zlen (enc_bytes msg) + zlen rest)
    by (unfold data; rewrite !zlen_app, !enc32_len; lia).
  unfold rpc_parse_error. rewrite (proj2 (Z.ltb_ge _ 4)) by lia.
  unfold data at 1. rewrite first_word_enc32, Z.eqb_refl by done. cbn [negb].
  assert (Hr : reads (tl_read_uint32 ;; code ← tl_read_int32; s ← tl_read_string; mret (code, s))
                 (enc32 CRC_rpc_error ++ enc32 code ++ enc_bytes msg) (code, Some msg)).
  { eapply reads_bind; [by apply reads_uint32|]. eapply reads_bind; [by apply reads_int32|].
    rewrite <- (app_nil_r (enc_bytes msg)). eapply reads_bind; [by apply reads_bytes|apply reads_ret]. }
  erewrite (Hr _ rest); [done|apply reader_init_wf; unfold SIZE_LIM; lia|].
  change (rd ?r) with r. rewrite rest_init. unfold data. by rewrite <- !app_assoc.
Qed.

Lemma trailing_digits_app ds l acc :
  Forall (fun b => is_digit b = true) ds ->
  match l with b :: _ => is_digit b = false | [] => True end ->
  trailing_digits (rev ds ++ l) acc = ds ++ acc.
Proof.
  intros Hd Hl. revert acc. induction ds as [|d ds IH] using rev_ind; intros acc; cbn.
  - destruct l as [|b l]; [done|]. cbn. by rewrite Hl.
  - apply Forall_app in Hd as [Hds Hd]. inversion Hd as [|? ? Hd1 _]; subst.
    rewrite rev_app_distr. cbn. rewrite Hd1, IH by done. by rewrite <- app_assoc.
Qed.

Lemma extract_at p c ds :
  Forall (fun b => is_digit b = true) ds -> is_digit c = false -> 0 <= decimal ds < 2 ^ 31 ->
  extract_trailing_int ((p ++ [c]) ++ ds) = decimal ds.
Proof.
  intros Hd Hc Hv. unfold extract_trailing_int.
  rewrite rev_app_distr, (rev_app_distr p [c]), trailing_digits_app, app_nil_r by done.
  destruct ds as [|d ds]; [done|]. unfold atoi_digits. fold (decimal (d :: ds)).
  rewrite Z.min_r by lia. apply s32_u32. unfold is_s32. lia.
Qed.

Lemma starts_with_app p l : starts_with p (p ++ l) = true.
Proof. unfold starts_with. apply bool_decide_eq_true_2. by rewrite take_app_length. Qed.

(** FLOOD_WAIT_n asks for a wait of [n] seconds. *)
Lemma flood_wait_at code ds :
  Forall (fun b => is_digit b = true) ds -> 0 <= decimal ds < 2 ^ 31 ->
  error_fields code (cstr (FLOOD_WAIT ++ ds)) =
  mkError code (copy_trunc 128 (FLOOD_WAIT ++ ds)) (-1) (decimal ds).
Proof.
  intros Hd Hv. rewrite cstr_no_nul by (apply Forall_app; split;
    [unfold FLOOD_WAIT; repeat constructor; done|by apply digits_no_nul]).
  unfold error_fields. rewrite starts_with_app.
  change (starts_with PHONE_MIGRATE (FLOOD_WAIT ++ ds)) with false.
  change (starts_with FILE_MIGRATE (FLOOD_WAIT ++ ds)) with false.
  change (starts_with NETWORK_MIGRATE (FLOOD_WAIT ++ ds)) with false.
  change (starts_with USER_MIGRATE (FLOOD_WAIT ++ ds)) with false. cbn [orb].
  f_equal. change FLOOD_WAIT with (ascii "FLOOD_WAIT" ++ [Byte.x5f]). by apply extract_at.
Qed.

(** ..._MIGRATE_n names data centre [n]. *)
Lemma migrate_at code p ds :
  In p [PHONE_MIGRATE; FILE_MIGRATE; NETWORK_MIGRATE; USER_MIGRATE] ->
  Forall (fun b => is_digit b = true) ds -> 0 <= decimal ds < 2 ^ 31 ->
  error_fields code (cstr (p ++ ds)) =
  mkError code (copy_trunc 128 (p ++ ds)) (decimal ds) 0.
Proof.
  intros Hp Hd Hv.
  assert (exists q, p = q ++ [Byte.x5f] /\ Forall (fun b => b <> Byte.x00) p) as (q & Eq & Hn).
  { cbn [In] in Hp. intuition subst.
    - exists (ascii "PHONE_MIGRATE"). split; [done|]. unfold PHONE_MIGRATE; repeat constructor; done.
    - exists (ascii "FILE_MIGRATE"). split; [done|]. unfold FILE_MIGRATE; repeat constructor; done.
    - exists (ascii "NETWORK_MIGRATE"). split; [done|]. unfold NETWORK_MIGRATE; repeat constructor; done.
    - exists (ascii "USER_MIGRATE"). split; [done|]. unfold USER_MIGRATE; repeat constructor; done. }
  rewrite cstr_no_nul by (apply Forall_app; split; [done|by apply digits_no_nul]).
  unfold error_fields.
  replace (starts_with PHONE_MIGRATE (p ++ ds) || starts_with FILE_MIGRATE (p ++ ds) ||
           starts_with NETWORK_MIGRATE (p ++ ds) || starts_with USER_MIGRATE (p ++ ds)) with true.
  - f_equal. rewrite Eq. by apply extract_at.
  - clear Eq Hn. symmetry. cbn [In] in Hp. intuition subst; rewrite starts_with_app, ?orb_true_r; done.
Qed.
