(* ===== verification/ApiCall.v ===== *)
(** * API calls (src/infrastructure/api_call.c)

    Wrapping of a query in invokeWithLayer and initConnection, the
    classification of incoming frames, the loop that drains service frames,
    and the retry on a new server salt. *)

From Stdlib Require Import String.
From S2P Require Import Prelude TlSerial TlLogic TlCrc World MtprotoCrypto MtprotoSession.
From S2P Require Import Transport MtprotoRpc RpcCorrect.

(** ** Configuration *)

Definition TL_LAYER : Z := 185.
Definition CRC_invokeWithLayer : Z := 0xda9b0d0d.
Definition CRC_initConnection : Z := 0xc1cd5ea9.

(** A [const char *] is [None] for [NULL] or the bytes before the terminator. *)
Record ApiConfig := mkApiConfig {
  api_id : Z;
  api_hash : option (list byte);
  device_model : option (list byte);
  system_version : option (list byte);
  app_version : option (list byte);
  system_lang_code : option (list byte);
  lang_pack : option (list byte);
  lang_code : option (list byte);
  start_dc : Z;
  start_dc_set : Z;
}.

Definition api_config_init : ApiConfig :=
  mkApiConfig 0 None (Some (ascii "tg-cli")) (Some (ascii "Linux")) (Some (ascii "0.1.0"))
    (Some (ascii "en")) (Some []) (Some (ascii "en")) 0 0.

(** [None] is the return value [-1]. *)
Definition api_wrap_query (cfg : ApiConfig) (query : list byte) (max_len : Z)
    : option (list byte) :=
  let w := tl_writer_init in
  let w := tl_write_uint32 w CRC_invokeWithLayer in
  let w := tl_write_int32 w TL_LAYER in
  let w := tl_write_uint32 w CRC_initConnection in
  let w := tl_write_int32 w 0 in
  let w := tl_write_int32 w (api_id cfg) in
  let w := tl_write_string w (Some (default [] (device_model cfg))) in
  let w := tl_write_string w (Some (default [] (system_version cfg))) in
  let w := tl_write_string w (Some (default [] (app_version cfg))) in
  let w := tl_write_string w (Some (default [] (system_lang_code cfg))) in
  let w := tl_write_string w (Some (default [] (lang_pack cfg))) in
  let w := tl_write_string w (Some (default [] (lang_code cfg))) in
  let w := tl_write_raw w query in
  if max_len <? w_len w then None else Some (w_data w).

(** ** Classification of a frame *)

Inductive svc := SVC_RESULT | SVC_BAD_SALT | SVC_SKIP | SVC_ERROR.

#[global] Instance svc_eq_decision : EqDecision svc.
Proof. solve_decision. Defined.

(** The loop over the messages of a container; [sub] is the recursive call. *)
Fixpoint classify_msgs (sub : list byte -> M MtProtoSession svc) (msgs : list RpcContainerMsg)
    (has_result : bool) : M MtProtoSession svc :=
  match msgs with
  | [] => mret (if has_result then SVC_RESULT else SVC_SKIP)
  | m :: msgs =>
      sub (body m) ≫= fun k =>
      match k with
      | SVC_ERROR => mret SVC_ERROR
      | SVC_BAD_SALT => mret SVC_BAD_SALT
      | SVC_RESULT => classify_msgs sub msgs true
      | SVC_SKIP => classify_msgs sub msgs has_result
      end
  end.

Definition store_salt (resp : list byte) : M MtProtoSession unit := fun s =>
  Done tt (set_salt (le_combine (slice 20 8 resp)) s).

Fixpoint classify_rec (depth : nat) (resp : list byte) : M MtProtoSession svc :=
  match depth with
  | O => no_fuel
  | S depth =>
      if zlen resp <? 4 then mret SVC_ERROR
      else
        let crc := first_word resp in
        if crc =? TL_bad_server_salt then
          if zlen resp <? 28 then mret SVC_ERROR
          else store_salt resp ;; mret SVC_BAD_SALT
        else if crc =? TL_bad_msg_notification then mret SVC_ERROR
        else if crc =? TL_new_session_created then
          when (28 <=? zlen resp) (store_salt resp) ;; mret SVC_SKIP
        else if (crc =? TL_msgs_ack) || (crc =? TL_pong) then mret SVC_SKIP
        else if crc =? TL_msg_container then
          match rpc_parse_container resp 16 with
          | None => mret SVC_ERROR
          | Some msgs => classify_msgs (classify_rec depth) msgs false
          end
        else mret SVC_RESULT
  end.

(** Bodies are shorter than their container, so the frame length bounds the
    recursion. *)
Definition classify_service_frame (resp : list byte) : M MtProtoSession svc :=
  classify_rec (S (length resp)) resp.

(** ** One call *)

Definition SERVICE_FRAME_LIMIT : nat := 64.
Definition API_BUF_SIZE : Z := 1024 * 1024.

Section Call.
Context `{C : Crypto} (tinf : Z -> list byte -> option (list byte)).

Definition on_session {A} (m : M MtProtoSession A) : CM A := fun '(s, t, w) =>
  match m s with
  | Done a s' => Done a (s', t, w)
  | Fail s' => Fail (s', t, w)
  | Fault => Fault
  | NoFuel => NoFuel
  end.

(** Receive until a frame is not a pure service frame: the frame, or [None]
    when the server sent a new salt. *)
Fixpoint drain (attempts : nat) : CM (option (list byte)) :=
  match attempts with
  | O => fail
  | S attempts =>
      raw ← rpc_recv_encrypted API_BUF_SIZE;
      klass ← on_session (classify_service_frame raw);
      match klass with
      | SVC_ERROR => fail
      | SVC_BAD_SALT => mret None
      | SVC_SKIP => drain attempts
      | SVC_RESULT => mret (Some raw)
      end
  end.

(** The first rpc_result of a container, or the payload itself. *)
Definition is_result_msg (m : RpcContainerMsg) : bool :=
  (4 <=? body_len m) && (first_word (body m) =? TL_rpc_result).

Definition pick_payload (payload : list byte) : list byte :=
  if (4 <=? zlen payload) && (first_word payload =? TL_msg_container) then
    match rpc_parse_container payload 16 with
    | Some msgs =>
        match List.find is_result_msg msgs with Some m => body m | None => payload end
    | None => payload
    end
  else payload.

(** What is returned for the frame [raw]. *)
Definition unwrap_response (raw : list byte) (max_len : Z) : option (list byte) :=
  let payload := pick_payload raw in
  let payload := match rpc_unwrap_result payload with Some (_, inner) => inner | None => payload end in
  rpc_unwrap_gzip tinf payload max_len.

(** [None] when the server issued a new salt ([bad_salt = 1]). *)
Definition api_call_once (cfg : ApiConfig) (query : list byte) (max_len : Z)
    : CM (option (list byte)) :=
  match api_wrap_query cfg query API_BUF_SIZE with
  | None => fail
  | Some wrapped =>
      rpc_send_encrypted wrapped true ;;
      raw ← drain SERVICE_FRAME_LIMIT;
      match raw with
      | None => mret None
      | Some raw =>
          match unwrap_response raw max_len with
          | None => fail
          | Some resp => mret (Some resp)
          end
      end
  end.

Definition api_call (cfg : ApiConfig) (query : list byte) (max_len : Z) : CM (list byte) :=
  r ← api_call_once cfg query max_len;
  match r with
  | Some resp => mret resp
  | None =>
      r ← api_call_once cfg query max_len;
      match r with
      | Some resp => mret resp
      | None => fail
      end
  end.

End Call.
