(* ===== verification/ApiCorrect.v ===== *)
(** * Correctness of API calls (src/infrastructure/api_call.c)

    The layout of a wrapped query; classification is total and tells apart
    service frames and payloads; what a response is of the frame it comes in;
    a call sends one request, or two with the second one carrying the salt of
    a bad_server_salt that came in, and its result is the response of the
    frame that ended the wait. *)

From S2P Require Import Prelude TlSerial TlLogic TlCrc World MtprotoCrypto MtprotoSession.
From S2P Require Import Transport MtprotoRpc RpcCorrect ApiCall.

(** ** The wrapped query *)

Definition wrapped_bytes (cfg : ApiConfig) (query : list byte) : list byte :=
  enc32 CRC_invokeWithLayer ++ enc32 TL_LAYER ++ enc32 CRC_initConnection ++ enc32 0 ++
  enc32 (api_id cfg) ++ enc_bytes (default [] (device_model cfg)) ++
  enc_bytes (default [] (system_version cfg)) ++ enc_bytes (default [] (app_version cfg)) ++
  enc_bytes (default [] (system_lang_code cfg)) ++ enc_bytes (default [] (lang_pack cfg)) ++
  enc_bytes (default [] (lang_code cfg)) ++ query.

Lemma wrap_query_at cfg query max_len :
  zlen (wrapped_bytes cfg query) <= 2 ^ 63 ->
  api_wrap_query cfg query max_len =
  if max_len <? zlen (wrapped_bytes cfg query) then None else Some (wrapped_bytes cfg query).
Proof.
  intros Hz. pose proof (appends_uint32 CRC_invokeWithLayer) as H.
  apply (fun H => appends_comp _ _ _ _ H (appends_int32 TL_LAYER)) in H.
  apply (fun H => appends_comp _ _ _ _ H (appends_uint32 CRC_initConnection)) in H.
  apply (fun H => appends_comp _ _ _ _ H (appends_int32 0)) in H.
  apply (fun H => appends_comp _ _ _ _ H (appends_int32 (api_id cfg))) in H.
  apply (fun H => appends_comp _ _ _ _ H (appends_string (Some (default [] (device_model cfg))))) in H.
  apply (fun H => appends_comp _ _ _ _ H (appends_string (Some (default [] (system_version cfg))))) in H.
  apply (fun H => appends_comp _ _ _ _ H (appends_string (Some (default [] (app_version cfg))))) in H.
  apply (fun H => appends_comp _ _ _ _ H (appends_string (Some (default [] (system_lang_code cfg))))) in H.
  apply (fun H => appends_comp _ _ _ _ H (appends_string (Some (default [] (lang_pack cfg))))) in H.
  apply (fun H => appends_comp _ _ _ _ H (appends_string (Some (default [] (lang_code cfg))))) in H.
  apply (fun H => appends_comp _ _ _ _ H (appends_raw query)) in H.
  destruct (H tl_writer_init writer_init_inv) as [(Hlen & _) Hdata].
  { rewrite <- !app_assoc. exact Hz. }
  rewrite <- !app_assoc in Hdata. cbn [w_data tl_writer_init app] in Hdata.
  fold (wrapped_bytes cfg query) in Hdata. unfold api_wrap_query. cbn zeta.
  rewrite Hlen, Hdata. done.
Qed.

(** ** Classification *)

(** Frames that carry something for the caller: a message that is neither a
    container nor one of the service messages, or a container with one. *)
Definition service_crc (crc : Z) : bool :=
  (crc =? TL_bad_server_salt) || (crc =? TL_bad_msg_notification) ||
  (crc =? TL_new_session_created) || (crc =? TL_msgs_ack) || (crc =? TL_pong).

Inductive carries : list byte -> Prop :=
| carries_plain f :
    4 <= zlen f -> service_crc (first_word f) = false -> first_word f <> TL_msg_container ->
    carries f
| carries_inside f msgs m :
    first_word f = TL_msg_container -> rpc_parse_container f 16 = Some msgs -> In m msgs ->
    carries (body m) -> carries f.

(** The messages of a frame: the frame itself, and those of a container. *)
Inductive inside (m : list byte) : list byte -> Prop :=
| inside_self : inside m m
| inside_container f msgs c :
    first_word f = TL_msg_container -> rpc_parse_container f 16 = Some msgs -> In c msgs ->
    inside m (body c) -> inside m f.

(** bad_server_salt: bad_msg_id, bad_msg_seqno and error_code (16 bytes), and
    the new salt. *)
Definition bad_salt (salt : Z) (m : list byte) : Prop :=
  exists ids back, length ids = 16%nat /\ is_u64 salt /\
    m = enc32 TL_bad_server_salt ++ ids ++ enc64 salt ++ back.

(** A message of the frame gives the session the new salt. *)
Definition new_salt (f : list byte) (salt : Z) : Prop := exists m, inside m f /\ bad_salt salt m.

Definition no_new_salt (f : list byte) : Prop := forall salt, ~ new_salt f salt.

Lemma no_new_salt_plain f :
  first_word f <> TL_bad_server_salt -> first_word f <> TL_msg_container -> no_new_salt f.
Proof.
  intros Hb Hc salt (m & Hm & ids & back & _ & _ & ->).
  inversion Hm as [E|f' msgs c Hf Hp Hin Hi]; subst; [|done].
  rewrite first_word_enc32 in Hb by done. done.
Qed.

Lemma no_new_salt_container f msgs :
  first_word f = TL_msg_container -> rpc_parse_container f 16 = Some msgs ->
  (forall m, In m msgs -> no_new_salt (body m)) -> no_new_salt f.
Proof.
  intros Hc Hp Hall salt (m & Hm & Hb). inversion Hm as [E|f' msgs' c Hf Hp' Hin Hi]; subst.
  - destruct Hb as (ids & back & _ & _ & ->). rewrite first_word_enc32 in Hc by done. done.
  - rewrite Hp in Hp'. injection Hp' as <-. by apply (Hall c Hin salt); exists m.
Qed.

Lemma new_salt_container f msgs m salt :
  first_word f = TL_msg_container -> rpc_parse_container f 16 = Some msgs -> In m msgs ->
  new_salt (body m) salt -> new_salt f salt.
Proof. intros Hc Hp Hin (m' & Hm & Hb). exists m'. split; [by eapply inside_container|done]. Qed.

Lemma bad_salt_bytes f : first_word f = TL_bad_server_salt -> 28 <= zlen f ->
  bad_salt (le_combine (slice 20 8 f)) f.
Proof.
  intros Hw Hl. unfold zlen in Hl. exists (slice 4 16 f), (drop 28 f). split_and!.
  - apply slice_len. lia.
  - apply le_combine8_range, slice_len. lia.
  - rewrite enc64_combine by (unfold zlen; rewrite slice_len; lia).
    unfold slice. rewrite <- Hw. unfold first_word, enc32.
    replace (le_split 4 _) with (take 4 f).
    2: { rewrite <- (split_le_combine (take 4 f)) at 1. f_equal. rewrite length_take. lia. }
    change (drop 28 f) with (drop (20 + 8) f). rewrite <- drop_drop, take_drop.
    change (drop 20 f) with (drop (4 + 16) f). by rewrite <- drop_drop, !take_drop.
Qed.

(** Only the salt of the session changes. *)
Definition resalted (s s' : MtProtoSession) : Prop :=
  exists salt, s' = set_salt salt s /\ (is_u64 (server_salt s) -> is_u64 salt).

Lemma resalted_refl s : resalted s s.
Proof. exists (server_salt s). split; [by destruct s|done]. Qed.

Lemma resalted_trans s1 s2 s3 : resalted s1 s2 -> resalted s2 s3 -> resalted s1 s3.
Proof.
  intros (a & -> & Ha) (b & -> & Hb). exists b. split; [done|]. intros H. apply Hb. cbn. auto.
Qed.

Lemma resalted_wf s s' : resalted s s' -> session_wf s -> session_wf s'.
Proof.
  intros (a & -> & Ha) (H1 & H2 & H3 & H4 & H5 & H6). unfold session_wf. cbn. split_and!; auto.
Qed.

Lemma store_salt_at resp s :
  28 <= zlen resp -> exists s', store_salt resp s = Done tt s' /\ resalted s s' /\
    server_salt s' = le_combine (slice 20 8 resp).
Proof.
  intros Hl. eexists. split; [done|]. split; [|done]. eexists. split; [done|]. intros _.
  apply le_combine8_range. apply slice_len. unfold zlen in Hl. lia.
Qed.

(** What a classification that leaves the session [s] says about a frame. *)
Definition class_ok (f : list byte) (s : MtProtoSession) (k : svc) : Prop :=
  match k with
  | SVC_RESULT => carries f /\ no_new_salt f
  | SVC_SKIP => ~ carries f /\ no_new_salt f
  | SVC_BAD_SALT => new_salt f (server_salt s)
  | SVC_ERROR => True
  end.

(** The same for the loop over the messages of a container. *)
Definition class_msgs (msgs : list RpcContainerMsg) (has : bool) (s : MtProtoSession) (k : svc) : Prop :=
  match k with
  | SVC_RESULT => (has = true \/ exists m, In m msgs /\ carries (body m)) /\
                  forall m, In m msgs -> no_new_salt (body m)
  | SVC_SKIP => has = false /\ forall m, In m msgs -> ~ carries (body m) /\ no_new_salt (body m)
  | SVC_BAD_SALT => exists m, In m msgs /\ new_salt (body m) (server_salt s)
  | SVC_ERROR => True
  end.

Lemma class_msgs_result m msgs has s k :
  carries (body m) /\ no_new_salt (body m) -> class_msgs msgs true s k -> class_msgs (m :: msgs) has s k.
Proof.
  intros [Hc Hn]. destruct k; cbn; [|intros (m' & ? & ?); exists m'; auto|by intros [? _]|done].
  intros [_ Hall]. split; [right; exists m; auto|]. intros m' [<-|?]; auto.
Qed.

Lemma class_msgs_skip m msgs has s k :
  ~ carries (body m) /\ no_new_salt (body m) -> class_msgs msgs has s k -> class_msgs (m :: msgs) has s k.
Proof.
  intros [Hc Hn]. destruct k; cbn; [|intros (m' & ? & ?); exists m'; auto| |done].
  - intros [Hh Hall]. split; [destruct Hh as [|(m' & ? & ?)]; [by left|right; exists m'; auto]|].
    intros m' [<-|?]; auto.
  - intros [Hh Hall]. split; [done|]. intros m' [<-|?]; auto.
Qed.

Lemma classify_msgs_at sub msgs :
  (forall m s, In m msgs -> exists k s', sub (body m) s = Done k s' /\ resalted s s' /\
                                         class_ok (body m) s' k) ->
  forall has s, exists k s', classify_msgs sub msgs has s = Done k s' /\ resalted s s' /\
    class_msgs msgs has s' k.
Proof.
  induction msgs as [|m msgs IH]; intros Hsub has s; cbn [classify_msgs].
  - eexists _, s. split; [done|]. split; [apply resalted_refl|]. destruct has; cbn; [|done].
    split; [by left|done].
  - destruct (Hsub m s ltac:(by left)) as (k & s1 & E & Hr & Hk).
    rewrite (bind_Done _ _ _ _ _ E).
    specialize (IH (fun m s H => Hsub m s (or_intror H))).
    destruct k; cbn in Hk.
    + destruct (IH true s1) as (k' & s2 & E2 & Hr2 & Hk2). exists k', s2.
      split; [done|]. split; [by eapply resalted_trans|]. by apply class_msgs_result.
    + eexists _, s1. split; [done|]. split; [done|]. exists m. split; [by left|done].
    + destruct (IH has s1) as (k' & s2 & E2 & Hr2 & Hk2). exists k', s2.
      split; [done|]. split; [by eapply resalted_trans|]. by apply class_msgs_skip.
    + by eexists _, s1.
Qed.

Lemma carries_service f : service_crc (first_word f) = true -> ~ carries f.
Proof.
  intros Hs Hc. inversion Hc as [? ? Hn|? ? ? Hw]; subst; [congruence|].
  by rewrite Hw in Hs.
Qed.

Lemma classify_rec_at depth f s :
  (length f < depth)%nat -> zlen f <= SIZE_LIM ->
  exists k s', classify_rec depth f s = Done k s' /\ resalted s s' /\ class_ok f s' k.
Proof.
  revert f s. induction depth as [|depth IH]; intros f s Hd Hlim; [lia|]. cbn [classify_rec].
  assert (Hself : forall k, class_ok f s k ->
    exists k' s', (mret k : M MtProtoSession svc) s = Done k' s' /\ resalted s s' /\ class_ok f s' k').
  { intros k Hk. exists k, s. split; [done|]. split; [apply resalted_refl|done]. }
  destruct (Z.ltb_spec (zlen f) 4) as [|H4]; [by apply Hself|].
  destruct (Z.eqb_spec (first_word f) TL_bad_server_salt) as [E1|N1].
  { destruct (Z.ltb_spec (zlen f) 28) as [|H28]; [by apply Hself|].
    destruct (store_salt_at f s H28) as (s1 & E & Hr & Hsalt). rewrite (bind_Done _ _ _ _ _ E).
    exists SVC_BAD_SALT, s1. split; [done|]. split; [done|]. exists f. split; [constructor|].
    rewrite Hsalt. by apply bad_salt_bytes. }
  destruct (Z.eqb_spec (first_word f) TL_bad_msg_notification) as [|N2]; [by apply Hself|].
  destruct (Z.eqb_spec (first_word f) TL_new_session_created) as [E3|N3].
  { assert (Hn : ~ carries f /\ no_new_salt f)
      by (split; [apply carries_service|apply no_new_salt_plain]; by rewrite E3).
    unfold when. destruct (Z.leb_spec 28 (zlen f)) as [H28|].
    - destruct (store_salt_at f s H28) as (s1 & E & Hr & _). rewrite (bind_Done _ _ _ _ _ E).
      by exists SVC_SKIP, s1.
    - by apply (Hself SVC_SKIP). }
  destruct ((first_word f =? TL_msgs_ack) || (first_word f =? TL_pong)) eqn:E4.
  { apply (Hself SVC_SKIP). apply orb_true_iff in E4.
    split; [apply carries_service|apply no_new_salt_plain]; destruct E4 as [E4|E4];
      apply Z.eqb_eq in E4; by rewrite E4. }
  apply orb_false_iff in E4 as [N4 N5].
  destruct (Z.eqb_spec (first_word f) TL_msg_container) as [E6|N6].
  - destruct (rpc_parse_container f 16) as [msgs|] eqn:Ep; [|by apply Hself].
    destruct (parse_container_sound f 16 msgs Hlim E6 Ep) as [_ Hin].
    rewrite Forall_forall in Hin.
    destruct (classify_msgs_at (classify_rec depth) msgs) with (has := false) (s := s)
      as (k & s' & E & Hr & Hk).
    { intros m s0 Hm. destruct (msg_inside_len f 4 m) as [_ Hl]; [lia|by apply Hin|].
      apply IH; unfold zlen in *; lia. }
    exists k, s'. split; [done|]. split; [done|]. destruct k; cbn in *; try done.
    + destruct Hk as [[|(m & Hm & Hc)] Hn]; [done|].
      split; [by eapply carries_inside|by eapply no_new_salt_container].
    + destruct Hk as (m & Hm & Hs). by eapply new_salt_container.
    + destruct Hk as [_ Hn]. split; [|eapply no_new_salt_container; [done..|]; intros m Hm; by apply Hn].
      intros Hc. inversion Hc as [? ? ? Hw|? ms m Hw Hp Hm Hc']; subst; [done|].
      rewrite Ep in Hp. injection Hp as <-. by apply (Hn m).
  - apply (Hself SVC_RESULT). split; [|by apply no_new_salt_plain].
    apply carries_plain; [done| |done]. unfold service_crc.
    rewrite N4, N5, !(proj2 (Z.eqb_neq _ _)) by done. done.
Qed.

Lemma classify_at f s :
  zlen f <= SIZE_LIM ->
  exists k s', classify_service_frame f s = Done k s' /\ resalted s s' /\ class_ok f s' k.
Proof. intros H. apply classify_rec_at; [lia|done]. Qed.

(** ** What is handed out of a frame *)

Lemma first_word_starts v m : is_u32 v ->
  (4 <=? zlen m) && (first_word m =? v) = true <-> exists tail, m = enc32 v ++ tail.
Proof.
  intros Hv. split.
  - intros H. bool_prop. exists (drop 4 m). rewrite <- (take_drop 4 m) at 1. f_equal.
    assert (Hw : first_word m = v) by lia. rewrite <- Hw. unfold enc32, first_word.
    rewrite <- (split_le_combine (take 4 m)) at 1. f_equal. unfold zlen in *. rewrite length_take. lia.
  - intros (tail & ->). rewrite first_word_enc32, Z.eqb_refl, zlen_app, enc32_len by done.
    pose proof (zlen_nonneg tail). rewrite (proj2 (Z.leb_le _ _)) by lia. done.
Qed.

Definition is_answer (m : list byte) : Prop := exists tail, m = enc32 CRC_rpc_result ++ tail.

(** The part of a frame that answers: the first rpc_result of a container,
    or the frame itself when it has none. *)
Inductive answer_of (f : list byte) : list byte -> Prop :=
| answer_inside front m back :
    first_word f = TL_msg_container -> rpc_parse_container f 16 = Some (front ++ m :: back) ->
    Forall (fun c => ~ is_answer (body c)) front -> is_answer (body m) ->
    answer_of f (body m)
| answer_itself :
    (forall msgs, first_word f = TL_msg_container -> rpc_parse_container f 16 = Some msgs ->
       Forall (fun c => ~ is_answer (body c)) msgs) ->
    answer_of f f.

(** The object behind the constructor and the request id of an rpc_result. *)
Inductive object_of (m : list byte) : list byte -> Prop :=
| object_result id inner :
    is_u64 id -> m = enc32 CRC_rpc_result ++ enc64 id ++ inner -> object_of m inner
| object_itself :
    (forall id inner, m <> enc32 CRC_rpc_result ++ enc64 id ++ inner) -> object_of m m.

(** The bytes of a gzip_packed, uncompressed; any other object as it is. *)
Inductive unpacked (tinf : Z -> list byte -> option (list byte)) (max_len : Z) (d : list byte)
    : list byte -> Prop :=
| unpacked_gzip gz e tail resp :
    d = enc32 CRC_gzip_packed ++ e ++ tail -> tl_bytes gz e -> gz <> [] ->
    tinf (u32 max_len) gz = Some resp -> unpacked tinf max_len d resp
| unpacked_itself :
    (forall tail, d <> enc32 CRC_gzip_packed ++ tail) -> zlen d <= max_len ->
    unpacked tinf max_len d d.

(** The response to a call whose answer came in the frame [f]. *)
Definition response (tinf : Z -> list byte -> option (list byte)) (max_len : Z) (f resp : list byte) : Prop :=
  exists m d, answer_of f m /\ object_of m d /\ unpacked tinf max_len d resp.

Lemma is_result_spec data m :
  msg_inside data 4 m -> is_result_msg m = true <-> is_answer (body m).
Proof.
  intros Hm. apply msg_inside_len in Hm as [Hl _]; [|lia]. unfold is_result_msg, is_answer. rewrite <- Hl.
  by apply (first_word_starts CRC_rpc_result).
Qed.

Lemma find_result data msgs : Forall (msg_inside data 4) msgs ->
  match List.find is_result_msg msgs with
  | Some m => exists front back, msgs = front ++ m :: back /\ is_answer (body m) /\
                Forall (fun c => ~ is_answer (body c)) front
  | None => Forall (fun c => ~ is_answer (body c)) msgs
  end.
Proof.
  induction 1 as [|m msgs Hm _ IH]; cbn; [constructor|].
  pose proof (is_result_spec data m Hm) as Hs. destruct (is_result_msg m).
  - exists [], msgs. split_and!; [done|by apply Hs|constructor].
  - assert (Hn : ~ is_answer (body m)) by (intros Ha; by apply Hs in Ha).
    destruct (List.find _ msgs) as [c|]; [|by constructor].
    destruct IH as (front & back & -> & Hc & Hf). exists (m :: front), back. split_and!; [done..|by constructor].
Qed.

Lemma pick_payload_answer f : zlen f <= SIZE_LIM -> answer_of f (pick_payload f).
Proof.
  intros Hlim. unfold pick_payload. destruct ((4 <=? zlen f) && _) eqn:Ew.
  - bool_prop. assert (Hw : first_word f = TL_msg_container) by lia.
    destruct (rpc_parse_container f 16) as [msgs|] eqn:Ep; [|apply answer_itself; congruence].
    destruct (parse_container_sound f 16 msgs Hlim Hw Ep) as [_ Hin].
    pose proof (find_result f msgs Hin) as Hf. destruct (List.find _ msgs) as [m|].
    + destruct Hf as (front & back & -> & Hm & Hf). by eapply answer_inside.
    + apply answer_itself. intros msgs' _ E. rewrite Ep in E. by injection E as <-.
  - apply answer_itself. intros msgs Hw Hp. exfalso. unfold rpc_parse_container in Hp.
    rewrite (proj2 (Z.eqb_eq _ _) Hw), andb_true_r in Ew. apply Z.leb_gt in Ew.
    by rewrite (proj2 (Z.ltb_lt _ _)) in Hp.
Qed.

Lemma unwrap_result_object m :
  object_of m (match rpc_unwrap_result m with Some (_, inner) => inner | None => m end).
Proof.
  unfold rpc_unwrap_result. destruct (Z.ltb_spec (zlen m) 12) as [Hs|Hl].
  { apply object_itself. intros id inner ->. rewrite !zlen_app, enc32_len, enc64_len in Hs.
    pose proof (zlen_nonneg inner). lia. }
  destruct (Z.eqb_spec (first_word m) CRC_rpc_result) as [Hw|Hn]; cbn [negb].
  - apply (object_result _ (le_combine (slice 4 8 m))).
    + apply le_combine8_range, slice_len. unfold zlen in Hl. lia.
    + destruct (proj1 (first_word_starts CRC_rpc_result m ltac:(done))) as [tail ->].
      { rewrite (proj2 (Z.leb_le _ _)), Hw by lia. done. }
      rewrite zlen_app, enc32_len in Hl. f_equal. unfold slice.
      change 12%nat with (4 + 8)%nat. rewrite <- drop_drop.
      rewrite !(drop_app_exact (enc32 CRC_rpc_result) _ 4) by exact (enc32_len CRC_rpc_result).
      rewrite enc64_combine by (unfold zlen in *; rewrite length_take; lia). by rewrite take_drop.
  - apply object_itself. intros id inner ->. by rewrite first_word_enc32 in Hn.
Qed.

Lemma unwrap_gzip_unpacked tinf d max_len resp : zlen d <= SIZE_LIM ->
  rpc_unwrap_gzip tinf d max_len = Some resp -> unpacked tinf max_len d resp.
Proof.
  intros Hlim. unfold rpc_unwrap_gzip. pose proof (first_word_starts CRC_gzip_packed d ltac:(done)) as Hs.
  assert (Hplain : (4 <=? zlen d) && (first_word d =? CRC_gzip_packed) = false ->
    (if max_len <? zlen d then None else Some d) = Some resp -> unpacked tinf max_len d resp).
  { intros E. destruct (Z.ltb_spec max_len (zlen d)); [done|]. intros [= <-]. apply unpacked_itself; [|done].
    intros tail Hd. rewrite (proj2 Hs) in E; [done|by exists tail]. }
  destruct (Z.ltb_spec (zlen d) 4) as [H4|H4]; [apply Hplain; by rewrite (proj2 (Z.leb_gt _ _))|].
  destruct (Z.eqb_spec (first_word d) CRC_gzip_packed) as [Hw|Hw]; cbn [negb].
  2: { apply Hplain, andb_false_r. }
  destruct (_ ;; _) as [[gz|] r| | |] eqn:E; try done. destruct gz as [|b gz]; [done|]. intros Ht.
  apply run_inv in E as (v & r1 & E1 & E2).
  set (r0 := tl_reader_init d (zlen d)) in *.
  pose proof (zlen_nonneg d). assert (Hwf : reader_wf r0) by (apply reader_init_wf; lia).
  assert (Hr0 : rest r0 = d) by apply rest_init.
  apply le32_took in E1 as (Hwf1 & Hv & Hr1 & _); [|done|rewrite Hr0; lia].
  apply bytes_case in E2 as (_ & e & Hr2 & He); [|done].
  apply (unpacked_gzip _ _ _ (b :: gz) e (rest r)); try done.
  rewrite <- Hr0, Hr1, Hr2. f_equal. rewrite <- Hw, <- Hr0, Hr1. by rewrite first_word_enc32.
Qed.

Lemma answer_len f m : zlen f <= SIZE_LIM -> answer_of f m -> zlen m <= zlen f.
Proof.
  intros Hlim [front m' back Hw Hp _ _|_]; [|lia].
  destruct (parse_container_sound f 16 _ Hlim Hw Hp) as [_ Hin].
  apply Forall_app in Hin as [_ Hin]. inversion Hin as [|? ? Hm]; subst.
  apply msg_inside_len in Hm; lia.
Qed.

Lemma unwrap_response_sound tinf f max_len resp : zlen f <= SIZE_LIM ->
  unwrap_response tinf f max_len = Some resp -> response tinf max_len f resp.
Proof.
  intros Hlim H. unfold unwrap_response in H. eexists _, _. split; [by apply pick_payload_answer|].
  split; [apply unwrap_result_object|]. apply unwrap_gzip_unpacked; [|exact H].
  pose proof (answer_len f _ Hlim (pick_payload_answer f Hlim)) as Hp.
  destruct (rpc_unwrap_result (pick_payload f)) as [[id inner]|] eqn:Eu; [|lia].
  unfold rpc_unwrap_result in Eu. destruct (_ <? 12); [done|]. destruct (negb _); [done|].
  injection Eu as <- <-. unfold zlen in *. rewrite length_drop. lia.
Qed.

(** ** Draining *)

Section Call.
Context `{C : Crypto} {HC : CryptoLaws C} (tinf : Z -> list byte -> option (list byte)).

Lemma packet_limit max_len s t w out s' t' w' :
  rpc_recv_encrypted max_len (s, t, w) = Done out (s', t', w') ->
  s' = s /\ t' = t /\ zlen out <= Z.max 0 max_len /\ n_out (w_net w') = n_out (w_net w).
Proof. intros E. pose proof (recv_encrypted_at max_len s t w) as H. rewrite E in H. tauto. Qed.

(** Draining sends nothing, changes only the salt, and stops at a frame that
    carries a payload. *)
Lemma drain_at n s t w :
  match drain n (s, t, w) with
  | Done r (s', t', w') =>
      resalted s s' /\ t' = t /\ n_out (w_net w') = n_out (w_net w) /\
      match r with
      | Some raw => carries raw /\ zlen raw <= API_BUF_SIZE
      | None => True
      end
  | Fail (s', t', w') => resalted s s' /\ t' = t
  | Fault | NoFuel => False
  end.
Proof.
  revert s w. induction n as [|n IH]; intros s w; cbn [drain].
  - cbn. split; [apply resalted_refl|done].
  - unfold mbind at 1, M_bind at 1.
    pose proof (recv_encrypted_at API_BUF_SIZE s t w) as Hr.
    destruct (rpc_recv_encrypted API_BUF_SIZE (s, t, w)) as [raw [[s1 t1] w1]|[[s1 t1] w1]| |];
      [| |done|done].
    2: { destruct Hr as [-> ->]. split; [apply resalted_refl|done]. }
    destruct Hr as (-> & -> & Hz & Ho & _). unfold API_BUF_SIZE in Hz. rewrite Z.max_r in Hz by lia.
    destruct (classify_at raw s) as (k & s2 & E & Hs2 & Hk); [unfold SIZE_LIM; lia|].
    unfold mbind, M_bind, on_session. rewrite E. destruct k; cbn in Hk.
    + cbn. unfold API_BUF_SIZE. by destruct Hk.
    + done.
    + specialize (IH s2 w1). destruct (drain n (s2, t, w1)) as [r [[s3 t3] w3]|[[s3 t3] w3]| |];
        [| |done|done].
      * destruct IH as (Hs3 & -> & Ho3 & Hr). split; [by eapply resalted_trans|].
        split; [done|]. split; [congruence|done].
      * destruct IH as (Hs3 & ->). split; [by eapply resalted_trans|done].
    + done.
Qed.

(** What came in until the call could go on. *)
Inductive verdict := Payload (raw : list byte) | NewSalt (salt : Z).

(** The stream from [input] to [rest] is a run of frames for the session: some
    with service messages only, then one that carries something or one with a
    new salt. *)
Inductive drained (s : MtProtoSession) : list byte -> verdict -> list byte -> Prop :=
| drained_skip input f mid v rest :
    received s input f mid -> ~ carries f -> no_new_salt f -> drained s mid v rest ->
    drained s input v rest
| drained_payload input raw rest :
    received s input raw rest -> carries raw -> no_new_salt raw -> drained s input (Payload raw) rest
| drained_salt input f salt rest :
    received s input f rest -> new_salt f salt -> drained s input (NewSalt salt) rest.

(** The salt is no part of what is received. *)
Lemma drained_resalted s s' input v rest : resalted s s' -> drained s' input v rest -> drained s input v rest.
Proof.
  intros (salt & -> & _). induction 1; [eapply drained_skip|eapply drained_payload|eapply drained_salt]; eauto.
Qed.

Lemma drain_drained n s t w r s' t' w' :
  drain n (s, t, w) = Done r (s', t', w') ->
  drained s (n_in (w_net w)) (match r with Some raw => Payload raw | None => NewSalt (server_salt s') end)
    (n_in (w_net w')).
Proof.
  revert s w. induction n as [|n IH]; intros s w H; [done|]. cbn [drain] in H.
  apply run_inv in H as (raw & [[s1 t1] w1] & Er & H).
  pose proof (packet_limit API_BUF_SIZE s t w raw s1 t1 w1 Er) as (-> & -> & Hz & _).
  apply recv_encrypted_received in Er. unfold API_BUF_SIZE in Hz. rewrite Z.max_r in Hz by lia.
  destruct (classify_at raw s) as (k & s2 & E & Hs2 & Hk); [unfold SIZE_LIM; lia|].
  unfold mbind, M_bind, on_session in H. rewrite E in H. destruct k; cbn in Hk, H.
  - injection H as <- <- <- <-. destruct Hk. by apply drained_payload.
  - injection H as <- <- <- <-. by eapply drained_salt.
  - destruct Hk as [Hc Hn]. apply (drained_skip s _ raw (n_in (w_net w1))); [done..|].
    eapply drained_resalted; [exact Hs2|]. by apply IH.
  - done.
Qed.

(** ** One attempt *)

(** Sending changes nothing of what is received either. *)
Lemma drained_after s id c input v rest : drained (session_after s id c) input v rest -> drained s input v rest.
Proof.
  assert (E : received (session_after s id c) = received s) by (by destruct c).
  induction 1 as [i f m v r Hf Hc Hn _ IH|i raw r Hf Hc Hn|i f salt r Hf Hn]; rewrite E in Hf.
  - exact (drained_skip s i f m v r Hf Hc Hn IH).
  - exact (drained_payload s i raw r Hf Hc Hn).
  - exact (drained_salt s i f salt r Hf Hn).
Qed.

(** A request for [wrapped] by session [s]: the packet decrypts to a message
    with the salt of the session and a fresh id. *)
Definition request (s : MtProtoSession) (wrapped : list byte) (id : Z) (pkt : list byte) : Prop :=
  exists pad cipher mk,
    pkt = packet (auth_key s) mk cipher /\ last_msg_id s < id /\ id mod 4 = 0 /\
    mtproto_decrypt cipher (auth_key s) mk 0 =
      Some (message_bytes (server_salt s) (session_id s) id (2 * seq_no s + 1) wrapped ++ pad).

Definition sendable (s : MtProtoSession) : Prop :=
  session_wf s /\ has_auth_key s = true /\ last_msg_id s < 2 ^ 64 - 4 /\ seq_no s < 2 ^ 31.

(** The ids are not about to run out: 2106 has not come, and the last id
    leaves room for two more. *)
Definition early (s : MtProtoSession) (w : World) : Prop :=
  last_msg_id s < 2 ^ 64 - 8 /\ u64 (w_clock w (w_ticks w)) mod 2 ^ 32 < 2 ^ 32 - 1.

Lemma session_after_wf s id :
  session_wf s -> is_u64 id -> id mod 4 = 0 -> seq_no s < 2 ^ 31 ->
  session_wf (session_after s id true).
Proof.
  intros (H1 & H2 & H3 & H4 & H5 & H6) Hu Hm Hq. unfold session_wf, session_after, is_u32 in *. cbn.
  split_and!; try done; lia.
Qed.

Lemma call_once_at cfg query max_len s t w :
  sendable s -> zlen (wrapped_bytes cfg query) + 59 <= RPC_BUF_SIZE ->
  match api_call_once tinf cfg query max_len (s, t, w) with
  | Done r (s', t', w') =>
      exists id pkt, request s (wrapped_bytes cfg query) id pkt /\ (early s w -> id < 2 ^ 64 - 4) /\
        session_wf s' /\ resalted (session_after s id true) s' /\ t' = t /\
        n_out (w_net w') = n_out (w_net w) ++ frame pkt /\
        match r with
        | Some resp => exists raw, drained s (n_in (w_net w)) (Payload raw) (n_in (w_net w')) /\
                                   response tinf max_len raw resp
        | None => drained s (n_in (w_net w)) (NewSalt (server_salt s')) (n_in (w_net w'))
        end
  | Fail (s', t', w') => t' = t
  | Fault | NoFuel => False
  end.
Proof.
  intros (Hwf & Hk & Hlast & Hseq) Hlen. unfold RPC_BUF_SIZE in Hlen.
  unfold api_call_once. rewrite wrap_query_at by lia. unfold API_BUF_SIZE.
  rewrite (proj2 (Z.ltb_ge _ _)) by lia.
  destruct (send_prepares (wrapped_bytes cfg query) true s t w Hwf Hk Hlast Hseq ltac:(lia))
    as (id & pad & cipher & mk & w1 & Hlt & H4 & Hu & Hb & Hn & Hpad & _ & _ & Hz & Hdec & E).
  rewrite (proj2 (Z.ltb_ge _ _)) in E by (unfold RPC_BUF_SIZE; lia).
  assert (Hreq : request s (wrapped_bytes cfg query) id (packet (auth_key s) mk cipher))
    by (exists pad, cipher, mk; done).
  pose proof (session_after_wf s id Hwf Hu H4 Hseq) as Hwf1.
  assert (Hid : early s w -> id < 2 ^ 64 - 4) by (intros [? ?]; lia).
  unfold mbind at 1, M_bind at 1. rewrite E, on_tr_cases.
  pose proof (transport_send_at (packet (auth_key s) mk cipher) t w1) as Ht.
  destruct (transport_send _ (t, w1)) as [[] [t2 w2]|[t2 w2]| |]; [|by destruct Ht|done|done].
  destruct Ht as (-> & _ & _ & Ho & Hi & _). rewrite Hn in Ho, Hi.
  pose proof (drain_at SERVICE_FRAME_LIMIT (session_after s id true) t w2) as Hd.
  unfold mbind, M_bind.
  destruct (drain SERVICE_FRAME_LIMIT (session_after s id true, t, w2))
    as [r [[s3 t3] w3]|[[s3 t3] w3]| |] eqn:Ed; [|by destruct Hd|done|done].
  apply drain_drained, drained_after in Ed. rewrite Hi in Ed.
  destruct Hd as (Hs3 & -> & Ho3 & Hr).
  assert (Hwf3 := resalted_wf _ _ Hs3 Hwf1). rewrite Ho in Ho3.
  destruct r as [raw|]; [|by exists id, (packet (auth_key s) mk cipher)].
  destruct (unwrap_response tinf raw max_len) as [resp|] eqn:Eu; [|done].
  destruct Hr as [_ Hz3]. unfold API_BUF_SIZE in Hz3.
  apply unwrap_response_sound in Eu; [|unfold SIZE_LIM; lia].
  exists id, (packet (auth_key s) mk cipher). split_and!; try done. by exists raw.
Qed.

(** ** The whole call *)

(** An exchange of the query [wrapped] for the response [resp], from the
    session and the streams before to those behind: the bytes written, and
    the stream read.  Either one request went out and the answer came in
    behind service messages; or a message with a new salt came in, the
    request went out again under that salt, and then the answer came in. *)
Inductive exchange (wrapped : list byte) (max_len : Z) (s : MtProtoSession) (sent input : list byte)
    (s' : MtProtoSession) (rest resp : list byte) : Prop :=
| exchange_once id pkt raw :
    request s wrapped id pkt -> sent = frame pkt ->
    drained s input (Payload raw) rest -> response tinf max_len raw resp ->
    resalted (session_after s id true) s' ->
    exchange wrapped max_len s sent input s' rest resp
| exchange_again id1 pkt1 salt mid id2 pkt2 raw :
    request s wrapped id1 pkt1 -> drained s input (NewSalt salt) mid ->
    let s1 := set_salt salt (session_after s id1 true) in
    request s1 wrapped id2 pkt2 -> sent = frame pkt1 ++ frame pkt2 ->
    drained s mid (Payload raw) rest -> response tinf max_len raw resp ->
    resalted (session_after s1 id2 true) s' ->
    exchange wrapped max_len s sent input s' rest resp.

(** The second attempt needs no room beyond its own id. *)
Lemma retry_sendable s id salt :
  sendable s -> session_wf (set_salt salt (session_after s id true)) -> id < 2 ^ 64 - 4 ->
  seq_no s < 2 ^ 31 - 1 -> sendable (set_salt salt (session_after s id true)).
Proof.
  intros (_ & Hk & _ & _) Hwf Hid Hq. unfold sendable. split; [done|]. cbn. split; [done|]. lia.
Qed.

(** A call that succeeds was such an exchange. *)
Lemma api_call_at cfg query max_len s t w :
  sendable s -> early s w -> seq_no s < 2 ^ 31 - 1 ->
  zlen (wrapped_bytes cfg query) + 59 <= RPC_BUF_SIZE ->
  match api_call tinf cfg query max_len (s, t, w) with
  | Done resp (s', t', w') =>
      t' = t /\ exists sent, n_out (w_net w') = n_out (w_net w) ++ sent /\
        exchange (wrapped_bytes cfg query) max_len s sent (n_in (w_net w)) s' (n_in (w_net w')) resp
  | Fail (s', t', w') => t' = t
  | Fault | NoFuel => False
  end.
Proof.
  intros Hs Hearly Hq Hlen. unfold api_call, mbind, M_bind.
  pose proof (call_once_at cfg query max_len s t w Hs Hlen) as H1.
  destruct (api_call_once tinf cfg query max_len (s, t, w)) as [r [[s1 t1] w1]|[[s1 t1] w1]| |];
    [|done..].
  destruct H1 as (id1 & pkt1 & Hr1 & Hb & Hwf1 & Hs1 & -> & Ho1 & Hres1).
  destruct r as [resp|].
  - split; [done|]. exists (frame pkt1). split; [done|]. destruct Hres1 as (raw & Hd & Hres).
    by apply (exchange_once _ _ _ _ _ _ _ _ id1 pkt1 raw).
  - destruct Hs1 as (salt & -> & _). pose proof (retry_sendable s id1 salt Hs Hwf1 (Hb Hearly) Hq) as Hs2.
    pose proof (call_once_at cfg query max_len _ t w1 Hs2 Hlen) as H2.
    destruct (api_call_once tinf cfg query max_len _) as [r [[s2 t2] w2]|[[s2 t2] w2]| |]; [|done..].
    destruct H2 as (id2 & pkt2 & Hr2 & _ & _ & Hs2' & -> & Ho2 & Hres2).
    destruct r as [resp|]; [|done]. destruct Hres2 as (raw & Hd & Hres).
    split; [done|]. exists (frame pkt1 ++ frame pkt2). split; [by rewrite Ho2, Ho1, app_assoc|].
    apply (exchange_again _ _ _ _ _ _ _ _ id1 pkt1 salt (n_in (w_net w1)) id2 pkt2 raw); try done.
    eapply drained_after, drained_resalted; [|exact Hd]. exists salt. split; [done|].
    intros _. apply Hwf1.
Qed.

(** A query whose packet does not fit the encryption buffer is written past
    its end: the size check of the wrapper leaves no room for the header and
    the padding. *)
Lemma call_once_overflow cfg query max_len s t w :
  sendable s -> RPC_BUF_SIZE - 44 < zlen (wrapped_bytes cfg query) <= API_BUF_SIZE ->
  api_call_once tinf cfg query max_len (s, t, w) = Fault.
Proof.
  intros (Hwf & Hk & Hlast & Hseq) Hlen. unfold RPC_BUF_SIZE, API_BUF_SIZE in Hlen.
  unfold api_call_once. rewrite wrap_query_at by lia. unfold API_BUF_SIZE.
  rewrite (proj2 (Z.ltb_ge _ _)) by lia.
  destruct (send_prepares (wrapped_bytes cfg query) true s t w Hwf Hk Hlast Hseq ltac:(lia))
    as (id & pad & cipher & mk & w1 & _ & _ & _ & _ & _ & Hpad & _ & _ & Hz & _ & E).
  unfold mbind at 1, M_bind at 1. rewrite E.
  by rewrite (proj2 (Z.ltb_lt _ _)) by (unfold RPC_BUF_SIZE; lia).
Qed.

End Call.

(** ** Frames that are not an answer *)

(** The answer is picked by position, not by request id: a frame that is
    neither a service message nor a container is returned as the response,
    whatever it is. *)
Lemma unsolicited_returned tinf raw max_len :
  carries raw -> first_word raw <> TL_msg_container -> first_word raw <> CRC_rpc_result ->
  first_word raw <> CRC_gzip_packed -> zlen raw <= max_len ->
  unwrap_response tinf raw max_len = Some raw.
Proof.
  intros _ Hc Hr Hg Hz. unfold unwrap_response, pick_payload.
  rewrite (proj2 (Z.eqb_neq _ _)), andb_false_r by done.
  unfold rpc_unwrap_result. rewrite (proj2 (Z.eqb_neq _ _) Hr). cbn [negb].
  destruct (zlen raw <? 12); by apply unwrap_plain.
Qed.

(** An rpc_result is unwrapped to the same object whatever id it names. *)
Lemma unwrap_response_result tinf id inner max_len :
  unwrap_response tinf (enc32 CRC_rpc_result ++ enc64 id ++ inner) max_len =
  rpc_unwrap_gzip tinf inner max_len.
Proof.
  assert (Hw : first_word (enc32 CRC_rpc_result ++ enc64 id ++ inner) = CRC_rpc_result)
    by (apply first_word_enc32; done).
  unfold unwrap_response, pick_payload. rewrite Hw, andb_false_r.
  unfold rpc_unwrap_result. rewrite Hw, Z.eqb_refl. cbn [negb].
  rewrite !zlen_app, enc32_len, enc64_len. pose proof (zlen_nonneg inner).
  rewrite (proj2 (Z.ltb_ge _ _)) by lia.
  change 12%nat with (4 + 8)%nat. rewrite <- drop_drop.
  rewrite (drop_app_exact (enc32 CRC_rpc_result) _ 4) by exact (enc32_len CRC_rpc_result).
  by rewrite (drop_app_exact (enc64 id) _ 8) by exact (enc64_len id).
Qed.

Lemma result_id_ignored tinf id1 id2 inner max_len :
  unwrap_response tinf (enc32 CRC_rpc_result ++ enc64 id1 ++ inner) max_len =
  unwrap_response tinf (enc32 CRC_rpc_result ++ enc64 id2 ++ inner) max_len.
Proof. by rewrite !unwrap_response_result. Qed.
