(* ===== verification/RpcTheorems.v ===== *)
(** * RPC and API calls: the theorems

    What src/infrastructure/mtproto_rpc.c and api_call.c guarantee to the
    domain layer, and where they fall short. *)

From Stdlib Require Import String.
From S2P Require Import Prelude TlSerial TlLogic TlCrc World MtprotoCrypto MtprotoSession.
From S2P Require Import Transport WireTheorems MtprotoRpc RpcCorrect ApiCall ApiCorrect.

Definition sample_transport : Transport := mkTransport 3 2 true.

(** A decompressor that stores. *)
Definition store_tinf (cap : Z) (gz : list byte) : option (list byte) :=
  if cap <? zlen gz then None else Some gz.

(** ** Encrypted messages *)

(** An encrypted send takes a fresh message id and sequence number and
    sends one frame, or part of it on a socket error: key id, message key and
    a ciphertext the server decrypts to salt, session id, message id,
    sequence number, length, payload and 12 to 27 bytes of padding. *)
Theorem rpc_send_encrypted_frame `{C : Crypto} {HC : CryptoLaws C} data (c : bool) s t w :
  session_wf s -> has_auth_key s = true -> last_msg_id s < 2 ^ 64 - 4 -> seq_no s < 2 ^ 31 ->
  zlen data + 59 <= RPC_BUF_SIZE ->
  exists (id : Z) (pad cipher mk : list byte),
    last_msg_id s < id /\ id mod 4 = 0 /\ 12 <= zlen pad <= 27 /\
    mtproto_decrypt cipher (auth_key s) mk 0 =
      Some (message_bytes (server_salt s) (session_id s) id
              (2 * seq_no s + (if c then 1 else 0)) data ++ pad) /\
    match rpc_send_encrypted data c (s, t, w) with
    | Done _ (s', t', w') =>
        s' = session_after s id c /\ t' = t /\
        n_out (w_net w') = n_out (w_net w) ++ frame (packet (auth_key s) mk cipher) /\
        n_in (w_net w') = n_in (w_net w)
    | Fail (s', t', w') =>
        s' = session_after s id c /\ t' = t /\
        exists p, p `prefix_of` frame (packet (auth_key s) mk cipher) /\
                  n_out (w_net w') = n_out (w_net w) ++ p
    | Fault | NoFuel => False
    end.
Proof. apply send_encrypted_at. Qed.

Lemma rpc_send_encrypted_frame_witness :
  exists (id : Z) (pad cipher mk : list byte),
    0 < id /\ id mod 4 = 0 /\ 12 <= zlen pad <= 27 /\
    mtproto_decrypt (C := toy_crypto) cipher sample_key mk 0 =
      Some (message_bytes 11 7 id (2 * 0 + 1) [Byte.x41] ++ pad) /\
    match rpc_send_encrypted (C := toy_crypto) [Byte.x41] true
            (sample_session, sample_transport, sample_world [SockN 9; SockN 200] []) with
    | Done _ (s', t', w') =>
        s' = session_after sample_session id true /\ t' = sample_transport /\
        n_out (w_net w') = [] ++ frame (packet (H := toy_crypto) sample_key mk cipher) /\
        n_in (w_net w') = []
    | Fail (s', t', w') =>
        s' = session_after sample_session id true /\ t' = sample_transport /\
        exists p, p `prefix_of` frame (packet (H := toy_crypto) sample_key mk cipher) /\
                  n_out (w_net w') = [] ++ p
    | Fault | NoFuel => False
    end.
Proof.
  apply (rpc_send_encrypted_frame (HC := toy_crypto_laws) [Byte.x41] true sample_session
           sample_transport (sample_world [SockN 9; SockN 200] [])).
  - exact sample_session_wf.
  - reflexivity.
  - reflexivity.
  - reflexivity.
  - vm_compute. discriminate.
Defined.

(** (C6) Authenticity: whatever bytes arrive, an encrypted receive that
    returns a payload has taken one frame that carries the key id of the
    session, decrypts under the session key with a matching message key, and
    names the session; the payload fits the caller's buffer, the session is
    unchanged, and nothing was sent.  Every other frame is an error. *)
Theorem rpc_recv_authentic `{C : Crypto} {HC : CryptoLaws C} max_len s t w :
  match rpc_recv_encrypted max_len (s, t, w) with
  | Done out (s', t', w') =>
      s' = s /\ t' = t /\ zlen out <= Z.max 0 max_len /\ n_out (w_net w') = n_out (w_net w) /\
      exists mk cipher plain : list byte,
        unframe (n_in (w_net w)) = Some (packet (auth_key s) mk cipher, n_in (w_net w')) /\
        length mk = 16%nat /\ mtproto_decrypt cipher (auth_key s) mk 8 = Some plain /\
        slice 8 8 plain = enc64 (session_id s)
  | Fail (s', t', w') => s' = s /\ t' = t
  | Fault | NoFuel => False
  end.
Proof. apply recv_encrypted_at. Qed.

Lemma rpc_recv_authentic_witness :
  match rpc_recv_encrypted (C := toy_crypto) 64
          (sample_session, sample_transport, sample_world [SockN 4; SockN 4] [Byte.x00]) with
  | Done out (s', t', w') =>
      s' = sample_session /\ t' = sample_transport /\ zlen out <= Z.max 0 64 /\
      n_out (w_net w') = [] /\
      exists mk cipher plain : list byte,
        unframe [Byte.x00] =
          Some (packet (H := toy_crypto) sample_key mk cipher, n_in (w_net w')) /\
        length mk = 16%nat /\ mtproto_decrypt (C := toy_crypto) cipher sample_key mk 8 = Some plain /\
        slice 8 8 plain = enc64 7
  | Fail (s', t', w') => s' = sample_session /\ t' = sample_transport
  | Fault | NoFuel => False
  end.
Proof.
  exact (rpc_recv_authentic (HC := toy_crypto_laws) 64 sample_session sample_transport
           (sample_world [SockN 4; SockN 4] [Byte.x00])).
Defined.

(** (C21) Delivery: a message the server encrypts for this session, framed on
    the stream before anything else, is received as exactly its payload, and
    the rest of the stream is left.  Assumed of the socket ([patient]): a call
    of [recv] is either interrupted or delivers at least three bytes (or all
    that was asked for, if that is less), and there are enough calls.  The
    assumption is needed: a connection that splits the three bytes of a long
    length prefix makes the receive fail
    ([WireTheorems.split_length_prefix_fails]). *)
Theorem rpc_recv_delivers `{C : Crypto} {HC : CryptoLaws C}
    max_len s t w salt mid seq data wp cipher mk wp' rest :
  session_wf s -> has_auth_key s = true -> is_u64 salt -> is_u64 mid -> is_u32 seq ->
  zlen data <= max_len -> zlen data + 83 <= RPC_BUF_SIZE ->
  mtproto_encrypt (message_bytes salt (session_id s) mid seq data) (auth_key s) 8 wp =
    Done (cipher, mk) wp' ->
  n_in (w_net w) = frame (packet (auth_key s) mk cipher) ++ rest ->
  0 <= fd t -> Forall patient (n_recv_evs (w_net w)) ->
  zlen data + 85 <= deliveries (n_recv_evs (w_net w)) ->
  exists w', rpc_recv_encrypted max_len (s, t, w) = Done data (s, t, w') /\ n_in (w_net w') = rest.
Proof. apply recv_from_peer. Qed.

(** What the peer makes of four bytes, and the world after it. *)
Definition sample_reply : (list byte * list byte) * World :=
  match mtproto_encrypt (C := toy_crypto)
          (message_bytes 11 7 5 1 (take 4 sample_key)) sample_key 8 (sample_world [] []) with
  | Done r w => (r, w)
  | _ => ([], [], sample_world [] [])
  end.

Definition sample_packet : list byte :=
  packet (H := toy_crypto) sample_key (snd (fst sample_reply)) (fst (fst sample_reply)).

Definition sample_arrival : World :=
  sample_world (replicate 90 (SockN 3)) (frame sample_packet ++ [Byte.x09]).

Lemma rpc_recv_delivers_witness :
  exists w', rpc_recv_encrypted (C := toy_crypto) 64 (sample_session, sample_transport, sample_arrival) =
    Done (take 4 sample_key) (sample_session, sample_transport, w') /\ n_in (w_net w') = [Byte.x09].
Proof.
  apply (rpc_recv_delivers (HC := toy_crypto_laws) 64 sample_session sample_transport sample_arrival
    11 5 1 (take 4 sample_key) (sample_world [] []) (fst (fst sample_reply)) (snd (fst sample_reply))
    (snd sample_reply) [Byte.x09]).
  - exact sample_session_wf.
  - reflexivity.
  - split; [apply Z.leb_le|apply Z.ltb_lt]; reflexivity.
  - split; [apply Z.leb_le|apply Z.ltb_lt]; reflexivity.
  - split; [apply Z.leb_le|apply Z.ltb_lt]; reflexivity.
  - vm_compute. discriminate.
  - vm_compute. discriminate.
  - vm_compute. reflexivity.
  - vm_compute. reflexivity.
  - vm_compute. discriminate.
  - change (Forall patient (replicate 90 (SockN 3))). apply Forall_replicate. right. reflexivity.
  - vm_compute. discriminate.
Defined.

(** ** Parsing what the server sends *)

(** Parsing a msg_container gives back its messages: ids, sequence
    numbers and bodies, in order. *)
Theorem container_round_trip ms max_msgs :
  Forall msg_ok ms -> zlen ms <= max_msgs -> zlen ms < 2 ^ 32 ->
  zlen (container_bytes ms) <= SIZE_LIM ->
  rpc_parse_container (container_bytes ms) max_msgs = Some ms.
Proof. apply parse_container_at. Qed.

Definition sample_ack : RpcContainerMsg := mkMsg 12 2 4 (enc32 TL_msgs_ack).
Definition sample_pong : RpcContainerMsg := mkMsg 16 3 4 (enc32 TL_pong).

Lemma container_round_trip_witness :
  rpc_parse_container (container_bytes [sample_ack; sample_pong]) 16 = Some [sample_ack; sample_pong].
Proof.
  apply (container_round_trip [sample_ack; sample_pong] 16).
  - repeat constructor; (discriminate || reflexivity).
  - vm_compute. discriminate.
  - reflexivity.
  - vm_compute. discriminate.
Defined.

(** Whatever the bytes, a container the parser accepts has at most
    [max_msgs] messages, and every body is a word-aligned piece of the input
    behind the constructor: no message reaches outside the buffer. *)
Theorem container_bodies_inside data max_msgs ms :
  zlen data <= SIZE_LIM -> first_word data = CRC_msg_container ->
  rpc_parse_container data max_msgs = Some ms ->
  zlen ms <= max_msgs /\ Forall (msg_inside data 4) ms.
Proof. apply parse_container_sound. Qed.

Lemma container_bodies_inside_witness :
  zlen [sample_ack] <= 16 /\ Forall (msg_inside (container_bytes [sample_ack]) 4) [sample_ack].
Proof.
  apply (container_bodies_inside (container_bytes [sample_ack]) 16 [sample_ack]).
  - vm_compute. discriminate.
  - reflexivity.
  - vm_compute. reflexivity.
Defined.

(** rpc_error: the code, the message cut to 127 bytes, and the number at
    its end, as the wait of FLOOD_WAIT_n or the data centre of the four
    ..._MIGRATE_n messages. *)
Theorem rpc_error_fields code ds rest p :
  is_s32 code -> Forall (fun b => is_digit b = true) ds -> 0 <= decimal ds < 2 ^ 31 ->
  zlen ds < 2 ^ 16 -> zlen rest <= 2 ^ 32 ->
  In p [PHONE_MIGRATE; FILE_MIGRATE; NETWORK_MIGRATE; USER_MIGRATE] ->
  rpc_parse_error (enc32 CRC_rpc_error ++ enc32 code ++ enc_bytes (FLOOD_WAIT ++ ds) ++ rest) =
    Some (mkError code (copy_trunc 128 (FLOOD_WAIT ++ ds)) (-1) (decimal ds)) /\
  rpc_parse_error (enc32 CRC_rpc_error ++ enc32 code ++ enc_bytes (p ++ ds) ++ rest) =
    Some (mkError code (copy_trunc 128 (p ++ ds)) (decimal ds) 0).
Proof.
  intros Hc Hd Hv Hl Hr Hp. split.
  - rewrite parse_error_at, flood_wait_at; try done. rewrite zlen_app.
    change (zlen FLOOD_WAIT) with 11. lia.
  - rewrite parse_error_at, (migrate_at code p); try done. rewrite zlen_app.
    assert (zlen p <= 16) by (cbn [In] in Hp; intuition subst; vm_compute; discriminate). lia.
Qed.

Lemma rpc_error_fields_witness :
  rpc_parse_error (enc32 CRC_rpc_error ++ enc32 420 ++
                   enc_bytes (FLOOD_WAIT ++ ascii "30"%string) ++ []) =
    Some (mkError 420 (copy_trunc 128 (FLOOD_WAIT ++ ascii "30"%string)) (-1) 30) /\
  rpc_parse_error (enc32 CRC_rpc_error ++ enc32 420 ++
                   enc_bytes (FILE_MIGRATE ++ ascii "30"%string) ++ []) =
    Some (mkError 420 (copy_trunc 128 (FILE_MIGRATE ++ ascii "30"%string)) 30 0).
Proof.
  apply (rpc_error_fields 420 (ascii "30"%string) [] FILE_MIGRATE).
  - split; [apply Z.leb_le|apply Z.ltb_lt]; reflexivity.
  - repeat constructor.
  - split; [vm_compute; discriminate|reflexivity].
  - reflexivity.
  - vm_compute. discriminate.
  - right. left. reflexivity.
Defined.

(** A gzip_packed object is handed to the decompressor with exactly its
    packed bytes and the caller's capacity; any other object that fits is
    returned unchanged. *)
Theorem unwrap_gzip_cases tinf data gz rest max_len :
  first_word data <> CRC_gzip_packed -> zlen data <= max_len ->
  0 < zlen gz < 2 ^ 24 -> zlen rest <= 2 ^ 32 ->
  rpc_unwrap_gzip tinf data max_len = Some data /\
  rpc_unwrap_gzip tinf (enc32 CRC_gzip_packed ++ enc_bytes gz ++ rest) max_len =
    tinf (u32 max_len) gz.
Proof. intros. split; [by apply unwrap_plain|by apply unwrap_packed]. Qed.

Lemma unwrap_gzip_cases_witness :
  rpc_unwrap_gzip store_tinf (enc32 TL_pong) 10 = Some (enc32 TL_pong) /\
  rpc_unwrap_gzip store_tinf (enc32 CRC_gzip_packed ++ enc_bytes [Byte.x1f] ++ []) 10 = Some [Byte.x1f].
Proof.
  apply (unwrap_gzip_cases store_tinf (enc32 TL_pong) [Byte.x1f] [] 10); vm_compute; repeat split;
    discriminate.
Defined.

(** ** API calls *)

(** (C3) A call that succeeds is an [exchange] between the bytes it wrote and
    the bytes it took off the stream.  It wrote one request, which decrypts on
    the server's side to the wrapped query under the salt of the session and a
    fresh id; then it took frames off the stream that belong to the session:
    some with nothing but service messages, then one that carries more and
    gives no new salt.  Or a frame came in that contains a bad_server_salt; then
    the same query went out again under the salt of that message with a larger
    id, and the answer came in behind it.  The response is that of the frame
    that ended the wait ([response]): of the first rpc_result of a container, or
    of the frame itself, the object behind the request id, uncompressed when it
    is a gzip_packed.  No branch leaves a buffer, and the drain loop ends. *)
Theorem api_call_exchange `{C : Crypto} {HC : CryptoLaws C} tinf cfg query max_len s t w :
  sendable s -> early s w -> seq_no s < 2 ^ 31 - 1 ->
  zlen (wrapped_bytes cfg query) + 59 <= RPC_BUF_SIZE ->
  match api_call tinf cfg query max_len (s, t, w) with
  | Done resp (s', t', w') =>
      t' = t /\ exists sent, n_out (w_net w') = n_out (w_net w) ++ sent /\
        exchange tinf (wrapped_bytes cfg query) max_len s sent (n_in (w_net w)) s' (n_in (w_net w')) resp
  | Fail (s', t', w') => t' = t
  | Fault | NoFuel => False
  end.
Proof. apply api_call_at. Qed.

(** The frame of a plaintext of the peer. *)
Definition sample_frame (plain : list byte) : list byte :=
  match mtproto_encrypt (C := toy_crypto) plain sample_key 8 (sample_world [] []) with
  | Done r _ => frame (packet (H := toy_crypto) sample_key (snd r) (fst r))
  | _ => []
  end.

(** A reply of the peer to any request: an rpc_result around [body]. *)
Definition sample_answer (body : list byte) : list byte :=
  sample_frame (message_bytes 11 7 5 1 (enc32 CRC_rpc_result ++ enc64 1 ++ body)).

Definition answering_world (body : list byte) : World :=
  sample_world (replicate 400 (SockN 200)) (sample_answer body).

(** A message that announces 200 bytes and carries none: 200 zeros come out. *)
Lemma truncated_message_delivered :
  exists st, rpc_recv_encrypted (C := toy_crypto) 1024
    (sample_session, sample_transport,
     sample_world (replicate 400 (SockN 200)) (sample_frame (enc64 11 ++ enc64 7 ++ enc64 5 ++ enc32 1 ++ enc32 200))) =
  Done (replicate 200 Byte.x00) st.
Proof. eexists. vm_compute. reflexivity. Qed.

(** An rpc_result around a pong comes back as the pong. *)
Example api_call_answers :
  exists st, api_call (C := toy_crypto) store_tinf api_config_init [Byte.x41] 64
    (sample_session, sample_transport, answering_world (enc32 TL_pong)) = Done (enc32 TL_pong) st.
Proof. eexists. vm_compute. reflexivity. Qed.

Lemma api_call_exchange_witness :
  match api_call (C := toy_crypto) store_tinf api_config_init [Byte.x41] 64
          (sample_session, sample_transport, answering_world (enc32 TL_pong)) with
  | Done resp (s', t', w') =>
      t' = sample_transport /\ exists sent, n_out (w_net w') = [] ++ sent /\
        exchange (C := toy_crypto) store_tinf (wrapped_bytes api_config_init [Byte.x41]) 64 sample_session
          sent (sample_answer (enc32 TL_pong)) s' (n_in (w_net w')) resp
  | Fail (s', t', w') => t' = sample_transport
  | Fault | NoFuel => False
  end.
Proof.
  apply (api_call_exchange (HC := toy_crypto_laws) store_tinf api_config_init [Byte.x41] 64
           sample_session sample_transport (answering_world (enc32 TL_pong))).
  - split; [exact sample_session_wf|]. repeat split.
  - split; reflexivity.
  - reflexivity.
  - vm_compute. discriminate.
Defined.

(** Classification of a frame always ends, changes nothing of the
    session but the salt, says "result" only for frames that carry something
    for the caller and "skip" only for frames that do not. *)
Theorem classify_frame f s :
  zlen f <= SIZE_LIM ->
  exists k s', classify_service_frame f s = Done k s' /\ resalted s s' /\
    (k = SVC_RESULT -> carries f) /\ (k = SVC_SKIP -> ~ carries f) /\
    (k = SVC_BAD_SALT -> new_salt f (server_salt s')).
Proof.
  intros Hz. destruct (classify_at f s Hz) as (k & s' & E & Hr & Hk).
  exists k, s'. split; [exact E|]. split; [exact Hr|]. split_and!; intros ->; [apply Hk..|exact Hk].
Qed.

Lemma classify_frame_witness :
  exists k s', classify_service_frame (container_bytes [sample_ack; sample_pong]) sample_session =
      Done k s' /\ resalted sample_session s' /\
    (k = SVC_RESULT -> carries (container_bytes [sample_ack; sample_pong])) /\
    (k = SVC_SKIP -> ~ carries (container_bytes [sample_ack; sample_pong])) /\
    (k = SVC_BAD_SALT -> new_salt (container_bytes [sample_ack; sample_pong]) (server_salt s')).
Proof.
  apply (classify_frame (container_bytes [sample_ack; sample_pong]) sample_session).
  vm_compute. discriminate.
Defined.

(** The wrapper: invokeWithLayer 185 around initConnection with no flag,
    the api id, the six strings of the configuration ([NULL] as empty) and
    the query; an error, and nothing written, when that exceeds the caller's
    buffer. *)
Theorem wrapped_query_layout cfg query max_len :
  zlen (wrapped_bytes cfg query) <= 2 ^ 63 ->
  api_wrap_query cfg query max_len =
  if max_len <? zlen (wrapped_bytes cfg query) then None else Some (wrapped_bytes cfg query).
Proof. apply wrap_query_at. Qed.

Lemma wrapped_query_layout_witness :
  api_wrap_query api_config_init [Byte.x41] 10 =
  if 10 <? zlen (wrapped_bytes api_config_init [Byte.x41]) then None
  else Some (wrapped_bytes api_config_init [Byte.x41]).
Proof. apply (wrapped_query_layout api_config_init [Byte.x41] 10). vm_compute. discriminate. Defined.

(** The bound of the wrapper is not the bound of the encryption: a query
    whose wrapped form is within 44 bytes of the 1 MiB limit, or at it, passes the size
    check and is then encrypted past the end of the heap buffer. *)
Theorem api_call_overflow `{C : Crypto} {HC : CryptoLaws C} tinf cfg query max_len s t w :
  sendable s -> RPC_BUF_SIZE - 44 < zlen (wrapped_bytes cfg query) <= API_BUF_SIZE ->
  api_call_once tinf cfg query max_len (s, t, w) = Fault.
Proof. apply call_once_overflow. Qed.

(** A query that leaves no byte of the megabyte. *)
Definition full_query : list byte := replicate (Z.to_nat (1024 * 1024 - 56)) Byte.x00.

Lemma api_call_overflow_witness :
  api_call_once (C := toy_crypto) store_tinf api_config_init full_query 64
    (sample_session, sample_transport, sample_world [] []) = Fault.
Proof.
  apply (api_call_overflow (HC := toy_crypto_laws) store_tinf api_config_init full_query 64
           sample_session sample_transport (sample_world [] [])).
  - split; [exact sample_session_wf|]. repeat split.
  - split; vm_compute; (reflexivity || discriminate).
Defined.

(** The answer is not matched with the request: a frame that is neither
    a service message, a container, an rpc_result nor gzip is the response
    itself, and the request id of an rpc_result makes no difference. *)
Theorem answers_are_not_matched tinf raw inner id1 id2 max_len :
  carries raw -> first_word raw <> TL_msg_container -> first_word raw <> CRC_rpc_result ->
  first_word raw <> CRC_gzip_packed -> zlen raw <= max_len ->
  unwrap_response tinf raw max_len = Some raw /\
  unwrap_response tinf (enc32 CRC_rpc_result ++ enc64 id1 ++ inner) max_len =
    unwrap_response tinf (enc32 CRC_rpc_result ++ enc64 id2 ++ inner) max_len.
Proof.
  intros H1 H2 H3 H4 H5. split; [by apply unsolicited_returned|by apply result_id_ignored].
Qed.

Lemma answers_are_not_matched_witness :
  unwrap_response store_tinf (enc32 0x74ae4240) 64 = Some (enc32 0x74ae4240) /\
  unwrap_response store_tinf (enc32 CRC_rpc_result ++ enc64 1 ++ [Byte.x41]) 64 =
    unwrap_response store_tinf (enc32 CRC_rpc_result ++ enc64 2 ++ [Byte.x41]) 64.
Proof.
  apply (answers_are_not_matched store_tinf (enc32 0x74ae4240) [Byte.x41] 1 2 64);
    [constructor|..]; vm_compute; (reflexivity || discriminate).
Defined.
