(* ===== verification/Request.v ===== *)
(** * Requests and responses: what the callers of api_call.c have in common

    Every function above [api_call] builds a query with a [TlWriter], calls,
    looks at the first word of the response and parses the rest with a
    [TlReader], storing what it finds in the caller's objects.  This file has
    these steps, and the rules by which the files above reason about them:
    the bytes of a query, and parsers that store ([parses], in front of an
    encoding; safety on arbitrary bytes by [safe_upto] of TlLogic). *)

From S2P Require Import Prelude TlSerial TlLogic TlCrc World MtprotoCrypto MtprotoSession.
From S2P Require Import Transport MtprotoRpc RpcCorrect ApiCall ApiCorrect.

(** ** Objects of the caller

    A parser works on its reader and on the caller's objects [X]; a function
    that calls works on these objects and on the connection. *)

Abbreviation Px X := (M (TlReader * X)).
Abbreviation Cx X := (M (X * (MtProtoSession * Transport * World))).

Definition upd_ctx {X W} (f : X -> X) : M (X * W) unit := fun st => Done tt (f (fst st), snd st).
Definition set_ctx {T X} (f : X -> X) : M (T * X) unit := fun st => Done tt (fst st, f (snd st)).
Definition get_ctx {T X} : M (T * X) X := fun st => Done (snd st) st.

(** [fail_if] on the objects. *)
Definition check_ctx {T X} (c : X -> bool) : M (T * X) unit := fail_if (fun st => negb (c (snd st))).

(** Parse a buffer; what was stored before a failure stays stored. *)
Definition with_parser {X W A} (buf : list byte) (m : Px X A) : M (X * W) A := fun st =>
  match m (tl_reader_init buf (zlen buf), fst st) with
  | Done a r => Done a (snd r, snd st)
  | Fail r => Fail (snd r, snd st)
  | Fault => Fault
  | NoFuel => NoFuel
  end.

(** ** Queries *)

(** [if (w.len > sizeof(query)) return -1; memcpy(query, w.data, w.len);] *)
Definition take_query {S} (w : TlWriter) (max_len : Z) : M S (list byte) :=
  if max_len <? w_len w then fail else mret (w_data w).

(** The same copy without the check, into an array of [max_len] bytes. *)
Definition copy_query {S} (w : TlWriter) (max_len : Z) : M S (list byte) :=
  fits (w_len w) max_len ;; mret (w_data w).

(** ** Responses *)

(** The first word decides: too short, an error, not what was expected, or
    the response. *)
Definition check_top {X W} (on_error : RpcError -> X -> X) (expected : Z -> bool)
    (resp : list byte) : M (X * W) unit :=
  if zlen resp <? 4 then fail
  else
    let top := first_word resp in
    if top =? TL_rpc_error then
      match rpc_parse_error resp with
      | Some e => upd_ctx (on_error e) ;; fail
      | None => fail
      end
    else if expected top then mret tt else fail.

(** [err->error_code = 0; err->error_msg[0] = 0; err->migrate_dc = -1;
    err->flood_wait_secs = 0;] *)
Definition no_error : RpcError := mkError 0 [] (-1) 0.

(** The caller's objects are the result and the error detail. *)
Definition set_err {Y} (e : RpcError) (x : Y * RpcError) : Y * RpcError := (fst x, e).

(** [if (!tl_reader_ok(r))] and [r->len - r->pos], as values. *)
Definition ask_ok : Rd bool := fun r => Done (tl_reader_ok r) r.
Definition ask_remaining : Rd Z := fun r => Done (remaining r) r.

(** [api_call] on behalf of a function with objects [X]. *)
Definition call_api `{C : Crypto} {X} (tinf : Z -> list byte -> option (list byte))
    (cfg : ApiConfig) (query : list byte) (max_len : Z) : Cx X (list byte) :=
  on_snd (api_call tinf cfg query max_len).

Lemma safe_ask_ok b : safe_upto b ask_ok.
Proof. intros r Hwf _. by apply later_refl. Qed.

Lemma safe_ask_remaining b : safe_upto b ask_remaining.
Proof. intros r Hwf _. by apply later_refl. Qed.

#[export] Hint Resolve safe_ask_ok safe_ask_remaining : tl_safe.

(** ** The bytes of a writer sequence *)

Lemma zlen_take_le {A} n (l : list A) : zlen (take n l) <= Z.of_nat n.
Proof. unfold zlen. rewrite length_take. lia. Qed.

Lemma enc_bytes_bound data : zlen (enc_bytes data) <= zlen data + 7.
Proof. apply enc_bytes_len. Qed.

Lemma write_bytes_data w d :
  zlen d < 2 ^ 60 -> w_data (tl_write_bytes w d) = w_data w ++ enc_bytes d.
Proof.
  intros Hd. pose proof (zlen_nonneg d). unfold tl_write_bytes, enc_bytes. cbn zeta.
  rewrite <- bytes_prefix_len, (u64_id (_ + _)) by
    (unfold is_u64; rewrite bytes_prefix_len; destruct (_ <? _); lia).
  set (p := bytes_prefix (zlen d)). unfold padding.
  assert (Hw : w_data (if 0 <? zlen d then writer_put (writer_put w p) d else writer_put w p)
               = w_data w ++ p ++ d).
  { destruct (Z.ltb_spec 0 (zlen d)); rewrite !put_data, <- ?app_assoc; [done|].
    assert (d = []) as -> by (apply length_zero_iff_nil; unfold zlen in *; lia). by rewrite app_nil_r. }
  destruct (Z.ltb_spec 0 ((4 - (zlen p + zlen d) mod 4) mod 4)).
  - by rewrite put_data, Hw, <- !app_assoc.
  - rewrite Hw. rewrite (Z2Nat.nonpos ((4 - _) mod 4)) by lia. cbn [replicate]. by rewrite app_nil_r.
Qed.

Lemma write_u32_data w v : w_data (tl_write_uint32 w v) = w_data w ++ enc32 v.
Proof. unfold tl_write_uint32, write_le32. by rewrite put_data, le_bytes32. Qed.

Lemma write_int32_data w v : w_data (tl_write_int32 w v) = w_data w ++ enc32 v.
Proof. unfold tl_write_int32, write_le32. by rewrite put_data, le_bytes32, enc32_u32. Qed.

Lemma write_u64_data w v : w_data (tl_write_uint64 w v) = w_data w ++ enc64 v.
Proof. unfold tl_write_uint64, write_le64. by rewrite put_data, le_bytes64. Qed.

Lemma write_int64_data w v : w_data (tl_write_int64 w v) = w_data w ++ enc64 v.
Proof. unfold tl_write_int64, write_le64. by rewrite put_data, le_bytes64, enc64_u64. Qed.

Lemma write_int128_data w v : w_data (tl_write_int128 w v) = w_data w ++ take 16 v.
Proof. exact (put_data w (take 16 v)). Qed.

Lemma write_int256_data w v : w_data (tl_write_int256 w v) = w_data w ++ take 32 v.
Proof. exact (put_data w (take 32 v)). Qed.

Lemma write_raw_data w v : w_data (tl_write_raw w v) = w_data w ++ v.
Proof. exact (put_data w v). Qed.

Lemma write_string_data w s :
  zlen (default [] s) < 2 ^ 60 -> w_data (tl_write_string w s) = w_data w ++ enc_bytes (default [] s).
Proof. apply write_bytes_data. Qed.

Lemma write_vector_data w n :
  w_data (tl_write_vector_begin w n) = w_data w ++ enc32 TL_VECTOR_CTOR ++ enc32 n.
Proof.
  unfold tl_write_vector_begin. change (write_le32 ?w ?v) with (tl_write_uint32 w v).
  by rewrite !write_u32_data, <- app_assoc.
Qed.

(** The length field counts the bytes, up to the width of [size_t]. *)
Definition counts (w : TlWriter) : Prop := w_len w = u64 (zlen (w_data w)).

Lemma counts_put w src : counts w -> counts (writer_put w src).
Proof.
  unfold counts. intros H. rewrite put_data, zlen_app. unfold writer_put, writer_ensure.
  destruct (_ <=? _); cbn [w_len]; rewrite H; unfold u64; apply Zplus_mod_idemp_l.
Qed.

Lemma counts_init : counts tl_writer_init.
Proof. done. Qed.

Lemma counts_le32 w v : counts w -> counts (write_le32 w v).
Proof. apply counts_put. Qed.

Lemma counts_bytes w d : counts w -> counts (tl_write_bytes w d).
Proof.
  intros H. unfold tl_write_bytes. cbn zeta.
  destruct (0 <? zlen d); destruct (_ <? _); repeat apply counts_put; done.
Qed.

Lemma counts_len w bs : counts w -> w_data w = bs -> zlen bs < 2 ^ 64 -> w_len w = zlen bs.
Proof. intros -> -> Hb. apply u64_id. pose proof (zlen_nonneg bs). unfold is_u64. lia. Qed.

(** Prove [counts] of a writer sequence. *)
Ltac counts_tac :=
  repeat match goal with
  | |- counts tl_writer_init => exact counts_init
  | |- counts (tl_write_bytes ?w ?d) => apply (counts_bytes w d)
  | |- counts (tl_write_string ?w ?s) => apply (counts_bytes w (default [] s))
  | |- counts (tl_write_vector_begin ?w ?n) => unfold tl_write_vector_begin; do 2 apply counts_le32
  | |- counts (tl_write_uint32 ?w ?v) => apply (counts_le32 w v)
  | |- counts (tl_write_int32 ?w ?v) => apply (counts_le32 w (u32 v))
  | |- counts (tl_write_uint64 ?w ?v) => apply (counts_put w)
  | |- counts (tl_write_int64 ?w ?v) => apply (counts_put w)
  | |- counts (tl_write_int128 ?w ?v) => apply (counts_put w)
  | |- counts (tl_write_int256 ?w ?v) => apply (counts_put w)
  | |- counts (tl_write_raw ?w ?v) => apply (counts_put w)
  | |- counts (match ?c with _ => _ end) => destruct c
  end.

(** The bytes of a writer sequence; the lengths of byte strings are left to
    [lia]. *)
Ltac wdata :=
  repeat match goal with
  | |- context [w_data (tl_write_uint32 ?w ?v)] => rewrite (write_u32_data w v)
  | |- context [w_data (tl_write_int32 ?w ?v)] => rewrite (write_int32_data w v)
  | |- context [w_data (tl_write_uint64 ?w ?v)] => rewrite (write_u64_data w v)
  | |- context [w_data (tl_write_int64 ?w ?v)] => rewrite (write_int64_data w v)
  | |- context [w_data (tl_write_int128 ?w ?v)] => rewrite (write_int128_data w v)
  | |- context [w_data (tl_write_int256 ?w ?v)] => rewrite (write_int256_data w v)
  | |- context [w_data (tl_write_raw ?w ?v)] => rewrite (write_raw_data w v)
  | |- context [w_data (tl_write_vector_begin ?w ?n)] => rewrite (write_vector_data w n)
  | |- context [w_data (tl_write_string ?w ?s)] => rewrite (write_string_data w s) by (cbn; lia)
  | |- context [w_data (tl_write_bytes ?w ?v)] => rewrite (write_bytes_data w v) by lia
  | |- context [w_data tl_writer_init] => change (w_data tl_writer_init) with (@nil byte)
  end; cbn [app].

(** Bound the length of a sequence of encodings. *)
Ltac enc_lia :=
  rewrite ?zlen_app, ?enc32_len, ?enc64_len, ?zlen_nil;
  repeat match goal with
  | |- context [zlen (enc_bytes ?d)] => pose proof (enc_bytes_bound d); generalize dependent (zlen (enc_bytes d)); intros
  end; lia.

Lemma take_query_at {S} w bs max_len (st : S) :
  counts w -> w_data w = bs -> zlen bs < 2 ^ 64 ->
  take_query w max_len st = if max_len <? zlen bs then Fail st else Done bs st.
Proof.
  intros Hc Hd Hb. unfold take_query. rewrite (counts_len w bs), Hd by done. by destruct (_ <? _).
Qed.

Lemma copy_query_at {S} w bs max_len (st : S) :
  counts w -> w_data w = bs -> zlen bs < 2 ^ 64 -> zlen bs <= max_len ->
  copy_query w max_len st = Done bs st.
Proof.
  intros Hc Hd Hb Hm. unfold copy_query, fits, mbind, M_bind. rewrite (counts_len w bs), Hd by done.
  by rewrite (proj2 (Z.ltb_ge _ _)) by lia.
Qed.

Lemma call_api_at `{C : Crypto} {X} tinf cfg query max_len (x : X) st resp st' :
  api_call tinf cfg query max_len st = Done resp st' ->
  call_api tinf cfg query max_len (x, st) = Done resp (x, st').
Proof. intros E. unfold call_api, on_snd. cbn [fst snd]. by rewrite E. Qed.

Lemma check_top_at {X W} on_error expected top rest (st : X * W) :
  is_u32 top -> top <> TL_rpc_error -> expected top = true ->
  check_top on_error expected (enc32 top ++ rest) st = Done tt st.
Proof.
  intros Ht Hn He. unfold check_top. rewrite zlen_app, enc32_len. pose proof (zlen_nonneg rest).
  rewrite (proj2 (Z.ltb_ge _ _)), first_word_enc32, (proj2 (Z.eqb_neq _ _) Hn) by (done || lia).
  by rewrite He.
Qed.

(** A query, its answer with the expected first word, and what follows. *)
Lemma exchange_at `{C : Crypto} {X A} tinf cfg w q qmax rmax on_error expected
    (k : list byte -> Cx X A) (x : X) st st' top rest :
  counts w -> w_data w = q -> zlen q < 2 ^ 64 -> zlen q <= qmax ->
  api_call tinf cfg q rmax st = Done (enc32 top ++ rest) st' ->
  is_u32 top -> top <> TL_rpc_error -> expected top = true ->
  (query ← take_query w qmax;
   resp ← call_api tinf cfg query rmax;
   check_top on_error expected resp ;; k resp) (x, st) = k (enc32 top ++ rest) (x, st').
Proof.
  intros Hc Hd Hz Hq Ha Ht Hn He.
  rewrite (bind_Done _ _ _ q (x, st)).
  2: { rewrite (take_query_at w q) by done. by rewrite (proj2 (Z.ltb_ge _ _)) by lia. }
  rewrite (bind_Done _ _ _ _ _ (call_api_at tinf cfg q rmax x st _ _ Ha)).
  by rewrite (bind_Done _ _ _ _ _ (check_top_at on_error expected top rest (x, st') Ht Hn He)).
Qed.

(** ** Parsers that store

    [parses m c bs a c']: in front of [bs], with objects [c], [m] returns
    [a], stands behind [bs] and leaves the objects [c']. *)

Definition parses {X A} (m : Px X A) (c : X) (bs : list byte) (a : A) (c' : X) : Prop :=
  forall r tl, reader_wf r -> rest r = bs ++ tl -> m (r, c) = Done a (adv r (zlen bs), c').

Section Parses.
Context {X : Type}.

Lemma parses_bind {A B} (m : Px X A) (k : A -> Px X B) c bs a c1 cs b c2 :
  parses m c bs a c1 -> parses (k a) c1 cs b c2 -> parses (m ≫= k) c (bs ++ cs) b c2.
Proof.
  intros Hm Hk r tl Hwf Hr. rewrite <- app_assoc in Hr.
  rewrite (bind_Done _ _ _ _ _ (Hm r _ Hwf Hr)). erewrite Hk.
  - by rewrite adv_adv, zlen_app.
  - by eapply adv_wf.
  - by eapply rest_adv.
Qed.

Lemma parses_ret {A} (a : A) (c : X) : parses (mret a) c [] a c.
Proof. intros r tl _ _. by rewrite zlen_nil, adv_0. Qed.

Lemma parses_lift {A} (m : Rd A) (c : X) bs a : reads m bs a -> parses (lift m) c bs a c.
Proof. intros Hm r tl Hwf Hr. unfold lift. cbn [fst snd]. by rewrite (Hm r tl Hwf Hr). Qed.

Lemma parses_set f (c : X) : parses (set_ctx f) c [] tt (f c).
Proof. intros r tl _ _. by rewrite zlen_nil, adv_0. Qed.

Lemma parses_set_eq f (c c' : X) : f c = c' -> parses (set_ctx f) c [] tt c'.
Proof. intros <-. apply parses_set. Qed.

(** Setters in front of, and nothing behind, a parser. *)
Lemma parses_set_then {A} f (k : Px X A) c bs a c' :
  parses k (f c) bs a c' -> parses (set_ctx f ;; k) c bs a c'.
Proof. apply (parses_bind (set_ctx f) (fun _ => k) c [] tt (f c) bs). apply parses_set. Qed.

Lemma parses_end {A} (m : Px X A) c bs a c' : parses m c (bs ++ []) a c' -> parses m c bs a c'.
Proof. by rewrite app_nil_r. Qed.

Lemma parses_u32 (c : X) v : is_u32 v -> parses (lift tl_read_uint32) c (enc32 v) v c.
Proof. intros Hv. by apply parses_lift, reads_uint32. Qed.

Lemma parses_s32 (c : X) v : is_s32 v -> parses (lift tl_read_int32) c (enc32 v) v c.
Proof. intros Hv. by apply parses_lift, reads_int32. Qed.

Lemma parses_bytes (c : X) d : zlen d < 2 ^ 24 -> parses (lift tl_read_bytes) c (enc_bytes d) (Some d) c.
Proof. intros Hd. by apply parses_lift, reads_bytes. Qed.

Lemma parses_i64 (c : X) v : is_s64 v -> parses (lift tl_read_int64) c (enc64 v) v c.
Proof. intros Hv. by apply parses_lift, reads_int64. Qed.

Lemma parses_if {A} (b : bool) (m m' : Px X A) c bs a c' :
  (b = true -> parses m c bs a c') -> (b = false -> parses m' c bs a c') ->
  parses (if b then m else m') c bs a c'.
Proof. destruct b; auto. Qed.

Lemma parses_when (b : bool) (m : Px X unit) c bs c' :
  (b = true -> parses m c bs tt c') -> (b = false -> bs = [] /\ c = c') -> parses (when b m) c bs tt c'.
Proof. unfold when. destruct b; [auto|]. intros _ [-> ->]; [done|]. apply parses_ret. Qed.

(** A conditional part that is absent. *)
Lemma parses_skip {A} (b : bool) (m : Px X unit) (k : Px X A) c bs a c' :
  b = false -> parses k c bs a c' -> parses (when b m ;; k) c bs a c'.
Proof. intros ->. apply (parses_bind _ (fun _ => k) c [] tt c). apply parses_ret. Qed.

(** A check of the room left, in front of a parser that needs it. *)
Lemma parses_need {A} n (k : Px X A) c bs a c' :
  0 < n <= zlen bs -> parses k c bs a c' -> parses (lift (need n) ;; k) c bs a c'.
Proof.
  intros Hn Hk r tl Hwf Hr. destruct (remaining_at r bs tl Hwf Hr) as [_ Hle]; [lia|].
  rewrite (bind_Done _ _ _ tt (r, c)); [by eapply Hk|]. unfold lift, need, fail_if. cbn [fst snd].
  by rewrite (proj2 (Z.ltb_ge _ _)) by lia.
Qed.

Lemma parses_need_ok {A} n (k : Px X A) c bs a c' :
  0 < n <= zlen bs -> parses k c bs a c' -> parses (lift (need_ok n) ;; k) c bs a c'.
Proof.
  intros Hn Hk r tl Hwf Hr. destruct (remaining_at r bs tl Hwf Hr) as [Hok Hle]; [lia|].
  rewrite (bind_Done _ _ _ tt (r, c)); [by eapply Hk|]. unfold lift, need_ok, fail_if. cbn [fst snd].
  by rewrite Hok, (proj2 (Z.ltb_ge _ _)) by lia.
Qed.

Lemma with_parser_at {W A} (m : Px X A) buf bs tl c a c' (st : W) :
  parses m c bs a c' -> buf = bs ++ tl -> zlen buf <= SIZE_LIM ->
  with_parser buf m (c, st) = Done a (c', st).
Proof.
  intros Hm -> Hz. unfold with_parser. cbn [fst snd]. pose proof (zlen_nonneg (bs ++ tl)).
  rewrite (Hm _ tl); [done|apply reader_init_wf; lia|apply rest_init].
Qed.

End Parses.

(** One construct of a parser in front of an encoding that has the same
    structure. *)
Ltac parses_step :=
  lazymatch goal with
  | |- parses (set_ctx _ ;; _) _ _ _ _ => apply parses_set_then
  | |- parses (lift (need _) ;; _) _ _ _ _ => apply parses_need
  | |- parses (lift (need_ok _) ;; _) _ _ _ _ => apply parses_need_ok
  | |- parses (lift tl_read_uint32 ≫= _) _ _ _ _ => eapply parses_bind; [apply parses_u32|]
  | |- parses (lift tl_read_int32 ≫= _) _ _ _ _ => eapply parses_bind; [apply parses_s32|]
  | |- parses (lift tl_read_int64 ≫= _) _ _ _ _ => eapply parses_bind; [apply parses_i64|]
  | |- parses (lift tl_read_bytes ≫= _) _ _ _ _ => eapply parses_bind; [apply parses_bytes|]
  | |- parses (lift tl_read_string ≫= _) _ _ _ _ => eapply parses_bind; [apply parses_bytes|]
  | |- parses (when _ _ ≫= _) _ _ _ _ => eapply parses_bind; [apply parses_when|]
  | |- parses (set_ctx _) _ _ _ _ => apply parses_set_eq; reflexivity
  | |- parses (mret _) _ _ _ _ => apply parses_ret
  end.

(** ** Calls are safe whatever the connection does

    Without the bounds on ids and sequence numbers that the functional
    theorems need: the counters may wrap, and still no buffer is left. *)

(** The key and the id of the session are kept, and it stays well-formed. *)
Definition conn_kept (s s' : MtProtoSession) : Prop :=
  session_wf s' /\ auth_key s' = auth_key s /\ has_auth_key s' = has_auth_key s /\
  session_id s' = session_id s.

Lemma conn_kept_refl s : session_wf s -> conn_kept s s.
Proof. done. Qed.

Lemma conn_kept_trans s1 s2 s3 : conn_kept s1 s2 -> conn_kept s2 s3 -> conn_kept s1 s3.
Proof. unfold conn_kept. intros (? & ? & ? & ?) (? & ? & ? & ?). split_and!; congruence. Qed.

Lemma resalted_kept s s' : session_wf s -> resalted s s' -> conn_kept s s'.
Proof.
  intros Hwf Hr. split; [by eapply resalted_wf|]. destruct Hr as (salt & -> & _). done.
Qed.

Lemma on_ses_kept {A} (m : SM A) s t w :
  match m (s, w) with Done _ (s', _) | Fail (s', _) => conn_kept s s' | _ => False end ->
  match on_ses m (s, t, w) with
  | Done _ (s', t', _) | Fail (s', t', _) => conn_kept s s' /\ t' = t
  | Fault | NoFuel => False
  end.
Proof. unfold on_ses. destruct (m (s, w)) as [a [s' w']|[s' w']| |]; done. Qed.

Lemma msg_id_kept s w :
  session_wf s -> exists id s' w', mtproto_session_next_msg_id (s, w) = Done id (s', w') /\ conn_kept s s'.
Proof.
  intros Hwf. pose proof (run_op_wf OpMsgId s w I Hwf) as Hr. cbn [run_op] in Hr.
  unfold mtproto_session_next_msg_id, modify_session, get_fst, put_fst, on_snd, time_now,
    crypto_rand_bytes, mret, M_ret, mbind, M_bind in *. cbn [fst snd] in *.
  eexists _, _, _. split; [reflexivity|]. done.
Qed.

Lemma seq_no_kept c s w :
  session_wf s -> exists n s' w', mtproto_session_next_seq_no c (s, w) = Done n (s', w') /\ conn_kept s s'.
Proof.
  intros Hwf. pose proof (run_op_wf (OpSeqNo c) s w I Hwf) as Hr. cbn [run_op] in Hr.
  unfold mtproto_session_next_seq_no, modify_session, get_fst, put_fst, when, mret, M_ret, mbind,
    M_bind in *. destruct c; cbn in *; by eexists _, _, _.
Qed.

(** A computation on the connection that keeps it, with a result [Q]. *)
Definition conn_post {A} (m : CM A) (Q : A -> Prop) : Prop := forall s t w, session_wf s ->
  match m (s, t, w) with
  | Done a (s', t', w') => conn_kept s s' /\ t' = t /\ Q a
  | Fail (s', t', w') => conn_kept s s' /\ t' = t
  | Fault | NoFuel => False
  end.

Definition any_result {A} (a : A) : Prop := True.

Lemma conn_bind {A B} (m : CM A) (k : A -> CM B) Q Q' :
  conn_post m Q -> (forall a, Q a -> conn_post (k a) Q') -> conn_post (m ≫= k) Q'.
Proof.
  intros Hm Hk s t w Hwf. specialize (Hm s t w Hwf). unfold mbind, M_bind.
  destruct (m (s, t, w)) as [a [[s1 t1] w1]|[[s1 t1] w1]| |]; try done.
  destruct Hm as (Hs & -> & Ha). pose proof (Hk a Ha s1 t w1 (proj1 Hs)) as Hk1.
  destruct (k a _) as [b [[s2 t2] w2]|[[s2 t2] w2]| |]; try done.
  - destruct Hk1 as (Hs2 & -> & Hb). eauto using conn_kept_trans.
  - destruct Hk1 as (Hs2 & ->). eauto using conn_kept_trans.
Qed.

Lemma conn_ret {A} (a : A) (Q : A -> Prop) : Q a -> conn_post (mret a) Q.
Proof. intros H s t w Hwf. by split_and!; [apply conn_kept_refl|..]. Qed.

Lemma conn_fail {A} (Q : A -> Prop) : conn_post fail Q.
Proof. intros s t w Hwf. by split; [apply conn_kept_refl|]. Qed.

Section CallSafe.
Context `{C : Crypto} {HC : CryptoLaws C} (tinf : Z -> list byte -> option (list byte)).

(** The decompressor writes no more than the capacity it is given. *)
Definition tinf_fits : Prop := forall cap gz out, tinf cap gz = Some out -> zlen out <= cap.

Lemma send_encrypted_safe data c :
  zlen data + 59 <= RPC_BUF_SIZE -> conn_post (rpc_send_encrypted data c) any_result.
Proof.
  unfold RPC_BUF_SIZE. intros Hz s t w Hwf. pose proof (zlen_nonneg data).
  unfold rpc_send_encrypted. rewrite (bind_Done _ _ _ s (s, t, w)) by done.
  destruct (has_auth_key s); [|by apply conn_fail]. cbn [negb].
  destruct (msg_id_kept s w Hwf) as (id & s1 & w1 & E1 & Hs1).
  rewrite (bind_Done _ _ _ id (s1, t, w1)) by (unfold on_ses; by rewrite E1).
  destruct (seq_no_kept c s1 w1 (proj1 Hs1)) as (n & s2 & w2 & E2 & Hs2).
  rewrite (bind_Done _ _ _ n (s2, t, w2)) by (unfold on_ses; by rewrite E2).
  cbn zeta. rewrite message_written.
  fold (message_bytes (server_salt s) (session_id s) id n data).
  assert (Hml : zlen (enc64 (server_salt s) ++ enc64 (session_id s) ++ enc64 id ++ enc32 n ++
                enc32 (u32 (zlen data)) ++ data) = 32 + zlen data)
    by (rewrite !zlen_app, !enc64_len, !enc32_len; lia).
  set (msg := enc64 _ ++ _) in *.
  destruct (encrypt_at msg (auth_key s) 0 w2) as (pad & cipher & w3 & E3 & Hpad & Hcl & _ & _); [lia|].
  destruct (pad_len_spec (zlen msg)) as [Hpr _]; [lia|].
  erewrite bind_Done; [|unfold on_snd; cbn [fst snd]; by rewrite E3]. cbn [fst snd].
  unfold fits, mbind, M_bind, RPC_BUF_SIZE. rewrite (proj2 (Z.ltb_ge _ _)) by lia.
  rewrite packet_written, on_tr_cases.
  pose proof (transport_send_at (enc64 (auth_key_id (auth_key s)) ++
    mtproto_compute_msg_key (auth_key s) (msg ++ pad) 0 ++ cipher) t w3) as Ht.
  destruct (transport_send _ _) as [[] [t' w']|[t' w']| |]; try done.
  - destruct Ht as (-> & _). split; [by eapply conn_kept_trans|done].
  - destruct Ht as (-> & _). split; [by eapply conn_kept_trans|done].
Qed.

Lemma drain_safe n : conn_post (drain n) any_result.
Proof.
  intros s t w Hwf. pose proof (drain_at n s t w) as Hd.
  destruct (drain n (s, t, w)) as [r [[s1 t1] w1]|[[s1 t1] w1]| |]; try done.
  - destruct Hd as (Hs & -> & _). split_and!; [by apply resalted_kept|done|done].
  - destruct Hd as (Hs & ->). split; [by apply resalted_kept|done].
Qed.

Lemma unwrap_gzip_len data max_len out :
  tinf_fits -> 0 <= max_len -> rpc_unwrap_gzip tinf data max_len = Some out -> zlen out <= max_len.
Proof.
  intros Hf Hm. unfold rpc_unwrap_gzip. cbn zeta.
  destruct (zlen data <? 4).
  { destruct (Z.ltb_spec max_len (zlen data)); [done|]. by intros [= <-]. }
  destruct (negb _).
  { destruct (Z.ltb_spec max_len (zlen data)); [done|]. by intros [= <-]. }
  match goal with |- context [match ?m with Done _ _ => _ | _ => _ end] =>
    destruct m as [[[|b gz]|] ?|?| |] end; try done.
  intros H%Hf. etransitivity; [exact H|]. unfold u32. apply Z.mod_le; lia.
Qed.

Lemma call_once_safe cfg query max_len :
  tinf_fits -> 0 <= max_len -> zlen (wrapped_bytes cfg query) + 59 <= RPC_BUF_SIZE ->
  conn_post (api_call_once tinf cfg query max_len)
    (fun r => match r with Some resp => zlen resp <= max_len | None => True end).
Proof.
  intros Hf Hm Hz. unfold RPC_BUF_SIZE in Hz. unfold api_call_once.
  rewrite wrap_query_at by lia. unfold API_BUF_SIZE. rewrite (proj2 (Z.ltb_ge _ _)) by lia.
  eapply conn_bind; [apply send_encrypted_safe; unfold RPC_BUF_SIZE; lia|]. intros [] _.
  eapply conn_bind; [apply drain_safe|]. intros [raw|] _; [|by apply conn_ret].
  destruct (unwrap_response tinf raw max_len) as [resp|] eqn:E; [|apply conn_fail].
  apply conn_ret. by eapply unwrap_gzip_len.
Qed.

Lemma api_call_safe cfg query max_len :
  tinf_fits -> 0 <= max_len -> zlen (wrapped_bytes cfg query) + 59 <= RPC_BUF_SIZE ->
  conn_post (api_call tinf cfg query max_len) (fun resp => zlen resp <= max_len).
Proof.
  intros Hf Hm Hz. unfold api_call. eapply conn_bind; [by apply call_once_safe|].
  intros [resp|] Hr; [by apply conn_ret|]. eapply conn_bind; [by apply call_once_safe|].
  intros [resp|] Hr2; [by apply conn_ret|apply conn_fail].
Qed.

End CallSafe.
