(* ===== verification/CallLogic.v ===== *)
(** * A logic for the functions above api_call.c

    [px_safe I m]: the parser [m], on arbitrary bytes, stays inside its
    buffer, ends, and keeps the invariant [I] of the objects it stores into.
    [cx_safe I m Q]: the function [m], whatever the server answers and
    however the connection behaves, leaves no buffer, ends, keeps [I] and the
    connection ([conn_kept]), and its result satisfies [Q].  The rules are
    per construct; [px_tac] and [cx_tac] apply them along the syntax. *)

From S2P Require Import Prelude TlSerial TlLogic TlCrc TlSkipBase TlSkipSafe World MtprotoSession.
From S2P Require Import Transport MtprotoRpc RpcCorrect ApiCall ApiCorrect Request.

(** ** Parsers *)

Section Px.
Context {X : Type} (I : X -> Prop).

Definition px_safe {A} (m : Px X A) (Q : A -> Prop) : Prop := forall r x, reader_wf r -> I x ->
  match m (r, x) with
  | Done a (r', x') => later r r' /\ I x' /\ Q a
  | Fail (r', x') => later r r' /\ I x'
  | Fault | NoFuel => False
  end.

Lemma px_ret {A} (a : A) (Q : A -> Prop) : Q a -> px_safe (mret a) Q.
Proof. intros Ha r x Hr Hx. split; [by apply later_refl|done]. Qed.

Lemma px_fail {A} (Q : A -> Prop) : px_safe fail Q.
Proof. intros r x Hr Hx. split; [by apply later_refl|done]. Qed.

Lemma px_bind {A B} (m : Px X A) (k : A -> Px X B) Q Q' :
  px_safe m Q -> (forall a, Q a -> px_safe (k a) Q') -> px_safe (m ≫= k) Q'.
Proof.
  intros Hm Hk r x Hr Hx. specialize (Hm r x Hr Hx). unfold mbind, M_bind.
  destruct (m (r, x)) as [a [r1 x1]|[r1 x1]| |]; try done.
  destruct Hm as (Hl & Hx1 & Ha). specialize (Hk a Ha r1 x1 (proj1 Hl) Hx1).
  destruct (k a (r1, x1)) as [b [r2 x2]|[r2 x2]| |]; try done.
  - destruct Hk as (Hl2 & ? & ?). split; [by eapply later_trans|done].
  - destruct Hk as (Hl2 & ?). split; [by eapply later_trans|done].
Qed.

Lemma px_weaken {A} (m : Px X A) (Q Q' : A -> Prop) :
  px_safe m Q -> (forall a, Q a -> Q' a) -> px_safe m Q'.
Proof.
  intros Hm HQ r x Hr Hx. specialize (Hm r x Hr Hx).
  destruct (m (r, x)) as [a [r1 x1]|[r1 x1]| |]; try done. destruct Hm as (? & ? & ?). auto.
Qed.

Lemma px_if {A} (c : bool) (m m' : Px X A) Q :
  (c = true -> px_safe m Q) -> (c = false -> px_safe m' Q) -> px_safe (if c then m else m') Q.
Proof. destruct c; auto. Qed.

Lemma px_when (c : bool) (m : Px X unit) :
  (c = true -> px_safe m any_result) -> px_safe (when c m) any_result.
Proof. intros H. destruct c; [auto|by apply px_ret]. Qed.

Lemma px_lift {A} (m : Rd A) : (forall b, safe_upto b m) -> px_safe (lift m) any_result.
Proof.
  intros Hm r x Hr Hx. specialize (Hm (left r) r Hr ltac:(done)). unfold lift. cbn [fst snd].
  change (rd r) with r in Hm. by destruct (m r) as [a r'|r'| |].
Qed.

(** Reads whose result is in the range of its type. *)
Lemma px_lift_post {A} (m : Rd A) (Q : A -> Prop) :
  (forall b, safe_upto b m) -> (forall r a r', m r = Done a r' -> Q a) -> px_safe (lift m) Q.
Proof.
  intros Hm HQ r x Hr Hx. specialize (Hm (left r) r Hr ltac:(done)). unfold lift. cbn [fst snd].
  change (rd r) with r in Hm. destruct (m r) as [a r'|r'| |] eqn:E; try done. eauto.
Qed.

Lemma px_set (f : X -> X) : (forall x, I x -> I (f x)) -> px_safe (set_ctx f) any_result.
Proof. intros Hf r x Hr Hx. split; [by apply later_refl|]. split; [by apply Hf|done]. Qed.

Lemma px_check (c : X -> bool) : px_safe (check_ctx c) any_result.
Proof.
  intros r x Hr Hx. unfold check_ctx, fail_if. destruct (negb _);
    (split; [by apply later_refl|done]).
Qed.

Lemma px_repeat (n : nat) (m : Px X unit) :
  px_safe m any_result -> px_safe (repeat_nat n m) any_result.
Proof.
  intros Hm. induction n as [|n IH]; [by apply px_ret|]. cbn [repeat_nat].
  eapply px_bind; [exact Hm|]. by intros _ _.
Qed.

Lemma px_for_n (n : Z) (m : Px X unit) : px_safe m any_result -> px_safe (for_n n m) any_result.
Proof.
  intros Hm r x Hr Hx. rewrite for_n_nat. by apply (px_repeat (Z.to_nat n) m Hm).
Qed.

End Px.

(** ** Where the cursor stands *)

(** A 32-bit read in a reader that has fewer bytes left puts the cursor at the
    end. *)
Lemma read_le32_left r : reader_wf r -> exists v r',
  read_le32 r = Done v r' /\ later r r' /\ left r' = Z.max 0 (left r - 4).
Proof.
  intros Hwf. unfold read_le32. rewrite reader_has_le by (done || unfold SIZE_LIM; lia).
  unfold left. destruct (Z.leb_spec (r_pos r + 4) (r_len r)) as [H|H]; cbn [negb].
  - unfold reader_wf, SIZE_LIM in *. rewrite mem_read_some, u64_id by (unfold is_u64; lia).
    eexists _, _. split; [done|]. split; [apply later_set_pos; unfold reader_wf, SIZE_LIM, left; lia|].
    cbn. lia.
  - unfold reader_wf in *. eexists _, _. split; [done|].
    split; [apply later_set_pos; unfold reader_wf, left; lia|]. cbn. lia.
Qed.

(** The cursor is not behind the end, and a 12-byte peer keeps it there. *)
Definition inside (r : TlReader) : Prop := r_pos r <= r_len r.

Lemma skip_peer_inside r : reader_wf r ->
  match tl_skip_peer r with Done _ r' => later r r' /\ inside r' | Fail r' => later r r' | _ => False end.
Proof.
  intros Hwf. pose proof (safe_tl_skip_peer (left r) r Hwf ltac:(done)) as Hs. change (rd r) with r in Hs.
  destruct (tl_skip_peer r) as [[] r'|r'| |] eqn:E; try done. split; [done|]. revert E.
  unfold tl_skip_peer, need_ok, fail_if. unfold mbind at 1, M_bind at 1.
  destruct (tl_reader_ok r) eqn:Hok; cbn [negb orb]; [|done].
  destruct (Z.ltb_spec (remaining r) 12) as [|Hr]; [done|]. unfold tl_reader_ok in Hok. bool_prop.
  unfold reader_wf, SIZE_LIM, remaining in *. rewrite u64_id in Hr by (unfold is_u64; lia).
  assert (Hread : forall r n (f : list byte -> Z), n = 4 \/ n = 8 -> 0 <= r_pos r ->
    r_pos r + n <= r_len r <= zlen (r_data r) -> r_len r <= 2 ^ 62 -> exists v,
    (if negb (reader_has r n) then Done 0 (set_pos r (r_len r))
     else match mem_read (r_data r) (r_pos r) n with
          | Some bs => Done (f bs) (set_pos r (u64 (r_pos r + n)))
          | None => Fault
          end) = Done v (set_pos r (r_pos r + n))).
  { clear. intros r n f Hn Hp Hl Hs. unfold reader_has. rewrite u64_id by (unfold is_u64; lia).
    rewrite (proj2 (Z.leb_le _ _)) by lia. cbn [negb]. rewrite mem_read_some by lia. by eexists. }
  unfold tl_read_uint32, read_le32.
  destruct (Hread r 4 le_combine) as [v Ev]; [lia..|]. rewrite (bind_Done _ _ _ _ _ Ev).
  unfold skip_int64, tl_read_int64, read_le64.
  destruct (Hread (set_pos r (r_pos r + 4)) 8 le_combine) as [v2 Ev2]; [cbn; lia..|].
  rewrite (bind_Done _ _ _ tt (set_pos (set_pos r (r_pos r + 4)) (r_pos r + 4 + 8))).
  2: { unfold mbind, M_bind. cbn [r_pos set_pos] in *. by rewrite Ev2. }
  unfold switch. destruct (existsb _ _); [|done]. intros [= <-]. unfold inside. cbn. lia.
Qed.

(** A step behind which the reader has the property [P]. *)
Lemma px_bind_reader {X} (I : X -> Prop) {A B} (P : TlReader -> Prop) (m : Px X A) (k : A -> Px X B) Q' :
  (forall r x, reader_wf r -> I x ->
     match m (r, x) with
     | Done _ (r', x') => later r r' /\ I x' /\ P r'
     | Fail (r', x') => later r r' /\ I x'
     | _ => False
     end) ->
  (forall a r x, reader_wf r -> P r -> I x ->
     match k a (r, x) with
     | Done b (r', x') => later r r' /\ I x' /\ Q' b
     | Fail (r', x') => later r r' /\ I x'
     | _ => False
     end) ->
  px_safe I (m ≫= k) Q'.
Proof.
  intros Hm Hk r x Hr Hx. specialize (Hm r x Hr Hx). unfold mbind, M_bind.
  destruct (m (r, x)) as [a [r1 x1]|[r1 x1]| |]; try done.
  destruct Hm as (Hl & Hx1 & Hp). specialize (Hk a r1 x1 (proj1 Hl) Hp Hx1).
  destruct (k a (r1, x1)) as [b [r2 x2]|[r2 x2]| |]; try done.
  - destruct Hk as (Hl2 & ? & ?). split; [by eapply later_trans|done].
  - destruct Hk as (Hl2 & ?). split; [by eapply later_trans|done].
Qed.

(** ** Loops

    [rd_within b m Q]: with at most [b] unread bytes, [m] is safe, and its
    result and the bytes left behind it satisfy [Q].  [px_at I b x m Q]: from
    the objects [x], with at most [b] unread bytes, [m] is safe, leaves objects
    with [I], and its result satisfies [Q].  A loop whose every round reads is
    safe when it has more fuel than bytes. *)

Definition rd_within (b : Z) {A} (m : Rd A) (Q : A -> Z -> Prop) : Prop := forall r,
  reader_wf r -> left r <= b ->
  match m r with
  | Done a r' => later r r' /\ Q a (left r')
  | Fail r' => later r r'
  | Fault | NoFuel => False
  end.

Lemma rd_safe b {A} (m : Rd A) : safe_upto b m -> rd_within b m (fun _ n => n <= b).
Proof.
  intros Hm r Hr Hb. specialize (Hm r Hr Hb). change (rd r) with r in Hm.
  destruct (m r) as [a r'|r'| |]; try done. split; [done|]. destruct Hm as (_ & _ & _ & H).
  change (rd r') with r' in H. lia.
Qed.

Lemma rd_post b {A} (m : Rd A) Q (P : A -> Prop) :
  rd_within b m Q -> (forall r a r', m r = Done a r' -> P a) -> rd_within b m (fun a n => Q a n /\ P a).
Proof.
  intros Hm HP r Hr Hb. specialize (Hm r Hr Hb). destruct (m r) as [a r'|r'| |] eqn:E; try done.
  destruct Hm. eauto.
Qed.

(** A reader with bytes left has fewer behind a read. *)
Lemma rd_head b {A} (stop : A) (k : Z -> Rd A) :
  (forall b v, safe_upto b (k v)) ->
  rd_within b (ok ← ask_ok; if negb ok then mret stop else (v ← tl_read_uint32; k v))
    (fun a n => n <= b /\ (a = stop \/ n <= b - 1)).
Proof.
  intros Hk r Hr Hb. rewrite (bind_Done _ _ _ (tl_reader_ok r) r) by done.
  destruct (tl_reader_ok r) eqn:Hok; cbn [negb]; [|split_and!; [by apply later_refl|done|by left]].
  destruct (read_le32_left r Hr) as (v & r1 & E1 & Hl1 & Hleft). unfold tl_reader_ok in Hok. bool_prop.
  rewrite (bind_Done _ _ _ v r1) by done. pose proof (Hk (left r1) v r1 (proj1 Hl1) ltac:(done)) as Hs.
  change (rd r1) with r1 in Hs.
  assert (left r1 <= left r - 1) by (rewrite Hleft; unfold left; lia).
  destruct (k v r1) as [a r2|r2| |]; try done; [|by eapply later_trans].
  split; [by eapply later_trans|]. destruct Hs as (_ & _ & _ & Hll). change (rd r2) with r2 in Hll. split; [lia|right; lia].
Qed.

Section Loops.
Context {X : Type} (I : X -> Prop).

Definition px_at (b : Z) (x : X) {A} (m : Px X A) (Q : A -> Prop) : Prop := forall r,
  reader_wf r -> left r <= b ->
  match m (r, x) with
  | Done a (r', x') => later r r' /\ I x' /\ Q a
  | Fail (r', x') => later r r' /\ I x'
  | Fault | NoFuel => False
  end.

Lemma at_ret b x {A} (a : A) (Q : A -> Prop) : I x -> Q a -> px_at b x (mret a) Q.
Proof. intros Hx Ha r Hr Hb. by split; [apply later_refl|]. Qed.

Lemma at_get b x {A} (k : X -> Px X A) Q : px_at b x (k x) Q -> px_at b x (get_ctx ≫= k) Q.
Proof. done. Qed.

Lemma at_set b x f {A} (k : unit -> Px X A) Q : px_at b (f x) (k tt) Q -> px_at b x (set_ctx f ≫= k) Q.
Proof. done. Qed.

Lemma at_lift b x {A B} (m : Rd A) (k : A -> Px X B) Q Q' :
  I x -> rd_within b m Q -> (forall a n, Q a n -> px_at n x (k a) Q') -> px_at b x (lift m ≫= k) Q'.
Proof.
  intros Hx Hm Hk r Hr Hb. specialize (Hm r Hr Hb). unfold mbind, M_bind, lift. cbn [fst snd].
  destruct (m r) as [a r1|r1| |]; try done. destruct Hm as (Hl & Ha).
  specialize (Hk a _ Ha r1 (proj1 Hl) ltac:(done)).
  destruct (k a (r1, x)) as [c [r2 x2]|[r2 x2]| |]; try done.
  - destruct Hk as (Hl2 & ? & ?). split; [by eapply later_trans|done].
  - destruct Hk as (Hl2 & ?). split; [by eapply later_trans|done].
Qed.

Lemma at_if b x {A} (c : bool) (m m' : Px X A) Q :
  (c = true -> px_at b x m Q) -> (c = false -> px_at b x m' Q) -> px_at b x (if c then m else m') Q.
Proof. destruct c; auto. Qed.

Lemma px_fuelled {A} (f : nat -> Px X A) (Q : A -> Prop) :
  (forall n b x, b < Z.of_nat n -> I x -> px_at b x (f n) Q) -> px_safe I (fuelled f) Q.
Proof.
  intros Hf r x Hr Hx. unfold fuelled. cbn [rd HasReader_fst fst].
  apply (Hf _ (left r)); try done. pose proof (left_nonneg r). lia.
Qed.

(** Without fuel there are no bytes. *)
Lemma at_no_bytes b x {A} (m : Px X A) Q : b < 0 -> px_at b x m Q.
Proof. intros Hb r Hr Hl. pose proof (left_nonneg r). lia. Qed.

End Loops.

(** ** Functions *)

Section Cx.
Context {X : Type} (I : X -> Prop).

Definition cx_safe {A} (m : Cx X A) (Q : A -> Prop) : Prop := forall x s t w, I x -> session_wf s ->
  match m (x, (s, t, w)) with
  | Done a (x', (s', t', w')) => conn_kept s s' /\ t' = t /\ I x' /\ Q a
  | Fail (x', (s', t', w')) => conn_kept s s' /\ t' = t /\ I x'
  | Fault | NoFuel => False
  end.

Lemma cx_ret {A} (a : A) (Q : A -> Prop) : Q a -> cx_safe (mret a) Q.
Proof. intros Ha x s t w Hx Hs. by split; [apply conn_kept_refl|]. Qed.

Lemma cx_fail {A} (Q : A -> Prop) : cx_safe fail Q.
Proof. intros x s t w Hx Hs. by split; [apply conn_kept_refl|]. Qed.

Lemma cx_bind {A B} (m : Cx X A) (k : A -> Cx X B) Q Q' :
  cx_safe m Q -> (forall a, Q a -> cx_safe (k a) Q') -> cx_safe (m ≫= k) Q'.
Proof.
  intros Hm Hk x s t w Hx Hs. specialize (Hm x s t w Hx Hs). unfold mbind, M_bind.
  destruct (m _) as [a [x1 [[s1 t1] w1]]|[x1 [[s1 t1] w1]]| |]; try done.
  destruct Hm as (Hs1 & -> & Hx1 & Ha). pose proof (Hk a Ha x1 s1 t w1 Hx1 (proj1 Hs1)) as Hk1.
  destruct (k a _) as [b [x2 [[s2 t2] w2]]|[x2 [[s2 t2] w2]]| |]; try done.
  - destruct Hk1 as (Hs2 & -> & ?). split; [by eapply conn_kept_trans|done].
  - destruct Hk1 as (Hs2 & -> & ?). split; [by eapply conn_kept_trans|done].
Qed.

Lemma cx_weaken {A} (m : Cx X A) (Q Q' : A -> Prop) :
  cx_safe m Q -> (forall a, Q a -> Q' a) -> cx_safe m Q'.
Proof.
  intros Hm HQ x s t w Hx Hs. specialize (Hm x s t w Hx Hs).
  destruct (m _) as [a [x1 [[s1 t1] w1]]|[x1 [[s1 t1] w1]]| |]; try done.
  destruct Hm as (? & ? & ? & ?). auto.
Qed.

Lemma cx_if {A} (c : bool) (m m' : Cx X A) Q :
  (c = true -> cx_safe m Q) -> (c = false -> cx_safe m' Q) -> cx_safe (if c then m else m') Q.
Proof. destruct c; auto. Qed.

Lemma cx_when (c : bool) (m : Cx X unit) :
  (c = true -> cx_safe m any_result) -> cx_safe (when c m) any_result.
Proof. intros H. destruct c; [auto|by apply cx_ret]. Qed.

Lemma cx_upd (f : X -> X) : (forall x, I x -> I (f x)) -> cx_safe (upd_ctx f) any_result.
Proof. intros Hf x s t w Hx Hs. split; [by apply conn_kept_refl|]. by split_and!; [|apply Hf|]. Qed.

Lemma cx_get : cx_safe get_fst I.
Proof. intros x s t w Hx Hs. by split; [apply conn_kept_refl|]. Qed.

Lemma cx_on_conn {A} (m : CM A) Q : conn_post m Q -> cx_safe (on_snd m) Q.
Proof.
  intros Hm x s t w Hx Hs. specialize (Hm s t w Hs). unfold on_snd. cbn [fst snd].
  destruct (m _) as [a [[s1 t1] w1]|[[s1 t1] w1]| |]; try done; tauto.
Qed.

Lemma cx_rand n : cx_safe (on_snd (on_snd (crypto_rand_bytes n))) (fun bs => length bs = n).
Proof.
  intros x s t w Hx Hs. split; [by apply conn_kept_refl|]. split_and!; try done.
  by rewrite length_map, length_seq.
Qed.

Lemma cx_take_query w max_len :
  counts w -> zlen (w_data w) < 2 ^ 64 ->
  cx_safe (take_query w max_len) (fun q => q = w_data w /\ zlen q <= max_len).
Proof.
  intros Hc Hz. unfold take_query. rewrite (counts_len w _ Hc eq_refl Hz).
  destruct (Z.ltb_spec max_len (zlen (w_data w))); [apply cx_fail|by apply cx_ret].
Qed.

Lemma cx_copy_query w max_len :
  counts w -> zlen (w_data w) <= max_len -> max_len < 2 ^ 64 ->
  cx_safe (copy_query w max_len) (fun q => q = w_data w /\ zlen q <= max_len).
Proof.
  intros Hc Hz Hm x s t v Hx Hs. rewrite (copy_query_at w _ max_len) by (done || lia).
  split; [by apply conn_kept_refl|]. by split_and!.
Qed.

Lemma cx_check_top (on_error : RpcError -> X -> X) expected resp :
  (forall e x, I x -> I (on_error e x)) ->
  cx_safe (check_top on_error expected resp) (fun _ => 4 <= zlen resp /\ expected (first_word resp) = true).
Proof.
  intros He. unfold check_top. destruct (Z.ltb_spec (zlen resp) 4); [apply cx_fail|].
  destruct (first_word resp =? TL_rpc_error).
  - destruct (rpc_parse_error resp); [|apply cx_fail].
    eapply cx_bind; [apply cx_upd; auto|]. intros _ _. apply cx_fail.
  - destruct (expected (first_word resp)) eqn:E; [by apply cx_ret|apply cx_fail].
Qed.

Lemma cx_call `{C : Crypto} {HC : CryptoLaws C} tinf cfg query max_len :
  tinf_fits tinf -> 0 <= max_len -> zlen (wrapped_bytes cfg query) + 59 <= RPC_BUF_SIZE ->
  cx_safe (call_api tinf cfg query max_len) (fun resp => zlen resp <= max_len).
Proof. intros Hf Hm Hz. by apply cx_on_conn, api_call_safe. Qed.

Lemma cx_parser {A} buf (m : Px X A) Q :
  zlen buf <= SIZE_LIM -> px_safe I m Q -> cx_safe (with_parser buf m) Q.
Proof.
  intros Hz Hm x s t w Hx Hs. unfold with_parser. cbn [fst snd]. pose proof (zlen_nonneg buf).
  specialize (Hm (tl_reader_init buf (zlen buf)) x ltac:(apply reader_init_wf; lia) Hx).
  destruct (m _) as [a [r' x']|[r' x']| |]; try done.
  - destruct Hm as (_ & ? & ?). by split; [apply conn_kept_refl|].
  - destruct Hm as (_ & ?). by split; [apply conn_kept_refl|].
Qed.

(** The header that [api_wrap_query] puts in front of a query is short. *)
Definition cfg_small (cfg : ApiConfig) : Prop := zlen (wrapped_bytes cfg []) <= 65536.

Lemma wrapped_len cfg query : zlen (wrapped_bytes cfg query) = zlen (wrapped_bytes cfg []) + zlen query.
Proof. unfold wrapped_bytes. rewrite !zlen_app. pose proof (@zlen_nil byte). lia. Qed.

(** A query, the call, and the check of the first word. *)
Lemma cx_exchange `{C : Crypto} {HC : CryptoLaws C} {A} tinf cfg w qmax rmax on_error expected
    (k : list byte -> Cx X A) Q :
  cfg_small cfg -> tinf_fits tinf -> counts w -> zlen (w_data w) < 2 ^ 64 -> qmax <= 900000 ->
  0 <= rmax -> (forall e x, I x -> I (on_error e x)) ->
  (forall resp, 4 <= zlen resp <= rmax -> expected (first_word resp) = true -> cx_safe (k resp) Q) ->
  cx_safe (query ← take_query w qmax;
           resp ← call_api tinf cfg query rmax;
           check_top on_error expected resp ;; k resp) Q.
Proof.
  intros Hcfg Hf Hc Hz Hq Hr He Hk. eapply cx_bind; [by apply cx_take_query|]. intros q [_ Hql].
  eapply cx_bind; [apply cx_call; try done|].
  { rewrite wrapped_len. unfold cfg_small, RPC_BUF_SIZE in *. lia. }
  intros resp Hresp. cbn beta in Hresp. eapply cx_bind; [by apply cx_check_top|].
  intros _ [H4 Hx]. by apply Hk.
Qed.

End Cx.

(** Decompose a parser along its syntax. *)
Ltac px_step :=
  lazymatch goal with
  | |- forall _, any_result _ -> _ => intros ? _
  | |- forall _, _ => intros
  | |- px_safe _ (_ ≫= _) _ => eapply px_bind
  | |- px_safe _ (mret _) _ => apply px_ret; done
  | |- px_safe _ fail _ => apply px_fail
  | |- px_safe _ (when _ _) _ => apply px_when
  | |- px_safe _ (lift _) _ => apply px_lift; solve [safe_tac]
  | |- px_safe _ (for_n _ _) _ => apply px_for_n
  | |- px_safe _ (if _ then _ else _) _ => apply px_if
  | |- px_safe _ (match ?x with _ => _ end) _ => destruct x eqn:?
  | |- px_safe _ (set_ctx _) _ => apply px_set
  | |- px_safe _ (check_ctx _) _ => apply px_check
  end.
Ltac px_tac := repeat px_step.

(** Decompose a function along its syntax; queries, calls and parsers are
    left. *)
Ltac cx_step :=
  lazymatch goal with
  | |- forall _, any_result _ -> _ => intros ? _
  | |- forall _, _ => intros
  | |- cx_safe _ (_ ≫= _) _ => eapply cx_bind
  | |- cx_safe _ (mret _) _ => apply cx_ret
  | |- cx_safe _ fail _ => apply cx_fail
  | |- cx_safe _ (when _ _) _ => apply cx_when
  | |- cx_safe _ get_fst _ => apply cx_get
  | |- cx_safe _ (if _ then _ else _) _ => apply cx_if
  | |- cx_safe _ (match ?x with _ => _ end) _ => destruct x eqn:?
  | |- cx_safe _ (upd_ctx _) _ => apply cx_upd
  | |- cx_safe _ (check_top _ _ _) _ => apply cx_check_top
  | |- cx_safe _ (with_parser _ _) _ => apply cx_parser
  end.

Ltac cx_tac := repeat cx_step.

(** ** Runs that succeed *)

Lemma call_api_inv `{C : Crypto} {X} tinf cfg query max_len (x : X) st resp y st' :
  call_api tinf cfg query max_len (x, st) = Done resp (y, st') ->
  y = x /\ api_call tinf cfg query max_len st = Done resp st'.
Proof.
  unfold call_api, on_snd. cbn [fst snd].
  destruct (api_call tinf cfg query max_len st); try done. by intros [= -> -> ->].
Qed.

Lemma check_top_inv {X W} on_error expected resp (st st' : X * W) :
  check_top on_error expected resp st = Done tt st' -> st' = st.
Proof.
  unfold check_top. destruct (zlen resp <? 4); [done|]. cbn zeta.
  destruct (_ =? _); [by destruct (rpc_parse_error resp)|]. destruct (expected _); by inversion 1.
Qed.

Lemma take_query_inv {S} w max_len (st st' : S) q :
  take_query w max_len st = Done q st' -> st' = st /\ q = w_data w.
Proof. unfold take_query. destruct (max_len <? w_len w); [done|]. by intros [= <- <-]. Qed.
