(* ===== verification/BigNum.v ===== *)
(** * Big numbers (src/core/crypto.c, Big Number Arithmetic)

    The byte-string interface of OpenSSL's BIGNUM functions as the Diffie-
    Hellman and SRP code uses it: operands and results are big-endian,
    results are padded to the width of the modulus.  OpenSSL itself is the
    class [BigNum]; [BigNumLaws] states its documentation, and
    [bignum_Z] shows that the laws can hold. *)

From S2P Require Import Prelude.

(** ** Big-endian byte strings *)

(** The number a byte string stands for, most significant byte first. *)
Definition be_combine (bs : list byte) : Z := le_combine (rev bs).

(** A number below [256 ^ n] in exactly [n] bytes. *)
Definition be_split (n : nat) (v : Z) : list byte := rev (le_split n v).

Lemma le_combine_app a b : le_combine (a ++ b) = le_combine a + 2 ^ (8 * zlen a) * le_combine b.
Proof.
  rewrite le_combine_app, Z.shiftl_mul_pow2 by lia.
  rewrite Z.lor_comm, lor_disjoint; [unfold zlen|lia|].
  - rewrite (Z.mul_comm 8). lia.
  - pose proof (le_combine_bound a). unfold zlen in *. rewrite Z.mul_comm. lia.
Qed.

Lemma be_combine_range bs : 0 <= be_combine bs < 2 ^ (8 * zlen bs).
Proof. unfold be_combine. pose proof (le_combine_bound (rev bs)). unfold zlen. by rewrite <- length_rev. Qed.

Lemma be_combine_app a b : be_combine (a ++ b) = be_combine a * 2 ^ (8 * zlen b) + be_combine b.
Proof.
  unfold be_combine. rewrite rev_app_distr, le_combine_app. unfold zlen. rewrite length_rev. lia.
Qed.

Lemma be_combine_1 x : be_combine [x] = byte.unsigned x.
Proof.
  change (be_combine [x]) with (le_combine [x]). unfold le_combine.
  by rewrite Z.shiftl_0_l, Z.lor_0_r.
Qed.

Lemma be_combine_cons x b : be_combine (x :: b) = byte.unsigned x * 2 ^ (8 * zlen b) + be_combine b.
Proof. change (x :: b) with ([x] ++ b). by rewrite be_combine_app, be_combine_1. Qed.

Lemma be_combine_snoc b x : be_combine (b ++ [x]) = be_combine b * 256 + byte.unsigned x.
Proof. by rewrite be_combine_app, be_combine_1. Qed.

Lemma be_combine_zeros n : be_combine (replicate n Byte.x00) = 0.
Proof.
  induction n as [|n IH]; [done|]. cbn [replicate]. rewrite be_combine_cons, IH.
  change (byte.unsigned Byte.x00) with 0. lia.
Qed.

Lemma be_combine_pad n bs : be_combine (replicate n Byte.x00 ++ bs) = be_combine bs.
Proof. rewrite be_combine_app, be_combine_zeros. lia. Qed.

Lemma be_split_len n v : zlen (be_split n v) = Z.of_nat n.
Proof. unfold be_split, zlen. by rewrite length_rev, length_le_split. Qed.

Lemma be_combine_split n v : 0 <= v < 2 ^ (8 * Z.of_nat n) -> be_combine (be_split n v) = v.
Proof.
  intros H. unfold be_combine, be_split. rewrite rev_involutive. apply le_split_range.
  by rewrite Z.mul_comm.
Qed.

Lemma be_split_combine bs : be_split (length bs) (be_combine bs) = bs.
Proof.
  unfold be_split, be_combine. rewrite <- (length_rev bs), split_le_combine. apply rev_involutive.
Qed.

(** Two strings of one length with the same value are the same. *)
Lemma be_combine_inj a b : length a = length b -> be_combine a = be_combine b -> a = b.
Proof. intros Hl Hv. by rewrite <- (be_split_combine a), <- (be_split_combine b), Hl, Hv. Qed.

(** ** OpenSSL's BIGNUM *)

(** Allocation does not fail.  An operation that returns something else than
    1 is [None]. *)
Class BigNum := {
  BN : Type;
  BN_bin2bn : list byte -> BN;
  (** [BN_num_bytes] bytes *)
  BN_bn2bin : BN -> list byte;
  BN_mod_exp : BN -> BN -> BN -> option BN;
  BN_mod_mul : BN -> BN -> BN -> option BN;
  BN_mod_add : BN -> BN -> BN -> option BN;
  BN_mod_sub : BN -> BN -> BN -> option BN;
  BN_ucmp : BN -> BN -> Z;
}.

(** The value of a number is what its bytes stand for. *)
Definition BN_val `{B : BigNum} (x : BN) : Z := be_combine (BN_bn2bin x).

(** A binary operation computes [f] of the values modulo the third. *)
Definition computes_mod `{B : BigNum} (op : BN -> BN -> BN -> option BN) (f : Z -> Z -> Z) : Prop :=
  forall a b m, 0 < BN_val m ->
    exists r, op a b m = Some r /\ BN_val r = f (BN_val a) (BN_val b) mod BN_val m.

Class BigNumLaws (B : BigNum) : Prop := {
  bin2bn_val bs : BN_val (BN_bin2bn bs) = be_combine bs;
  (** [BN_num_bytes] counts significant bytes *)
  bn2bin_minimal x : 2 ^ (8 * (zlen (BN_bn2bin x) - 1)) <= BN_val x \/ BN_bn2bin x = [];
  mod_exp_val : computes_mod BN_mod_exp Z.pow;
  (** division by zero is an error *)
  mod_exp_zero a e m : BN_val e <> 0 -> BN_val m = 0 -> BN_mod_exp a e m = None;
  mod_mul_val : computes_mod BN_mod_mul Z.mul;
  mod_add_val : computes_mod BN_mod_add Z.add;
  mod_sub_val : computes_mod BN_mod_sub Z.sub;
  ucmp_val a b : BN_ucmp a b = match BN_val a ?= BN_val b with Lt => -1 | Eq => 0 | Gt => 1 end;
}.

Section Wrappers.
Context `{B : BigNum} {S : Type}.

(** The result written into a buffer of [res_len] bytes, padded on the left
    to [mod_len] bytes, which is also the length returned.  A modulus longer
    than the buffer, or a result longer than the modulus, writes outside. *)
Definition bn_op_finalize (bn_res : BN) (res_len mod_len : Z) : M S (list byte) :=
  let bytes := BN_bn2bin bn_res in
  let actual := zlen bytes in
  if res_len <? actual then fail
  else fun s =>
    if (res_len <? mod_len) || (mod_len <? actual) then Fault
    else Done (replicate (Z.to_nat (mod_len - actual)) Byte.x00 ++ bytes) s.

Definition bn_mod_op (op : BN -> BN -> BN -> option BN) (res_len : Z) (a b m : list byte)
    : M S (list byte) :=
  match op (BN_bin2bn a) (BN_bin2bn b) (BN_bin2bn m) with
  | None => fail
  | Some r => bn_op_finalize r res_len (zlen m)
  end.

Definition crypto_bn_mod_exp (res_len : Z) (base exp md : list byte) : M S (list byte) :=
  match BN_mod_exp (BN_bin2bn base) (BN_bin2bn exp) (BN_bin2bn md) with
  | None => fail
  | Some bn_res => bn_op_finalize bn_res res_len (zlen md)
  end.

Definition crypto_bn_mod_mul := bn_mod_op BN_mod_mul.
Definition crypto_bn_mod_add := bn_mod_op BN_mod_add.
Definition crypto_bn_mod_sub := bn_mod_op BN_mod_sub.

Definition crypto_bn_ucmp (a b : list byte) : Z :=
  let r := BN_ucmp (BN_bin2bn a) (BN_bin2bn b) in
  if r <? 0 then -1 else if 0 <? r then 1 else 0.

(** ** What the wrappers return *)

Context {HB : BigNumLaws B}.

(** A value below the modulus fits the modulus' width. *)
Lemma bn2bin_fits x n : 0 <= n -> BN_val x < 2 ^ (8 * n) -> zlen (BN_bn2bin x) <= n.
Proof.
  intros Hn Hv. destruct (bn2bin_minimal x) as [Hm| ->]; [|by rewrite zlen_nil].
  destruct (Z.le_gt_cases (zlen (BN_bn2bin x)) n) as [|Hgt]; [done|exfalso].
  pose proof (Z.pow_le_mono_r 2 (8 * n) (8 * (zlen (BN_bn2bin x) - 1))). lia.
Qed.

Lemma finalize_at r res_len m s :
  BN_val r < be_combine m -> zlen m <= res_len ->
  bn_op_finalize r res_len (zlen m) s = Done (be_split (length m) (BN_val r)) s.
Proof.
  intros Hr Hm. pose proof (be_combine_range m) as Hmr. pose proof (zlen_nonneg m).
  assert (Hf : zlen (BN_bn2bin r) <= zlen m) by (apply bn2bin_fits; lia).
  unfold bn_op_finalize. rewrite (proj2 (Z.ltb_ge _ _)) by lia.
  rewrite !(proj2 (Z.ltb_ge _ _)) by lia. cbn [orb]. f_equal.
  unfold zlen in *. pose proof (zlen_nonneg (BN_bn2bin r)). unfold zlen in *.
  apply be_combine_inj.
  - rewrite length_app, length_replicate. pose proof (be_split_len (length m) (BN_val r)).
    unfold zlen in *. lia.
  - rewrite be_combine_pad, be_combine_split; [done|].
    pose proof (be_combine_range (BN_bn2bin r)). unfold BN_val in *. lia.
Qed.

Lemma mod_op_at op f res_len a b m s :
  computes_mod op f -> 0 < be_combine m -> zlen m <= res_len ->
  bn_mod_op op res_len a b m s =
    Done (be_split (length m) (f (be_combine a) (be_combine b) mod be_combine m)) s.
Proof.
  intros Hop Hm Hl. unfold bn_mod_op.
  destruct (Hop (BN_bin2bn a) (BN_bin2bn b) (BN_bin2bn m)) as (r & -> & Hr).
  { by rewrite bin2bn_val. }
  rewrite !bin2bn_val in Hr. rewrite finalize_at; [by rewrite Hr| |done].
  rewrite Hr. apply Z.mod_pos_bound. lia.
Qed.

Lemma mod_exp_at res_len base exp md s :
  0 < be_combine md -> zlen md <= res_len ->
  crypto_bn_mod_exp res_len base exp md s =
    Done (be_split (length md) (be_combine base ^ be_combine exp mod be_combine md)) s.
Proof. apply (mod_op_at BN_mod_exp Z.pow). apply mod_exp_val. Qed.

(** A modular power never leaves a buffer that is as large as the modulus. *)
Lemma mod_exp_cases res_len base exp md s :
  be_combine exp <> 0 -> zlen md <= res_len ->
  crypto_bn_mod_exp res_len base exp md s = Fail s \/
  exists out, crypto_bn_mod_exp res_len base exp md s = Done out s /\ length out = length md.
Proof.
  intros He Hl. pose proof (be_combine_range md) as Hm.
  destruct (Z.eq_dec (be_combine md) 0) as [Hz|Hz].
  - left. unfold crypto_bn_mod_exp. by rewrite mod_exp_zero by (by rewrite bin2bn_val).
  - right. rewrite mod_exp_at by lia. eexists. split; [done|].
    unfold be_split. by rewrite length_rev, length_le_split.
Qed.

Lemma crypto_bn_ucmp_at a b :
  crypto_bn_ucmp a b = match be_combine a ?= be_combine b with Lt => -1 | Eq => 0 | Gt => 1 end.
Proof.
  unfold crypto_bn_ucmp. rewrite ucmp_val, !bin2bn_val. by destruct (_ ?= _).
Qed.

End Wrappers.

(** ** The laws can hold: numbers of the Standard Library *)

(** Square and multiply. *)
Fixpoint pow_mod_pos (a : Z) (e : positive) (m : Z) : Z :=
  match e with
  | xH => a mod m
  | xO e => let r := pow_mod_pos a e m in r * r mod m
  | xI e => let r := pow_mod_pos a e m in r * r mod m * a mod m
  end.

Definition pow_mod (a e m : Z) : Z :=
  match e with Zpos p => pow_mod_pos a p m | Z0 => 1 mod m | Zneg _ => 0 end.

Lemma pow_mod_pos_correct a e m : m <> 0 -> pow_mod_pos a e m = a ^ Zpos e mod m.
Proof.
  intros Hm. induction e as [e IH|e IH|]; cbn [pow_mod_pos].
  - rewrite IH, Pos2Z.inj_xI, Z.pow_add_r, Z.pow_mul_r, Z.pow_1_r by lia.
    rewrite <- Z.mul_mod, Z.mul_mod_idemp_l by lia. do 2 f_equal.
    rewrite <- Z.pow_mul_r by lia. replace (2 * Zpos e) with (Zpos e + Zpos e) by lia.
    by rewrite Z.pow_add_r by lia.
  - rewrite IH, Pos2Z.inj_xO. replace (2 * Zpos e) with (Zpos e + Zpos e) by lia.
    by rewrite Z.pow_add_r, <- Z.mul_mod by lia.
  - by rewrite Z.pow_1_r.
Qed.

Lemma pow_mod_correct a e m : 0 <= e -> m <> 0 -> pow_mod a e m = a ^ e mod m.
Proof. intros He Hm. destruct e as [|p|p]; [done| |lia]. by apply pow_mod_pos_correct. Qed.

Definition num_bytes (x : N) : nat :=
  if (x =? 0)%N then O else Z.to_nat (Z.log2 (Z.of_N x) / 8 + 1).

Definition op_mod (f : Z -> Z -> Z -> Z) (a b m : N) : option N :=
  if (m =? 0)%N then None else Some (Z.to_N (f (Z.of_N a) (Z.of_N b) (Z.of_N m))).

Definition bignum_Z : BigNum := {|
  BN := N;
  BN_bin2bn bs := Z.to_N (be_combine bs);
  BN_bn2bin x := be_split (num_bytes x) (Z.of_N x);
  BN_mod_exp := op_mod pow_mod;
  BN_mod_mul := op_mod (fun a b m => a * b mod m);
  BN_mod_add := op_mod (fun a b m => (a + b) mod m);
  BN_mod_sub := op_mod (fun a b m => (a - b) mod m);
  BN_ucmp a b := match (a ?= b)%N with Lt => -1 | Eq => 0 | Gt => 1 end;
|}.

Lemma num_bytes_bounds x : x <> 0%N ->
  2 ^ (8 * (Z.of_nat (num_bytes x) - 1)) <= Z.of_N x < 2 ^ (8 * Z.of_nat (num_bytes x)).
Proof.
  intros Hx. unfold num_bytes. rewrite (proj2 (N.eqb_neq _ _) Hx).
  set (v := Z.of_N x). assert (Hv : 0 < v) by lia.
  pose proof (Z.log2_nonneg v) as Hl. pose proof (Z.log2_spec v Hv) as [Hlo Hhi].
  pose proof (Z.div_mod (Z.log2 v) 8). pose proof (Z.mod_pos_bound (Z.log2 v) 8).
  rewrite Z2Nat.id by lia. split.
  - etransitivity; [|exact Hlo]. apply Z.pow_le_mono_r; lia.
  - eapply Z.lt_le_trans; [exact Hhi|]. apply Z.pow_le_mono_r; lia.
Qed.

Lemma bignum_Z_val (x : N) : BN_val (B := bignum_Z) x = Z.of_N x.
Proof.
  unfold BN_val. cbn. destruct (N.eq_dec x 0) as [->|Hx]; [done|].
  apply be_combine_split. pose proof (num_bytes_bounds x Hx). lia.
Qed.

Lemma op_mod_computes f g :
  (forall a b m, 0 <= b -> 0 < m -> f a b m = g a b mod m) ->
  computes_mod (B := bignum_Z) (op_mod f) g.
Proof.
  intros Hf a b m. rewrite !bignum_Z_val. intros Hm. unfold op_mod.
  rewrite (proj2 (N.eqb_neq _ _)) by lia. eexists. split; [done|].
  rewrite bignum_Z_val, Hf by lia. apply Z2N.id. by apply Z.mod_pos_bound.
Qed.

#[global] Instance bignum_Z_laws : BigNumLaws bignum_Z.
Proof.
  split.
  - intros bs. rewrite bignum_Z_val. cbn. pose proof (be_combine_range bs). lia.
  - intros x. rewrite bignum_Z_val. cbn. rewrite be_split_len.
    destruct (N.eq_dec x 0) as [->|Hx]; [by right|left]. by apply num_bytes_bounds.
  - apply op_mod_computes. intros. by apply pow_mod_correct; lia.
  - intros a e m _. rewrite bignum_Z_val. cbn. unfold op_mod. intros Hm.
    by rewrite (proj2 (N.eqb_eq m 0)) by lia.
  - by apply op_mod_computes.
  - by apply op_mod_computes.
  - by apply op_mod_computes.
  - intros a b. rewrite !bignum_Z_val. cbn. by rewrite N2Z.inj_compare.
Qed.
