(* ===== verification/ServerKey.v ===== *)
(** * The server's RSA key (src/core/telegram_server_key.c, RSA in src/core/crypto.c)

    The key of config.ini: its PEM text and its fingerprint, which the code
    computes by its own TL encoding of the two numbers of the key.  OpenSSL's
    RSA functions are the class [Rsa]. *)

From Stdlib Require Import String.
From S2P Require Import Prelude TlSerial World MtprotoCrypto BigNum.

(** ** OpenSSL's RSA keys *)

Class Rsa `{B : BigNum} := {
  RsaKey : Type;
  (** the PEM decoder on a C string, [None] when it finds no public RSA key *)
  rsa_public_pkey_from_pem : list byte -> option RsaKey;
  (** [EVP_PKEY_get_bn_param] for the modulus and the exponent *)
  pkey_n : RsaKey -> option BN;
  pkey_e : RsaKey -> option BN;
  (** [EVP_PKEY_get_size] *)
  pkey_size : RsaKey -> Z;
  (** [EVP_PKEY_encrypt] without padding *)
  pkey_encrypt : RsaKey -> list byte -> option (list byte);
}.

(** Without padding the input must be, and the output is, as long as the
    modulus. *)
Class RsaLaws `{B : BigNum} (R : Rsa) : Prop := {
  pkey_encrypt_len k d c : pkey_encrypt k d = Some c -> zlen d = pkey_size k /\ zlen c = pkey_size k;
}.

Section ServerKey.
Context `{C : Crypto} `{R : Rsa}.

Definition crypto_rsa_load_public (pem : option (list byte)) : option RsaKey :=
  pem ≫= rsa_public_pkey_from_pem.

(** The bytes written to [out], whose number is returned. *)
Definition crypto_rsa_public_encrypt (key : RsaKey) (data : list byte) : option (list byte) :=
  if pkey_size key <=? 0 then None else pkey_encrypt key data.

(** ** Fingerprint *)

(** The TL encoding of a number, written by hand into a zeroed block. *)
Definition key_block (bytes : list byte) : list byte :=
  let len := zlen bytes in
  let hdr := if len <? 254 then 1 else 4 in
  let block := Z.land (hdr + len + 3) (Z.lnot 3) in
  let head :=
    if len <? 254 then [byte.of_Z len]
    else [byte.of_Z 0xFE; byte.of_Z (Z.land len 0xFF);
          byte.of_Z (Z.land (Z.shiftr len 8) 0xFF); byte.of_Z (Z.land (Z.shiftr len 16) 0xFF)] in
  head ++ bytes ++ replicate (Z.to_nat (block - (hdr + len))) Byte.x00.

(** [fp |= (uint64_t)sha1_out[12 + i] << (8 * i)] for [i] below 8. *)
Definition fp_word (sha1_out : list byte) : Z :=
  fold_left (fun fp i => Z.lor fp (Z.shiftl (byte.unsigned (nth (12 + i) sha1_out Byte.x00))
                                            (8 * Z.of_nat i)))
            (seq 0 8) 0.

(** [None] is the return value [-1]. *)
Definition crypto_rsa_fingerprint (pem : list byte) : option Z :=
  pkey ← rsa_public_pkey_from_pem pem;
  n ← pkey_n pkey;
  e ← pkey_e pkey;
  let n_bytes := BN_bn2bin n in
  let e_bytes := BN_bn2bin e in
  if (zlen n_bytes <=? 0) || (zlen e_bytes <=? 0) then None
  else Some (fp_word (crypto_sha1 (key_block n_bytes ++ key_block e_bytes))).

(** ** The key store *)

Record ServerKeyState := mkServerKey { g_pem : option (list byte); g_fingerprint : Z }.

(** Backslash and [n] become a newline. *)
Fixpoint expand_newlines (src : list byte) : list byte :=
  match src with
  | c :: (d :: rest) as tl =>
      if Byte.eqb c "\" && Byte.eqb d "n" then byte.of_Z 10 :: expand_newlines rest
      else c :: expand_newlines tl
  | _ => src
  end.

Definition telegram_server_key_get_pem (st : ServerKeyState) : option (list byte) := g_pem st.
Definition telegram_server_key_get_fingerprint (st : ServerKeyState) : Z := g_fingerprint st.

Definition telegram_server_key_set_override (pem : option (list byte)) : M ServerKeyState unit :=
  match pem with
  | None => fun _ => Done tt (mkServerKey None 0)
  | Some pem =>
      let expanded := expand_newlines pem in
      match crypto_rsa_fingerprint expanded with
      | None => fail
      | Some fp => fun _ => Done tt (mkServerKey (Some expanded) fp)
      end
  end.

(** ** Correctness *)

(** A stored key can be loaded, and the stored fingerprint is its own. *)
Definition key_inv (st : ServerKeyState) : Prop :=
  match g_pem st with
  | None => g_fingerprint st = 0
  | Some pem => crypto_rsa_fingerprint pem = Some (g_fingerprint st)
  end.

Lemma loads_with_fingerprint pem fp :
  crypto_rsa_fingerprint pem = Some fp -> is_Some (crypto_rsa_load_public (Some pem)).
Proof.
  unfold crypto_rsa_fingerprint, crypto_rsa_load_public. cbn.
  destruct (rsa_public_pkey_from_pem pem); [done|discriminate].
Qed.

(** The hand-written block is what [tl_write_bytes] writes. *)
Lemma key_block_enc bytes : key_block bytes = enc_bytes bytes.
Proof.
  unfold key_block, enc_bytes, padding, bytes_prefix. pose proof (zlen_nonneg bytes).
  rewrite !byte_land_ff.
  assert (Hpad : forall h, Z.land (h + zlen bytes + 3) (Z.lnot 3) - (h + zlen bytes)
                 = (4 - (h + zlen bytes) mod 4) mod 4).
  { intros h. rewrite (land_lnot_ones _ 2) by lia. Z.div_mod_to_equations. lia. }
  destruct (_ <? _) eqn:E; rewrite Hpad; done.
Qed.

Lemma fp_word_slice d : length d = 20%nat -> fp_word d = le_combine (slice 12 8 d).
Proof.
  intros Hd. do 21 (destruct d as [|? d]; try done).
  unfold fp_word, slice, le_combine.
  cbn [fold_left seq nth Nat.add take drop Z.of_nat Pos.of_succ_nat Pos.succ Z.mul Pos.mul Pos.add].
  rewrite !Z.shiftl_lor, !Z.shiftl_shiftl, !Z.lor_assoc, Z.shiftl_0_l, Z.lor_0_r, Z.lor_0_l by lia.
  done.
Qed.

End ServerKey.
