(* ===== verification/PqFactor.v ===== *)
(** * Factorization of the server's pq (src/infrastructure/mtproto_auth.c)

    [pq_factorize]: Pollard's rho with Euclid's algorithm on 64-bit words.
    Euclid's loop ends within [GCD_FUEL] rounds and computes the greatest
    common divisor; the rho loop is cut after a million rounds by the code. *)

From Stdlib Require Import Znumtheory.
From S2P Require Import Prelude.

(** ** The loops *)

Definition u128 (z : Z) : Z := z mod 2 ^ 128.

(** [while (b != 0) { t = b; b = a % b; a = t; }], then [a]. *)
Fixpoint gcd_loop (fuel : nat) (a b : Z) : option Z :=
  match fuel with
  | O => None
  | S fuel => if b =? 0 then Some a else gcd_loop fuel b (a mod b)
  end.

Definition GCD_FUEL : nat := 130.

(** [(uint64_t)(((__uint128_t)x * x + c) % pq)] *)
Definition rho_step (pq c x : Z) : Z := u64 (u128 (u128 (x * x) + c) mod pq).

(** The value of [d] behind the loop [while (d == 1 && steps < 1000000)];
    [fuel] is the number of rounds left. *)
Fixpoint rho_loop (fuel : nat) (pq c x y : Z) : option Z :=
  match fuel with
  | O => Some 1
  | S fuel =>
      let x := rho_step pq c x in
      let y := rho_step pq c y in
      let y := rho_step pq c y in
      let a := if y <? x then x - y else y - x in
      if a =? 0 then Some 1
      else
        match gcd_loop GCD_FUEL a pq with
        | None => None
        | Some d => if d =? 1 then rho_loop fuel pq c x y else Some d
        end
  end.

Definition RHO_STEPS : nat := Z.to_nat 1000000.
Definition UINT32_MAX : Z := 2 ^ 32 - 1.

Section Factor.
Context {St : Type}.

(** [for (c = ...; c < 20; c++)], [n] rounds. *)
Fixpoint try_c (n : nat) (pq c : Z) : M St (Z * Z) :=
  match n with
  | O => fail
  | S n =>
      match rho_loop RHO_STEPS pq c 2 2 with
      | None => no_fuel
      | Some d =>
          if negb (d =? 1) && negb (d =? pq) then
            let p := d in
            let q := pq / d in
            let '(p, q) := if q <? p then (q, p) else (p, q) in
            if (UINT32_MAX <? p) || (UINT32_MAX <? q) then fail else mret (p, q)
          else try_c n pq (c + 1)
      end
  end.

(** The factors, or [fail] for [-1]. *)
Definition pq_factorize (pq : Z) : M St (Z * Z) :=
  if pq <? 2 then fail
  else if pq mod 2 =? 0 then
    let p := 2 in
    let q := u32 (pq / 2) in
    mret (if q <? p then (q, p) else (p, q))
  else try_c 19 pq 1.

End Factor.

(** ** Euclid's algorithm *)

Lemma mod_halves a b : 0 < b <= a -> 2 * (a mod b) <= a.
Proof.
  intros H. pose proof (Z.div_mod a b). pose proof (Z.mod_pos_bound a b).
  assert (1 <= a / b) by (apply Z.div_le_lower_bound; lia). nia.
Qed.

Lemma gcd_loop_S n a b : gcd_loop (S n) a b = if b =? 0 then Some a else gcd_loop n b (a mod b).
Proof. done. Qed.

Lemma gcd_loop_ordered n a b :
  0 <= b <= a -> a * b < 2 ^ Z.of_nat n -> gcd_loop (S n) a b = Some (Z.gcd a b).
Proof.
  revert a b. induction n as [|n IH]; intros a b Hab Hm; rewrite gcd_loop_S;
    destruct (Z.eqb_spec b 0) as [->|Hb].
  1, 3: by rewrite Z.gcd_0_r, Z.abs_eq by lia.
  - cbn in Hm. nia.
  - pose proof (Z.mod_pos_bound a b). pose proof (mod_halves a b).
    rewrite IH; [|lia|].
    + f_equal. rewrite Z.gcd_comm, Z.gcd_mod by lia. apply Z.gcd_comm.
    + rewrite Nat2Z.inj_succ, Z.pow_succ_r in Hm by lia. nia.
Qed.

(** Two 64-bit words need at most 130 rounds. *)
Lemma gcd_loop_correct a b : is_u64 a -> is_u64 b -> gcd_loop GCD_FUEL a b = Some (Z.gcd a b).
Proof.
  unfold is_u64, GCD_FUEL. intros Ha Hb.
  assert (Hm : forall x y, 0 <= x < 2 ^ 64 -> 0 <= y < 2 ^ 64 -> x * y < 2 ^ Z.of_nat 128).
  { intros x y Hx Hy. change (2 ^ Z.of_nat 128) with (2 ^ 64 * 2 ^ 64). nia. }
  rewrite gcd_loop_S. destruct (Z.eqb_spec b 0) as [->|Hb0].
  { by rewrite Z.gcd_0_r, Z.abs_eq by lia. }
  pose proof (Z.mod_pos_bound a b).
  rewrite gcd_loop_ordered; [|lia|apply Hm; lia].
  f_equal. rewrite Z.gcd_comm, Z.gcd_mod by lia. apply Z.gcd_comm.
Qed.

(** ** The rho loop *)

(** The 128-bit product does not wrap, so a step is the polynomial modulo pq. *)
Lemma rho_step_correct pq c x :
  0 < pq < 2 ^ 64 -> 0 <= c < 20 -> is_u64 x -> rho_step pq c x = (x * x + c) mod pq.
Proof.
  unfold is_u64, rho_step. intros Hpq Hc Hx.
  assert (H2 : 2 ^ 128 = 2 ^ 64 * 2 ^ 64) by done.
  unfold u128. rewrite (Z.mod_small (x * x)) by nia.
  rewrite (Z.mod_small (x * x + c)) by nia.
  pose proof (Z.mod_pos_bound (x * x + c) pq). apply u64_id. unfold is_u64. lia.
Qed.

Lemma rho_step_range pq c x : 0 < pq < 2 ^ 64 -> 0 <= rho_step pq c x < pq.
Proof.
  intros H. unfold rho_step.
  pose proof (Z.mod_pos_bound (u128 (u128 (x * x) + c)) pq).
  rewrite u64_id by (unfold is_u64; lia). lia.
Qed.

(** The loop ends, and its [d] divides pq. *)
Lemma rho_loop_divides fuel pq c x y :
  0 < pq < 2 ^ 64 -> exists d, rho_loop fuel pq c x y = Some d /\ (d | pq) /\ 0 < d.
Proof.
  intros Hpq. revert x y. induction fuel as [|fuel IH]; intros x y; cbn [rho_loop].
  { exists 1. split_and!; [done|apply Z.divide_1_l|lia]. }
  set (x' := rho_step pq c x). set (y' := rho_step pq c (rho_step pq c y)).
  assert (Hx : 0 <= x' < pq) by by apply rho_step_range.
  assert (Hy : 0 <= y' < pq) by by apply rho_step_range.
  set (a := if y' <? x' then x' - y' else y' - x').
  assert (Ha : 0 <= a < pq) by (subst a; destruct (Z.ltb_spec y' x'); lia).
  destruct (Z.eqb_spec a 0); [exists 1; split_and!; [done|apply Z.divide_1_l|lia]|].
  rewrite gcd_loop_correct by (unfold is_u64; lia).
  destruct (Z.eqb_spec (Z.gcd a pq) 1); [apply IH|].
  eexists. split_and!; [done|apply Z.gcd_divide_r|].
  pose proof (Z.gcd_nonneg a pq). assert (Z.gcd a pq <> 0); [|lia].
  intros H0. apply Z.gcd_eq_0 in H0. lia.
Qed.

(** ** Soundness of the factorization *)

Definition factors (pq : Z) (r : Z * Z) : Prop :=
  fst r * snd r = pq /\ 1 < fst r <= snd r /\ snd r < 2 ^ 32.

Lemma try_c_sound {St} n pq c (s : St) :
  0 < pq < 2 ^ 64 ->
  match try_c n pq c s with
  | Done r s' => factors pq r /\ s' = s
  | Fail s' => s' = s
  | _ => False
  end.
Proof.
  intros Hpq. revert c. induction n as [|n IH]; intros c; cbn [try_c]; [done|].
  destruct (rho_loop_divides RHO_STEPS pq c 2 2 Hpq) as (d & -> & [k Hk] & Hd).
  destruct (Z.eqb_spec d 1), (Z.eqb_spec d pq); cbn [negb andb]; try apply IH.
  assert (Hq : pq / d = k) by (rewrite Hk; by apply Z.div_mul; lia). rewrite Hq.
  assert (k <> 1) by (intros ->; lia). assert (0 < k) by nia. unfold UINT32_MAX.
  destruct (Z.ltb_spec k d);
    (destruct (_ || _) eqn:E; [done|]); bool_prop; cbn; (split; [|done]);
    unfold factors; cbn [fst snd]; split_and!; lia.
Qed.
