(* ===== verification/MtprotoAuth.v ===== *)
(** * Authorization key exchange (src/infrastructure/mtproto_auth.c)

    The four steps of the Diffie-Hellman exchange over unencrypted messages,
    each as a computation on the exchange's context and the connection, and
    their composition [mtproto_auth_key_gen]. *)

From S2P Require Import Prelude TlSerial TlLogic World IgeAes MtprotoCrypto MtprotoSession.
From S2P Require Import Transport MtprotoRpc Request BigNum ServerKey PqFactor.

(** ** Constructors *)

Definition CRC_req_pq_multi : Z := 0xbe7e8ef1.
Definition CRC_resPQ : Z := 0x05162463.
Definition CRC_p_q_inner_data : Z := 0x83c95aec.
Definition CRC_req_DH_params : Z := 0xd712e4be.
Definition CRC_server_DH_params_ok : Z := 0xd0e8075c.
Definition CRC_server_DH_inner_data : Z := 0xb5890dba.
Definition CRC_client_DH_inner_data : Z := 0x6643b654.
Definition CRC_set_client_DH_params : Z := 0xf5045f1f.
Definition CRC_dh_gen_ok : Z := 0x3bcbf734.
Definition CRC_dh_gen_retry : Z := 0x46dc1fb9.
Definition CRC_dh_gen_fail : Z := 0xa69dae02.

Definition MAX_FP_COUNT : Z := 64.

(** ** Context *)

(** [AuthKeyCtx] without its pointers to session and transport, which are
    beside it in the state.  Byte arrays keep their full length; [dh_prime]
    and [g_a] come with the number of bytes in use. *)
Record AuthKeyCtx := mkAuth {
  c_nonce : list byte;
  c_server_nonce : list byte;
  c_new_nonce : list byte;
  c_pq : Z;
  c_p : Z;
  c_q : Z;
  c_dc_id : Z;
  c_g : Z;
  c_dh_prime : list byte;
  c_dh_prime_len : Z;
  c_g_a : list byte;
  c_g_a_len : Z;
  c_server_time : Z;
  c_b : list byte;
  c_tmp_aes_key : list byte;
  c_tmp_aes_iv : list byte;
}.

Definition zeros (n : nat) : list byte := replicate n Byte.x00.

(** [memset(&ctx, 0, sizeof(ctx)); ctx.dc_id = t->dc_id;] *)
Definition auth_ctx_init (dc : Z) : AuthKeyCtx :=
  mkAuth (zeros 16) (zeros 16) (zeros 32) 0 0 0 dc 0 (zeros 256) 0 (zeros 256) 0 0
         (zeros 256) (zeros 32) (zeros 32).

Definition set_nonce v (c : AuthKeyCtx) : AuthKeyCtx :=
  mkAuth v (c_server_nonce c) (c_new_nonce c) (c_pq c) (c_p c) (c_q c) (c_dc_id c) (c_g c)
    (c_dh_prime c) (c_dh_prime_len c) (c_g_a c) (c_g_a_len c) (c_server_time c) (c_b c)
    (c_tmp_aes_key c) (c_tmp_aes_iv c).
Definition set_server_nonce v (c : AuthKeyCtx) : AuthKeyCtx :=
  mkAuth (c_nonce c) v (c_new_nonce c) (c_pq c) (c_p c) (c_q c) (c_dc_id c) (c_g c)
    (c_dh_prime c) (c_dh_prime_len c) (c_g_a c) (c_g_a_len c) (c_server_time c) (c_b c)
    (c_tmp_aes_key c) (c_tmp_aes_iv c).
Definition set_new_nonce v (c : AuthKeyCtx) : AuthKeyCtx :=
  mkAuth (c_nonce c) (c_server_nonce c) v (c_pq c) (c_p c) (c_q c) (c_dc_id c) (c_g c)
    (c_dh_prime c) (c_dh_prime_len c) (c_g_a c) (c_g_a_len c) (c_server_time c) (c_b c)
    (c_tmp_aes_key c) (c_tmp_aes_iv c).
Definition set_pq v (c : AuthKeyCtx) : AuthKeyCtx :=
  mkAuth (c_nonce c) (c_server_nonce c) (c_new_nonce c) v (c_p c) (c_q c) (c_dc_id c) (c_g c)
    (c_dh_prime c) (c_dh_prime_len c) (c_g_a c) (c_g_a_len c) (c_server_time c) (c_b c)
    (c_tmp_aes_key c) (c_tmp_aes_iv c).
Definition set_p_q (v : Z * Z) (c : AuthKeyCtx) : AuthKeyCtx :=
  mkAuth (c_nonce c) (c_server_nonce c) (c_new_nonce c) (c_pq c) (fst v) (snd v) (c_dc_id c) (c_g c)
    (c_dh_prime c) (c_dh_prime_len c) (c_g_a c) (c_g_a_len c) (c_server_time c) (c_b c)
    (c_tmp_aes_key c) (c_tmp_aes_iv c).
Definition set_g v (c : AuthKeyCtx) : AuthKeyCtx :=
  mkAuth (c_nonce c) (c_server_nonce c) (c_new_nonce c) (c_pq c) (c_p c) (c_q c) (c_dc_id c) v
    (c_dh_prime c) (c_dh_prime_len c) (c_g_a c) (c_g_a_len c) (c_server_time c) (c_b c)
    (c_tmp_aes_key c) (c_tmp_aes_iv c).
(** [memcpy] over the front of the array, and the length. *)
Definition set_dh_prime (v : list byte) (c : AuthKeyCtx) : AuthKeyCtx :=
  mkAuth (c_nonce c) (c_server_nonce c) (c_new_nonce c) (c_pq c) (c_p c) (c_q c) (c_dc_id c) (c_g c)
    (v ++ drop (length v) (c_dh_prime c)) (zlen v) (c_g_a c) (c_g_a_len c) (c_server_time c) (c_b c)
    (c_tmp_aes_key c) (c_tmp_aes_iv c).
Definition set_g_a (v : list byte) (c : AuthKeyCtx) : AuthKeyCtx :=
  mkAuth (c_nonce c) (c_server_nonce c) (c_new_nonce c) (c_pq c) (c_p c) (c_q c) (c_dc_id c) (c_g c)
    (c_dh_prime c) (c_dh_prime_len c) (v ++ drop (length v) (c_g_a c)) (zlen v)
    (c_server_time c) (c_b c) (c_tmp_aes_key c) (c_tmp_aes_iv c).
Definition set_server_time v (c : AuthKeyCtx) : AuthKeyCtx :=
  mkAuth (c_nonce c) (c_server_nonce c) (c_new_nonce c) (c_pq c) (c_p c) (c_q c) (c_dc_id c) (c_g c)
    (c_dh_prime c) (c_dh_prime_len c) (c_g_a c) (c_g_a_len c) v (c_b c)
    (c_tmp_aes_key c) (c_tmp_aes_iv c).
Definition set_b v (c : AuthKeyCtx) : AuthKeyCtx :=
  mkAuth (c_nonce c) (c_server_nonce c) (c_new_nonce c) (c_pq c) (c_p c) (c_q c) (c_dc_id c) (c_g c)
    (c_dh_prime c) (c_dh_prime_len c) (c_g_a c) (c_g_a_len c) (c_server_time c) v
    (c_tmp_aes_key c) (c_tmp_aes_iv c).
Definition set_tmp_aes (v : list byte * list byte) (c : AuthKeyCtx) : AuthKeyCtx :=
  mkAuth (c_nonce c) (c_server_nonce c) (c_new_nonce c) (c_pq c) (c_p c) (c_q c) (c_dc_id c) (c_g c)
    (c_dh_prime c) (c_dh_prime_len c) (c_g_a c) (c_g_a_len c) (c_server_time c) (c_b c)
    (fst v) (snd v).

(** The bytes in use. *)
Definition dh_prime (c : AuthKeyCtx) : list byte := take (Z.to_nat (c_dh_prime_len c)) (c_dh_prime c).
Definition g_a (c : AuthKeyCtx) : list byte := take (Z.to_nat (c_g_a_len c)) (c_g_a c).

(** ** Big-endian integers *)

(** Leading zeros are dropped, the last byte stays. *)
Fixpoint strip_zeros (tmp : list byte) : list byte :=
  match tmp with
  | b :: (_ :: _) as rest => if Byte.eqb b Byte.x00 then strip_zeros rest else tmp
  | _ => tmp
  end.

Definition uint64_to_be (val : Z) : list byte := strip_zeros (be_split 8 val).

Definition uint32_to_be (val : Z) : list byte :=
  strip_zeros [byte.of_Z (Z.land (Z.shiftr val 24) 0xFF); byte.of_Z (Z.land (Z.shiftr val 16) 0xFF);
               byte.of_Z (Z.land (Z.shiftr val 8) 0xFF); byte.of_Z (Z.land val 0xFF)].

Definition be_to_uint64 (data : list byte) : Z :=
  fold_left (fun val b => Z.lor (u64 (Z.shiftl val 8)) (byte.unsigned b)) data 0.

(** ** State *)

Abbreviation AM := (M (AuthKeyCtx * (MtProtoSession * Transport * World))).

Definition rand_bytes (n : nat) : AM (list byte) := on_snd (on_snd (crypto_rand_bytes n)).

(** A parser works on its reader and on the context. *)
Abbreviation Pa := (M (TlReader * AuthKeyCtx)).

(** [memcmp(a, b, n) == 0] *)
Definition bytes_eq (a b : list byte) : bool := bool_decide (a = b).

(** Read 16 bytes and compare them with a nonce of the context. *)
Definition read_nonce (f : AuthKeyCtx -> list byte) : Pa unit :=
  n ← lift tl_read_int128;
  check_ctx (fun c => bytes_eq n (f c)).

Section Auth.
Context `{C : Crypto} `{R : Rsa} (server_key : ServerKeyState).

(** ** RSA *)

(** The output goes into an array of 256 bytes. *)
Definition rsa_sha1_encrypt (rsa_key : RsaKey) (data : list byte) : AM (list byte) :=
  if 235 <? zlen data then fail
  else
    pad ← rand_bytes (235 - length data);
    let to_encrypt := crypto_sha1 data ++ data ++ pad in
    let rsa_input := Byte.x00 :: to_encrypt in
    match crypto_rsa_public_encrypt rsa_key rsa_input with
    | None => fail
    | Some out => fits (zlen out) 256 ;; mret out
    end.

(** ** Temporary AES key *)

Definition dh_derive_temp_aes (new_nonce server_nonce : list byte) : list byte * list byte :=
  let sha1_a := crypto_sha1 (new_nonce ++ server_nonce) in
  let sha1_b := crypto_sha1 (server_nonce ++ new_nonce) in
  let sha1_c := crypto_sha1 (new_nonce ++ new_nonce) in
  (take 20 sha1_a ++ take 12 sha1_b,
   slice 12 8 sha1_b ++ take 20 sha1_c ++ take 4 new_nonce).

(** ** Step 1: req_pq_multi, ResPQ *)

Fixpoint read_fingerprints (n : nat) (our_fp : Z) (found_fp : bool) : Rd bool :=
  match n with
  | O => mret found_fp
  | S n => fp ← tl_read_uint64; read_fingerprints n our_fp (found_fp || (fp =? our_fp))
  end.

Definition parse_res_pq (our_fp : Z) : Pa unit :=
  constructor ← lift tl_read_uint32;
  if negb (constructor =? CRC_resPQ) then fail
  else
    read_nonce c_nonce ;;
    server_nonce ← lift tl_read_int128;
    set_ctx (set_server_nonce server_nonce) ;;
    pq_bytes ← lift tl_read_bytes;
    match pq_bytes with
    | None => fail
    | Some pq_bytes =>
        set_ctx (set_pq (be_to_uint64 pq_bytes)) ;;
        lift tl_read_uint32 ;;
        fp_count ← lift tl_read_uint32;
        if MAX_FP_COUNT <? fp_count then fail
        else
          found_fp ← lift (read_fingerprints (Z.to_nat fp_count) our_fp false);
          if negb found_fp then fail else mret tt
    end.

Definition auth_step_req_pq : AM unit :=
  nonce ← rand_bytes 16;
  upd_ctx (set_nonce nonce) ;;
  let w := tl_writer_init in
  let w := tl_write_uint32 w CRC_req_pq_multi in
  let w := tl_write_int128 w nonce in
  on_snd (rpc_send_unencrypted (w_data w)) ;;
  buf ← on_snd (rpc_recv_unencrypted 4096);
  with_parser buf (parse_res_pq (telegram_server_key_get_fingerprint server_key)).

(** ** Step 2: req_DH_params *)

Definition auth_step_req_dh : AM unit :=
  ctx ← get_fst;
  pq ← pq_factorize (c_pq ctx);
  upd_ctx (set_p_q pq) ;;
  new_nonce ← rand_bytes 32;
  upd_ctx (set_new_nonce new_nonce) ;;
  let pq_be := uint64_to_be (c_pq ctx) in
  let p_be := uint32_to_be (fst pq) in
  let q_be := uint32_to_be (snd pq) in
  let inner := tl_writer_init in
  let inner := tl_write_uint32 inner CRC_p_q_inner_data in
  let inner := tl_write_bytes inner pq_be in
  let inner := tl_write_bytes inner p_be in
  let inner := tl_write_bytes inner q_be in
  let inner := tl_write_int128 inner (c_nonce ctx) in
  let inner := tl_write_int128 inner (c_server_nonce ctx) in
  let inner := tl_write_int256 inner new_nonce in
  match crypto_rsa_load_public (telegram_server_key_get_pem server_key) with
  | None => fail
  | Some rsa_key =>
      encrypted ← rsa_sha1_encrypt rsa_key (w_data inner);
      let w := tl_writer_init in
      let w := tl_write_uint32 w CRC_req_DH_params in
      let w := tl_write_int128 w (c_nonce ctx) in
      let w := tl_write_int128 w (c_server_nonce ctx) in
      let w := tl_write_bytes w p_be in
      let w := tl_write_bytes w q_be in
      let w := tl_write_uint64 w (telegram_server_key_get_fingerprint server_key) in
      let w := tl_write_bytes w encrypted in
      on_snd (rpc_send_unencrypted (w_data w))
  end.

(** ** Step 3: server_DH_params_ok *)

(** The header; returns encrypted_answer. *)
Definition parse_dh_params : Pa (list byte) :=
  constructor ← lift tl_read_uint32;
  if negb (constructor =? CRC_server_DH_params_ok) then fail
  else
    read_nonce c_nonce ;;
    read_nonce c_server_nonce ;;
    enc_answer ← lift tl_read_bytes;
    match enc_answer with
    | None | Some [] => fail
    | Some enc_answer => mret enc_answer
    end.

(** server_DH_inner_data *)
Definition parse_dh_inner : Pa unit :=
  inner_crc ← lift tl_read_uint32;
  if negb (inner_crc =? CRC_server_DH_inner_data) then fail
  else
    read_nonce c_nonce ;;
    read_nonce c_server_nonce ;;
    g ← lift tl_read_int32;
    set_ctx (set_g g) ;;
    if (g <? 2) || (7 <? g) then fail
    else
      prime_bytes ← lift tl_read_bytes;
      match prime_bytes with
      | None => fail
      | Some prime_bytes =>
          if 256 <? zlen prime_bytes then fail
          else
            set_ctx (set_dh_prime prime_bytes) ;;
            ga_bytes ← lift tl_read_bytes;
            match ga_bytes with
            | None => fail
            | Some ga_bytes =>
                if 256 <? zlen ga_bytes then fail
                else
                  set_ctx (set_g_a ga_bytes) ;;
                  server_time ← lift tl_read_int32;
                  set_ctx (set_server_time server_time)
            end
      end.

(** What a new heap block of a given size holds: [malloc] does not clear it. *)
Context (malloc_bytes : nat -> list byte).

Definition auth_step_parse_dh : AM unit :=
  buf ← on_snd (rpc_recv_unencrypted 4096);
  enc_answer ← with_parser buf parse_dh_params;
  ctx ← get_fst;
  let tmp := dh_derive_temp_aes (c_new_nonce ctx) (c_server_nonce ctx) in
  upd_ctx (set_tmp_aes tmp) ;;
  let decrypted :=
    aes_ige_decrypt enc_answer (fst tmp) (snd tmp) (malloc_bytes (length enc_answer)) in
  if zlen enc_answer <? 20 + 4 then fail
  else with_parser (drop 20 decrypted) parse_dh_inner.

(** ** Step 4: set_client_DH_params, dh_gen_ok *)

(** Up to the call of [crypto_bn_mod_exp]: new_nonce_hash1 of the answer. *)
Definition parse_dh_gen : Pa (list byte) :=
  constructor ← lift tl_read_uint32;
  if constructor =? CRC_dh_gen_retry then fail
  else if constructor =? CRC_dh_gen_fail then fail
  else if negb (constructor =? CRC_dh_gen_ok) then fail
  else
    read_nonce c_nonce ;;
    lift tl_read_int128 ;;
    lift tl_read_int128.

(** The plaintext of encrypted_data: hash, inner data, random padding to a
    block boundary. *)
Definition client_dh_inner (ctx : AuthKeyCtx) (g_b : list byte) : TlWriter :=
  let inner := tl_writer_init in
  let inner := tl_write_uint32 inner CRC_client_DH_inner_data in
  let inner := tl_write_int128 inner (c_nonce ctx) in
  let inner := tl_write_int128 inner (c_server_nonce ctx) in
  let inner := tl_write_int64 inner 0 in
  tl_write_bytes inner g_b.

Definition padded_len (data_with_hash_len : Z) : Z :=
  if negb (data_with_hash_len mod 16 =? 0)
  then data_with_hash_len + (16 - data_with_hash_len mod 16) else data_with_hash_len.

(** [memset] of the 256 bytes, then the key at their end. *)
Definition pad_auth_key (auth_key : list byte) : list byte :=
  if zlen auth_key <=? 256 then zeros (256 - length auth_key) ++ auth_key else zeros 256.

Definition nonce_hash1 (new_nonce auth_key_padded : list byte) : list byte :=
  let ak_full_hash := crypto_sha1 auth_key_padded in
  drop 4 (crypto_sha1 (new_nonce ++ Byte.x01 :: take 8 ak_full_hash)).

(** [((uint8_t * )&salt)[i] = new_nonce[i] ^ server_nonce[i]] for i below 8. *)
Definition initial_salt (new_nonce server_nonce : list byte) : Z :=
  le_combine (zip_with byte_xor (take 8 new_nonce) (take 8 server_nonce)).

Definition auth_step_set_client_dh : AM unit :=
  b ← rand_bytes 256;
  upd_ctx (set_b b) ;;
  ctx ← get_fst;
  let g_be := uint32_to_be (u32 (c_g ctx)) in
  g_b ← crypto_bn_mod_exp 256 g_be b (dh_prime ctx);
  let inner := client_dh_inner ctx g_b in
  let sha1_hash := crypto_sha1 (w_data inner) in
  let data_with_hash_len := 20 + w_len inner in
  let len := padded_len data_with_hash_len in
  padding ← rand_bytes (Z.to_nat (len - data_with_hash_len));
  let padded := sha1_hash ++ w_data inner ++ padding in
  let encrypted :=
    aes_ige_encrypt padded (c_tmp_aes_key ctx) (c_tmp_aes_iv ctx) (malloc_bytes (length padded)) in
  let w := tl_writer_init in
  let w := tl_write_uint32 w CRC_set_client_DH_params in
  let w := tl_write_int128 w (c_nonce ctx) in
  let w := tl_write_int128 w (c_server_nonce ctx) in
  let w := tl_write_bytes w encrypted in
  on_snd (rpc_send_unencrypted (w_data w)) ;;
  buf ← on_snd (rpc_recv_unencrypted 4096);
  new_nonce_hash ← with_parser buf parse_dh_gen;
  auth_key ← crypto_bn_mod_exp 256 (g_a ctx) b (dh_prime ctx);
  let auth_key_padded := pad_auth_key auth_key in
  if negb (bytes_eq (nonce_hash1 (c_new_nonce ctx) auth_key_padded) new_nonce_hash) then fail
  else
    on_snd (on_ses (mtproto_session_set_auth_key auth_key_padded)) ;;
    on_snd (on_ses (mtproto_session_set_salt (initial_salt (c_new_nonce ctx) (c_server_nonce ctx)))).

(** ** The exchange *)

Definition auth_steps : AM unit :=
  auth_step_req_pq ;;
  auth_step_req_dh ;;
  auth_step_parse_dh ;;
  auth_step_set_client_dh.

(** The context is a local variable. *)
Definition mtproto_auth_key_gen : CM unit := fun st =>
  match auth_steps (auth_ctx_init (dc_id (snd (fst st))), st) with
  | Done a st' => Done a (snd st')
  | Fail st' => Fail (snd st')
  | Fault => Fault
  | NoFuel => NoFuel
  end.

End Auth.
