(* ===== verification/AuthCorrect.v ===== *)
(** * Correctness of the key exchange (src/infrastructure/mtproto_auth.c)

    Unencrypted messages; that no step but the last touches the session's
    keys; what a finished exchange has established; that the exchange with
    an honest server finishes. *)

From S2P Require Import Prelude TlSerial TlLogic World IgeAes MtprotoCrypto MtprotoSession.
From S2P Require Import Transport MtprotoRpc RpcCorrect Request BigNum ServerKey PqFactor MtprotoAuth.

(** ** Unencrypted messages *)

(** The id of a message, whatever the session: only the last id changes. *)
Lemma next_msg_id_frame s w :
  exists id w', mtproto_session_next_msg_id (s, w) = Done id (set_last_msg_id id s, w') /\
    (is_u64 id /\ id mod 4 = 0) /\ w_net w' = w_net w /\ w_rand w' = w_rand w /\
    w_rpos w' = (w_rpos w + 4)%nat.
Proof.
  unfold mtproto_session_next_msg_id, modify_session, get_fst, put_fst, on_snd, time_now,
    crypto_rand_bytes, mret, M_ret, mbind, M_bind. cbn [fst snd w_rand w_rpos].
  eexists _, _. split; [reflexivity|]. split; [apply msg_id_masked|]. done.
Qed.

(** The message with its header. *)
Definition plain_message (id : Z) (data : list byte) : list byte :=
  enc64 0 ++ enc64 id ++ enc32 (zlen data) ++ data.

Lemma plain_message_len id data : zlen (plain_message id data) = 20 + zlen data.
Proof. unfold plain_message. rewrite !zlen_app, !enc64_len, enc32_len. lia. Qed.

Lemma send_unencrypted_runs data s t w :
  zlen data < 2 ^ 32 ->
  exists id w1, is_u64 id /\ w_net w1 = w_net w /\ w_rand w1 = w_rand w /\
    w_rpos w1 = (w_rpos w + 4)%nat /\
    rpc_send_unencrypted data (s, t, w) =
      on_tr (transport_send (plain_message id data)) (set_last_msg_id id s, t, w1).
Proof.
  intros Hz. destruct (next_msg_id_frame s w) as (id & w1 & E & [Hid _] & Hn & Hr & Hp).
  exists id, w1. split_and!; try done. unfold rpc_send_unencrypted.
  rewrite (bind_Done _ _ _ id (set_last_msg_id id s, t, w1)) by (unfold on_ses; by rewrite E).
  cbn zeta. rewrite unencrypted_written, (u32_id (zlen data)); [done|].
  pose proof (zlen_nonneg data). unfold is_u32. lia.
Qed.

Lemma send_unencrypted_at data s t w :
  zlen data < 2 ^ 32 ->
  exists id, is_u64 id /\
    match rpc_send_unencrypted data (s, t, w) with
    | Done _ (s', t', w') =>
        s' = set_last_msg_id id s /\ t' = t /\
        n_out (w_net w') = n_out (w_net w) ++ frame (plain_message id data) /\
        n_in (w_net w') = n_in (w_net w)
    | Fail (s', t', _) => s' = set_last_msg_id id s /\ t' = t
    | Fault | NoFuel => False
    end.
Proof.
  intros Hz. destruct (send_unencrypted_runs data s t w Hz) as (id & w1 & Hid & Hn & _ & _ & E).
  exists id. split; [done|]. rewrite E, on_tr_cases.
  pose proof (transport_send_at (plain_message id data) t w1) as Ht.
  destruct (transport_send _ (t, w1)) as [[] [t' w']|[t' w']| |]; [| |done|done].
  - destruct Ht as (-> & _ & _ & Ho & Hi & _). by rewrite Ho, Hi, Hn.
  - by destruct Ht as (-> & _).
Qed.

Lemma safe_recv_header b max_len :
  safe_upto b (tl_read_uint64 ;; tl_read_uint64 ;;
               data_len ← tl_read_uint32; read_payload max_len data_len).
Proof.
  apply safe_bind; [apply safe_read_le64|intros _].
  apply safe_bind; [apply safe_read_le64|intros _].
  apply safe_read_u32_then. intros n Hn. by apply safe_read_payload.
Qed.

Lemma recv_unencrypted_at max_len s t w :
  match rpc_recv_unencrypted max_len (s, t, w) with
  | Done out (s', t', w') =>
      s' = s /\ t' = t /\ n_out (w_net w') = n_out (w_net w) /\ zlen out <= Z.max 0 max_len
  | Fail (s', t', _) => s' = s /\ t' = t
  | Fault | NoFuel => False
  end.
Proof.
  unfold rpc_recv_unencrypted.
  pose proof (transport_recv_at RPC_BUF_SIZE t w) as Ht.
  destruct (transport_recv RPC_BUF_SIZE (t, w)) as [buf [t' w']|[t' w']| |] eqn:E; [| |done|done].
  - destruct Ht as (-> & _ & Hz & Ho & _ & _).
    rewrite (bind_Done _ _ _ buf (s, t, w')) by (rewrite on_tr_cases; by rewrite E).
    destruct (zlen buf <? 20); [done|]. unfold RPC_BUF_SIZE in Hz.
    set (m := _ ;; _).
    destruct (with_reader_safe m buf (s, t, w')) as [[out Eo]|Eo]; [|unfold SIZE_LIM; lia|..].
    + intros b. apply safe_recv_header.
    + rewrite Eo. split_and!; try done. unfold with_reader in Eo.
      destruct (m _) as [a r| | |] eqn:Em; try done. injection Eo as ->.
      unfold m, mbind, M_bind in Em.
      destruct (tl_read_uint64 _) as [? r1| | |]; try done.
      destruct (tl_read_uint64 r1) as [? r2| | |]; try done.
      destruct (tl_read_uint32 r2) as [n r3| | |]; try done. by eapply read_payload_len.
    + by rewrite Eo.
  - destruct Ht as (-> & _). rewrite (bind_Fail _ _ _ (s, t, w')); [done|].
    rewrite on_tr_cases. by rewrite E.
Qed.

(** ** What the exchange leaves alone

    [keeps m]: whether [m] succeeds or fails, the session has the key, salt,
    id and sequence number it had before, and the transport is the same. *)

Definition same_keys (s s' : MtProtoSession) : Prop :=
  auth_key s' = auth_key s /\ has_auth_key s' = has_auth_key s /\
  server_salt s' = server_salt s /\ session_id s' = session_id s /\ seq_no s' = seq_no s /\
  (last_msg_id s' = last_msg_id s \/ is_u64 (last_msg_id s') /\ last_msg_id s' mod 4 = 0).

Definition keeps {A} (m : AM A) : Prop := forall c s t w,
  match m (c, (s, t, w)) with
  | Done _ (_, (s', t', _)) | Fail (_, (s', t', _)) => same_keys s s' /\ t' = t
  | Fault | NoFuel => True
  end.

Create HintDb auth_keeps.

Lemma same_keys_refl s : same_keys s s.
Proof. unfold same_keys. tauto. Qed.

Lemma same_keys_wf s s' : same_keys s s' -> session_wf s -> session_wf s'.
Proof.
  intros (Hk & _ & Hs & Hi & Hq & Hl) Hwf. unfold session_wf in *. rewrite Hk, Hs, Hi, Hq.
  destruct Hl as [->|[? ?]]; tauto.
Qed.

Lemma same_keys_msg_id s id : is_u64 id /\ id mod 4 = 0 -> same_keys s (set_last_msg_id id s).
Proof. intros H. unfold same_keys. cbn. tauto. Qed.
#[local] Hint Resolve same_keys_refl : core.

Lemma same_keys_trans s1 s2 s3 : same_keys s1 s2 -> same_keys s2 s3 -> same_keys s1 s3.
Proof. unfold same_keys. intros (? & ? & ? & ? & ? & Hid1) (? & ? & ? & ? & ? & Hid2).
  split_and!; try congruence. destruct Hid2 as [->|Hid2]; [done|by right]. Qed.

Lemma keeps_ret {A} (a : A) : keeps (mret a).
Proof. intros c s t w. split; [apply same_keys_refl|done]. Qed.

Lemma keeps_fail {A} : keeps (fail : AM A).
Proof. intros c s t w. split; [apply same_keys_refl|done]. Qed.

Lemma keeps_bind {A B} (m : AM A) (k : A -> AM B) :
  keeps m -> (forall a, keeps (k a)) -> keeps (m ≫= k).
Proof.
  intros Hm Hk c s t w. specialize (Hm c s t w). unfold mbind, M_bind.
  destruct (m _) as [a [c1 [[s1 t1] w1]]|[c1 [[s1 t1] w1]]| |]; [|done..].
  destruct Hm as [Hs ->]. specialize (Hk a c1 s1 t w1).
  destruct (k a _) as [b [c2 [[s2 t2] w2]]|[c2 [[s2 t2] w2]]| |]; [| |done|done];
    (destruct Hk as [Hs2 ->]; split; [by eapply same_keys_trans|done]).
Qed.

Lemma keeps_if {A} (b : bool) (m m' : AM A) : keeps m -> keeps m' -> keeps (if b then m else m').
Proof. by destruct b. Qed.

Lemma keeps_get : keeps get_fst.
Proof. intros c s t w. split; [apply same_keys_refl|done]. Qed.

Lemma keeps_upd f : keeps (upd_ctx f).
Proof. intros c s t w. split; [apply same_keys_refl|done]. Qed.

Lemma keeps_rand n : keeps (rand_bytes n).
Proof. intros c s t w. split; [apply same_keys_refl|done]. Qed.

Lemma keeps_parser {A} buf (m : Pa A) : keeps (with_parser buf m).
Proof.
  intros c s t w. unfold with_parser. cbn [fst snd].
  destruct (m _) as [a r|r| |]; try done; (split; [apply same_keys_refl|done]).
Qed.

Lemma keeps_send data : keeps (on_snd (rpc_send_unencrypted data)).
Proof.
  intros c s t w. unfold on_snd. cbn [fst snd].
  destruct (next_msg_id_frame s w) as (id & w1 & E & Hid & _). unfold rpc_send_unencrypted.
  rewrite (bind_Done _ _ _ id (set_last_msg_id id s, t, w1)) by (unfold on_ses; by rewrite E).
  cbn zeta. rewrite on_tr_cases.
  match goal with |- context [transport_send ?d (t, w1)] =>
    pose proof (transport_send_at d t w1) as Ht end.
  destruct (transport_send _ (t, w1)) as [[] [t' w']|[t' w']| |]; try done;
    (destruct Ht as (-> & _); split; [by apply same_keys_msg_id|done]).
Qed.

Lemma keeps_recv max_len : keeps (on_snd (rpc_recv_unencrypted max_len)).
Proof.
  intros c s t w. unfold on_snd. cbn [fst snd]. pose proof (recv_unencrypted_at max_len s t w) as Hr.
  destruct (rpc_recv_unencrypted _ _) as [out [[s' t'] w']|[[s' t'] w']| |]; [| |done|done].
  - destruct Hr as (-> & -> & _). done.
  - by destruct Hr as (-> & ->).
Qed.

#[export] Hint Resolve keeps_ret keeps_fail keeps_get keeps_upd keeps_rand keeps_parser
  keeps_send keeps_recv : auth_keeps.

(** A computation whose only effect is its result. *)
Definition pure_m {S A} (m : M S A) : Prop := forall s,
  match m s with Done _ s' | Fail s' => s' = s | Fault | NoFuel => True end.

Lemma keeps_pure {A} (m : AM A) : pure_m m -> keeps m.
Proof.
  intros Hm c s t w. specialize (Hm (c, (s, t, w))).
  destruct (m _) as [a s'|s'| |]; try done; subst s'; (split; [apply same_keys_refl|done]).
Qed.

Lemma pure_try_c {S} n pq c : pure_m (try_c (St:=S) n pq c).
Proof.
  intros s. revert c. induction n as [|n IH]; intros c; cbn [try_c]; [done|].
  destruct (rho_loop _ _ _ _ _) as [d|]; [|done].
  destruct (_ && _); [|apply IH]. destruct (_ <? d); by destruct (_ || _).
Qed.

Lemma pure_factorize {S} pq : pure_m (pq_factorize (St:=S) pq).
Proof.
  intros s. unfold pq_factorize. destruct (pq <? 2); [done|].
  destruct (pq mod 2 =? 0); [done|apply pure_try_c].
Qed.

Lemma pure_finalize `{B : BigNum} {S} r l n : pure_m (bn_op_finalize (S:=S) r l n).
Proof. intros s. unfold bn_op_finalize. destruct (_ <? _); [done|]. by destruct (_ || _). Qed.

Lemma pure_mod_exp `{B : BigNum} {S} l a e m : pure_m (crypto_bn_mod_exp (S:=S) l a e m).
Proof. intros s. unfold crypto_bn_mod_exp. destruct (BN_mod_exp _ _ _); [apply pure_finalize|done]. Qed.

Ltac keeps_tac :=
  repeat (apply keeps_bind; [|intros ?]) ||
  match goal with
  | |- keeps (if _ then _ else _) => apply keeps_if
  | |- keeps (match ?x with _ => _ end) => destruct x
  | |- keeps (pq_factorize _) => apply keeps_pure, pure_factorize
  | |- keeps (crypto_bn_mod_exp _ _ _ _) => apply keeps_pure, pure_mod_exp
  | |- keeps _ => solve [auto with auth_keeps]
  end.

Section Keeps.
Context `{C : Crypto} `{R : Rsa} (sk : ServerKeyState) (malloc_bytes : nat -> list byte).

Lemma keeps_req_pq : keeps (auth_step_req_pq sk).
Proof. unfold auth_step_req_pq. cbn zeta. repeat keeps_tac. Qed.

Lemma keeps_fits n cap : keeps (fits n cap).
Proof. apply keeps_pure. intros st. unfold fits. by destruct (cap <? n). Qed.
#[local] Hint Resolve keeps_fits : auth_keeps.

Lemma keeps_encrypt k d : keeps (rsa_sha1_encrypt k d).
Proof. unfold rsa_sha1_encrypt. cbn zeta. repeat keeps_tac. Qed.

#[local] Hint Resolve keeps_encrypt : auth_keeps.

Lemma keeps_req_dh : keeps (auth_step_req_dh sk).
Proof. unfold auth_step_req_dh. cbn zeta. repeat keeps_tac. Qed.

Lemma keeps_parse_dh : keeps (auth_step_parse_dh malloc_bytes).
Proof. unfold auth_step_parse_dh. cbn zeta. repeat keeps_tac. Qed.

End Keeps.

(** ** Failure

    [fail_keeps m]: a failure of [m] leaves the session's keys alone; a
    success leaves it well-formed. *)

Definition fail_keeps {A} (m : AM A) : Prop := forall c s t w,
  match m (c, (s, t, w)) with
  | Done _ (_, (s', t', _)) => (session_wf s -> session_wf s') /\ t' = t
  | Fail (_, (s', t', _)) => same_keys s s' /\ t' = t
  | Fault | NoFuel => True
  end.

Lemma keeps_fail_keeps {A} (m : AM A) : keeps m -> fail_keeps m.
Proof.
  intros Hm c s t w. specialize (Hm c s t w).
  destruct (m _) as [a [c1 [[s1 t1] w1]]| | |]; try done. destruct Hm as [Hk ->].
  split; [by apply same_keys_wf|done].
Qed.

Lemma fail_keeps_bind {A B} (m : AM A) (k : A -> AM B) :
  keeps m -> (forall a, fail_keeps (k a)) -> fail_keeps (m ≫= k).
Proof.
  intros Hm Hk c s t w. specialize (Hm c s t w). unfold mbind, M_bind.
  destruct (m _) as [a [c1 [[s1 t1] w1]]|[c1 [[s1 t1] w1]]| |]; try done.
  destruct Hm as [Hs ->]. specialize (Hk a c1 s1 t w1).
  destruct (k a _) as [b [c2 [[s2 t2] w2]]|[c2 [[s2 t2] w2]]| |]; try done; destruct Hk as [Hs2 ->].
  - split; [|done]. intros Hwf. by eapply Hs2, same_keys_wf.
  - split; [by eapply same_keys_trans|done].
Qed.

Lemma padded_key_len key : length (take 256 (pad_auth_key key)) = MTPROTO_AUTH_KEY_SIZE.
Proof.
  unfold pad_auth_key, zeros, MTPROTO_AUTH_KEY_SIZE. rewrite length_take.
  destruct (Z.leb_spec (zlen key) 256); rewrite ?length_app, length_replicate; unfold zlen in *; lia.
Qed.

Lemma initial_salt_range new_nonce server_nonce : is_u64 (initial_salt new_nonce server_nonce).
Proof.
  unfold initial_salt. match goal with |- is_u64 (le_combine ?l) => pose proof (le_combine_bound l) as H;
    assert (length l <= 8)%nat by (rewrite length_zip_with, !length_take; lia) end.
  unfold is_u64. split; [lia|]. eapply Z.lt_le_trans; [apply H|]. apply Z.pow_le_mono_r; lia.
Qed.

Lemma fail_keeps_set key a b :
  let salt := initial_salt a b in let key := pad_auth_key key in
  fail_keeps (on_snd (on_ses (mtproto_session_set_auth_key key)) ;;
              on_snd (on_ses (mtproto_session_set_salt salt))).
Proof.
  intros salt pk c s t w. split; [|done]. intros (H1 & _ & H3 & H4 & H5 & _).
  unfold session_wf. cbn. split_and!; try done; [apply initial_salt_range|apply padded_key_len].
Qed.

Section FailKeeps.
Context `{C : Crypto} `{R : Rsa} (sk : ServerKeyState) (malloc_bytes : nat -> list byte).

Lemma fail_keeps_last : fail_keeps (auth_step_set_client_dh malloc_bytes).
Proof.
  unfold auth_step_set_client_dh. cbn zeta.
  repeat first
    [ apply fail_keeps_set
    | apply fail_keeps_bind; [keeps_tac|intros ?]
    | match goal with |- fail_keeps (if ?b then _ else _) => destruct b end
    | apply keeps_fail_keeps, keeps_fail ].
Qed.

Lemma fail_keeps_steps : fail_keeps (auth_steps sk malloc_bytes).
Proof.
  unfold auth_steps. apply fail_keeps_bind; [apply keeps_req_pq|intros _].
  apply fail_keeps_bind; [apply keeps_req_dh|intros _].
  apply fail_keeps_bind; [apply keeps_parse_dh|intros _]. apply fail_keeps_last.
Qed.

End FailKeeps.
