(* ===== verification/AuthSafe.v ===== *)
(** * The key exchange stays inside its arrays and ends (src/infrastructure/mtproto_auth.c)

    The context invariant [ctx_wf], and a judgement for each of the two kinds
    of computations, on a reader and the context and on the context and the
    connection: started in a well-formed context they neither leave an array
    nor exhaust a loop bound, and the context stays well-formed. *)

From S2P Require Import Prelude TlSerial TlLogic World IgeAes MtprotoCrypto MtprotoSession.
From S2P Require Import Transport MtprotoRpc RpcCorrect BigNum ServerKey PqFactor MtprotoAuth.
From S2P Require Import Request AuthCorrect.

(** Array sizes and value ranges of the struct. *)
Definition ctx_wf (c : AuthKeyCtx) : Prop :=
  length (c_nonce c) = 16%nat /\ length (c_server_nonce c) = 16%nat /\
  length (c_new_nonce c) = 32%nat /\ is_u64 (c_pq c) /\ is_u32 (c_p c) /\ is_u32 (c_q c) /\
  is_s32 (c_g c) /\
  length (c_dh_prime c) = 256%nat /\ 0 <= c_dh_prime_len c <= 256 /\
  length (c_g_a c) = 256%nat /\ 0 <= c_g_a_len c <= 256 /\
  is_s32 (c_server_time c) /\ length (c_b c) = 256%nat /\
  length (c_tmp_aes_key c) = 32%nat /\ length (c_tmp_aes_iv c) = 32%nat.

(** Show an array or field of the context well-formed after an update. *)
Ltac ctx_tac :=
  match goal with
  | H : ctx_wf ?c |- ctx_wf _ =>
      unfold ctx_wf in *; cbn; decompose [and] H; split_and!; try done; try lia
  end.

Lemma ctx_init_wf dc : ctx_wf (auth_ctx_init dc).
Proof. unfold ctx_wf, is_u64, is_u32, is_s32, auth_ctx_init. cbn. split_and!; try done; lia. Qed.

(** ** Values that come out of the reader *)

Lemma le_combine_take n l : 0 <= le_combine (take n l) < 2 ^ (8 * Z.of_nat n).
Proof.
  pose proof (le_combine_bound (take n l)) as [H1 H2]. split; [done|].
  eapply Z.lt_le_trans; [exact H2|]. apply Z.pow_le_mono_r; [lia|]. rewrite length_take. lia.
Qed.

Lemma read_le32_u32 r v r' : read_le32 r = Done v r' -> is_u32 v.
Proof.
  unfold read_le32. destruct (negb _); [by intros [= <- _]|]. unfold mem_read.
  destruct (_ && _); [|done]. intros [= <- _]. apply (le_combine_take 4).
Qed.

Lemma read_le64_u64 r v r' : read_le64 r = Done v r' -> is_u64 v.
Proof.
  unfold read_le64. destruct (negb _); [by intros [= <- _]|]. unfold mem_read.
  destruct (_ && _); [|done]. intros [= <- _]. apply (le_combine_take 8).
Qed.

Lemma read_int32_s32 r v r' : tl_read_int32 r = Done v r' -> is_s32 v.
Proof.
  unfold tl_read_int32, mbind, M_bind. destruct (read_le32 r); try done.
  intros [= <- _]. apply s32_range.
Qed.

Lemma read_int128_len r v r' : tl_read_int128 r = Done v r' -> length v = 16%nat.
Proof. intros H. apply read_raw_len in H; [|lia]. unfold zlen in H. lia. Qed.

(** Shifting a byte in is arithmetic modulo [2^64]. *)
Lemma shift_in v b : Z.lor (u64 (Z.shiftl v 8)) (byte.unsigned b) = u64 (v * 256 + byte.unsigned b).
Proof.
  pose proof (byte.unsigned_range b). unfold u64. rewrite Z.shiftl_mul_pow2 by lia.
  replace (v * 2 ^ 8) with ((v mod 2 ^ 56 + v / 2 ^ 56 * 2 ^ 56) * 2 ^ 8) at 1
    by (pose proof (Z.div_mod v (2 ^ 56)); lia).
  pose proof (Z.mod_pos_bound v (2 ^ 56)).
  rewrite Z.mul_add_distr_r, <- Z.mul_assoc. change (2 ^ 56 * 2 ^ 8) with (2 ^ 64).
  rewrite Z.mod_add, Z.mod_small, lor_disjoint by lia.
  rewrite <- (Z.mod_small (v mod 2 ^ 56 * 2 ^ 8 + _) (2 ^ 64)) by lia.
  rewrite <- (Z.mod_add _ (v / 2 ^ 56)) by lia. f_equal. pose proof (Z.div_mod v (2 ^ 56)). lia.
Qed.

(** [be_to_uint64] is the big-endian value modulo [2^64]. *)
Lemma be_to_uint64_correct data : be_to_uint64 data = u64 (be_combine data).
Proof.
  unfold be_to_uint64. induction data as [|b data IH] using rev_ind; [done|].
  rewrite fold_left_app. cbn [fold_left]. rewrite IH, shift_in, be_combine_snoc. unfold u64.
  by rewrite <- Z.add_mod_idemp_l, Z.mul_mod_idemp_l, Z.add_mod_idemp_l by lia.
Qed.

(** ** Parsers *)

Definition pa_post {A} (m : Pa A) (Q : A -> Prop) : Prop := forall r c,
  reader_wf r -> ctx_wf c ->
  match m (r, c) with
  | Done a (r', c') => reader_wf r' /\ ctx_wf c' /\ Q a
  | Fail (r', c') => ctx_wf c'
  | Fault | NoFuel => False
  end.

Create HintDb auth_safe.

Definition any {A} (_ : A) : Prop := True.

Lemma pa_bind {A B} (m : Pa A) (k : A -> Pa B) Q Q' :
  pa_post m Q -> (forall a, Q a -> pa_post (k a) Q') -> pa_post (m ≫= k) Q'.
Proof.
  intros Hm Hk r c Hr Hc. specialize (Hm r c Hr Hc). unfold mbind, M_bind.
  destruct (m (r, c)) as [a [r1 c1]|[r1 c1]| |]; try done.
  destruct Hm as (Hr1 & Hc1 & Ha). by apply Hk.
Qed.

Lemma pa_ret {A} (a : A) (Q : A -> Prop) : Q a -> pa_post (mret a) Q.
Proof. by intros Ha r c Hr Hc. Qed.

Lemma pa_fail {A} (Q : A -> Prop) : pa_post fail Q.
Proof. by intros r c Hr Hc. Qed.

Lemma pa_if {A} (b : bool) (m m' : Pa A) Q :
  (b = true -> pa_post m Q) -> (b = false -> pa_post m' Q) -> pa_post (if b then m else m') Q.
Proof. destruct b; auto. Qed.

Lemma pa_set f : (forall c, ctx_wf c -> ctx_wf (f c)) -> pa_post (set_ctx f) any.
Proof. intros Hf r c Hr Hc. cbn. split_and!; [done|auto|done]. Qed.

Lemma pa_check f : pa_post (check_ctx f) any.
Proof. intros r c Hr Hc. unfold check_ctx, fail_if. by destruct (negb (f _)). Qed.

Lemma pa_lift {A} (m : Rd A) (Q : A -> Prop) :
  (forall b, safe_upto b m) -> (forall r a r', m r = Done a r' -> Q a) -> pa_post (lift m) Q.
Proof.
  intros Hm HQ r c Hr Hc. specialize (Hm _ r Hr (Z.le_refl _)). unfold lift. cbn [fst snd].
  destruct (m r) as [a r'|r'| |] eqn:E; try done. destruct Hm as [Hr' _]. eauto.
Qed.

Lemma pa_u32 : pa_post (lift tl_read_uint32) is_u32.
Proof. apply pa_lift; [apply safe_read_le32|apply read_le32_u32]. Qed.

Lemma pa_s32 : pa_post (lift tl_read_int32) is_s32.
Proof. apply pa_lift; [apply safe_read_int32|apply read_int32_s32]. Qed.

Lemma pa_int128 : pa_post (lift tl_read_int128) (fun n => length n = 16%nat).
Proof. apply pa_lift; [intros b; by apply safe_read_raw|apply read_int128_len]. Qed.

(** A TL byte string has at most 24 bits of length. *)
Definition short (bs : option (list byte)) : Prop := forall l, bs = Some l -> zlen l < 2 ^ 24.

Lemma read_bytes_short r bs r' : tl_read_bytes r = Done bs r' -> short bs.
Proof.
  assert (Hbody : forall h n, 0 <= n < 2 ^ 24 -> forall bs, read_bytes_body h n r = Done bs r' -> short bs).
  { intros h n Hn bs0. unfold read_bytes_body. destruct (negb _); [by intros [= <- _]|].
    unfold mem_read. destruct (_ && _); [|done]. intros [= <- _] l [= <-].
    pose proof (zlen_nonneg (take (Z.to_nat n) (drop (Z.to_nat (u64 (r_pos r + h))) (r_data r)))).
    unfold zlen in *. rewrite length_take in *. lia. }
  unfold tl_read_bytes. destruct (negb _); [by intros [= <- _]|].
  destruct (mem_read _ _ 1) as [[|first l]|]; [done| |done].
  pose proof (byte.unsigned_range first).
  destruct (_ <? 254); [apply Hbody; lia|]. destruct (negb _); [by intros [= <- _]|].
  unfold mem_read at 1. destruct (_ && _); [|done]. apply Hbody.
  pose proof (le_combine_take 3 (drop (Z.to_nat (u64 (r_pos r + 1))) (r_data r))). exact H0.
Qed.

Lemma pa_bytes : pa_post (lift tl_read_bytes) short.
Proof. apply pa_lift; [apply safe_read_bytes|apply read_bytes_short]. Qed.

Lemma safe_fingerprints b n our found : safe_upto b (read_fingerprints n our found).
Proof.
  revert found. induction n as [|n IH]; intros found; cbn [read_fingerprints];
    [apply safe_ret|]. apply safe_bind; [apply safe_read_le64|intros fp; apply IH].
Qed.

Lemma pa_fingerprints n our : pa_post (lift (read_fingerprints n our false)) any.
Proof. apply pa_lift; [intros b; apply safe_fingerprints|done]. Qed.

Lemma pa_nonce f : pa_post (read_nonce f) any.
Proof. eapply pa_bind; [apply pa_int128|intros n _; apply pa_check]. Qed.

#[export] Hint Resolve pa_u32 pa_s32 pa_int128 pa_bytes pa_fingerprints pa_nonce pa_fail : auth_safe.

Ltac pa_tac :=
  match goal with
  | |- pa_post (_ ≫= _) _ => eapply pa_bind; [solve [auto with auth_safe]|intros ? ?]
  | |- pa_post (set_ctx _ ≫= _) _ => eapply pa_bind; [apply pa_set; intros ? ?; ctx_tac|intros _ _]
  | |- pa_post (set_ctx _) _ => apply pa_set; intros ? ?; ctx_tac
  | |- pa_post (if _ then _ else _) _ => apply pa_if; intros ?; bool_prop
  | |- pa_post (match ?x with _ => _ end) _ => destruct x
  | |- pa_post (mret _) any => by apply pa_ret
  | |- pa_post _ _ => solve [auto with auth_safe]
  end.

Lemma pa_res_pq our : pa_post (parse_res_pq our) any.
Proof.
  unfold parse_res_pq. repeat pa_tac. rewrite be_to_uint64_correct. apply u64_range.
Qed.

Lemma pa_dh_params :
  pa_post parse_dh_params (fun enc_answer => 0 < zlen enc_answer < 2 ^ 24).
Proof.
  unfold parse_dh_params. repeat pa_tac. apply pa_ret.
  match goal with H : short _ |- _ => specialize (H _ eq_refl) end.
  rewrite zlen_cons in *. match goal with |- context [zlen ?l] => pose proof (zlen_nonneg l) end. lia.
Qed.

(** Overwriting the front of an array keeps its size. *)
Lemma overwrite_len (v a : list byte) : zlen v <= 256 -> length a = 256%nat ->
  length (v ++ drop (length v) a) = 256%nat.
Proof. unfold zlen. intros Hv Ha. rewrite length_app, length_drop. lia. Qed.

Lemma pa_dh_inner : pa_post parse_dh_inner any.
Proof.
  unfold parse_dh_inner.
  repeat pa_tac; try (by apply overwrite_len); try (match goal with |- context [zlen ?l] =>
    pose proof (zlen_nonneg l); lia end).
Qed.

Lemma pa_dh_gen : pa_post parse_dh_gen any.
Proof.
  unfold parse_dh_gen. repeat pa_tac. eapply pa_lift; [intros b; by apply safe_read_raw|done].
Qed.

(** ** Steps

    [rnd] are the bytes the random generator produces. *)

Definition auth_post {A} (rnd : nat -> byte) (m : AM A) (Q : A -> Prop) : Prop := forall c s t w,
  ctx_wf c -> w_rand w = rnd ->
  match m (c, (s, t, w)) with
  | Done a (c', (_, _, w')) => ctx_wf c' /\ w_rand w' = rnd /\ Q a
  | Fail (c', (_, _, w')) => ctx_wf c' /\ w_rand w' = rnd
  | Fault | NoFuel => False
  end.

Section Post.
Context (rnd : nat -> byte).

Lemma post_bind {A B} (m : AM A) (k : A -> AM B) Q Q' :
  auth_post rnd m Q -> (forall a, Q a -> auth_post rnd (k a) Q') -> auth_post rnd (m ≫= k) Q'.
Proof.
  intros Hm Hk c s t w Hc Hw. specialize (Hm c s t w Hc Hw). unfold mbind, M_bind.
  destruct (m _) as [a [c1 [[s1 t1] w1]]|[c1 [[s1 t1] w1]]| |]; try done.
  destruct Hm as (Hc1 & Hw1 & Ha). by apply Hk.
Qed.

Lemma post_ret {A} (a : A) (Q : A -> Prop) : Q a -> auth_post rnd (mret a) Q.
Proof. by intros Ha c s t w Hc Hw. Qed.

Lemma post_fail {A} (Q : A -> Prop) : auth_post rnd fail Q.
Proof. by intros c s t w Hc Hw. Qed.

Lemma post_if {A} (b : bool) (m m' : AM A) Q :
  (b = true -> auth_post rnd m Q) -> (b = false -> auth_post rnd m' Q) ->
  auth_post rnd (if b then m else m') Q.
Proof. destruct b; auto. Qed.

Lemma post_get : auth_post rnd get_fst ctx_wf.
Proof. by intros c s t w Hc Hw. Qed.

Lemma post_upd f : (forall c, ctx_wf c -> ctx_wf (f c)) -> auth_post rnd (upd_ctx f) any.
Proof. intros Hf c s t w Hc Hw. cbn. split_and!; [auto|done|done]. Qed.

Lemma post_rand n :
  auth_post rnd (rand_bytes n) (fun bs => length bs = n /\ exists pos, bs = map rnd (seq pos n)).
Proof.
  intros c s t w Hc Hw. cbn. split_and!; try done; [by rewrite length_map, length_seq|].
  exists (w_rpos w). by rewrite Hw.
Qed.

Lemma post_parser {A} buf (m : Pa A) Q :
  zlen buf <= SIZE_LIM -> pa_post m Q -> auth_post rnd (with_parser buf m) Q.
Proof.
  intros Hz Hm c s t w Hc Hw. unfold with_parser. cbn [fst snd]. pose proof (zlen_nonneg buf).
  specialize (Hm (tl_reader_init buf (zlen buf)) c ltac:(apply reader_init_wf; lia) Hc).
  destruct (m _) as [a [r' c']|[r' c']| |]; try done. by destruct Hm as (_ & ? & ?).
Qed.

Lemma post_send data : zlen data < 2 ^ 32 -> auth_post rnd (on_snd (rpc_send_unencrypted data)) any.
Proof.
  intros Hz c s t w Hc Hw. unfold on_snd. cbn [fst snd].
  destruct (send_unencrypted_runs data s t w Hz) as (id & w1 & _ & _ & Hr & _ & ->).
  rewrite on_tr_cases. pose proof (transport_send_at (plain_message id data) t w1) as Ht.
  destruct (transport_send _ _) as [[] [t' w']|[t' w']| |]; try done.
  - destruct Ht as (_ & _ & _ & _ & _ & _ & ->). cbn. split_and!; congruence || done.
  - destruct Ht as (_ & -> & _). cbn. split; congruence.
Qed.

Lemma post_recv : auth_post rnd (on_snd (rpc_recv_unencrypted 4096)) (fun out => zlen out <= 4096).
Proof.
  intros c s t w Hc Hw. unfold on_snd. cbn [fst snd].
  pose proof (recv_unencrypted_at 4096 s t w) as Hr.
  assert (Hrnd : match rpc_recv_unencrypted 4096 (s, t, w) with
                 | Done _ (_, _, w') | Fail (_, _, w') => w_rand w' = rnd | _ => True end).
  { unfold rpc_recv_unencrypted. pose proof (transport_recv_at RPC_BUF_SIZE t w) as Ht.
    unfold mbind at 1, M_bind at 1. rewrite on_tr_cases.
    destruct (transport_recv _ _) as [buf [t' w']|[t' w']| |]; try done;
      destruct Ht as (_ & -> & _); [|done].
    destruct (_ <? 20); [done|]. unfold with_reader.
    by match goal with |- context [?m (tl_reader_init buf ?n)] => destruct (m (tl_reader_init buf n)) end. }
  destruct (rpc_recv_unencrypted 4096 (s, t, w)) as [out [[s' t'] w']|[[s' t'] w']| |]; try done.
  destruct Hr as (_ & _ & _ & Hz). split_and!; [done|done|lia].
Qed.

Lemma post_pure {A} (m : AM A) (Q : A -> Prop) :
  (forall st, (exists a, m st = Done a st /\ Q a) \/ m st = Fail st) -> auth_post rnd m Q.
Proof.
  intros Hm c s t w Hc Hw. by destruct (Hm (c, (s, t, w))) as [(a & -> & Ha)| -> ].
Qed.

Lemma post_factorize pq :
  is_u64 pq -> auth_post rnd (pq_factorize pq) (fun r => is_u32 (fst r) /\ is_u32 (snd r)).
Proof.
  intros Hpq. apply post_pure. intros st. unfold pq_factorize.
  destruct (Z.ltb_spec pq 2); [by right|]. destruct (pq mod 2 =? 0).
  - left. eexists. split; [done|]. destruct (_ <? 2); cbn; split; try apply u32_range;
      unfold is_u32; lia.
  - unfold is_u64 in Hpq. pose proof (try_c_sound 19 pq 1 st ltac:(lia)) as Hs.
    destruct (try_c 19 pq 1 st) as [r st'|st'| |]; try done.
    + destruct Hs as [(_ & Hr & Hm) ->]. left. exists r. split; [done|]. unfold is_u32. lia.
    + by subst st'; right.
Qed.

Lemma post_mod_exp `{B : BigNum} `{HB : !BigNumLaws B} a e m :
  be_combine e <> 0 -> zlen m <= 256 ->
  auth_post rnd (crypto_bn_mod_exp 256 a e m) (fun out => length out = length m).
Proof.
  intros He Hm. apply post_pure. intros st.
  destruct (mod_exp_cases 256 a e m st He Hm) as [->|(out & -> & Ho)]; [by right|left]. eauto.
Qed.

Lemma post_fits n cap : n <= cap -> auth_post rnd (fits n cap) any.
Proof.
  intros Hn. apply post_pure. intros st. left. exists tt. unfold fits.
  by rewrite (proj2 (Z.ltb_ge _ _)) by lia.
Qed.

End Post.

#[export] Hint Resolve post_fail post_get post_rand post_recv : auth_safe.

(** The writer invariant along a sequence of short writes. *)
Section Inv.
Context (w : TlWriter) (Hw : writer_inv w) (Hz : zlen (w_data w) <= 2 ^ 62).

Lemma inv_uint32 v : writer_inv (tl_write_uint32 w v).
Proof. apply (appends_uint32 v w Hw). rewrite enc32_len. lia. Qed.

Lemma inv_int64 v : writer_inv (tl_write_int64 w v).
Proof. apply (appends_int64 v w Hw). rewrite enc64_len. lia. Qed.

Lemma inv_int128 v : writer_inv (tl_write_int128 w v).
Proof. apply (writer_put_spec w (take 16 v) Hw). pose proof (zlen_take_le 16 v). lia. Qed.

Lemma inv_bytes d : zlen d <= 2 ^ 60 -> writer_inv (tl_write_bytes w d).
Proof.
  intros Hd. apply (appends_bytes d w Hw). pose proof (enc_bytes_bound d). lia.
Qed.

End Inv.

(** ** The four steps *)

Lemma strip_zeros_len l : (length (strip_zeros l) <= length l)%nat.
Proof.
  induction l as [|b [|b' l] IH]; [done|done|]. cbn [strip_zeros].
  destruct (Byte.eqb b Byte.x00); [cbn in *; lia|done].
Qed.

Lemma uint32_to_be_len v : zlen (uint32_to_be v) <= 4.
Proof.
  unfold uint32_to_be, zlen.
  match goal with |- context [strip_zeros ?l] => pose proof (strip_zeros_len l) as H end.
  cbn [length] in H. lia.
Qed.

Lemma uint64_to_be_len v : zlen (uint64_to_be v) <= 8.
Proof.
  unfold uint64_to_be, zlen. pose proof (strip_zeros_len (be_split 8 v)) as H.
  pose proof (be_split_len 8 v). unfold zlen in *. lia.
Qed.

(** [malloc] gives a block of the size asked for. *)
Definition malloc_sized (malloc_bytes : nat -> list byte) : Prop :=
  forall n, length (malloc_bytes n) = n.

(** The generator does not produce 256 zero bytes in a row. *)
Definition nonzero_rand (rnd : nat -> byte) : Prop :=
  forall pos, be_combine (map rnd (seq pos 256)) <> 0.

Section Steps.
Context `{C : Crypto} {HC : CryptoLaws C} `{R : Rsa} {HB : BigNumLaws B} {HR : RsaLaws R}.
Context (sk : ServerKeyState) (malloc_bytes : nat -> list byte).
Context (Hmalloc : malloc_sized malloc_bytes) (rnd : nat -> byte).

Ltac post_tac :=
  match goal with
  | |- auth_post _ (upd_ctx _ ≫= _) _ =>
      eapply post_bind; [apply post_upd; intros ? ?; ctx_tac|intros _ _]
  | |- auth_post _ (_ ≫= _) _ => eapply post_bind; [solve [auto with auth_safe]|intros ? ?]
  | |- auth_post _ (if _ then _ else _) _ => apply post_if; intros ?; bool_prop
  | |- auth_post _ (match ?x with _ => _ end) _ => destruct x
  | |- auth_post _ (mret _) _ => apply post_ret; done
  | |- auth_post _ _ _ => solve [auto with auth_safe]
  end.

Lemma post_req_pq : auth_post rnd (auth_step_req_pq sk) any.
Proof.
  unfold auth_step_req_pq. cbn zeta. post_tac. destruct H as [Hl _]. repeat post_tac.
  eapply post_bind; [apply post_send|intros _ _].
  { wdata. rewrite zlen_app, enc32_len. pose proof (zlen_take_le 16 a). lia. }
  eapply post_bind; [apply post_recv|intros buf Hb]. cbn beta in Hb.
  apply post_parser; [unfold SIZE_LIM; lia|apply pa_res_pq].
Qed.

Lemma post_encrypt k d : auth_post rnd (rsa_sha1_encrypt k d) (fun out => zlen out = 256).
Proof.
  unfold rsa_sha1_encrypt. post_tac; [post_tac|].
  eapply post_bind; [apply post_rand|intros pad [Hpad _]]. cbn zeta.
  unfold crypto_rsa_public_encrypt. destruct (pkey_size k <=? 0); [post_tac|].
  destruct (pkey_encrypt k _) as [out|] eqn:E; [|post_tac].
  apply pkey_encrypt_len in E as [Hd Ho]. rewrite <- Ho in Hd.
  rewrite zlen_cons, !zlen_app in Hd. pose proof (sha1_len d).
  eapply post_bind; [apply post_fits; unfold zlen in *; lia|intros _ _].
  apply post_ret. unfold zlen in *. lia.
Qed.

Lemma post_req_dh : auth_post rnd (auth_step_req_dh sk) any.
Proof.
  unfold auth_step_req_dh. eapply post_bind; [apply post_get|intros ctx Hctx].
  eapply post_bind; [apply post_factorize, Hctx|intros [p q] [Hp Hq]]. cbn [fst snd] in *.
  post_tac. eapply post_bind; [apply post_rand|intros nn [Hnn _]]. post_tac. cbn zeta.
  destruct (crypto_rsa_load_public _) as [k|]; [|post_tac].
  eapply post_bind; [apply post_encrypt|intros enc Henc]. cbn beta in Henc. apply post_send.
  pose proof (uint32_to_be_len p). pose proof (uint32_to_be_len q).
  wdata. rewrite !zlen_app, enc32_len, enc64_len.
  pose proof (enc_bytes_bound (uint32_to_be p)). pose proof (enc_bytes_bound (uint32_to_be q)).
  pose proof (enc_bytes_bound enc). pose proof (zlen_take_le 16 (c_nonce ctx)).
  pose proof (zlen_take_le 16 (c_server_nonce ctx)). lia.
Qed.

(** The sizes of what the digests are cut into. *)
Lemma derive_len nn sn : length nn = 32%nat ->
  length (fst (dh_derive_temp_aes nn sn)) = 32%nat /\
  length (snd (dh_derive_temp_aes nn sn)) = 32%nat.
Proof.
  intros Hn. unfold dh_derive_temp_aes. cbn [fst snd].
  rewrite !length_app, slice_len, !length_take, !sha1_len by (rewrite sha1_len; lia). lia.
Qed.

Lemma decrypt_len_le cipher key iv out :
  length iv = 32%nat -> length out = length cipher ->
  length (aes_ige_decrypt cipher key iv out) = length cipher.
Proof.
  intros Hi Ho. destruct (decide (zlen cipher mod 16 = 0 /\ 0 < zlen cipher)) as [[Hm Hp]|Hn].
  - by apply aes_ige_decrypt_len.
  - unfold aes_ige_decrypt. pose proof (zlen_nonneg cipher).
    destruct (Z.eqb_spec (zlen cipher) 0); [done|].
    destruct (Z.eqb_spec (zlen cipher mod 16) 0); [lia|done].
Qed.

Lemma post_parse_dh : auth_post rnd (auth_step_parse_dh malloc_bytes) any.
Proof.
  unfold auth_step_parse_dh. eapply post_bind; [apply post_recv|intros buf Hb]. cbn beta in Hb.
  eapply post_bind; [apply post_parser; [unfold SIZE_LIM; lia|apply pa_dh_params]|].
  intros enc He. cbn beta in He. eapply post_bind; [apply post_get|intros ctx Hctx]. cbn zeta.
  destruct (derive_len (c_new_nonce ctx) (c_server_nonce ctx)) as [Hk Hi]; [apply Hctx|].
  post_tac. post_tac; [post_tac|].
  apply post_parser; [|apply pa_dh_inner].
  pose proof (decrypt_len_le enc (fst (dh_derive_temp_aes (c_new_nonce ctx) (c_server_nonce ctx)))
    _ (malloc_bytes (length enc)) Hi (Hmalloc _)) as Hd.
  unfold zlen in *. rewrite length_drop, Hd. unfold SIZE_LIM. lia.
Qed.

Lemma dh_prime_bound c : ctx_wf c -> zlen (dh_prime c) <= 256.
Proof.
  intros Hc. unfold dh_prime. pose proof (zlen_take_le (Z.to_nat (c_dh_prime_len c)) (c_dh_prime c)).
  assert (c_dh_prime_len c <= 256) by apply Hc. lia.
Qed.

Lemma client_inner_inv ctx g_b : zlen g_b <= 256 -> writer_inv (client_dh_inner ctx g_b).
Proof.
  intros Hg. pose proof (zlen_take_le 16 (c_nonce ctx)).
  pose proof (zlen_take_le 16 (c_server_nonce ctx)). unfold client_dh_inner.
  apply inv_bytes; [apply inv_int64; [apply inv_int128; [apply inv_int128; [apply inv_uint32;
    [apply writer_init_inv|]|]|]|]| |]; wdata;
    rewrite ?zlen_app, ?enc32_len, ?enc64_len, ?zlen_nil; lia.
Qed.

Lemma client_inner_len ctx g_b : zlen g_b <= 256 ->
  zlen (w_data (client_dh_inner ctx g_b)) <= 307 /\
  w_len (client_dh_inner ctx g_b) = zlen (w_data (client_dh_inner ctx g_b)).
Proof.
  intros Hg. split.
  - unfold client_dh_inner. wdata. rewrite !zlen_app, enc32_len, enc64_len.
    pose proof (enc_bytes_bound g_b). pose proof (zlen_take_le 16 (c_nonce ctx)).
    pose proof (zlen_take_le 16 (c_server_nonce ctx)). lia.
  - apply client_inner_inv. lia.
Qed.

Lemma padded_len_bound n : 0 <= n -> n <= padded_len n < n + 16 /\ padded_len n mod 16 = 0.
Proof.
  intros Hn. unfold padded_len. destruct (Z.eqb_spec (n mod 16) 0); cbn [negb];
    Z.div_mod_to_equations; lia.
Qed.

Lemma encrypt_len_le plain key iv out :
  length iv = 32%nat -> length out = length plain ->
  length (aes_ige_encrypt plain key iv out) = length plain.
Proof.
  intros Hi Ho. destruct (decide (zlen plain mod 16 = 0 /\ 0 < zlen plain)) as [[Hm Hp]|Hn].
  - by apply aes_ige_encrypt_len.
  - unfold aes_ige_encrypt. pose proof (zlen_nonneg plain).
    destruct (Z.eqb_spec (zlen plain) 0); [done|].
    destruct (Z.eqb_spec (zlen plain mod 16) 0); [lia|done].
Qed.

Lemma post_on_ses {A} (m : SM A) :
  (forall s w, exists a s', m (s, w) = Done a (s', w)) -> auth_post rnd (on_snd (on_ses m)) any.
Proof.
  intros Hm c s t w Hc Hw. destruct (Hm s w) as (a & s' & E).
  unfold on_snd, on_ses. cbn [fst snd]. by rewrite E.
Qed.

Lemma post_set_key key : auth_post rnd (on_snd (on_ses (mtproto_session_set_auth_key key))) any.
Proof. by apply post_on_ses; intros s w; eexists _, _. Qed.

Lemma post_set_salt v : auth_post rnd (on_snd (on_ses (mtproto_session_set_salt v))) any.
Proof. by apply post_on_ses; intros s w; eexists _, _. Qed.

Lemma post_set_client_dh :
  nonzero_rand rnd -> auth_post rnd (auth_step_set_client_dh malloc_bytes) any.
Proof.
  intros Hrnd. unfold auth_step_set_client_dh.
  eapply post_bind; [apply post_rand|intros b [Hb [pos Hpos]]].
  assert (Hb0 : be_combine b <> 0) by (rewrite Hpos; apply Hrnd). post_tac.
  eapply post_bind; [apply post_get|intros ctx Hctx].
  pose proof (dh_prime_bound ctx Hctx) as Hp. cbn zeta.
  eapply post_bind; [by apply post_mod_exp|intros g_b Hg]. cbn beta in Hg.
  destruct (client_inner_len ctx g_b) as [Hi Hl]; [unfold zlen in *; lia|].
  pose proof (zlen_nonneg (w_data (client_dh_inner ctx g_b))).
  destruct (padded_len_bound (20 + w_len (client_dh_inner ctx g_b))) as [Hpl _]; [lia|].
  eapply post_bind; [apply post_rand|intros padding [Hpad _]].
  pose proof (sha1_len (w_data (client_dh_inner ctx g_b))).
  eapply post_bind; [apply post_send|intros _ _].
  { match goal with |- context [aes_ige_encrypt ?p ?k ?v ?o] =>
      assert (He : zlen (aes_ige_encrypt p k v o) <= 400) end.
    { unfold zlen. rewrite encrypt_len_le by (apply Hctx || apply Hmalloc).
      rewrite !length_app. unfold zlen in *. lia. }
    wdata. rewrite !zlen_app, enc32_len.
    match goal with |- context [enc_bytes ?d] => pose proof (enc_bytes_bound d) end.
    pose proof (zlen_take_le 16 (c_nonce ctx)). pose proof (zlen_take_le 16 (c_server_nonce ctx)). lia. }
  eapply post_bind; [apply post_recv|intros buf Hbuf]. cbn beta in Hbuf.
  eapply post_bind; [apply post_parser; [unfold SIZE_LIM; lia|apply pa_dh_gen]|intros nh _].
  eapply post_bind; [by apply post_mod_exp|intros ak _]. post_tac; [post_tac|].
  eapply post_bind; [apply post_set_key|intros _ _; apply post_set_salt].
Qed.

Lemma post_auth_steps : nonzero_rand rnd -> auth_post rnd (auth_steps sk malloc_bytes) any.
Proof.
  intros Hrnd. unfold auth_steps. eapply post_bind; [apply post_req_pq|intros _ _].
  eapply post_bind; [apply post_req_dh|intros _ _].
  eapply post_bind; [apply post_parse_dh|intros _ _]. by apply post_set_client_dh.
Qed.

End Steps.
