(* ===== verification/AuthRun.v ===== *)
(** * A finished key exchange (src/infrastructure/mtproto_auth.c)

    What the success of each step says, whoever answered: the bytes it drew,
    sent and took in, and what its checks have found in them. *)

From S2P Require Import Prelude TlSerial TlLogic World IgeAes MtprotoCrypto MtprotoSession.
From S2P Require Import Transport MtprotoRpc RpcCorrect Request BigNum ServerKey PqFactor MtprotoAuth.
From S2P Require Import AuthCorrect AuthSafe.

(** ** Numbers on the wire *)

Lemma strip_zeros_val l : be_combine (strip_zeros l) = be_combine l.
Proof.
  induction l as [|b [|b' l] IH]; [done|done|].
  change (strip_zeros (b :: b' :: l))
    with (if Byte.eqb b Byte.x00 then strip_zeros (b' :: l) else b :: b' :: l).
  destruct (Byte.eqb b Byte.x00) eqn:E; [|done].
  apply Byte.byte_dec_bl in E. subst b. rewrite IH, (be_combine_cons Byte.x00 (b' :: l)).
  change (byte.unsigned Byte.x00) with 0. lia.
Qed.

Lemma uint64_to_be_val v : is_u64 v -> be_combine (uint64_to_be v) = v.
Proof.
  intros Hv. unfold uint64_to_be. rewrite strip_zeros_val. by apply be_combine_split.
Qed.

Lemma uint32_to_be_val v : is_u32 v -> be_combine (uint32_to_be v) = v.
Proof.
  unfold is_u32. intros Hv. unfold uint32_to_be. rewrite strip_zeros_val, !byte_land_ff.
  rewrite !be_combine_cons, !byte.unsigned_of_Z. change (be_combine []) with 0.
  rewrite !Z.shiftr_div_pow2 by lia. unfold byte.wrap, zlen. cbn [length Z.of_nat].
  change (2 ^ (8 * Z.of_nat 3)) with (2 ^ 24). Z.div_mod_to_equations. lia.
Qed.

(** A key shorter than 256 bytes goes to the end of the array. *)
Lemma pad_key_val k : zlen k <= 256 -> pad_auth_key k = be_split 256 (be_combine k).
Proof.
  intros Hk. unfold pad_auth_key, zeros. rewrite (proj2 (Z.leb_le _ _)) by lia.
  unfold zlen in Hk. apply be_combine_inj.
  - rewrite length_app, length_replicate. pose proof (be_split_len 256 (be_combine k)) as H.
    unfold zlen in H. lia.
  - rewrite be_combine_pad. symmetry. apply be_combine_split.
    pose proof (be_combine_range k) as [H1 H2]. split; [done|].
    eapply Z.lt_le_trans; [exact H2|]. apply Z.pow_le_mono_r; unfold zlen; lia.
Qed.

(** ** Inversion *)

Lemma bind_same {S A B} (m : M S A) (k k' : A -> M S B) s :
  (forall a s', m s = Done a s' -> k a s' = k' a s') -> (m ≫= k) s = (m ≫= k') s.
Proof. unfold mbind, M_bind. intros H. destruct (m s); auto. Qed.

(** Take the first computation off a run that succeeded. *)
Tactic Notation "step_inv" ident(H) "as" ident(E) := apply run_inv in H as (? & ? & E & H).

Lemma parser_done {W A} buf (m : Pa A) c (st : W) a st' :
  with_parser buf m (c, st) = Done a st' ->
  exists r' c', m (tl_reader_init buf (zlen buf), c) = Done a (r', c') /\ st' = (c', st).
Proof.
  unfold with_parser. cbn [fst snd]. destruct (m _) as [a' [r' c']| | |]; try done.
  intros [= <- <-]. eauto.
Qed.

(** The bytes of set_client_DH_params around a ciphertext. *)
Definition set_client_params (c : AuthKeyCtx) (cipher : list byte) : list byte :=
  enc32 CRC_set_client_DH_params ++ c_nonce c ++ c_server_nonce c ++ enc_bytes cipher.

(** client_DH_inner_data *)
Definition client_inner (c : AuthKeyCtx) (g_b : list byte) : list byte :=
  enc32 CRC_client_DH_inner_data ++ c_nonce c ++ c_server_nonce c ++ enc64 0 ++ enc_bytes g_b.

Lemma client_inner_data c g_b :
  ctx_wf c -> zlen g_b <= 256 -> w_data (client_dh_inner c g_b) = client_inner c g_b.
Proof.
  intros Hc Hg. unfold client_dh_inner, client_inner. wdata.
  rewrite !(firstn_all2 (n := 16)) by (destruct Hc as (H1 & H2 & _); lia).
  by rewrite <- !app_assoc.
Qed.

(** ** Parsers that succeeded *)

Lemma lift_done {A} (m : Rd A) r c a r' c' :
  lift m (r, c) = Done a (r', c') -> m r = Done a r' /\ c' = (c : AuthKeyCtx).
Proof. unfold lift. cbn [fst snd]. destruct (m r); try done. by intros [= <- <- <-]. Qed.

(** The cursor ran to the end: what was read last may be a default. *)
Definition at_end (r : TlReader) : Prop := rest r = [].

(** Reading forward: whatever is behind the cursor later was behind it before. *)
Lemma raw16_done r v r' : reader_wf r -> tl_read_int128 r = Done v r' ->
  reader_wf r' /\ (rest r = v ++ rest r' /\ length v = 16%nat \/ v = zeros 16 /\ at_end r').
Proof.
  intros Hr H. apply raw_case in H as (Hr' & [[Hz Hb]|(-> & He & _)]); [|by split; [|right]|done|unfold SIZE_LIM; lia].
  split; [done|]. left. split; [done|]. unfold zlen in Hz. lia.
Qed.

Lemma read_nonce_done f r c r' c' : reader_wf r -> read_nonce f (r, c) = Done tt (r', c') ->
  reader_wf r' /\ c' = c /\ (rest r = f c ++ rest r' \/ at_end r').
Proof.
  intros Hr H. unfold read_nonce in H. apply run_inv in H as (n & [r1 c1] & E & H).
  apply lift_done in E as [E ->]. apply raw16_done in E as [Hr1 E]; [|done].
  unfold check_ctx, fail_if in H. cbn [snd] in H.
  destruct (bytes_eq n (f c)) eqn:Eq; [|done]. injection H as <- <-.
  apply bool_decide_eq_true in Eq. subst n. split; [done|]. split; [done|].
  destruct E as [[? _]|[_ ?]]; auto.
Qed.

(** A constructor other than 0 was on the wire. *)
Lemma constructor_done r (c : AuthKeyCtx) v r' c' : reader_wf r -> v <> 0 ->
  lift tl_read_uint32 (r, c) = Done v (r', c') -> reader_wf r' /\ c' = c /\ rest r = enc32 v ++ rest r'.
Proof.
  intros Hr Hv H. apply lift_done in H as [E ->]. apply le32_case in E as (Hr' & _ & E); [|done].
  split; [done|]. split; [done|]. by destruct E as [E|[? _]].
Qed.

(** Nothing is read behind the end. *)
Lemma end_raw16 r v r' : reader_wf r -> at_end r -> tl_read_int128 r = Done v r' -> v = zeros 16 /\ at_end r'.
Proof.
  intros Hr He H. apply raw16_done in H as [_ [[Hb Hl]|?]]; [|done..].
  unfold at_end in He. rewrite He in Hb. by destruct v.
Qed.

Lemma end_bytes r bs r' : reader_wf r -> at_end r -> tl_read_bytes r = Done (Some bs) r' -> False.
Proof.
  intros Hr He H. apply bytes_case in H as (_ & e & Hb & Ht); [|done]. unfold at_end in He. rewrite He in Hb.
  destruct Ht as (pre & pad & -> & Hpre & _). by destruct pre.
Qed.

Lemma end_nonce f r c r' c' : reader_wf r -> at_end r -> read_nonce f (r, c) = Done tt (r', c') -> at_end r'.
Proof.
  intros Hr He H. unfold read_nonce in H. apply run_inv in H as (n & [r1 c1] & E & H).
  apply lift_done in E as [E ->]. apply end_raw16 in E as [_ E]; [|done..].
  unfold check_ctx, fail_if in H. by destruct (negb _); [|injection H as <- <-].
Qed.

Lemma init_done buf : zlen buf <= SIZE_LIM ->
  reader_wf (tl_reader_init buf (zlen buf)) /\ rest (tl_reader_init buf (zlen buf)) = buf.
Proof.
  intros H. pose proof (zlen_nonneg buf). split; [apply reader_init_wf; lia|apply rest_init].
Qed.

(** dh_gen_ok *)
Definition dh_gen_ok (nonce server_nonce hash : list byte) : list byte :=
  enc32 CRC_dh_gen_ok ++ nonce ++ server_nonce ++ hash.

Lemma parse_dh_gen_sound buf c h r' c' :
  parse_dh_gen (tl_reader_init buf (zlen buf), c) = Done h (r', c') ->
  zlen buf <= SIZE_LIM ->
  c' = c /\ (exists tl, buf = enc32 CRC_dh_gen_ok ++ tl) /\
  (h = zeros 16 \/ exists sn tl, buf = dh_gen_ok (c_nonce c) sn h ++ tl /\ length sn = 16%nat).
Proof.
  intros H Hz. destruct (init_done buf Hz) as [Hr0 E0]. unfold parse_dh_gen in H.
  apply run_inv in H as (v & [r1 c1] & E & H).
  destruct (v =? CRC_dh_gen_retry); [done|]. destruct (v =? CRC_dh_gen_fail); [done|].
  destruct (Z.eqb_spec v CRC_dh_gen_ok) as [->|]; [|done]. cbn [negb] in H.
  apply constructor_done in E as (Hr1 & -> & E1); [|done..]. rewrite E0 in E1.
  apply run_inv in H as ([] & [r2 c2] & E & H).
  apply read_nonce_done in E as (Hr2 & -> & E2); [|done].
  apply run_inv in H as (sn & [r3 c3] & E & H). apply lift_done in E as [E3 ->].
  apply lift_done in H as [E4 ->]. split; [done|]. split; [by exists (rest r1)|].
  pose proof (raw16_done _ _ _ Hr2 E3) as [Hr3 D3]. pose proof (raw16_done _ _ _ Hr3 E4) as [Hr4 D4].
  destruct D4 as [[D4 Hh]|[-> _]]; [|by left].
  destruct D3 as [[D3 Hs]|[_ He]]; [|by left; apply (end_raw16 r3 _ r')].
  destruct E2 as [E2|He].
  - right. exists sn, (rest r'). split; [|done]. unfold dh_gen_ok. by rewrite E1, E2, D3, D4, <- !app_assoc.
  - left. apply (end_raw16 r2) in E3 as [_ He3]; [|done..]. by apply (end_raw16 r3 _ r').
Qed.

(** server_DH_params_ok with its encrypted answer *)
Lemma parse_dh_params_sound buf c enc r' c' :
  parse_dh_params (tl_reader_init buf (zlen buf), c) = Done enc (r', c') ->
  zlen buf <= SIZE_LIM ->
  c' = c /\ exists e tl, tl_bytes enc e /\
    buf = enc32 CRC_server_DH_params_ok ++ c_nonce c ++ c_server_nonce c ++ e ++ tl.
Proof.
  intros H Hz. destruct (init_done buf Hz) as [Hr0 E0]. unfold parse_dh_params in H.
  apply run_inv in H as (v & [r1 c1] & E & H).
  destruct (Z.eqb_spec v CRC_server_DH_params_ok) as [->|]; [|done]. cbn [negb] in H.
  apply constructor_done in E as (Hr1 & -> & E1); [|done..]. rewrite E0 in E1.
  apply run_inv in H as ([] & [r2 c2] & E & H). apply read_nonce_done in E as (Hr2 & -> & E2); [|done].
  apply run_inv in H as ([] & [r3 c3] & E & H). assert (N3 := E).
  apply read_nonce_done in E as (Hr3 & -> & E3); [|done].
  apply run_inv in H as (o & [r4 c4] & E & H). apply lift_done in E as [E4 ->].
  destruct o as [[|b enc']|]; try done. injection H as <- <- <-. split; [done|].
  destruct E3 as [E3|He]; [|by apply end_bytes in E4].
  destruct E2 as [E2|He]; [|by apply end_nonce in N3; [apply end_bytes in E4|..]].
  apply bytes_case in E4 as (_ & e & E4 & Ht); [|done].
  exists e, (rest r4). split; [done|]. by rewrite E1, E2, E3, E4.
Qed.

(** The context after the inner data. *)
Definition with_inner (g : Z) (prime ga : list byte) (time : Z) (c : AuthKeyCtx) : AuthKeyCtx :=
  set_server_time time (set_g_a ga (set_dh_prime prime (set_g g c))).

(** server_DH_inner_data up to the number of the server *)
Definition dh_inner_data (c : AuthKeyCtx) (g : Z) (prime ga buf : list byte) : Prop :=
  exists e1 e2 tl, tl_bytes prime e1 /\ tl_bytes ga e2 /\
    buf = enc32 CRC_server_DH_inner_data ++ c_nonce c ++ c_server_nonce c ++ enc32 g ++ e1 ++ e2 ++ tl.

Lemma parse_dh_inner_sound buf c r' c' :
  parse_dh_inner (tl_reader_init buf (zlen buf), c) = Done tt (r', c') ->
  zlen buf <= SIZE_LIM ->
  exists g prime ga time, 2 <= g <= 7 /\ zlen prime <= 256 /\ zlen ga <= 256 /\
    c' = with_inner g prime ga time c /\ dh_inner_data c g prime ga buf.
Proof.
  intros H Hz. destruct (init_done buf Hz) as [Hr0 E0]. unfold parse_dh_inner in H.
  apply run_inv in H as (v & [r1 c1] & E & H).
  destruct (Z.eqb_spec v CRC_server_DH_inner_data) as [->|]; [|done]. cbn [negb] in H.
  apply constructor_done in E as (Hr1 & -> & E1); [|done..]. rewrite E0 in E1.
  apply run_inv in H as ([] & [r2 c2] & E & H). apply read_nonce_done in E as (Hr2 & -> & E2); [|done].
  apply run_inv in H as ([] & [r3 c3] & E & H). assert (N3 := E).
  apply read_nonce_done in E as (Hr3 & -> & E3); [|done].
  apply run_inv in H as (g & [r4 c4] & E & H). apply lift_done in E as [E4 ->].
  unfold tl_read_int32 in E4. apply run_inv in E4 as (v & r4' & E4 & Eg). injection Eg as <- <-.
  apply le32_case in E4 as (Hr4 & Hv & E4); [|done].
  rewrite (bind_Done (set_ctx (set_g (s32 v))) _ _ tt (r4', set_g (s32 v) c)) in H by done.
  destruct ((s32 v <? 2) || (7 <? s32 v)) eqn:Eg; [done|].
  assert (Hg : 2 <= s32 v <= 7) by (bool_prop; lia). clear Eg.
  destruct E4 as [E4|(-> & _)]; [|by destruct Hg].
  apply run_inv in H as (o & [r5 c5] & E & H). apply lift_done in E as [E5 ->]. destruct o as [prime|]; [|done].
  destruct (Z.ltb_spec 256 (zlen prime)) as [|Hp]; [done|].
  rewrite (bind_Done (set_ctx (set_dh_prime prime)) _ _ tt (r5, set_dh_prime prime (set_g (s32 v) c))) in H by done.
  apply run_inv in H as (o & [r6 c6] & E & H). apply lift_done in E as [E6 ->]. destruct o as [ga|]; [|done].
  destruct (Z.ltb_spec 256 (zlen ga)) as [|Hga]; [done|].
  rewrite (bind_Done (set_ctx (set_g_a ga)) _ _ tt
    (r6, set_g_a ga (set_dh_prime prime (set_g (s32 v) c)))) in H by done.
  apply run_inv in H as (time & [r7 c7] & E & H). apply lift_done in E as [E7 ->]. injection H as <- <-.
  exists (s32 v), prime, ga, time. split_and!; try done; try lia.
  destruct E3 as [E3|He]; [|by unfold at_end in He; rewrite He in E4].
  destruct E2 as [E2|He].
  2: { apply end_nonce in N3; [|done..]. by unfold at_end in N3; rewrite N3 in E4. }
  apply bytes_case in E5 as (Hr5 & e1 & E5 & Ht1); [|done].
  apply bytes_case in E6 as (_ & e2 & E6 & Ht2); [|done].
  exists e1, e2, (rest r6). split_and!; try done.
  replace (enc32 (s32 v)) with (enc32 v); [by rewrite E1, E2, E3, E4, E5, E6|].
  f_equal. clear - Hv Hg. unfold s32, is_u32 in *. Z.div_mod_to_equations. lia.
Qed.

(** resPQ: the offer of fingerprints behind pq lists [fp] among the first 64. *)
Definition offers (fp : Z) (tl : list byte) : Prop :=
  exists vec n fps tl', tl = enc32 vec ++ enc32 n ++ concat (map enc64 fps) ++ enc64 fp ++ tl' /\
    zlen fps < n <= MAX_FP_COUNT.

Definition res_pq_data (fp : Z) (c : AuthKeyCtx) (buf : list byte) : Prop :=
  exists pq e tl, tl_bytes pq e /\ c_pq c = u64 (be_combine pq) /\ (fp <> 0 -> offers fp tl) /\
    buf = enc32 CRC_resPQ ++ c_nonce c ++ c_server_nonce c ++ e ++ tl.

Lemma fingerprints_sound n fp found r r' : fp <> 0 -> reader_wf r ->
  read_fingerprints n fp found r = Done true r' ->
  found = true \/ exists fps tl, rest r = concat (map enc64 fps) ++ enc64 fp ++ tl /\ zlen fps < Z.of_nat n.
Proof.
  intros Hfp. revert found r. induction n as [|n IH]; intros found r Hr H; cbn [read_fingerprints] in H.
  - injection H as <- _. by left.
  - apply run_inv in H as (v & r1 & E & H). apply le64_case in E as (Hr1 & _ & E); [|done].
    destruct (IH _ _ Hr1 H) as [Hf|(fps & tl & Ht & Hl)].
    + apply orb_true_iff in Hf as [->|Hv]; [by left|right]. apply Z.eqb_eq in Hv. subst v.
      destruct E as [E|[? _]]; [|done]. exists [], (rest r1). cbn. split; [done|]. rewrite zlen_nil. lia.
    + right. destruct E as [E|(_ & E & _)].
      * exists (v :: fps), tl. cbn [map concat]. rewrite E, Ht, <- app_assoc, zlen_cons. split; [done|lia].
      * rewrite Ht in E. apply (f_equal zlen) in E. rewrite !zlen_app, enc64_len, zlen_nil in E.
        pose proof (zlen_nonneg (concat (map enc64 fps))). pose proof (zlen_nonneg tl). lia.
Qed.

Lemma parse_res_pq_sound fp buf c r' c' :
  parse_res_pq fp (tl_reader_init buf (zlen buf), c) = Done tt (r', c') ->
  zlen buf <= SIZE_LIM ->
  exists sn pq, c' = set_pq pq (set_server_nonce sn c) /\ res_pq_data fp c' buf.
Proof.
  intros H Hz. destruct (init_done buf Hz) as [Hr0 E0]. unfold parse_res_pq in H.
  apply run_inv in H as (v & [r1 c1] & E & H).
  destruct (Z.eqb_spec v CRC_resPQ) as [->|]; [|done]. cbn [negb] in H.
  apply constructor_done in E as (Hr1 & -> & E1); [|done..]. rewrite E0 in E1.
  apply run_inv in H as ([] & [r2 c2] & E & H). apply read_nonce_done in E as (Hr2 & -> & E2); [|done].
  apply run_inv in H as (sn & [r3 c3] & E & H). apply lift_done in E as [N3 ->].
  pose proof (raw16_done _ _ _ Hr2 N3) as [Hr3 E3].
  rewrite (bind_Done (set_ctx (set_server_nonce sn)) _ _ tt (r3, set_server_nonce sn c)) in H by done.
  apply run_inv in H as (o & [r4 c4] & E & H). apply lift_done in E as [E4 ->]. destruct o as [pq|]; [|done].
  destruct E3 as [[E3 _]|[_ He]]; [|by apply end_bytes in E4].
  destruct E2 as [E2|He].
  2: { apply end_raw16 in N3 as [_ He3]; [|done..]. by apply end_bytes in E4. }
  apply bytes_case in E4 as (Hr4 & e & E4 & Ht); [|done].
  rewrite be_to_uint64_correct in H. set (v := u64 (be_combine pq)) in *.
  rewrite (bind_Done (set_ctx (set_pq v)) _ _ tt (r4, set_pq v (set_server_nonce sn c))) in H by done.
  apply run_inv in H as (vec & [r5 c5] & E & H). apply lift_done in E as [E5 ->].
  apply run_inv in H as (n & [r6 c6] & E & H). apply lift_done in E as [E6 ->].
  destruct (Z.ltb_spec MAX_FP_COUNT n) as [|Hn]; [done|].
  apply run_inv in H as (found & [r7 c7] & E & H). apply lift_done in E as [E7 ->].
  destruct found; [|done]. injection H as <- <-.
  exists sn, v. split; [done|]. exists pq, e, (rest r4). split_and!; [done|done| |by rewrite E1, E2, E3, E4].
  intros Hfp. apply le32_case in E5 as (Hr5 & _ & E5); [|done]. apply le32_case in E6 as (Hr6 & Hu & E6); [|done].
  apply fingerprints_sound in E7 as [?|(fps & tl & E7 & Hl)]; [done| |done|done].
  assert (Hne : rest r6 <> []).
  { rewrite E7. intros E. apply (f_equal zlen) in E. rewrite !zlen_app, enc64_len, zlen_nil in E.
    pose proof (zlen_nonneg (concat (map enc64 fps))). pose proof (zlen_nonneg tl). lia. }
  destruct E6 as [E6|(_ & ? & _)]; [|done].
  destruct E5 as [E5|(_ & E5 & _)]; [|by rewrite E6 in E5].
  exists vec, n, fps, tl. rewrite E5, E6, E7. split; [done|]. unfold is_u32 in Hu. lia.
Qed.

Lemma on_snd_done {S T A} (m : M T A) (x : S) st a st' :
  on_snd m (x, st) = Done a st' -> exists y, m st = Done a y /\ st' = (x, y).
Proof. unfold on_snd. cbn [fst snd]. destruct (m st); try done. intros [= <- <-]. eauto. Qed.

(** ** Draws, sends and receives *)

(** Time has passed: the generator is the same and has moved forward. *)
Definition onward (w w' : World) : Prop := w_rand w' = w_rand w /\ (w_rpos w <= w_rpos w')%nat.

Lemma onward_trans w1 w2 w3 : onward w1 w2 -> onward w2 w3 -> onward w1 w3.
Proof. unfold onward. intros [? ?] [? ?]. split; [congruence|lia]. Qed.

(** Bytes that the generator gives from here on. *)
Definition drawn (w : World) (n : nat) (bs : list byte) : Prop :=
  exists pos, (w_rpos w <= pos)%nat /\ bs = map (w_rand w) (seq pos n).

Lemma drawn_onward w w' n bs : onward w w' -> drawn w' n bs -> drawn w n bs.
Proof. intros [Hr Hp] (pos & Hle & ->). exists pos. split; [lia|by rewrite Hr]. Qed.

Lemma drawn_len w n bs : drawn w n bs -> length bs = n.
Proof. intros (pos & _ & ->). by rewrite length_map, length_seq. Qed.

Lemma rand_done n (c : AuthKeyCtx) s t w b st :
  rand_bytes n (c, (s, t, w)) = Done b st ->
  drawn w n b /\ exists w', st = (c, (s, t, w')) /\ w_net w' = w_net w /\ onward w w'.
Proof.
  intros H. apply on_snd_done in H as (y & H & ->). apply on_snd_done in H as (w' & H & ->).
  injection H as <- <-. split; [by exists (w_rpos w)|]. eexists. split; [done|]. split; [done|].
  split; cbn; [done|lia].
Qed.

Lemma send_done data (c : AuthKeyCtx) s t w st :
  zlen data < 2 ^ 32 -> on_snd (rpc_send_unencrypted data) (c, (s, t, w)) = Done tt st ->
  exists id w', is_u64 id /\ st = (c, (set_last_msg_id id s, t, w')) /\ onward w w' /\
    n_out (w_net w') = n_out (w_net w) ++ frame (plain_message id data) /\
    n_in (w_net w') = n_in (w_net w).
Proof.
  intros Hz H. apply on_snd_done in H as ([[s1 t1] w1] & H & ->).
  destruct (send_unencrypted_runs data s t w Hz) as (id & w0 & Hid & Hn & Hr & Hp & E).
  rewrite E, on_tr_cases in H. pose proof (transport_send_at (plain_message id data) t w0) as Ht.
  destruct (transport_send _ (t, w0)) as [[] [t' w']|[t' w']| |]; [|done..].
  destruct Ht as (-> & _ & _ & Ho & Hi & _ & Hw). injection H as <- <- <-.
  exists id, w'. split_and!; try done; [|by rewrite Ho, Hn|by rewrite Hi, Hn].
  unfold onward. rewrite Hw. cbn. rewrite Hr, Hp. split; [done|lia].
Qed.

(** One frame taken off the stream is an unencrypted message with the data. *)
Definition delivered (input data rest : list byte) : Prop :=
  exists key_id mid pad,
    unframe input = Some (enc64 key_id ++ enc64 mid ++ enc32 (zlen data) ++ data ++ pad, rest).

Definition recv_plain_body (max_len : Z) : Rd (list byte) :=
  tl_read_uint64 ;; tl_read_uint64 ;; data_len ← tl_read_uint32; read_payload max_len data_len.

(** The data of the message; or zeros, as many as the message announces and
    does not have. *)
Lemma recv_body_done max_len buf data r' :
  20 <= zlen buf <= SIZE_LIM ->
  recv_plain_body max_len (tl_reader_init buf (zlen buf)) = Done data r' ->
  (exists key_id mid pad, buf = enc64 key_id ++ enc64 mid ++ enc32 (zlen data) ++ data ++ pad) \/
  exists n, data = zeros n.
Proof.
  intros Hz H. destruct (init_done buf ltac:(lia)) as [Hr0 E0].
  set (r0 := tl_reader_init buf (zlen buf)) in *. assert (L0 : zlen (rest r0) = zlen buf) by (by rewrite E0).
  unfold recv_plain_body in H.
  apply run_inv in H as (k & r1 & E & H). apply le64_took in E as (Hr1 & _ & E1 & L1); [|done|lia].
  apply run_inv in H as (mid & r2 & E & H). apply le64_took in E as (Hr2 & _ & E2 & L2); [|done|lia].
  apply run_inv in H as (n & r3 & E & H). apply le32_took in E as (Hr3 & Hn & E3 & L3); [|done|lia].
  rewrite E0 in E1. unfold read_payload in H. unfold is_u32 in Hn.
  destruct (max_len <? n); [done|]. destruct (Z.ltb_spec 0 n) as [Hpos|Hzero].
  - apply raw_case in H as (_ & [[Hd E4]|(-> & _)]); [|by right; exists (Z.to_nat n)|done|unfold SIZE_LIM; lia].
    left. exists k, mid, (rest r'). by rewrite E1, E2, E3, E4, Hd.
  - injection H as <- _. right. by exists 0%nat.
Qed.

Lemma recv_done max_len (c : AuthKeyCtx) s t w data st :
  on_snd (rpc_recv_unencrypted max_len) (c, (s, t, w)) = Done data st ->
  exists w', st = (c, (s, t, w')) /\ onward w w' /\ n_out (w_net w') = n_out (w_net w) /\
    zlen data <= Z.max 0 max_len /\
    (delivered (n_in (w_net w)) data (n_in (w_net w')) \/ exists n, data = zeros n).
Proof.
  intros H. apply on_snd_done in H as ([[s1 t1] w1] & H & ->).
  pose proof (recv_unencrypted_at max_len s t w) as Hat. rewrite H in Hat. destruct Hat as (-> & -> & Ho & Hz).
  exists w1. split; [done|]. unfold rpc_recv_unencrypted in H.
  pose proof (transport_recv_at RPC_BUF_SIZE t w) as Ht.
  apply run_inv in H as (buf & st & E & H). rewrite on_tr_cases in E.
  destruct (transport_recv RPC_BUF_SIZE (t, w)) as [buf' [t' w']|[t' w']| |]; [|done..].
  injection E as <- <-. destruct Ht as (-> & Hw & Hbz & _ & _ & Hu). unfold RPC_BUF_SIZE in Hbz.
  destruct (Z.ltb_spec (zlen buf') 20) as [|H20]; [done|].
  fold (recv_plain_body max_len) in H. unfold with_reader in H.
  destruct (recv_plain_body _ _) as [data' r| | |] eqn:Eb; try done. injection H as <- <-.
  apply recv_body_done in Eb; [|unfold SIZE_LIM; lia].
  split; [unfold onward; rewrite Hw; cbn; split; [done|lia]|]. split; [done|]. split; [done|].
  destruct Eb as [(k & mid & pad & ->)|?]; [|by right]. left. by exists k, mid, pad.
Qed.

(** Data that begins with a constructor was delivered. *)
Lemma zeros_no_constructor n v tl : is_u32 v -> v <> 0 -> zeros n <> enc32 v ++ tl.
Proof.
  intros Hu Hv E. apply (f_equal first_word) in E. rewrite first_word_enc32 in E by done.
  apply Hv. rewrite <- E. unfold first_word, zeros. rewrite take_replicate.
  by destruct n as [|[|[|[|n]]]].
Qed.

Lemma delivered_data input data rest v tl : is_u32 v -> v <> 0 -> data = enc32 v ++ tl ->
  delivered input data rest \/ (exists n, data = zeros n) -> delivered input data rest.
Proof. intros Hu Hv -> [H|[n E]]; [done|]. by symmetry in E; apply zeros_no_constructor in E. Qed.

(** ** The messages of the client *)

Definition req_pq (nonce : list byte) : list byte := enc32 CRC_req_pq_multi ++ nonce.

(** p_q_inner_data *)
Definition p_q_inner (c : AuthKeyCtx) (p q : Z) (new_nonce : list byte) : list byte :=
  enc32 CRC_p_q_inner_data ++ enc_bytes (uint64_to_be (c_pq c)) ++ enc_bytes (uint32_to_be p) ++
  enc_bytes (uint32_to_be q) ++ c_nonce c ++ c_server_nonce c ++ new_nonce.

Definition req_dh_params (c : AuthKeyCtx) (p q fp : Z) (encrypted : list byte) : list byte :=
  enc32 CRC_req_DH_params ++ c_nonce c ++ c_server_nonce c ++ enc_bytes (uint32_to_be p) ++
  enc_bytes (uint32_to_be q) ++ enc64 fp ++ enc_bytes encrypted.

(** The factors of pq that go out; of an even pq the larger one is cut to 32
    bits. *)
Definition split_of (pq p q : Z) : Prop :=
  is_u32 p /\ is_u32 q /\ p <= q /\ (p * q = pq \/ pq mod 2 = 0 /\ 2 ^ 33 <= pq).

Lemma pq_factorize_sound {St} pq p q (st st' : St) :
  is_u64 pq -> pq_factorize pq st = Done (p, q) st' -> st' = st /\ split_of pq p q.
Proof.
  unfold pq_factorize, is_u64. intros Hu H. destruct (Z.ltb_spec pq 2) as [|H2]; [done|].
  destruct (Z.eqb_spec (pq mod 2) 0) as [He|Ho].
  - cbn zeta in H.
    assert (Hq : is_u32 (u32 (pq / 2)) /\ (2 * u32 (pq / 2) = pq \/ 2 ^ 33 <= pq)).
    { split; [apply u32_range|]. destruct (Z.lt_ge_cases pq (2 ^ 33)); [left|by right].
      unfold u32. rewrite Z.mod_small by (Z.div_mod_to_equations; lia). Z.div_mod_to_equations. lia. }
    destruct Hq as [Hq Hpq]. unfold split_of, is_u32 in *.
    destruct (Z.ltb_spec (u32 (pq / 2)) 2); injection H as <- <- <-; (split; [done|]); lia.
  - pose proof (try_c_sound 19 pq 1 st ltac:(lia)) as Hs. rewrite H in Hs.
    destruct Hs as [(Hm & Hle & Hlt) ->]. cbn [fst snd] in *. unfold split_of, is_u32. split; [done|]. lia.
Qed.

Section Steps.
Context `{C : Crypto} {HC : CryptoLaws C} `{R : Rsa} {HB : BigNumLaws B} {HR : RsaLaws R}.
Context (sk : ServerKeyState).

Let fp := telegram_server_key_get_fingerprint sk.

(** ** The first three steps *)

Lemma req_pq_done c s t w st' :
  auth_step_req_pq sk (c, (s, t, w)) = Done tt st' ->
  exists nonce sn pq id w' data,
    let c' := set_pq pq (set_server_nonce sn (set_nonce nonce c)) in
    st' = (c', (set_last_msg_id id s, t, w')) /\ onward w w' /\ drawn w 16 nonce /\ is_u64 id /\
    n_out (w_net w') = n_out (w_net w) ++ frame (plain_message id (req_pq nonce)) /\
    delivered (n_in (w_net w)) data (n_in (w_net w')) /\ res_pq_data fp c' data.
Proof.
  intros H. unfold auth_step_req_pq in H.
  apply run_inv in H as (nonce & st & E & H). apply rand_done in E as (Hd & w1 & -> & Hn1 & On1).
  rewrite (bind_Done (upd_ctx (set_nonce nonce)) _ _ tt (set_nonce nonce c, (s, t, w1))) in H by done.
  cbn zeta in H. pose proof (drawn_len _ _ _ Hd) as Hl. revert H. wdata.
  rewrite (firstn_all2 (n := 16)) by lia. fold (req_pq nonce). intros H.
  assert (Hz : zlen (req_pq nonce) = 20) by (unfold req_pq; rewrite zlen_app, enc32_len; unfold zlen; lia).
  apply run_inv in H as ([] & st & E & H).
  apply send_done in E as (id & w2 & Hid & -> & On2 & Ho2 & Hi2); [|lia].
  apply run_inv in H as (data & st & E & H). apply recv_done in E as (w3 & -> & On3 & Ho3 & Hz3 & Hdel).
  apply parser_done in H as (r' & c' & E & ->).
  apply parse_res_pq_sound in E as (sn & pq & -> & Hdata); [|unfold SIZE_LIM; lia].
  exists nonce, sn, pq, id, w3, data. cbn zeta.
  split_and!; try done.
  - eauto using onward_trans.
  - by rewrite Ho3, Ho2, Hn1.
  - rewrite Hi2, Hn1 in Hdel. destruct Hdata as (? & ? & ? & _ & _ & _ & E).
    exact (delivered_data _ _ _ CRC_resPQ _ ltac:(done) ltac:(done) E Hdel).
Qed.

(** What the server finds when it decrypts the RSA block. *)
Definition rsa_block (c : AuthKeyCtx) (p q : Z) (new_nonce pad : list byte) : list byte :=
  Byte.x00 :: crypto_sha1 (p_q_inner c p q new_nonce) ++ p_q_inner c p q new_nonce ++ pad.

Lemma encrypt_done key d (c : AuthKeyCtx) s t w out st :
  rsa_sha1_encrypt key d (c, (s, t, w)) = Done out st ->
  exists pad w', st = (c, (s, t, w')) /\ onward w w' /\ w_net w' = w_net w /\
    zlen d + zlen pad = 235 /\ zlen out <= 256 /\
    pkey_encrypt key (Byte.x00 :: crypto_sha1 d ++ d ++ pad) = Some out.
Proof.
  unfold rsa_sha1_encrypt. destruct (Z.ltb_spec 235 (zlen d)) as [|Hl]; [done|]. intros H.
  apply run_inv in H as (pad & st1 & E & H). apply rand_done in E as (Hd & w1 & -> & Hn1 & On1).
  apply drawn_len in Hd. unfold crypto_rsa_public_encrypt in H.
  destruct (pkey_size key <=? 0); [done|]. destruct (pkey_encrypt key _) as [o|] eqn:Ee; [|done].
  apply run_inv in H as ([] & st2 & E & H). unfold fits in E.
  destruct (Z.ltb_spec 256 (zlen o)); [done|]. injection E as <-. injection H as <- <-.
  exists pad, w1. split_and!; try done; unfold zlen in *; lia.
Qed.

Lemma req_dh_done c s t w st' : ctx_wf c ->
  auth_step_req_dh sk (c, (s, t, w)) = Done tt st' ->
  exists p q new_nonce key pad enc id w',
    st' = (set_new_nonce new_nonce (set_p_q (p, q) c), (set_last_msg_id id s, t, w')) /\
    onward w w' /\ drawn w 32 new_nonce /\ is_u64 id /\ split_of (c_pq c) p q /\
    crypto_rsa_load_public (telegram_server_key_get_pem sk) = Some key /\
    zlen (p_q_inner c p q new_nonce) + zlen pad = 235 /\
    pkey_encrypt key (rsa_block c p q new_nonce pad) = Some enc /\
    n_out (w_net w') = n_out (w_net w) ++ frame (plain_message id (req_dh_params c p q fp enc)) /\
    n_in (w_net w') = n_in (w_net w).
Proof.
  intros Hc H. unfold auth_step_req_dh in H.
  rewrite (bind_Done get_fst _ _ c (c, (s, t, w))) in H by done.
  apply run_inv in H as ([p q] & st & E & H). apply pq_factorize_sound in E as [-> Hpq]; [|apply Hc].
  rewrite (bind_Done (upd_ctx (set_p_q (p, q))) _ _ tt (set_p_q (p, q) c, (s, t, w))) in H by done.
  apply run_inv in H as (new_nonce & st & E & H). apply rand_done in E as (Hd & w1 & -> & Hn1 & On1).
  pose proof (drawn_len _ _ _ Hd) as Hl.
  set (c' := set_new_nonce new_nonce (set_p_q (p, q) c)) in *.
  rewrite (bind_Done (upd_ctx (set_new_nonce new_nonce)) _ _ tt (c', (s, t, w1))) in H by done.
  cbn zeta in H. cbn [fst snd] in H.
  destruct (crypto_rsa_load_public (telegram_server_key_get_pem sk)) as [key|] eqn:Ek; [|done].
  pose proof (uint32_to_be_len p). pose proof (uint32_to_be_len q).
  pose proof (uint64_to_be_len (c_pq c)). assert (Hc' := Hc). destruct Hc' as (Hn & Hsn & _).
  revert H. wdata. rewrite !(firstn_all2 (n := 16)), (firstn_all2 (n := 32)) by lia. rewrite <- !app_assoc.
  fold (p_q_inner c p q new_nonce). intros H.
  apply run_inv in H as (enc & st & E & H). apply encrypt_done in E as (pad & w2 & -> & On2 & Hn2 & Hz & Hez & He).
  revert H. wdata. rewrite !(firstn_all2 (n := 16)) by lia. rewrite <- !app_assoc.
  fold fp. fold (req_dh_params c p q fp enc). intros H.
  assert (Hd335 : zlen (req_dh_params c p q fp enc) < 2 ^ 32).
  { unfold req_dh_params. rewrite !zlen_app, enc32_len, enc64_len.
    pose proof (enc_bytes_len (uint32_to_be p)). pose proof (enc_bytes_len (uint32_to_be q)).
    pose proof (enc_bytes_len enc). unfold zlen at 1 2. lia. }
  apply send_done in H as (id & w3 & Hid & -> & On3 & Ho3 & Hi3); [|done].
  exists p, q, new_nonce, key, pad, enc, id, w3. split_and!; try done.
  - eauto using onward_trans.
  - by rewrite Ho3, Hn2, Hn1.
  - by rewrite Hi3, Hn2, Hn1.
Qed.

End Steps.

Definition dh_params_data (c : AuthKeyCtx) (enc data : list byte) : Prop :=
  exists e tl, tl_bytes enc e /\
    data = enc32 CRC_server_DH_params_ok ++ c_nonce c ++ c_server_nonce c ++ e ++ tl.

Section Answer.
Context `{C : Crypto} {HC : CryptoLaws C}.
Context (malloc_bytes : nat -> list byte) (Hmalloc : malloc_sized malloc_bytes).

(** The encrypted answer under the temporary key, behind the hash. *)
Definition answer_inner (c : AuthKeyCtx) (enc : list byte) : list byte :=
  let tmp := dh_derive_temp_aes (c_new_nonce c) (c_server_nonce c) in
  drop 20 (aes_ige_decrypt enc (fst tmp) (snd tmp) (malloc_bytes (length enc))).

Lemma parse_dh_done c s t w st' : ctx_wf c ->
  auth_step_parse_dh malloc_bytes (c, (s, t, w)) = Done tt st' ->
  exists enc data g prime ga time w',
    let c' := with_inner g prime ga time
                (set_tmp_aes (dh_derive_temp_aes (c_new_nonce c) (c_server_nonce c)) c) in
    st' = (c', (s, t, w')) /\ onward w w' /\ n_out (w_net w') = n_out (w_net w) /\
    2 <= g <= 7 /\ zlen prime <= 256 /\ zlen ga <= 256 /\
    delivered (n_in (w_net w)) data (n_in (w_net w')) /\ dh_params_data c enc data /\
    dh_inner_data c g prime ga (answer_inner c enc).
Proof.
  intros Hc H. unfold auth_step_parse_dh in H.
  apply run_inv in H as (data & st & E & H). apply recv_done in E as (w1 & -> & On & Ho & Hz & Hdel).
  apply run_inv in H as (enc & st & E & H). apply parser_done in E as (r' & c' & E & ->).
  apply parse_dh_params_sound in E as (-> & e & tl & He & Edata); [|unfold SIZE_LIM; lia].
  rewrite (bind_Done get_fst _ _ c (c, (s, t, w1))) in H by done. cbn zeta in H.
  set (tmp := dh_derive_temp_aes (c_new_nonce c) (c_server_nonce c)) in *.
  rewrite (bind_Done (upd_ctx (set_tmp_aes tmp)) _ _ tt (set_tmp_aes tmp c, (s, t, w1))) in H by done.
  destruct (zlen enc <? 20 + 4); [done|].
  apply parser_done in H as (r & c' & E & ->).
  assert (Hel : zlen enc <= 4096).
  { destruct He as (pre & pad & -> & _ & _). rewrite Edata in Hz. rewrite !zlen_app in Hz.
    repeat match type of Hz with context [zlen ?l] => pose proof (zlen_nonneg l); generalize dependent (zlen l); intros end.
    lia. }
  destruct (derive_len (c_new_nonce c) (c_server_nonce c)) as [Hk Hi]; [apply Hc|].
  apply parse_dh_inner_sound in E as (g & prime & ga & time & Hg & Hp & Hga & -> & Hin).
  2: { pose proof (decrypt_len_le enc (fst tmp) (snd tmp) (malloc_bytes (length enc)) Hi (Hmalloc _)) as Hd.
       unfold zlen in *. rewrite length_drop, Hd. unfold SIZE_LIM. lia. }
  exists enc, data, g, prime, ga, time, w1. cbn zeta. split_and!; try done; try lia.
  - exact (delivered_data _ _ _ CRC_server_DH_params_ok _ ltac:(done) ltac:(done) Edata Hdel).
  - by exists e, tl.
Qed.

End Answer.

(** ** The last step *)

(** The two powers of the last step. *)
Definition dh_g_b (c : AuthKeyCtx) (b : list byte) : list byte :=
  be_split (length (dh_prime c)) (u32 (c_g c) ^ be_combine b mod be_combine (dh_prime c)).

Definition dh_key (c : AuthKeyCtx) (b : list byte) : list byte :=
  be_split 256 (be_combine (g_a c) ^ be_combine b mod be_combine (dh_prime c)).

(** The session after a finished exchange. *)
Definition authorized (s : MtProtoSession) (c : AuthKeyCtx) (b : list byte) (id : Z) : MtProtoSession :=
  set_salt (initial_salt (c_new_nonce c) (c_server_nonce c))
    (set_has_key true (set_key (dh_key c b) (set_last_msg_id id s))).

Lemma be_split_bound n v : zlen (be_split n v) = Z.of_nat n.
Proof. apply be_split_len. Qed.

Section Done.
Context `{C : Crypto} {HC : CryptoLaws C} `{R : Rsa} {HB : BigNumLaws B}.
Context (malloc_bytes : nat -> list byte) (Hmalloc : malloc_sized malloc_bytes).

Lemma dh_prime_len c : ctx_wf c -> (length (dh_prime c) <= 256)%nat.
Proof. intros Hc. pose proof (dh_prime_bound c Hc). unfold zlen in *. lia. Qed.

Lemma power_below x e m n : 0 < be_combine m -> (length m <= n)%nat ->
  0 <= x ^ e mod be_combine m < 2 ^ (8 * Z.of_nat n).
Proof.
  intros Hp Hn. pose proof (Z.mod_pos_bound (x ^ e) (be_combine m) Hp).
  pose proof (be_combine_range m) as [_ Hr]. unfold zlen in Hr.
  assert (2 ^ (8 * Z.of_nat (length m)) <= 2 ^ (8 * Z.of_nat n)) by (apply Z.pow_le_mono_r; lia).
  lia.
Qed.

(** The padded key of the code. *)
Lemma dh_key_padded c b : ctx_wf c -> 0 < be_combine (dh_prime c) ->
  pad_auth_key (be_split (length (dh_prime c))
    (be_combine (g_a c) ^ be_combine b mod be_combine (dh_prime c))) = dh_key c b.
Proof.
  intros Hc Hp. pose proof (dh_prime_len c Hc). unfold dh_key.
  rewrite pad_key_val by (rewrite be_split_bound; lia). f_equal.
  by apply be_combine_split, power_below.
Qed.

Lemma g_b_at c b st : ctx_wf c -> 0 < be_combine (dh_prime c) ->
  crypto_bn_mod_exp 256 (uint32_to_be (u32 (c_g c))) b (dh_prime c) st =
    Done (dh_g_b c b) (st : AuthKeyCtx * (MtProtoSession * Transport * World)).
Proof.
  intros Hc Hp. rewrite mod_exp_at by (done || by apply dh_prime_bound).
  by rewrite uint32_to_be_val by apply u32_range.
Qed.

Lemma key_at c b st : ctx_wf c -> 0 < be_combine (dh_prime c) ->
  crypto_bn_mod_exp 256 (g_a c) b (dh_prime c) st =
    Done (be_split (length (dh_prime c))
      (be_combine (g_a c) ^ be_combine b mod be_combine (dh_prime c)))
      (st : AuthKeyCtx * (MtProtoSession * Transport * World)).
Proof. intros Hc Hp. by rewrite mod_exp_at by (done || by apply dh_prime_bound). Qed.

(** What the client encrypts for the server: hash, inner data, padding. *)
Definition client_plain (c : AuthKeyCtx) (b pad : list byte) : list byte :=
  crypto_sha1 (client_inner c (dh_g_b c b)) ++ client_inner c (dh_g_b c b) ++ pad.

Definition client_cipher (c : AuthKeyCtx) (b pad : list byte) : list byte :=
  aes_ige_encrypt (client_plain c b pad) (c_tmp_aes_key c) (c_tmp_aes_iv c)
    (malloc_bytes (length (client_plain c b pad))).

Definition client_pad_len (c : AuthKeyCtx) (b : list byte) : Z :=
  let n := 20 + zlen (client_inner c (dh_g_b c b)) in padded_len n - n.

(** The step with its powers and messages named. *)
Definition set_client_dh_spec : AM unit :=
  b ← rand_bytes 256;
  upd_ctx (set_b b) ;;
  ctx ← get_fst;
  pad ← rand_bytes (Z.to_nat (client_pad_len ctx b));
  on_snd (rpc_send_unencrypted (set_client_params ctx (client_cipher ctx b pad))) ;;
  buf ← on_snd (rpc_recv_unencrypted 4096);
  hash ← with_parser buf parse_dh_gen;
  if negb (bytes_eq (nonce_hash1 (c_new_nonce ctx) (dh_key ctx b)) hash) then fail
  else
    on_snd (on_ses (mtproto_session_set_auth_key (dh_key ctx b))) ;;
    on_snd (on_ses (mtproto_session_set_salt (initial_salt (c_new_nonce ctx) (c_server_nonce ctx)))).

Lemma set_b_same c b : dh_prime (set_b b c) = dh_prime c /\ g_a (set_b b c) = g_a c.
Proof. done. Qed.

Lemma client_plain_len c b pad : ctx_wf c -> length pad = Z.to_nat (client_pad_len c b) ->
  zlen (client_plain c b pad) mod 16 = 0 /\ 0 < zlen (client_plain c b pad) <= 400 /\
  zlen (client_inner c (dh_g_b c b)) mod 4 = 0 /\ zlen (client_inner c (dh_g_b c b)) <= 307.
Proof.
  intros Hc Hpad. pose proof (dh_prime_len c Hc) as Hp. destruct Hc as (H1 & H2 & _).
  assert (Hi : zlen (client_inner c (dh_g_b c b)) = 44 + zlen (enc_bytes (dh_g_b c b))).
  { unfold client_inner. rewrite !zlen_app, enc32_len, enc64_len. unfold zlen at 1 2. lia. }
  destruct (enc_bytes_len (dh_g_b c b)) as [Hm Hb].
  assert (Hg : zlen (dh_g_b c b) = Z.of_nat (length (dh_prime c))) by apply be_split_bound.
  destruct (padded_len_bound (20 + zlen (client_inner c (dh_g_b c b)))) as [Hpl Hpm]; [lia|].
  assert (Hz : zlen (client_plain c b pad) = padded_len (20 + zlen (client_inner c (dh_g_b c b)))).
  { unfold client_plain. rewrite !zlen_app. unfold zlen at 1 3. rewrite sha1_len, Hpad.
    unfold client_pad_len. rewrite Z2Nat.id by lia. lia. }
  rewrite Hz. split_and!; [done|lia|lia| |lia]. rewrite Hi. Z.div_mod_to_equations. lia.
Qed.

Lemma client_cipher_len c b pad : ctx_wf c -> length (client_cipher c b pad) = length (client_plain c b pad).
Proof. intros Hc. apply encrypt_len_le; [apply Hc|apply Hmalloc]. Qed.

Lemma client_params_len c b pad : ctx_wf c -> length pad = Z.to_nat (client_pad_len c b) ->
  zlen (set_client_params c (client_cipher c b pad)) mod 4 = 0 /\
  0 < zlen (set_client_params c (client_cipher c b pad)) <= 443.
Proof.
  intros Hc Hpad. destruct (client_plain_len c b pad Hc Hpad) as (_ & Hl & _).
  pose proof (client_cipher_len c b pad Hc) as Hcl.
  destruct (enc_bytes_len (client_cipher c b pad)) as [Hm Hb].
  assert (Hz : zlen (set_client_params c (client_cipher c b pad)) =
               36 + zlen (enc_bytes (client_cipher c b pad))).
  { unfold set_client_params. rewrite !zlen_app, enc32_len. unfold zlen at 1 2.
    destruct Hc as (H1 & H2 & _). lia. }
  rewrite Hz. unfold zlen in *. split; [Z.div_mod_to_equations; lia|lia].
Qed.

(** What the server decrypts from the last message. *)
Lemma client_cipher_decrypts c b pad out : ctx_wf c -> length pad = Z.to_nat (client_pad_len c b) ->
  length out = length (client_plain c b pad) ->
  aes_ige_decrypt (client_cipher c b pad) (c_tmp_aes_key c) (c_tmp_aes_iv c) out = client_plain c b pad.
Proof.
  intros Hc Hpad Ho. destruct (client_plain_len c b pad Hc Hpad) as (Hm & Hl & _).
  apply aes_ige_inverse; try done; try apply Hc; try apply Hmalloc; lia.
Qed.

Lemma set_b_wf c b : ctx_wf c -> length b = 256%nat -> ctx_wf (set_b b c).
Proof. intros Hc Hb. ctx_tac. Qed.

(** The code computes the specification. *)
Lemma set_client_dh_spec_at c s t w :
  ctx_wf c -> 0 < be_combine (dh_prime c) ->
  auth_step_set_client_dh malloc_bytes (c, (s, t, w)) = set_client_dh_spec (c, (s, t, w)).
Proof.
  intros Hc0 Hp0. unfold auth_step_set_client_dh, set_client_dh_spec.
  apply bind_same. intros b st E. apply rand_done in E as (Hb & w1 & -> & _). apply drawn_len in Hb.
  assert (Hc : ctx_wf (set_b b c)) by by apply set_b_wf.
  rewrite !(bind_Done (upd_ctx (set_b b)) _ _ tt (set_b b c, (s, t, w1))) by done.
  rewrite !(bind_Done get_fst _ _ (set_b b c) (set_b b c, (s, t, w1))) by done.
  set (ctx := set_b b c) in *.
  assert (Hp : 0 < be_combine (dh_prime ctx)) by exact Hp0. clearbody ctx. cbn zeta.
  rewrite (bind_Done _ _ _ _ _ (g_b_at ctx b _ Hc Hp)).
  assert (Hg : zlen (dh_g_b ctx b) <= 256)
    by (unfold dh_g_b; rewrite be_split_bound; pose proof (dh_prime_len ctx Hc); lia).
  rewrite (proj2 (client_inner_len ctx (dh_g_b ctx b) Hg)).
  rewrite (client_inner_data ctx (dh_g_b ctx b) Hc Hg). fold (client_pad_len ctx b).
  apply bind_same. intros pad st Epad. apply rand_done in Epad as (Hpad & _). apply drawn_len in Hpad.
  change (crypto_sha1 (client_inner ctx (dh_g_b ctx b)) ++ client_inner ctx (dh_g_b ctx b) ++ pad)
    with (client_plain ctx b pad).
  fold (client_cipher ctx b pad).
  pose proof (client_plain_len ctx b pad Hc Hpad) as (_ & Hl & _).
  pose proof (client_cipher_len ctx b pad Hc) as Hcl.
  assert (Hz : zlen (client_cipher ctx b pad) <= 400) by (unfold zlen in *; lia).
  wdata. rewrite !(firstn_all2 (n := 16)) by (destruct Hc as (H1 & H2 & _); lia).
  rewrite <- !app_assoc. fold (set_client_params ctx (client_cipher ctx b pad)).
  apply bind_same. intros _ st1 _. apply bind_same. intros buf st2 _.
  apply bind_same. intros hash st3 _.
  rewrite (bind_Done _ _ _ _ _ (key_at ctx b st3 Hc Hp)). by rewrite dh_key_padded.
Qed.

Lemma finish_at (key : list byte) salt (c : AuthKeyCtx) s t w :
  length key = 256%nat ->
  (on_snd (on_ses (mtproto_session_set_auth_key key)) ;;
   on_snd (on_ses (mtproto_session_set_salt salt))) (c, (s, t, w)) =
  Done tt (c, (set_salt salt (set_has_key true (set_key key s)), t, w)).
Proof.
  intros Hk. unfold on_snd, on_ses, mtproto_session_set_auth_key, mtproto_session_set_salt,
    modify_session, get_fst, put_fst, mbind, M_bind. cbn [fst snd].
  by rewrite (firstn_all2 (n := 256)) by lia.
Qed.

(** A step that succeeded had a modulus: the power of zero fails. *)
Lemma set_client_dh_prime c s t w st' :
  ctx_wf c -> nonzero_rand (w_rand w) ->
  auth_step_set_client_dh malloc_bytes (c, (s, t, w)) = Done tt st' -> 0 < be_combine (dh_prime c).
Proof.
  intros Hc Hr H. pose proof (be_combine_range (dh_prime c)) as [Hp _].
  destruct (Z.eq_dec (be_combine (dh_prime c)) 0) as [E0|]; [exfalso|lia].
  unfold auth_step_set_client_dh in H.
  apply run_inv in H as (b & st & E & H). apply rand_done in E as ((pos & _ & Hb) & w1 & -> & _).
  rewrite (bind_Done (upd_ctx (set_b b)) _ _ tt (set_b b c, (s, t, w1))) in H by done.
  rewrite (bind_Done get_fst _ _ (set_b b c) (set_b b c, (s, t, w1))) in H by done. cbn zeta in H.
  apply run_inv in H as (gb & st & E & _). unfold crypto_bn_mod_exp in E.
  rewrite mod_exp_zero in E; [done| |by rewrite bin2bn_val].
  rewrite bin2bn_val, Hb. apply Hr.
Qed.

(** What a finished last step has done. *)
Lemma set_client_dh_done c s t w st' :
  ctx_wf c -> 0 < be_combine (dh_prime c) ->
  auth_step_set_client_dh malloc_bytes (c, (s, t, w)) = Done tt st' ->
  exists b pad id w' data,
    st' = (set_b b c, (authorized s c b id, t, w')) /\ onward w w' /\ drawn w 256 b /\ is_u64 id /\
    length pad = Z.to_nat (client_pad_len c b) /\
    n_out (w_net w') =
      n_out (w_net w) ++ frame (plain_message id (set_client_params c (client_cipher c b pad))) /\
    delivered (n_in (w_net w)) data (n_in (w_net w')) /\
    (nonce_hash1 (c_new_nonce c) (dh_key c b) <> zeros 16 ->
     exists sn tl, length sn = 16%nat /\
       data = dh_gen_ok (c_nonce c) sn (nonce_hash1 (c_new_nonce c) (dh_key c b)) ++ tl).
Proof.
  intros Hc0 Hp0 H. rewrite set_client_dh_spec_at in H by done. unfold set_client_dh_spec in H.
  apply run_inv in H as (b & st & E & H). apply rand_done in E as (Hd & w0 & -> & Hn0 & On0).
  pose proof (drawn_len _ _ _ Hd) as Hb.
  assert (Hc : ctx_wf (set_b b c)) by by apply set_b_wf.
  rewrite (bind_Done (upd_ctx (set_b b)) _ _ tt (set_b b c, (s, t, w0))) in H by done.
  rewrite (bind_Done get_fst _ _ (set_b b c) (set_b b c, (s, t, w0))) in H by done.
  apply run_inv in H as (pad & st & E & H). apply rand_done in E as (Hpad & w1 & -> & Hn1 & On1).
  apply drawn_len in Hpad.
  destruct (client_params_len (set_b b c) b pad Hc Hpad) as [_ Hl].
  apply run_inv in H as ([] & st & E & H).
  apply send_done in E as (id & w2 & Hid & -> & On2 & Ho2 & Hi2); [|lia].
  apply run_inv in H as (data & st & E & H). apply recv_done in E as (w3 & -> & On3 & Ho3 & Hz3 & Hdel).
  apply run_inv in H as (hash & st & E & H). apply parser_done in E as (r & c' & Ep & ->).
  apply parse_dh_gen_sound in Ep as (-> & (tl & Et) & Hh); [|unfold SIZE_LIM; lia].
  destruct (bytes_eq _ hash) eqn:Eh; [|done]. apply bool_decide_eq_true in Eh. cbn [negb] in H.
  rewrite finish_at in H by (unfold dh_key, be_split; by rewrite length_rev, length_le_split).
  change (dh_key (set_b b c) b) with (dh_key c b) in *. injection H as <-.
  exists b, pad, id, w3, data. split_and!; try done.
  - eauto using onward_trans.
  - by rewrite Ho3, Ho2, Hn1, Hn0.
  - rewrite Hi2, Hn1, Hn0 in Hdel. exact (delivered_data _ _ _ CRC_dh_gen_ok _ ltac:(done) ltac:(done) Et Hdel).
  - intros Hz. rewrite <- Eh in Hh. destruct Hh as [?|(sn & tl' & Hdata & Hsn)]; [done|].
    by exists sn, tl'.
Qed.

End Done.
