(* ===== verification/AuthHonest.v ===== *)
(** * The exchange with an honest server (src/infrastructure/mtproto_auth.c)

    A server that follows the protocol, a network that delivers and a random
    generator whose bytes are named: every step succeeds, the server reads what
    the protocol wants in each message ([serves]), and both sides end with the
    same key. *)

From S2P Require Import Prelude TlSerial TlLogic World IgeAes MtprotoCrypto MtprotoSession.
From S2P Require Import Transport MtprotoRpc RpcCorrect Request BigNum ServerKey PqFactor MtprotoAuth.
From S2P Require Import AuthCorrect AuthSafe AuthRun.

(** ** Parsers that check the context *)

Lemma parses_int128 (c : AuthKeyCtx) n : length n = 16%nat -> parses (lift tl_read_int128) c n n c.
Proof.
  intros Hn. apply parses_lift. unfold tl_read_int128.
  replace 16 with (zlen n) by (unfold zlen; lia). apply reads_raw. unfold zlen. lia.
Qed.

Lemma parses_nonce f (c : AuthKeyCtx) n : f c = n -> length n = 16%nat -> parses (read_nonce f) c n tt c.
Proof.
  intros Hf Hn. apply parses_end. eapply parses_bind; [by apply parses_int128|].
  intros r tl _ _. unfold check_ctx, fail_if. cbn [snd]. unfold bytes_eq.
  rewrite bool_decide_eq_true_2 by done. cbn [negb]. by rewrite zlen_nil, adv_0.
Qed.

(** ** The server's answers *)

Definition res_pq (nonce server_nonce pq : list byte) (fps : list Z) : list byte :=
  enc32 CRC_resPQ ++ nonce ++ server_nonce ++ enc_bytes pq ++ enc32 TL_VECTOR_CTOR ++
  enc32 (zlen fps) ++ concat (map enc64 fps).

Definition dh_inner (nonce server_nonce : list byte) (g : Z) (prime ga : list byte) (time : Z) : list byte :=
  enc32 CRC_server_DH_inner_data ++ nonce ++ server_nonce ++ enc32 g ++ enc_bytes prime ++
  enc_bytes ga ++ enc32 time.

Definition dh_params (nonce server_nonce enc_answer : list byte) : list byte :=
  enc32 CRC_server_DH_params_ok ++ nonce ++ server_nonce ++ enc_bytes enc_answer.

Lemma parses_fingerprints (c : AuthKeyCtx) our fps found :
  Forall is_u64 fps ->
  parses (lift (read_fingerprints (length fps) our found)) c (concat (map enc64 fps))
    (found || existsb (fun fp => fp =? our) fps) c.
Proof.
  intros Hf. apply parses_lift. revert found. induction Hf as [|fp fps Hfp _ IH]; intros found.
  - cbn. rewrite orb_false_r. apply reads_ret.
  - cbn [length read_fingerprints map concat existsb]. rewrite orb_assoc.
    eapply reads_bind; [by apply reads_uint64|apply IH].
Qed.

Lemma parses_res_pq c our sn pq fps :
  length (c_nonce c) = 16%nat -> length sn = 16%nat -> zlen pq < 2 ^ 24 ->
  Forall is_u64 fps -> In our fps -> zlen fps <= MAX_FP_COUNT ->
  parses (parse_res_pq our) c (res_pq (c_nonce c) sn pq fps) tt
    (set_pq (u64 (be_combine pq)) (set_server_nonce sn c)).
Proof.
  intros Hn Hsn Hpq Hfp Hin Hlen. unfold parse_res_pq, res_pq, MAX_FP_COUNT in *.
  eapply parses_bind; [by apply parses_u32|]. cbn [negb Z.eqb].
  eapply parses_bind; [by apply parses_nonce|].
  eapply parses_bind; [by apply parses_int128|]. apply parses_set_then.
  eapply parses_bind; [by apply parses_bytes|]. cbn beta iota.
  rewrite <- be_to_uint64_correct. apply parses_set_then.
  eapply parses_bind; [by apply parses_u32|]. pose proof (zlen_nonneg fps).
  eapply parses_bind; [apply parses_u32; unfold is_u32; lia|]. cbn beta.
  rewrite (proj2 (Z.ltb_ge _ _)) by lia. apply parses_end.
  unfold zlen. rewrite Nat2Z.id.
  eapply parses_bind; [by apply parses_fingerprints|]. cbn beta. cbn [orb].
  assert (existsb (fun fp => fp =? our) fps = true) as ->; [|apply parses_ret].
  apply existsb_exists. exists our. split; [done|apply Z.eqb_refl].
Qed.

Lemma parses_dh_params c enc :
  length (c_nonce c) = 16%nat -> length (c_server_nonce c) = 16%nat -> 0 < zlen enc < 2 ^ 24 ->
  parses parse_dh_params c (dh_params (c_nonce c) (c_server_nonce c) enc) enc c.
Proof.
  intros Hn Hsn Henc. unfold parse_dh_params, dh_params.
  eapply parses_bind; [by apply parses_u32|]. cbn [negb Z.eqb].
  eapply parses_bind; [by apply parses_nonce|]. eapply parses_bind; [by apply parses_nonce|].
  apply parses_end. eapply parses_bind; [apply parses_bytes; lia|]. cbn beta iota.
  destruct enc; [unfold zlen in Henc; cbn in Henc; lia|apply parses_ret].
Qed.

Lemma parses_dh_inner c g prime ga time :
  length (c_nonce c) = 16%nat -> length (c_server_nonce c) = 16%nat -> 2 <= g <= 7 ->
  zlen prime <= 256 -> zlen ga <= 256 -> is_s32 time ->
  parses parse_dh_inner c (dh_inner (c_nonce c) (c_server_nonce c) g prime ga time) tt
    (with_inner g prime ga time c).
Proof.
  intros Hn Hsn Hg Hp Hga Ht. unfold parse_dh_inner, dh_inner.
  eapply parses_bind; [by apply parses_u32|]. cbn [negb Z.eqb].
  eapply parses_bind; [by apply parses_nonce|]. eapply parses_bind; [by apply parses_nonce|].
  eapply parses_bind; [apply parses_s32; unfold is_s32; lia|]. apply parses_set_then.
  rewrite !(proj2 (Z.ltb_ge _ _)) by lia. cbn [orb].
  eapply parses_bind; [apply parses_bytes; lia|]. cbn beta iota.
  rewrite (proj2 (Z.ltb_ge _ _)) by lia. apply parses_set_then.
  eapply parses_bind; [apply parses_bytes; lia|]. cbn beta iota.
  rewrite (proj2 (Z.ltb_ge _ _)) by lia. apply parses_set_then. apply parses_end.
  eapply parses_bind; [by apply parses_s32|]. apply (parses_set (set_server_time time)).
Qed.

Lemma parses_dh_gen c sn hash :
  length (c_nonce c) = 16%nat -> length sn = 16%nat -> length hash = 16%nat ->
  parses parse_dh_gen c (dh_gen_ok (c_nonce c) sn hash) hash c.
Proof.
  intros Hn Hsn Hh. unfold parse_dh_gen, dh_gen_ok.
  eapply parses_bind; [by apply parses_u32|].
  change (CRC_dh_gen_ok =? CRC_dh_gen_retry) with false.
  change (CRC_dh_gen_ok =? CRC_dh_gen_fail) with false.
  change (CRC_dh_gen_ok =? CRC_dh_gen_ok) with true. cbn [negb].
  eapply parses_bind; [by apply parses_nonce|].
  eapply parses_bind; [by apply parses_int128|]. by apply parses_int128.
Qed.

(** ** The environment

    The generator's next bytes, a network that delivers [ns] pieces of what
    is sent and [nr] pieces of what is received, and the bytes to receive. *)

Definition env (w : World) (bs : list byte) (ns nr : Z) (input : list byte) : Prop :=
  map (w_rand w) (seq (w_rpos w) (length bs)) = bs /\
  Forall patient (n_send_evs (w_net w)) /\ ns <= deliveries (n_send_evs (w_net w)) /\
  Forall patient (n_recv_evs (w_net w)) /\ nr <= deliveries (n_recv_evs (w_net w)) /\
  n_in (w_net w) = input.

Lemma env_weaken w bs ns nr ns' nr' input :
  env w bs ns nr input -> ns' <= ns -> nr' <= nr -> env w bs ns' nr' input.
Proof. intros (? & ? & ? & ? & ? & ?) Hs Hr. split_and!; try done; lia. Qed.

Lemma draws_app w a b :
  map (w_rand w) (seq (w_rpos w) (length (a ++ b))) = a ++ b ->
  map (w_rand w) (seq (w_rpos w) (length a)) = a /\
  map (w_rand w) (seq (w_rpos w + length a) (length b)) = b.
Proof.
  rewrite length_app, seq_app, map_app. intros H.
  apply app_inj_1 in H; [done|]. by rewrite length_map, length_seq.
Qed.

Lemma env_rand w a bs ns nr input c s t :
  env w (a ++ bs) ns nr input ->
  exists w', rand_bytes (length a) (c, (s, t, w)) = Done a (c, (s, t, w')) /\ env w' bs ns nr input /\
    w_net w' = w_net w.
Proof.
  intros (Hd & He). apply draws_app in Hd as [Ha Hb].
  unfold rand_bytes, on_snd, crypto_rand_bytes. cbn [fst snd]. rewrite Ha.
  eexists. split; [done|]. split; [|done]. split; [exact Hb|exact He].
Qed.

Lemma env_send w ids bs ns nr input (c : AuthKeyCtx) s t data :
  env w (ids ++ bs) ns nr input -> length ids = 4%nat -> 0 <= fd t ->
  zlen data mod 4 = 0 -> zlen data < 488 -> 21 + zlen data <= ns ->
  exists id w', on_snd (rpc_send_unencrypted data) (c, (s, t, w)) =
      Done tt (c, (set_last_msg_id id s, t, w')) /\
    env w' bs (ns - (21 + zlen data)) nr input /\
    n_out (w_net w') = n_out (w_net w) ++ frame (plain_message id data).
Proof.
  intros (Hd & Hps & Hs & Hpr & Hr & Hin) Hl Hfd Hm Hz Hns. pose proof (zlen_nonneg data).
  destruct (send_unencrypted_runs data s t w ltac:(lia)) as (id & w1 & _ & Hn & Hrand & Hpos & E).
  apply draws_app in Hd as [_ Hd]. rewrite Hl, <- Hpos, <- Hrand in Hd.
  pose proof (plain_message_len id data) as Hpl.
  destruct (transport_send_patient t w1 (plain_message id data)) as (n' & Es & Hi & Hre & Hout & Hps' & Hd');
    try done; try lia.
  { rewrite Hpl. Z.div_mod_to_equations. lia. }
  { by rewrite Hn. }
  { rewrite Hn. lia. }
  exists id, (set_net w1 n'). split.
  - unfold on_snd. cbn [fst snd]. by rewrite E, on_tr_cases, Es.
  - unfold env. cbn [set_net w_net w_rand w_rpos]. rewrite Hre, Hi, Hn in *. split; [|exact Hout]. split_and!; try done. lia.
Qed.

Lemma reads_plain mid data :
  is_u64 mid -> zlen data <= 4096 ->
  reads (tl_read_uint64 ;; tl_read_uint64 ;;
         data_len ← tl_read_uint32; read_payload 4096 data_len) (plain_message mid data) data.
Proof.
  intros Hmid Hz. unfold plain_message. pose proof (zlen_nonneg data).
  eapply reads_bind; [by apply reads_uint64|]. eapply reads_bind; [by apply reads_uint64|].
  eapply reads_bind; [apply reads_uint32; unfold is_u32; lia|]. cbn beta. unfold read_payload.
  rewrite (proj2 (Z.ltb_ge _ _)) by lia. destruct (Z.ltb_spec 0 (zlen data)); [by apply reads_raw|].
  destruct data; [apply reads_ret|]. rewrite zlen_cons in *. pose proof (zlen_nonneg data). lia.
Qed.

Lemma env_recv w bs ns nr mid data input (c : AuthKeyCtx) s t :
  env w bs ns nr (frame (plain_message mid data) ++ input) -> 0 <= fd t -> is_u64 mid ->
  zlen data mod 4 = 0 -> zlen data <= 4096 -> 22 + zlen data <= nr ->
  exists w', on_snd (rpc_recv_unencrypted 4096) (c, (s, t, w)) = Done data (c, (s, t, w')) /\
    env w' bs ns (nr - (22 + zlen data)) input /\ n_out (w_net w') = n_out (w_net w).
Proof.
  intros (Hd & Hps & Hs & Hpr & Hr & Hin) Hfd Hmid Hm Hz Hnr. pose proof (zlen_nonneg data).
  pose proof (plain_message_len mid data) as Hpl.
  assert (Hfr : framable (plain_message mid data))
    by (split; rewrite Hpl; Z.div_mod_to_equations; lia).
  assert (Hmax : zlen (plain_message mid data) <= RPC_BUF_SIZE) by (unfold RPC_BUF_SIZE; lia).
  destruct (transport_recv_patient RPC_BUF_SIZE t w (plain_message mid data) input)
    as (n' & Er & Hi & Hpr' & Hd'); try done; try lia.
  pose proof (transport_recv_at RPC_BUF_SIZE t w) as Hat. rewrite Er in Hat.
  destruct Hat as (_ & _ & _ & Hout & Hse & _). cbn [set_net w_net] in Hse, Hout.
  exists (set_net w n'). split.
  - unfold on_snd. cbn [fst snd]. unfold rpc_recv_unencrypted.
    rewrite (bind_Done _ _ _ (plain_message mid data) (s, t, set_net w n'))
      by (by rewrite on_tr_cases, Er).
    rewrite (proj2 (Z.ltb_ge _ _)) by lia.
    rewrite (with_reader_at _ _ (plain_message mid data) [] data); [done| |by rewrite app_nil_r|].
    + by apply reads_plain.
    + unfold RPC_BUF_SIZE in Hmax. unfold SIZE_LIM. lia.
  - split; [|exact Hout]. unfold env. cbn [set_net w_net w_rand w_rpos]. rewrite Hse. split_and!; try done. lia.
Qed.

(** ** The server *)

(** What it chose: nonce, pq, the fingerprints it offers, the group, its
    secret exponent, the time; the hash and the padding around the inner
    data, which the client ignores; message ids. *)
Record Server := mkServer {
  sv_nonce : list byte; sv_pq : list byte; sv_fps : list Z;
  sv_g : Z; sv_prime : list byte; sv_a : Z; sv_time : Z;
  sv_hash : list byte; sv_pad : list byte; sv_id1 : Z; sv_id2 : Z; sv_id3 : Z }.

(** Diffie-Hellman: both sides compute the same power. *)
Lemma dh_agree g a b p : 0 < p -> 0 <= a -> 0 <= b ->
  (g ^ a mod p) ^ b mod p = (g ^ b mod p) ^ a mod p.
Proof.
  intros Hp Ha Hb. rewrite !Z.mod_pow_l. by rewrite <- !Z.pow_mul_r, Z.mul_comm by lia.
Qed.

Section Honest.
Context `{C : Crypto} {HC : CryptoLaws C} `{R : Rsa} {HB : BigNumLaws B} {HR : RsaLaws R}.
Context (sv : Server) (sk : ServerKeyState) (malloc_bytes : nat -> list byte).
Context (Hmalloc : malloc_sized malloc_bytes).

Definition sv_p : Z := be_combine (sv_prime sv).
Definition sv_g_a : list byte := be_split (length (sv_prime sv)) (sv_g sv ^ sv_a sv mod sv_p).

(** The key the server computes from the client's number. *)
Definition sv_key (g_b : list byte) : list byte := be_split 256 (be_combine g_b ^ sv_a sv mod sv_p).

Definition sv_plain (nonce : list byte) : list byte :=
  sv_hash sv ++ dh_inner nonce (sv_nonce sv) (sv_g sv) (sv_prime sv) sv_g_a (sv_time sv) ++ sv_pad sv.

Definition sv_cipher (nonce new_nonce : list byte) : list byte :=
  let tmp := dh_derive_temp_aes new_nonce (sv_nonce sv) in
  aes_ige_encrypt (sv_plain nonce) (fst tmp) (snd tmp) (zeros (length (sv_plain nonce))).

(** Its three answers, as frames. *)
Definition answer1 (nonce : list byte) : list byte :=
  frame (plain_message (sv_id1 sv) (res_pq nonce (sv_nonce sv) (sv_pq sv) (sv_fps sv))).
Definition answer2 (nonce new_nonce : list byte) : list byte :=
  frame (plain_message (sv_id2 sv) (dh_params nonce (sv_nonce sv) (sv_cipher nonce new_nonce))).
Definition answer3 (nonce new_nonce g_b : list byte) : list byte :=
  frame (plain_message (sv_id3 sv)
    (dh_gen_ok nonce (sv_nonce sv) (nonce_hash1 new_nonce (sv_key g_b)))).

Definition server_ok : Prop :=
  length (sv_nonce sv) = 16%nat /\ zlen (sv_pq sv) <= 8 /\
  Forall is_u64 (sv_fps sv) /\ In (g_fingerprint sk) (sv_fps sv) /\ zlen (sv_fps sv) <= 64 /\
  2 <= sv_g sv <= 7 /\ zlen (sv_prime sv) <= 256 /\ 0 < sv_p /\ 0 <= sv_a sv /\
  is_s32 (sv_time sv) /\ length (sv_hash sv) = 20%nat /\ zlen (sv_pad sv) <= 15 /\
  (forall nonce, length nonce = 16%nat -> zlen (sv_plain nonce) mod 16 = 0) /\
  is_u64 (sv_id1 sv) /\ is_u64 (sv_id2 sv) /\ is_u64 (sv_id3 sv).

(** A key that encrypts every 256-byte number below its modulus. *)
Definition rsa_works : Prop :=
  exists key, crypto_rsa_load_public (g_pem sk) = Some key /\ pkey_size key = 256 /\
    forall d, zlen d = 256 -> be_combine d < 2 ^ 2040 -> is_Some (pkey_encrypt key d).

Context (Hsv : server_ok).

Lemma sv_g_a_len : zlen sv_g_a <= 256.
Proof. unfold sv_g_a. rewrite be_split_bound. destruct Hsv as (_&_&_&_&_&_&H&_). exact H. Qed.

Lemma sv_g_a_val : be_combine sv_g_a = sv_g sv ^ sv_a sv mod sv_p.
Proof.
  destruct Hsv as (_&_&_&_&_&_&_&Hp&_). apply be_combine_split. by apply power_below.
Qed.

Lemma zlen_is n (l : list byte) : length l = n -> zlen l = Z.of_nat n.
Proof. unfold zlen. by intros ->. Qed.

Lemma concat_enc64_len fps : zlen (concat (map enc64 fps)) = 8 * zlen fps.
Proof.
  induction fps as [|fp fps IH]; [done|]. cbn [map concat].
  rewrite zlen_app, enc64_len, IH, zlen_cons. lia.
Qed.

Lemma res_pq_len nonce : length nonce = 16%nat ->
  zlen (res_pq nonce (sv_nonce sv) (sv_pq sv) (sv_fps sv)) mod 4 = 0 /\
  zlen (res_pq nonce (sv_nonce sv) (sv_pq sv) (sv_fps sv)) <= 600.
Proof.
  intros Hn. destruct Hsv as (Hsn & Hpq & _ & _ & Hfl & _). unfold res_pq.
  rewrite !zlen_app, !enc32_len, concat_enc64_len.
  destruct (enc_bytes_len (sv_pq sv)) as [Hm Hb].
  rewrite (zlen_is 16 nonce Hn), (zlen_is 16 (sv_nonce sv) Hsn).
  split; [Z.div_mod_to_equations; lia|lia].
Qed.

(** ** Step by step *)

Lemma req_pq_runs c s t w nonce ids rest ns nr inp :
  env w (nonce ++ ids ++ rest) ns nr (answer1 nonce ++ inp) -> 0 <= fd t ->
  length nonce = 16%nat -> length ids = 4%nat -> 100 <= ns -> 700 <= nr ->
  exists id w', auth_step_req_pq sk (c, (s, t, w)) =
      Done tt (set_pq (be_combine (sv_pq sv)) (set_server_nonce (sv_nonce sv) (set_nonce nonce c)),
               (set_last_msg_id id s, t, w')) /\
    env w' rest (ns - 100) (nr - 700) inp /\
    n_out (w_net w') = n_out (w_net w) ++ frame (plain_message id (req_pq nonce)).
Proof.
  intros He Hfd Hn Hi Hns Hnr. unfold auth_step_req_pq.
  destruct (env_rand _ _ _ _ _ _ c s t He) as (w1 & E1 & He1 & Hn1). rewrite Hn in E1.
  rewrite (bind_Done _ _ _ _ _ E1).
  rewrite (bind_Done (upd_ctx (set_nonce nonce)) _ _ tt (set_nonce nonce c, (s, t, w1))) by done.
  cbn zeta. wdata. rewrite (firstn_all2 (n := 16)) by lia.
  assert (Hz : zlen (enc32 CRC_req_pq_multi ++ nonce) = 20)
    by (rewrite zlen_app, enc32_len; unfold zlen; lia).
  destruct (env_send w1 ids rest ns nr (answer1 nonce ++ inp) (set_nonce nonce c) s t
    (enc32 CRC_req_pq_multi ++ nonce) He1 Hi Hfd) as (id & w2 & E2 & He2 & Ho2); try (rewrite Hz; done || lia).
  rewrite (bind_Done _ _ _ _ _ E2). destruct Hsv as (Hsn & Hpq & Hfp & Hin & Hfl & Hsv').
  destruct (res_pq_len nonce Hn) as [Hrm Hrl].
  destruct (env_recv _ _ _ _ _ _ _ (set_nonce nonce c) (set_last_msg_id id s) t He2 Hfd)
    as (w3 & E3 & He3 & Ho3); [apply Hsv'|done|lia|lia|].
  rewrite (bind_Done _ _ _ _ _ E3).
  erewrite with_parser_at; [| |by rewrite app_nil_r|unfold SIZE_LIM; lia].
  2: { apply (parses_res_pq (set_nonce nonce c)); try done. lia. }
  exists id, w3. split; [|split; [eapply env_weaken; [exact He3|lia|lia]|by rewrite Ho3, Ho2, Hn1]].
  pose proof (be_combine_range (sv_pq sv)). rewrite u64_id; [done|]. unfold is_u64.
  assert (2 ^ (8 * zlen (sv_pq sv)) <= 2 ^ 64) by (apply Z.pow_le_mono_r; lia). lia.
Qed.

Lemma encrypt_runs key d pad w rest ns nr inp (c : AuthKeyCtx) s t :
  pkey_size key = 256 -> (forall d, zlen d = 256 -> be_combine d < 2 ^ 2040 -> is_Some (pkey_encrypt key d)) ->
  env w (pad ++ rest) ns nr inp -> zlen d + zlen pad = 235 ->
  exists out w', rsa_sha1_encrypt key d (c, (s, t, w)) = Done out (c, (s, t, w')) /\
    zlen out = 256 /\ env w' rest ns nr inp /\ w_net w' = w_net w /\
    pkey_encrypt key (Byte.x00 :: crypto_sha1 d ++ d ++ pad) = Some out.
Proof.
  intros Hks Henc He Hz. pose proof (zlen_nonneg pad). unfold rsa_sha1_encrypt.
  rewrite (proj2 (Z.ltb_ge _ _)) by lia.
  destruct (env_rand _ _ _ _ _ _ c s t He) as (w1 & E1 & He1 & Hn1).
  replace (235 - length d)%nat with (length pad) by (unfold zlen in Hz; lia).
  rewrite (bind_Done _ _ _ _ _ E1). unfold crypto_rsa_public_encrypt.
  rewrite Hks. change (256 <=? 0) with false. cbn iota zeta.
  assert (Hl : zlen (crypto_sha1 d ++ d ++ pad) = 255).
  { rewrite !zlen_app, (zlen_is 20 (crypto_sha1 d)) by apply sha1_len. lia. }
  destruct (Henc (Byte.x00 :: crypto_sha1 d ++ d ++ pad)) as [out Eo].
  { rewrite zlen_cons. lia. }
  { rewrite be_combine_cons, Hl. change (byte.unsigned Byte.x00) with 0.
    pose proof (be_combine_range (crypto_sha1 d ++ d ++ pad)) as [_ Hr]. rewrite Hl in Hr.
    change (8 * 255) with 2040 in Hr. lia. }
  pose proof (pkey_encrypt_len _ _ _ Eo) as [_ Ho]. rewrite Hks in Ho. rewrite Eo.
  exists out, w1. split; [|done]. unfold fits, mbind, M_bind.
  by rewrite (proj2 (Z.ltb_ge _ _)) by lia.
Qed.

Lemma req_dh_runs key c s t w new_nonce pad ids rest ns nr inp p q :
  ctx_wf c -> crypto_rsa_load_public (g_pem sk) = Some key -> pkey_size key = 256 ->
  (forall d, zlen d = 256 -> be_combine d < 2 ^ 2040 -> is_Some (pkey_encrypt key d)) ->
  (forall st : AuthKeyCtx * (MtProtoSession * Transport * World),
     pq_factorize (c_pq c) st = Done (p, q) st) ->
  env w (new_nonce ++ pad ++ ids ++ rest) ns nr inp -> 0 <= fd t ->
  length new_nonce = 32%nat -> length ids = 4%nat -> zlen (p_q_inner c p q new_nonce) + zlen pad = 235 ->
  400 <= ns ->
  exists id enc w', auth_step_req_dh sk (c, (s, t, w)) =
      Done tt (set_new_nonce new_nonce (set_p_q (p, q) c), (set_last_msg_id id s, t, w')) /\
    env w' rest (ns - 400) nr inp /\
    pkey_encrypt key (rsa_block c p q new_nonce pad) = Some enc /\
    n_out (w_net w') = n_out (w_net w) ++
      frame (plain_message id (req_dh_params c p q (g_fingerprint sk) enc)).
Proof.
  intros Hc Hkey Hks Henc Hpq He Hfd Hnn Hi Hpad Hns. unfold auth_step_req_dh.
  rewrite (bind_Done get_fst _ _ c (c, (s, t, w))) by done. rewrite (bind_Done _ _ _ _ _ (Hpq _)).
  rewrite (bind_Done (upd_ctx (set_p_q (p, q))) _ _ tt (set_p_q (p, q) c, (s, t, w))) by done.
  destruct (env_rand _ _ _ _ _ _ (set_p_q (p, q) c) s t He) as (w1 & E1 & He1 & Hn1). rewrite Hnn in E1.
  rewrite (bind_Done _ _ _ _ _ E1).
  set (c' := set_new_nonce new_nonce (set_p_q (p, q) c)).
  rewrite (bind_Done (upd_ctx (set_new_nonce new_nonce)) _ _ tt (c', (s, t, w1))) by done.
  cbn zeta. cbn [fst snd]. unfold telegram_server_key_get_pem. rewrite Hkey.
  pose proof (uint32_to_be_len p). pose proof (uint32_to_be_len q).
  pose proof (uint64_to_be_len (c_pq c)). destruct Hc as (Hn & Hsn & _). wdata.
  rewrite !(firstn_all2 (n := 16)), (firstn_all2 (n := 32)) by lia. rewrite <- !app_assoc.
  fold (p_q_inner c p q new_nonce).
  destruct (encrypt_runs key (p_q_inner c p q new_nonce) pad w1 (ids ++ rest) ns nr inp c' s t
    Hks Henc He1 Hpad) as (enc & w2 & E2 & Hez & He2 & Hn2 & Henc2).
  rewrite (bind_Done _ _ _ _ _ E2). wdata.
  rewrite !(firstn_all2 (n := 16)) by lia. rewrite <- !app_assoc.
  fold (req_dh_params c p q (telegram_server_key_get_fingerprint sk) enc).
  set (data := req_dh_params _ _ _ _ _).
  assert (Hd : zlen data mod 4 = 0 /\ zlen data <= 335).
  { unfold data, req_dh_params. rewrite !zlen_app, enc32_len, enc64_len, (zlen_is 16 _ Hn), (zlen_is 16 _ Hsn).
    destruct (enc_bytes_len (uint32_to_be p)). destruct (enc_bytes_len (uint32_to_be q)).
    destruct (enc_bytes_len enc). split; [Z.div_mod_to_equations; lia|lia]. }
  destruct (env_send w2 ids rest ns nr inp c' s t data He2 Hi Hfd) as (id & w3 & E3 & He3 & Ho3);
    try lia. pose proof (zlen_nonneg data).
  exists id, enc, w3. split; [exact E3|]. split; [eapply env_weaken; [exact He3|lia|lia]|].
  split; [exact Henc2|]. by rewrite Ho3, Hn2, Hn1.
Qed.

Lemma sv_plain_len nonce : length nonce = 16%nat ->
  zlen (sv_plain nonce) mod 16 = 0 /\ 24 <= zlen (sv_plain nonce) <= 640.
Proof.
  intros Hn. assert (Hs := Hsv). destruct Hs as (Hsn&_&_&_&_&_&Hp&_&_&_&Hh&Hpad&Hm&_).
  split; [by apply Hm|]. unfold sv_plain, dh_inner. pose proof sv_g_a_len.
  rewrite !zlen_app, !enc32_len, (zlen_is 16 _ Hn), (zlen_is 16 _ Hsn), (zlen_is 20 _ Hh).
  pose proof (enc_bytes_len (sv_prime sv)). pose proof (enc_bytes_len sv_g_a).
  pose proof (zlen_nonneg (sv_prime sv)). pose proof (zlen_nonneg sv_g_a).
  pose proof (zlen_nonneg (sv_pad sv)). lia.
Qed.

Lemma sv_cipher_len nonce nn : length nonce = 16%nat -> length nn = 32%nat ->
  length (sv_cipher nonce nn) = length (sv_plain nonce).
Proof.
  intros Hn Hnn. apply encrypt_len_le; [by apply derive_len|]. apply length_replicate.
Qed.

Lemma parse_dh_runs c s t w rest ns nr inp :
  ctx_wf c -> c_server_nonce c = sv_nonce sv ->
  env w rest ns nr (answer2 (c_nonce c) (c_new_nonce c) ++ inp) -> 0 <= fd t -> 800 <= nr ->
  exists w', auth_step_parse_dh malloc_bytes (c, (s, t, w)) =
      Done tt (with_inner (sv_g sv) (sv_prime sv) sv_g_a (sv_time sv)
                 (set_tmp_aes (dh_derive_temp_aes (c_new_nonce c) (sv_nonce sv)) c), (s, t, w')) /\
    env w' rest ns (nr - 800) inp /\ n_out (w_net w') = n_out (w_net w).
Proof.
  intros Hc Hsn He Hfd Hnr. assert (Hc' := Hc). destruct Hc' as (Hn & Hsl & Hnn & _).
  assert (Hs := Hsv). destruct Hs as (_&_&_&_&_&Hg&Hp&_&_&Ht&Hh&_&_&_&Hid&_).
  destruct (sv_plain_len _ Hn) as [Hpm Hpl]. pose proof (sv_cipher_len _ _ Hn Hnn) as Hcl.
  set (cipher := sv_cipher (c_nonce c) (c_new_nonce c)) in *.
  assert (Hcz : zlen cipher = zlen (sv_plain (c_nonce c))) by (unfold zlen; by rewrite Hcl).
  assert (Hd : zlen (dh_params (c_nonce c) (sv_nonce sv) cipher) mod 4 = 0 /\
               zlen (dh_params (c_nonce c) (sv_nonce sv) cipher) <= 700).
  { unfold dh_params. rewrite <- Hsn. rewrite !zlen_app, enc32_len, (zlen_is 16 _ Hn), (zlen_is 16 _ Hsl).
    destruct (enc_bytes_len cipher). split; [Z.div_mod_to_equations; lia|lia]. }
  unfold answer2 in He. fold cipher in He.
  destruct (env_recv _ _ _ _ _ _ _ c s t He Hfd Hid) as (w1 & E1 & He1 & Ho1); [apply Hd|lia|lia|].
  unfold auth_step_parse_dh. rewrite (bind_Done _ _ _ _ _ E1).
  erewrite (bind_Done (with_parser _ _)); [|eapply with_parser_at with (tl := []);
    [|by rewrite app_nil_r|unfold SIZE_LIM; lia]].
  2: { rewrite <- Hsn. apply parses_dh_params; [done|done|lia]. }
  rewrite (bind_Done get_fst _ _ c (c, (s, t, w1))) by done. rewrite Hsn. cbn zeta.
  set (tmp := dh_derive_temp_aes (c_new_nonce c) (sv_nonce sv)).
  rewrite (bind_Done (upd_ctx (set_tmp_aes tmp)) _ _ tt (set_tmp_aes tmp c, (s, t, w1))) by done.
  rewrite (proj2 (Z.ltb_ge _ _)) by lia.
  assert (Hdec : aes_ige_decrypt cipher (fst tmp) (snd tmp) (malloc_bytes (length cipher)) =
                 sv_plain (c_nonce c)).
  { destruct (derive_len (c_new_nonce c) (sv_nonce sv) Hnn) as [Hk Hi].
    apply aes_ige_inverse; try done; try lia; [apply length_replicate|].
    rewrite Hcl. apply Hmalloc. }
  rewrite Hdec. exists w1. split; [|split; [eapply env_weaken; [exact He1|lia|lia]|exact Ho1]].
  unfold sv_plain. change 20%nat with (Z.to_nat 20).
  rewrite (drop_app_exact (sv_hash sv)) by (by rewrite (zlen_is 20 _ Hh)).
  eapply with_parser_at with (c := set_tmp_aes tmp c); [|done|].
  - rewrite <- Hsn. apply (parses_dh_inner (set_tmp_aes tmp c)); try done. apply sv_g_a_len.
  - unfold sv_plain in Hpl. rewrite zlen_app in Hpl. pose proof (zlen_nonneg (sv_hash sv)).
    unfold SIZE_LIM. lia.
Qed.

(** The two sides' keys are the same. *)
Lemma sv_key_agrees c b :
  ctx_wf c -> c_g c = sv_g sv -> dh_prime c = sv_prime sv ->
  be_combine (g_a c) = sv_g sv ^ sv_a sv mod sv_p -> sv_key (dh_g_b c b) = dh_key c b.
Proof.
  intros Hc Hg Hp Hga. assert (Hs := Hsv). destruct Hs as (_&_&_&_&_&Hgr&_&Hp0&Ha&_).
  unfold sv_key, dh_key, dh_g_b. rewrite Hg, Hp, Hga. fold sv_p.
  rewrite u32_id by (unfold is_u32; lia).
  rewrite be_combine_split by (by apply power_below).
  f_equal. symmetry. apply dh_agree; [done|done|]. apply be_combine_range.
Qed.

Lemma set_client_dh_runs c s t w b pad ids rest ns nr inp :
  ctx_wf c -> c_g c = sv_g sv -> dh_prime c = sv_prime sv ->
  be_combine (g_a c) = sv_g sv ^ sv_a sv mod sv_p -> c_server_nonce c = sv_nonce sv ->
  env w (b ++ pad ++ ids ++ rest) ns nr (answer3 (c_nonce c) (c_new_nonce c) (dh_g_b c b) ++ inp) ->
  0 <= fd t -> length b = 256%nat -> length pad = Z.to_nat (client_pad_len c b) ->
  length ids = 4%nat -> 500 <= ns -> 100 <= nr ->
  exists id w', auth_step_set_client_dh malloc_bytes (c, (s, t, w)) =
      Done tt (set_b b c, (authorized s c b id, t, w')) /\
    env w' rest (ns - 500) (nr - 100) inp /\
    n_out (w_net w') =
      n_out (w_net w) ++ frame (plain_message id (set_client_params c (client_cipher malloc_bytes c b pad))).
Proof.
  intros Hc0 Hg Hp Hga Hsn He Hfd Hb Hpad Hi Hns Hnr.
  assert (Hs := Hsv). destruct Hs as (_&_&_&_&_&_&_&Hp0&_&_&_&_&_&_&_&Hid).
  rewrite set_client_dh_spec_at by (try done; by rewrite Hp). unfold set_client_dh_spec.
  destruct (env_rand _ _ _ _ _ _ c s t He) as (w1 & E1 & He1 & Hn1). rewrite Hb in E1.
  rewrite (bind_Done _ _ _ _ _ E1).
  assert (Hc : ctx_wf (set_b b c)) by by apply set_b_wf.
  rewrite (bind_Done (upd_ctx (set_b b)) _ _ tt (set_b b c, (s, t, w1))) by done.
  rewrite (bind_Done get_fst _ _ (set_b b c) (set_b b c, (s, t, w1))) by done.
  set (c' := set_b b c) in *. change (client_pad_len c b) with (client_pad_len c' b) in Hpad.
  destruct (env_rand _ _ _ _ _ _ c' s t He1) as (w2 & E2 & He2 & Hn2). rewrite Hpad in E2.
  rewrite (bind_Done _ _ _ _ _ E2).
  destruct (client_params_len malloc_bytes Hmalloc c' b pad Hc Hpad) as [Hm Hl].
  destruct (env_send w2 ids rest ns nr _ c' s t _ He2 Hi Hfd Hm) as (id & w3 & E3 & He3 & Ho3); [lia|lia|].
  rewrite (bind_Done _ _ _ _ _ E3).
  assert (Hh : length (nonce_hash1 (c_new_nonce c) (sv_key (dh_g_b c b))) = 16%nat)
    by (unfold nonce_hash1; rewrite length_drop, sha1_len; done).
  assert (Hn : length (c_nonce c) = 16%nat) by apply Hc0.
  assert (Hsl : length (sv_nonce sv) = 16%nat) by apply Hsv.
  unfold answer3 in He3.
  destruct (env_recv _ _ _ _ _ _ _ c' (set_last_msg_id id s) t He3 Hfd) as (w4 & E4 & He4 & Ho4);
    [done|unfold dh_gen_ok; rewrite !zlen_app, enc32_len, (zlen_is 16 _ Hn), (zlen_is 16 _ Hsl),
      (zlen_is 16 _ Hh); done || lia..|].
  rewrite (bind_Done _ _ _ _ _ E4).
  erewrite (bind_Done (with_parser _ _)); [|eapply with_parser_at with (tl := []);
    [by apply (parses_dh_gen c' (sv_nonce sv)
      (nonce_hash1 (c_new_nonce c) (sv_key (dh_g_b c b))))|by rewrite app_nil_r|]].
  2: { unfold dh_gen_ok. rewrite !zlen_app, enc32_len, (zlen_is 16 _ Hn), (zlen_is 16 _ Hsl),
         (zlen_is 16 _ Hh). unfold SIZE_LIM. lia. }
  rewrite (sv_key_agrees c b) by done. change (dh_key c b) with (dh_key c' b).
  unfold bytes_eq. rewrite bool_decide_eq_true_2 by done. cbn [negb].
  rewrite finish_at by (unfold dh_key, be_split; by rewrite length_rev, length_le_split).
  exists id, w4. split; [done|]. split; [|by rewrite Ho4, Ho3, Hn2, Hn1]. eapply env_weaken; [exact He4|lia|].
  unfold dh_gen_ok. rewrite !zlen_app, enc32_len, (zlen_is 16 _ Hn), (zlen_is 16 _ Hsl),
    (zlen_is 16 _ Hh). lia.
Qed.

(** ** The exchange *)

(** What the generator yields, in the order the code asks for it: nonce,
    message id, new_nonce, RSA padding, message id, b, block padding, message
    id. *)
Record Draws := mkDraws {
  d_nonce : list byte; d_id1 : list byte; d_new_nonce : list byte; d_pad1 : list byte;
  d_id2 : list byte; d_b : list byte; d_pad2 : list byte; d_id3 : list byte }.

Definition draw_bytes (d : Draws) : list byte :=
  d_nonce d ++ d_id1 d ++ d_new_nonce d ++ d_pad1 d ++ d_id2 d ++ d_b d ++ d_pad2 d ++ d_id3 d.

(** The contexts after the steps. *)
Definition ctx1 (dc : Z) (d : Draws) : AuthKeyCtx :=
  set_pq (be_combine (sv_pq sv)) (set_server_nonce (sv_nonce sv)
    (set_nonce (d_nonce d) (auth_ctx_init dc))).
Definition ctx2 (dc p q : Z) (d : Draws) : AuthKeyCtx :=
  set_new_nonce (d_new_nonce d) (set_p_q (p, q) (ctx1 dc d)).
Definition ctx3 (dc p q : Z) (d : Draws) : AuthKeyCtx :=
  with_inner (sv_g sv) (sv_prime sv) sv_g_a (sv_time sv)
    (set_tmp_aes (dh_derive_temp_aes (d_new_nonce d) (sv_nonce sv)) (ctx2 dc p q d)).

Definition draws_ok (dc p q : Z) (d : Draws) : Prop :=
  length (d_nonce d) = 16%nat /\ length (d_id1 d) = 4%nat /\ length (d_new_nonce d) = 32%nat /\
  zlen (p_q_inner (ctx1 dc d) p q (d_new_nonce d)) + zlen (d_pad1 d) = 235 /\
  length (d_id2 d) = 4%nat /\ length (d_b d) = 256%nat /\
  length (d_pad2 d) = Z.to_nat (client_pad_len (ctx3 dc p q d) (d_b d)) /\
  length (d_id3 d) = 4%nat.

(** The number the client sends. *)
Definition client_g_b (d : Draws) : list byte :=
  be_split (length (sv_prime sv)) (sv_g sv ^ be_combine (d_b d) mod sv_p).

Definition answers (d : Draws) : list byte :=
  answer1 (d_nonce d) ++ answer2 (d_nonce d) (d_new_nonce d) ++
  answer3 (d_nonce d) (d_new_nonce d) (client_g_b d).

Lemma ctx3_prime dc p q d : dh_prime (ctx3 dc p q d) = sv_prime sv.
Proof. unfold dh_prime, ctx3, with_inner. cbn. by rewrite take_app_exact. Qed.

Lemma ctx3_g_a dc p q d : be_combine (g_a (ctx3 dc p q d)) = sv_g sv ^ sv_a sv mod sv_p.
Proof.
  rewrite <- sv_g_a_val. unfold g_a, ctx3, with_inner. cbn [c_g_a c_g_a_len set_server_time set_g_a].
  by rewrite take_app_exact.
Qed.

Lemma ctx3_g_b dc p q d : dh_g_b (ctx3 dc p q d) (d_b d) = client_g_b d.
Proof.
  assert (Hs := Hsv). destruct Hs as (_&_&_&_&_&Hg&_).
  unfold dh_g_b, client_g_b. rewrite ctx3_prime. fold sv_p. f_equal. f_equal. f_equal.
  change (c_g (ctx3 dc p q d)) with (sv_g sv). apply u32_id. unfold is_u32. lia.
Qed.

(** ** The server reads *)

(** req_pq_multi with the nonce *)
Definition reads_req_pq (m nonce : list byte) : Prop :=
  m = enc32 CRC_req_pq_multi ++ nonce /\ length nonce = 16%nat.

(** req_DH_params for this nonce: the factors of its pq in order, one of its
    fingerprints, and a block for its RSA key with the hash of the inner
    data, the inner data, which repeat all of this and give new_nonce, and
    padding. *)
Definition reads_req_dh (key : RsaKey) (m nonce new_nonce : list byte) : Prop :=
  exists pq p q fp encrypted pad,
    m = enc32 CRC_req_DH_params ++ nonce ++ sv_nonce sv ++ enc_bytes p ++ enc_bytes q ++ enc64 fp ++
        enc_bytes encrypted /\
    be_combine p * be_combine q = be_combine (sv_pq sv) /\ be_combine p <= be_combine q /\
    In fp (sv_fps sv) /\
    let inner := enc32 CRC_p_q_inner_data ++ enc_bytes pq ++ enc_bytes p ++ enc_bytes q ++
                 nonce ++ sv_nonce sv ++ new_nonce in
    pkey_encrypt key (Byte.x00 :: crypto_sha1 inner ++ inner ++ pad) = Some encrypted /\
    be_combine pq = be_combine (sv_pq sv) /\ length new_nonce = 32%nat.

(** set_client_DH_params for this nonce: under the temporary key of the two
    nonces the hash of the inner data, the inner data with g_b, and less than
    a block of padding. *)
Definition reads_set_client (m nonce new_nonce g_b : list byte) : Prop :=
  exists cipher pad,
    m = enc32 CRC_set_client_DH_params ++ nonce ++ sv_nonce sv ++ enc_bytes cipher /\
    let inner := enc32 CRC_client_DH_inner_data ++ nonce ++ sv_nonce sv ++ enc64 0 ++ enc_bytes g_b in
    let tmp := dh_derive_temp_aes new_nonce (sv_nonce sv) in
    (forall out, length out = length cipher ->
       aes_ige_decrypt cipher (fst tmp) (snd tmp) out = crypto_sha1 inner ++ inner ++ pad) /\
    zlen pad < 16.

(** The server receives [m1], [m2] and [m3], answers with [a1], [a2] and [a3],
    and ends with the key [k]. *)
Definition serves (key : RsaKey) (m1 m2 m3 a1 a2 a3 k : list byte) : Prop :=
  exists nonce new_nonce g_b,
    reads_req_pq m1 nonce /\ a1 = answer1 nonce /\
    reads_req_dh key m2 nonce new_nonce /\ a2 = answer2 nonce new_nonce /\
    reads_set_client m3 nonce new_nonce g_b /\ a3 = answer3 nonce new_nonce g_b /\
    k = sv_key g_b.

Lemma req_dh_read key dc p q d enc :
  is_u32 p -> is_u32 q -> p <= q -> p * q = be_combine (sv_pq sv) -> length (d_new_nonce d) = 32%nat ->
  pkey_encrypt key (rsa_block (ctx1 dc d) p q (d_new_nonce d) (d_pad1 d)) = Some enc ->
  reads_req_dh key (req_dh_params (ctx1 dc d) p q (g_fingerprint sk) enc) (d_nonce d) (d_new_nonce d).
Proof.
  intros Hp Hq Hle Hpq Hnn He. destruct Hsv as (_ & Hpz & _ & Hfp & _).
  exists (uint64_to_be (be_combine (sv_pq sv))), (uint32_to_be p), (uint32_to_be q), (g_fingerprint sk), enc, (d_pad1 d).
  rewrite !uint32_to_be_val by done. split_and!; try done.
  cbn zeta. split; [exact He|]. split; [|done]. apply uint64_to_be_val. pose proof (be_combine_range (sv_pq sv)) as [? ?]. unfold is_u64.
  assert (2 ^ (8 * zlen (sv_pq sv)) <= 2 ^ 64) by (apply Z.pow_le_mono_r; lia). lia.
Qed.

Lemma set_client_read dc p q d :
  ctx_wf (ctx3 dc p q d) -> length (d_pad2 d) = Z.to_nat (client_pad_len (ctx3 dc p q d) (d_b d)) ->
  reads_set_client
    (set_client_params (ctx3 dc p q d) (client_cipher malloc_bytes (ctx3 dc p q d) (d_b d) (d_pad2 d)))
    (d_nonce d) (d_new_nonce d) (client_g_b d).
Proof.
  intros Hc Hpad. set (c := ctx3 dc p q d) in *.
  exists (client_cipher malloc_bytes c (d_b d) (d_pad2 d)), (d_pad2 d). split; [done|]. cbn zeta. split.
  - intros out Hout.
    pose proof (client_cipher_len malloc_bytes Hmalloc c (d_b d) (d_pad2 d) Hc) as Hl. rewrite Hl in Hout.
    pose proof (client_cipher_decrypts malloc_bytes Hmalloc c (d_b d) (d_pad2 d) out Hc Hpad Hout) as Hd.
    unfold client_plain, client_inner in Hd. subst c. rewrite ctx3_g_b in Hd. exact Hd.
  - unfold zlen. rewrite Hpad. unfold client_pad_len.
    match goal with |- context [padded_len ?n] => pose proof (padded_len_bound n) as Hb end.
    pose proof (zlen_nonneg (client_inner c (dh_g_b c (d_b d)))). lia.
Qed.

End Honest.
