(* ===== verification/AuthTheorems.v ===== *)
(** * The key exchange: theorems (src/infrastructure/mtproto_auth.c)

    The exchange finishes with an honest server, which reads its messages,
    and both sides hold the same key; success under any server means the whole
    transcript is the one of the protocol and the new key was confirmed by
    new_nonce_hash1; failure leaves the session's keys; every run ends inside
    its buffers; factorization, Euclid's algorithm and the fingerprint. *)

From Stdlib Require Import Znumtheory String.
From S2P Require Import Prelude TlSerial TlLogic World IgeAes MtprotoCrypto MtprotoSession.
From S2P Require Import Transport MtprotoRpc RpcCorrect Request BigNum ServerKey PqFactor MtprotoAuth.
From S2P Require Import AuthCorrect AuthSafe AuthRun AuthHonest.

(** ** A concrete server, key and network for the witnesses *)

Definition toy_rsa : Rsa (B := bignum_Z) := {|
  RsaKey := unit;
  rsa_public_pkey_from_pem _ := Some tt;
  pkey_n _ := Some (BN_bin2bn (BigNum := bignum_Z) [Byte.x01; Byte.x02]);
  pkey_e _ := Some (BN_bin2bn (BigNum := bignum_Z) [Byte.x01; Byte.x00; Byte.x01]);
  pkey_size _ := 256;
  pkey_encrypt _ d := if zlen d =? 256 then Some d else None;
|}.

#[global] Instance toy_rsa_laws : RsaLaws toy_rsa.
Proof.
  split. intros k d c. cbn. destruct (Z.eqb_spec (zlen d) 256); [|done]. by intros [= <-].
Qed.

Definition toy_malloc (n : nat) : list byte := replicate n Byte.x00.

Definition toy_key : ServerKeyState := mkServerKey (Some []) 7.

Definition toy_server : Server :=
  mkServer (replicate 16 Byte.x05) [Byte.x0f] [3; 7] 5 [Byte.x17] 6 1000
           (replicate 20 Byte.x00) (replicate 8 Byte.x00) 4 8 12.

Definition toy_draws : Draws :=
  mkDraws (replicate 16 Byte.x01) (replicate 4 Byte.x02) (replicate 32 Byte.x03)
          (replicate 155 Byte.x04) (replicate 4 Byte.x02) (replicate 255 Byte.x00 ++ [Byte.x0f])
          (replicate 12 Byte.x04) (replicate 4 Byte.x02).

Definition toy_world : World :=
  mkWorld (fun i => nth i (draw_bytes toy_draws) Byte.x01) 0 (fun _ => 1) 0
    (mkNet (replicate 2000 (SockN 4096)) (replicate 2000 (SockN 4096)) []
       (answers (C := toy_crypto) toy_server toy_draws) 3 0).

Definition toy_transport : Transport := mkTransport 3 2 true.

Lemma toy_server_ok : server_ok toy_server toy_key.
Proof.
  unfold server_ok, is_u64, is_s32.
  repeat (split; [done || (cbn; lia) || (repeat constructor; done) || (right; by left)|]).
  split; [|cbn; lia].
  intros nonce Hn. unfold sv_plain, dh_inner.
  rewrite !zlen_app, !enc32_len, (zlen_is 16 _ Hn). by vm_compute.
Qed.

Lemma toy_rsa_works : rsa_works (R := toy_rsa) toy_key.
Proof.
  exists tt. split; [done|]. split; [done|]. intros d Hd _. cbn. rewrite Hd. by eexists.
Qed.

Lemma toy_draws_ok : draws_ok (C := toy_crypto) toy_server 2 3 5 toy_draws.
Proof. unfold draws_ok. repeat (split; [vm_compute; reflexivity|]). vm_compute. reflexivity. Qed.

Lemma toy_env : env toy_world (draw_bytes toy_draws ++ []) 2000 2000
                  (answers (C := toy_crypto) toy_server toy_draws ++ []).
Proof.
  unfold env. rewrite !app_nil_r. split_and!; try done;
    try (apply Forall_replicate; by right). all: by vm_compute.
Qed.

(** ** The exchange *)

Section Exchange.
Context `{C : Crypto} {HC : CryptoLaws C} `{R : Rsa} {HB : BigNumLaws B} {HR : RsaLaws R}.
Context (sk : ServerKeyState) (malloc_bytes : nat -> list byte).

Lemma server_pq_u64 sv : server_ok sv sk -> is_u64 (be_combine (sv_pq sv)).
Proof.
  intros (_ & Hpz & _). pose proof (be_combine_range (sv_pq sv)) as [? ?]. unfold is_u64.
  assert (2 ^ (8 * zlen (sv_pq sv)) <= 2 ^ 64) by (apply Z.pow_le_mono_r; lia). lia.
Qed.

Lemma run_steps_at st a st' :
  auth_steps sk malloc_bytes (auth_ctx_init (dc_id (snd (fst st))), st) = Done a st' ->
  mtproto_auth_key_gen sk malloc_bytes st = Done a (snd st').
Proof. unfold mtproto_auth_key_gen. by intros ->. Qed.

(** (C4) With a server that follows the protocol, a network whose calls deliver
    three bytes or more each ([patient], or are interrupted) and a generator
    with the draws [d], the exchange finishes.  The client has sent exactly
    three messages; the server reads them ([serves]: the nonce; the factors of
    its pq in order and, encrypted under its RSA key, the inner data with
    new_nonce; and g_b, encrypted under the temporary key), and what it
    answers to them is what came in.  The session then holds the key that the
    server computes from the g_b it has read. *)
Theorem auth_exchange_completes sv d p q s t w ns nr rest inp :
  malloc_sized malloc_bytes -> server_ok sv sk -> rsa_works sk ->
  (forall st : AuthKeyCtx * (MtProtoSession * Transport * World),
     pq_factorize (be_combine (sv_pq sv)) st = Done (p, q) st) ->
  p * q = be_combine (sv_pq sv) ->
  draws_ok sv (dc_id t) p q d -> 0 <= fd t ->
  env w (draw_bytes d ++ rest) ns nr (answers sv d ++ inp) -> 1000 <= ns -> 1600 <= nr ->
  exists s' w' key id1 id2 id3 m1 m2 m3 a1 a2 a3,
    mtproto_auth_key_gen sk malloc_bytes (s, t, w) = Done tt (s', t, w') /\
    n_out (w_net w') = n_out (w_net w) ++
      frame (plain_message id1 m1) ++ frame (plain_message id2 m2) ++ frame (plain_message id3 m3) /\
    n_in (w_net w) = (a1 ++ a2 ++ a3) ++ n_in (w_net w') /\ n_in (w_net w') = inp /\
    crypto_rsa_load_public (g_pem sk) = Some key /\
    serves sv key m1 m2 m3 a1 a2 a3 (auth_key s') /\
    has_auth_key s' = true /\ server_salt s' = initial_salt (d_new_nonce d) (sv_nonce sv).
Proof.
  intros Hm Hsv (key & Hkey & Hks & Henc) Hpq Hmul (Hn & Hi1 & Hnn & Hp1 & Hi2 & Hb & Hp2 & Hi3) Hfd He Hns Hnr.
  assert (Hin : n_in (w_net w) = answers sv d ++ inp) by apply He.
  assert (Hu : is_u64 (be_combine (sv_pq sv))) by by eapply server_pq_u64.
  pose proof (pq_factorize_sound _ p q _ _ Hu (Hpq (auth_ctx_init 0, (s, t, w)))) as [_ (Hpu & Hqu & Hle & _)].
  unfold draw_bytes, answers in He. rewrite <- !app_assoc in He.
  assert (Hc0 := ctx_init_wf (dc_id t)).
  destruct (req_pq_runs sv sk Hsv (auth_ctx_init (dc_id t)) s t w _ _ _ _ _ _ He Hfd Hn Hi1)
    as (id1 & w1 & E1 & He1 & Ho1); [lia..|].
  pose proof (post_req_pq sk (w_rand w) _ s t w Hc0 eq_refl) as Hp. rewrite E1 in Hp.
  destruct Hp as (Hc1 & _ & _). fold (ctx1 sv (dc_id t) d) in E1, Hc1.
  destruct (req_dh_runs sk key (ctx1 sv (dc_id t) d) (set_last_msg_id id1 s) t w1 _ _ _ _ _ _ _ p q
    Hc1 Hkey Hks Henc Hpq He1 Hfd Hnn Hi2 Hp1) as (id2 & enc & w2 & E2 & He2 & Hrsa & Ho2); [lia|].
  pose proof (post_req_dh sk (w_rand w1) _ (set_last_msg_id id1 s) t w1 Hc1 eq_refl) as Hp.
  rewrite E2 in Hp. destruct Hp as (Hc2 & _ & _). fold (ctx2 sv (dc_id t) p q d) in E2, Hc2.
  destruct (parse_dh_runs sv sk malloc_bytes Hm Hsv (ctx2 sv (dc_id t) p q d)
    (set_last_msg_id id2 (set_last_msg_id id1 s)) t w2 _ _ _ _ Hc2 eq_refl He2 Hfd)
    as (w3 & E3 & He3 & Ho3); [lia|].
  pose proof (post_parse_dh malloc_bytes Hm (w_rand w2) _
    (set_last_msg_id id2 (set_last_msg_id id1 s)) t w2 Hc2 eq_refl) as Hp.
  rewrite E3 in Hp. destruct Hp as (Hc3 & _ & _).
  change (with_inner _ _ _ _ _) with (ctx3 sv (dc_id t) p q d) in E3, Hc3.
  rewrite <- (ctx3_g_b sv sk Hsv (dc_id t) p q d) in He3.
  destruct (set_client_dh_runs sv sk malloc_bytes Hm Hsv (ctx3 sv (dc_id t) p q d)
    (set_last_msg_id id2 (set_last_msg_id id1 s)) t w3 _ _ _ _ _ _ inp Hc3 eq_refl
    (ctx3_prime sv (dc_id t) p q d) (ctx3_g_a sv sk Hsv (dc_id t) p q d) eq_refl He3 Hfd Hb Hp2 Hi3)
    as (id3 & w4 & E4 & He4 & Ho4); [lia..|].
  assert (Hfin : n_in (w_net w4) = inp) by apply He4.
  pose proof (set_client_read sv sk malloc_bytes Hm Hsv (dc_id t) p q d Hc3 Hp2) as Hread3.
  pose proof (req_dh_read sv sk Hsv key (dc_id t) p q d enc Hpu Hqu Hle Hmul Hnn Hrsa) as Hread2.
  set (c3 := ctx3 sv (dc_id t) p q d) in *.
  set (s3 := set_last_msg_id id2 (set_last_msg_id id1 s)) in *.
  exists (authorized s3 c3 (d_b d) id3), w4, key, id1, id2, id3. do 6 eexists. split_and!.
  - apply (run_steps_at (s, t, w) tt (set_b (d_b d) c3, (authorized s3 c3 (d_b d) id3, t, w4))).
    unfold auth_steps. cbn [fst snd].
    rewrite (bind_Done _ _ _ _ _ E1), (bind_Done _ _ _ _ _ E2), (bind_Done _ _ _ _ _ E3). exact E4.
  - rewrite Ho4, Ho3, Ho2, Ho1, <- !app_assoc. reflexivity.
  - rewrite Hin, Hfin. reflexivity.
  - exact Hfin.
  - exact Hkey.
  - exists (d_nonce d), (d_new_nonce d), (client_g_b sv d). split_and!; try done.
    rewrite <- (ctx3_g_b sv sk Hsv (dc_id t) p q d). symmetry.
    apply (sv_key_agrees sv sk Hsv c3); try done; [apply ctx3_prime|by apply (ctx3_g_a sv sk)].
  - done.
  - done.
Qed.

Lemma key_gen_done st st' :
  mtproto_auth_key_gen sk malloc_bytes st = Done tt st' ->
  exists c, auth_steps sk malloc_bytes (auth_ctx_init (dc_id (snd (fst st))), st) = Done tt (c, st').
Proof.
  unfold mtproto_auth_key_gen. destruct (auth_steps _ _ _) as [[] [c st0]|?| |]; try done.
  intros [= <-]. by exists c.
Qed.

(** A step that succeeded leaves a well-formed context. *)
Lemma step_wf (m : AM unit) c s t w c' st :
  (forall rnd, auth_post rnd m any) -> ctx_wf c -> m (c, (s, t, w)) = Done tt (c', st) -> ctx_wf c'.
Proof.
  intros Hp Hc E. specialize (Hp (w_rand w) c s t w Hc eq_refl). rewrite E in Hp.
  destruct st as [[s' t'] w']. apply Hp.
Qed.

(** The messages of an exchange with the values of the context [c], from the
    session [s] and the world [w] to [s'] and [w']. *)
Definition transcript (c : AuthKeyCtx) (s : MtProtoSession) (w : World)
    (s' : MtProtoSession) (w' : World) : Prop :=
  exists id1 id2 id3 in1 in2 m1 m2 m3 key rsa_pad encrypted answer pad,
    (** what the client drew *)
    drawn w 16 (c_nonce c) /\ drawn w 32 (c_new_nonce c) /\ drawn w 256 (c_b c) /\
    (** what it sent *)
    n_out (w_net w') = n_out (w_net w) ++
      frame (plain_message id1 (req_pq (c_nonce c))) ++
      frame (plain_message id2
        (req_dh_params c (c_p c) (c_q c) (telegram_server_key_get_fingerprint sk) encrypted)) ++
      frame (plain_message id3 (set_client_params c (client_cipher malloc_bytes c (c_b c) pad))) /\
    (** what it received, in this order, and nothing else *)
    delivered (n_in (w_net w)) m1 in1 /\ delivered in1 m2 in2 /\ delivered in2 m3 (n_in (w_net w')) /\
    (** resPQ: its nonce, the server's nonce, pq, and the known fingerprint *)
    res_pq_data (telegram_server_key_get_fingerprint sk) c m1 /\ split_of (c_pq c) (c_p c) (c_q c) /\
    (** new_nonce went out under the RSA key *)
    crypto_rsa_load_public (telegram_server_key_get_pem sk) = Some key /\
    pkey_encrypt key (rsa_block c (c_p c) (c_q c) (c_new_nonce c) rsa_pad) = Some encrypted /\
    (** server_DH_params_ok: both nonces, outside and inside the encrypted
        answer, and there the group and g_a *)
    dh_params_data c answer m2 /\
    dh_inner_data c (c_g c) (dh_prime c) (g_a c) (answer_inner malloc_bytes c answer) /\
    2 <= c_g c <= 7 /\ 0 < be_combine (dh_prime c) /\
    (** g_b went out under the key of the two nonces *)
    (forall out, length out = length (client_plain c (c_b c) pad) ->
     let tmp := dh_derive_temp_aes (c_new_nonce c) (c_server_nonce c) in
     aes_ige_decrypt (client_cipher malloc_bytes c (c_b c) pad) (fst tmp) (snd tmp) out =
       crypto_sha1 (client_inner c (dh_g_b c (c_b c))) ++ client_inner c (dh_g_b c (c_b c)) ++ pad) /\
    (** dh_gen_ok: its nonce, and the hash of new_nonce and the key *)
    (nonce_hash1 (c_new_nonce c) (dh_key c (c_b c)) <> zeros 16 ->
     exists sn tl, length sn = 16%nat /\
       m3 = dh_gen_ok (c_nonce c) sn (nonce_hash1 (c_new_nonce c) (dh_key c (c_b c))) ++ tl) /\
    (** the session: the key, the salt, the last message id *)
    s' = authorized s c (c_b c) id3.

Lemma inner_group g prime ga time c :
  dh_prime (with_inner g prime ga time c) = prime /\ g_a (with_inner g prime ga time c) = ga.
Proof.
  unfold dh_prime, g_a, with_inner. cbn [c_dh_prime c_dh_prime_len c_g_a c_g_a_len set_server_time set_g_a set_dh_prime].
  split; by rewrite take_app_exact.
Qed.

(** (C5) Whoever answered: when the exchange succeeds, there are a nonce, a
    new_nonce and a b from the generator such that exactly three messages
    went out and exactly three came in, in turn ([transcript]): the second one
    sent carries new_nonce under the RSA key whose fingerprint the first
    answer lists; the second answer carries, encrypted under the key of the
    two nonces, both nonces again, the group and g_a; the last one sent carries
    g^b mod p under the same key; and the last answer the nonce of this
    exchange and the hash that only a holder of new_nonce and of the same key
    computes (a hash of 16 zero bytes, if it came to that, would be taken from
    an answer cut short too).  The session then holds g_a^b mod p, padded to
    256 bytes, and the salt of the nonces, and is otherwise the old one. *)
Theorem auth_success_confirmed s t w s' t' w' :
  malloc_sized malloc_bytes -> nonzero_rand (w_rand w) ->
  mtproto_auth_key_gen sk malloc_bytes (s, t, w) = Done tt (s', t', w') ->
  t' = t /\ exists c, transcript c s w s' w'.
Proof.
  intros Hm Hrand H. apply key_gen_done in H as [cf H]. cbn [fst snd] in H. unfold auth_steps in H.
  apply run_inv in H as ([] & st1 & E1 & H). assert (D1 := E1).
  apply req_pq_done in D1 as (nonce & sn & pq & id1 & w1 & m1 & -> & On1 & Dn & _ & Ho1 & Hm1 & Hd1).
  apply step_wf in E1 as Hc1; [|apply post_req_pq|apply ctx_init_wf].
  set (c1 := set_pq pq _) in *.
  apply run_inv in H as ([] & st2 & E2 & H). assert (D2 := E2).
  apply req_dh_done in D2 as (p & q & nn & key & rpad & enc & id2 & w2 & -> & On2 & Dnn & _ & Hpq & Hkey & _ &
    Hrsa & Ho2 & Hi2); [|done].
  apply step_wf in E2 as Hc2; [|apply post_req_dh|done].
  set (c2 := set_new_nonce nn _) in *.
  apply run_inv in H as ([] & st3 & E3 & H). assert (D3 := E3).
  apply (parse_dh_done malloc_bytes Hm) in D3
    as (ans & m2 & g & prime & ga & time & w3 & -> & On3 & Ho3 & Hg & _ & _ & Hm2 & Hd2 & Hin); [|done].
  apply step_wf in E3 as Hc3; [|intros; by apply post_parse_dh|done].
  destruct (inner_group g prime ga time (set_tmp_aes (dh_derive_temp_aes (c_new_nonce c2) (c_server_nonce c2)) c2))
    as [Ep Ega]. set (c3 := with_inner _ _ _ _ _) in *.
  assert (On : onward w w3) by eauto using onward_trans.
  assert (Hp0 : 0 < be_combine (dh_prime c3)).
  { eapply set_client_dh_prime; [exact Hc3| |exact H]. destruct On as [-> _]. exact Hrand. }
  apply (set_client_dh_done malloc_bytes Hm) in H
    as (b & pad & id3 & w4 & m3 & E4 & _ & Db & _ & Hpad & Ho4 & Hm3 & Hhash); [|done..].
  injection E4 as -> -> -> ->. split; [done|]. exists (set_b b c3).
  exists id1, id2, id3, (n_in (w_net w1)), (n_in (w_net w3)), m1, m2, m3, key, rpad, enc, ans, pad.
  rewrite Hi2 in Hm2. split_and!; try done.
  - by apply (drawn_onward w w1).
  - by apply (drawn_onward w w3).
  - by rewrite Ho4, Ho3, Ho2, Ho1, <- !app_assoc.
  - change (dh_prime (set_b b c3)) with (dh_prime c3). change (g_a (set_b b c3)) with (g_a c3).
    rewrite Ep, Ega. exact Hin.
  - exact (proj1 Hg).
  - exact (proj2 Hg).
  - intros out Hl. exact (client_cipher_decrypts malloc_bytes Hm c3 b pad out Hc3 Hpad Hl).
Qed.

(** An exchange that fails leaves the session's key, salt, id and sequence
    number as they were. *)
Theorem auth_failure_keeps_session s t w s' t' w' :
  mtproto_auth_key_gen sk malloc_bytes (s, t, w) = Fail (s', t', w') ->
  same_keys s s' /\ t' = t.
Proof.
  unfold mtproto_auth_key_gen. cbn [fst snd].
  pose proof (fail_keeps_steps sk malloc_bytes (auth_ctx_init (dc_id t)) s t w) as Hk.
  destruct (auth_steps _ _ _) as [a [c st]|[c [[s1 t1] w1]]| |]; try done.
  intros [= <- <- <-]. exact Hk.
Qed.

(** The exported steps, in any order and number. *)
Inductive auth_step := StepReqPq | StepReqDh | StepParseDh | StepSetClientDh.

Definition run_step (step : auth_step) : AM unit :=
  match step with
  | StepReqPq => auth_step_req_pq sk
  | StepReqDh => auth_step_req_dh sk
  | StepParseDh => auth_step_parse_dh malloc_bytes
  | StepSetClientDh => auth_step_set_client_dh malloc_bytes
  end.

(** A state from which the steps run, whether they succeed or fail. *)
Inductive auth_reach : AuthKeyCtx * (MtProtoSession * Transport * World) ->
    AuthKeyCtx * (MtProtoSession * Transport * World) -> Prop :=
| reach_refl st : auth_reach st st
| reach_step st st1 st2 step :
    auth_reach st st1 ->
    (run_step step st1 = Done tt st2 \/ run_step step st1 = Fail st2) -> auth_reach st st2.

Lemma run_step_post rnd step :
  malloc_sized malloc_bytes -> nonzero_rand rnd -> auth_post rnd (run_step step) any.
Proof.
  intros Hm Hr. destruct step; cbn [run_step];
    [apply post_req_pq|apply post_req_dh|by apply post_parse_dh|by apply post_set_client_dh].
Qed.

Lemma reach_wf st st' :
  malloc_sized malloc_bytes -> nonzero_rand (w_rand (snd (snd st))) -> auth_reach st st' ->
  ctx_wf (fst st) -> ctx_wf (fst st') /\ w_rand (snd (snd st')) = w_rand (snd (snd st)).
Proof.
  intros Hm Hr H Hc. induction H as [st|st st1 st2 step _ IH Hs]; [done|].
  destruct (IH Hr Hc) as [Hc1 Hw1]. destruct st1 as [c1 [[s1 t1] w1]]. cbn [fst snd] in *.
  pose proof (run_step_post _ step Hm Hr c1 s1 t1 w1 Hc1 Hw1) as Hp.
  destruct Hs as [E|E]; rewrite E in Hp; destruct st2 as [c2 [[s2 t2] w2]]; cbn; tauto.
Qed.

(** (C22) In every state the steps can reach from a fresh context the arrays have
    their sizes and the numbers their ranges, and every step ends there
    without leaving a buffer or exhausting a loop bound. *)
Theorem auth_ctx_invariant dc s t w st step :
  malloc_sized malloc_bytes -> nonzero_rand (w_rand w) ->
  auth_reach (auth_ctx_init dc, (s, t, w)) st ->
  ctx_wf (fst st) /\
  exists st', run_step step st = Done tt st' \/ run_step step st = Fail st'.
Proof.
  intros Hm Hr H. destruct (reach_wf (auth_ctx_init dc, (s, t, w)) st Hm Hr H (ctx_init_wf dc)) as [Hc Hw].
  split; [done|]. destruct st as [c1 [[s1 t1] w1]]. cbn [fst snd] in *.
  pose proof (run_step_post _ step Hm Hr c1 s1 t1 w1 Hc Hw) as Hp.
  destruct (run_step step _) as [[] st'|st'| |]; try done; exists st'; [by left|by right].
Qed.

(** (C23) The exchange ends, whatever arrives. *)
Theorem auth_exchange_ends s t w :
  malloc_sized malloc_bytes -> nonzero_rand (w_rand w) ->
  exists st', mtproto_auth_key_gen sk malloc_bytes (s, t, w) = Done tt st' \/
              mtproto_auth_key_gen sk malloc_bytes (s, t, w) = Fail st'.
Proof.
  intros Hm Hr. unfold mtproto_auth_key_gen. cbn [fst snd].
  pose proof (post_auth_steps sk malloc_bytes Hm (w_rand w) Hr _ s t w
    (ctx_init_wf (dc_id t)) eq_refl) as Hp.
  destruct (auth_steps _ _ _) as [[] st|st| |]; try done; exists (snd st); [by left|by right].
Qed.

End Exchange.

(** ** Witnesses *)

(** The whole exchange of the honest server runs by evaluation. *)
Definition toy_run :=
  mtproto_auth_key_gen (C := toy_crypto) (R := toy_rsa) toy_key toy_malloc
    (session_zero, toy_transport, toy_world).

Lemma toy_run_at :
  mtproto_auth_key_gen (C := toy_crypto) (R := toy_rsa) toy_key toy_malloc
    (session_zero, toy_transport, toy_world) = toy_run.
Proof. unfold toy_run. reflexivity. Qed.

Lemma toy_malloc_sized : malloc_sized toy_malloc.
Proof. intros n. apply length_replicate. Qed.

Lemma toy_factors (st : AuthKeyCtx * (MtProtoSession * Transport * World)) :
  pq_factorize (be_combine (sv_pq toy_server)) st = Done (3, 5) st.
Proof. vm_compute. reflexivity. Qed.

Lemma auth_exchange_completes_witness :
  exists s' w' (key : RsaKey (Rsa := toy_rsa)) id1 id2 id3 m1 m2 m3 a1 a2 a3,
    toy_run = Done tt (s', toy_transport, w') /\
    n_out (w_net w') = [] ++
      frame (plain_message id1 m1) ++ frame (plain_message id2 m2) ++ frame (plain_message id3 m3) /\
    n_in (w_net toy_world) = (a1 ++ a2 ++ a3) ++ n_in (w_net w') /\ n_in (w_net w') = [] /\
    crypto_rsa_load_public (R := toy_rsa) (g_pem toy_key) = Some key /\
    serves (C := toy_crypto) (R := toy_rsa) toy_server key m1 m2 m3 a1 a2 a3 (auth_key s') /\
    has_auth_key s' = true /\
    server_salt s' = initial_salt (d_new_nonce toy_draws) (sv_nonce toy_server).
Proof.
  apply (auth_exchange_completes (C := toy_crypto) (R := toy_rsa) toy_key toy_malloc toy_server
    toy_draws 3 5 session_zero toy_transport toy_world 2000 2000 [] []).
  - apply toy_malloc_sized.
  - apply toy_server_ok.
  - apply toy_rsa_works.
  - apply toy_factors.
  - reflexivity.
  - apply toy_draws_ok.
  - cbn. lia.
  - apply toy_env.
  - lia.
  - lia.
Defined.

(** A window of 256 draws is never all zeros. *)
Lemma be_combine_nonzero l b : In b l -> b <> Byte.x00 -> be_combine l <> 0.
Proof.
  intros Hb Hn. apply in_split in Hb as (l1 & l2 & ->). rewrite be_combine_app, be_combine_cons.
  pose proof (be_combine_range l1). pose proof (be_combine_range l2). pose proof (byte.unsigned_range b).
  assert (byte.unsigned b <> 0).
  { intros E. apply Hn. apply byte.unsigned_inj. by rewrite E. }
  pose proof (zlen_nonneg l2). pose proof (zlen_nonneg (b :: l2)).
  assert (0 < 2 ^ (8 * zlen l2)) by (apply Z.pow_pos_nonneg; lia).
  assert (0 < 2 ^ (8 * zlen (b :: l2))) by (apply Z.pow_pos_nonneg; lia). nia.
Qed.

Definition toy_draw_at (i : nat) : byte := nth i (draw_bytes toy_draws) Byte.x01.

Lemma toy_windows :
  forallb (fun pos => existsb (fun i => negb (Byte.eqb (toy_draw_at i) Byte.x00)) (seq pos 256))
    (seq 0 (length (draw_bytes toy_draws))) = true.
Proof. vm_cast_no_check (eq_refl true). Qed.

Lemma toy_nonzero : nonzero_rand (w_rand toy_world).
Proof.
  intros pos. change (w_rand toy_world) with toy_draw_at.
  assert (H : exists i, In i (seq pos 256) /\ toy_draw_at i <> Byte.x00).
  { destruct (Nat.lt_ge_cases pos (length (draw_bytes toy_draws))) as [Hl|Hl].
    - pose proof (proj1 (forallb_forall _ _) toy_windows pos) as H.
      rewrite existsb_exists in H. destruct H as (i & Hi & Hb); [apply in_seq; lia|].
      exists i. split; [done|]. intros E. by rewrite E in Hb.
    - exists pos. split; [apply in_seq; lia|]. unfold toy_draw_at. by rewrite nth_overflow. }
  destruct H as (i & Hi & Hb). apply (be_combine_nonzero _ (toy_draw_at i)); [|done].
  by apply (in_map toy_draw_at).
Qed.

Definition is_done {S A} (o : outcome S A) : bool := match o with Done _ _ => true | _ => false end.

Lemma toy_run_done : is_done toy_run = true.
Proof. vm_cast_no_check (eq_refl true). Qed.

Lemma auth_success_confirmed_witness :
  match toy_run with
  | Done _ (s', t', w') =>
      t' = toy_transport /\ exists c,
        transcript (C := toy_crypto) (R := toy_rsa) toy_key toy_malloc c session_zero toy_world s' w'
  | _ => False
  end.
Proof.
  refine (match toy_run as o return toy_run = o -> is_done o = true ->
            match o with Done _ (s', t', w') => _ | _ => False end
          with
          | Done tt (s', t', w') => fun E _ =>
              auth_success_confirmed (C := toy_crypto) (R := toy_rsa) toy_key toy_malloc session_zero
                toy_transport toy_world s' t' w' toy_malloc_sized toy_nonzero (eq_trans toy_run_at E)
          | _ => fun _ Hd => _
          end eq_refl toy_run_done); discriminate Hd.
Defined.

(** A world in which the socket fails at once. *)
Definition dead_world : World :=
  mkWorld (fun _ => Byte.x01) 0 (fun _ => 1) 0 (mkNet [] [] [] [] 3 0).

Definition dead_run :=
  mtproto_auth_key_gen (C := toy_crypto) (R := toy_rsa) toy_key toy_malloc
    (session_zero, toy_transport, dead_world).

Lemma dead_run_at :
  mtproto_auth_key_gen (C := toy_crypto) (R := toy_rsa) toy_key toy_malloc
    (session_zero, toy_transport, dead_world) = dead_run.
Proof. unfold dead_run. reflexivity. Qed.

Definition is_fail {S A} (o : outcome S A) : bool := match o with Fail _ => true | _ => false end.

Lemma dead_run_fails : is_fail dead_run = true.
Proof. vm_cast_no_check (eq_refl true). Qed.

Lemma auth_failure_keeps_session_witness :
  match dead_run with
  | Fail (s', t', w') => same_keys session_zero s' /\ t' = toy_transport
  | _ => False
  end.
Proof.
  refine (match dead_run as o return dead_run = o -> is_fail o = true ->
            match o with Fail (s', t', w') => _ | _ => False end
          with
          | Fail (s', t', w') => fun E _ =>
              auth_failure_keeps_session (C := toy_crypto) (R := toy_rsa) toy_key toy_malloc
                session_zero toy_transport dead_world s' t' w' (eq_trans dead_run_at E)
          | _ => fun _ Hd => _
          end eq_refl dead_run_fails); discriminate Hd.
Defined.

Lemma ones_nonzero : nonzero_rand (fun _ => Byte.x01).
Proof.
  intros pos. rewrite (map_const Byte.x01), length_seq. vm_compute. discriminate.
Qed.

Lemma auth_ctx_invariant_witness :
  ctx_wf (auth_ctx_init 2) /\
  exists st', run_step (C := toy_crypto) (R := toy_rsa) toy_key toy_malloc StepReqPq
      (auth_ctx_init 2, (session_zero, toy_transport, dead_world)) = Done tt st' \/
    run_step (C := toy_crypto) (R := toy_rsa) toy_key toy_malloc StepReqPq
      (auth_ctx_init 2, (session_zero, toy_transport, dead_world)) = Fail st'.
Proof.
  exact (auth_ctx_invariant (C := toy_crypto) (R := toy_rsa) toy_key toy_malloc 2 session_zero
    toy_transport dead_world _ StepReqPq toy_malloc_sized ones_nonzero
    (reach_refl (C := toy_crypto) (R := toy_rsa) toy_key toy_malloc _)).
Defined.

Lemma auth_exchange_ends_witness :
  exists st', dead_run = Done tt st' \/ dead_run = Fail st'.
Proof.
  exact (auth_exchange_ends (C := toy_crypto) (R := toy_rsa) toy_key toy_malloc session_zero
    toy_transport dead_world toy_malloc_sized ones_nonzero).
Defined.

(** ** Factorization *)

Lemma semiprime_factors r q x y :
  Z.prime r -> Z.prime q -> r <= q -> x * y = r * q -> 1 < x <= y -> (x, y) = (r, q).
Proof.
  intros Hr Hq Hle Hxy Hx. pose proof (Z.prime_ge_2 r Hr). pose proof (Z.prime_ge_2 q Hq).
  assert (Hdiv : (r | x) \/ (r | y)) by (apply Z.divide_prime_mul; [done|rewrite Hxy; apply Z.divide_factor_l]).
  assert (Hk : (exists k, x = k * r /\ k * y = q) \/ (exists k, y = k * r /\ k * x = q)).
  { destruct Hdiv as [[k ->]|[k ->]]; [left|right]; exists k; split; try done; nia. }
  destruct Hk as [(k & -> & Hk)|(k & -> & Hk)].
  - assert (Hy : (y | q)) by (exists k; lia).
    destruct (Z.divide_prime_r y q Hq Hy) as [?|[?|[->| ?]]]; try lia.
    assert (k = 1) as -> by nia. f_equal; lia.
  - assert (Hy : (x | q)) by (exists k; lia).
    destruct (Z.divide_prime_r x q Hq Hy) as [?|[?|[->| ?]]]; try lia.
    assert (k = 1) as -> by nia. f_equal; lia.
Qed.

(** On a product of two primes below [2^32], [pq_factorize] ends; if it
    succeeds it returns the two primes in order, and it changes nothing else. *)
Theorem pq_factorize_semiprime {S} r q (st : S) :
  Z.prime r -> Z.prime q -> r <= q -> q < 2 ^ 32 ->
  pq_factorize (r * q) st = Done (r, q) st \/ pq_factorize (r * q) st = Fail st.
Proof.
  intros Hr Hq Hle Hq32. pose proof (Z.prime_ge_2 r Hr). pose proof (Z.prime_ge_2 q Hq).
  unfold pq_factorize. rewrite (proj2 (Z.ltb_ge (r * q) 2)) by nia.
  destruct (Z.eqb_spec (r * q mod 2) 0) as [Heven|Hodd].
  - left. assert (H2 : (2 | r * q)) by (apply Z.mod_divide; lia).
    assert (Hr2 : r = 2).
    { apply Z.divide_prime_mul in H2 as [Hd|Hd]; try exact Z.prime_2.
      - pose proof (Z.divide_prime_r 2 r Hr Hd). lia.
      - pose proof (Z.divide_prime_r 2 q Hq Hd). lia. }
    subst r. replace (2 * q / 2) with q by (rewrite Z.mul_comm, Z.div_mul by lia; done).
    rewrite u32_id by (unfold is_u32; lia). cbn zeta. by rewrite (proj2 (Z.ltb_ge q 2)) by lia.
  - pose proof (try_c_sound 19 (r * q) 1 st ltac:(nia)) as Hs.
    destruct (try_c 19 (r * q) 1 st) as [[x y] st'|st'| |]; try done.
    + destruct Hs as [(Hxy & Hx & _) ->]. left. cbn [fst snd] in *.
      by rewrite (semiprime_factors r q x y).
    + subst st'. by right.
Qed.

Lemma pq_factorize_semiprime_witness :
  Z.prime 3 /\ Z.prime 5 /\
  (pq_factorize (3 * 5) tt = Done (3, 5) tt \/ pq_factorize (3 * 5) tt = Fail tt).
Proof.
  assert (H5 : Z.prime 5).
  { split; [lia|]. intros n Hn [k Hk].
    assert (Hc : n = 2 \/ n = 3 \/ n = 4) by lia. destruct Hc as [->|[->| ->]]; lia. }
  split; [exact Z.prime_3|]. split; [exact H5|].
  exact (pq_factorize_semiprime 3 5 tt Z.prime_3 H5 ltac:(lia) ltac:(lia)).
Defined.

(** An even product is divided without a look at the size: the second factor
    is cut to 32 bits, where an odd one of that size is refused. *)
Lemma even_pq_truncated {S} q (st : S) :
  2 <= q < 2 ^ 63 -> q mod 2 ^ 32 < 2 -> pq_factorize (2 * q) st = Done (q mod 2 ^ 32, 2) st.
Proof.
  intros Hq Hm. unfold pq_factorize. rewrite (proj2 (Z.ltb_ge (2 * q) 2)) by lia.
  rewrite (Z.mul_comm 2 q), Z.mod_mul, Z.div_mul by lia. cbn zeta. unfold u32.
  by rewrite (proj2 (Z.ltb_lt _ 2) Hm).
Qed.

(** The loop [while (b != 0)] of [pq_factorize] ends within its fuel on any
    two 64-bit words, with their greatest common divisor. *)
Theorem gcd_loop_is_gcd a b :
  is_u64 a -> is_u64 b -> gcd_loop GCD_FUEL a b = Some (Z.gcd a b).
Proof. apply gcd_loop_correct. Qed.

Lemma gcd_loop_is_gcd_witness : gcd_loop GCD_FUEL 12200160415121876738 7540113804746346429 = Some 1.
Proof.
  apply (gcd_loop_is_gcd 12200160415121876738 7540113804746346429); unfold is_u64; lia.
Defined.

(** ** The server key *)

Section ServerKey.
Context `{C : Crypto} `{R : Rsa} {HC : CryptoLaws C}.

#[local] Arguments fp_word : simpl never.

(** A PEM text has a fingerprint exactly when its key can be loaded with a
    nonzero modulus and exponent, and the fingerprint is the last eight bytes
    of the SHA-1 of the two numbers, each serialized as a TL [bytes] value. *)
Theorem fingerprint_is_tl_hash pem fp :
  crypto_rsa_fingerprint pem = Some fp <->
  exists k n e, crypto_rsa_load_public (Some pem) = Some k /\ pkey_n k = Some n /\ pkey_e k = Some e /\
    BN_bn2bin n <> [] /\ BN_bn2bin e <> [] /\
    fp = le_combine (slice 12 8 (crypto_sha1 (enc_bytes (BN_bn2bin n) ++ enc_bytes (BN_bn2bin e)))).
Proof.
  unfold crypto_rsa_fingerprint, crypto_rsa_load_public. split.
  - destruct (rsa_public_pkey_from_pem pem) as [k|] eqn:?; [|done]. cbn.
    destruct (pkey_n k) as [n|] eqn:?; [|done]. cbn.
    destruct (pkey_e k) as [e|] eqn:?; [|done]. cbn.
    destruct (Z.leb_spec (zlen (BN_bn2bin n)) 0); [done|].
    destruct (Z.leb_spec (zlen (BN_bn2bin e)) 0); [done|]. intros [= <-].
    exists k, n, e. rewrite fp_word_slice, !key_block_enc by apply sha1_len.
    repeat (split; [done || (intros E; by rewrite E in *)|]). done.
  - intros (k & n & e & Hk & Hn & He & Hn0 & He0 & ->). cbn in Hk. rewrite Hk. cbn. rewrite Hn. cbn.
    rewrite He. cbn. destruct (BN_bn2bin n) as [|x nb]; [done|]. destruct (BN_bn2bin e) as [|y eb]; [done|].
    rewrite !(proj2 (Z.leb_gt _ 0)) by (rewrite zlen_cons; pose proof (zlen_nonneg nb);
      pose proof (zlen_nonneg eb); lia).
    cbn [orb]. by rewrite fp_word_slice, !key_block_enc by apply sha1_len.
Qed.

(** Installing a key keeps the stored fingerprint that of the stored PEM
    text, which can be loaded; a text without a key changes nothing. *)
Theorem set_override_keeps_inv pem st :
  key_inv st ->
  match telegram_server_key_set_override pem st with
  | Done _ st' => key_inv st' /\ g_pem st' = (expand_newlines <$> pem)
  | Fail st' => st' = st
  | _ => False
  end.
Proof.
  intros Hi. unfold telegram_server_key_set_override. destruct pem as [pem|]; [|done].
  by destruct (crypto_rsa_fingerprint (expand_newlines pem)) as [fp|] eqn:E.
Qed.

End ServerKey.

Lemma set_override_keeps_inv_witness :
  key_inv (B := bignum_Z) (C := toy_crypto) (R := toy_rsa) (mkServerKey None 0) /\
  match telegram_server_key_set_override (C := toy_crypto) (R := toy_rsa) (Some [Byte.x4d])
          (mkServerKey None 0) with
  | Done _ st' => key_inv (C := toy_crypto) (R := toy_rsa) st' /\
      g_pem st' = (expand_newlines <$> Some [Byte.x4d])
  | Fail st' => st' = mkServerKey None 0
  | _ => False
  end.
Proof.
  split; [done|].
  exact (set_override_keeps_inv (C := toy_crypto) (R := toy_rsa) (Some [Byte.x4d])
           (mkServerKey None 0) eq_refl).
Defined.

Lemma fingerprint_is_tl_hash_witness :
  crypto_rsa_fingerprint (C := toy_crypto) (R := toy_rsa) [] = Some 0 <->
  exists (k : RsaKey (Rsa := toy_rsa)) n e, crypto_rsa_load_public (Some []) = Some k /\
    pkey_n k = Some n /\ pkey_e k = Some e /\ BN_bn2bin n <> [] /\ BN_bn2bin e <> [] /\
    0 = le_combine (slice 12 8 (crypto_sha1 (Crypto := toy_crypto)
          (enc_bytes (BN_bn2bin n) ++ enc_bytes (BN_bn2bin e)))).
Proof.
  exact (fingerprint_is_tl_hash (C := toy_crypto) (R := toy_rsa) [] 0).
Defined.
