(* ===== verification/FileSys.v ===== *)
(** * Programs over a file system

    Code that locks, reads and replaces files is a tree of system calls
    ([prog]): what a process does next depends on what its calls returned.
    One call runs at a time, so a schedule of (process, outcome) pairs is an
    interleaving, and a process that gets no more steps has crashed. *)

From S2P Require Import Prelude.
From stdpp Require Export strings gmap.


(** ** The file system *)

(** Directory entries, file contents, open descriptors and [flock] locks
    ([true] for exclusive) by descriptor; the next unused number. *)
Record FS := mkFS {
  fs_names : gmap string nat;
  fs_inodes : gmap nat (list byte);
  fs_fds : gmap nat nat;
  fs_locks : gmap nat bool;
  fs_next : nat;
}.

(** What the kernel decides about a call: it proceeds, it fails, or it moves
    at most [n] bytes. *)
Inductive decision := DOk | DErr | DShort (n : nat).

Definition succeeds (d : decision) : bool := match d with DOk => true | _ => false end.

Definition moved {A} (d : decision) (bs : list A) : list A :=
  match d with DOk => bs | DErr => [] | DShort n => take n bs end.

(** [SOpen path creat trunc] is [open] or [fopen]; a descriptor is read or
    written once, from the start.  [SFlock] is non-blocking,
    [SReadAll] a loop of [fgets] up to the end or an error; [SPread] is a
    [fread] of a stream that stands at [off], [SAppend] what a stream that
    stands at the end of its file hands to the kernel, [SStat] the size of a file.  A directory
    lookup ([SConfigDir]), [SMkdir], [SFdopen] and [SFsync] change nothing the
    model sees; nor do [chmod] and an [fsync] whose result has no effect, which
    are left out. *)
Inductive syscall : Type -> Type :=
| SConfigDir : syscall bool
| SMkdir : syscall bool
| SFdopen (fd : nat) : syscall bool
| SFsync (fd : nat) : syscall bool
| SOpen (path : string) (creat trunc : bool) : syscall (option nat)
| SFlock (fd : nat) (excl : bool) : syscall bool
| SRead (fd cap : nat) : syscall (list byte)
| SReadAll (fd : nat) : syscall (list byte)
| SPread (fd off n : nat) : syscall (list byte)
| SStat (path : string) : syscall (option Z)
| SWrite (fd : nat) (data : list byte) : syscall Z
| SAppend (fd : nat) (data : list byte) : syscall Z
| SClose (fd : nat) : syscall unit
| SUnlink (path : string) : syscall bool
| SRename (old new : string) : syscall bool.

Definition set_inode (i : nat) (bs : list byte) (fs : FS) : FS :=
  mkFS (fs_names fs) (<[i := bs]> (fs_inodes fs)) (fs_fds fs) (fs_locks fs) (fs_next fs).

(** A new descriptor for an inode. *)
Definition new_fd (i : nat) (fs : FS) : nat * FS :=
  (fs_next fs, mkFS (fs_names fs) (fs_inodes fs) (<[fs_next fs := i]> (fs_fds fs)) (fs_locks fs)
                    (S (fs_next fs))).

Definition open_at (path : string) (creat trunc : bool) (fs : FS) : option nat * FS :=
  match fs_names fs !! path with
  | Some i =>
      let '(fd, fs') := new_fd i (if trunc then set_inode i [] fs else fs) in (Some fd, fs')
  | None =>
      if creat then
        let i := fs_next fs in
        let '(fd, fs') := new_fd i (mkFS (<[path := i]> (fs_names fs)) (<[i := []]> (fs_inodes fs))
                                         (fs_fds fs) (fs_locks fs) (S i)) in (Some fd, fs')
      else (None, fs)
  end.

(** Another descriptor of the same file holds a lock that excludes this one. *)
Definition conflicts (fs : FS) (fd : nat) (excl : bool) : bool :=
  existsb (fun '(fd', excl') =>
             negb (Nat.eqb fd' fd) && (excl || excl') &&
             bool_decide (fs_fds fs !! fd' = fs_fds fs !! fd))
          (map_to_list (fs_locks fs)).

Definition exec (d : decision) {R : Type} (c : syscall R) (fs : FS) : R * FS :=
  match c in syscall R return R * FS with
  | SConfigDir => (succeeds d, fs)
  | SMkdir => (succeeds d, fs)
  | SFdopen _ => (succeeds d, fs)
  | SFsync _ => (succeeds d, fs)
  | SOpen path creat trunc =>
      match d with DErr => (None, fs) | _ => open_at path creat trunc fs end
  | SFlock fd excl =>
      match d with
      | DErr => (false, fs)
      | _ =>
          if conflicts fs fd excl then (false, fs)
          else (true, mkFS (fs_names fs) (fs_inodes fs) (fs_fds fs) (<[fd := excl]> (fs_locks fs))
                           (fs_next fs))
      end
  | SRead fd cap =>
      (moved d (take cap (default [] (fs_fds fs !! fd ≫= (fs_inodes fs !!.)))), fs)
  | SReadAll fd => (moved d (default [] (fs_fds fs !! fd ≫= (fs_inodes fs !!.))), fs)
  | SPread fd off n =>
      (moved d (take n (drop off (default [] (fs_fds fs !! fd ≫= (fs_inodes fs !!.))))), fs)
  | SStat path =>
      (match d with DErr => None | _ => zlen <$> (fs_names fs !! path ≫= (fs_inodes fs !!.)) end, fs)
  | SWrite fd data =>
      match fs_fds fs !! fd with
      | Some i =>
          let bs := moved d data in
          ((match d with DErr => -1 | _ => zlen bs end)%Z,
           set_inode i (bs ++ drop (length bs) (default [] (fs_inodes fs !! i))) fs)
      | None => ((-1)%Z, fs)
      end
  | SAppend fd data =>
      match fs_fds fs !! fd with
      | Some i =>
          let bs := moved d data in
          ((match d with DErr => -1 | _ => zlen bs end)%Z,
           set_inode i (default [] (fs_inodes fs !! i) ++ bs) fs)
      | None => ((-1)%Z, fs)
      end
  | SClose fd =>
      (tt, mkFS (fs_names fs) (fs_inodes fs) (delete fd (fs_fds fs)) (delete fd (fs_locks fs))
                (fs_next fs))
  | SUnlink path =>
      match d, fs_names fs !! path with
      | DOk, Some _ => (true, mkFS (delete path (fs_names fs)) (fs_inodes fs) (fs_fds fs)
                                   (fs_locks fs) (fs_next fs))
      | _, _ => (false, fs)
      end
  | SRename old new =>
      match d, fs_names fs !! old with
      | DOk, Some i => (true, mkFS (<[new := i]> (delete old (fs_names fs))) (fs_inodes fs)
                                   (fs_fds fs) (fs_locks fs) (fs_next fs))
      | _, _ => (false, fs)
      end
  end.

(** ** Programs *)

Inductive prog (A : Type) : Type :=
| Ret (a : A)
| Sys (R : Type) (c : syscall R) (k : R -> prog A).
Arguments Ret {A} a.
Arguments Sys {A R} c k.

Fixpoint prog_bind {A B} (p : prog A) (h : A -> prog B) : prog B :=
  match p with
  | Ret a => h a
  | Sys c k => Sys c (fun r => prog_bind (k r) h)
  end.

#[global] Instance prog_mret : MRet prog := fun A a => Ret a.
#[global] Instance prog_mbind : MBind prog := fun A B h p => prog_bind p h.

Definition call {R : Type} (c : syscall R) : prog R := Sys c Ret.

(** ** Streams

    [fwrite] copies to a buffer and hands only some of the bytes to the
    kernel.  [spill h n] says how many when the stream holds [h] bytes and gets
    [n] new ones, [salvage] what is still held of the bytes that a failed
    write did not move; the C library may choose both. *)
Class Stdio := {
  spill : nat -> nat -> nat;
  salvage : list byte -> list byte;
}.

(** What is handed over and what is held of [bs] bytes, [h] of them old. *)
Definition handed `{Stdio} (held data : list byte) : list byte :=
  take (spill (length held) (length data)) (held ++ data).
Definition kept `{Stdio} (held data : list byte) : list byte :=
  drop (spill (length held) (length data)) (held ++ data).

(** [fwrite] of a stream that holds [held]: whether all was taken, and what
    the stream holds afterwards. *)
Definition stream_write `{Stdio} (fd : nat) (held data : list byte) : prog (bool * list byte) :=
  match handed held data with
  | [] => mret (true, kept held data)
  | out =>
      n ← call (SAppend fd out);
      if (n =? zlen out)%Z then mret (true, kept held data)
      else mret (false, salvage (drop (Z.to_nat n) (held ++ data)))
  end.

(** [fclose] writes what is held; the callers do not look at its result. *)
Definition stream_close (fd : nat) (held : list byte) : prog unit :=
  match held with
  | [] => mret tt
  | _ => call (SAppend fd held) ;; mret tt
  end ;;
  call (SClose fd).

(** As many calls as there are decisions: the rest of the program (what a
    crash at this point leaves undone) and the file system. *)
Fixpoint run {A} (ds : list decision) (p : prog A) (fs : FS) : prog A * FS :=
  match p, ds with
  | Sys c k, d :: ds => let '(r, fs') := exec d c fs in run ds (k r) fs'
  | _, _ => (p, fs)
  end.

(** The whole program when every call proceeds. *)
Fixpoint complete {A} (p : prog A) (fs : FS) : A * FS :=
  match p with
  | Ret a => (a, fs)
  | Sys c k => let '(r, fs') := exec DOk c fs in complete (k r) fs'
  end.

(** Several processes: process [i] makes its next call. *)
Definition step_at {A} (i : nat) (d : decision) (st : list (prog A) * FS) : list (prog A) * FS :=
  match st.1 !! i with
  | Some (Sys c k) => let '(r, fs') := exec d c st.2 in (<[i := k r]> st.1, fs')
  | _ => st
  end.

Definition run_schedule {A} (sch : list (nat * decision)) (st : list (prog A) * FS)
    : list (prog A) * FS := fold_left (fun st '(i, d) => step_at i d st) sch st.

(** ** A logic for one process

    [always I Q p fs]: whatever the kernel decides, [I] holds before and
    after every call of [p], and [Q] of the result when it ends. *)

Fixpoint always {A} (I : FS -> Prop) (Q : A -> FS -> Prop) (p : prog A) (fs : FS) : Prop :=
  I fs /\
  match p with
  | Ret a => Q a fs
  | Sys c k => forall d, let '(r, fs') := exec d c fs in always I Q (k r) fs'
  end.

Lemma always_run {A} I Q (p : prog A) fs ds p' fs' :
  always I Q p fs -> run ds p fs = (p', fs') ->
  I fs' /\ match p' with Ret a => Q a fs' | _ => True end.
Proof.
  revert p fs. induction ds as [|d ds IH]; intros [a|R c k] fs H E; cbn in H, E;
    try (injection E as <- <-; tauto).
  destruct H as [_ H]. specialize (H d). destruct (exec d c fs) as [r fs1]. by eapply IH.
Qed.

Lemma always_mono {A} (I : FS -> Prop) (Q Q' : A -> FS -> Prop) p fs :
  (forall a fs', I fs' -> Q a fs' -> Q' a fs') -> always I Q p fs -> always I Q' p fs.
Proof.
  intros HQ. revert fs. induction p as [a|R c k IH]; intros fs [HI H]; split; try done; [auto|].
  intros d. specialize (H d). destruct (exec d c fs) as [r fs']. by apply IH.
Qed.

Lemma always_bind {A B} I (Q : A -> FS -> Prop) (Q' : B -> FS -> Prop) p h fs :
  always I Q p fs -> (forall a fs', I fs' -> Q a fs' -> always I Q' (h a) fs') ->
  always I Q' (p ≫= h) fs.
Proof.
  unfold mbind, prog_mbind. revert fs. induction p as [a|R c k IH]; intros fs [HI H] Hh; cbn.
  - by apply Hh.
  - split; [done|]. intros d. specialize (H d). destruct (exec d c fs) as [r fs'].
    by apply IH.
Qed.

Lemma always_ret {A} (I : FS -> Prop) (Q : A -> FS -> Prop) a fs :
  I fs -> Q a fs -> always I Q (mret a) fs.
Proof. done. Qed.

(** One call: the invariant now and the rest for every outcome. *)
Lemma always_call {R : Type} (I : FS -> Prop) (Q : R -> FS -> Prop) (c : syscall R) fs :
  I fs -> (forall d, let '(r, fs') := exec d c fs in I fs' /\ Q r fs') ->
  always I Q (call c) fs.
Proof. intros HI H. split; [done|]. exact H. Qed.

(** ** Files by name *)

Definition file (path : string) (fs : FS) : option (list byte) :=
  fs_names fs !! path ≫= (fs_inodes fs !!.).

(** Names are links to different existing inodes. *)
Definition fs_wf (fs : FS) : Prop :=
  (forall p i, fs_names fs !! p = Some i -> (i < fs_next fs)%nat /\ is_Some (fs_inodes fs !! i)) /\
  (forall p q i, fs_names fs !! p = Some i -> fs_names fs !! q = Some i -> p = q).

(** Calls that change no file, name or inode. *)
Definition quiet {R} (c : syscall R) : bool :=
  match c with
  | SConfigDir | SMkdir | SFdopen _ | SFsync _ | SFlock _ _ | SRead _ _ | SReadAll _ | SPread _ _ _ | SStat _ | SClose _ => true
  | SOpen _ creat trunc => negb creat && negb trunc
  | _ => false
  end.

Lemma same_files fs fs' :
  fs_wf fs -> fs_names fs' = fs_names fs -> fs_inodes fs' = fs_inodes fs ->
  (fs_next fs <= fs_next fs')%nat -> fs_wf fs' /\ forall p, file p fs' = file p fs.
Proof.
  intros [H1 H2] En Ei Hn. unfold fs_wf, file. rewrite En, Ei. split; [|done]. split; [|done].
  intros p i Hp. apply H1 in Hp as [? ?]. split; [lia|done].
Qed.

Lemma exec_quiet {R} (c : syscall R) d fs r fs' :
  quiet c = true -> exec d c fs = (r, fs') -> fs_wf fs ->
  fs_wf fs' /\ forall p, file p fs' = file p fs.
Proof.
  intros Hq E Hwf. apply same_files; try done; destruct c; cbn in Hq, E; try done;
    repeat first [discriminate | progress simplify_eq/= | case_match]; cbn; try lia; try done;
    destruct trunc, creat; cbn in *; try done; unfold open_at, new_fd in *;
    repeat first [discriminate | progress simplify_eq/= | case_match]; cbn; try lia; done.
Qed.

Lemma open_at_spec path creat trunc fs o fs' :
  fs_wf fs -> open_at path creat trunc fs = (o, fs') ->
  fs_wf fs' /\ (forall q, q <> path -> file q fs' = file q fs) /\
  match o with
  | Some fd => exists i, fs_fds fs' !! fd = Some i /\ fs_names fs' !! path = Some i /\
      fs_inodes fs' !! i = Some (if trunc then [] else default [] (file path fs)) /\
      (fs_names fs !! path = Some i \/ file path fs = None /\ creat = true)
  | None => fs' = fs /\ file path fs = None /\ creat = false
  end.
Proof.
  intros [H1 H2] E. unfold open_at in E. destruct (fs_names fs !! path) as [i|] eqn:Ep.
  - destruct (H1 _ _ Ep) as [Hi [bs Hb]]. unfold new_fd in E. injection E as <- <-.
    assert (Hother : forall q j, q <> path -> fs_names fs !! q = Some j -> i <> j).
    { intros q j Hne Hq ->. by apply Hne, (H2 _ _ _ Hq Ep). }
    split.
    + split; [|by destruct trunc]. destruct trunc; cbn; intros p j Hp; pose proof (H1 _ _ Hp) as [? ?].
      * split; [lia|]. destruct (decide (i = j)) as [->|]; [by rewrite lookup_insert_eq|].
        by rewrite lookup_insert_ne.
      * split; [lia|done].
    + split.
      * intros q Hq. unfold file. destruct trunc; cbn; [|done].
        destruct (fs_names fs !! q) as [j|] eqn:Eq; cbn; [|done].
        rewrite lookup_insert_ne; [done|by eapply Hother].
      * exists i. cbn. rewrite lookup_insert_eq. unfold file. rewrite Ep. cbn.
        destruct trunc; cbn; rewrite ?lookup_insert_eq, ?Hb, ?Ep; auto.
  - destruct creat; [|by injection E as <- <-; unfold file; rewrite Ep].
    unfold new_fd in E. cbn in E. injection E as <- <-.
    assert (Hfresh : forall q j, fs_names fs !! q = Some j -> fs_next fs <> j).
    { intros q j Hq <-. apply H1 in Hq as [? _]. lia. }
    split.
    + split; cbn.
      * intros p j Hp. destruct (decide (path = p)) as [<-|Hne].
        -- rewrite lookup_insert_eq in Hp. injection Hp as <-. rewrite lookup_insert_eq. split; [lia|done].
        -- rewrite lookup_insert_ne in Hp by done. pose proof (H1 _ _ Hp) as [? ?].
           rewrite lookup_insert_ne by (by eapply Hfresh). split; [lia|done].
      * intros p q j Hp Hq. apply lookup_insert_Some in Hp as [[<- <-]|[_ Hp]], Hq as [[<- Hj]|[_ Hq]];
          try done; [by apply Hfresh in Hq|subst j; by apply Hfresh in Hp|by eapply H2].
    + split.
      * intros q Hq. unfold file. cbn. rewrite lookup_insert_ne by done.
        destruct (fs_names fs !! q) as [j|] eqn:Eq; cbn; [|done].
        rewrite lookup_insert_ne; [done|by eapply Hfresh].
      * exists (fs_next fs). cbn. rewrite !lookup_insert_eq. unfold file. rewrite Ep. cbn.
        destruct trunc; naive_solver.
Qed.

(** A write to a file that was just truncated. *)
Lemma write_spec d fd data path i fs n fs' :
  fs_wf fs -> fs_fds fs !! fd = Some i -> fs_names fs !! path = Some i ->
  fs_inodes fs !! i = Some [] -> exec d (SWrite fd data) fs = (n, fs') ->
  fs_wf fs' /\ (forall q, q <> path -> file q fs' = file q fs) /\
  fs_names fs' = fs_names fs /\ file path fs' = Some (moved d data) /\
  (n = zlen data -> moved d data = data).
Proof.
  intros [H1 H2] Hfd Hp Hi E. cbn in E. rewrite Hfd, Hi in E. cbn in E. injection E as <- <-.
  rewrite drop_nil, app_nil_r. split.
  - split; [|done]. cbn. intros p j Hj. apply H1 in Hj as [? ?]. split; [done|].
    destruct (decide (i = j)) as [->|]; [by rewrite lookup_insert_eq|by rewrite lookup_insert_ne].
  - split; [|split; [done|split]].
    + intros q Hq. unfold file. cbn. destruct (fs_names fs !! q) as [j|] eqn:Eq; cbn; [|done].
      rewrite lookup_insert_ne; [done|]. intros ->. by apply Hq, (H2 _ _ _ Eq Hp).
    + unfold file. cbn. rewrite Hp. cbn. by rewrite lookup_insert_eq.
    + destruct d as [| |k]; cbn; [done| |].
      * unfold zlen. intros Hz. lia.
      * unfold zlen. rewrite length_take. intros Hz. apply take_ge. lia.
Qed.

Lemma rename_spec d old new fs (ok : bool) fs' :
  fs_wf fs -> old <> new -> exec d (SRename old new) fs = (ok, fs') ->
  if ok then fs_wf fs' /\ file new fs' = file old fs /\
             (forall q, q <> old -> q <> new -> file q fs' = file q fs)
  else fs' = fs.
Proof.
  intros [H1 H2] Hne E. cbn in E. destruct d; try (by injection E as <- <-).
  destruct (fs_names fs !! old) as [i|] eqn:Eo; [|by injection E as <- <-].
  injection E as <- <-. split; [split; cbn|split].
  - intros p j Hp. destruct (decide (new = p)) as [<-|Hnp].
    + rewrite lookup_insert_eq in Hp. injection Hp as <-. by eapply H1.
    + rewrite lookup_insert_ne in Hp by done. apply lookup_delete_Some in Hp as [_ Hp]. by eapply H1.
  - intros p q j Hp Hq.
    apply lookup_insert_Some in Hp as [[<- <-]|[_ Hp]], Hq as [[<- Hj]|[_ Hq]]; try done;
      rewrite ?lookup_delete_Some in *; naive_solver.
  - unfold file. cbn. by rewrite lookup_insert_eq, Eo.
  - intros q Ho Hn. unfold file. cbn. rewrite lookup_insert_ne, lookup_delete_ne by done. done.
Qed.

Lemma unlink_spec d path fs (ok : bool) fs' :
  fs_wf fs -> exec d (SUnlink path) fs = (ok, fs') ->
  fs_wf fs' /\ forall q, q <> path -> file q fs' = file q fs.
Proof.
  intros [H1 H2] E. cbn in E. destruct d, (fs_names fs !! path) as [i|] eqn:Ep; injection E as <- <-;
    try done. split; [split; cbn|].
  - intros p j Hp. apply lookup_delete_Some in Hp as [_ Hp]. by eapply H1.
  - intros p q j Hp Hq. apply lookup_delete_Some in Hp as [_ Hp], Hq as [_ Hq]. by eapply H2.
  - intros q Hq. unfold file. cbn. by rewrite lookup_delete_ne.
Qed.

(** ** Programs whose calls all proceed *)

Lemma complete_bind {A B} (p : prog A) (h : A -> prog B) fs a g :
  complete p fs = (a, g) -> complete (p ≫= h) fs = complete (h a) g.
Proof.
  unfold mbind, prog_mbind. revert fs. induction p as [b|R c k IH]; intros fs E; cbn in *.
  - by injection E as <- <-.
  - destruct (exec DOk c fs) as [r fs']. by apply IH.
Qed.

Lemma complete_call {R} (c : syscall R) fs : complete (call c) fs = exec DOk c fs.
Proof. cbn. by destruct (exec DOk c fs). Qed.

(** A complete run is a run with enough decisions. *)
Lemma complete_run {A} (p : prog A) fs a g :
  complete p fs = (a, g) -> exists n, run (replicate n DOk) p fs = (Ret a, g).
Proof.
  revert fs. induction p as [b|R c k IH]; intros fs E; cbn in E.
  - exists O. by injection E as <- <-.
  - destruct (exec DOk c fs) as [r fs'] eqn:Ec. destruct (IH r fs' E) as [n Hn].
    exists (S n). cbn. by rewrite Ec.
Qed.

(** Opening takes a new descriptor and no lock. *)
Lemma open_at_fd path creat trunc fs o fs' :
  open_at path creat trunc fs = (o, fs') ->
  fs_locks fs' = fs_locks fs /\ (fs_next fs <= fs_next fs')%nat /\
  forall fd, o = Some fd -> (fs_next fs <= fd < fs_next fs')%nat.
Proof.
  unfold open_at, new_fd. intros E.
  repeat first [discriminate | progress simplify_eq/= | case_match];
    (split; [done|]; split; [cbn; lia|]; intros ? [= <-]; cbn; lia) || (split; [done|]; split; [lia|done]).
Qed.
