(* ===== verification/FileLogic.v ===== *)
(** * Replacing a file

    What the calls of a program do to one file: those that leave it alone,
    work on a temporary file beside it, and the rename that replaces it; for
    every outcome of the calls, and for runs in which all proceed. *)

From Stdlib Require Import String.
From S2P Require Import Prelude FileSys.

#[local] Open Scope Z_scope.

Section Replace.
Context (path tmp : string) (Hne : tmp <> path).

(** The well-formed file systems in which the file has the contents [x]. *)
Definition holds (x : option (list byte)) (fs : FS) : Prop := fs_wf fs /\ file path fs = x.

(** ** Every outcome *)

Section Outcomes.
Context (I : FS -> Prop) (x : option (list byte)) (HI : forall g, holds x g -> I g).

Lemma quiet_keeps {R} (c : syscall R) fs :
  quiet c = true -> holds x fs -> always I (fun _ g => holds x g) (call c) fs.
Proof.
  intros Hq [Hwf Hx]. apply always_call; [by apply HI|]. intros d.
  destruct (exec d c fs) as [r fs'] eqn:E. destruct (exec_quiet _ _ _ _ _ Hq E Hwf) as [Hwf' Hf].
  assert (H : holds x fs') by (split; [done|]; by rewrite Hf).
  split; [by apply HI|done].
Qed.

(** A call that leaves the file alone, with what else is known of it. *)
Lemma call_keeps {R} (c : syscall R) (P : R -> FS -> Prop) fs :
  holds x fs -> (forall d r g, exec d c fs = (r, g) -> holds x g /\ P r g) ->
  always I (fun r g => holds x g /\ P r g) (call c) fs.
Proof.
  intros Hf H. apply always_call; [by apply HI|]. intros d.
  destruct (exec d c fs) as [r g] eqn:E. destruct (H _ _ _ E) as [H1 H2]. split; [by apply HI|done].
Qed.

(** The file is not touched by work on the temporary one. *)
Lemma holds_same fs g :
  holds x fs -> fs_wf g -> (forall q, q <> tmp -> file q g = file q fs) -> holds x g.
Proof using Hne. intros [_ Hx] Hwf Hf. split; [done|]. by rewrite Hf by congruence. Qed.

Lemma unlink_tmp_keeps fs :
  holds x fs -> always I (fun _ g => holds x g) (call (SUnlink tmp)) fs.
Proof using HI Hne.
  intros H. eapply always_mono; [|apply (call_keeps _ (fun _ _ => True)); [done|]].
  { by intros ? ? _ [? _]. }
  intros d o g E. apply unlink_spec in E as [Hwf Hf]; [|by destruct H].
  split; [by eapply holds_same|done].
Qed.

(** Opening it to read gives its contents. *)
Lemma open_read_keeps fs :
  holds x fs ->
  always I (fun o g => holds x g /\ forall fd, o = Some fd ->
      default [] (fs_fds g !! fd ≫= (fs_inodes g !!.)) = (default [] x : list byte))
    (call (SOpen path false false)) fs.
Proof using HI.
  intros H. apply call_keeps; [done|].
  intros d o g E. destruct H as [Hwf Hx].
  assert (Hq : holds x g).
  { destruct (exec_quiet (SOpen path false false) d fs o g eq_refl E Hwf) as [Hwf' Hf].
    split; [done|]. by rewrite Hf. }
  split; [done|]. intros fd ->. cbn in E.
  destruct d; try done; apply open_at_spec in E as (_ & _ & i & Hfd & _ & Hi & _); try done;
    rewrite Hfd; cbn; rewrite Hi; cbn; by rewrite Hx.
Qed.

(** The temporary file, empty and open for writing. *)
Definition open_empty (fd : nat) (g : FS) : Prop :=
  exists i, fs_fds g !! fd = Some i /\ fs_names g !! tmp = Some i /\ fs_inodes g !! i = Some [].

Lemma open_tmp_keeps fs :
  holds x fs ->
  always I (fun o g => holds x g /\ forall fd, o = Some fd -> open_empty fd g)
    (call (SOpen tmp true true)) fs.
Proof using HI Hne.
  intros H. apply call_keeps; [done|].
  intros d o g E. cbn in E. destruct d; try (by injection E as <- <-);
    apply open_at_spec in E as (Hwf & Hf & Ho); try apply H;
    (split; [by eapply holds_same|]); intros fd ->; destruct Ho as (i & ? & ? & ? & _); by exists i.
Qed.

Lemma write_tmp_keeps fd data fs :
  holds x fs -> open_empty fd fs ->
  always I (fun n g => holds x g /\ (n = zlen data -> file tmp g = Some data))
    (call (SWrite fd data)) fs.
Proof using HI Hne.
  intros H (i & Hfd & Hn & Hi). apply call_keeps; [done|].
  intros d n g' E. eapply write_spec in E as (Hwf & Hf & _ & Ht & Hfull); try done; [|apply H].
  split; [by eapply holds_same|]. intros Hz. by rewrite Ht, Hfull.
Qed.

Lemma close_keeps fd new fs :
  holds x fs -> file tmp fs = Some new ->
  always I (fun _ g => holds x g /\ file tmp g = Some new) (call (SClose fd)) fs.
Proof using HI Hne.
  intros H Ht. apply call_keeps; [done|].
  intros d o g2 E. apply exec_quiet in E as [Hwf Hf]; [|done|apply H].
  split; [by eapply holds_same|by rewrite Hf].
Qed.

Lemma rename_safe new fs :
  (forall g, holds (Some new) g -> I g) -> holds x fs -> file tmp fs = Some new ->
  always I (fun (ok : bool) g => holds (if ok then Some new else x) g)
         (call (SRename tmp path)) fs.
Proof using HI Hne.
  intros HI' H Ht. apply always_call; [by apply HI|]. intros d.
  destruct (exec d (SRename tmp path) fs) as [ok g] eqn:E.
  apply rename_spec in E; [|apply H|done]. destruct ok; [|subst g; auto].
  destruct E as (Hwf & Hf & _). assert (holds (Some new) g) by (split; [done|]; by rewrite <- Ht).
  auto.
Qed.

End Outcomes.

(** ** Complete runs *)

(** The file, and the locks that are held, by descriptors already given out. *)
Definition settled (x : option (list byte)) (L : gmap nat bool) (fs : FS) : Prop :=
  holds x fs /\ fs_locks fs = L /\ forall fd, is_Some (L !! fd) -> (fd < fs_next fs)%nat.

(** Closing a descriptor that holds no lock. *)
Lemma close_ok x L fd fs :
  settled x L fs -> L !! fd = None ->
  exists g, complete (call (SClose fd)) fs = (tt, g) /\ settled x L g /\
            forall p, file p g = file p fs.
Proof.
  intros ([Hwf Hx] & HL & Hn) Hfd. eexists. split; [done|].
  destruct (exec_quiet (SClose fd) DOk fs _ _ eq_refl eq_refl Hwf) as [Hwf' Hf].
  split; [|exact Hf]. split; [split; [done|]; by rewrite Hf|].
  split; [|exact Hn]. cbn. by rewrite HL, delete_id.
Qed.

(** Opening to read. *)
Lemma open_read_ok c L fs :
  settled (Some c) L fs ->
  exists fd g, complete (call (SOpen path false false)) fs = (Some fd, g) /\ settled (Some c) L g /\
    L !! fd = None /\ fs_fds g !! fd ≫= (fs_inodes g !!.) = Some c.
Proof.
  intros ([Hwf Hx] & HL & Hn).
  destruct (open_at path false false fs) as [o g] eqn:E.
  destruct (open_at_fd _ _ _ _ _ _ E) as (HL' & Hn' & Hfd).
  destruct (open_at_spec _ _ _ _ _ _ Hwf E) as (Hwf' & _ & Ho).
  destruct o as [fd|]; [|destruct Ho as (_ & Ho & _); congruence].
  destruct Ho as (i & Hfdi & Hname & Hi & _). specialize (Hfd fd eq_refl). rewrite Hx in Hi. cbn in Hi.
  exists fd, g. split; [by rewrite complete_call|]. split; [split; [split|split]|split].
  - done.
  - unfold file. rewrite Hname. cbn. by rewrite Hi.
  - congruence.
  - intros fd' Hf. apply Hn in Hf. lia.
  - destruct (L !! fd) eqn:El; [|done]. assert (fd < fs_next fs)%nat by (apply Hn; by rewrite El). lia.
  - rewrite Hfdi. cbn. by rewrite Hi.
Qed.

(** There is nothing to open. *)
Lemma open_read_absent L fs :
  settled None L fs -> complete (call (SOpen path false false)) fs = (None, fs).
Proof.
  intros ([Hwf Hx] & _). rewrite complete_call. cbn.
  destruct (open_at path false false fs) as [o g] eqn:E.
  destruct (open_at_spec _ _ _ _ _ _ Hwf E) as (_ & _ & Ho). destruct o as [fd|].
  - destruct Ho as (i & _ & _ & _ & [Hname|[_ ?]]); [|done].
    unfold file in Hx. rewrite Hname in Hx. cbn in Hx. destruct Hwf as [H1 _].
    apply H1 in Hname as [_ [bs Hb]]. congruence.
  - by destruct Ho as (-> & _).
Qed.

(** An empty file, open for writing, at the name [tmp]. *)
Lemma open_tmp_ok x L fs :
  settled x L fs ->
  exists fd g, complete (call (SOpen tmp true true)) fs = (Some fd, g) /\ settled x L g /\
    L !! fd = None /\ open_empty fd g.
Proof using Hne.
  intros ([Hwf Hx] & HL & Hn).
  destruct (open_at tmp true true fs) as [o g] eqn:E.
  destruct (open_at_fd _ _ _ _ _ _ E) as (HL' & Hn' & Hfd).
  destruct (open_at_spec _ _ _ _ _ _ Hwf E) as (Hwf' & Hf & Ho).
  destruct o as [fd|]; [|by destruct Ho as (_ & _ & ?)].
  destruct Ho as (i & Hfdi & Hname & Hi & _). specialize (Hfd fd eq_refl).
  exists fd, g. split; [by rewrite complete_call|]. split; [split; [|split]|split].
  - by eapply (holds_same x fs).
  - congruence.
  - intros fd' Hl. apply Hn in Hl. lia.
  - destruct (L !! fd) eqn:El; [|done]. assert (fd < fs_next fs)%nat by (apply Hn; by rewrite El). lia.
  - by exists i.
Qed.

Lemma write_tmp_ok x L fd bs fs :
  settled x L fs -> open_empty fd fs ->
  exists g, complete (call (SWrite fd bs)) fs = (zlen bs, g) /\ settled x L g /\
            file tmp g = Some bs.
Proof using Hne.
  intros ([Hwf Hx] & HL & Hn) (i & Hfd & Hname & Hi).
  destruct (exec DOk (SWrite fd bs) fs) as [n g] eqn:E.
  destruct (write_spec _ _ _ _ _ _ _ _ Hwf Hfd Hname Hi E) as (Hwf' & Hf & _ & Ht & _).
  rewrite complete_call, E. cbn in E. rewrite Hfd in E. injection E as <- <-.
  eexists. split; [done|]. split; [|done]. split; [by eapply (holds_same x fs)|]. done.
Qed.

Lemma rename_ok x L new fs :
  settled x L fs -> file tmp fs = Some new ->
  exists g, complete (call (SRename tmp path)) fs = (true, g) /\ settled (Some new) L g.
Proof using Hne.
  intros ([Hwf Hx] & HL & Hn) Ht.
  destruct (exec DOk (SRename tmp path) fs) as [ok g] eqn:E.
  rewrite complete_call. assert (Hs := rename_spec _ _ _ _ _ _ Hwf Hne E).
  rewrite E. unfold file in Ht. cbn in E.
  destruct (fs_names fs !! tmp) as [i|] eqn:Ei; [|done]. injection E as <- <-.
  destruct Hs as (Hwf' & Hf & _). eexists. split; [done|]. split; [|done]. split; [done|].
  rewrite Hf. unfold file. by rewrite Ei.
Qed.

End Replace.

(** ** Writing a file in place *)

Lemma open_trunc_ok path x L fs :
  settled path x L fs ->
  exists fd g, complete (call (SOpen path true true)) fs = (Some fd, g) /\ settled path (Some []) L g /\
    L !! fd = None /\ open_empty path fd g.
Proof.
  intros ([Hwf Hx] & HL & Hn).
  destruct (open_at path true true fs) as [o g] eqn:E.
  destruct (open_at_fd _ _ _ _ _ _ E) as (HL' & Hn' & Hfd).
  destruct (open_at_spec _ _ _ _ _ _ Hwf E) as (Hwf' & _ & Ho).
  destruct o as [fd|]; [|by destruct Ho as (_ & _ & ?)].
  destruct Ho as (i & Hfdi & Hname & Hi & _). specialize (Hfd fd eq_refl).
  exists fd, g. split; [by rewrite complete_call|]. split; [split; [split|split]|split].
  - done.
  - unfold file. rewrite Hname. cbn. by rewrite Hi.
  - congruence.
  - intros fd' Hl. apply Hn in Hl. lia.
  - destruct (L !! fd) eqn:El; [|done]. assert (fd < fs_next fs)%nat by (apply Hn; by rewrite El). lia.
  - by exists i.
Qed.

Lemma write_here_ok path x L fd bs fs :
  settled path x L fs -> open_empty path fd fs ->
  exists g, complete (call (SWrite fd bs)) fs = (zlen bs, g) /\ settled path (Some bs) L g.
Proof.
  intros ([Hwf Hx] & HL & Hn) (i & Hfd & Hname & Hi).
  destruct (exec DOk (SWrite fd bs) fs) as [n g] eqn:E.
  destruct (write_spec _ _ _ _ _ _ _ _ Hwf Hfd Hname Hi E) as (Hwf' & _ & _ & Ht & _).
  rewrite complete_call, E. cbn in E. rewrite Hfd in E. injection E as <- <-.
  eexists. split; [done|]. by split; [split|].
Qed.

(** A read of the whole file, or nothing when there is none. *)
Lemma read_whole_ok path x L fs :
  settled path x L fs -> exists g, settled path x L g /\ forall A (k : list byte -> prog A),
  complete (rf ← call (SOpen path false false);
            file ← match rf with
                   | Some rf => file ← call (SReadAll rf); call (SClose rf) ;; mret file
                   | None => mret []
                   end;
            k file) fs = complete (k (default [] x)) g.
Proof.
  intros Hs. destruct x as [c|].
  - destruct (open_read_ok _ _ _ _ Hs) as (fd & g & E & Hs1 & HLfd & Hc).
    destruct (close_ok _ _ _ fd _ Hs1 HLfd) as (g' & E' & Hs' & _). exists g'. split; [done|]. intros A k.
    rewrite (complete_bind _ _ _ _ _ E).
    erewrite (complete_bind _ _ _ c g'); [done|].
    rewrite (complete_bind _ _ _ c g) by (rewrite complete_call; cbn; by rewrite Hc).
    by rewrite (complete_bind _ _ _ _ _ E').
  - exists fs. split; [done|]. intros A k. rewrite (complete_bind _ _ _ _ _ (open_read_absent _ _ _ Hs)).
    by rewrite (complete_bind _ _ _ [] fs).
Qed.

(** Step over a call that keeps the file. *)
Ltac next_quiet H :=
  match type of H with
  | holds ?p ?x _ =>
      eapply always_bind; [eapply (quiet_keeps p _ x); [done|reflexivity|exact H]|];
      clear H; intros ? ? _ H; cbv beta in H
  end.
