(* ===== verification/SessionStore.v ===== *)
(** * Session persistence (src/app/session_store.c)

    The file of the authorization keys, one entry per data centre: its two
    formats, the locked read-modify-write cycle and the atomic replacement,
    as programs over the file system of FileSys. *)

From Stdlib Require Import String.
From S2P Require Import Prelude World MtprotoSession MtprotoCrypto MtprotoRpc FileSys.

#[local] Open Scope Z_scope.

(** ** The file format *)

Definition SESSION_STORE_MAX_DCS : nat := 5.
Definition STORE_MAGIC : list byte := ascii "TGCS"%string.
Definition STORE_VERSION : Z := 2.
Definition STORE_VERSION_V1 : Z := 1.
Definition STORE_V1_TOTAL_SIZE : Z := 284.
Definition STORE_HEADER : nat := 16.
Definition STORE_ENTRY_SIZE : nat := 276.
Definition STORE_MAX_SIZE : nat := (STORE_HEADER + SESSION_STORE_MAX_DCS * STORE_ENTRY_SIZE)%nat.

Record StoreEntry := mkEntry {
  e_dc_id : Z; e_server_salt : Z; e_session_id : Z; e_auth_key : list byte }.

(** [entries] has SESSION_STORE_MAX_DCS elements, [count] of them in use. *)
Record StoreFile := mkStore { home_dc_id : Z; st_count : nat; entries : list StoreEntry }.

Definition entry_zero : StoreEntry := mkEntry 0 0 0 (replicate MTPROTO_AUTH_KEY_SIZE Byte.x00).
Definition store_zero : StoreFile := mkStore 0 0 (replicate SESSION_STORE_MAX_DCS entry_zero).

Definition store_path : string := "session.bin"%string.
Definition store_tmp_path : string := "session.bin.tmp"%string.

(** [memcpy] of an [int32_t] and of a [uint32_t] or [uint64_t] out of a
    little-endian buffer. *)
Definition int_at (off : nat) (buf : list byte) : Z := s32 (le_combine (slice off 4 buf)).
Definition word_at (off n : nat) (buf : list byte) : Z := le_combine (slice off n buf).

(** The entry at [off]. *)
Definition entry_at (off : nat) (buf : list byte) : StoreEntry :=
  mkEntry (int_at off buf) (word_at (off + 4) 8 buf) (word_at (off + 12) 8 buf)
          (slice (off + 20) 256 buf).

(** The array after the entries [es] were written to its front. *)
Definition fill_entries (es : list StoreEntry) : list StoreEntry :=
  es ++ replicate (SESSION_STORE_MAX_DCS - length es)%nat entry_zero.

(** The bytes of the file to a store, [None] for [-1].  A file of version 1
    has one entry at offset 8, which becomes the home. *)
Definition parse_store (buf : list byte) : option StoreFile :=
  if zlen buf <? Z.of_nat STORE_HEADER then None
  else if negb (bool_decide (take 4 buf = STORE_MAGIC)) then None
  else
    let version := int_at 4 buf in
    if version =? STORE_VERSION_V1 then
      if zlen buf <? STORE_V1_TOTAL_SIZE then None
      else Some (mkStore (int_at 8 buf) 1 (fill_entries [entry_at 8 buf]))
    else if negb (version =? STORE_VERSION) then None
    else
      let count := word_at 12 4 buf in
      if Z.of_nat SESSION_STORE_MAX_DCS <? count then None
      else if zlen buf <? Z.of_nat STORE_HEADER + count * Z.of_nat STORE_ENTRY_SIZE then None
      else
        let n := Z.to_nat count in
        Some (mkStore (int_at 8 buf) n
                (fill_entries (map (fun i => entry_at (STORE_HEADER + i * STORE_ENTRY_SIZE)%nat buf)
                                   (seq 0 n)))).

Definition entry_bytes (e : StoreEntry) : list byte :=
  le_split 4 (e_dc_id e) ++ le_split 8 (e_server_salt e) ++ le_split 8 (e_session_id e) ++
  take 256 (e_auth_key e).

Definition store_bytes (st : StoreFile) : list byte :=
  STORE_MAGIC ++ le_split 4 STORE_VERSION ++ le_split 4 (home_dc_id st) ++
  le_split 4 (Z.of_nat (st_count st)) ++ flat_map entry_bytes (take (st_count st) (entries st)).

(** ** Entries *)

Fixpoint find_index (dc_id : Z) (es : list StoreEntry) : option nat :=
  match es with
  | [] => None
  | e :: es => if e_dc_id e =? dc_id then Some O else S <$> find_index dc_id es
  end.

Definition find_entry (st : StoreFile) (dc_id : Z) : option nat :=
  find_index dc_id (take (st_count st) (entries st)).

Definition populate_entry (dc_id : Z) (s : MtProtoSession) : StoreEntry :=
  mkEntry dc_id (server_salt s) (session_id s) (take 256 (auth_key s)).

Definition apply_entry (e : StoreEntry) (s : MtProtoSession) : MtProtoSession :=
  mkSession (e_session_id e) (e_server_salt e) 0 0 (e_auth_key e) true.

(** The change of the store inside [upsert]; [None] when no slot is left. *)
Definition upsert_store (dc_id : Z) (s : MtProtoSession) (set_home : bool) (st : StoreFile)
    : option StoreFile :=
  let home := if set_home || (home_dc_id st =? 0) then dc_id else home_dc_id st in
  match find_entry st dc_id with
  | Some idx =>
      Some (mkStore home (st_count st) (<[idx := populate_entry dc_id s]> (entries st)))
  | None =>
      if Nat.leb SESSION_STORE_MAX_DCS (st_count st) then None
      else Some (mkStore home (S (st_count st))
                   (<[st_count st := populate_entry dc_id s]> (entries st)))
  end.

(** ** Locks, reading, replacing *)

Definition ensure_dir : prog bool :=
  cfg ← call SConfigDir;
  if negb cfg then mret false else call SMkdir.

(** [None] is the return value [-1]. *)
Definition lock_file (path : string) (excl : bool) : prog (option nat) :=
  fd ← call (SOpen path true false);
  match fd with
  | None => mret None
  | Some fd =>
      ok ← call (SFlock fd excl);
      if negb ok then call (SClose fd) ;; mret None else mret (Some fd)
  end.

Definition unlock_file (fd : nat) : prog unit := call (SClose fd).

Inductive read_rc := RcOk (st : StoreFile) | RcAbsent | RcCorrupt.

Definition read_file_locked : prog read_rc :=
  path ← call SConfigDir;
  if negb path then mret RcCorrupt
  else
    f ← call (SOpen store_path false false);
    match f with
    | None => mret RcAbsent
    | Some f =>
        buf ← call (SRead f STORE_MAX_SIZE);
        call (SClose f) ;;
        mret (match parse_store buf with Some st => RcOk st | None => RcCorrupt end)
    end.

(** [true] is the return value [0]. *)
Definition write_file_atomic (st : StoreFile) : prog bool :=
  path ← call SConfigDir;
  tmp_path ← call SConfigDir;
  if negb path || negb tmp_path then mret false
  else
    let buf := store_bytes st in
    tfd ← call (SOpen store_tmp_path true true);
    match tfd with
    | None => mret false
    | Some tfd =>
        n ← call (SWrite tfd buf);
        if (n <? 0) || negb (n =? zlen buf) then
          call (SClose tfd) ;;
          call (SUnlink store_tmp_path) ;;
          mret false
        else
          call (SClose tfd) ;;
          ok ← call (SRename store_tmp_path store_path);
          if negb ok then call (SUnlink store_tmp_path) ;; mret false else mret true
    end.

Definition upsert (dc_id : Z) (s : MtProtoSession) (set_home : bool) : prog bool :=
  if negb (has_auth_key s) then mret false
  else
    dir ← ensure_dir;
    if negb dir then mret false
    else
      path ← call SConfigDir;
      if negb path then mret false
      else
        lock_fd ← lock_file store_path true;
        match lock_fd with
        | None => mret false
        | Some lock_fd =>
            rc ← read_file_locked;
            let st := match rc with RcOk st => st | _ => store_zero end in
            match upsert_store dc_id s set_home st with
            | None => unlock_file lock_fd ;; mret false
            | Some st =>
                write_rc ← write_file_atomic st;
                unlock_file lock_fd ;;
                mret write_rc
            end
        end.

(** ** Public functions *)

Definition session_store_save (s : MtProtoSession) (dc_id : Z) : prog bool := upsert dc_id s true.
Definition session_store_save_dc (dc_id : Z) (s : MtProtoSession) : prog bool := upsert dc_id s false.

(** The read under a shared lock that both loaders make. *)
Definition read_shared : prog (option StoreFile) :=
  path ← call SConfigDir;
  if negb path then mret None
  else
    lock_fd ← lock_file store_path false;
    match lock_fd with
    | None => mret None
    | Some lock_fd =>
        rc ← read_file_locked;
        unlock_file lock_fd ;;
        mret (match rc with RcOk st => Some st | _ => None end)
    end.

(** The session and the home id; [None] leaves the caller's objects alone. *)
Definition session_store_load (s : MtProtoSession) : prog (option (MtProtoSession * Z)) :=
  rc ← read_shared;
  mret (st ← rc;
        if Nat.eqb (st_count st) 0 || (home_dc_id st =? 0) then None
        else
          idx ← find_entry st (home_dc_id st);
          e ← entries st !! idx;
          Some (apply_entry e s, home_dc_id st)).

Definition session_store_load_dc (dc_id : Z) (s : MtProtoSession) : prog (option MtProtoSession) :=
  rc ← read_shared;
  mret (st ← rc;
        idx ← find_entry st dc_id;
        e ← entries st !! idx;
        Some (apply_entry e s)).

Definition session_store_clear : prog unit :=
  path ← call SConfigDir;
  if negb path then mret tt else call (SUnlink store_path) ;; mret tt.
