(* ===== verification/StoreTheorems.v ===== *)
(** * Correctness of session persistence (src/app/session_store.c)

    The round trip of the file format, the store as a map from data centres
    to credentials, and what the locked read-modify-write cycle does to the
    file under every outcome of its system calls; then the theorems. *)

From Stdlib Require Import String.
From S2P Require Import Prelude World MtprotoCrypto MtprotoSession WireTheorems MtprotoRpc FileSys.
From S2P Require Import FileLogic SessionStore.

#[local] Open Scope Z_scope.

(** ** Slices *)

Lemma slice_skip (a b : list byte) k n : slice (length a + k) n (a ++ b) = slice k n b.
Proof. unfold slice. by rewrite drop_app_add. Qed.

Lemma slice_skip' (a b : list byte) off k n :
  off = (length a + k)%nat -> slice off n (a ++ b) = slice k n b.
Proof. intros ->. apply slice_skip. Qed.

Lemma slice_here (a b : list byte) n : length a = n -> slice 0 n (a ++ b) = a.
Proof. intros <-. unfold slice. by rewrite drop_0, take_app_length. Qed.

Lemma slice_take off k n (l : list byte) :
  (off + k <= n)%nat -> slice off k (take n l) = slice off k l.
Proof. intros H. unfold slice. rewrite skipn_firstn_comm, take_take. f_equal. lia. Qed.

Lemma le_split_len n v : length (le_split n v) = n.
Proof. apply length_le_split. Qed.

Lemma s32_split v : is_s32 v -> s32 (le_combine (le_split 4 v)) = v.
Proof. intros H. rewrite le_val_u32. by apply s32_u32. Qed.

(** ** The format *)

Definition entry_ok (e : StoreEntry) : Prop :=
  is_s32 (e_dc_id e) /\ is_u64 (e_server_salt e) /\ is_u64 (e_session_id e) /\
  length (e_auth_key e) = 256%nat.

Definition store_ok (st : StoreFile) : Prop :=
  is_s32 (home_dc_id st) /\ (st_count st <= SESSION_STORE_MAX_DCS)%nat /\
  length (entries st) = SESSION_STORE_MAX_DCS /\ Forall entry_ok (entries st) /\
  drop (st_count st) (entries st) =
    replicate (SESSION_STORE_MAX_DCS - st_count st)%nat entry_zero.

Lemma entry_bytes_len e : entry_ok e -> length (entry_bytes e) = STORE_ENTRY_SIZE.
Proof.
  intros (_ & _ & _ & Hk). unfold entry_bytes. rewrite !length_app, !le_split_len, length_take, Hk.
  reflexivity.
Qed.

Lemma entry_at_bytes pre e post :
  entry_ok e -> entry_at (length pre) (pre ++ entry_bytes e ++ post) = e.
Proof.
  intros (Hd & Hs & Hi & Hk). unfold entry_at, int_at, word_at, entry_bytes.
  rewrite <- !app_assoc.
  rewrite (slice_skip' pre _ (length pre) 0), !slice_skip by lia.
  rewrite (slice_here (le_split 4 _)) by apply le_split_len.
  rewrite (slice_skip' (le_split 4 _) _ 4 0) by (by rewrite le_split_len).
  rewrite (slice_here (le_split 8 _)) by apply le_split_len.
  rewrite (slice_skip' (le_split 4 _) _ 12 8) by (by rewrite le_split_len).
  rewrite (slice_skip' (le_split 8 _) _ 8 0) by (by rewrite le_split_len).
  rewrite (slice_here (le_split 8 _)) by apply le_split_len.
  rewrite (slice_skip' (le_split 4 _) _ 20 16) by (by rewrite le_split_len).
  rewrite (slice_skip' (le_split 8 _) _ 16 8) by (by rewrite le_split_len).
  rewrite (slice_skip' (le_split 8 _) _ 8 0) by (by rewrite le_split_len).
  rewrite slice_here by (rewrite length_take; lia).
  rewrite s32_split, !le_split_range by done. rewrite take_ge by lia. by destruct e.
Qed.

Lemma entries_at_bytes es pre rest :
  Forall entry_ok es ->
  map (fun i => entry_at (length pre + i * STORE_ENTRY_SIZE)%nat (pre ++ flat_map entry_bytes es ++ rest))
      (seq 0 (length es)) = es.
Proof.
  intros H. revert pre. induction H as [|e es He Hes IH]; intros pre; [done|].
  cbn [length seq map flat_map]. f_equal.
  - rewrite Nat.mul_0_l, Nat.add_0_r, <- app_assoc. by apply entry_at_bytes.
  - rewrite <- seq_shift, map_map. specialize (IH (pre ++ entry_bytes e)).
    rewrite <- IH at 2. apply map_ext. intros i.
    rewrite length_app, (entry_bytes_len e He), <- !app_assoc. f_equal. lia.
Qed.

Lemma entries_bytes_len es :
  Forall entry_ok es -> length (flat_map entry_bytes es) = (length es * STORE_ENTRY_SIZE)%nat.
Proof.
  induction 1 as [|e es He Hes IH]; [done|]. cbn [flat_map length].
  rewrite length_app, IH, entry_bytes_len by done. lia.
Qed.

Lemma store_bytes_len st :
  store_ok st -> length (store_bytes st) = (STORE_HEADER + st_count st * STORE_ENTRY_SIZE)%nat.
Proof.
  intros (_ & Hc & Hl & He & _). unfold store_bytes. rewrite !length_app, !le_split_len.
  rewrite entries_bytes_len by (by apply Forall_take). rewrite length_take.
  change (length STORE_MAGIC) with 4%nat. rewrite Hl.
  unfold STORE_HEADER, SESSION_STORE_MAX_DCS, STORE_ENTRY_SIZE in *. lia.
Qed.

(** The header, and what is read back from it. *)
Definition store_header (st : StoreFile) : list byte :=
  STORE_MAGIC ++ le_split 4 STORE_VERSION ++ le_split 4 (home_dc_id st) ++
  le_split 4 (Z.of_nat (st_count st)).

Lemma store_bytes_header st :
  store_bytes st = store_header st ++ flat_map entry_bytes (take (st_count st) (entries st)).
Proof. unfold store_bytes, store_header. by rewrite <- !app_assoc. Qed.

Lemma store_header_len st : length (store_header st) = STORE_HEADER.
Proof. unfold store_header. rewrite !length_app, !le_split_len. reflexivity. Qed.

(** A four-byte field of the header. *)
Lemma header_field st k rest off v :
  off = (4 * k)%nat ->
  store_header st ++ rest = concat (take k [STORE_MAGIC; le_split 4 STORE_VERSION;
    le_split 4 (home_dc_id st); le_split 4 (Z.of_nat (st_count st))]) ++ le_split 4 v ++
    drop (4 + off)%nat (store_header st ++ rest) ->
  (k <= 4)%nat -> slice off 4 (store_header st ++ rest) = le_split 4 v.
Proof.
  intros Ho -> Hk. rewrite (slice_skip' _ _ off 0); [by apply slice_here, le_split_len|].
  rewrite Ho, Nat.add_0_r. do 5 (destruct k as [|k]; [by cbn; rewrite ?length_app, ?le_split_len|]).
  lia.
Qed.

Lemma header_fields st rest :
  store_ok st ->
  let buf := store_header st ++ rest in
  take 4 buf = STORE_MAGIC /\ int_at 4 buf = STORE_VERSION /\ int_at 8 buf = home_dc_id st /\
  word_at 12 4 buf = Z.of_nat (st_count st).
Proof.
  intros (Hh & Hc & _). unfold SESSION_STORE_MAX_DCS in Hc. cbn zeta. unfold int_at, word_at.
  rewrite (header_field st 1 rest 4 STORE_VERSION), (header_field st 2 rest 8 (home_dc_id st)),
    (header_field st 3 rest 12 (Z.of_nat (st_count st))) by (lia || reflexivity).
  rewrite s32_split, s32_split, le_split_range by (done || (cbn; lia)). done.
Qed.

Lemma store_round_trip_at st rest : store_ok st -> parse_store (store_bytes st ++ rest) = Some st.
Proof.
  intros Hok. pose proof (store_bytes_len st Hok) as Hlen.
  unfold parse_store. unfold zlen. rewrite length_app, Hlen.
  rewrite store_bytes_header, <- app_assoc.
  destruct (header_fields st (flat_map entry_bytes (take (st_count st) (entries st)) ++ rest) Hok)
    as (-> & -> & -> & ->).
  destruct Hok as (Hh & Hc & Hl & He & Hz). unfold SESSION_STORE_MAX_DCS in Hc.
  rewrite bool_decide_true by done. cbn [negb].
  change (STORE_VERSION =? STORE_VERSION_V1) with false.
  change (STORE_VERSION =? STORE_VERSION) with true. cbn [negb].
  rewrite !(proj2 (Z.ltb_ge _ _)) by (unfold STORE_HEADER, SESSION_STORE_MAX_DCS; lia).
  rewrite Nat2Z.id.
  set (es := take (st_count st) (entries st)).
  assert (Hes : Forall entry_ok es) by (by apply Forall_take).
  assert (Hle : length es = st_count st)
    by (unfold es; rewrite length_take, Hl; unfold SESSION_STORE_MAX_DCS; lia).
  pose proof (entries_at_bytes es (store_header st) rest Hes) as Hm.
  rewrite store_header_len, Hle in Hm. rewrite Hm.
  unfold fill_entries. rewrite Hle, <- Hz. unfold es. rewrite take_drop. by destruct st.
Qed.

(** ** What a parse yields *)

Lemma entry_at_ok off buf : (off + 276 <= length buf)%nat -> entry_ok (entry_at off buf).
Proof.
  intros H. unfold entry_at, entry_ok, int_at, word_at. cbn. split_and!; try apply s32_range.
  - apply le_combine8_range, slice_len. lia.
  - apply le_combine8_range, slice_len. lia.
  - apply slice_len. lia.
Qed.

Lemma entry_zero_ok : entry_ok entry_zero.
Proof. repeat split; (discriminate || reflexivity). Qed.

Lemma fill_entries_ok es home :
  is_s32 home -> (length es <= SESSION_STORE_MAX_DCS)%nat -> Forall entry_ok es ->
  store_ok (mkStore home (length es) (fill_entries es)).
Proof.
  intros Hh Hl He. unfold store_ok, fill_entries. cbn [home_dc_id st_count entries]. split; [done|]. split; [done|].
  split; [rewrite length_app, length_replicate; lia|].
  split; [apply Forall_app; split; [done|apply Forall_replicate, entry_zero_ok]|].
  by rewrite drop_app_length.
Qed.

Lemma store_zero_ok : store_ok store_zero.
Proof. apply (fill_entries_ok [] 0); [split; reflexivity || discriminate|apply Nat.le_0_l|constructor]. Qed.

Lemma parse_store_ok buf st : parse_store buf = Some st -> store_ok st.
Proof.
  unfold parse_store, zlen. intros H.
  destruct (_ <? _); [done|]. destruct (negb _); [done|].
  destruct (int_at 4 buf =? STORE_VERSION_V1).
  - destruct (Z.ltb_spec (Z.of_nat (length buf)) STORE_V1_TOTAL_SIZE) as [|Hl]; [done|].
    injection H as <-. apply (fill_entries_ok [_]); [apply s32_range|unfold SESSION_STORE_MAX_DCS; cbn; lia|].
    constructor; [|done]. apply entry_at_ok. unfold STORE_V1_TOTAL_SIZE in Hl. lia.
  - destruct (negb _); [done|]. destruct (Z.ltb_spec (Z.of_nat SESSION_STORE_MAX_DCS) (word_at 12 4 buf)) as [|Hc];
      [done|].
    destruct (Z.ltb_spec (Z.of_nat (length buf))
                (Z.of_nat STORE_HEADER + word_at 12 4 buf * Z.of_nat STORE_ENTRY_SIZE)) as [|Hl]; [done|].
    injection H as <-. set (n := Z.to_nat (word_at 12 4 buf)) in *.
    assert (Hn : 0 <= word_at 12 4 buf) by apply le_combine_bound.
    unfold STORE_HEADER, STORE_ENTRY_SIZE in *.
    match goal with |- store_ok (mkStore _ _ (fill_entries ?es)) =>
      replace n with (length es) at 1 by (by rewrite length_map, length_seq);
      apply (fill_entries_ok es) end.
    + apply s32_range.
    + rewrite length_map, length_seq. unfold SESSION_STORE_MAX_DCS in *. lia.
    + apply Forall_forall. intros e He. apply list_elem_of_In, in_map_iff in He as (i & <- & Hi).
      apply in_seq in Hi. apply entry_at_ok. lia.
Qed.

(** The parse looks at no byte behind what it needs: from a shorter read it
    gives the same store or none. *)
Lemma entry_at_take off n buf :
  (off + 276 <= n)%nat -> entry_at off (take n buf) = entry_at off buf.
Proof. intros H. unfold entry_at, int_at, word_at. rewrite !slice_take by lia. done. Qed.

Lemma parse_store_take n buf : parse_store (take n buf) = None \/ parse_store (take n buf) = parse_store buf.
Proof.
  destruct (decide (length buf <= n)%nat) as [Hge|Hlt]; [right; by rewrite take_ge|].
  unfold parse_store at 1 2. unfold zlen. rewrite length_take, Nat.min_l by lia.
  destruct (Z.ltb_spec (Z.of_nat n) (Z.of_nat STORE_HEADER)) as [|Hh]; [by left|].
  unfold STORE_HEADER in *.
  destruct (negb _) eqn:Em; [by left|].
  unfold int_at, word_at. rewrite !slice_take by lia.
  rewrite take_take, Nat.min_l in Em by lia.
  unfold parse_store, zlen. rewrite (proj2 (Z.ltb_ge (Z.of_nat (length buf)) (Z.of_nat STORE_HEADER))) by (unfold STORE_HEADER; lia). rewrite Em.
  unfold int_at, word_at.
  destruct (s32 (le_combine (slice 4 4 buf)) =? STORE_VERSION_V1).
  - destruct (Z.ltb_spec (Z.of_nat n) STORE_V1_TOTAL_SIZE) as [|Hl]; [by left|]. right.
    unfold STORE_V1_TOTAL_SIZE in *. rewrite (proj2 (Z.ltb_ge _ _)) by lia.
    by rewrite entry_at_take by lia.
  - destruct (_ =? STORE_VERSION); cbn [negb]; [|by left].
    destruct (_ <? le_combine _); [by left|].
    match goal with |- context [Z.of_nat n <? ?x] => destruct (Z.ltb_spec (Z.of_nat n) x) as [|Hl] end;
      [by left|].
    right. rewrite (proj2 (Z.ltb_ge _ _)) by (unfold STORE_HEADER; lia).
    assert (Hn := le_combine_bound (slice 12 4 buf)).
    do 2 f_equal. unfold fill_entries. f_equal; [|by rewrite !length_map].
    apply map_ext_in. intros i Hi. apply in_seq in Hi. unfold STORE_ENTRY_SIZE, STORE_HEADER in *.
    apply entry_at_take. lia.
Qed.

(** ** The store as a map *)

(** What a session file is for: a home data centre and, per data centre, the
    salt, the session id and the key. *)
Definition creds : Type := Z * Z * list byte.
Definition store_spec : Type := Z * gmap Z creds.

Definition entry_creds (e : StoreEntry) : creds := (e_server_salt e, e_session_id e, e_auth_key e).

Fixpoint entries_map (es : list StoreEntry) : gmap Z creds :=
  match es with
  | [] => ∅
  | e :: es => <[e_dc_id e := entry_creds e]> (entries_map es)
  end.

Definition store_abs (st : StoreFile) : store_spec :=
  (home_dc_id st, entries_map (take (st_count st) (entries st))).

Definition session_creds (s : MtProtoSession) : creds :=
  (server_salt s, session_id s, take 256 (auth_key s)).

(** The save of the specification. *)
Definition spec_save (dc : Z) (c : creds) (home : bool) (a : store_spec) : store_spec :=
  ((if home || (fst a =? 0) then dc else fst a), <[dc := c]> (snd a)).

(** A session loaded from credentials starts over with its counters. *)
Definition loaded (c : creds) : MtProtoSession :=
  let '(salt, sid, key) := c in mkSession sid salt 0 0 key true.

Lemma find_index_spec dc es :
  match find_index dc es with
  | Some i => exists e, es !! i = Some e /\ e_dc_id e = dc /\ entries_map es !! dc = Some (entry_creds e)
  | None => entries_map es !! dc = None
  end.
Proof.
  induction es as [|e es IH]; cbn; [done|].
  destruct (Z.eqb_spec (e_dc_id e) dc) as [<-|Hne].
  - exists e. by rewrite lookup_insert_eq.
  - destruct (find_index dc es) as [i|]; cbn; by rewrite lookup_insert_ne by done.
Qed.

(** Replacing the first entry of a data centre, or adding one. *)
Lemma entries_map_replace dc es i e' :
  find_index dc es = Some i -> e_dc_id e' = dc ->
  entries_map (<[i := e']> es) = <[dc := entry_creds e']> (entries_map es).
Proof.
  intros Hf He. revert i Hf. induction es as [|e es IH]; intros i Hf; [done|]. cbn in Hf.
  destruct (Z.eqb_spec (e_dc_id e) dc) as [Hd|Hne].
  - injection Hf as <-. cbn. by rewrite He, Hd, insert_insert_eq.
  - destruct (find_index dc es) as [j|]; [|done]. injection Hf as <-. cbn.
    by rewrite IH, insert_insert_ne by done.
Qed.

Lemma entries_map_add dc es e' :
  find_index dc es = None -> e_dc_id e' = dc ->
  entries_map (es ++ [e']) = <[dc := entry_creds e']> (entries_map es).
Proof.
  intros Hf He. induction es as [|e es IH]; cbn in *; [by rewrite He|].
  destruct (Z.eqb_spec (e_dc_id e) dc) as [Hd|Hne]; [done|].
  destruct (find_index dc es); [done|]. by rewrite IH, insert_insert_ne by done.
Qed.

Lemma find_index_lt dc es i : find_index dc es = Some i -> (i < length es)%nat.
Proof.
  intros H. pose proof (find_index_spec dc es) as Hs. rewrite H in Hs.
  destruct Hs as (e & He & _). by eapply lookup_lt_Some.
Qed.

Lemma take_insert_snoc {A} n (x : A) l :
  (n < length l)%nat -> take (S n) (<[n := x]> l) = take n l ++ [x].
Proof.
  intros H. rewrite (take_S_r _ _ x) by (by apply list_lookup_insert_eq).
  by rewrite take_insert_ge by lia.
Qed.

(** [upsert_store] implements the save of the specification and keeps the
    store well-formed; it refuses only a new data centre when all slots are
    taken. *)
Lemma upsert_store_spec dc s home st :
  store_ok st -> is_s32 dc -> is_u64 (server_salt s) -> is_u64 (session_id s) ->
  length (auth_key s) = MTPROTO_AUTH_KEY_SIZE ->
  match upsert_store dc s home st with
  | Some st' =>
      store_ok st' /\ store_abs st' = spec_save dc (session_creds s) home (store_abs st)
  | None => snd (store_abs st) !! dc = None /\ st_count st = SESSION_STORE_MAX_DCS
  end.
Proof.
  intros (Hh & Hc & Hl & He & Hz) Hd Hsalt Hsid Hkey.
  assert (Hok : entry_ok (populate_entry dc s))
    by (repeat split; cbn; try done; try apply Hd; try apply Hsalt; try apply Hsid;
        by rewrite length_take, Hkey).
  assert (Hhome : is_s32 (if home || (home_dc_id st =? 0) then dc else home_dc_id st))
    by (by destruct (home || _)).
  unfold upsert_store, find_entry. destruct (find_index dc _) as [i|] eqn:Ef.
  - pose proof (find_index_lt _ _ _ Ef) as Hi. rewrite length_take in Hi. split.
    + unfold store_ok. cbn [home_dc_id st_count entries]. rewrite length_insert.
      split; [done|]. split; [done|]. split; [done|].
      split; [by apply Forall_insert|]. by rewrite drop_insert_lt by lia.
    + unfold store_abs, spec_save. cbn [home_dc_id st_count entries fst snd].
      rewrite take_insert_lt by lia. by rewrite (entries_map_replace dc).
  - destruct (Nat.leb_spec SESSION_STORE_MAX_DCS (st_count st)) as [Hge|Hlt].
    + pose proof (find_index_spec dc (take (st_count st) (entries st))) as Hs. rewrite Ef in Hs.
      split; [done|]. lia.
    + split.
      * unfold store_ok. cbn [home_dc_id st_count entries]. rewrite length_insert.
        split; [done|]. split; [lia|]. split; [done|]. split; [by apply Forall_insert|].
        rewrite drop_insert_lt by lia.
        replace (S (st_count st)) with (st_count st + 1)%nat by lia.
        rewrite <- drop_drop, Hz, drop_replicate. f_equal. lia.
      * unfold store_abs, spec_save. cbn [home_dc_id st_count entries fst snd].
        rewrite take_insert_snoc by lia. by rewrite (entries_map_add dc).
Qed.

(** ** The file under every outcome of the system calls *)

Definition session_file : FS -> option (list byte) := file store_path.

(** The well-formed file systems whose session file has the contents [x]. *)
Abbreviation has_file := (holds store_path).

Lemma tmp_is_other : store_tmp_path <> store_path.
Proof. done. Qed.

(** The store a read of these contents gives. *)
Definition stored (x : option (list byte)) : option StoreFile :=
  x ≫= fun c => parse_store (take STORE_MAX_SIZE c).

Lemma read_file_safe (I : FS -> Prop) x fs :
  (forall g, has_file x g -> I g) -> has_file x fs ->
  always I (fun rc g => has_file x g /\
                        match rc with RcOk st => stored x = Some st | _ => True end)
         read_file_locked fs.
Proof.
  intros HI H. unfold read_file_locked. next_quiet H.
  destruct (negb _); [by apply always_ret; [apply HI|]|].
  eapply always_bind; [by apply (open_read_keeps store_path I x)|].
  clear H. intros o g _ [H Hfd]. destruct o as [f|]; [|by apply always_ret; [apply HI|]].
  eapply always_bind.
  { apply (call_keeps store_path I x HI _
      (fun buf _ => exists n, buf = take n (take STORE_MAX_SIZE (default [] x)))); [done|].
    intros d buf g' E. cbn in E. injection E as <- <-. split; [done|]. rewrite (Hfd f eq_refl).
    destruct d as [| |n]; cbn; [exists STORE_MAX_SIZE|exists O|by exists n]; [|done].
    by rewrite take_take, Nat.min_id. }
  clear H Hfd. intros buf g' _ [H [n ->]]. next_quiet H. apply always_ret; [by apply HI|].
  split; [done|]. destruct (parse_store _) as [st|] eqn:Ep; [|done].
  destruct (parse_store_take n (take STORE_MAX_SIZE (default [] x))) as [E|E]; rewrite E in Ep; [done|].
  destruct x; [done|]. by vm_compute in Ep.
Qed.

Lemma write_file_safe (I : FS -> Prop) x st fs :
  (forall g, has_file x g -> I g) -> (forall g, has_file (Some (store_bytes st)) g -> I g) ->
  has_file x fs ->
  always I (fun (ok : bool) g => has_file (if ok then Some (store_bytes st) else x) g)
         (write_file_atomic st) fs.
Proof.
  intros HI HI' H. unfold write_file_atomic. next_quiet H. next_quiet H.
  destruct (negb _ || negb _); [by apply always_ret; [apply HI|]|].
  eapply always_bind; [by apply (open_tmp_keeps _ _ tmp_is_other I x)|].
  clear H. intros o g _ [H Ho]. destruct o as [tfd|]; [|by apply always_ret; [apply HI|]].
  eapply always_bind; [by apply (write_tmp_keeps _ _ tmp_is_other I x); [..|apply Ho]|].
  clear H Ho g. intros n g _ [H Ht].
  destruct ((n <? 0) || negb (n =? zlen (store_bytes st))) eqn:En.
  { next_quiet H. eapply always_bind; [by apply (unlink_tmp_keeps _ _ tmp_is_other I x)|].
    intros ? ? _ H'. by apply always_ret; [apply HI|]. }
  apply orb_false_iff in En as [_ En]. apply negb_false_iff, Z.eqb_eq in En. specialize (Ht En).
  eapply always_bind; [by apply (close_keeps _ _ tmp_is_other I x HI _ (store_bytes st))|].
  clear H Ht. intros _ g2 _ [H Ht].
  eapply always_bind; [by apply (rename_safe _ _ tmp_is_other I x)|].
  intros [] g3 _ H'; cbn [negb]; [by apply always_ret; [apply HI'|]|].
  eapply always_bind; [by apply (unlink_tmp_keeps _ _ tmp_is_other I x)|]. intros ? ? _ H''.
  by apply always_ret; [apply HI|].
Qed.

(** The contents after the lock was taken: opening creates the file. *)
Definition touched (x : option (list byte)) : option (list byte) := Some (default [] x).

(** What an upsert may leave: the old contents, an empty file where there was
    none, or the complete new store.  The new store is made from the old
    one, or from nothing when the old one could not be read. *)
Definition upsert_new (x : option (list byte)) dc s home (bs : list byte) : Prop :=
  exists base st', (Some base = stored x \/ base = store_zero) /\
    upsert_store dc s home base = Some st' /\ bs = store_bytes st'.

Definition upsert_may_leave (x : option (list byte)) dc s home (y : option (list byte)) : Prop :=
  y = x \/ y = touched x \/ exists bs, y = Some bs /\ upsert_new x dc s home bs.

Lemma stored_touched x st : stored (touched x) = Some st -> stored x = Some st.
Proof. destruct x; [done|]. by vm_compute. Qed.

Lemma lock_file_safe (I : FS -> Prop) x excl fs :
  (forall g, has_file x g -> I g) -> (forall g, has_file (touched x) g -> I g) ->
  has_file x fs ->
  always I (fun o g => match o with
                       | Some _ => has_file (touched x) g
                       | None => has_file x g \/ has_file (touched x) g
                       end) (lock_file store_path excl) fs.
Proof.
  intros HI HI' H. unfold lock_file. eapply always_bind.
  { apply (always_call I (fun o g => match o with
      | Some _ => has_file (touched x) g | None => has_file x g end)); [by apply HI|].
    intros d. destruct (exec d (SOpen store_path true false) fs) as [o g] eqn:E. destruct H as [Hwf Hx].
    cbn in E. assert (Hnone : o = None -> g = fs -> I g /\
      match o with Some _ => has_file (touched x) g | None => has_file x g end).
    { intros -> ->. assert (has_file x fs) by done. auto. }
    destruct d; try (injection E as <- <-; by apply Hnone);
      apply open_at_spec in E as (Hwf' & Hf & Ho); try done;
      (destruct o as [fd|]; [|by destruct Ho as (_ & _ & ?)]);
      destruct Ho as (i & _ & Hn & Hi & _);
      assert (has_file (touched x) g)
        by (split; [done|]; unfold session_file, touched, file in *; rewrite Hn; cbn; by rewrite Hi, Hx);
      auto. }
  clear H. intros [fd|] g _ H; [|by apply always_ret; [apply HI|left]].
  next_quiet H. destruct (negb _).
  - next_quiet H. apply always_ret; [by apply HI'|by right].
  - apply always_ret; [by apply HI'|done].
Qed.

Lemma upsert_safe x dc s home fs :
  has_file x fs ->
  always (fun g => fs_wf g /\ upsert_may_leave x dc s home (session_file g))
    (fun (ok : bool) g =>
       if ok then exists bs, session_file g = Some bs /\ upsert_new x dc s home bs
       else session_file g = x \/ session_file g = touched x)
    (upsert dc s home) fs.
Proof.
  intros H. set (I := fun g => fs_wf g /\ upsert_may_leave x dc s home (session_file g)).
  assert (HI : forall g, has_file x g -> I g) by (intros g [? ?]; split; [done|by left]).
  assert (HI' : forall g, has_file (touched x) g -> I g)
    by (intros g [? ?]; split; [done|by right; left]).
  assert (Hx : forall g, has_file x g -> session_file g = x \/ session_file g = touched x)
    by (intros g [_ ?]; auto).
  assert (Ht : forall g, has_file (touched x) g -> session_file g = x \/ session_file g = touched x)
    by (intros g [_ ?]; auto).
  unfold upsert, ensure_dir. destruct (negb _); [apply always_ret; auto|].
  eapply (always_bind I (fun _ g => has_file x g)).
  { next_quiet H. destruct (negb _); [by apply always_ret; [apply HI|]|].
    by apply (quiet_keeps _ I x). }
  clear H. intros dir g _ H. destruct (negb _); [apply always_ret; auto|]. next_quiet H.
  destruct (negb _); [apply always_ret; auto|].
  eapply always_bind; [by apply (lock_file_safe I x)|]. clear H. intros [fd|] g' _ H.
  2: { destruct H; apply always_ret; auto. }
  eapply always_bind; [by apply (read_file_safe I (touched x))|]. clear H. intros rc g2 _ [H Hrc].
  set (base := match rc with RcOk st => st | _ => store_zero end).
  assert (Hbase : Some base = stored x \/ base = store_zero)
    by (destruct rc; [left; symmetry; by apply stored_touched|by right..]).
  clearbody base. destruct (upsert_store dc s home base) as [st'|] eqn:Eu.
  - assert (Hnew : upsert_new x dc s home (store_bytes st')) by (by exists base, st').
    assert (HI2 : forall g, has_file (Some (store_bytes st')) g -> I g).
    { intros g3 [? ?]. split; [done|]. right. right. eauto. }
    eapply always_bind; [by apply (write_file_safe I (touched x))|]. clear H. intros [] g3 _ H.
    + next_quiet H. apply always_ret; [auto|]. destruct H. eauto.
    + next_quiet H. apply always_ret; auto.
  - next_quiet H. apply always_ret; auto.
Qed.

(** ** Complete runs: the store implements the map *)

Abbreviation ready := (settled store_path).

Lemma lock_file_ok x excl fs :
  ready x ∅ fs ->
  exists fd g, complete (lock_file store_path excl) fs = (Some fd, g) /\
               ready (touched x) {[fd := excl]} g.
Proof.
  intros ([Hwf Hx] & HL & _). unfold lock_file.
  destruct (open_at store_path true false fs) as [o g] eqn:E.
  destruct (open_at_fd _ _ _ _ _ _ E) as (HL' & Hn & Hfd).
  destruct (open_at_spec _ _ _ _ _ _ Hwf E) as (Hwf' & _ & Ho).
  destruct o as [fd|]; [|by destruct Ho as (_ & _ & ?)].
  destruct Ho as (i & _ & Hname & Hi & _). specialize (Hfd fd eq_refl).
  rewrite (complete_bind _ _ _ (Some fd) g) by by rewrite complete_call.
  erewrite complete_bind; [|rewrite complete_call; cbn; unfold conflicts; rewrite HL', HL; done].
  eexists fd, _. split; [done|]. split; [|split].
  - split; [exact Hwf'|]. unfold session_file, touched, file in *. cbn. rewrite Hname. cbn.
    by rewrite Hi, Hx.
  - done.
  - cbn. intros fd' [v H]. apply lookup_singleton_Some in H as [<- _]. lia.
Qed.

Lemma unlock_ok x fd excl fs :
  ready x {[fd := excl]} fs -> exists g, complete (unlock_file fd) fs = (tt, g) /\ ready x ∅ g.
Proof.
  intros ([Hwf Hx] & HL & Hn). eexists. split; [done|]. split; [|split].
  - destruct (exec_quiet (SClose fd) DOk fs _ _ eq_refl eq_refl Hwf) as [Hwf' Hf].
    split; [done|]. unfold session_file. by rewrite Hf.
  - cbn. rewrite HL. apply delete_singleton_eq.
  - intros fd' [v H]. by rewrite lookup_empty in H.
Qed.

Lemma read_file_ok c L fs :
  ready (Some c) L fs ->
  exists g, complete read_file_locked fs =
              (match stored (Some c) with Some st => RcOk st | None => RcCorrupt end, g) /\
            ready (Some c) L g.
Proof.
  intros Hr. unfold read_file_locked. rewrite (complete_bind _ _ _ true fs) by done. cbn [negb].
  destruct (open_read_ok _ _ _ _ Hr) as (fd & g & E & Hr1 & HLfd & Hc).
  rewrite (complete_bind _ _ _ _ _ E).
  rewrite (complete_bind _ _ _ (take STORE_MAX_SIZE c) g) by (rewrite complete_call; cbn; by rewrite Hc).
  destruct (close_ok _ _ _ fd _ Hr1 HLfd) as (g' & E' & Hr' & _).
  rewrite (complete_bind _ _ _ _ _ E'). by exists g'.
Qed.

Lemma write_file_ok x L st fs :
  ready x L fs ->
  exists g, complete (write_file_atomic st) fs = (true, g) /\ ready (Some (store_bytes st)) L g.
Proof.
  intros Hr. unfold write_file_atomic.
  rewrite (complete_bind _ _ _ true fs), (complete_bind _ _ _ true fs) by done. cbn [negb orb].
  destruct (open_tmp_ok _ _ tmp_is_other _ _ _ Hr) as (fd & g & E & Hr1 & HLfd & Ho).
  rewrite (complete_bind _ _ _ _ _ E).
  destruct (write_tmp_ok _ _ tmp_is_other _ _ _ (store_bytes st) _ Hr1 Ho) as (g1 & E1 & Hr2 & Ht).
  rewrite (complete_bind _ _ _ _ _ E1).
  rewrite (proj2 (Z.ltb_ge _ _)), Z.eqb_refl by apply zlen_nonneg. cbn [negb orb].
  destruct (close_ok _ _ _ fd _ Hr2 HLfd) as (g2 & E2 & Hr3 & Hf2).
  rewrite (complete_bind _ _ _ _ _ E2).
  destruct (rename_ok _ _ tmp_is_other _ _ (store_bytes st) _ Hr3) as (g3 & E3 & Hr4); [by rewrite Hf2|].
  rewrite (complete_bind _ _ _ _ _ E3). by exists g3.
Qed.

(** The state of the specification a session file stands for. *)
Definition store_state (x : option (list byte)) : store_spec :=
  store_abs (default store_zero (stored x)).

Lemma stored_ok x : store_ok (default store_zero (stored x)).
Proof.
  destruct (stored x) as [st|] eqn:E; [|apply store_zero_ok].
  destruct x; [|done]. by eapply parse_store_ok.
Qed.

Lemma stored_of_touched x : default store_zero (stored (touched x)) = default store_zero (stored x).
Proof. by destruct x. Qed.

Lemma stored_written st : store_ok st -> stored (Some (store_bytes st)) = Some st.
Proof.
  intros H. change (stored _) with (parse_store (take STORE_MAX_SIZE (store_bytes st))).
  pose proof (store_bytes_len st H) as Hl.
  destruct H as (? & Hc & ?). rewrite take_ge.
  - rewrite <- (app_nil_r (store_bytes st)). by apply store_round_trip_at.
  - rewrite Hl. unfold STORE_MAX_SIZE, SESSION_STORE_MAX_DCS, STORE_ENTRY_SIZE in *. lia.
Qed.

(** An upsert that is not disturbed. *)
Lemma upsert_ok x dc s home fs :
  ready x ∅ fs -> has_auth_key s = true ->
  exists g, match upsert_store dc s home (default store_zero (stored x)) with
            | Some st' => complete (upsert dc s home) fs = (true, g) /\ ready (Some (store_bytes st')) ∅ g
            | None => complete (upsert dc s home) fs = (false, g) /\ ready (touched x) ∅ g
            end.
Proof.
  intros Hr Hk. unfold upsert. rewrite Hk. cbn [negb].
  rewrite (complete_bind _ _ _ true fs) by done. cbn [negb].
  rewrite (complete_bind _ _ _ true fs) by done. cbn [negb].
  destruct (lock_file_ok x true fs Hr) as (fd & g & E & Hr1). rewrite (complete_bind _ _ _ _ _ E).
  destruct (read_file_ok _ _ _ Hr1) as (g1 & E1 & Hr2). rewrite (complete_bind _ _ _ _ _ E1).
  fold (touched x).
  match goal with |- context [upsert_store dc s home (match ?rc with _ => _ end)] => set (r := rc) end.
  assert (Hb : match r with RcOk st => st | _ => store_zero end = default store_zero (stored x))
    by (rewrite <- stored_of_touched; unfold r; by destruct (stored (touched x))).
  rewrite Hb. destruct (upsert_store dc s home _) as [st'|].
  - destruct (write_file_ok _ _ st' _ Hr2) as (g2 & E2 & Hr3). rewrite (complete_bind _ _ _ _ _ E2).
    destruct (unlock_ok _ _ _ _ Hr3) as (g3 & E3 & Hr4). rewrite (complete_bind _ _ _ _ _ E3).
    by exists g3.
  - destruct (unlock_ok _ _ _ _ Hr2) as (g3 & E3 & Hr4). rewrite (complete_bind _ _ _ _ _ E3).
    by exists g3.
Qed.

Lemma read_shared_ok x fs :
  ready x ∅ fs ->
  exists g, complete read_shared fs = (stored (touched x), g) /\ ready (touched x) ∅ g.
Proof.
  intros Hr. unfold read_shared. rewrite (complete_bind _ _ _ true fs) by done. cbn [negb].
  destruct (lock_file_ok x false fs Hr) as (fd & g & E & Hr1). rewrite (complete_bind _ _ _ _ _ E).
  destruct (read_file_ok _ _ _ Hr1) as (g1 & E1 & Hr2). rewrite (complete_bind _ _ _ _ _ E1).
  destruct (unlock_ok _ _ _ _ Hr2) as (g3 & E3 & Hr4). rewrite (complete_bind _ _ _ _ _ E3).
  exists g3. split; [|done]. fold (touched x). by destruct (stored (touched x)).
Qed.

(** What the two loaders make of a store. *)
Lemma find_entry_abs st dc :
  store_ok st ->
  (idx ← find_entry st dc; e ← entries st !! idx; Some (loaded (entry_creds e))) =
  loaded <$> snd (store_abs st) !! dc.
Proof.
  intros _. unfold find_entry, store_abs. cbn [snd].
  pose proof (find_index_spec dc (take (st_count st) (entries st))) as H.
  destruct (find_index _ _) as [i|]; cbn; [|by rewrite H].
  destruct H as (e & He & _ & ->). cbn. apply lookup_take_Some in He as [He _]. by rewrite He.
Qed.

Lemma loaders_at x fs dc s0 :
  ready x ∅ fs ->
  fst (complete (session_store_load_dc dc s0) fs) = loaded <$> snd (store_state x) !! dc /\
  fst (complete (session_store_load s0) fs) =
    (if fst (store_state x) =? 0 then None
     else (fun c => (loaded c, fst (store_state x))) <$> snd (store_state x) !! fst (store_state x)).
Proof.
  intros Hr. destruct (read_shared_ok x fs Hr) as (g & E & _).
  pose proof (stored_ok x) as Hok. unfold store_state. rewrite <- stored_of_touched in *.
  unfold session_store_load_dc, session_store_load. rewrite !(complete_bind _ _ _ _ _ E). cbn [complete fst].
  destruct (stored (touched x)) as [st|]; cbn [from_option id] in *; [|by cbn; rewrite lookup_empty].
  assert (Hf : forall d, (idx ← find_entry st d; e ← entries st !! idx; Some (apply_entry e s0)) =
                         loaded <$> snd (store_abs st) !! d) by (intros d; by rewrite <- find_entry_abs).
  split; [exact (Hf dc)|]. cbn [mret prog_mret complete fst]. unfold mbind at 1, option_bind at 1.
  specialize (Hf (home_dc_id st)). change (fst (store_abs st)) with (home_dc_id st).
  destruct (home_dc_id st =? 0); [by rewrite orb_true_r|]. rewrite orb_false_r.
  destruct (Nat.eqb_spec (st_count st) 0) as [E0|_].
  - unfold store_abs. cbn [snd]. by rewrite E0.
  - destruct (snd (store_abs st) !! home_dc_id st) as [c|], (find_entry st (home_dc_id st)) as [i|];
      cbn in *; try done; destruct (entries st !! i); cbn in *; congruence.
Qed.

Lemma future_not_stored v body :
  STORE_VERSION < v -> is_s32 v -> stored (Some (STORE_MAGIC ++ le_split 4 v ++ body)) = None.
Proof.
  intros Hv Hs. change (stored _) with (parse_store (take STORE_MAX_SIZE (STORE_MAGIC ++ le_split 4 v ++ body))).
  destruct (parse_store_take STORE_MAX_SIZE (STORE_MAGIC ++ le_split 4 v ++ body)) as [->| ->]; [done|].
  unfold parse_store. destruct (_ <? _); [done|]. destruct (negb _); [done|].
  unfold int_at. rewrite (slice_skip' STORE_MAGIC _ 4 0), slice_here, s32_split
    by (done || apply le_split_len).
  unfold STORE_VERSION, STORE_VERSION_V1 in *. by rewrite !(proj2 (Z.eqb_neq _ _)) by lia.
Qed.

(** * Session persistence: the theorems

    What src/app/session_store.c guarantees about the file of the
    authorization keys, and where its locking and its version check fall
    short. *)

(** Sessions as the callers hold them. *)
Definition savable (dc : Z) (s : MtProtoSession) : Prop :=
  is_s32 dc /\ is_u64 (server_salt s) /\ is_u64 (session_id s) /\
  length (auth_key s) = MTPROTO_AUTH_KEY_SIZE /\ has_auth_key s = true.

(** A file system with this session file, or none, and nothing else. *)
Definition sample_fs (x : option (list byte)) : FS :=
  match x with
  | Some bs => mkFS {["session.bin"%string := 0%nat]} {[0%nat := bs]} ∅ ∅ 1
  | None => mkFS ∅ ∅ ∅ ∅ 0
  end.

Lemma sample_fs_ready x : ready x ∅ (sample_fs x).
Proof.
  split; [|split; [by destruct x|intros fd [v H]; by rewrite lookup_empty in H]].
  split; [|destruct x; [|done]; reflexivity]. split.
  - intros p i H. destruct x as [bs|]; cbn in *; [|by rewrite lookup_empty in H].
    apply lookup_singleton_Some in H as [_ <-]. split; [lia|]. by rewrite lookup_singleton_eq.
  - intros p q i Hp Hq. destruct x as [bs|]; cbn in *; [|by rewrite lookup_empty in Hp].
    apply lookup_singleton_Some in Hp as [<- _], Hq as [<- _]. done.
Qed.

Lemma sample_savable dc : is_s32 dc -> savable dc sample_session.
Proof. intros H. split; [exact H|]. repeat split; (discriminate || reflexivity). Qed.

(** The file format round trips: what [write_file_atomic] writes is 16
    bytes and 276 per data centre, and [read_file_locked] reads the same
    store back from it, whatever follows. *)
Theorem store_file_round_trip st rest :
  store_ok st ->
  length (store_bytes st) = (STORE_HEADER + st_count st * STORE_ENTRY_SIZE)%nat /\
  parse_store (store_bytes st ++ rest) = Some st.
Proof. intros H. split; [by apply store_bytes_len|by apply store_round_trip_at]. Qed.

Definition sample_store : StoreFile :=
  mkStore 2 2 (fill_entries [populate_entry 2 sample_session; populate_entry (-4) sample_session]).

Lemma store_file_round_trip_witness :
  length (store_bytes sample_store) = (STORE_HEADER + 2 * STORE_ENTRY_SIZE)%nat /\
  parse_store (store_bytes sample_store ++ [Byte.x00]) = Some sample_store.
Proof.
  apply (store_file_round_trip sample_store [Byte.x00]).
  apply (fill_entries_ok [_; _]); [split; reflexivity || discriminate|vm_compute; lia|].
  repeat constructor; (discriminate || reflexivity).
Defined.

(** (C7) The session file implements a map from data centres to credentials
    with a home: when no call fails and nobody holds the lock, a save
    replaces the credentials of its data centre, keeps all others, and sets
    the home when asked to or when there was none; it refuses only a new
    data centre when all five slots are used.  The loaders return what the
    map says, with fresh counters. *)
Theorem store_implements_map x fs dc s home s0 :
  ready x ∅ fs -> savable dc s ->
  let '(ok, g) := complete (upsert dc s home) fs in
  ready (session_file g) ∅ g /\
  (if ok then store_state (session_file g) = spec_save dc (session_creds s) home (store_state x)
   else store_state (session_file g) = store_state x /\ snd (store_state x) !! dc = None /\
        st_count (default store_zero (stored x)) = SESSION_STORE_MAX_DCS) /\
  fst (complete (session_store_load_dc dc s0) fs) = loaded <$> snd (store_state x) !! dc /\
  fst (complete (session_store_load s0) fs) =
    (if fst (store_state x) =? 0 then None
     else (fun c => (loaded c, fst (store_state x))) <$> snd (store_state x) !! fst (store_state x)).
Proof.
  intros Hr (Hd & Hsalt & Hsid & Hkey & Hk).
  destruct (upsert_ok x dc s home fs Hr Hk) as [g Hu].
  pose proof (upsert_store_spec dc s home _ (stored_ok x) Hd Hsalt Hsid Hkey) as Hs.
  assert (Hready : forall y, ready y ∅ g -> session_file g = y) by (by intros y [[_ ?] _]).
  assert (Hup : let '(ok, g) := complete (upsert dc s home) fs in
    ready (session_file g) ∅ g /\
    (if ok then store_state (session_file g) = spec_save dc (session_creds s) home (store_state x)
     else store_state (session_file g) = store_state x /\ snd (store_state x) !! dc = None /\
          st_count (default store_zero (stored x)) = SESSION_STORE_MAX_DCS)).
  { destruct (upsert_store dc s home _) as [st'|]; destruct Hu as [-> Hg]; rewrite (Hready _ Hg).
    - split; [done|]. destruct Hs as [Hok Ha]. unfold store_state at 1. by rewrite stored_written.
    - split; [done|]. unfold store_state at 1. by rewrite stored_of_touched. }
  destruct (complete (upsert dc s home) fs) as [ok g'].
  split; [apply Hup|]. split; [apply Hup|]. by apply loaders_at.
Qed.

Lemma store_implements_map_witness :
  let '(ok, g) := complete (upsert 4 sample_session false) (sample_fs (Some (store_bytes sample_store))) in
  ready (session_file g) ∅ g /\
  (if ok then store_state (session_file g) =
      spec_save 4 (session_creds sample_session) false (store_state (Some (store_bytes sample_store)))
   else store_state (session_file g) = store_state (Some (store_bytes sample_store)) /\
        snd (store_state (Some (store_bytes sample_store))) !! 4 = None /\
        st_count (default store_zero (stored (Some (store_bytes sample_store)))) = SESSION_STORE_MAX_DCS) /\
  fst (complete (session_store_load_dc 4 session_zero) (sample_fs (Some (store_bytes sample_store)))) =
    loaded <$> snd (store_state (Some (store_bytes sample_store))) !! 4 /\
  fst (complete (session_store_load session_zero) (sample_fs (Some (store_bytes sample_store)))) =
    (if fst (store_state (Some (store_bytes sample_store))) =? 0 then None
     else (fun c => (loaded c, fst (store_state (Some (store_bytes sample_store))))) <$>
          snd (store_state (Some (store_bytes sample_store))) !!
            fst (store_state (Some (store_bytes sample_store)))).
Proof.
  apply (store_implements_map (Some (store_bytes sample_store))
           (sample_fs (Some (store_bytes sample_store))) 4 sample_session false session_zero).
  - apply sample_fs_ready.
  - apply sample_savable. split; reflexivity || discriminate.
Defined.

(** (C10) A save is atomic: stopped after any number of system calls, with
    any of them failing or moving fewer bytes, it leaves the old session
    file (an empty one where there was none) or the complete new one; when
    it reports success it is the new one, and when it reports failure it is
    the old one.  The new file holds the old entries, or none when the old
    file could not be read. *)
Theorem save_is_atomic ds x fs dc s home p g :
  has_file x fs -> run ds (upsert dc s home) fs = (p, g) ->
  upsert_may_leave x dc s home (session_file g) /\
  match p with
  | Ret true => exists bs, session_file g = Some bs /\ upsert_new x dc s home bs
  | Ret false => session_file g = x \/ session_file g = touched x
  | _ => True
  end.
Proof.
  intros H E. destruct (always_run _ _ _ _ _ _ _ (upsert_safe x dc s home fs H) E) as [[_ HI] HQ].
  split; [exact HI|]. by destruct p as [[]|].
Qed.

(** The save is cut off between the write and the rename. *)
Definition cut_off : prog bool * FS :=
  run (replicate 14 DOk) (upsert 4 sample_session false) (sample_fs (Some (store_bytes sample_store))).

Lemma save_is_atomic_witness :
  upsert_may_leave (Some (store_bytes sample_store)) 4 sample_session false (session_file (snd cut_off)) /\
  match fst cut_off with
  | Ret true => exists bs, session_file (snd cut_off) = Some bs /\
      upsert_new (Some (store_bytes sample_store)) 4 sample_session false bs
  | Ret false => session_file (snd cut_off) = Some (store_bytes sample_store) \/
      session_file (snd cut_off) = touched (Some (store_bytes sample_store))
  | _ => True
  end.
Proof.
  apply (save_is_atomic (replicate 14 DOk) (Some (store_bytes sample_store))
           (sample_fs (Some (store_bytes sample_store))) 4 sample_session false).
  - apply sample_fs_ready.
  - unfold cut_off. apply surjective_pairing.
Defined.

(** A file of a future version is refused by the loaders but not by a
    save, which replaces it by a file with the new entry alone. *)
Theorem future_version_overwritten v body fs dc s s0 :
  STORE_VERSION < v -> is_s32 v -> savable dc s ->
  ready (Some (STORE_MAGIC ++ le_split 4 v ++ body)) ∅ fs ->
  fst (complete (session_store_load s0) fs) = None /\
  exists g, complete (session_store_save s dc) fs = (true, g) /\
    session_file g = Some (store_bytes (mkStore dc 1 (fill_entries [populate_entry dc s]))).
Proof.
  intros Hv Hs32 (_ & _ & _ & _ & Hk) Hr.
  assert (Hnone := future_not_stored v body Hv Hs32). split.
  - destruct (read_shared_ok _ _ Hr) as (g & E & _). unfold session_store_load.
    rewrite (complete_bind _ _ _ _ _ E). unfold touched; cbn [from_option id]. by rewrite Hnone.
  - destruct (upsert_ok _ dc s true fs Hr Hk) as [g Hu]. rewrite Hnone in Hu. cbn [from_option] in Hu.
    exists g. by destruct Hu as [Hu [[_ Hg] _]].
Qed.

Lemma future_version_overwritten_witness :
  fst (complete (session_store_load session_zero)
         (sample_fs (Some (STORE_MAGIC ++ le_split 4 3 ++ sample_key)))) = None /\
  exists g, complete (session_store_save sample_session 2)
      (sample_fs (Some (STORE_MAGIC ++ le_split 4 3 ++ sample_key))) = (true, g) /\
    session_file g = Some (store_bytes (mkStore 2 1 (fill_entries [populate_entry 2 sample_session]))).
Proof.
  apply (future_version_overwritten 3 sample_key
           (sample_fs (Some (STORE_MAGIC ++ le_split 4 3 ++ sample_key))) 2 sample_session session_zero).
  - reflexivity.
  - split; reflexivity || discriminate.
  - apply sample_savable. split; reflexivity || discriminate.
  - apply sample_fs_ready.
Defined.

(** Processes 0 and 1 open the same inode; 0 saves; 1 locks the old inode and
    2 the new one; both read; 1 replaces the file, then 2 does. *)
Definition racing : list (nat * decision) :=
  map (fun i => (i, DOk))
    (replicate 4 0 ++ replicate 4 1 ++ replicate 12 0 ++ replicate 5 1 ++ replicate 9 2 ++
     replicate 7 1 ++ replicate 7 2)%nat.

Definition raced : list (prog bool) * FS :=
  run_schedule racing
    ([session_store_save_dc 2 sample_session; session_store_save_dc 3 sample_session;
      session_store_save_dc 4 sample_session], sample_fs None).

(** The lock is on an inode that a save replaces, so it does not exclude
    a process that opened the file before: in the schedule [racing] three
    saves all report success and the entry of one of them is lost. *)
Theorem lock_does_not_exclude :
  fst raced = [Ret true; Ret true; Ret true] /\
  snd (store_state (session_file (snd raced))) !! 3 = None /\
  is_Some (snd (store_state (session_file (snd raced))) !! 4).
Proof.
  split; [vm_cast_no_check (@eq_refl _ (fst raced))|].
  split; vm_compute; [reflexivity|eexists; reflexivity].
Qed.
