(* ===== verification/Login.v ===== *)
(** * Login, transfer and logout (src/infrastructure/auth_session.c,
    auth_transfer.c, auth_logout.c)

    auth.sendCode, signIn, signUp and resendCode, the export and import of an
    authorization between data centres, and auth.logOut. *)

From S2P Require Import Prelude TlSerial TlLogic TlCrc World MtprotoSession.
From S2P Require Import Transport MtprotoRpc ApiCall Request FileSys SessionStore.

#[local] Open Scope Z_scope.

(** ** Constructors (auth_session.h, auth_logout.h) *)

Definition CRC_auth_sendCode : Z := 0xa677244f.
Definition CRC_codeSettings : Z := 0xad253d78.
Definition CRC_auth_sentCode : Z := 0x5e002502.
Definition CRC_auth_sentCodeTypeApp : Z := 0x3dbb5986.
Definition CRC_auth_sentCodeTypeSms : Z := 0xc000bba2.
Definition CRC_auth_sentCodeTypeCall : Z := 0x5353e5a7.
Definition CRC_auth_sentCodeTypeFlashCall : Z := 0xab03c6d9.
Definition CRC_auth_resendCode : Z := 0x3ef1a9bf.
Definition CRC_auth_signIn : Z := 0x8d52a951.
Definition CRC_auth_signUp : Z := 0x80eee427.
Definition CRC_auth_authorization : Z := 0x2ea2c0d4.
Definition CRC_auth_authorizationSignUpRequired : Z := 0x44747e9a.
Definition CRC_auth_logOut : Z := 0x3e72ba19.
Definition CRC_auth_loggedOut : Z := 0xc3a2835f.

Definition AUTH_CODE_HASH_MAX : Z := 128.
Definition RESP_BUF_SIZE : Z := 65536.

(** ** Objects *)

Record AuthSentCode := mkSentCode {
  phone_code_hash : list byte;   (** the string before its terminator *)
  timeout : Z;
  code_type : Z;
  next_type : Z;
}.

Definition set_hash v (c : AuthSentCode) := mkSentCode v (timeout c) (code_type c) (next_type c).
Definition set_timeout v (c : AuthSentCode) :=
  mkSentCode (phone_code_hash c) v (code_type c) (next_type c).
Definition set_code_type v (c : AuthSentCode) :=
  mkSentCode (phone_code_hash c) (timeout c) v (next_type c).
Definition set_next_type v (c : AuthSentCode) :=
  mkSentCode (phone_code_hash c) (timeout c) (code_type c) v.

Definition upd_sent {T} (f : AuthSentCode -> AuthSentCode) : M (T * (AuthSentCode * RpcError)) unit :=
  set_ctx (fun x => (f (fst x), snd x)).
(** [user_id_out] and [signup_required]. *)
Record SignInOut := mkSignIn { user_id_out : Z; signup_required : Z }.
Definition set_user_id v (o : SignInOut) := mkSignIn v (signup_required o).
Definition set_signup v (o : SignInOut) := mkSignIn (user_id_out o) v.

(** [bytes] holds the [bytes_len] bytes in use. *)
Record AuthExported := mkExported { ex_id : Z; ex_bytes : list byte }.
Definition AUTH_TRANSFER_BYTES_MAX : Z := 1024.

(** ** Parsers *)

Definition read_sent_code_type : Rd Z :=
  ok ← ask_ok;
  if negb ok then mret 0
  else
    type_crc ← tl_read_uint32;
    if (type_crc =? CRC_auth_sentCodeTypeApp) || (type_crc =? CRC_auth_sentCodeTypeSms)
       || (type_crc =? CRC_auth_sentCodeTypeCall) then
      tl_read_int32 ;; mret type_crc
    else if type_crc =? CRC_auth_sentCodeTypeFlashCall then
      tl_read_string ;; mret type_crc
    else mret 0.

(** auth.sentCode, as [auth_send_code] reads it. *)
Definition parse_sent_code : Px (AuthSentCode * RpcError) unit :=
  lift tl_read_uint32 ;;
  flags ← lift tl_read_uint32;
  ct ← lift read_sent_code_type;
  upd_sent (set_code_type ct) ;;
  if ct =? 0 then fail
  else
    hash ← lift tl_read_string;
    match hash with
    | None => fail
    | Some hash =>
        if AUTH_CODE_HASH_MAX <=? strlen hash then fail
        else
          upd_sent (set_hash (cstr hash)) ;;
          upd_sent (set_next_type 0) ;;
          when (flag flags 1) (v ← lift tl_read_uint32; upd_sent (set_next_type v)) ;;
          upd_sent (set_timeout 0) ;;
          when (flag flags 2) (v ← lift tl_read_int32; upd_sent (set_timeout v))
    end.

(** auth.sentCode, as [auth_resend_code] reads it. *)
Definition parse_resent_code : Px (AuthSentCode * RpcError) unit :=
  lift tl_read_uint32 ;;
  flags ← lift tl_read_uint32;
  ct ← lift read_sent_code_type;
  upd_sent (set_code_type ct) ;;
  lift tl_read_string ;;
  upd_sent (set_next_type 0) ;;
  when (flag flags 1) (v ← lift tl_read_uint32; upd_sent (set_next_type v)) ;;
  when (flag flags 2) (v ← lift tl_read_int32; upd_sent (set_timeout v)).

Definition upd_signed {T} (f : SignInOut -> SignInOut) : M (T * (SignInOut * RpcError)) unit :=
  set_ctx (fun x => (f (fst x), snd x)).

Definition parse_authorization : Px (SignInOut * RpcError) unit :=
  lift tl_read_uint32 ;;
  flags ← lift tl_read_uint32;
  when (flag flags 1) (lift (tl_read_int32 ;; mret tt)) ;;
  user_crc ← lift tl_read_uint32;
  if negb (user_crc =? TL_user) && negb (user_crc =? TL_user2) && negb (user_crc =? TL_userFull)
  then upd_signed (set_user_id 0)
  else
    lift tl_read_uint32 ;;
    uid ← lift tl_read_int64;
    upd_signed (set_user_id uid).

Definition parse_exported : Px (AuthExported * RpcError) unit :=
  lift tl_read_uint32 ;;
  id ← lift tl_read_int64;
  set_ctx (fun x => (mkExported id (ex_bytes (fst x)), snd x)) ;;
  bytes ← lift tl_read_bytes;
  match bytes with
  | None => fail
  | Some bytes =>
      if (zlen bytes =? 0) || (AUTH_TRANSFER_BYTES_MAX <? zlen bytes) then fail
      else set_ctx (fun x => (mkExported (ex_id (fst x)) bytes, snd x))
  end.

(** ** Requests *)

Definition build_send_code {S} (cfg : ApiConfig) (phone : list byte) (max_len : Z) : M S (list byte) :=
  let w := tl_writer_init in
  let w := tl_write_uint32 w CRC_auth_sendCode in
  let w := tl_write_string w (Some phone) in
  let w := tl_write_int32 w (api_id cfg) in
  let w := tl_write_string w (Some (default [] (api_hash cfg))) in
  let w := tl_write_uint32 w CRC_codeSettings in
  let w := tl_write_uint32 w 0 in
  take_query w max_len.

Definition build_sign_in {S} (phone hash code : list byte) (max_len : Z) : M S (list byte) :=
  let w := tl_writer_init in
  let w := tl_write_uint32 w CRC_auth_signIn in
  let w := tl_write_uint32 w 1 in
  let w := tl_write_string w (Some phone) in
  let w := tl_write_string w (Some hash) in
  let w := tl_write_string w (Some code) in
  take_query w max_len.

Definition build_sign_up {S} (phone hash first_name : list byte) (last_name : option (list byte))
    (max_len : Z) : M S (list byte) :=
  let w := tl_writer_init in
  let w := tl_write_uint32 w CRC_auth_signUp in
  let w := tl_write_string w (Some phone) in
  let w := tl_write_string w (Some hash) in
  let w := tl_write_string w (Some first_name) in
  let w := tl_write_string w (Some (default [] last_name)) in
  take_query w max_len.

Definition build_logout_request {S} (max_len : Z) : M S (list byte) :=
  take_query (tl_write_uint32 tl_writer_init CRC_auth_logOut) max_len.

(** ** Calls *)

Section Login.
Context `{C : Crypto} (tinf : Z -> list byte -> option (list byte)) (cfg : ApiConfig).

Definition auth_send_code (phone : list byte) : Cx (AuthSentCode * RpcError) unit :=
  upd_ctx (set_err no_error) ;;
  query ← build_send_code cfg phone 4096;
  resp ← call_api tinf cfg query RESP_BUF_SIZE;
  check_top set_err (Z.eqb CRC_auth_sentCode) resp ;;
  with_parser resp parse_sent_code.

Definition auth_sign_in (phone hash code : list byte) : Cx (SignInOut * RpcError) unit :=
  upd_ctx (fun x => (set_signup 0 (fst x), no_error)) ;;
  query ← build_sign_in phone hash code 4096;
  resp ← call_api tinf cfg query RESP_BUF_SIZE;
  check_top set_err
    (fun c => (c =? CRC_auth_authorizationSignUpRequired) || (c =? CRC_auth_authorization)) resp ;;
  if first_word resp =? CRC_auth_authorizationSignUpRequired then
    upd_ctx (fun x => (set_signup 1 (fst x), snd x)) ;; fail
  else with_parser resp parse_authorization.

Definition auth_sign_up (phone hash first_name : list byte) (last_name : option (list byte))
    : Cx (SignInOut * RpcError) unit :=
  upd_ctx (set_err no_error) ;;
  query ← build_sign_up phone hash first_name last_name 4096;
  resp ← call_api tinf cfg query RESP_BUF_SIZE;
  check_top set_err (Z.eqb CRC_auth_authorization) resp ;;
  with_parser resp parse_authorization.

Definition auth_resend_code (phone : list byte) : Cx (AuthSentCode * RpcError) unit :=
  upd_ctx (set_err no_error) ;;
  x ← get_fst;
  let w := tl_writer_init in
  let w := tl_write_uint32 w CRC_auth_resendCode in
  let w := tl_write_uint32 w 0 in
  let w := tl_write_string w (Some phone) in
  let w := tl_write_string w (Some (phone_code_hash (fst x))) in
  query ← take_query w 1024;
  resp ← call_api tinf cfg query RESP_BUF_SIZE;
  check_top set_err (Z.eqb CRC_auth_sentCode) resp ;;
  with_parser resp parse_resent_code.

Definition auth_transfer_export (target_dc_id : Z) : Cx (AuthExported * RpcError) unit :=
  upd_ctx (fun _ => (mkExported 0 [], no_error)) ;;
  let w := tl_writer_init in
  let w := tl_write_uint32 w TL_auth_exportAuthorization in
  let w := tl_write_int32 w target_dc_id in
  query ← take_query w 64;
  resp ← call_api tinf cfg query RESP_BUF_SIZE;
  check_top set_err (Z.eqb TL_auth_exportedAuthorization) resp ;;
  with_parser resp parse_exported.

(** The caller's object is the error detail alone. *)
Definition auth_transfer_import (inp : AuthExported) : Cx RpcError unit :=
  if (zlen (ex_bytes inp) =? 0) || (AUTH_TRANSFER_BYTES_MAX <? zlen (ex_bytes inp)) then fail
  else
    upd_ctx (fun _ => no_error) ;;
    let w := tl_writer_init in
    let w := tl_write_uint32 w TL_auth_importAuthorization in
    let w := tl_write_int64 w (ex_id inp) in
    let w := tl_write_bytes w (ex_bytes inp) in
    resp ← call_api tinf cfg (w_data w) RESP_BUF_SIZE;
    check_top (fun e _ => e)
      (fun c => (c =? TL_auth_authorization) || (c =? TL_auth_authorizationSignUpRequired)) resp.

(** An error 401 counts as a successful logout. *)
Definition auth_logout_rpc : CM unit :=
  query ← build_logout_request 64;
  resp ← api_call tinf cfg query 4096;
  if zlen resp <? 4 then fail
  else
    let constructor := first_word resp in
    if constructor =? TL_rpc_error then
      match rpc_parse_error resp with
      | Some err => if error_code err =? 401 then mret tt else fail
      | None => fail
      end
    else if negb (constructor =? CRC_auth_loggedOut) then fail else mret tt.

(** The result is the program of file system calls that follows the call:
    the store is cleared and the registered callback runs. *)
Definition auth_logout (on_logout_cb : option (prog unit)) : CM (prog unit) := fun st =>
  let rest := session_store_clear ;; default (mret tt) on_logout_cb in
  match auth_logout_rpc st with
  | Done _ st' | Fail st' => Done rest st'
  | Fault => Fault
  | NoFuel => NoFuel
  end.

End Login.
