(* ===== verification/Auth2fa.v ===== *)
(** * Two-factor authentication (src/infrastructure/auth_2fa.c)

    account.getPassword, the SRP proof of auth.checkPassword over the big
    numbers of crypto.c, and the call itself. *)

From S2P Require Import Prelude TlSerial TlLogic TlCrc TlSkipBase World IgeAes MtprotoSession.
From S2P Require Import Transport MtprotoRpc ApiCall Request BigNum Login.

#[local] Open Scope Z_scope.

(** OpenSSL's [PKCS5_PBKDF2_HMAC] with SHA-512: [None] when it reports an
    error. *)
Class Kdf := {
  PKCS5_PBKDF2_HMAC : list byte -> list byte -> Z -> Z -> option (list byte);
}.

Class KdfLaws (K : Kdf) : Prop := {
  pbkdf2_len password salt iters n out :
    PKCS5_PBKDF2_HMAC password salt iters n = Some out -> zlen out = n;
}.

Definition CRC_account_getPassword : Z := 0x548a30f5.
Definition CRC_auth_checkPassword : Z := 0xd18b4d16.
Definition CRC_inputCheckPasswordSRP : Z := TL_inputCheckPasswordSRP.
Definition CRC_account_password : Z := TL_account_password.
Definition CRC_KdfAlgoPBKDF2 : Z :=
  TL_passwordKdfAlgoSHA256SHA256PBKDF2HMACSHA512iter100000SHA256ModPow.
Definition CRC_KdfAlgoUnknown : Z := TL_passwordKdfAlgoUnknown.

Definition SRP_PRIME_LEN : Z := 256.
Definition SRP_SALT_MAX : Z := 128.
Definition INT_MAX : Z := 2 ^ 31 - 1.

(** The salts are the bytes in use. *)
Record Account2faPassword := mkPassword {
  has_password : bool;
  srp_id : Z;
  srp_B : list byte;
  srp_g : Z;
  srp_p : list byte;
  salt1 : list byte;
  salt2 : list byte;
}.

Definition password_zero : Account2faPassword :=
  mkPassword false 0 (replicate 256 Byte.x00) 0 (replicate 256 Byte.x00) [] [].

Definition set_has v (o : Account2faPassword) :=
  mkPassword v (srp_id o) (srp_B o) (srp_g o) (srp_p o) (salt1 o) (salt2 o).
Definition set_srp_id v (o : Account2faPassword) :=
  mkPassword (has_password o) v (srp_B o) (srp_g o) (srp_p o) (salt1 o) (salt2 o).
Definition set_srp_B v (o : Account2faPassword) :=
  mkPassword (has_password o) (srp_id o) v (srp_g o) (srp_p o) (salt1 o) (salt2 o).
Definition set_algo g p s1 s2 (o : Account2faPassword) :=
  mkPassword (has_password o) (srp_id o) (srp_B o) g p s1 s2.

(** ** account.getPassword *)

Definition upd_pw {T} (f : Account2faPassword -> Account2faPassword)
  : M (T * (Account2faPassword * RpcError)) unit := set_ctx (fun x => (f (fst x), snd x)).

Definition parse_password_kdf_algo : Px (Account2faPassword * RpcError) unit :=
  lift (need_ok 4) ;;
  crc ← lift tl_read_uint32;
  if crc =? CRC_KdfAlgoUnknown then fail
  else if negb (crc =? CRC_KdfAlgoPBKDF2) then fail
  else
    s1 ← lift tl_read_bytes;
    s2 ← lift tl_read_bytes;
    let s1 := default [] s1 in
    let s2 := default [] s2 in
    if (SRP_SALT_MAX <? zlen s1) || (SRP_SALT_MAX <? zlen s2) then fail
    else
      lift (need 4) ;;
      g ← lift tl_read_int32;
      p ← lift tl_read_bytes;
      let p := default [] p in
      if negb (zlen p =? SRP_PRIME_LEN) then fail
      else upd_pw (set_algo g p s1 s2).

(** [memset] of the 256 bytes, then the number at their end. *)
Definition pad_prime (v : list byte) : list byte := replicate (256 - length v) Byte.x00 ++ v.

Definition parse_password : Px (Account2faPassword * RpcError) unit :=
  lift tl_read_uint32 ;;
  flags ← lift tl_read_uint32;
  upd_pw (set_has (flag flags 2)) ;;
  when (flag flags 2)
    (parse_password_kdf_algo ;;
     srpB ← lift tl_read_bytes;
     match srpB with
     | None => fail
     | Some srpB =>
         if (zlen srpB =? 0) || (SRP_PRIME_LEN <? zlen srpB) then fail
         else
           upd_pw (set_srp_B (pad_prime srpB)) ;;
           lift (need 8) ;;
           id ← lift tl_read_int64;
           upd_pw (set_srp_id id)
     end) ;;
  when (flag flags 3) (lift tl_skip_string) ;;
  when (flag flags 4) (lift tl_skip_string).

(** ** SRP *)

Section Srp.
Context `{C : Crypto} `{K : Kdf} `{B : BigNum}.

Definition crypto_pbkdf2_hmac_sha512 (password salt : list byte) (iters out_len : Z)
    : option (list byte) :=
  if (out_len =? 0) || (iters <=? 0) then None
  else if (INT_MAX <? zlen password) || (INT_MAX <? zlen salt) || (INT_MAX <? out_len) then None
  else PKCS5_PBKDF2_HMAC password salt iters out_len.

Definition bytes_xor_eq (dst src : list byte) : list byte := zip_with byte_xor dst src.

Definition sh_sha256 (salt data : list byte) : list byte := crypto_sha256 (salt ++ data ++ salt).

(** [None] is the return value [-1]. *)
Definition compute_x (password salt1 salt2 : list byte) : option (list byte) :=
  let inner := sh_sha256 salt1 password in
  let ph1 := sh_sha256 salt2 inner in
  pbkdf2_out ← crypto_pbkdf2_hmac_sha512 ph1 salt1 100000 64;
  mret (sh_sha256 salt2 pbkdf2_out).

Definition pack_g (g : Z) : list byte :=
  let gu := u32 g in
  replicate 252 Byte.x00 ++
  [byte.of_Z (Z.shiftr gu 24); byte.of_Z (Z.shiftr gu 16); byte.of_Z (Z.shiftr gu 8); byte.of_Z gu].

(** The bytes hashed for [M1]. *)
Definition m1_buf (p : Account2faPassword) (g_bytes A K : list byte) : list byte :=
  let h_p := crypto_sha256 (srp_p p) in
  let h_g := crypto_sha256 g_bytes in
  bytes_xor_eq h_p h_g ++ crypto_sha256 (salt1 p) ++ crypto_sha256 (salt2 p) ++ A ++ srp_B p ++ K.

(** The secret is the caller's, or drawn. *)
Definition srp_secret {X} (a_in : option (list byte)) : Cx X (list byte) :=
  match a_in with
  | Some a => mret a
  | None => on_snd (on_snd (crypto_rand_bytes 256))
  end.

(** [A] and [M1]. *)
Definition srp_compute {X} (p : Account2faPassword) (password : list byte) (a_in : option (list byte))
    : Cx X (list byte * list byte) :=
  let g_bytes := pack_g (srp_g p) in
  a ← srp_secret a_in;
  A ← crypto_bn_mod_exp 256 g_bytes a (srp_p p);
  match compute_x password (salt1 p) (salt2 p) with
  | None => fail
  | Some x =>
      v ← crypto_bn_mod_exp 256 g_bytes x (srp_p p);
      let k := crypto_sha256 (srp_p p ++ g_bytes) in
      let u := crypto_sha256 (A ++ srp_B p) in
      kv ← crypto_bn_mod_mul 256 k v (srp_p p);
      base ← crypto_bn_mod_sub 256 (srp_B p) kv (srp_p p);
      base_a ← crypto_bn_mod_exp 256 base a (srp_p p);
      base_x ← crypto_bn_mod_exp 256 base x (srp_p p);
      base_xu ← crypto_bn_mod_exp 256 base_x u (srp_p p);
      S ← crypto_bn_mod_mul 256 base_a base_xu (srp_p p);
      let K := crypto_sha256 S in
      mret (A, crypto_sha256 (m1_buf p g_bytes A K))
  end.

Definition auth_2fa_srp_compute {X} (p : Account2faPassword) (password : list byte)
    (a_priv_in : option (list byte)) : Cx X (list byte * list byte) :=
  if negb (has_password p) then fail else srp_compute p password a_priv_in.

(** ** auth.checkPassword *)

(** auth.authorization: the user id. *)
Definition parse_checked : Px (Z * RpcError) unit :=
  lift tl_read_uint32 ;;
  flags ← lift tl_read_uint32;
  when (flag flags 1) (lift (need 4 ;; tl_read_int32 ;; mret tt)) ;;
  user_crc ← lift tl_read_uint32;
  if (user_crc =? TL_user) || (user_crc =? TL_user2) || (user_crc =? TL_userFull) then
    lift tl_read_uint32 ;;
    n ← lift ask_remaining;
    when (8 <=? n) (uid ← lift tl_read_int64; set_ctx (fun x => (uid, snd x)))
  else set_ctx (fun x => (0, snd x)).

Context (tinf : Z -> list byte -> option (list byte)) (cfg : ApiConfig).

Definition auth_2fa_get_password : Cx (Account2faPassword * RpcError) unit :=
  upd_ctx (fun x => (password_zero, snd x)) ;;
  query ← copy_query (tl_write_uint32 tl_writer_init CRC_account_getPassword) 8;
  resp ← call_api tinf cfg query 2048;
  check_top set_err (Z.eqb CRC_account_password) resp ;;
  with_parser resp parse_password.

Definition auth_2fa_check_password (params : Account2faPassword) (password : list byte)
    : Cx (Z * RpcError) unit :=
  if negb (has_password params) then fail
  else
    r ← srp_compute params password None;
    let w := tl_writer_init in
    let w := tl_write_uint32 w CRC_auth_checkPassword in
    let w := tl_write_uint32 w CRC_inputCheckPasswordSRP in
    let w := tl_write_int64 w (srp_id params) in
    let w := tl_write_bytes w (fst r) in
    let w := tl_write_bytes w (snd r) in
    query ← take_query w 512;
    resp ← call_api tinf cfg query 2048;
    check_top set_err (Z.eqb TL_auth_authorization) resp ;;
    with_parser resp parse_checked.

End Srp.
