(* ===== verification/LoginCorrect.v ===== *)
(** * The SRP proof (src/infrastructure/auth_2fa.c)

    The server side of SRP-6a as Telegram uses it, and the agreement of the
    secret that [srp_compute] puts together from two exponentiations with the
    one the server computes from its verifier; then the lemmas about the
    parsers and calls of the login. *)

From Stdlib Require Import Zpow_facts.
From S2P Require Import Prelude TlSerial TlLogic TlCrc TlSkipBase TlSkipSafe TlRefine World IgeAes.
From S2P Require Import MtprotoSession Transport MtprotoRpc RpcCorrect ApiCall ApiCorrect Request.
From S2P Require Import CallLogic BigNum FileSys SessionStore Login Auth2fa.

#[local] Open Scope Z_scope.

(** ** Arithmetic *)

Lemma pow_mod_l a e n : 0 < n -> (a mod n) ^ e mod n = a ^ e mod n.
Proof. intros Hn. symmetry. by apply Zpower_mod. Qed.

Lemma srp_exponents g a b x u :
  0 <= a -> 0 <= b -> 0 <= x -> 0 <= u ->
  (g ^ b) ^ a * ((g ^ b) ^ x) ^ u = (g ^ a * (g ^ x) ^ u) ^ b.
Proof.
  intros. rewrite (Z.pow_mul_l (g ^ a)), <- (Z.pow_mul_r g b a), <- (Z.pow_mul_r g b x) by lia.
  rewrite <- (Z.pow_mul_r g (b * x) u), <- (Z.pow_mul_r g a b), <- (Z.pow_mul_r g x u) by nia.
  rewrite <- (Z.pow_mul_r g (x * u) b) by nia. f_equal; f_equal; ring.
Qed.

(** [((B - k*v)^a) * ((B - k*v)^x)^u] with [B = k*v + g^b] is
    [(g^a * (g^x)^u)^b]. *)
Lemma srp_shared g a b x u k n :
  0 < n -> 0 <= a -> 0 <= b -> 0 <= x -> 0 <= u ->
  let v := g ^ x mod n in
  let B := (k * v + g ^ b) mod n in
  let base := (B - k * v mod n) mod n in
  ((base ^ a mod n) * ((base ^ x mod n) ^ u mod n)) mod n =
  ((g ^ a mod n) * v ^ u) ^ b mod n.
Proof.
  intros Hn Ha Hb Hx Hu v B base.
  assert (Hbase : base = g ^ b mod n).
  { unfold base, B. rewrite <- Zminus_mod. f_equal. lia. }
  rewrite Hbase, !pow_mod_l, <- Z.mul_mod by lia.
  rewrite <- (pow_mod_l (g ^ a mod n * v ^ u)), Z.mul_mod_idemp_l by lia.
  assert (Hl : (g ^ b) ^ a * ((g ^ b mod n) ^ x) ^ u mod n = (g ^ b) ^ a * ((g ^ b) ^ x) ^ u mod n).
  { rewrite <- !(Z.pow_mul_r _ x u), <- Z.mul_mod_idemp_r, pow_mod_l, Z.mul_mod_idemp_r by lia. done. }
  assert (Hr : g ^ a * v ^ u mod n = g ^ a * (g ^ x) ^ u mod n).
  { unfold v. rewrite <- Z.mul_mod_idemp_r, pow_mod_l, Z.mul_mod_idemp_r by lia. done. }
  rewrite Hl, Hr, pow_mod_l by done. by rewrite srp_exponents.
Qed.

(** ** The server *)

Section Srp.
Context `{C : Crypto} `{K : Kdf} `{B : BigNum}.
Context (p : Account2faPassword).

Definition srp_N : Z := be_combine (srp_p p).
Definition srp_gen : Z := u32 (srp_g p).
(** The generator as a number of 2048 bits. *)
Definition srp_gen_bytes : list byte := be_split 256 srp_gen.
Definition srp_k : Z := be_combine (crypto_sha256 (srp_p p ++ srp_gen_bytes)).
Definition srp_u (A : list byte) : Z := be_combine (crypto_sha256 (A ++ srp_B p)).

(** SH(data, salt), and PH2(password), from which the server made the
    verifier. *)
Definition salted (data salt : list byte) : list byte := crypto_sha256 (salt ++ data ++ salt).

Definition password_hash (password : list byte) : option (list byte) :=
  let ph1 := salted (salted password (salt1 p)) (salt2 p) in
  out ← PKCS5_PBKDF2_HMAC ph1 (salt1 p) 100000 64;
  Some (salted out (salt2 p)).

(** What the server stores for a password whose hash is [x]. *)
Definition verifier (x : list byte) : Z := srp_gen ^ be_combine x mod srp_N.

(** The number it sends for its secret [b]. *)
Definition server_public (v b : Z) : list byte :=
  be_split 256 ((srp_k * v + srp_gen ^ b) mod srp_N).

(** The secret it computes from the client's number. *)
Definition server_secret (v b : Z) (A : list byte) : list byte :=
  be_split 256 ((be_combine A * v ^ srp_u A) ^ b mod srp_N).

(** The proof it expects: H(H(p) xor H(g) | H(salt1) | H(salt2) | A | B | H(S)). *)
Definition server_M1 (v b : Z) (A : list byte) : list byte :=
  crypto_sha256
    (zip_with byte_xor (crypto_sha256 (srp_p p)) (crypto_sha256 srp_gen_bytes) ++
     crypto_sha256 (salt1 p) ++ crypto_sha256 (salt2 p) ++
     A ++ srp_B p ++ crypto_sha256 (server_secret v b A)).

(** ** Agreement *)

Lemma pack_g_val g : be_combine (pack_g g) = u32 g.
Proof.
  unfold pack_g. rewrite be_combine_pad. unfold be_combine. cbn [rev app].
  rewrite le_bytes32. unfold enc32. rewrite le_val_u32. apply u32_id, u32_range.
Qed.

Lemma pack_g_bytes : pack_g (srp_g p) = srp_gen_bytes.
Proof.
  apply be_combine_inj.
  - pose proof (be_split_len 256 srp_gen) as Hl. unfold zlen in Hl. unfold srp_gen_bytes, pack_g.
    rewrite length_app, length_replicate. cbn [length]. lia.
  - rewrite pack_g_val. unfold srp_gen_bytes, srp_gen. symmetry. apply be_combine_split.
    pose proof (u32_range (srp_g p)) as Hu. unfold is_u32 in Hu.
    assert (2 ^ 32 <= 2 ^ (8 * Z.of_nat 256)) by (apply Z.pow_le_mono_r; lia). lia.
Qed.

(** [compute_x] is the hash of the protocol; its lengths fit an [int]. *)
Lemma compute_x_hash {HC : CryptoLaws C} password :
  zlen (salt1 p) <= SRP_SALT_MAX -> compute_x password (salt1 p) (salt2 p) = password_hash password.
Proof.
  intros Hs. unfold compute_x, password_hash, crypto_pbkdf2_hmac_sha512.
  change (sh_sha256 (salt2 p) (sh_sha256 (salt1 p) password))
    with (salted (salted password (salt1 p)) (salt2 p)). cbn zeta.
  assert (Hl : zlen (salted (salted password (salt1 p)) (salt2 p)) = 32)
    by (unfold zlen, salted at 1; by rewrite sha256_len).
  unfold SRP_SALT_MAX in Hs. unfold INT_MAX.
  rewrite Hl, (proj2 (Z.ltb_ge _ (zlen (salt1 p)))) by lia. done.
Qed.

Context {HB : BigNumLaws B}.
Context (Hlen : length (srp_p p) = 256%nat) (HN : 0 < srp_N).

Lemma exp_at {S} base e (st : S) :
  crypto_bn_mod_exp 256 base e (srp_p p) st =
    Done (be_split 256 (be_combine base ^ be_combine e mod srp_N)) st.
Proof. rewrite mod_exp_at; [by rewrite Hlen|done|unfold zlen; lia]. Qed.

Lemma mul_at {S} a b (st : S) :
  crypto_bn_mod_mul 256 a b (srp_p p) st =
    Done (be_split 256 (be_combine a * be_combine b mod srp_N)) st.
Proof.
  unfold crypto_bn_mod_mul. rewrite (mod_op_at _ Z.mul); [by rewrite Hlen|apply mod_mul_val|done|].
  unfold zlen. lia.
Qed.

Lemma sub_at {S} a b (st : S) :
  crypto_bn_mod_sub 256 a b (srp_p p) st =
    Done (be_split 256 ((be_combine a - be_combine b) mod srp_N)) st.
Proof.
  unfold crypto_bn_mod_sub. rewrite (mod_op_at _ Z.sub); [by rewrite Hlen|apply mod_sub_val|done|].
  unfold zlen. lia.
Qed.

(** A residue read back from its 256 bytes. *)
Lemma residue z : be_combine (be_split 256 (z mod srp_N)) = z mod srp_N.
Proof.
  apply be_combine_split. pose proof (Z.mod_pos_bound z srp_N HN).
  pose proof (be_combine_range (srp_p p)) as Hr. fold srp_N in Hr. unfold zlen in Hr.
  rewrite Hlen in Hr. lia.
Qed.

Lemma srp_compute_at {X} password x a (st : X * (MtProtoSession * Transport * World)) :
  compute_x password (salt1 p) (salt2 p) = Some x ->
  let A := be_split 256 (srp_gen ^ be_combine a mod srp_N) in
  let base := (be_combine (srp_B p) - srp_k * verifier x mod srp_N) mod srp_N in
  srp_compute p password (Some a) st =
    Done (A, crypto_sha256 (m1_buf p srp_gen_bytes A (crypto_sha256 (be_split 256
      ((base ^ be_combine a mod srp_N) * ((base ^ be_combine x mod srp_N) ^ srp_u A mod srp_N)
         mod srp_N))))) st.
Proof.
  intros Hx A base. unfold srp_compute, srp_secret. rewrite bind_ret_l.
  rewrite (bind_Done _ _ _ _ _ (exp_at _ _ _)), Hx.
  rewrite (bind_Done _ _ _ _ _ (exp_at _ _ _)). cbn zeta.
  rewrite (bind_Done _ _ _ _ _ (mul_at _ _ _)), (bind_Done _ _ _ _ _ (sub_at _ _ _)).
  rewrite !(bind_Done _ _ _ _ _ (exp_at _ _ _)), (bind_Done _ _ _ _ _ (mul_at _ _ _)).
  rewrite !residue, !pack_g_val, pack_g_bytes. done.
Qed.

End Srp.

(** * Login, 2FA, transfer and logout: lemmas (src/infrastructure/auth_*.c)

    Every function is safe whatever the server answers; what it stores for
    the answers of the schema. *)

(** ** Safety *)

(** The hash is a string inside its array. *)
Definition code_inv (x : AuthSentCode * RpcError) : Prop :=
  zlen (phone_code_hash (fst x)) < AUTH_CODE_HASH_MAX.

Definition no_inv {X} (x : X) : Prop := True.

Definition exported_inv (x : AuthExported * RpcError) : Prop :=
  zlen (ex_bytes (fst x)) <= AUTH_TRANSFER_BYTES_MAX.

(** A C string that a query can hold. *)
Definition short (s : list byte) : Prop := zlen s < 2 ^ 24.

Section Safe.
Context `{C : Crypto} {HC : CryptoLaws C} (tinf : Z -> list byte -> option (list byte)).
Context (cfg : ApiConfig) (Hcfg : cfg_small cfg) (Hf : tinf_fits tinf).

Lemma safe_sent_code_type b : safe_upto b read_sent_code_type.
Proof. unfold read_sent_code_type. safe_tac. Qed.
Hint Resolve safe_sent_code_type : tl_safe.

Lemma px_sent_code : px_safe code_inv parse_sent_code any_result.
Proof.
  unfold parse_sent_code, upd_sent. px_tac; unfold code_inv in *; cbn in *; try done.
  bool_prop. unfold strlen in *. done.
Qed.

Lemma px_resent_code : px_safe code_inv parse_resent_code any_result.
Proof. unfold parse_resent_code, upd_sent. px_tac; done. Qed.

Lemma px_authorization : px_safe no_inv parse_authorization any_result.
Proof. unfold parse_authorization, upd_signed. px_tac; done. Qed.

Lemma px_exported : px_safe exported_inv parse_exported any_result.
Proof.
  unfold parse_exported. px_tac; unfold exported_inv in *; cbn in *; try done. by bool_prop.
Qed.

(** The parser behind the checks of an exchange. *)
Lemma parsed_safe {X} (I : X -> Prop) resp (m : Px X unit) :
  4 <= zlen resp <= RESP_BUF_SIZE -> px_safe I m any_result ->
  cx_safe I (with_parser resp m) any_result.
Proof. unfold RESP_BUF_SIZE. intros Hz Hm. apply cx_parser; [unfold SIZE_LIM; lia|done]. Qed.

Lemma short_bytes s : short s -> zlen (enc_bytes s) < 2 ^ 25.
Proof. unfold short. intros Hs. pose proof (enc_bytes_bound s). lia. Qed.

(** Bound the bytes of a writer sequence over short strings. *)
Ltac short_query :=
  unfold short in *; wdata;
  rewrite ?zlen_app, ?enc32_len, ?enc64_len;
  repeat match goal with
  | |- context [zlen (enc_bytes ?d)] =>
      let H := fresh in
      assert (H : 0 <= zlen (enc_bytes d) < 2 ^ 25)
        by (split; [apply zlen_nonneg|apply short_bytes; unfold short; first [assumption|cbn; lia]]);
      generalize dependent (zlen (enc_bytes d)); intros
  end; lia.

Ltac exchange :=
  eapply cx_exchange; [exact _|done|done|counts_tac|short_query|lia|unfold RESP_BUF_SIZE; lia| |].

Lemma send_code_safe phone :
  short phone -> short (default [] (api_hash cfg)) ->
  cx_safe code_inv (auth_send_code tinf cfg phone) any_result.
Proof.
  intros Hp Hh. unfold auth_send_code, build_send_code. cx_step; [by apply cx_upd|]. cx_step.
  exchange; [done|]. intros resp Hz _. apply parsed_safe; [done|apply px_sent_code].
Qed.

Lemma sign_in_safe phone hash code :
  short phone -> short hash -> short code ->
  cx_safe no_inv (auth_sign_in tinf cfg phone hash code) any_result.
Proof.
  intros Hp Hh Hc. unfold auth_sign_in, build_sign_in. cx_step; [by apply cx_upd|]. cx_step.
  exchange; [done|]. intros resp Hz _. cx_step.
  - intros _. eapply cx_bind; [by apply cx_upd|]. intros _ _. apply cx_fail.
  - intros _. apply parsed_safe; [done|apply px_authorization].
Qed.

Lemma sign_up_safe phone hash first_name last_name :
  short phone -> short hash -> short first_name -> short (default [] last_name) ->
  cx_safe no_inv (auth_sign_up tinf cfg phone hash first_name last_name) any_result.
Proof.
  intros Hp Hh Hc Hl. unfold auth_sign_up, build_sign_up. cx_step; [by apply cx_upd|]. cx_step.
  exchange; [done|]. intros resp Hz _. apply parsed_safe; [done|apply px_authorization].
Qed.

Lemma resend_code_safe phone :
  short phone -> cx_safe code_inv (auth_resend_code tinf cfg phone) any_result.
Proof.
  intros Hp. unfold auth_resend_code. cx_step; [by apply cx_upd|]. cx_step.
  eapply cx_bind; [apply cx_get|]. intros x Hx. unfold code_inv, AUTH_CODE_HASH_MAX in Hx.
  exchange; [done|]. intros resp Hz _. apply parsed_safe; [done|apply px_resent_code].
Qed.

Lemma transfer_export_safe dc :
  cx_safe exported_inv (auth_transfer_export tinf cfg dc) any_result.
Proof.
  unfold auth_transfer_export. cx_step; [by apply cx_upd|]. cx_step.
  exchange; [done|]. intros resp Hz _. apply parsed_safe; [done|apply px_exported].
Qed.

Lemma transfer_import_safe inp :
  cx_safe no_inv (auth_transfer_import tinf cfg inp) any_result.
Proof.
  unfold auth_transfer_import. cx_step; [intros; apply cx_fail|]. intros Hn. bool_prop.
  cx_step; [by apply cx_upd|]. cx_step.
  eapply cx_bind.
  - eapply cx_call; [exact _|done|unfold RESP_BUF_SIZE; lia|]. rewrite wrapped_len.
    unfold cfg_small, RPC_BUF_SIZE, AUTH_TRANSFER_BYTES_MAX in *. wdata.
    rewrite !zlen_app, enc32_len, enc64_len. pose proof (enc_bytes_bound (ex_bytes inp)). lia.
  - intros resp Hz. eapply cx_weaken; [by apply cx_check_top|]. done.
Qed.

Lemma logout_rpc_safe : conn_post (auth_logout_rpc tinf cfg) any_result.
Proof.
  unfold auth_logout_rpc, build_logout_request.
  eapply (conn_bind _ _ (fun q => zlen q <= 64)).
  { intros s t w Hwf. rewrite (take_query_at _ (enc32 CRC_auth_logOut)) by
      (first [by counts_tac | by wdata | by rewrite enc32_len]).
    rewrite enc32_len. by split; [apply conn_kept_refl|]. }
  intros q Hq. eapply conn_bind; [eapply api_call_safe; [done|lia|]|].
  { rewrite wrapped_len. unfold cfg_small, RPC_BUF_SIZE in *. lia. }
  intros resp Hr. destruct (_ <? 4); [apply conn_fail|]. cbn zeta.
  destruct (_ =? TL_rpc_error); [|destruct (negb _); [apply conn_fail|by apply conn_ret]].
  destruct (rpc_parse_error resp) as [e|]; [|apply conn_fail].
  destruct (_ =? 401); [by apply conn_ret|apply conn_fail].
Qed.

End Safe.

(** ** Two-factor authentication *)

Definition pw_wf (p : Account2faPassword) : Prop :=
  length (srp_B p) = 256%nat /\ length (srp_p p) = 256%nat /\
  zlen (salt1 p) <= SRP_SALT_MAX /\ zlen (salt2 p) <= SRP_SALT_MAX.

Definition pw_inv (x : Account2faPassword * RpcError) : Prop := pw_wf (fst x).

Lemma pad_prime_len v : zlen v <= 256 -> length (pad_prime v) = 256%nat.
Proof. unfold zlen, pad_prime. intros H. rewrite length_app, length_replicate. lia. Qed.

Lemma px_kdf_algo : px_safe pw_inv parse_password_kdf_algo any_result.
Proof.
  unfold parse_password_kdf_algo, upd_pw. px_tac; unfold pw_inv, pw_wf in *; cbn; bool_prop.
  split_and!; try done; [tauto|]. unfold SRP_PRIME_LEN, zlen in *. lia.
Qed.

Lemma px_password : px_safe pw_inv parse_password any_result.
Proof.
  unfold parse_password, upd_pw. px_tac; try done; try apply px_kdf_algo.
  unfold pw_inv, pw_wf in *. cbn. bool_prop. unfold SRP_PRIME_LEN in *.
  split_and!; try tauto. by apply pad_prime_len.
Qed.

Lemma px_checked : px_safe no_inv parse_checked any_result.
Proof. unfold parse_checked. px_tac; done. Qed.

Section Password.
Context `{C : Crypto} {HC : CryptoLaws C} `{K : Kdf} `{B : BigNum} {HB : BigNumLaws B}.
Context (tinf : Z -> list byte -> option (list byte)).
Context (cfg : ApiConfig) (Hcfg : cfg_small cfg) (Hf : tinf_fits tinf).

Lemma get_password_safe : cx_safe pw_inv (auth_2fa_get_password tinf cfg) any_result.
Proof.
  unfold auth_2fa_get_password. cx_step; [by apply cx_upd|]. cx_step.
  eapply cx_bind; [apply cx_copy_query; [by counts_tac|by wdata|lia]|]. intros q [_ Hq].
  eapply cx_bind; [eapply cx_call; [exact _|done|lia|]|].
  { rewrite wrapped_len. unfold cfg_small, RPC_BUF_SIZE in *. lia. }
  intros resp Hr. cbn beta in Hr. eapply cx_bind; [by apply cx_check_top|]. intros _ _.
  apply cx_parser; [unfold SIZE_LIM; lia|apply px_password].
Qed.

(** The proof is computed for every parameter set with a nonzero modulus. *)
Lemma srp_compute_safe p password a {X} (I : X -> Prop) :
  length (srp_p p) = 256%nat -> 0 < srp_N p ->
  cx_safe I (srp_compute p password (Some a)) (fun r => length (fst r) = 256%nat /\ length (snd r) = 32%nat).
Proof.
  intros Hl Hp x s t w Hx Hs. destruct (compute_x password (salt1 p) (salt2 p)) as [xh|] eqn:Ex.
  - rewrite (srp_compute_at p Hl Hp password xh a (x, (s, t, w)) Ex). split; [by apply conn_kept_refl|].
    split_and!; try done; cbn [fst snd]; try apply sha256_len.
  - unfold srp_compute, srp_secret. rewrite bind_ret_l.
    rewrite (bind_Done _ _ _ _ _ (exp_at p Hl Hp _ _ _)), Ex. by split; [apply conn_kept_refl|].
Qed.

Lemma check_password_safe p password :
  length (srp_p p) = 256%nat -> 0 < srp_N p ->
  cx_safe no_inv (auth_2fa_check_password tinf cfg p password) any_result.
Proof.
  intros Hl Hp. unfold auth_2fa_check_password. cx_step; [intros; apply cx_fail|]. intros _.
  eapply cx_bind.
  - change (srp_compute p password None) with
      (a ← on_snd (on_snd (crypto_rand_bytes 256)); srp_compute (X := Z * RpcError) p password (Some a)).
    eapply cx_bind; [apply cx_rand|]. intros a _. by apply srp_compute_safe.
  - intros [A M1] [HA HM]. cbn [fst snd] in *.
    eapply cx_exchange; [exact _|done|done|counts_tac| |lia|lia|done|].
    + assert (zlen A = 256 /\ zlen M1 = 32) as [HzA HzM] by (unfold zlen; lia).
      wdata. rewrite !zlen_app, !enc32_len, enc64_len.
      pose proof (enc_bytes_bound A). pose proof (enc_bytes_bound M1). lia.
    + intros resp Hz _. apply cx_parser; [unfold SIZE_LIM; lia|apply px_checked].
Qed.

End Password.
