(* ===== verification/LoginTheorems.v ===== *)
(** * Login, 2FA, transfer and logout: theorems (src/infrastructure/auth_*.c)

    The SRP proof is the one the server expects; what the parsers store; all
    calls are safe whatever the server answers; logout always clears the
    store; the user id of the current schema is misread. *)

From S2P Require Import Prelude TlSerial TlLogic TlCrc TlSkipBase TlSkipSafe TlRefine World.
From S2P Require Import MtprotoSession Transport WireTheorems MtprotoRpc RpcCorrect ApiCall ApiCorrect Request.
From S2P Require Import RpcTheorems CallLogic BigNum FileSys SessionStore Login Auth2fa LoginCorrect.

#[local] Open Scope Z_scope.

(** ** Two-factor authentication *)

Section Srp.
Context `{C : Crypto} {HC : CryptoLaws C} `{K : Kdf} `{B : BigNum} {HB : BigNumLaws B}.

(** (C11) For the right password the proof is the one the server expects: with a
    server that made its number [B] from the verifier of the password, [A] is
    the public number of the client's secret and [M1] is the hash over the
    secret the server computes. *)
Theorem srp_proof_accepted {X} p password x a b (st : X * (MtProtoSession * Transport * World)) :
  length (srp_p p) = 256%nat -> 0 < srp_N p -> has_password p = true ->
  zlen (salt1 p) <= SRP_SALT_MAX -> password_hash p password = Some x -> 0 <= b ->
  srp_B p = server_public p (verifier p x) b ->
  exists A, be_combine A = srp_gen p ^ be_combine a mod srp_N p /\
    auth_2fa_srp_compute p password (Some a) st = Done (A, server_M1 p (verifier p x) b A) st.
Proof.
  intros Hl Hp Hh Hs Hx Hb HB0. rewrite <- compute_x_hash in Hx by done.
  pose proof (be_combine_range a). pose proof (be_combine_range x).
  exists (be_split 256 (srp_gen p ^ be_combine a mod srp_N p)).
  split; [by apply residue|]. unfold auth_2fa_srp_compute. rewrite Hh. cbn [negb].
  rewrite (srp_compute_at p Hl Hp password x a st Hx). unfold server_M1, server_secret.
  set (A := be_split 256 (srp_gen p ^ be_combine a mod srp_N p)).
  assert (HBv : be_combine (srp_B p) = (srp_k p * verifier p x + srp_gen p ^ b) mod srp_N p)
    by (rewrite HB0; unfold server_public; by apply residue).
  assert (Hu : 0 <= srp_u p A) by apply be_combine_range.
  pose proof (srp_shared (srp_gen p) (be_combine a) b (be_combine x) (srp_u p A) (srp_k p) (srp_N p))
    as E. cbn zeta in E. fold (verifier p x) in E.
  assert (HA : be_combine A = srp_gen p ^ be_combine a mod srp_N p) by by apply residue.
  rewrite HBv, E by lia. by rewrite HA.
Qed.

End Srp.

Definition toy_kdf : Kdf := {|
  PKCS5_PBKDF2_HMAC password salt iters n := Some (replicate (Z.to_nat n) Byte.x07);
|}.

Definition toy_pw0 : Account2faPassword :=
  mkPassword true 99 [] 5 (replicate 255 Byte.x00 ++ [Byte.x17]) [Byte.x01]
    (replicate 31 Byte.x00 ++ [Byte.x03]).
Definition toy_password : list byte := [Byte.x70; Byte.x77].
Definition toy_x : list byte :=
  default [] (compute_x (C := toy_crypto) (K := toy_kdf) toy_password (salt1 toy_pw0) (salt2 toy_pw0)).
Definition toy_v : Z := verifier toy_pw0 toy_x.
Definition toy_pw : Account2faPassword :=
  set_srp_B (server_public (C := toy_crypto) toy_pw0 toy_v 6) toy_pw0.

Lemma srp_proof_accepted_witness :
  exists A, be_combine A = srp_gen toy_pw ^ be_combine [Byte.x09] mod srp_N toy_pw /\
    auth_2fa_srp_compute (C := toy_crypto) (K := toy_kdf) (B := bignum_Z) toy_pw toy_password
        (Some [Byte.x09]) (tt, (sample_session, sample_transport, answering_world [])) =
      Done (A, server_M1 (C := toy_crypto) toy_pw (verifier toy_pw toy_x) 6 A)
           (tt, (sample_session, sample_transport, answering_world [])).
Proof.
  refine (srp_proof_accepted (C := toy_crypto) (K := toy_kdf) (B := bignum_Z) toy_pw toy_password
    toy_x [Byte.x09] 6 (tt, (sample_session, sample_transport, answering_world [])) _ _ _ _ _ _ _);
    first [vm_compute; reflexivity | vm_compute; discriminate | lia].
Defined.

(** *** account.getPassword *)

Definition kdf_algo (s1 s2 : list byte) (g : Z) (p : list byte) : list byte :=
  enc32 CRC_KdfAlgoPBKDF2 ++ enc_bytes s1 ++ enc_bytes s2 ++ enc32 g ++ enc_bytes p.

Definition optional (c : bool) (bs : list byte) : list byte := if c then bs else [].

Lemma parses_kdf_algo (x : Account2faPassword * RpcError) s1 s2 g p :
  zlen s1 <= 128 -> zlen s2 <= 128 -> is_s32 g -> zlen p = 256 ->
  parses parse_password_kdf_algo x (kdf_algo s1 s2 g p) tt (set_algo g p s1 s2 (fst x), snd x).
Proof.
  intros H1 H2 Hg Hp. unfold parse_password_kdf_algo, kdf_algo, upd_pw.
  pose proof (enc_bytes_bound s1). pose proof (zlen_nonneg (enc_bytes p)).
  pose proof (zlen_nonneg (enc_bytes s1)). pose proof (zlen_nonneg (enc_bytes s2)).
  parses_step; [rewrite !zlen_app, !enc32_len; lia|].
  parses_step; [done|]. change (CRC_KdfAlgoPBKDF2 =? CRC_KdfAlgoUnknown) with false.
  cbn [negb]. rewrite Z.eqb_refl. cbn [negb].
  parses_step; [lia|]. parses_step; [lia|]. cbn [default from_option id].
  rewrite (proj2 (Z.ltb_ge SRP_SALT_MAX (zlen s1)) H1), (proj2 (Z.ltb_ge SRP_SALT_MAX (zlen s2)) H2).
  cbn [orb]. parses_step; [rewrite !zlen_app, !enc32_len; lia|]. parses_step; [done|].
  apply parses_end. parses_step; [lia|]. cbn [default from_option id]. rewrite Hp.
  change (256 =? SRP_PRIME_LEN) with true. cbn [negb]. parses_step.
Qed.

Lemma parses_optional_string (x : Account2faPassword * RpcError) c d :
  zlen d < 2 ^ 24 -> parses (when c (lift tl_skip_string)) x (optional c (enc_bytes d)) tt x.
Proof.
  intros Hd. apply parses_when; intros ->; [|done]. cbn. by apply parses_lift, reads_skip_string.
Qed.

(** A password set whose parameters are announced with two salts, a generator,
    a 256-byte prime, the server's number and an id is stored as announced,
    whatever follows. *)
Theorem get_password_fields `{C : Crypto} tinf cfg x st st' flags s1 s2 g p Bn id hint email tl :
  is_u32 flags -> flag flags 2 = true -> zlen s1 <= 128 -> zlen s2 <= 128 -> is_s32 g ->
  zlen p = 256 -> 0 < zlen Bn <= 256 -> is_s64 id -> zlen hint < 2 ^ 24 -> zlen email < 2 ^ 24 ->
  zlen tl <= 2 ^ 32 ->
  api_call tinf cfg (enc32 CRC_account_getPassword) 2048 st =
    Done (enc32 CRC_account_password ++ enc32 flags ++ kdf_algo s1 s2 g p ++ enc_bytes Bn ++
          enc64 id ++ optional (flag flags 3) (enc_bytes hint) ++
          optional (flag flags 4) (enc_bytes email) ++ tl) st' ->
  auth_2fa_get_password tinf cfg (x, st) =
    Done tt ((mkPassword true id (pad_prime Bn) g p s1 s2, snd x), st').
Proof.
  intros Hfl H2 Hs1 Hs2 Hg Hp HBn Hid Hh He Htl Ha. unfold auth_2fa_get_password.
  rewrite (bind_Done _ _ _ tt ((password_zero, snd x), st)) by done.
  rewrite (bind_Done _ _ _ (enc32 CRC_account_getPassword) ((password_zero, snd x), st))
    by (apply copy_query_at; first [by counts_tac|by wdata|by rewrite enc32_len]).
  rewrite (bind_Done _ _ _ _ _ (call_api_at tinf cfg _ _ (password_zero, snd x) _ _ _ Ha)).
  erewrite (bind_Done (check_top _ _ _)) by (by apply check_top_at).
  eapply with_parser_at with (bs := enc32 CRC_account_password ++ enc32 flags ++
    (kdf_algo s1 s2 g p ++ enc_bytes Bn ++ enc64 id) ++ optional (flag flags 3) (enc_bytes hint) ++
    optional (flag flags 4) (enc_bytes email)) (tl := tl);
    [|by rewrite <- !app_assoc|].
  - unfold parse_password, upd_pw. parses_step; [done|]. parses_step; [done|]. parses_step.
    rewrite H2. eapply parses_bind; [|eapply parses_bind; by apply parses_optional_string].
    eapply parses_bind; [by apply parses_kdf_algo|]. parses_step; [lia|]. cbn beta iota.
    rewrite (proj2 (Z.eqb_neq (zlen Bn) 0)), (proj2 (Z.ltb_ge SRP_PRIME_LEN (zlen Bn)))
      by (unfold SRP_PRIME_LEN; lia).
    cbn [orb]. parses_step. parses_step; [by rewrite enc64_len|].
    apply parses_end. parses_step; [done|]. parses_step.
  - unfold kdf_algo, optional. rewrite !zlen_app, !enc32_len, enc64_len. unfold SIZE_LIM.
    pose proof (enc_bytes_bound s1). pose proof (enc_bytes_bound s2). pose proof (enc_bytes_bound p).
    pose proof (enc_bytes_bound Bn). pose proof (enc_bytes_bound hint).
    pose proof (enc_bytes_bound email). destruct (flag flags 3), (flag flags 4); rewrite ?zlen_nil; lia.
Qed.

(** ** The user id *)

Lemma enc64_halves v : enc64 v = enc32 v ++ enc32 (Z.shiftr v 32).
Proof. unfold enc64, enc32, le_split. by rewrite !Z.shiftr_shiftr by lia. Qed.

(** A word in front of a long, read as a long. *)
Lemma enc32_enc64 w v : is_u32 w ->
  enc32 w ++ enc64 v = enc64 (u64 (w + 2 ^ 32 * v)) ++ enc32 (Z.shiftr v 32).
Proof.
  intros Hw. rewrite enc64_u64, (enc64_halves v), (enc64_halves (w + _)), <- app_assoc.
  f_equal; [|f_equal].
  - rewrite <- (enc32_u32 (w + _)). unfold u32. rewrite Z.mul_comm, Z.mod_add by lia.
    by rewrite Z.mod_small by apply Hw.
  - rewrite (Z.shiftr_div_pow2 (w + _)), Z.mul_comm, Z.div_add by lia.
    by rewrite Z.div_small by apply Hw.
Qed.

(** auth.authorization without optional fields around a user of the current
    schema, whose second word of flags stands in front of the id. *)
Definition authorization (user flags : Z) (rest : list byte) : list byte :=
  enc32 TL_auth_authorization ++ enc32 0 ++ enc32 user ++ enc32 flags ++ rest.

Lemma parses_authorization (x : SignInOut * RpcError) user flags id :
  user = TL_user \/ user = TL_user2 -> is_u32 flags -> is_s64 id ->
  parses parse_authorization x (authorization user flags (enc64 id)) tt (set_user_id id (fst x), snd x).
Proof.
  intros Hu Hf Hid. unfold parse_authorization, authorization, upd_signed.
  parses_step; [done|]. parses_step; [done|].
  apply parses_skip; [done|].
  parses_step; [destruct Hu; by subst|].
  apply parses_if; [destruct Hu; by subst|]. intros _.
  parses_step; [done|]. apply parses_end. parses_step; [done|]. parses_step.
Qed.

Lemma parses_checked (x : Z * RpcError) user flags id :
  user = TL_user \/ user = TL_user2 -> is_u32 flags -> is_s64 id ->
  parses parse_checked x (authorization user flags (enc64 id)) tt (id, snd x).
Proof.
  intros Hu Hf Hid. unfold parse_checked, authorization.
  parses_step; [done|]. parses_step; [done|].
  apply parses_skip; [done|].
  parses_step; [destruct Hu; by subst|].
  apply parses_if; [|destruct Hu; by subst]. intros _.
  parses_step; [done|]. intros r tl Hwf Hr.
  destruct (remaining_at r (enc64 id) tl Hwf Hr) as [_ Hle]; [by rewrite enc64_len|].
  rewrite (bind_Done _ _ _ (remaining r) (r, x)) by done. rewrite enc64_len in Hle.
  rewrite (proj2 (Z.leb_le _ _)) by lia. cbn [when].
  assert (Hp : parses (uid ← lift tl_read_int64; set_ctx (fun x : Z * RpcError => (uid, snd x)))
                 x (enc64 id) tt (id, snd x)).
  { apply parses_end. parses_step; [done|]. parses_step. }
  by eapply Hp.
Qed.

(** [auth_sign_in], [auth_sign_up] and [auth_2fa_check_password] take the id
    right behind one word of flags.  That is the layout of the constructor
    3ff6ecb0; for 83314fca, which they accept as well, the result is made of
    the second word of flags and the low half of the id. *)
Theorem authorization_user_id flags flags2 id tl (x : SignInOut * RpcError) (y : Z * RpcError) {W} (st : W) :
  is_u32 flags -> is_u32 flags2 -> is_s64 id -> zlen tl <= 2 ^ 32 ->
  let old := authorization TL_user flags (enc64 id ++ tl) in
  let new := authorization TL_user2 flags (enc32 flags2 ++ enc64 id ++ tl) in
  let misread := s64 (u64 (flags2 + 2 ^ 32 * id)) in
  with_parser old parse_authorization (x, st) = Done tt ((set_user_id id (fst x), snd x), st) /\
  with_parser old parse_checked (y, st) = Done tt ((id, snd y), st) /\
  with_parser new parse_authorization (x, st) = Done tt ((set_user_id misread (fst x), snd x), st) /\
  with_parser new parse_checked (y, st) = Done tt ((misread, snd y), st).
Proof.
  intros Hf Hf2 Hid Htl old new misread.
  assert (Hm : is_s64 misread) by apply s64_range.
  assert (Hb : new = authorization TL_user2 flags (enc64 misread) ++ enc32 (Z.shiftr id 32) ++ tl).
  { unfold new, authorization. rewrite (app_assoc (enc32 flags2)), enc32_enc64 by done.
    unfold misread. rewrite <- (enc64_u64 (s64 _)).
    assert (E : u64 (s64 (u64 (flags2 + 2 ^ 32 * id))) = u64 (flags2 + 2 ^ 32 * id)).
    { unfold s64, u64. rewrite Zminus_mod, Zmod_mod, <- Zminus_mod, Z.add_simpl_r. apply Zmod_mod. }
    by rewrite E, <- !app_assoc. }
  assert (Hz : forall u r, zlen r <= 2 ^ 33 -> zlen (authorization u flags r) <= SIZE_LIM).
  { intros u r Hr. unfold authorization, SIZE_LIM. rewrite !zlen_app, !enc32_len. lia. }
  assert (Ho : old = authorization TL_user flags (enc64 id) ++ tl)
    by (unfold old, authorization; by rewrite <- !app_assoc).
  split_and!.
  - eapply with_parser_at; [|exact Ho|]; [apply parses_authorization; auto|].
    apply Hz. rewrite zlen_app, enc64_len. lia.
  - eapply with_parser_at; [|exact Ho|]; [apply parses_checked; auto|].
    apply Hz. rewrite zlen_app, enc64_len. lia.
  - eapply with_parser_at; [|exact Hb|]; [apply parses_authorization; auto|].
    apply Hz. rewrite !zlen_app, enc32_len, enc64_len. lia.
  - eapply with_parser_at; [|exact Hb|]; [apply parses_checked; auto|].
    apply Hz. rewrite !zlen_app, enc32_len, enc64_len. lia.
Qed.

Lemma authorization_user_id_witness :
  with_parser (authorization TL_user2 1 (enc32 0 ++ enc64 777000 ++ [])) parse_checked ((0, no_error), tt) =
    Done tt ((s64 (u64 (0 + 2 ^ 32 * 777000)), no_error), tt).
Proof.
  refine (proj2 (proj2 (proj2 (authorization_user_id 1 0 777000 [] (mkSignIn 0 0, no_error)
    (0, no_error) tt _ _ _ _)))); unfold is_u32, is_s64, zlen; cbn [length]; lia.
Defined.

(** ** Login codes *)

(** Run a query up to the parser, with the answer [Ha]. *)
Ltac exchange_with Ha :=
  erewrite exchange_at;
    [| | | | |exact Ha|done|done|apply Z.eqb_refl];
    [|counts_tac|wdata; rewrite <- ?app_assoc; reflexivity| |].

Definition sent_code (flags ty len : Z) (hash : list byte) (next time : Z) : list byte :=
  enc32 CRC_auth_sentCode ++ enc32 flags ++ (enc32 ty ++ enc32 len) ++ enc_bytes hash ++
  optional (flag flags 1) (enc32 next) ++ optional (flag flags 2) (enc32 time).

Definition plain_code_type (ty : Z) : Prop :=
  ty = CRC_auth_sentCodeTypeApp \/ ty = CRC_auth_sentCodeTypeSms \/ ty = CRC_auth_sentCodeTypeCall.

Lemma plain_code_type_u32 ty : plain_code_type ty -> is_u32 ty.
Proof. by intros [->|[->| ->]]. Qed.

Lemma reads_code_type ty len :
  plain_code_type ty -> is_s32 len -> reads read_sent_code_type (enc32 ty ++ enc32 len) ty.
Proof.
  intros Ht Hl r tl Hwf Hr. change (rd r) with r in *. unfold read_sent_code_type.
  destruct (remaining_at r _ tl Hwf Hr) as [Hok _]; [by rewrite zlen_app, !enc32_len|].
  rewrite (bind_Done _ _ _ true r) by (unfold ask_ok; by rewrite Hok). cbn [negb].
  assert (Hp : reads (type_crc ← tl_read_uint32;
    if (type_crc =? CRC_auth_sentCodeTypeApp) || (type_crc =? CRC_auth_sentCodeTypeSms)
       || (type_crc =? CRC_auth_sentCodeTypeCall) then tl_read_int32 ;; mret type_crc
    else if type_crc =? CRC_auth_sentCodeTypeFlashCall then tl_read_string ;; mret type_crc
    else mret 0) (enc32 ty ++ enc32 len) ty).
  { eapply reads_bind; [by apply reads_uint32, plain_code_type_u32|].
    assert (E : (ty =? CRC_auth_sentCodeTypeApp) || (ty =? CRC_auth_sentCodeTypeSms)
       || (ty =? CRC_auth_sentCodeTypeCall) = true) by (by destruct Ht as [->|[->| ->]]).
    rewrite E, <- (app_nil_r (enc32 len)). eapply reads_bind; [by apply reads_int32|].
    apply reads_ret. }
  by eapply Hp.
Qed.

(** A hash without NUL that fits its array is stored with the type, the next
    type and the timeout that were announced, zero where there was none. *)
Theorem send_code_fields `{C : Crypto} tinf cfg phone x st st' flags ty len hash next time tl :
  is_u32 flags -> plain_code_type ty -> is_s32 len -> cstr hash = hash -> zlen hash < 128 ->
  is_u32 next -> is_s32 time -> short phone -> short (default [] (api_hash cfg)) ->
  zlen phone + zlen (default [] (api_hash cfg)) <= 4000 -> zlen tl <= 2 ^ 32 ->
  api_call tinf cfg
    (enc32 CRC_auth_sendCode ++ enc_bytes phone ++ enc32 (api_id cfg) ++
     enc_bytes (default [] (api_hash cfg)) ++ enc32 CRC_codeSettings ++ enc32 0) RESP_BUF_SIZE st =
    Done (sent_code flags ty len hash next time ++ tl) st' ->
  auth_send_code tinf cfg phone (x, st) =
    Done tt ((mkSentCode hash (if flag flags 2 then time else 0) ty
                (if flag flags 1 then next else 0), no_error), st').
Proof.
  intros Hfl Ht Hl Hc Hh Hn Htm Hp Hah Hq Htl Ha. unfold auth_send_code, build_send_code.
  rewrite (bind_Done _ _ _ tt (set_err no_error x, st)) by done.
  pose proof (enc_bytes_bound phone). pose proof (enc_bytes_bound (default [] (api_hash cfg))).
  unfold short in *. unfold sent_code in Ha. rewrite <- app_assoc in Ha.
  pose proof (zlen_nonneg phone). pose proof (zlen_nonneg (default [] (api_hash cfg))).
  exchange_with Ha; [|rewrite !zlen_app, !enc32_len; lia..].
  eapply with_parser_at with (tl := tl) (bs := sent_code flags ty len hash next time);
    [|unfold sent_code; by rewrite <- !app_assoc|].
  - unfold parse_sent_code, sent_code, upd_sent. parses_step; [done|]. parses_step; [done|].
    eapply parses_bind; [by apply parses_lift, reads_code_type|].
    parses_step. rewrite (proj2 (Z.eqb_neq ty 0)) by (by destruct Ht as [->|[->| ->]]).
    parses_step; [lia|]. cbn beta iota. unfold strlen. rewrite Hc.
    rewrite (proj2 (Z.leb_gt AUTH_CODE_HASH_MAX (zlen hash))) by done.
    do 2 parses_step.
    eapply parses_bind.
    { apply (parses_when _ _ _ _ (set_next_type (if flag flags 1 then next else 0) (set_next_type 0
        (set_hash hash (set_code_type ty (fst x)))), no_error)); intros ->.
      - apply parses_end. parses_step; [done|]. parses_step.
      - done. }
    parses_step.
    apply parses_when; intros ->.
    + apply parses_end. parses_step; [done|]. parses_step.
    + done.
  - unfold SIZE_LIM, optional. rewrite !zlen_app, !enc32_len. pose proof (enc_bytes_bound hash).
    destruct (flag flags 1), (flag flags 2); rewrite ?enc32_len; change (zlen (@nil byte)) with 0; lia.
Qed.

(** The state behind a call that the sample peer answers with [body]. *)
Definition answered (query : list byte) (max_len : Z) (body : list byte) :=
  match api_call (C := toy_crypto) store_tinf api_config_init query max_len
          (sample_session, sample_transport, answering_world body) with
  | Done _ st => st
  | _ => (sample_session, sample_transport, answering_world body)
  end.

Lemma answered_at query max_len body :
  match api_call (C := toy_crypto) store_tinf api_config_init query max_len
          (sample_session, sample_transport, answering_world body) with
  | Done b _ => bool_decide (b = body)
  | _ => false
  end = true ->
  api_call (C := toy_crypto) store_tinf api_config_init query max_len
    (sample_session, sample_transport, answering_world body) = Done body (answered query max_len body).
Proof.
  unfold answered. destruct (api_call _ _ _ _ _) as [b st|st| |]; try done.
  by intros ->%bool_decide_eq_true.
Qed.

Definition toy_phone : list byte := ascii "+3670"%string.
Definition toy_hash : list byte := ascii "h4sh"%string.
Definition toy_sent : list byte :=
  sent_code 6 CRC_auth_sentCodeTypeSms 5 toy_hash 0x72a3158c 60 ++ [].
Definition toy_send : list byte :=
  enc32 CRC_auth_sendCode ++ enc_bytes toy_phone ++ enc32 0 ++ enc_bytes [] ++
  enc32 CRC_codeSettings ++ enc32 0.

Lemma toy_sent_answered :
  api_call (C := toy_crypto) store_tinf api_config_init toy_send RESP_BUF_SIZE
    (sample_session, sample_transport, answering_world toy_sent) =
  Done toy_sent (answered toy_send RESP_BUF_SIZE toy_sent).
Proof. apply answered_at. vm_cast_no_check (eq_refl true). Qed.

Lemma send_code_fields_witness :
  auth_send_code (C := toy_crypto) store_tinf api_config_init toy_phone
      ((mkSentCode [] 0 0 0, no_error), (sample_session, sample_transport, answering_world toy_sent)) =
    Done tt ((mkSentCode toy_hash (if flag 6 2 then 60 else 0) CRC_auth_sentCodeTypeSms
                (if flag 6 1 then 0x72a3158c else 0), no_error),
             answered toy_send RESP_BUF_SIZE toy_sent).
Proof.
  refine (send_code_fields (C := toy_crypto) store_tinf api_config_init toy_phone
    (mkSentCode [] 0 0 0, no_error) _ _ 6 CRC_auth_sentCodeTypeSms 5 toy_hash 0x72a3158c 60 []
    _ _ _ _ _ _ _ _ _ _ _ toy_sent_answered); first [done | by right; left | by vm_compute].
Defined.

Definition toy_params : list byte :=
  enc32 CRC_account_password ++ enc32 12 ++ kdf_algo [Byte.x01] [Byte.x02; Byte.x03] 5 (srp_p toy_pw) ++
  enc_bytes [Byte.x0b] ++ enc64 99 ++ optional (flag 12 3) (enc_bytes toy_hash) ++
  optional (flag 12 4) (enc_bytes []) ++ [].

Lemma toy_params_answered :
  api_call (C := toy_crypto) store_tinf api_config_init (enc32 CRC_account_getPassword) 2048
    (sample_session, sample_transport, answering_world toy_params) =
  Done toy_params (answered (enc32 CRC_account_getPassword) 2048 toy_params).
Proof. apply answered_at. vm_cast_no_check (eq_refl true). Qed.

Lemma get_password_fields_witness :
  auth_2fa_get_password (C := toy_crypto) store_tinf api_config_init
      ((password_zero, no_error), (sample_session, sample_transport, answering_world toy_params)) =
    Done tt ((mkPassword true 99 (pad_prime [Byte.x0b]) 5 (srp_p toy_pw) [Byte.x01] [Byte.x02; Byte.x03],
              no_error), answered (enc32 CRC_account_getPassword) 2048 toy_params).
Proof.
  refine (get_password_fields (C := toy_crypto) store_tinf api_config_init (password_zero, no_error)
    _ _ 12 [Byte.x01] [Byte.x02; Byte.x03] 5 (srp_p toy_pw) [Byte.x0b] 99 toy_hash [] []
    _ _ _ _ _ _ _ _ _ _ _ toy_params_answered);
    first [done | by vm_compute | unfold is_s32, is_s64, zlen; cbn [length]; lia].
Defined.

(** ** Safety *)

(** (C17) Whatever the server answers and however the connection behaves, every
    function of the login layer ends without leaving a buffer, keeps the key
    and the id of the session, and what it stored fits: a code hash its
    array, an exported token its array, the parameters of a password their
    arrays. *)
Theorem login_calls_safe `{C : Crypto} {HC : CryptoLaws C} `{K : Kdf} `{B : BigNum} {HB : BigNumLaws B}
    tinf cfg phone hash code first_name last_name dc inp p password :
  cfg_small cfg -> tinf_fits tinf -> short (default [] (api_hash cfg)) ->
  short phone -> short hash -> short code -> short first_name -> short (default [] last_name) ->
  length (srp_p p) = 256%nat -> 0 < srp_N p ->
  cx_safe code_inv (auth_send_code tinf cfg phone) any_result /\
  cx_safe no_inv (auth_sign_in tinf cfg phone hash code) any_result /\
  cx_safe no_inv (auth_sign_up tinf cfg phone hash first_name last_name) any_result /\
  cx_safe code_inv (auth_resend_code tinf cfg phone) any_result /\
  cx_safe exported_inv (auth_transfer_export tinf cfg dc) any_result /\
  cx_safe no_inv (auth_transfer_import tinf cfg inp) any_result /\
  cx_safe pw_inv (auth_2fa_get_password tinf cfg) any_result /\
  cx_safe no_inv (auth_2fa_check_password tinf cfg p password) any_result.
Proof.
  intros. split_and!; [by apply send_code_safe | by apply sign_in_safe | by apply sign_up_safe
    | by apply resend_code_safe | by apply transfer_export_safe | by apply transfer_import_safe
    | by apply get_password_safe | by apply check_password_safe].
Qed.

Lemma store_tinf_fits : tinf_fits store_tinf.
Proof.
  intros cap gz out. unfold store_tinf. destruct (Z.ltb_spec cap (zlen gz)); [done|]. by intros [= <-].
Qed.

Lemma login_calls_safe_witness :
  cx_safe code_inv (auth_send_code (C := toy_crypto) store_tinf api_config_init toy_phone) any_result.
Proof.
  refine (proj1 (login_calls_safe (C := toy_crypto) (K := toy_kdf) (B := bignum_Z) store_tinf
    api_config_init toy_phone toy_hash toy_hash toy_hash None 2 (mkExported 0 []) toy_pw toy_password
    _ store_tinf_fits _ _ _ _ _ _ _ _)); first [done | by vm_compute].
Defined.

(** ** Moving an authorization *)

(** The id and the token that one data centre exports are the ones that the
    import sends to the other. *)
Theorem transfer_round_trip `{C : Crypto} tinf cfg dc x st st' id token tl e st2 :
  is_s64 id -> 0 < zlen token <= AUTH_TRANSFER_BYTES_MAX -> zlen tl <= 2 ^ 32 ->
  api_call tinf cfg (enc32 TL_auth_exportAuthorization ++ enc32 dc) RESP_BUF_SIZE st =
    Done (enc32 TL_auth_exportedAuthorization ++ enc64 id ++ enc_bytes token ++ tl) st' ->
  auth_transfer_export tinf cfg dc (x, st) = Done tt ((mkExported id token, no_error), st') /\
  auth_transfer_import tinf cfg (mkExported id token) (e, st2) =
    (resp ← call_api tinf cfg (enc32 TL_auth_importAuthorization ++ enc64 id ++ enc_bytes token)
              RESP_BUF_SIZE;
     check_top (fun e _ => e)
       (fun c => (c =? TL_auth_authorization) || (c =? TL_auth_authorizationSignUpRequired)) resp)
    (no_error, st2).
Proof.
  unfold AUTH_TRANSFER_BYTES_MAX. intros Hid Hz Htl Ha. pose proof (enc_bytes_bound token).
  split.
  - unfold auth_transfer_export.
    rewrite (bind_Done _ _ _ tt ((mkExported 0 [], no_error), st)) by done.
    exchange_with Ha; [|rewrite zlen_app, !enc32_len; lia..].
    eapply with_parser_at with (tl := tl)
      (bs := enc32 TL_auth_exportedAuthorization ++ enc64 id ++ enc_bytes token);
      [|by rewrite <- !app_assoc|rewrite !zlen_app, enc32_len, enc64_len; unfold SIZE_LIM; lia].
    unfold parse_exported. parses_step; [done|]. parses_step; [done|]. parses_step.
    apply parses_end. parses_step; [lia|]. cbn beta iota. unfold AUTH_TRANSFER_BYTES_MAX.
    rewrite (proj2 (Z.eqb_neq _ _)), (proj2 (Z.ltb_ge _ _)) by lia. cbn [orb]. parses_step.
  - unfold auth_transfer_import. cbn [ex_bytes ex_id]. unfold AUTH_TRANSFER_BYTES_MAX.
    rewrite (proj2 (Z.eqb_neq _ _)), (proj2 (Z.ltb_ge _ _)) by lia. cbn [orb].
    rewrite (bind_Done _ _ _ tt (no_error, st2)) by done. by wdata.
Qed.

Definition toy_exported : list byte :=
  enc32 TL_auth_exportedAuthorization ++ enc64 7 ++ enc_bytes [Byte.x0b] ++ [].

Lemma toy_exported_answered :
  api_call (C := toy_crypto) store_tinf api_config_init
    (enc32 TL_auth_exportAuthorization ++ enc32 4) RESP_BUF_SIZE
    (sample_session, sample_transport, answering_world toy_exported) =
  Done toy_exported (answered (enc32 TL_auth_exportAuthorization ++ enc32 4) RESP_BUF_SIZE toy_exported).
Proof. apply answered_at. vm_cast_no_check (eq_refl true). Qed.

Lemma transfer_round_trip_witness :
  auth_transfer_export (C := toy_crypto) store_tinf api_config_init 4
    ((mkExported 0 [], no_error), (sample_session, sample_transport, answering_world toy_exported)) =
  Done tt ((mkExported 7 [Byte.x0b], no_error),
           answered (enc32 TL_auth_exportAuthorization ++ enc32 4) RESP_BUF_SIZE toy_exported).
Proof.
  refine (proj1 (transfer_round_trip (C := toy_crypto) store_tinf api_config_init 4
    (mkExported 0 [], no_error) _ _ 7 [Byte.x0b] [] no_error
    (sample_session, sample_transport, answering_world []) _ _ _ toy_exported_answered));
    first [done | by vm_compute | unfold is_s64; lia].
Defined.

(** ** Logout *)

(** Logging out always ends with the local session gone and the registered
    callback run, whatever the server or the connection does; only key, id
    and salt handling of the connection are involved. *)
Theorem logout_clears_store `{C : Crypto} {HC : CryptoLaws C} tinf cfg cb s t w fs :
  cfg_small cfg -> tinf_fits tinf -> session_wf s ->
  exists p s' w', auth_logout tinf cfg cb (s, t, w) = Done p (s', t, w') /\ conn_kept s s' /\
    exists fs', fs_names fs' !! store_path = None /\
      complete p fs = complete (default (mret tt) cb) fs'.
Proof.
  intros Hcfg Hf Hwf. pose proof (logout_rpc_safe tinf cfg Hcfg Hf s t w Hwf) as Hr.
  unfold auth_logout. set (p := session_store_clear ;; _).
  assert (Hp : exists fs', fs_names fs' !! store_path = None /\
                 complete p fs = complete (default (mret tt) cb) fs').
  { unfold p, session_store_clear. cbn -[store_path].
    destruct (fs_names fs !! store_path) as [i|] eqn:E; cbn -[store_path].
    - eexists. split; [|reflexivity]. cbn. by rewrite lookup_delete_eq.
    - by exists fs. }
  destruct (auth_logout_rpc tinf cfg (s, t, w)) as [u [[s' t'] w']|[[s' t'] w']| |]; try done.
  - destruct Hr as (Hs & -> & _). by exists p, s', w'.
  - destruct Hr as (Hs & ->). by exists p, s', w'.
Qed.

Lemma logout_clears_store_witness :
  exists p s' w', auth_logout (C := toy_crypto) store_tinf api_config_init None
      (sample_session, sample_transport, answering_world []) = Done p (s', sample_transport, w') /\
    conn_kept sample_session s' /\
    exists fs', fs_names fs' !! store_path = None /\
      complete p (mkFS ∅ ∅ ∅ ∅ 0) = complete (default (mret tt) None) fs'.
Proof.
  refine (logout_clears_store (C := toy_crypto) store_tinf api_config_init None sample_session
    sample_transport (answering_world []) (mkFS ∅ ∅ ∅ ∅ 0) _ store_tinf_fits sample_session_wf).
  by vm_compute.
Defined.
