(* ===== verification/Wcwidth.v ===== *)
(** * Column widths of characters (src/core/wcwidth.c)

    The two tables of intervals, the binary search over them and the width
    function.  An access to a table outside its bounds and a search that does
    not end are [None]; the theorem shows that neither happens, and that the
    search finds exactly the members, although one interval of the wide table
    lies inside its predecessor. *)

From S2P Require Import Prelude.

#[local] Open Scope Z_scope.

(** ** Binary search *)

(** [struct interval]: first and last code point. *)
Definition interval : Type := Z * Z.

Definition WCWIDTH_FUEL : nat := 400.

(** The loop; [min] and [max] are [int]s. *)
Fixpoint bisearch_loop (fuel : nat) (cp : Z) (table : list interval) (min max : Z) : option bool :=
  match fuel with
  | O => None
  | S fuel =>
      if max <? min then Some false
      else
        let mid := (min + max) / 2 in
        '(first, last) ← table !! Z.to_nat mid;
        if last <? cp then bisearch_loop fuel cp table (mid + 1) max
        else if cp <? first then bisearch_loop fuel cp table min (mid - 1)
        else Some true
  end.

Definition bisearch (cp : Z) (table : list interval) (max : Z) : option bool :=
  '(first, _) ← table !! O;
  '(_, last) ← table !! Z.to_nat max;
  if (cp <? first) || (last <? cp) then Some false
  else bisearch_loop WCWIDTH_FUEL cp table 0 max.

(** ** The tables *)

Definition s_combining : list interval := [
  (0x0000, 0x001F); (0x007F, 0x009F); (0x0300, 0x036F); (0x0483, 0x0489); (0x0591, 0x05BD);
  (0x05BF, 0x05BF); (0x05C1, 0x05C2); (0x05C4, 0x05C5); (0x05C7, 0x05C7); (0x0600, 0x0605);
  (0x0610, 0x061A); (0x061C, 0x061C); (0x064B, 0x065F); (0x0670, 0x0670); (0x06D6, 0x06DD);
  (0x06DF, 0x06E4); (0x06E7, 0x06E8); (0x06EA, 0x06ED); (0x070F, 0x070F); (0x0711, 0x0711);
  (0x0730, 0x074A); (0x07A6, 0x07B0); (0x07EB, 0x07F3); (0x07FD, 0x07FD); (0x0816, 0x0823);
  (0x0825, 0x0827); (0x0829, 0x082D); (0x0859, 0x085B); (0x0898, 0x089F); (0x08CA, 0x08E1);
  (0x08E3, 0x0902); (0x093A, 0x093A); (0x093C, 0x093C); (0x0941, 0x0948); (0x094D, 0x094D);
  (0x0951, 0x0957); (0x0962, 0x0963); (0x0981, 0x0981); (0x09BC, 0x09BC); (0x09C1, 0x09C4);
  (0x09CD, 0x09CD); (0x09E2, 0x09E3); (0x09FE, 0x09FE); (0x0A01, 0x0A02); (0x0A3C, 0x0A3C);
  (0x0A41, 0x0A42); (0x0A47, 0x0A48); (0x0A4B, 0x0A4D); (0x0A51, 0x0A51); (0x0A70, 0x0A71);
  (0x0A75, 0x0A75); (0x0A81, 0x0A82); (0x0ABC, 0x0ABC); (0x0AC1, 0x0AC5); (0x0AC7, 0x0AC8);
  (0x0ACD, 0x0ACD); (0x0AE2, 0x0AE3); (0x0AFA, 0x0AFF); (0x0B01, 0x0B01); (0x0B3C, 0x0B3C);
  (0x0B3F, 0x0B3F); (0x0B41, 0x0B44); (0x0B4D, 0x0B4D); (0x0B55, 0x0B56); (0x0B62, 0x0B63);
  (0x0B82, 0x0B82); (0x0BC0, 0x0BC0); (0x0BCD, 0x0BCD); (0x0C00, 0x0C00); (0x0C04, 0x0C04);
  (0x0C3C, 0x0C3C); (0x0C3E, 0x0C40); (0x0C46, 0x0C48); (0x0C4A, 0x0C4D); (0x0C55, 0x0C56);
  (0x0C62, 0x0C63); (0x0C81, 0x0C81); (0x0CBC, 0x0CBC); (0x0CBF, 0x0CBF); (0x0CC6, 0x0CC6);
  (0x0CCC, 0x0CCD); (0x0CE2, 0x0CE3); (0x0D00, 0x0D01); (0x0D3B, 0x0D3C); (0x0D41, 0x0D44);
  (0x0D4D, 0x0D4D); (0x0D62, 0x0D63); (0x0D81, 0x0D81); (0x0DCA, 0x0DCA); (0x0DD2, 0x0DD4);
  (0x0DD6, 0x0DD6); (0x0E31, 0x0E31); (0x0E34, 0x0E3A); (0x0E47, 0x0E4E); (0x0EB1, 0x0EB1);
  (0x0EB4, 0x0EBC); (0x0EC8, 0x0ECE); (0x0F18, 0x0F19); (0x0F35, 0x0F35); (0x0F37, 0x0F37);
  (0x0F39, 0x0F39); (0x0F71, 0x0F7E); (0x0F80, 0x0F84); (0x0F86, 0x0F87); (0x0F8D, 0x0F97);
  (0x0F99, 0x0FBC); (0x0FC6, 0x0FC6); (0x102D, 0x1030); (0x1032, 0x1037); (0x1039, 0x103A);
  (0x103D, 0x103E); (0x1058, 0x1059); (0x105E, 0x1060); (0x1071, 0x1074); (0x1082, 0x1082);
  (0x1085, 0x1086); (0x108D, 0x108D); (0x109D, 0x109D); (0x135D, 0x135F); (0x1712, 0x1714);
  (0x1732, 0x1733); (0x1752, 0x1753); (0x1772, 0x1773); (0x17B4, 0x17B5); (0x17B7, 0x17BD);
  (0x17C6, 0x17C6); (0x17C9, 0x17D3); (0x17DD, 0x17DD); (0x180B, 0x180F); (0x1885, 0x1886);
  (0x18A9, 0x18A9); (0x1920, 0x1922); (0x1927, 0x1928); (0x1932, 0x1932); (0x1939, 0x193B);
  (0x1A17, 0x1A18); (0x1A1B, 0x1A1B); (0x1A56, 0x1A56); (0x1A58, 0x1A5E); (0x1A60, 0x1A60);
  (0x1A62, 0x1A62); (0x1A65, 0x1A6C); (0x1A73, 0x1A7C); (0x1A7F, 0x1A7F); (0x1AB0, 0x1ACE);
  (0x1B00, 0x1B03); (0x1B34, 0x1B34); (0x1B36, 0x1B3A); (0x1B3C, 0x1B3C); (0x1B42, 0x1B42);
  (0x1B6B, 0x1B73); (0x1B80, 0x1B81); (0x1BA2, 0x1BA5); (0x1BA8, 0x1BA9); (0x1BAB, 0x1BAD);
  (0x1BE6, 0x1BE6); (0x1BE8, 0x1BE9); (0x1BED, 0x1BED); (0x1BEF, 0x1BF1); (0x1C2C, 0x1C33);
  (0x1C36, 0x1C37); (0x1CD0, 0x1CD2); (0x1CD4, 0x1CE0); (0x1CE2, 0x1CE8); (0x1CED, 0x1CED);
  (0x1CF4, 0x1CF4); (0x1CF8, 0x1CF9); (0x1DC0, 0x1DFF); (0x200B, 0x200F); (0x202A, 0x202E);
  (0x2060, 0x2064); (0x2066, 0x206F); (0x20D0, 0x20F0); (0x2CEF, 0x2CF1); (0x2D7F, 0x2D7F);
  (0x2DE0, 0x2DFF); (0x302A, 0x302D); (0x3099, 0x309A); (0xA66F, 0xA672); (0xA674, 0xA67D);
  (0xA69E, 0xA69F); (0xA6F0, 0xA6F1); (0xA802, 0xA802); (0xA806, 0xA806); (0xA80B, 0xA80B);
  (0xA825, 0xA826); (0xA82C, 0xA82C); (0xA8C4, 0xA8C5); (0xA8E0, 0xA8F1); (0xA8FF, 0xA8FF);
  (0xA926, 0xA92D); (0xA947, 0xA951); (0xA980, 0xA982); (0xA9B3, 0xA9B3); (0xA9B6, 0xA9B9);
  (0xA9BC, 0xA9BD); (0xA9E5, 0xA9E5); (0xAA29, 0xAA2E); (0xAA31, 0xAA32); (0xAA35, 0xAA36);
  (0xAA43, 0xAA43); (0xAA4C, 0xAA4C); (0xAA7C, 0xAA7C); (0xAAB0, 0xAAB0); (0xAAB2, 0xAAB4);
  (0xAAB7, 0xAAB8); (0xAABE, 0xAABF); (0xAAC1, 0xAAC1); (0xAAEC, 0xAAED); (0xAAF6, 0xAAF6);
  (0xABE5, 0xABE5); (0xABE8, 0xABE8); (0xABED, 0xABED); (0xFB1E, 0xFB1E); (0xFE00, 0xFE0F);
  (0xFE20, 0xFE2F); (0xFEFF, 0xFEFF); (0xFFF9, 0xFFFB); (0x101FD, 0x101FD); (0x102E0, 0x102E0);
  (0x10376, 0x1037A); (0x10A01, 0x10A0F); (0x10A38, 0x10A3A); (0x10A3F, 0x10A3F);
  (0x10AE5, 0x10AE6); (0x10D24, 0x10D27); (0x10EAB, 0x10EAC); (0x10F46, 0x10F50);
  (0x10F82, 0x10F85); (0x11001, 0x11001); (0x11038, 0x11046); (0x11070, 0x11070);
  (0x11073, 0x11074); (0x1107F, 0x11081); (0x110B3, 0x110B6); (0x110B9, 0x110BA);
  (0x110C2, 0x110C2); (0x11100, 0x11102); (0x11127, 0x1112B); (0x1112D, 0x11134);
  (0x11173, 0x11173); (0x11180, 0x11181); (0x111B6, 0x111BE); (0x111C9, 0x111CC);
  (0x111CF, 0x111CF); (0x1122F, 0x11231); (0x11234, 0x11234); (0x11236, 0x11237);
  (0x1123E, 0x1123E); (0x112DF, 0x112DF); (0x112E3, 0x112EA); (0x11300, 0x11301);
  (0x1133B, 0x1133C); (0x11340, 0x11340); (0x11366, 0x1136C); (0x11370, 0x11374);
  (0x11438, 0x1143F); (0x11442, 0x11444); (0x11446, 0x11446); (0x1145E, 0x1145E);
  (0x114B3, 0x114B8); (0x114BA, 0x114BA); (0x114BF, 0x114C0); (0x114C2, 0x114C3);
  (0x115B2, 0x115B5); (0x115BC, 0x115BD); (0x115BF, 0x115C0); (0x115DC, 0x115DD);
  (0x11633, 0x1163A); (0x1163D, 0x1163D); (0x1163F, 0x11640); (0x116AB, 0x116AB);
  (0x116AD, 0x116AD); (0x116B0, 0x116B5); (0x116B7, 0x116B7); (0x1171D, 0x1171F);
  (0x11722, 0x11725); (0x11727, 0x1172B); (0x1182F, 0x11837); (0x11839, 0x1183A);
  (0x1193B, 0x1193C); (0x1193E, 0x1193E); (0x11943, 0x11943); (0x119D4, 0x119D7);
  (0x119DA, 0x119DB); (0x119E0, 0x119E0); (0x11A01, 0x11A0A); (0x11A33, 0x11A38);
  (0x11A3B, 0x11A3E); (0x11A47, 0x11A47); (0x11A51, 0x11A56); (0x11A59, 0x11A5B);
  (0x11A8A, 0x11A96); (0x11A98, 0x11A99); (0x11C30, 0x11C36); (0x11C38, 0x11C3D);
  (0x11C3F, 0x11C3F); (0x11C92, 0x11CA7); (0x11CAA, 0x11CB0); (0x11CB2, 0x11CB3);
  (0x11CB5, 0x11CB6); (0x11D31, 0x11D36); (0x11D3A, 0x11D3A); (0x11D3C, 0x11D3D);
  (0x11D3F, 0x11D45); (0x11D47, 0x11D47); (0x11D90, 0x11D91); (0x11D95, 0x11D95);
  (0x11D97, 0x11D97); (0x11EF3, 0x11EF4); (0x16AF0, 0x16AF4); (0x16B30, 0x16B36);
  (0x16F4F, 0x16F4F); (0x16F8F, 0x16F92); (0x16FE4, 0x16FE4); (0x1BC9D, 0x1BC9E);
  (0x1BCA0, 0x1BCA3); (0x1CF00, 0x1CF2D); (0x1CF30, 0x1CF46); (0x1D167, 0x1D169);
  (0x1D173, 0x1D182); (0x1D185, 0x1D18B); (0x1D1AA, 0x1D1AD); (0x1D242, 0x1D244);
  (0x1DA00, 0x1DA36); (0x1DA3B, 0x1DA6C); (0x1DA75, 0x1DA75); (0x1DA84, 0x1DA84);
  (0x1DA9B, 0x1DA9F); (0x1DAA1, 0x1DAAF); (0x1E000, 0x1E006); (0x1E008, 0x1E018);
  (0x1E01B, 0x1E021); (0x1E023, 0x1E024); (0x1E026, 0x1E02A); (0x1E130, 0x1E136);
  (0x1E2AE, 0x1E2AE); (0x1E2EC, 0x1E2EF); (0x1E4EC, 0x1E4EF); (0x1E8D0, 0x1E8D6);
  (0x1E944, 0x1E94A); (0xE0001, 0xE0001); (0xE0020, 0xE007F); (0xE0100, 0xE01EF)].

Definition COMBINING_LEN : Z := zlen s_combining.

Definition s_wide : list interval := [
  (0x1100, 0x115F); (0x231A, 0x231B); (0x2329, 0x232A); (0x23E9, 0x23F3); (0x23F8, 0x23FA);
  (0x25FD, 0x25FE); (0x2614, 0x2615); (0x2648, 0x2653); (0x267F, 0x267F); (0x2693, 0x2693);
  (0x26A1, 0x26A1); (0x26AA, 0x26AB); (0x26BD, 0x26BE); (0x26C4, 0x26C5); (0x26CE, 0x26CE);
  (0x26D4, 0x26D4); (0x26EA, 0x26EA); (0x26F2, 0x26F3); (0x26F5, 0x26F5); (0x26FA, 0x26FA);
  (0x26FD, 0x26FD); (0x2702, 0x2702); (0x2705, 0x2705); (0x2708, 0x270D); (0x270F, 0x270F);
  (0x2712, 0x2712); (0x2714, 0x2714); (0x2716, 0x2716); (0x271D, 0x271D); (0x2721, 0x2721);
  (0x2728, 0x2728); (0x2733, 0x2734); (0x2744, 0x2744); (0x2747, 0x2747); (0x274C, 0x274C);
  (0x274E, 0x274E); (0x2753, 0x2755); (0x2757, 0x2757); (0x2763, 0x2764); (0x2795, 0x2797);
  (0x27A1, 0x27A1); (0x27B0, 0x27B0); (0x27BF, 0x27BF); (0x2934, 0x2935); (0x2B05, 0x2B07);
  (0x2B1B, 0x2B1C); (0x2B50, 0x2B50); (0x2B55, 0x2B55); (0x2E80, 0x2EFF); (0x2F00, 0x2FDF);
  (0x2FE0, 0x2FEF); (0x2FF0, 0x2FFF); (0x3000, 0x303E); (0x3041, 0x33FF); (0x3400, 0x4DBF);
  (0x4DC0, 0x4DFF); (0x4E00, 0x9FFF); (0xA000, 0xA4CF); (0xA490, 0xA4C6); (0xA960, 0xA97F);
  (0xAC00, 0xD7A3); (0xF900, 0xFAFF); (0xFE10, 0xFE19); (0xFE30, 0xFE6F); (0xFF00, 0xFF60);
  (0xFFE0, 0xFFE6); (0x1B000, 0x1B12F); (0x1B150, 0x1B152); (0x1B164, 0x1B167);
  (0x1B170, 0x1B2FF); (0x1F004, 0x1F004); (0x1F0CF, 0x1F0CF); (0x1F18E, 0x1F18E);
  (0x1F191, 0x1F19A); (0x1F1E0, 0x1F1FF); (0x1F201, 0x1F201); (0x1F21A, 0x1F21A);
  (0x1F22F, 0x1F22F); (0x1F232, 0x1F23A); (0x1F250, 0x1F251); (0x1F300, 0x1F64F);
  (0x1F680, 0x1F6FF); (0x1F774, 0x1F77F); (0x1F7D5, 0x1F7FF); (0x1F80C, 0x1F80F);
  (0x1F848, 0x1F84F); (0x1F85A, 0x1F85F); (0x1F888, 0x1F88F); (0x1F8AE, 0x1F8FF);
  (0x1F90C, 0x1F93A); (0x1F93C, 0x1F945); (0x1F947, 0x1FAFF); (0x1FB00, 0x1FBFF);
  (0x20000, 0x2FFFD); (0x30000, 0x3FFFD)].

Definition WIDE_LEN : Z := zlen s_wide.

(** ** The width *)

Definition core_wcwidth (cp : Z) : option Z :=
  if cp =? 0 then Some 0
  else
    combining ← bisearch cp s_combining (COMBINING_LEN - 1);
    if (combining : bool) then Some 0
    else
      wide ← bisearch cp s_wide (WIDE_LEN - 1);
      if (wide : bool) then Some 2 else Some 1.

(** ** Specification *)

Definition in_interval (cp : Z) (i : interval) : bool := (fst i <=? cp) && (cp <=? snd i).

Definition member (cp : Z) (table : list interval) : bool := existsb (in_interval cp) table.

(** A code point is as wide as the tables say. *)
Definition width (cp : Z) : Z :=
  if (cp =? 0) || member cp s_combining then 0 else if member cp s_wide then 2 else 1.

(** What the search needs of a table, checked along every path it can take:
    no interval before the middle one ends behind it, none after it starts
    before it. *)
Fixpoint search_ok (fuel : nat) (table : list interval) (min max : Z) : bool :=
  match fuel with
  | O => false
  | S fuel =>
      if max <? min then true
      else
        let mid := (min + max) / 2 in
        match table !! Z.to_nat mid with
        | None => false
        | Some (first, last) =>
            forallb (fun i => snd i <=? last) (take (Z.to_nat (mid - min)) (drop (Z.to_nat min) table)) &&
            forallb (fun i => first <=? fst i)
              (take (Z.to_nat (max - mid)) (drop (Z.to_nat (mid + 1)) table)) &&
            search_ok fuel table min (mid - 1) && search_ok fuel table (mid + 1) max
        end
  end.

Definition table_ok (table : list interval) : bool :=
  match table !! O, table !! Z.to_nat (zlen table - 1) with
  | Some (first, _), Some (_, last) =>
      forallb (fun i => (first <=? fst i) && (snd i <=? last)) table &&
      search_ok WCWIDTH_FUEL table 0 (zlen table - 1)
  | _, _ => false
  end.

(** ** The search is membership *)

(** The entries [min .. max] of a table. *)
Definition segment (table : list interval) (min max : Z) : list interval :=
  take (Z.to_nat (max - min + 1)) (drop (Z.to_nat min) table).

Lemma segment_split table min max mid i :
  0 <= min <= mid -> mid <= max -> table !! Z.to_nat mid = Some i ->
  segment table min max = segment table min (mid - 1) ++ i :: segment table (mid + 1) max.
Proof.
  intros Hm Hx Hi. unfold segment. pose proof (lookup_lt_Some _ _ _ Hi) as Hl.
  replace (Z.to_nat (max - min + 1)) with
    (Z.to_nat (mid - 1 - min + 1) + S (Z.to_nat (max - (mid + 1) + 1)))%nat by lia.
  rewrite <- take_take_drop. f_equal. rewrite drop_drop.
  replace (Z.to_nat min + Z.to_nat (mid - 1 - min + 1))%nat with (Z.to_nat mid) by lia.
  rewrite (drop_S _ _ _ Hi). cbn [take]. do 3 f_equal. lia.
Qed.

Lemma segment_empty table min max : max < min -> segment table min max = [].
Proof. intros H. unfold segment. replace (Z.to_nat (max - min + 1)) with O by lia. done. Qed.

Lemma member_app cp l k : member cp (l ++ k) = member cp l || member cp k.
Proof. apply existsb_app. Qed.

Lemma member_none cp l : forallb (fun i => negb (in_interval cp i)) l = true -> member cp l = false.
Proof.
  induction l as [|i l IH]; [done|]. cbn. intros [Hi Hl]%andb_true_iff.
  rewrite (proj1 (negb_true_iff _) Hi). by apply IH.
Qed.

Lemma forallb_weaken {A} (f g : A -> bool) l :
  (forall x, f x = true -> g x = true) -> forallb f l = true -> forallb g l = true.
Proof.
  intros Hfg. rewrite !forallb_forall. intros Hf x Hx. by apply Hfg, Hf.
Qed.

Lemma bisearch_loop_member fuel cp table min max :
  0 <= min -> max < zlen table -> search_ok fuel table min max = true ->
  bisearch_loop fuel cp table min max = Some (member cp (segment table min max)).
Proof.
  revert min max. induction fuel as [|fuel IH]; intros min max Hm Hx; [done|].
  cbn [search_ok bisearch_loop]. destruct (Z.ltb_spec max min) as [He|He].
  - by rewrite segment_empty.
  - set (mid := (min + max) / 2). assert (Hmid : min <= mid <= max).
    { unfold mid. split; [apply Z.div_le_lower_bound|apply Z.div_le_upper_bound]; lia. }
    destruct (table !! Z.to_nat mid) as [[first last]|] eqn:Hi; [|done].
    intros [[[Hlo Hhi]%andb_true_iff Hl]%andb_true_iff Hr]%andb_true_iff.
    rewrite (segment_split table min max mid _) by (lia || done).
    rewrite member_app. cbn [mbind option_bind member existsb].
    unfold in_interval at 1. cbn [fst snd].
    destruct (Z.ltb_spec last cp) as [H1|H1]; [|destruct (Z.ltb_spec cp first) as [H2|H2]].
    + rewrite IH by (lia || done). rewrite (member_none cp (segment table min (mid - 1))).
      * cbn [orb]. by rewrite (proj2 (Z.leb_gt cp last)), andb_false_r by lia.
      * unfold segment. replace (mid - 1 - min + 1) with (mid - min) by lia.
        eapply forallb_weaken; [|exact Hlo]. intros i. unfold in_interval. lia.
    + rewrite IH by (lia || done). fold (member cp (segment table (mid + 1) max)).
      rewrite (member_none cp (segment table (mid + 1) max)).
      * by rewrite (proj2 (Z.leb_gt first cp)), orb_false_r by lia.
      * unfold segment. replace (max - (mid + 1) + 1) with (max - mid) by lia.
        eapply forallb_weaken; [|exact Hhi]. intros i. unfold in_interval. lia.
    + rewrite (proj2 (Z.leb_le first cp)), (proj2 (Z.leb_le cp last)) by lia.
      by rewrite orb_true_r.
Qed.

Lemma bisearch_member cp table :
  table_ok table = true -> bisearch cp table (zlen table - 1) = Some (member cp table).
Proof.
  unfold table_ok, bisearch.
  destruct (table !! O) as [[first f2]|] eqn:H0; [|done].
  destruct (table !! Z.to_nat (zlen table - 1)) as [[l1 last]|] eqn:H1; [|done].
  intros [Hb Hs]%andb_true_iff. cbn [mbind option_bind].
  assert (Hseg : segment table 0 (zlen table - 1) = table).
  { unfold segment. apply take_ge. cbn [Z.to_nat drop]. unfold zlen. lia. }
  destruct ((cp <? first) || (last <? cp)) eqn:E.
  - f_equal. symmetry. apply member_none. eapply forallb_weaken; [|exact Hb].
    intros i. cbn beta. unfold in_interval. lia.
  - rewrite bisearch_loop_member by (lia || done). by rewrite Hseg.
Qed.

Lemma combining_ok : table_ok s_combining = true.
Proof. by vm_compute. Qed.

Lemma wide_ok : table_ok s_wide = true.
Proof. by vm_compute. Qed.

(** (C34) For every code point the function reads only inside its tables, ends,
    and returns 0 for NUL and for a member of the combining table, 2 for any
    other member of the wide table and 1 for the rest. *)
Theorem core_wcwidth_spec cp : core_wcwidth cp = Some (width cp).
Proof.
  unfold core_wcwidth, width, COMBINING_LEN, WIDE_LEN.
  rewrite !bisearch_member by apply combining_ok || apply wide_ok.
  destruct (cp =? 0); [done|]. cbn [mbind option_bind orb].
  destruct (member cp s_combining); [done|]. cbn [mbind option_bind].
  by destruct (member cp s_wide).
Qed.
