(* ===== verification/Text.v ===== *)
(** * Text for output (src/tui/text_safe.c, src/core/pii_redact.c,
    src/core/json_util.c)

    Each function fills an array of the caller, the state of the monad; a
    write outside it and a read behind the terminator of the input are
    [Fault]. *)

From Stdlib Require Import String.
From S2P Require Import Prelude CLib.

#[local] Open Scope Z_scope.

(** ** Arrays *)

(** [buf[i] = b;] *)
Definition poke (i : Z) (b : byte) : M (list byte) unit := fun buf =>
  if (0 <=? i) && (i <? zlen buf) then Done tt (<[Z.to_nat i := b]> buf) else Fault.

(** [memcpy(buf + i, bs, n)] *)
Fixpoint poke_str (i : Z) (bs : list byte) : M (list byte) unit :=
  match bs with
  | [] => mret tt
  | b :: bs => poke i b ;; poke_str (i + 1) bs
  end.

(** [s[i]] of a string: its terminator is its last readable byte. *)
Definition peek (s : list byte) (i : nat) : option byte := (s ++ [Byte.x00]) !! i.

(** A read that may be out of bounds. *)
Definition checked {S A} (o : option A) : M S A := fun s =>
  match o with Some a => Done a s | None => Fault end.

(** [snprintf(out, cap, s)] with a constant string. *)
Definition print_const (cap : Z) (s : list byte) : M (list byte) unit :=
  poke_str 0 (snprintf_s cap s ++ [Byte.x00]).

(** ** Bidi controls (src/tui/text_safe.c) *)

(** [a && b] *)
Definition and_then (a b : option bool) : option bool :=
  x ← a; if (x : bool) then b else Some false.

(** [s[i]] has a property. *)
Definition at_is (s : list byte) (i : nat) (f : Z -> bool) : option bool :=
  (fun b => f (byte.unsigned b)) <$> peek s i.

Definition bidi_len (s : list byte) : option nat :=
  arabic ← and_then (at_is s 0 (Z.eqb 0xD8)) (at_is s 1 (Z.eqb 0x9C));
  if (arabic : bool) then Some 2%nat
  else
    marks ← and_then (at_is s 0 (Z.eqb 0xE2)) (and_then (at_is s 1 (Z.eqb 0x80))
              (at_is s 2 (fun b => (b =? 0x8E) || (b =? 0x8F) || ((0xAA <=? b) && (b <=? 0xAE)))));
    if (marks : bool) then Some 3%nat
    else
      isolates ← and_then (at_is s 0 (Z.eqb 0xE2)) (and_then (at_is s 1 (Z.eqb 0x81))
                   (at_is s 2 (fun b => (0xA6 <=? b) && (b <=? 0xA9))));
      Some (if (isolates : bool) then 3%nat else 0%nat).

(** The length the first byte announces. *)
Definition lead_len (b : Z) : nat :=
  if b <? 0x80 then 1 else if 0xF0 <=? b then 4 else if 0xE0 <=? b then 3
  else if 0xC2 <=? b then 2 else 1.

(** The loop over the continuation bytes [i .. i + k - 1]. *)
Fixpoint continued (s : list byte) (i k : nat) : option bool :=
  match k with
  | O => Some true
  | S k =>
      ok ← at_is s i (fun b => Z.land b 0xC0 =? 0x80);
      if (ok : bool) then continued s (S i) k else Some false
  end.

Definition char_len (s : list byte) : option nat :=
  b ← peek s 0;
  let n := lead_len (byte.unsigned b) in
  ok ← continued s 1 (n - 1);
  Some (if (ok : bool) then n else 1%nat).

(** The loop of [tui_text_strip_bidi]: [p] is what is left of the input. *)
Fixpoint strip_loop (fuel : nat) (cap : Z) (p : list byte) (o : Z) : M (list byte) Z :=
  match fuel with
  | O => no_fuel
  | S fuel =>
      b ← checked (peek p 0);
      if byte.unsigned b =? 0 then mret o
      else
        skip ← checked (bidi_len p);
        if (0 <? skip)%nat then strip_loop fuel cap (drop skip p) o
        else
          n ← checked (char_len p);
          if cap <=? o + Z.of_nat n then mret o
          else
            poke_str o (take n p) ;;
            strip_loop fuel cap (drop n p) (o + Z.of_nat n)
  end.

(** [out] is not [NULL]. *)
Definition tui_text_strip_bidi (inp : option (list byte)) (cap : Z) : M (list byte) Z :=
  if cap =? 0 then mret 0
  else
    poke 0 Byte.x00 ;;
    match inp with
    | None => mret 0
    | Some p =>
        o ← strip_loop (S (length p)) cap p 0;
        poke o Byte.x00 ;;
        mret o
    end.

(** ** Phone numbers (src/core/pii_redact.c) *)

Definition plus : byte := Byte.x2b.
Definition star : byte := Byte.x2a.
Definition full_mask : list byte := ascii "+****".

Definition redact_phone (phone : option (list byte)) (cap : Z) : M (list byte) unit :=
  if cap =? 0 then mret tt
  else
    match phone with
    | None | Some [] => print_const cap (ascii "(null)")
    | Some (c :: t) =>
        let digits := if Byte.eqb c plus then t else c :: t in
        let dlen := zlen digits in
        if dlen <? 5 then print_const cap full_mask
        else
          let keep := 4 in
          let mask := dlen - keep in
          let needed := 1 + mask + keep + 1 in
          if cap <? needed then print_const cap full_mask
          else
            poke 0 plus ;;
            poke_str 1 (replicate (Z.to_nat mask) star) ;;
            poke_str (1 + mask) (take 4 (drop (Z.to_nat mask) digits)) ;;
            poke (1 + mask + keep) Byte.x00
    end.

(** ** JSON strings (src/core/json_util.c) *)

(** [PUSH(c)]: the counter also counts what does not fit. *)
Definition push (cap : Z) (c : byte) (out : Z) : M (list byte) Z :=
  if out + 1 <? cap then poke out c ;; mret (out + 1) else mret (out + 1).

Fixpoint push_all (cap : Z) (cs : list byte) (out : Z) : M (list byte) Z :=
  match cs with
  | [] => mret out
  | c :: cs => out ← push cap c out; push_all cap cs out
  end.

(** A lower-case hexadecimal digit. *)
Definition hex_digit (v : Z) : byte := byte.of_Z (if v <? 10 then 48 + v else 87 + v).

(** What the [switch] pushes for one byte. *)
Definition escape_byte (c : byte) : list byte :=
  match c with
  | Byte.x22 => [Byte.x5c; Byte.x22]
  | Byte.x5c => [Byte.x5c; Byte.x5c]
  | Byte.x08 => [Byte.x5c; Byte.x62]
  | Byte.x0c => [Byte.x5c; Byte.x66]
  | Byte.x0a => [Byte.x5c; Byte.x6e]
  | Byte.x0d => [Byte.x5c; Byte.x72]
  | Byte.x09 => [Byte.x5c; Byte.x74]
  | _ =>
      let v := byte.unsigned c in
      if v <? 0x20 then
        [Byte.x5c; Byte.x75; Byte.x30; Byte.x30; hex_digit (v / 16); hex_digit (v mod 16)]
      else [c]
  end.

Fixpoint json_loop (cap : Z) (src : list byte) (out : Z) : M (list byte) Z :=
  match src with
  | [] => mret out
  | c :: src => out ← push_all cap (escape_byte c) out; json_loop cap src out
  end.

Definition json_escape_str (cap : Z) (src : option (list byte)) : M (list byte) Z :=
  if cap =? 0 then mret 0
  else
    out ← json_loop cap (default [] src) 0;
    (if out <? cap then poke out Byte.x00 else poke (cap - 1) Byte.x00) ;;
    mret out.
