(* ===== verification/TextTheorems.v ===== *)
(** * Text for output: lemmas and theorems

    Writing an array from its front; well-formed characters, the bidi
    controls and the two functions that measure them. *)

From Stdlib Require Import String.
From S2P Require Import Prelude CLib Text.

#[local] Open Scope Z_scope.

(** ** Writing an array from the front *)

Lemma poke_at w b x rest : poke (zlen w) b (w ++ x :: rest) = Done tt (w ++ b :: rest).
Proof.
  unfold poke. pose proof (zlen_nonneg w). pose proof (zlen_nonneg rest).
  rewrite zlen_app, zlen_cons, (proj2 (Z.leb_le _ _)), (proj2 (Z.ltb_lt _ _)) by lia. cbn [andb].
  unfold zlen. rewrite Nat2Z.id, insert_app_r_alt, Nat.sub_diag by lia. done.
Qed.

Lemma poke_str_at w bs old rest :
  length old = length bs -> poke_str (zlen w) bs (w ++ old ++ rest) = Done tt (w ++ bs ++ rest).
Proof.
  revert w old. induction bs as [|b bs IH]; intros w old Hl; destruct old as [|x old]; try done.
  cbn [poke_str app]. rewrite (bind_Done _ _ _ tt (w ++ b :: old ++ rest)) by apply poke_at.
  replace (zlen w + 1) with (zlen (w ++ [b])) by (unfold zlen; rewrite length_app; cbn; lia).
  replace (w ++ b :: old ++ rest) with ((w ++ [b]) ++ old ++ rest) by by rewrite <- app_assoc.
  rewrite IH by (cbn in Hl; lia). by rewrite <- app_assoc.
Qed.

(** The same for an array whose length is only known to suffice. *)
Lemma poke_str_room w bs rest :
  zlen bs <= zlen rest ->
  poke_str (zlen w) bs (w ++ rest) = Done tt (w ++ bs ++ drop (length bs) rest).
Proof.
  intros Hl. rewrite <- (take_drop (length bs) rest) at 1. apply poke_str_at.
  rewrite length_take. unfold zlen in Hl. lia.
Qed.

Lemma poke_room w b rest :
  0 < zlen rest -> poke (zlen w) b (w ++ rest) = Done tt (w ++ b :: drop 1 rest).
Proof. destruct rest as [|x rest]; [done|]. intros _. apply poke_at. Qed.

Lemma cstr_terminated l rest : no_nul l -> cstr (l ++ Byte.x00 :: rest) = l.
Proof.
  induction 1 as [|b l Hb _ IH]; [done|]. cbn. destruct (Byte.eqb b Byte.x00) eqn:E.
  - apply Byte.byte_dec_bl in E. done.
  - by rewrite IH.
Qed.

(** ** Bidi controls *)

(** A well-formed character: the lead byte announces its length, the others
    are continuation bytes, and it is not NUL. *)
Definition is_cont (b : byte) : bool := Z.land (byte.unsigned b) 0xC0 =? 0x80.

Definition utf8_char (c : list byte) : bool :=
  match c with
  | b :: t =>
      negb (byte.unsigned b =? 0) && Nat.eqb (length c) (lead_len (byte.unsigned b)) &&
      (Nat.eqb (length c) 1 && (byte.unsigned b <? 0x80) ||
       Nat.ltb 1 (length c) && forallb is_cont t)
  | [] => false
  end.

(** The twelve controls that the header lists, by code point, and their
    encoding. *)
Definition bidi_controls : list Z :=
  [0x061C; 0x200E; 0x200F; 0x202A; 0x202B; 0x202C; 0x202D; 0x202E; 0x2066; 0x2067; 0x2068; 0x2069].

Definition utf8_encode (cp : Z) : list byte :=
  map byte.of_Z
    (if cp <? 0x80 then [cp]
     else if cp <? 0x800 then [Z.lor 0xC0 (Z.shiftr cp 6); Z.lor 0x80 (Z.land cp 0x3F)]
     else if cp <? 0x10000 then
       [Z.lor 0xE0 (Z.shiftr cp 12); Z.lor 0x80 (Z.land (Z.shiftr cp 6) 0x3F);
        Z.lor 0x80 (Z.land cp 0x3F)]
     else [Z.lor 0xF0 (Z.shiftr cp 18); Z.lor 0x80 (Z.land (Z.shiftr cp 12) 0x3F);
           Z.lor 0x80 (Z.land (Z.shiftr cp 6) 0x3F); Z.lor 0x80 (Z.land cp 0x3F)]).

Definition is_bidi (c : list byte) : bool := existsb (fun cp => str_eq c (utf8_encode cp)) bidi_controls.

(** The longest front part of the characters that has at most [n] bytes. *)
Fixpoint fitting (n : Z) (cs : list (list byte)) : list (list byte) :=
  match cs with
  | c :: cs => if zlen c <=? n then c :: fitting (n - zlen c) cs else []
  | [] => []
  end.

(** [bidi_len] by the encodings. *)
Definition bidi_prefix (s : list byte) : nat :=
  match s with
  | Byte.xd8 :: Byte.x9c :: _ => 2
  | Byte.xe2 :: Byte.x80 :: b :: _ =>
      if (byte.unsigned b =? 0x8E) || (byte.unsigned b =? 0x8F) ||
         ((0xAA <=? byte.unsigned b) && (byte.unsigned b <=? 0xAE)) then 3 else 0
  | Byte.xe2 :: Byte.x81 :: b :: _ =>
      if (0xA6 <=? byte.unsigned b) && (byte.unsigned b <=? 0xA9) then 3 else 0
  | _ => 0
  end.

Lemma bidi_len_prefix s : bidi_len s = Some (bidi_prefix s).
Proof.
  destruct s as [|b0 s]; [done|].
  unfold bidi_len, and_then, at_is, peek. cbn [app lookup list_lookup fmap option_fmap option_map].
  destruct b0; try (by destruct s as [|? [|? ?]]);
    destruct s as [|b1 s]; try done; cbn [app lookup list_lookup];
    destruct b1; try done; destruct s as [|b2 s]; try done; by destruct b2.
Qed.

Lemma utf8_char_lead b t :
  utf8_char (b :: t) = true ->
  byte.unsigned b <> 0 /\ S (length t) = lead_len (byte.unsigned b) /\ forallb is_cont t = true /\
  (byte.unsigned b < 0x80 \/ 0xC2 <= byte.unsigned b).
Proof.
  unfold utf8_char, lead_len. cbn [length].
  intros [[Hz%negb_true_iff Hl%Nat.eqb_eq]%andb_true_iff Hc]%andb_true_iff.
  split_and!; [lia|done| |].
  - destruct t as [|x t]; [done|]. cbn [length] in *. apply orb_true_iff in Hc as [Hc|Hc]; [done|].
    by apply andb_true_iff in Hc as [_ Hc].
  - destruct t as [|x t]; cbn [length] in *;
      [change (Nat.eqb 1 1) with true in Hc; change (Nat.ltb 1 1) with false in Hc; lia|].
    destruct (Z.ltb_spec (byte.unsigned b) 0x80); [lia|].
    destruct (Z.leb_spec 0xF0 (byte.unsigned b)); [lia|].
    destruct (Z.leb_spec 0xE0 (byte.unsigned b)); [lia|].
    destruct (Z.leb_spec 0xC2 (byte.unsigned b)); [lia|]. lia.
Qed.

(** A continuation byte is no NUL and starts no control. *)
Lemma is_cont_not_nul b : is_cont b = true -> b <> Byte.x00.
Proof. by intros H ->. Qed.

Lemma bidi_prefix_cont b s : is_cont b = true -> bidi_prefix (b :: s) = 0%nat.
Proof. by destruct b. Qed.

Lemma utf8_char_no_nul c : utf8_char c = true -> no_nul c.
Proof.
  destruct c as [|b t]; [done|]. intros (Hz & _ & Hc & _)%utf8_char_lead.
  constructor; [by intros ->|]. apply Forall_forall. intros x Hx.
  apply is_cont_not_nul. by apply (proj1 (forallb_forall _ _) Hc).
Qed.

Lemma continued_app pre t r :
  forallb is_cont t = true -> continued (pre ++ t ++ r) (length pre) (length t) = Some true.
Proof.
  revert pre. induction t as [|b t IH]; intros pre; [done|].
  intros [Hb Ht]%andb_true_iff. cbn [length continued app].
  unfold at_is, peek. rewrite <- app_assoc, lookup_app_r, Nat.sub_diag by lia.
  cbn [app lookup list_lookup fmap option_fmap option_map mbind option_bind].
  unfold is_cont in Hb. rewrite Hb.
  specialize (IH (pre ++ [b])). rewrite <- app_assoc, length_app in IH. cbn [app length] in IH.
  rewrite Nat.add_1_r in IH. by apply IH.
Qed.

Lemma char_len_at c r : utf8_char c = true -> char_len (c ++ r) = Some (length c).
Proof.
  destruct c as [|b t]; [done|]. intros (_ & Hl & Hc & _)%utf8_char_lead.
  unfold char_len, peek. cbn [app lookup list_lookup mbind option_bind].
  rewrite <- Hl. replace (S (length t) - 1)%nat with (length t) by lia.
  pose proof (continued_app [b] t r Hc) as E. cbn [app length] in E. rewrite E.
  cbn [mbind option_bind length]. by rewrite Hl.
Qed.

(** A control starts exactly at a character that is one. *)
Lemma bidi_prefix_char c r :
  utf8_char c = true -> bidi_prefix (c ++ r) = if is_bidi c then length c else 0%nat.
Proof.
  destruct c as [|b t]; [done|]. intros (_ & Hl & Hc & _)%utf8_char_lead.
  destruct (decide (b = Byte.xd8)) as [->|Hd]; [|destruct (decide (b = Byte.xe2)) as [->|He]].
  - destruct t as [|x [|? ?]]; try done. by destruct x.
  - destruct t as [|x [|y [|? ?]]]; try done. cbn [app]. destruct x; try done; by destruct y.
  - cbn [app]. replace (bidi_prefix (b :: t ++ r)) with 0%nat by by destruct b.
    replace (is_bidi (b :: t)) with false; [done|]. symmetry. unfold is_bidi.
    apply not_true_iff_false. intros (cp & Hin & Heq%str_eq_true)%existsb_exists.
    cbn [bidi_controls In] in Hin. decompose [or] Hin; try done; subst cp; vm_compute in Heq; congruence.
Qed.

Definition visible (c : list byte) : bool := negb (is_bidi c).

(** No control starts anywhere in a text of visible characters. *)
Lemma bidi_prefix_visible cs k :
  Forall (fun c => utf8_char c = true /\ visible c = true) cs ->
  bidi_prefix (drop k (concat cs)) = 0%nat.
Proof.
  intros Hcs. revert k. induction Hcs as [|c cs [Hu Hv] _ IH]; intros k; cbn [concat].
  - by rewrite drop_nil.
  - destruct k as [|k].
    + rewrite drop_0, bidi_prefix_char by done. unfold visible in Hv.
      by rewrite (proj1 (negb_true_iff _) Hv).
    + destruct (Nat.lt_ge_cases (S k) (length c)) as [Hl|Hl].
      * rewrite drop_app_le by lia. destruct c as [|b t]; [done|].
        apply utf8_char_lead in Hu as (_ & _ & Hc & _). cbn [drop length] in *.
        assert (Hd : drop k t <> []) by (intros E%(f_equal length); rewrite length_drop in E; cbn in E; lia).
        destruct (drop k t) as [|x t'] eqn:E; [done|]. cbn [app]. apply bidi_prefix_cont.
        eapply forallb_forall; [exact Hc|].
        rewrite <- (take_drop k t), E. apply in_or_app. right. by left.
      * rewrite drop_app_ge by lia. apply IH.
Qed.

(** ** The loop *)

Lemma bidi_prefix_pos_len s : (bidi_prefix s <= length s)%nat.
Proof.
  destruct s as [|b0 s]; [done|]. destruct b0; try (cbn; lia);
    (destruct s as [|b1 s]; [cbn; lia|]); destruct b1; try (cbn; lia);
    (destruct s as [|b2 s]; [cbn; lia|]); cbn [bidi_prefix length]; by split_ifs; lia.
Qed.

Lemma continued_total s i k :
  (i <= length s)%nat -> exists ok, continued s i k = Some ok /\
    (ok = true -> (i + k <= length s)%nat).
Proof.
  revert i. induction k as [|k IH]; intros i Hi; [exists true; split; [done|lia]|].
  cbn [continued]. unfold at_is, peek.
  destruct (lookup_lt_is_Some_2 (s ++ [Byte.x00]) i) as [b Hb]; [rewrite length_app; cbn; lia|].
  rewrite Hb. cbn [fmap option_fmap option_map mbind option_bind].
  destruct (Z.land (byte.unsigned b) 192 =? 128) eqn:E; [|by exists false].
  destruct (IH (S i)) as (ok & Hok & Hle).
  - apply lookup_app_Some in Hb as [Hb|[Hl Hb]]; [by apply lookup_lt_Some in Hb|].
    destruct (i - length s)%nat as [|n]; [|by destruct n]. injection Hb as <-. done.
  - exists ok. split; [done|]. intros E'. specialize (Hle E'). lia.
Qed.

Lemma char_len_total b s :
  exists n, char_len (b :: s) = Some n /\ (1 <= n <= S (length s))%nat.
Proof.
  unfold char_len, peek. cbn [app lookup list_lookup mbind option_bind].
  set (n := lead_len (byte.unsigned b)). assert (Hn : (1 <= n <= 4)%nat).
  { unfold n, lead_len. split_ifs; lia. }
  destruct (continued_total (b :: s) 1 (n - 1)) as (ok & -> & Hle); [cbn; lia|].
  cbn [mbind option_bind length] in *. destruct ok; eexists; (split; [done|]); [|lia].
  specialize (Hle eq_refl). lia.
Qed.

(** * Text for output: theorems

    The filtered text has no bidi control and fits; the redacted number shows
    the last four digits and nothing else; the escaped string is a JSON
    string body for the same bytes. *)

(** ** The loop of the filter *)

Lemma checked_Some {S A} (a : A) (s : S) : checked (Some a) s = Done a s.
Proof. done. Qed.

(** One turn at a visible character that fits, and at a control. *)
Lemma strip_loop_char fuel cap b s r w rest n :
  byte.unsigned b <> 0 -> bidi_prefix (b :: s) = 0%nat -> char_len (b :: s) = Some n ->
  b :: s = r ++ drop n (b :: s) -> length r = n -> zlen w + zlen r < cap -> zlen r <= zlen rest ->
  strip_loop (S fuel) cap (b :: s) (zlen w) (w ++ rest) =
  strip_loop fuel cap (drop n (b :: s)) (zlen (w ++ r)) ((w ++ r) ++ drop n rest).
Proof.
  intros Hb Hp Hc Hr Hn Hf Hl. cbn [strip_loop]. unfold peek at 1.
  cbn [app lookup list_lookup]. rewrite (bind_Done _ _ _ b (w ++ rest)) by done.
  rewrite (proj2 (Z.eqb_neq _ _)) by done.
  rewrite (bind_Done _ _ _ 0%nat (w ++ rest)) by (by rewrite bidi_len_prefix, Hp).
  change (0 <? 0)%nat with false. cbv iota.
  rewrite (bind_Done _ _ _ n (w ++ rest)) by (by rewrite Hc).
  rewrite (proj2 (Z.leb_gt _ _)) by (unfold zlen in Hf; unfold zlen; lia).
  assert (Ht : take n (b :: s) = r).
  { rewrite Hr. rewrite <- Hn. by rewrite take_app_length. }
  rewrite Ht, (bind_Done _ _ _ tt (w ++ r ++ drop (length r) rest)) by by apply poke_str_room.
  rewrite zlen_app, Hn, <- app_assoc. replace (zlen r) with (Z.of_nat n) by (unfold zlen; lia). done.
Qed.

Lemma strip_loop_skip fuel cap b s o buf :
  byte.unsigned b <> 0 -> (0 < bidi_prefix (b :: s))%nat ->
  strip_loop (S fuel) cap (b :: s) o buf =
  strip_loop fuel cap (drop (bidi_prefix (b :: s)) (b :: s)) o buf.
Proof.
  intros Hb Hp. cbn [strip_loop]. unfold peek at 1.
  cbn [app lookup list_lookup]. rewrite (bind_Done _ _ _ b buf) by done.
  rewrite (proj2 (Z.eqb_neq _ _)) by done.
  rewrite (bind_Done _ _ _ (bidi_prefix (b :: s)) buf) by (by rewrite bidi_len_prefix).
  by rewrite (proj2 (Nat.ltb_lt _ _)).
Qed.

(** One that does not fit ends the loop, and so does the terminator. *)
Lemma strip_loop_full fuel cap b s o buf n :
  byte.unsigned b <> 0 -> bidi_prefix (b :: s) = 0%nat -> char_len (b :: s) = Some n ->
  cap <= o + Z.of_nat n -> strip_loop (S fuel) cap (b :: s) o buf = Done o buf.
Proof.
  intros Hb Hp Hc Hf. cbn [strip_loop]. unfold peek at 1.
  cbn [app lookup list_lookup]. rewrite (bind_Done _ _ _ b buf) by done.
  rewrite (proj2 (Z.eqb_neq _ _)) by done.
  rewrite (bind_Done _ _ _ 0%nat buf) by (by rewrite bidi_len_prefix, Hp).
  change (0 <? 0)%nat with false. cbv iota. rewrite (bind_Done _ _ _ n buf) by (by rewrite Hc).
  by rewrite (proj2 (Z.leb_le _ _)).
Qed.

Lemma strip_loop_nil fuel cap o buf : strip_loop (S fuel) cap [] o buf = Done o buf.
Proof. done. Qed.

(** What is left of the characters in [n] bytes. *)
Definition stripped (n : Z) (cs : list (list byte)) : list byte :=
  concat (fitting n (List.filter visible cs)).

Lemma stripped_cons n c cs :
  stripped n (c :: cs) =
  if is_bidi c then stripped n cs
  else if zlen c <=? n then c ++ stripped (n - zlen c) cs else [].
Proof.
  unfold stripped. cbn [List.filter]. unfold visible at 1.
  destruct (is_bidi c); [done|]. cbn [negb fitting]. by destruct (zlen c <=? n).
Qed.

Lemma strip_loop_chars cs fuel cap w rest :
  Forall (fun c => utf8_char c = true) cs -> (length (concat cs) < fuel)%nat ->
  zlen w + zlen rest = cap -> zlen w < cap ->
  strip_loop fuel cap (concat cs) (zlen w) (w ++ rest) =
  Done (zlen (w ++ stripped (cap - 1 - zlen w) cs))
       ((w ++ stripped (cap - 1 - zlen w) cs) ++ drop (length (stripped (cap - 1 - zlen w) cs)) rest).
Proof.
  intros Hcs. revert fuel w rest. induction Hcs as [|c cs Hc _ IH]; intros fuel w rest Hf Hr Hw.
  - destruct fuel as [|fuel]; [cbn in Hf; lia|]. cbn. by rewrite app_nil_r, drop_0.
  - destruct c as [|b t] eqn:E; [done|]. rewrite <- E in *.
    destruct (utf8_char_lead b t) as (Hz & _); [by rewrite <- E|].
    pose proof (char_len_at c (concat cs) Hc) as Hn. pose proof (bidi_prefix_char c (concat cs) Hc) as Hp.
    assert (Hx : c ++ concat cs = b :: t ++ concat cs) by by rewrite E.
    assert (Hl : (0 < length c)%nat) by (rewrite E; cbn; lia).
    cbn [concat] in *. rewrite length_app in Hf. destruct fuel as [|fuel]; [lia|].
    rewrite stripped_cons. destruct (is_bidi c).
    + rewrite Hx in *. rewrite strip_loop_skip by (done || lia).
      rewrite Hp, <- Hx, drop_app_length. apply IH; lia.
    + destruct (Z.leb_spec (zlen c) (cap - 1 - zlen w)) as [Hfit|Hno].
      * rewrite Hx in *. rewrite (strip_loop_char fuel cap b _ c w rest _ Hz Hp Hn);
          rewrite <- ?Hx, ?drop_app_length by done; [|done|done|lia|unfold zlen in *; lia].
        rewrite IH; [|lia|rewrite zlen_app; unfold zlen in *; rewrite length_drop; lia
                     |rewrite zlen_app; lia].
        rewrite (zlen_app w c), Z.sub_add_distr, length_app, <- !app_assoc.
        by rewrite drop_drop.
      * rewrite Hx in *. rewrite (strip_loop_full fuel cap b _ _ _ _ Hz Hp Hn) by (unfold zlen in *; lia).
        cbn. by rewrite app_nil_r, drop_0.
Qed.

(** ** Bidi controls *)

Lemma fitting_len n cs : 0 <= n -> zlen (concat (fitting n cs)) <= n.
Proof.
  revert n. induction cs as [|c cs IH]; intros n Hn; cbn [fitting]; [done|].
  destruct (Z.leb_spec (zlen c) n); [|done]. cbn [concat]. rewrite zlen_app.
  specialize (IH (n - zlen c)). lia.
Qed.

Lemma fitting_sub n cs P : Forall P cs -> Forall P (fitting n cs).
Proof.
  intros H. revert n. induction H as [|c cs Hc _ IH]; intros n; cbn [fitting]; [done|].
  destruct (zlen c <=? n); [|done]. constructor; [done|apply IH].
Qed.

Lemma stripped_chars n cs :
  Forall (fun c => utf8_char c = true) cs ->
  Forall (fun c => utf8_char c = true /\ visible c = true) (fitting n (List.filter visible cs)).
Proof.
  intros H. apply fitting_sub, Forall_forall. intros c [Hin Hv]%filter_In.
  split; [|done]. by eapply Forall_forall in H.
Qed.

Lemma concat_no_nul cs : Forall (fun c => utf8_char c = true) cs -> no_nul (concat cs).
Proof.
  induction 1 as [|c cs Hc _ IH]; [constructor|]. cbn. apply Forall_app.
  split; [by apply utf8_char_no_nul|done].
Qed.

(** (C31) On a text of well-formed characters the result is what fits the array of
    the text without its bidi controls, cut between two characters; no bidi
    control starts at any byte of it, and its length is returned. *)
Theorem strip_bidi_removes cs cap buf :
  Forall (fun c => utf8_char c = true) cs -> 0 < cap -> zlen buf = cap ->
  let out := concat (fitting (cap - 1) (List.filter visible cs)) in
  exists buf', tui_text_strip_bidi (Some (concat cs)) cap buf = Done (zlen out) buf' /\
    cstr buf' = out /\ zlen out < cap /\ forall k, bidi_len (drop k out) = Some 0%nat.
Proof.
  intros Hcs Hc Hb. cbn zeta. fold (stripped (cap - 1) cs).
  assert (Hlen : zlen (stripped (cap - 1) cs) <= cap - 1) by (apply fitting_len; lia).
  pose proof (stripped_chars (cap - 1) cs Hcs) as Hvis.
  destruct buf as [|x rest]; [unfold zlen in Hb; cbn in Hb; lia|].
  unfold tui_text_strip_bidi. rewrite (proj2 (Z.eqb_neq _ _)) by lia.
  rewrite (bind_Done _ _ _ tt (Byte.x00 :: rest)) by apply (poke_at []).
  pose proof (strip_loop_chars cs (S (length (concat cs))) cap [] (Byte.x00 :: rest) Hcs) as E.
  rewrite zlen_nil, Z.sub_0_r in E. cbn [app] in E.
  erewrite bind_Done by (apply E; rewrite ?zlen_cons in *; lia).
  erewrite bind_Done by (apply poke_room; unfold zlen in *; rewrite length_drop; cbn in *; lia).
  eexists. split; [done|]. split; [|split; [lia|]].
  - apply cstr_terminated, concat_no_nul. eapply Forall_impl; [|exact Hvis]. by intros ? [].
  - intros k. rewrite bidi_len_prefix. f_equal. by apply bidi_prefix_visible.
Qed.

Lemma strip_loop_safe fuel cap p w rest :
  no_nul p -> no_nul w -> (length p < fuel)%nat -> zlen w + zlen rest = cap -> zlen w < cap ->
  exists w' rest', strip_loop fuel cap p (zlen w) (w ++ rest) = Done (zlen w') (w' ++ rest') /\
    no_nul w' /\ zlen w' + zlen rest' = cap /\ zlen w' < cap.
Proof.
  revert p w rest. induction fuel as [|fuel IH]; intros p w rest Hp Hw Hf Hr Hl; [lia|].
  destruct p as [|b s]; [exists w, rest; by rewrite strip_loop_nil|].
  inversion Hp as [|? ? Hb Hs]; subst. cbn [length] in Hf.
  assert (Hz : byte.unsigned b <> 0) by (intros E; apply Hb; by apply byte.unsigned_inj).
  destruct (bidi_prefix (b :: s)) as [|k] eqn:Hk.
  - destruct (char_len_total b s) as (n & Hn & Hle).
    destruct (Z.leb_spec (zlen w + zlen rest) (zlen w + Z.of_nat n)) as [Hfull|Hfit].
    { exists w, rest. by rewrite (strip_loop_full _ _ _ _ _ _ _ Hz Hk Hn). }
    assert (Hnr : length (take n (b :: s)) = n) by (rewrite length_take; cbn [length]; lia).
    rewrite (strip_loop_char fuel _ b s (take n (b :: s)) w rest n Hz Hk Hn);
      [|by rewrite take_drop|done|unfold zlen in *; lia|unfold zlen in *; lia].
    apply IH.
    + by apply Forall_drop.
    + apply Forall_app. split; [done|]. by apply Forall_take.
    + rewrite length_drop. cbn [length]. lia.
    + rewrite zlen_app. unfold zlen in *. rewrite Hnr, length_drop. lia.
    + rewrite zlen_app. unfold zlen in *. lia.
  - rewrite strip_loop_skip, Hk by (done || lia). apply IH; try done.
    + by apply Forall_drop.
    + rewrite length_drop. cbn [length]. lia.
Qed.

(** Whatever the bytes are, the function reads and writes inside its arrays,
    ends, and leaves a string of the returned length, shorter than the
    array. *)
Theorem strip_bidi_safe p cap buf :
  no_nul p -> 0 < cap -> zlen buf = cap ->
  exists out buf', tui_text_strip_bidi (Some p) cap buf = Done (zlen out) buf' /\
    cstr buf' = out /\ zlen out < cap.
Proof.
  intros Hp Hc Hb. destruct buf as [|x rest]; [unfold zlen in Hb; cbn in Hb; lia|].
  unfold tui_text_strip_bidi. rewrite (proj2 (Z.eqb_neq _ _)) by lia.
  rewrite (bind_Done _ _ _ tt (Byte.x00 :: rest)) by apply (poke_at []).
  destruct (strip_loop_safe (S (length p)) cap p [] (Byte.x00 :: rest)) as (w & r & E & Hn & Hr & Hl);
    [done|constructor|lia|rewrite zlen_nil, zlen_cons in *; lia|rewrite zlen_nil; lia|].
  change (zlen []) with 0 in E. cbn [app] in E. rewrite (bind_Done _ _ _ _ _ E).
  erewrite bind_Done by (apply poke_room; lia).
  exists w. eexists. split; [done|]. split; [by apply cstr_terminated|done].
Qed.

(** On malformed input a control can appear that was not there: removing one
    in the middle of a broken character joins its halves. *)
Theorem strip_bidi_malformed :
  let p := [Byte.xe2; Byte.x80; Byte.xe2; Byte.x80; Byte.x8e; Byte.x8e] in
  exists buf', tui_text_strip_bidi (Some p) 8 (replicate 8 Byte.x00) = Done 3 buf' /\
    cstr buf' = utf8_encode 0x200E.
Proof. eexists. split; [reflexivity|]. by vm_compute. Qed.

(** ** Phone numbers *)

(** The digits behind an optional plus sign, and those of them that may be
    shown. *)
Definition phone_digits (phone : list byte) : list byte :=
  match phone with
  | c :: t => if Byte.eqb c plus then t else phone
  | [] => []
  end.

Definition last_four (digits : list byte) : list byte :=
  if zlen digits <? 5 then [] else drop (length digits - 4) digits.

(** What the log gets to see of [n] digits that end in [shown]. *)
Definition redacted (cap n : Z) (shown : list byte) : list byte :=
  if (5 <=? n) && (n + 2 <=? cap) then plus :: replicate (Z.to_nat (n - 4)) star ++ shown
  else snprintf_s cap full_mask.

Lemma print_const_at cap s buf :
  no_nul s -> 0 < cap -> zlen buf = cap ->
  exists buf', print_const cap s buf = Done tt buf' /\ cstr buf' = snprintf_s cap s.
Proof.
  intros Hs Hc Hb. pose proof (snprintf_s_len cap s Hc). unfold print_const.
  pose proof (poke_str_room [] (snprintf_s cap s ++ [Byte.x00]) buf) as E.
  change (zlen []) with 0 in E. cbn [app] in E. eexists. split.
  - apply E. rewrite zlen_app, zlen_cons, zlen_nil. lia.
  - rewrite <- app_assoc. by apply cstr_terminated, no_nul_take.
Qed.

(** For any nonempty number the string in the array is a function of how
    many digits there are and of the last four, and of these only when there
    are at least five and the array has room: the masked digits never reach
    the log. *)
Theorem redact_phone_masks phone cap buf :
  phone <> [] -> no_nul phone -> 0 < cap -> zlen buf = cap ->
  exists buf', redact_phone (Some phone) cap buf = Done tt buf' /\
    cstr buf' = redacted cap (zlen (phone_digits phone)) (last_four (phone_digits phone)).
Proof.
  intros Hne Hp Hc Hb. unfold redact_phone, redacted. rewrite (proj2 (Z.eqb_neq _ _)) by lia.
  destruct phone as [|c t]; [done|]. fold (phone_digits (c :: t)).
  assert (Hd : no_nul (phone_digits (c :: t))).
  { cbn [phone_digits]. destruct (Byte.eqb c plus); [by inversion Hp|done]. }
  set (ds := phone_digits (c :: t)) in *.
  destruct (Z.ltb_spec (zlen ds) 5) as [Hs|Hs].
  { rewrite (proj2 (Z.leb_gt _ _)) by lia. by apply print_const_at; [repeat constructor|..]. }
  rewrite (proj2 (Z.leb_le 5 _)) by lia. cbn [andb].
  destruct (Z.ltb_spec cap (1 + (zlen ds - 4) + 4 + 1)) as [Hr|Hr].
  { rewrite (proj2 (Z.leb_gt _ _)) by lia. by apply print_const_at; [repeat constructor|..]. }
  rewrite (proj2 (Z.leb_le _ _)) by lia.
  set (stars := replicate (Z.to_nat (zlen ds - 4)) star).
  assert (Hst : zlen stars = zlen ds - 4) by (unfold stars; rewrite zlen_replicate; lia).
  assert (Hshown : take 4 (drop (Z.to_nat (zlen ds - 4)) ds) = last_four ds).
  { unfold last_four. rewrite (proj2 (Z.ltb_ge _ _)) by lia.
    replace (Z.to_nat (zlen ds - 4)) with (length ds - 4)%nat by (unfold zlen; lia).
    apply take_ge. rewrite length_drop. unfold zlen in Hs. lia. }
  rewrite Hshown. assert (Hl4 : zlen (last_four ds) = 4).
  { unfold last_four. rewrite (proj2 (Z.ltb_ge _ _)) by lia.
    unfold zlen. rewrite length_drop. unfold zlen in Hs. lia. }
  erewrite bind_Done by (apply (poke_room [] plus buf); lia). cbn [app].
  pose proof (poke_str_room [plus] stars (drop 1 buf)) as E1.
  assert (Hb1 : zlen (drop 1 buf) = cap - 1) by (unfold zlen in *; rewrite length_drop; lia).
  change (zlen [plus]) with 1 in E1. cbn [app] in E1. rewrite (bind_Done _ _ _ _ _ (E1 ltac:(lia))).
  pose proof (poke_str_room (plus :: stars) (last_four ds) (drop (length stars) (drop 1 buf))) as E2.
  assert (Hb2 : zlen (drop (length stars) (drop 1 buf)) = cap - 1 - zlen stars)
    by (unfold zlen in *; rewrite length_drop; lia).
  rewrite zlen_cons in E2. rewrite Hst in E2. cbn [app] in E2.
  rewrite (bind_Done _ _ _ _ _ (E2 ltac:(lia))).
  pose proof (poke_room (plus :: stars ++ last_four ds) Byte.x00
    (drop (length (last_four ds)) (drop (length stars) (drop 1 buf)))) as E3.
  rewrite zlen_cons, zlen_app, Hst, Hl4 in E3. cbn [app] in E3. rewrite <- !app_assoc in E3.
  replace (1 + (zlen ds - 4) + 4) with (1 + (zlen ds - 4 + 4)) by lia.
  eexists. split; [apply E3; unfold zlen in *; rewrite length_drop; lia|].
  change (plus :: stars ++ last_four ds ++ Byte.x00 :: ?r) with
    ((plus :: stars) ++ last_four ds ++ Byte.x00 :: r).
  rewrite app_assoc. apply cstr_terminated. constructor; [done|]. apply Forall_app. split.
  - unfold stars. apply Forall_replicate. done.
  - unfold last_four. rewrite (proj2 (Z.ltb_ge _ _)) by lia. by apply Forall_drop.
Qed.

(** ** JSON strings *)

(** The value of a hexadecimal digit. *)
Definition unhex (b : byte) : option Z :=
  let v := byte.unsigned b in
  if (48 <=? v) && (v <=? 57) then Some (v - 48)
  else if (97 <=? v) && (v <=? 102) then Some (v - 87)
  else if (65 <=? v) && (v <=? 70) then Some (v - 55)
  else None.

(** The bytes that the body of a JSON string stands for, [None] for a text
    that may not stand between the quotes.  Of the numeric escapes only those
    below U+0080 are read, which stand for one byte. *)
Fixpoint json_body (l : list byte) : option (list byte) :=
  match l with
  | [] => Some []
  | Byte.x22 :: _ => None
  | Byte.x5c :: t =>
      match t with
      | Byte.x22 :: r => cons Byte.x22 <$> json_body r
      | Byte.x5c :: r => cons Byte.x5c <$> json_body r
      | Byte.x2f :: r => cons Byte.x2f <$> json_body r
      | Byte.x62 :: r => cons Byte.x08 <$> json_body r
      | Byte.x66 :: r => cons Byte.x0c <$> json_body r
      | Byte.x6e :: r => cons Byte.x0a <$> json_body r
      | Byte.x72 :: r => cons Byte.x0d <$> json_body r
      | Byte.x74 :: r => cons Byte.x09 <$> json_body r
      | Byte.x75 :: Byte.x30 :: Byte.x30 :: h :: k :: r =>
          hi ← unhex h; lo ← unhex k;
          if hi <? 8 then cons (byte.of_Z (16 * hi + lo)) <$> json_body r else None
      | _ => None
      end
  | b :: r => if byte.unsigned b <? 0x20 then None else cons b <$> json_body r
  end.

Definition escape (src : list byte) : list byte := flat_map escape_byte src.

Lemma json_body_escape_byte c r :
  c <> Byte.x00 -> json_body (escape_byte c ++ r) = cons c <$> json_body r.
Proof. intros Hc. by destruct c. Qed.

Lemma json_body_escape src : no_nul src -> json_body (escape src) = Some src.
Proof.
  induction 1 as [|c src Hc _ IH]; [done|]. cbn [escape flat_map].
  rewrite json_body_escape_byte by done. fold (escape src). by rewrite IH.
Qed.

(** The array after [all] was pushed: what fits before the terminator. *)
Definition pushed (cap : Z) (all buf : list byte) : Prop :=
  zlen buf = cap /\ exists rest, buf = take (Z.to_nat (cap - 1)) all ++ rest.

Lemma push_at cap all buf c :
  0 < cap -> pushed cap all buf ->
  exists buf', push cap c (zlen all) buf = Done (zlen (all ++ [c])) buf' /\ pushed cap (all ++ [c]) buf'.
Proof.
  intros Hc [Hb [rest Hr]]. unfold push. rewrite zlen_app. change (zlen [c]) with 1.
  destruct (Z.ltb_spec (zlen all + 1) cap) as [Hf|Hf].
  - rewrite take_ge in Hr by (unfold zlen in Hf; lia). subst buf. rewrite zlen_app in Hb.
    erewrite bind_Done by (apply poke_room; lia). eexists. split; [done|]. split.
    + rewrite zlen_app, zlen_cons. unfold zlen in *. rewrite length_drop. lia.
    + exists (drop 1 rest). rewrite take_ge by (rewrite length_app; unfold zlen in Hf; cbn; lia).
      by rewrite <- app_assoc.
  - exists buf. split; [done|]. split; [done|]. exists rest.
    rewrite take_app_le by (unfold zlen in Hf; lia). done.
Qed.

Lemma push_all_at cap cs all buf :
  0 < cap -> pushed cap all buf ->
  exists buf', push_all cap cs (zlen all) buf = Done (zlen (all ++ cs)) buf' /\ pushed cap (all ++ cs) buf'.
Proof.
  intros Hc. revert all buf. induction cs as [|c cs IH]; intros all buf Hp; cbn [push_all].
  - exists buf. by rewrite app_nil_r.
  - destruct (push_at cap all buf c Hc Hp) as (b1 & E & Hp1). rewrite (bind_Done _ _ _ _ _ E).
    destruct (IH _ _ Hp1) as (b2 & E2 & Hp2). exists b2. by rewrite E2, <- app_assoc in *.
Qed.

Lemma json_loop_at cap src all buf :
  0 < cap -> pushed cap all buf ->
  exists buf', json_loop cap src (zlen all) buf = Done (zlen (all ++ escape src)) buf' /\
    pushed cap (all ++ escape src) buf'.
Proof.
  intros Hc. revert all buf. induction src as [|c src IH]; intros all buf Hp; cbn [json_loop].
  - exists buf. cbn. by rewrite app_nil_r.
  - destruct (push_all_at cap (escape_byte c) all buf Hc Hp) as (b1 & E & Hp1).
    rewrite (bind_Done _ _ _ _ _ E). destruct (IH _ _ Hp1) as (b2 & E2 & Hp2).
    exists b2. cbn [escape flat_map]. by rewrite E2, <- app_assoc in *.
Qed.

Lemma escape_no_nul src : no_nul src -> no_nul (escape src).
Proof.
  induction 1 as [|c src Hc _ IH]; [constructor|]. cbn [escape flat_map]. apply Forall_app.
  split; [|done]. by destruct c; repeat constructor.
Qed.

(** (C35) The escaped text is the body of a JSON string that stands for exactly
    the bytes of the source; the array gets it, or its front part when it is
    too short, and the length returned is the one of the whole text, so that
    a caller can tell. *)
Theorem json_escape_round_trip src cap buf :
  no_nul src -> 0 < cap -> zlen buf = cap ->
  exists text buf', json_escape_str cap (Some src) buf = Done (zlen text) buf' /\
    json_body text = Some src /\ cstr buf' = take (Z.to_nat (cap - 1)) text.
Proof.
  intros Hs Hc Hb. exists (escape src).
  destruct (json_loop_at cap src [] buf Hc) as (b1 & E & Hb1 & rest & Hr).
  { split; [done|]. exists buf. by rewrite take_nil. }
  cbn [app] in *. unfold json_escape_str. rewrite (proj2 (Z.eqb_neq _ _)) by lia.
  change 0 with (zlen (@nil byte)). rewrite (bind_Done _ _ _ _ _ E). subst b1. rewrite zlen_app in Hb1.
  set (w := take (Z.to_nat (cap - 1)) (escape src)) in *.
  assert (Hw : (if zlen (escape src) <? cap then zlen (escape src) else cap - 1) = zlen w).
  { unfold w, zlen. rewrite length_take. destruct (Z.ltb_spec (Z.of_nat (length (escape src))) cap); lia. }
  assert (Hp : (if zlen (escape src) <? cap then poke (zlen (escape src)) Byte.x00
                else poke (cap - 1) Byte.x00) = poke (zlen w) Byte.x00).
  { rewrite <- Hw. by destruct (zlen (escape src) <? cap). }
  rewrite Hp. assert (Hlt : zlen w < cap).
  { unfold w, zlen. rewrite length_take. lia. }
  erewrite bind_Done by (apply poke_room; lia).
  eexists. split; [done|]. split; [by apply json_body_escape|].
  by apply cstr_terminated, no_nul_take, escape_no_nul.
Qed.

(** ** The theorems on concrete inputs *)

(** [a], U+202E and U+00E1 in an array of four bytes. *)
Definition sample_chars : list (list byte) :=
  [[Byte.x61]; [Byte.xe2; Byte.x80; Byte.xae]; [Byte.xc3; Byte.xa1]].

Lemma strip_bidi_removes_witness :
  let out := [Byte.x61; Byte.xc3; Byte.xa1] in
  exists buf', tui_text_strip_bidi (Some (concat sample_chars)) 4 (replicate 4 Byte.xff) = Done 3 buf' /\
    cstr buf' = out /\ 3 < 4 /\ forall k, bidi_len (drop k out) = Some 0%nat.
Proof. refine (strip_bidi_removes sample_chars 4 _ _ _ _); [by repeat constructor|lia|done]. Defined.

Lemma redact_phone_masks_witness :
  exists buf', redact_phone (Some (ascii "+15551234567")) 32 (replicate 32 Byte.xff) = Done tt buf' /\
    cstr buf' = ascii "+*******4567".
Proof.
  refine (redact_phone_masks (ascii "+15551234567") 32 _ _ _ _ _); [done|by repeat constructor|lia|done].
Defined.

Lemma json_escape_round_trip_witness :
  exists text buf',
    json_escape_str 16 (Some [Byte.x22; Byte.x01; Byte.x41]) (replicate 16 Byte.xff) = Done (zlen text) buf' /\
    json_body text = Some [Byte.x22; Byte.x01; Byte.x41] /\ cstr buf' = take (Z.to_nat (16 - 1)) text.
Proof. refine (json_escape_round_trip [_; _; _] 16 _ _ _ _); [by repeat constructor|lia|done]. Defined.

Lemma strip_bidi_safe_witness :
  exists out buf', tui_text_strip_bidi (Some [Byte.xe2; Byte.x80]) 2 (replicate 2 Byte.xff) = Done (zlen out) buf' /\
    cstr buf' = out /\ zlen out < 2.
Proof. refine (strip_bidi_safe [_; _] 2 _ _ _ _); [by repeat constructor|lia|done]. Defined.
