(* ===== verification/ArgParse.v ===== *)
(** * Command lines (src/core/arg_parse.c)

    The parser of the arguments.  The state of the monad is the result
    structure, a failure is ARG_ERROR; [argv + i] with [argc - i] elements is
    the list of the arguments that are left.  The messages on stderr are left
    out. *)

From Stdlib Require Import String.
From S2P Require Import Prelude CLib.

#[local] Open Scope Z_scope.

(** ** The result *)

Inductive ArgCommand :=
| CMD_NONE | CMD_DIALOGS | CMD_HISTORY | CMD_SEND | CMD_SEARCH | CMD_CONTACTS | CMD_USER_INFO
| CMD_ME | CMD_WATCH | CMD_DOWNLOAD | CMD_READ | CMD_EDIT | CMD_DELETE | CMD_FORWARD
| CMD_SEND_FILE | CMD_LOGIN.

(** The fields have the names of the structure behind [a_]; a pointer is
    [None] for [NULL], a flag a [bool]. *)
Record ArgResult := mkArgs {
  a_json : bool; a_quiet : bool; a_config_path : option (list byte);
  a_phone : option (list byte); a_code : option (list byte); a_password : option (list byte);
  a_command : ArgCommand; a_peer : option (list byte); a_message : option (list byte);
  a_query : option (list byte); a_limit : Z; a_archived : bool; a_offset : Z; a_msg_id : Z;
  a_out_path : option (list byte); a_peer2 : option (list byte); a_revoke : bool; a_reply_to : Z;
  a_watch_interval : Z; a_watch_peers : option (list byte); a_no_media : bool;
  a_api_id_str : option (list byte); a_api_hash_str : option (list byte); a_force : bool
}.

(** [memset(out, 0, sizeof *out); out->limit = -1;] *)
Definition args_init : ArgResult :=
  mkArgs false false None None None None CMD_NONE None None None (-1) false 0 0 None None false 0 0 None false None None false.

(** Assignments to one field. *)
Definition set_json v (r : ArgResult) : ArgResult :=
  mkArgs v (a_quiet r) (a_config_path r) (a_phone r) (a_code r) (a_password r) (a_command r)
    (a_peer r) (a_message r) (a_query r) (a_limit r) (a_archived r) (a_offset r) (a_msg_id r)
    (a_out_path r) (a_peer2 r) (a_revoke r) (a_reply_to r) (a_watch_interval r) (a_watch_peers r)
    (a_no_media r) (a_api_id_str r) (a_api_hash_str r) (a_force r).
Definition set_quiet v (r : ArgResult) : ArgResult :=
  mkArgs (a_json r) v (a_config_path r) (a_phone r) (a_code r) (a_password r) (a_command r)
    (a_peer r) (a_message r) (a_query r) (a_limit r) (a_archived r) (a_offset r) (a_msg_id r)
    (a_out_path r) (a_peer2 r) (a_revoke r) (a_reply_to r) (a_watch_interval r) (a_watch_peers r)
    (a_no_media r) (a_api_id_str r) (a_api_hash_str r) (a_force r).
Definition set_config_path v (r : ArgResult) : ArgResult :=
  mkArgs (a_json r) (a_quiet r) v (a_phone r) (a_code r) (a_password r) (a_command r) (a_peer r)
    (a_message r) (a_query r) (a_limit r) (a_archived r) (a_offset r) (a_msg_id r) (a_out_path r)
    (a_peer2 r) (a_revoke r) (a_reply_to r) (a_watch_interval r) (a_watch_peers r) (a_no_media r)
    (a_api_id_str r) (a_api_hash_str r) (a_force r).
Definition set_phone v (r : ArgResult) : ArgResult :=
  mkArgs (a_json r) (a_quiet r) (a_config_path r) v (a_code r) (a_password r) (a_command r)
    (a_peer r) (a_message r) (a_query r) (a_limit r) (a_archived r) (a_offset r) (a_msg_id r)
    (a_out_path r) (a_peer2 r) (a_revoke r) (a_reply_to r) (a_watch_interval r) (a_watch_peers r)
    (a_no_media r) (a_api_id_str r) (a_api_hash_str r) (a_force r).
Definition set_code v (r : ArgResult) : ArgResult :=
  mkArgs (a_json r) (a_quiet r) (a_config_path r) (a_phone r) v (a_password r) (a_command r)
    (a_peer r) (a_message r) (a_query r) (a_limit r) (a_archived r) (a_offset r) (a_msg_id r)
    (a_out_path r) (a_peer2 r) (a_revoke r) (a_reply_to r) (a_watch_interval r) (a_watch_peers r)
    (a_no_media r) (a_api_id_str r) (a_api_hash_str r) (a_force r).
Definition set_password v (r : ArgResult) : ArgResult :=
  mkArgs (a_json r) (a_quiet r) (a_config_path r) (a_phone r) (a_code r) v (a_command r)
    (a_peer r) (a_message r) (a_query r) (a_limit r) (a_archived r) (a_offset r) (a_msg_id r)
    (a_out_path r) (a_peer2 r) (a_revoke r) (a_reply_to r) (a_watch_interval r) (a_watch_peers r)
    (a_no_media r) (a_api_id_str r) (a_api_hash_str r) (a_force r).
Definition set_command v (r : ArgResult) : ArgResult :=
  mkArgs (a_json r) (a_quiet r) (a_config_path r) (a_phone r) (a_code r) (a_password r) v
    (a_peer r) (a_message r) (a_query r) (a_limit r) (a_archived r) (a_offset r) (a_msg_id r)
    (a_out_path r) (a_peer2 r) (a_revoke r) (a_reply_to r) (a_watch_interval r) (a_watch_peers r)
    (a_no_media r) (a_api_id_str r) (a_api_hash_str r) (a_force r).
Definition set_peer v (r : ArgResult) : ArgResult :=
  mkArgs (a_json r) (a_quiet r) (a_config_path r) (a_phone r) (a_code r) (a_password r)
    (a_command r) v (a_message r) (a_query r) (a_limit r) (a_archived r) (a_offset r) (a_msg_id r)
    (a_out_path r) (a_peer2 r) (a_revoke r) (a_reply_to r) (a_watch_interval r) (a_watch_peers r)
    (a_no_media r) (a_api_id_str r) (a_api_hash_str r) (a_force r).
Definition set_message v (r : ArgResult) : ArgResult :=
  mkArgs (a_json r) (a_quiet r) (a_config_path r) (a_phone r) (a_code r) (a_password r)
    (a_command r) (a_peer r) v (a_query r) (a_limit r) (a_archived r) (a_offset r) (a_msg_id r)
    (a_out_path r) (a_peer2 r) (a_revoke r) (a_reply_to r) (a_watch_interval r) (a_watch_peers r)
    (a_no_media r) (a_api_id_str r) (a_api_hash_str r) (a_force r).
Definition set_query v (r : ArgResult) : ArgResult :=
  mkArgs (a_json r) (a_quiet r) (a_config_path r) (a_phone r) (a_code r) (a_password r)
    (a_command r) (a_peer r) (a_message r) v (a_limit r) (a_archived r) (a_offset r) (a_msg_id r)
    (a_out_path r) (a_peer2 r) (a_revoke r) (a_reply_to r) (a_watch_interval r) (a_watch_peers r)
    (a_no_media r) (a_api_id_str r) (a_api_hash_str r) (a_force r).
Definition set_limit v (r : ArgResult) : ArgResult :=
  mkArgs (a_json r) (a_quiet r) (a_config_path r) (a_phone r) (a_code r) (a_password r)
    (a_command r) (a_peer r) (a_message r) (a_query r) v (a_archived r) (a_offset r) (a_msg_id r)
    (a_out_path r) (a_peer2 r) (a_revoke r) (a_reply_to r) (a_watch_interval r) (a_watch_peers r)
    (a_no_media r) (a_api_id_str r) (a_api_hash_str r) (a_force r).
Definition set_archived v (r : ArgResult) : ArgResult :=
  mkArgs (a_json r) (a_quiet r) (a_config_path r) (a_phone r) (a_code r) (a_password r)
    (a_command r) (a_peer r) (a_message r) (a_query r) (a_limit r) v (a_offset r) (a_msg_id r)
    (a_out_path r) (a_peer2 r) (a_revoke r) (a_reply_to r) (a_watch_interval r) (a_watch_peers r)
    (a_no_media r) (a_api_id_str r) (a_api_hash_str r) (a_force r).
Definition set_offset v (r : ArgResult) : ArgResult :=
  mkArgs (a_json r) (a_quiet r) (a_config_path r) (a_phone r) (a_code r) (a_password r)
    (a_command r) (a_peer r) (a_message r) (a_query r) (a_limit r) (a_archived r) v (a_msg_id r)
    (a_out_path r) (a_peer2 r) (a_revoke r) (a_reply_to r) (a_watch_interval r) (a_watch_peers r)
    (a_no_media r) (a_api_id_str r) (a_api_hash_str r) (a_force r).
Definition set_msg_id v (r : ArgResult) : ArgResult :=
  mkArgs (a_json r) (a_quiet r) (a_config_path r) (a_phone r) (a_code r) (a_password r)
    (a_command r) (a_peer r) (a_message r) (a_query r) (a_limit r) (a_archived r) (a_offset r) v
    (a_out_path r) (a_peer2 r) (a_revoke r) (a_reply_to r) (a_watch_interval r) (a_watch_peers r)
    (a_no_media r) (a_api_id_str r) (a_api_hash_str r) (a_force r).
Definition set_out_path v (r : ArgResult) : ArgResult :=
  mkArgs (a_json r) (a_quiet r) (a_config_path r) (a_phone r) (a_code r) (a_password r)
    (a_command r) (a_peer r) (a_message r) (a_query r) (a_limit r) (a_archived r) (a_offset r)
    (a_msg_id r) v (a_peer2 r) (a_revoke r) (a_reply_to r) (a_watch_interval r) (a_watch_peers r)
    (a_no_media r) (a_api_id_str r) (a_api_hash_str r) (a_force r).
Definition set_peer2 v (r : ArgResult) : ArgResult :=
  mkArgs (a_json r) (a_quiet r) (a_config_path r) (a_phone r) (a_code r) (a_password r)
    (a_command r) (a_peer r) (a_message r) (a_query r) (a_limit r) (a_archived r) (a_offset r)
    (a_msg_id r) (a_out_path r) v (a_revoke r) (a_reply_to r) (a_watch_interval r)
    (a_watch_peers r) (a_no_media r) (a_api_id_str r) (a_api_hash_str r) (a_force r).
Definition set_revoke v (r : ArgResult) : ArgResult :=
  mkArgs (a_json r) (a_quiet r) (a_config_path r) (a_phone r) (a_code r) (a_password r)
    (a_command r) (a_peer r) (a_message r) (a_query r) (a_limit r) (a_archived r) (a_offset r)
    (a_msg_id r) (a_out_path r) (a_peer2 r) v (a_reply_to r) (a_watch_interval r)
    (a_watch_peers r) (a_no_media r) (a_api_id_str r) (a_api_hash_str r) (a_force r).
Definition set_reply_to v (r : ArgResult) : ArgResult :=
  mkArgs (a_json r) (a_quiet r) (a_config_path r) (a_phone r) (a_code r) (a_password r)
    (a_command r) (a_peer r) (a_message r) (a_query r) (a_limit r) (a_archived r) (a_offset r)
    (a_msg_id r) (a_out_path r) (a_peer2 r) (a_revoke r) v (a_watch_interval r) (a_watch_peers r)
    (a_no_media r) (a_api_id_str r) (a_api_hash_str r) (a_force r).
Definition set_watch_interval v (r : ArgResult) : ArgResult :=
  mkArgs (a_json r) (a_quiet r) (a_config_path r) (a_phone r) (a_code r) (a_password r)
    (a_command r) (a_peer r) (a_message r) (a_query r) (a_limit r) (a_archived r) (a_offset r)
    (a_msg_id r) (a_out_path r) (a_peer2 r) (a_revoke r) (a_reply_to r) v (a_watch_peers r)
    (a_no_media r) (a_api_id_str r) (a_api_hash_str r) (a_force r).
Definition set_watch_peers v (r : ArgResult) : ArgResult :=
  mkArgs (a_json r) (a_quiet r) (a_config_path r) (a_phone r) (a_code r) (a_password r)
    (a_command r) (a_peer r) (a_message r) (a_query r) (a_limit r) (a_archived r) (a_offset r)
    (a_msg_id r) (a_out_path r) (a_peer2 r) (a_revoke r) (a_reply_to r) (a_watch_interval r) v
    (a_no_media r) (a_api_id_str r) (a_api_hash_str r) (a_force r).
Definition set_no_media v (r : ArgResult) : ArgResult :=
  mkArgs (a_json r) (a_quiet r) (a_config_path r) (a_phone r) (a_code r) (a_password r)
    (a_command r) (a_peer r) (a_message r) (a_query r) (a_limit r) (a_archived r) (a_offset r)
    (a_msg_id r) (a_out_path r) (a_peer2 r) (a_revoke r) (a_reply_to r) (a_watch_interval r)
    (a_watch_peers r) v (a_api_id_str r) (a_api_hash_str r) (a_force r).
Definition set_api_id_str v (r : ArgResult) : ArgResult :=
  mkArgs (a_json r) (a_quiet r) (a_config_path r) (a_phone r) (a_code r) (a_password r)
    (a_command r) (a_peer r) (a_message r) (a_query r) (a_limit r) (a_archived r) (a_offset r)
    (a_msg_id r) (a_out_path r) (a_peer2 r) (a_revoke r) (a_reply_to r) (a_watch_interval r)
    (a_watch_peers r) (a_no_media r) v (a_api_hash_str r) (a_force r).
Definition set_api_hash_str v (r : ArgResult) : ArgResult :=
  mkArgs (a_json r) (a_quiet r) (a_config_path r) (a_phone r) (a_code r) (a_password r)
    (a_command r) (a_peer r) (a_message r) (a_query r) (a_limit r) (a_archived r) (a_offset r)
    (a_msg_id r) (a_out_path r) (a_peer2 r) (a_revoke r) (a_reply_to r) (a_watch_interval r)
    (a_watch_peers r) (a_no_media r) (a_api_id_str r) v (a_force r).
Definition set_force v (r : ArgResult) : ArgResult :=
  mkArgs (a_json r) (a_quiet r) (a_config_path r) (a_phone r) (a_code r) (a_password r)
    (a_command r) (a_peer r) (a_message r) (a_query r) (a_limit r) (a_archived r) (a_offset r)
    (a_msg_id r) (a_out_path r) (a_peer2 r) (a_revoke r) (a_reply_to r) (a_watch_interval r)
    (a_watch_peers r) (a_no_media r) (a_api_id_str r) (a_api_hash_str r) v.

Abbreviation Ap := (M ArgResult).

(** [out->field = v;] *)
Definition assign (f : ArgResult -> ArgResult) : Ap unit := fun r => Done tt (f r).

Definition ARG_OK : Z := 0.
Definition ARG_HELP : Z := 1.
Definition ARG_VERSION : Z := 2.

(** ** Helpers *)

(** [argv[i][0] == '-'] *)
Definition is_option (a : list byte) : bool :=
  match a with Byte.x2d :: _ => true | _ => false end.

Definition is_arg (a : list byte) (s : String.string) : bool := str_eq a (ascii s).

(** A [long] is cut to [int] without a check. *)
Definition parse_int (s : list byte) : option Z :=
  match s with
  | [] => None
  | _ =>
      match strtol s with
      | (v, []) => Some (s32 v)
      | (_, _ :: _) => None
      end
  end.

(** [if (parse_int(a, &out->field) != 0) return ARG_ERROR;] *)
Definition int_field (set : Z -> ArgResult -> ArgResult) (a : list byte) : Ap Z :=
  match parse_int a with
  | Some v => assign (set v) ;; mret v
  | None => fail
  end.

(** The value of an option: [if (i + 1 >= argc) return ARG_ERROR;] *)
Definition next_arg (t : list (list byte)) : Ap (list byte * list (list byte)) :=
  match t with
  | v :: t' => mret (v, t')
  | [] => fail
  end.

(** [if (i >= argc || argv[i][0] == '-') return ARG_ERROR;
    out->peer = argv[i++];] *)
Definition peer_arg (args : list (list byte)) : Ap (list (list byte)) :=
  match args with
  | a :: t => if is_option a then fail else assign (set_peer (Some a)) ;; mret t
  | [] => fail
  end.

(** [if (i >= argc || parse_int(argv[i], &out->msg_id) != 0 ||
    out->msg_id <= 0) return ARG_ERROR; i++;] *)
Definition msg_id_arg (args : list (list byte)) : Ap (list (list byte)) :=
  '(a, t) ← next_arg args;
  v ← int_field set_msg_id a;
  when (v <=? 0) fail ;;
  mret t.

(** ** Global flags *)

Inductive flag_result :=
| TGF_HELP
| TGF_VERSION
| TGF_NONE
| TGF_MORE (rest : list (list byte)).

Definition take_value_flag (t : list (list byte)) (set : option (list byte) -> ArgResult -> ArgResult)
    : Ap flag_result :=
  '(v, t') ← next_arg t; assign (set (Some v)) ;; mret (TGF_MORE t').

Definition try_global_flag (a : list byte) (t : list (list byte)) : Ap flag_result :=
  if is_arg a "--json" then assign (set_json true) ;; mret (TGF_MORE t)
  else if is_arg a "--quiet" then assign (set_quiet true) ;; mret (TGF_MORE t)
  else if is_arg a "--help" || is_arg a "-h" then mret TGF_HELP
  else if is_arg a "--version" || is_arg a "-v" then mret TGF_VERSION
  else if is_arg a "--config" then take_value_flag t set_config_path
  else if is_arg a "--phone" then take_value_flag t set_phone
  else if is_arg a "--code" then take_value_flag t set_code
  else if is_arg a "--password" then take_value_flag t set_password
  else mret TGF_NONE.

(** ** Subcommands *)

Fixpoint dialogs_loop (args : list (list byte)) : Ap Z :=
  match args with
  | [] => mret ARG_OK
  | a :: t =>
      if is_arg a "--limit" then
        match t with
        | [] => fail
        | v :: t' =>
            n ← int_field set_limit v;
            when ((n <? 1) || (1000 <? n)) fail ;;
            dialogs_loop t'
        end
      else if is_arg a "--archived" then assign (set_archived true) ;; dialogs_loop t
      else fail
  end.

Definition parse_dialogs (args : list (list byte)) : Ap Z :=
  assign (set_command CMD_DIALOGS) ;; assign (set_limit 20) ;; dialogs_loop args.

Fixpoint history_loop (args : list (list byte)) : Ap Z :=
  match args with
  | [] => mret ARG_OK
  | a :: t =>
      if is_arg a "--limit" then
        match t with
        | [] => fail
        | v :: t' =>
            n ← int_field set_limit v;
            when ((n <? 1) || (1000 <? n)) fail ;;
            history_loop t'
        end
      else if is_arg a "--offset" then
        match t with
        | [] => fail
        | v :: t' => int_field set_offset v ;; history_loop t'
        end
      else if is_arg a "--no-media" then assign (set_no_media true) ;; history_loop t
      else fail
  end.

Definition parse_history (args : list (list byte)) : Ap Z :=
  assign (set_command CMD_HISTORY) ;; assign (set_limit 50) ;; assign (set_offset 0) ;;
  t ← peer_arg args;
  history_loop t.

(** The options before the text; the arguments from the text on. *)
Fixpoint send_loop (args : list (list byte)) : Ap (list (list byte)) :=
  match args with
  | [] => mret []
  | a :: t =>
      if is_option a then
        if is_arg a "--reply" then
          match t with
          | [] => fail
          | v :: t' =>
              n ← int_field set_reply_to v;
              when (n <=? 0) fail ;;
              send_loop t'
          end
        else if is_arg a "--stdin" then send_loop t
        else fail
      else mret (a :: t)
  end.

Definition parse_send (args : list (list byte)) : Ap Z :=
  assign (set_command CMD_SEND) ;;
  t ← peer_arg args;
  t' ← send_loop t;
  match t' with
  | [] => mret ARG_OK
  | a :: _ => assign (set_message (Some a)) ;; mret ARG_OK
  end.

Fixpoint search_loop (args : list (list byte)) : Ap Z :=
  match args with
  | [] => mret ARG_OK
  | a :: t =>
      if is_arg a "--limit" then
        match t with
        | [] => fail
        | v :: t' =>
            match parse_int v with
            | None => fail
            | Some n =>
                when ((n <? 1) || (100 <? n)) fail ;;
                assign (set_limit n) ;;
                search_loop t'
            end
        end
      else fail
  end.

Definition parse_search (args : list (list byte)) : Ap Z :=
  assign (set_command CMD_SEARCH) ;; assign (set_limit 20) ;;
  match args with
  | [] => fail
  | a :: t =>
      match t with
      | b :: t' =>
          if negb (is_option a) && negb (is_option b) then
            assign (set_peer (Some a)) ;; assign (set_query (Some b)) ;; search_loop t'
          else if negb (is_option a) then assign (set_query (Some a)) ;; search_loop t
          else fail
      | [] => if negb (is_option a) then assign (set_query (Some a)) ;; search_loop t else fail
      end
  end.

Definition parse_contacts : Ap Z := assign (set_command CMD_CONTACTS) ;; mret ARG_OK.

Definition parse_me : Ap Z := assign (set_command CMD_ME) ;; mret ARG_OK.

Fixpoint watch_loop (args : list (list byte)) : Ap Z :=
  match args with
  | [] => mret ARG_OK
  | a :: t =>
      if is_arg a "--peers" then
        match t with
        | [] => fail
        | v :: t' => assign (set_watch_peers (Some v)) ;; watch_loop t'
        end
      else if is_arg a "--interval" then
        match t with
        | [] => fail
        | v :: t' =>
            match parse_int v with
            | None => fail
            | Some n =>
                when ((n <? 2) || (3600 <? n)) fail ;;
                assign (set_watch_interval n) ;;
                watch_loop t'
            end
        end
      else fail
  end.

Definition parse_watch (args : list (list byte)) : Ap Z :=
  assign (set_command CMD_WATCH) ;; assign (set_watch_interval 30) ;; watch_loop args.

Definition parse_user_info (args : list (list byte)) : Ap Z :=
  assign (set_command CMD_USER_INFO) ;;
  '(a, _) ← next_arg args;
  assign (set_peer (Some a)) ;; mret ARG_OK.

Fixpoint download_loop (args : list (list byte)) : Ap Z :=
  match args with
  | [] => mret ARG_OK
  | a :: t =>
      if is_arg a "--out" then
        match t with
        | [] => fail
        | v :: t' => assign (set_out_path (Some v)) ;; download_loop t'
        end
      else fail
  end.

Definition parse_download (args : list (list byte)) : Ap Z :=
  assign (set_command CMD_DOWNLOAD) ;;
  t ← peer_arg args;
  match t with
  | a :: _ => if is_option a then fail else t' ← msg_id_arg t; download_loop t'
  | [] => fail
  end.

Definition parse_edit (args : list (list byte)) : Ap Z :=
  assign (set_command CMD_EDIT) ;;
  t ← peer_arg args;
  t' ← msg_id_arg t;
  '(a, _) ← next_arg t';
  assign (set_message (Some a)) ;; mret ARG_OK.

Fixpoint delete_loop (args : list (list byte)) : Ap Z :=
  match args with
  | [] => mret ARG_OK
  | a :: t => if is_arg a "--revoke" then assign (set_revoke true) ;; delete_loop t else fail
  end.

Definition parse_delete (args : list (list byte)) : Ap Z :=
  assign (set_command CMD_DELETE) ;;
  t ← peer_arg args;
  t' ← msg_id_arg t;
  delete_loop t'.

Fixpoint send_file_loop (args : list (list byte)) : Ap Z :=
  match args with
  | [] => mret ARG_OK
  | a :: t =>
      if is_arg a "--caption" then
        match t with
        | [] => fail
        | v :: t' => assign (set_message (Some v)) ;; send_file_loop t'
        end
      else fail
  end.

Definition parse_send_file (args : list (list byte)) : Ap Z :=
  assign (set_command CMD_SEND_FILE) ;;
  match args with
  | p :: f :: t => assign (set_peer (Some p)) ;; assign (set_out_path (Some f)) ;; send_file_loop t
  | _ => fail
  end.

Definition parse_forward (args : list (list byte)) : Ap Z :=
  assign (set_command CMD_FORWARD) ;;
  match args with
  | p :: q :: i :: t =>
      assign (set_peer (Some p)) ;; assign (set_peer2 (Some q)) ;;
      msg_id_arg (i :: t) ;; mret ARG_OK
  | _ => fail
  end.

Definition parse_read (args : list (list byte)) : Ap Z :=
  assign (set_command CMD_READ) ;;
  t ← peer_arg args;
  match t with
  | a :: t' =>
      if is_arg a "--max-id" then '(v, _) ← next_arg t'; int_field set_msg_id v ;; mret ARG_OK
      else mret ARG_OK
  | [] => mret ARG_OK
  end.

Fixpoint login_loop (args : list (list byte)) : Ap Z :=
  match args with
  | [] => mret ARG_OK
  | a :: t =>
      if is_arg a "--api-id" then
        match t with
        | [] => fail
        | v :: t' => assign (set_api_id_str (Some v)) ;; login_loop t'
        end
      else if is_arg a "--api-hash" then
        match t with
        | [] => fail
        | v :: t' => assign (set_api_hash_str (Some v)) ;; login_loop t'
        end
      else if is_arg a "--force" then assign (set_force true) ;; login_loop t
      else fail
  end.

Definition parse_login (args : list (list byte)) : Ap Z :=
  assign (set_command CMD_LOGIN) ;; login_loop args.

(** ** The whole command line *)

(** The [if]s over the name of the subcommand. *)
Definition parse_subcommand (subcmd : list byte) (args : list (list byte)) : Ap Z :=
  if is_arg subcmd "dialogs" then parse_dialogs args
  else if is_arg subcmd "history" then parse_history args
  else if is_arg subcmd "send" then parse_send args
  else if is_arg subcmd "search" then parse_search args
  else if is_arg subcmd "contacts" then parse_contacts
  else if is_arg subcmd "user-info" then parse_user_info args
  else if is_arg subcmd "me" || is_arg subcmd "self" then parse_me
  else if is_arg subcmd "watch" then parse_watch args
  else if is_arg subcmd "download" then parse_download args
  else if is_arg subcmd "edit" then parse_edit args
  else if is_arg subcmd "delete" then parse_delete args
  else if is_arg subcmd "send-file" || is_arg subcmd "upload" then parse_send_file args
  else if is_arg subcmd "forward" then parse_forward args
  else if is_arg subcmd "read" then parse_read args
  else if is_arg subcmd "login" then parse_login args
  else if is_arg subcmd "help" then mret ARG_HELP
  else if is_arg subcmd "version" then mret ARG_VERSION
  else fail.

(** What follows the global flags. *)
Definition after_flags (args : list (list byte)) : Ap Z :=
  match args with
  | [] => fun r => if a_json r then Fail r else Done ARG_OK r
  | subcmd :: t => parse_subcommand subcmd t
  end.

(** The loop over the global flags; a flag and its value are consumed
    together, so the length of [args] bounds it. *)
Fixpoint flags_loop (fuel : nat) (args : list (list byte)) : Ap Z :=
  match fuel with
  | O => no_fuel
  | S fuel =>
      match args with
      | a :: t =>
          if is_option a then
            r ← try_global_flag a t;
            match r with
            | TGF_HELP => mret ARG_HELP
            | TGF_VERSION => mret ARG_VERSION
            | TGF_NONE => after_flags args
            | TGF_MORE t' => flags_loop fuel t'
            end
          else after_flags args
      | [] => after_flags []
      end
  end.

(** [argv] includes the name of the program. *)
Definition arg_parse (argv : list (list byte)) : Ap Z := fun _ =>
  flags_loop (S (length argv)) (drop 1 argv) args_init.
