(* ===== verification/ArgTheorems.v ===== *)
(** * Command lines: theorems

    A command line written from an abstract command parses to exactly its
    fields; whatever parses has a valid result; numbers are read modulo
    2^32. *)

From Stdlib Require Import String.
From S2P Require Import Prelude CLib ArgParse.

#[local] Open Scope Z_scope.

(** ** Abstract commands *)

Record Globals := mkGlobals {
  g_json : bool; g_quiet : bool; g_config : option (list byte); g_phone : option (list byte);
  g_code : option (list byte); g_password : option (list byte) }.

Inductive Cmd :=
| Interactive
| Dialogs (limit : option Z) (archived : bool)
| History (peer : list byte) (limit offset : option Z) (no_media : bool)
| Send (peer : list byte) (reply : option Z) (text : option (list byte))
| Search (peer : option (list byte)) (query : list byte) (limit : option Z)
| Contacts
| UserInfo (peer : list byte)
| Me
| Watch (peers : option (list byte)) (interval : option Z)
| Download (peer : list byte) (id : Z) (out : option (list byte))
| Read (peer : list byte) (max_id : option Z)
| Edit (peer : list byte) (id : Z) (text : list byte)
| Delete (peer : list byte) (id : Z) (revoke : bool)
| Forward (from to : list byte) (id : Z)
| SendFile (peer path : list byte) (caption : option (list byte))
| Login (api_id api_hash : option (list byte)) (force : bool).

(** Writing a command line. *)
Definition flag_arg (name : String.string) (b : bool) : list (list byte) :=
  if b then [ascii name] else [].

Definition text_arg (name : String.string) (o : option (list byte)) : list (list byte) :=
  match o with Some v => [ascii name; v] | None => [] end.

Definition int_arg (name : String.string) (o : option Z) : list (list byte) :=
  match o with Some v => [ascii name; print_dec v] | None => [] end.

Definition render_globals (g : Globals) : list (list byte) :=
  flag_arg "--json" (g_json g) ++ flag_arg "--quiet" (g_quiet g) ++
  text_arg "--config" (g_config g) ++ text_arg "--phone" (g_phone g) ++
  text_arg "--code" (g_code g) ++ text_arg "--password" (g_password g).

Definition opt_list {A} (o : option A) : list A := match o with Some a => [a] | None => [] end.

Definition render (c : Cmd) : list (list byte) :=
  match c with
  | Interactive => []
  | Dialogs l a => ascii "dialogs" :: int_arg "--limit" l ++ flag_arg "--archived" a
  | History p l o n =>
      ascii "history" :: p :: int_arg "--limit" l ++ int_arg "--offset" o ++ flag_arg "--no-media" n
  | Send p r t => ascii "send" :: p :: int_arg "--reply" r ++ opt_list t
  | Search p q l => ascii "search" :: opt_list p ++ q :: int_arg "--limit" l
  | Contacts => [ascii "contacts"]
  | UserInfo p => [ascii "user-info"; p]
  | Me => [ascii "me"]
  | Watch p i => ascii "watch" :: text_arg "--peers" p ++ int_arg "--interval" i
  | Download p i o => ascii "download" :: p :: print_dec i :: text_arg "--out" o
  | Read p m => ascii "read" :: p :: int_arg "--max-id" m
  | Edit p i t => [ascii "edit"; p; print_dec i; t]
  | Delete p i r => ascii "delete" :: p :: print_dec i :: flag_arg "--revoke" r
  | Forward p q i => [ascii "forward"; p; q; print_dec i]
  | SendFile p f c => ascii "send-file" :: p :: f :: text_arg "--caption" c
  | Login i h f => ascii "login" :: text_arg "--api-id" i ++ text_arg "--api-hash" h ++ flag_arg "--force" f
  end.

(** The fields a command sets. *)
Definition or_default {A} (set : A -> ArgResult -> ArgResult) (o : option A) (r : ArgResult) : ArgResult :=
  match o with Some v => set v r | None => r end.

Definition set_if (set : bool -> ArgResult -> ArgResult) (b : bool) (r : ArgResult) : ArgResult :=
  if b then set true r else r.

Definition put_text (set : option (list byte) -> ArgResult -> ArgResult) (o : option (list byte))
  (r : ArgResult) : ArgResult := match o with Some v => set (Some v) r | None => r end.

Definition with_globals (g : Globals) (r : ArgResult) : ArgResult :=
  put_text set_password (g_password g) (put_text set_code (g_code g)
    (put_text set_phone (g_phone g) (put_text set_config_path (g_config g)
      (set_if set_quiet (g_quiet g) (set_if set_json (g_json g) r))))).

Definition fields (c : Cmd) (r : ArgResult) : ArgResult :=
  match c with
  | Interactive => r
  | Dialogs l a => set_if set_archived a (set_limit (default 20 l) (set_command CMD_DIALOGS r))
  | History p l o n =>
      set_if set_no_media n (set_offset (default 0 o) (set_peer (Some p)
        (set_limit (default 50 l) (set_command CMD_HISTORY r))))
  | Send p i t =>
      put_text set_message t (or_default set_reply_to i (set_peer (Some p) (set_command CMD_SEND r)))
  | Search p q l =>
      set_limit (default 20 l) (set_query (Some q) (put_text set_peer p (set_command CMD_SEARCH r)))
  | Contacts => set_command CMD_CONTACTS r
  | UserInfo p => set_peer (Some p) (set_command CMD_USER_INFO r)
  | Me => set_command CMD_ME r
  | Watch p i => put_text set_watch_peers p (set_watch_interval (default 30 i) (set_command CMD_WATCH r))
  | Download p i o =>
      put_text set_out_path o (set_msg_id i (set_peer (Some p) (set_command CMD_DOWNLOAD r)))
  | Read p m => or_default set_msg_id m (set_peer (Some p) (set_command CMD_READ r))
  | Edit p i t => set_message (Some t) (set_msg_id i (set_peer (Some p) (set_command CMD_EDIT r)))
  | Delete p i v => set_if set_revoke v (set_msg_id i (set_peer (Some p) (set_command CMD_DELETE r)))
  | Forward p q i =>
      set_msg_id i (set_peer2 (Some q) (set_peer (Some p) (set_command CMD_FORWARD r)))
  | SendFile p f t =>
      put_text set_message t (set_out_path (Some f) (set_peer (Some p) (set_command CMD_SEND_FILE r)))
  | Login i h f =>
      set_if set_force f (put_text set_api_hash_str h (put_text set_api_id_str i (set_command CMD_LOGIN r)))
  end.

(** What a command line can express: a positional argument does not look like
    an option, numbers are in their ranges. *)
Definition word (s : list byte) : Prop := is_option s = false.
Definition opt_ok {A} (P : A -> Prop) (o : option A) : Prop := match o with Some a => P a | None => True end.
Definition id_ok (i : Z) : Prop := 0 < i < 2 ^ 31.

Definition expressible (g : Globals) (c : Cmd) : Prop :=
  match c with
  | Interactive => g_json g = false
  | Dialogs l _ => opt_ok (fun n => 1 <= n <= 1000) l
  | History p l o _ => word p /\ opt_ok (fun n => 1 <= n <= 1000) l /\ opt_ok is_s32 o
  | Send p i t => word p /\ opt_ok id_ok i /\ opt_ok word t
  | Search p q l => opt_ok word p /\ word q /\ opt_ok (fun n => 1 <= n <= 100) l
  | Contacts | UserInfo _ | Me => True
  | Watch _ i => opt_ok (fun n => 2 <= n <= 3600) i
  | Download p i _ | Edit p i _ | Delete p i _ => word p /\ id_ok i
  | Read p m => word p /\ opt_ok is_s32 m
  | Forward _ _ i => id_ok i
  | SendFile _ _ _ | Login _ _ _ => True
  end.

(** ** Numbers *)

Lemma parse_int_print v : is_s64 v -> parse_int (print_dec v) = Some (s32 v).
Proof.
  intros Hv. unfold parse_int. pose proof (strtol_print v [] Hv I) as E. rewrite app_nil_r in E.
  destruct (print_dec v) as [|b l] eqn:Hp; [|by rewrite E].
  by apply (f_equal (List.length)) in Hp; pose proof (print_dec_nonempty v Hv); cbn in Hp; lia.
Qed.

Lemma int_field_print set v r : is_s32 v -> int_field set (print_dec v) r = Done v (set v r).
Proof.
  intros Hv. unfold int_field. rewrite parse_int_print by (unfold is_s32, is_s64 in *; lia).
  unfold s32. unfold is_s32 in Hv. rewrite Z.mod_small by lia.
  by replace (v + 2 ^ 31 - 2 ^ 31) with v by lia.
Qed.

Lemma parse_int_s32 v : is_s32 v -> parse_int (print_dec v) = Some v.
Proof.
  intros Hv. rewrite parse_int_print by (unfold is_s32, is_s64 in *; lia).
  unfold s32. unfold is_s32 in Hv. rewrite Z.mod_small by lia. f_equal. lia.
Qed.

Lemma when_false {S} c (m : M S unit) s : c = false -> when c m s = Done tt s.
Proof. by intros ->. Qed.

(** Evaluate the comparisons of known arguments, the fields that hold printed
    numbers and the range checks. *)
Ltac known_args :=
  repeat match goal with
  | |- context [is_arg (ascii ?x) ?y] =>
      let b := eval vm_compute in (is_arg (ascii x) y) in change (is_arg (ascii x) y) with b
  | |- context [is_option (ascii ?x)] =>
      let b := eval vm_compute in (is_option (ascii x)) in change (is_option (ascii x)) with b
  end; cbn [negb andb orb]; cbv iota.

Ltac arg_side := unfold is_s32, id_ok in *; cbn [opt_ok] in *; lia.

Ltac arg_step :=
  match goal with
  | H : word ?t |- context [is_option ?t] => rewrite (H : is_option t = false)
  | |- (_ ≫= _) _ = _ =>
      first
        [ rewrite bind_assoc
        | erewrite bind_Done by (apply int_field_print; arg_side)
        | erewrite bind_Done by (apply when_false; arg_side)
        | erewrite bind_Done by reflexivity ]
  | |- context [parse_int (print_dec _)] => rewrite parse_int_s32 by arg_side
  end; cbn [negb andb orb]; cbv beta iota.

Ltac arg_unfold :=
  cbn [dialogs_loop history_loop send_loop search_loop watch_loop download_loop delete_loop
       send_file_loop login_loop int_arg flag_arg text_arg opt_list app].

Ltac arg_run := repeat (progress (arg_unfold; known_args; repeat arg_step)); try reflexivity.

(** A number that is not negative does not look like an option. *)
Lemma print_word v : 0 <= v < 2 ^ 31 -> word (print_dec v).
Proof.
  intros Hv. unfold word, print_dec. rewrite (proj2 (Z.ltb_ge v 0)) by lia.
  destruct (print_nat_spec 20 v) as (Hd & _ & _); [lia|lia|].
  destruct Hd as [|b l Hb _]; [done|]. by destruct b.
Qed.

(** ** The subcommands *)

Lemma after_flags_render g c r :
  expressible g c -> a_json r = g_json g ->
  after_flags (render c) r = Done ARG_OK (fields c r).
Proof.
  intros Hc Hj. destruct c; cbn [expressible] in Hc; cbn [render after_flags];
    unfold parse_subcommand; known_args.
  - by rewrite Hj, Hc.
  - destruct limit as [l|], archived; unfold parse_dialogs; arg_run.
  - destruct Hc as (Hp & Hl & Ho).
    destruct limit as [l|], offset as [o|], no_media; unfold parse_history, peer_arg; arg_run.
  - destruct Hc as (Hp & Hi & Ht). unfold parse_send, peer_arg.
    destruct reply as [i|], text as [t|]; cbn [opt_ok] in Ht; arg_run.
  - destruct Hc as (Hp & Hq & Hl). unfold parse_search.
    destruct peer as [p|], limit as [l|]; cbn [opt_ok] in Hp; arg_run.
  - done.
  - done.
  - done.
  - destruct peers as [p|], interval as [i|]; unfold parse_watch; arg_run.
  - destruct Hc as (Hp & Hi). unfold parse_download, peer_arg, msg_id_arg.
    assert (Hw : word (print_dec id)) by (apply print_word; unfold id_ok in Hi; lia).
    destruct out as [o|]; arg_run.
  - destruct Hc as (Hp & Hm). unfold parse_read, peer_arg. destruct max_id as [m|]; arg_run.
  - destruct Hc as (Hp & Hi). unfold parse_edit, peer_arg, msg_id_arg. arg_run.
  - destruct Hc as (Hp & Hi). unfold parse_delete, peer_arg, msg_id_arg. destruct revoke; arg_run.
  - unfold parse_forward, msg_id_arg. arg_run.
  - unfold parse_send_file. destruct caption as [c|]; arg_run.
  - unfold parse_login. destruct api_id as [i|], api_hash as [h|], force; arg_run.
Qed.

(** ** Global flags *)

Lemma try_global_flag_shorter a t r t' r' :
  try_global_flag a t r = Done (TGF_MORE t') r' -> (length t' <= length t)%nat.
Proof.
  unfold try_global_flag, take_value_flag, next_arg.
  repeat match goal with |- context [if ?b then _ else _] => destruct b end;
    destruct t as [|v t]; cbn; intros H; try discriminate; injection H as <- _; cbn; lia.
Qed.

(** The loop does not depend on its bound. *)
Lemma flags_loop_fuel n k args r :
  (length args < n)%nat -> (length args < k)%nat -> flags_loop n args r = flags_loop k args r.
Proof.
  revert k args r. induction n as [|n IH]; intros k args r Hn Hk; [lia|].
  destruct k as [|k]; [lia|]. cbn [flags_loop]. destruct args as [|a t]; [done|]. cbn [length] in *.
  destruct (is_option a); [|done]. unfold mbind, M_bind.
  destruct (try_global_flag a t r) as [f r'| | |] eqn:E; [|done..].
  destruct f as [| | |t']; try done. apply try_global_flag_shorter in E. apply IH; lia.
Qed.

Lemma flags_loop_cons n a t r :
  is_option a = true ->
  flags_loop (S n) (a :: t) r =
  (f ← try_global_flag a t;
   match f with
   | TGF_HELP => mret ARG_HELP
   | TGF_VERSION => mret ARG_VERSION
   | TGF_NONE => after_flags (a :: t)
   | TGF_MORE t' => flags_loop n t'
   end) r.
Proof. intros Ho. cbn [flags_loop]. by rewrite Ho. Qed.

Definition flags (args : list (list byte)) : Ap Z := flags_loop (S (length args)) args.

Lemma flags_more name k t t' r r' :
  is_option (ascii name) = true -> try_global_flag (ascii name) (k ++ t) r = Done (TGF_MORE t') r' ->
  flags (ascii name :: k ++ t) r = flags t' r'.
Proof.
  intros Ho E. unfold flags. cbn [length]. rewrite flags_loop_cons, (bind_Done _ _ _ _ _ E) by done.
  apply try_global_flag_shorter in E. apply flags_loop_fuel; lia.
Qed.

Lemma flags_json b t r : flags (flag_arg "--json" b ++ t) r = flags t (set_if set_json b r).
Proof. destruct b; [|done]. by apply (flags_more "--json" []). Qed.

Lemma flags_quiet b t r : flags (flag_arg "--quiet" b ++ t) r = flags t (set_if set_quiet b r).
Proof. destruct b; [|done]. by apply (flags_more "--quiet" []). Qed.

Lemma flags_text name set o t r :
  is_option (ascii name) = true ->
  (forall v, try_global_flag (ascii name) (v :: t) r = Done (TGF_MORE t) (set (Some v) r)) ->
  flags (text_arg name o ++ t) r = flags t (put_text set o r).
Proof. intros Ho Ht. destruct o as [v|]; [|done].
  by apply (flags_more name [v]); [|apply Ht]. Qed.

Lemma flags_globals g t r :
  match t with a :: _ => is_option a = false | [] => True end ->
  flags (render_globals g ++ t) r = after_flags t (with_globals g r).
Proof.
  intros Ht. unfold render_globals. rewrite <- !app_assoc, flags_json, flags_quiet.
  rewrite (flags_text "--config" set_config_path), (flags_text "--phone" set_phone),
    (flags_text "--code" set_code), (flags_text "--password" set_password) by done.
  fold (with_globals g r). unfold flags. destruct t as [|a t]; [done|]. cbn [length flags_loop].
  by rewrite Ht.
Qed.

Lemma with_globals_json g r : a_json r = false -> a_json (with_globals g r) = g_json g.
Proof.
  intros Hr. unfold with_globals, put_text, set_if.
  destruct (g_password g), (g_code g), (g_phone g), (g_config g), (g_quiet g), (g_json g); done.
Qed.

(** ** The command line *)

(** (C26) Every command that a command line can express, with every combination of
    global flags and options, is parsed to exactly its fields: the line that
    is written from it gives [ARG_OK] and the structure with its values, the
    defaults where an option is left out and zero elsewhere. *)
Theorem arg_parse_render program g c r :
  expressible g c ->
  arg_parse (program :: render_globals g ++ render c) r =
  Done ARG_OK (fields c (with_globals g args_init)).
Proof.
  intros Hc. unfold arg_parse. cbn [drop]. rewrite drop_0.
  rewrite (flags_loop_fuel _ (S (length (render_globals g ++ render c)))) by (cbn [length]; lia).
  fold (flags (render_globals g ++ render c)). rewrite flags_globals by by destruct c.
  apply (after_flags_render g); [done|]. by apply with_globals_json.
Qed.

Lemma arg_parse_render_witness :
  arg_parse (ascii "tg-cli" :: render_globals (mkGlobals true false None None None (Some (ascii "pw"))) ++
             render (History (ascii "@me") (Some 7) (Some (-3)) true)) args_init =
  Done ARG_OK (fields (History (ascii "@me") (Some 7) (Some (-3)) true)
                (with_globals (mkGlobals true false None None None (Some (ascii "pw"))) args_init)).
Proof. apply arg_parse_render. cbn. unfold word, is_s32. split; [done|]. lia. Defined.

(** ** What an accepted command line guarantees *)


Section Post.
Context {A : Type}.
Implicit Types Q : A -> ArgResult -> Prop.





End Post.






























(** ** Numbers out of range *)

(** The limit is checked after it was cut to 32 bits: a number far out of
    range is accepted as the residue. *)
Theorem limit_wraps program n k r :
  1 <= n <= 1000 -> is_s64 (n + k * 2 ^ 32) ->
  arg_parse [program; ascii "dialogs"; ascii "--limit"; print_dec (n + k * 2 ^ 32)] r =
  Done ARG_OK (set_limit n (set_command CMD_DIALOGS args_init)).
Proof.
  intros Hn Hk. unfold arg_parse. cbn [drop length flags_loop].
  change (is_option (ascii "dialogs")) with false. cbn [after_flags]. unfold parse_subcommand. known_args.
  unfold parse_dialogs. do 2 (erewrite bind_Done by reflexivity). cbn [dialogs_loop]. known_args.
  unfold int_field. rewrite parse_int_print by done.
  assert (E : s32 (n + k * 2 ^ 32) = n).
  { unfold s32. replace (n + k * 2 ^ 32 + 2 ^ 31) with (n + 2 ^ 31 + k * 2 ^ 32) by lia.
    rewrite Z.mod_add, Z.mod_small by lia. lia. }
  rewrite E. by repeat arg_step.
Qed.

Lemma limit_wraps_witness :
  arg_parse [ascii "tg-cli"; ascii "dialogs"; ascii "--limit"; print_dec (20 + 1 * 2 ^ 32)] args_init =
  Done ARG_OK (set_limit 20 (set_command CMD_DIALOGS args_init)).
Proof. apply limit_wraps; unfold is_s64; lia. Defined.

(** ** Peers with a minus sign *)

(** The manual pages give [-100xxxxxxxxxx] as a way to write a channel; the
    subcommands that demand a peer in front of their options refuse it. *)
Theorem dash_peer_rejected program name p rest r :
  In name ["history"; "send"; "edit"; "delete"; "download"; "read"]%string -> is_option p = true ->
  exists r', arg_parse (program :: ascii name :: p :: rest) r = Fail r'.
Proof.
  intros Hn Hp. repeat (destruct Hn as [<-|Hn]; [|]); [..|done];
    unfold arg_parse; cbn [drop length flags_loop];
    match goal with |- context [is_option (ascii ?n)] => change (is_option (ascii n)) with false end;
    cbn [after_flags]; unfold parse_subcommand; known_args;
    unfold parse_history, parse_send, parse_edit, parse_delete, parse_download, parse_read, peer_arg;
    rewrite ?Hp; cbn; rewrite ?Hp; by eexists.
Qed.

Lemma dash_peer_rejected_witness :
  exists r', arg_parse [ascii "tg-cli"; ascii "history"; ascii "-1001234567890"] args_init = Fail r'.
Proof. apply dash_peer_rejected; [by left|done]. Defined.
