(* ===== verification/UpdatesStore.v ===== *)
(** * The updates state on disk (src/infrastructure/updates_state_store.c)

    The text file of the counters at which a later run resumes, written to a
    temporary file that is renamed over it, as programs over the file system
    of FileSys.  A failed directory lookup stands for a missing cache
    directory and for a path that is too long.  The second part has the
    theorems: the round trip, and that a save is atomic. *)

From Stdlib Require Import String.
From S2P Require Import Prelude CLib FileSys FileLogic.

#[local] Open Scope Z_scope.

Record UpdatesState := mkState { pts : Z; qts : Z; date : Z; seqno : Z; unread_count : Z }.

Definition state_zero : UpdatesState := mkState 0 0 0 0 0.

Definition state_path : string := "updates.state"%string.
Definition state_tmp_path : string := "updates.state.tmp"%string.

(** ** Reading *)

(** The longest front part of at most [k] bytes without [c], and the rest. *)
Fixpoint scan_not (c : byte) (k : nat) (s : list byte) : list byte * list byte :=
  match k, s with
  | S k, b :: s' =>
      if Byte.eqb b c then ([], s) else let '(l, r) := scan_not c k s' in (b :: l, r)
  | _, _ => ([], s)
  end.

Definition equals : byte := Byte.x3d.

(** [sscanf(line, "%63[^=]=%lld", key, &val) == 2] *)
Definition scan_pair (line : list byte) : option (list byte * Z) :=
  let '(key, r) := scan_not equals 63 line in
  match key, r with
  | _ :: _, c :: r =>
      if Byte.eqb c equals then
        '(val, _) ← scan_long r;
        Some (key, val)
      else None
  | _, _ => None
  end.

(** The assignments by key, and how many of the four required keys it was. *)
Definition set_by_key (key : list byte) (val : Z) (st : UpdatesState) : UpdatesState * Z :=
  if str_eq key (ascii "pts") then (mkState (s32 val) (qts st) (date st) (seqno st) (unread_count st), 1)
  else if str_eq key (ascii "qts") then (mkState (pts st) (s32 val) (date st) (seqno st) (unread_count st), 1)
  else if str_eq key (ascii "date") then (mkState (pts st) (qts st) val (seqno st) (unread_count st), 1)
  else if str_eq key (ascii "seq") then (mkState (pts st) (qts st) (date st) (s32 val) (unread_count st), 1)
  else if str_eq key (ascii "unread_count") then
    (mkState (pts st) (qts st) (date st) (seqno st) (s32 val), 0)
  else (st, 0).

(** The loop over the lines; [None] for a malformed one. *)
Fixpoint state_loop (fuel : nat) (file : list byte) (tmp : UpdatesState) (fields : Z)
    : option (UpdatesState * Z) :=
  match fuel with
  | O => None
  | S fuel =>
      match fgets 256 file with
      | None => Some (tmp, fields)
      | Some (buf, file) =>
          let line := fst (split_at newline (cstr buf)) in
          match line with
          | [] | Byte.x23 :: _ => state_loop fuel file tmp fields
          | _ =>
              '(key, val) ← scan_pair line;
              let '(tmp, n) := set_by_key key val tmp in
              state_loop fuel file tmp (fields + n)
          end
      end
  end.

(** The content of a file, [None] for the return value [-2]. *)
Definition parse_state (file : list byte) : option UpdatesState :=
  '(tmp, fields) ← state_loop (S (length file)) file state_zero 0;
  if fields <? 4 then None else Some tmp.

(** Return values 0, -1 and -2. *)
Inductive load_rc := LoadOk (st : UpdatesState) | LoadMissing | LoadMalformed.

Definition updates_state_load : prog load_rc :=
  base ← call SConfigDir;
  if negb base then mret LoadMissing
  else
    fp ← call (SOpen state_path false false);
    match fp with
    | None => mret LoadMissing
    | Some fp =>
        file ← call (SReadAll fp);
        call (SClose fp) ;;
        mret (match parse_state file with Some st => LoadOk st | None => LoadMalformed end)
    end.

(** ** Writing *)

Definition field_line (key : String.string) (v : Z) : list byte :=
  ascii key ++ equals :: print_dec v ++ [newline].

Definition state_text (st : UpdatesState) : list byte :=
  ascii "# tg-cli updates state — do not edit by hand" ++ newline ::
  field_line "pts" (pts st) ++ field_line "qts" (qts st) ++ field_line "date" (date st) ++
  field_line "seq" (seqno st) ++ field_line "unread_count" (unread_count st).

(** The text fits the buffer of the stream, so it is written when the file
    is closed, and [fclose] reports whether that worked. *)
Definition updates_state_save (st : UpdatesState) : prog Z :=
  base ← call SConfigDir;
  if negb base then mret (-1)
  else
    dir ← call SMkdir;
    if negb dir then mret (-1)
    else
      fp ← call (SOpen state_tmp_path true true);
      match fp with
      | None => mret (-1)
      | Some fp =>
          n ← call (SWrite fp (state_text st));
          call (SClose fp) ;;
          if negb (n =? zlen (state_text st)) then mret (-1)
          else
            ok ← call (SRename state_tmp_path state_path);
            mret (if (ok : bool) then 0 else -1)
      end.

(** * The updates state on disk: theorems

    A saved state is loaded back; a save that is stopped anywhere leaves the
    old state or the new one; the count of the required fields can be met by
    one of them alone. *)

Definition state_ok (st : UpdatesState) : Prop :=
  is_s32 (pts st) /\ is_s32 (qts st) /\ is_s64 (date st) /\ is_s32 (seqno st) /\ is_s32 (unread_count st).

(** ** Lines *)

(** What the loop needs of a key: it fits, and it is neither a comment nor
    cut by the separator, the end of the line or of the string. *)
Definition key_char (b : byte) : bool :=
  negb (Byte.eqb b equals) && negb (Byte.eqb b newline) && negb (Byte.eqb b Byte.x00).

Definition key_ok (key : list byte) : bool :=
  match key with
  | [] | Byte.x23 :: _ => false
  | _ => forallb key_char key && Nat.leb (length key) 63
  end.

Lemma scan_not_app k l r :
  Forall (fun b => b <> equals) l -> (length l <= k)%nat ->
  scan_not equals k (l ++ equals :: r) = (l, equals :: r).
Proof.
  intros Hl. revert k. induction Hl as [|b l Hb _ IH]; intros k Hk.
  - by destruct k.
  - destruct k as [|k]; [cbn in Hk; lia|]. cbn [app scan_not].
    rewrite byte_eqb_neq, IH by (done || (cbn in Hk; lia)). done.
Qed.

Lemma key_ok_spec key :
  key_ok key = true ->
  Forall (fun b => b <> equals) key /\ Forall (fun b => b <> newline) key /\ no_nul key /\
  (0 < length key <= 63)%nat /\ match key with Byte.x23 :: _ => False | _ => True end.
Proof.
  intros H. assert (Hf : forallb key_char key = true /\ (length key <= 63)%nat).
  { assert (E : forallb key_char key && Nat.leb (length key) 63 = true)
      by (destruct key as [|b l]; [done|]; by destruct b).
    apply andb_true_iff in E as [H1 H2%Nat.leb_le]. done. }
  destruct Hf as [Hf Hl].
  assert (Hc : forall b, b ∈ key -> b <> equals /\ b <> newline /\ b <> Byte.x00).
  { intros b Hb%list_elem_of_In. pose proof (proj1 (forallb_forall _ _) Hf b Hb) as E.
    split_and!; intros ->; done. }
  unfold no_nul. rewrite !Forall_forall.
  split; [|split; [|split; [|split]]]; try (intros b Hb; by apply Hc).
  - destruct key; [done|cbn in *; lia].
  - destruct key as [|b l]; [done|]. by destruct b.
Qed.

Lemma state_loop_field fuel key v rest tmp f tmp' n :
  key_ok (ascii key) = true -> is_s64 v -> set_by_key (ascii key) v tmp = (tmp', n) ->
  state_loop (S fuel) (field_line key v ++ rest) tmp f = state_loop fuel rest tmp' (f + n).
Proof.
  intros (Heq & Hnl & Hnul & Hlen & Hc)%key_ok_spec Hv Hset.
  set (line := ascii key ++ equals :: print_dec v).
  assert (Hl1 : Forall (fun b => b <> newline) line).
  { apply Forall_app. split; [done|]. constructor; [done|]. by apply print_dec_avoids. }
  assert (Hl0 : no_nul (line ++ [newline])).
  { apply Forall_app. split; [|by repeat constructor]. apply Forall_app. split; [done|].
    constructor; [done|]. by apply print_dec_no_nul. }
  assert (Hf : field_line key v ++ rest = line ++ newline :: rest).
  { unfold field_line, line. rewrite <- !app_assoc. cbn [app]. by rewrite <- app_assoc. }
  cbn [state_loop]. rewrite Hf, fgets_line; [|done|].
  2: { unfold line. rewrite length_app. cbn [length]. pose proof (print_dec_len v Hv). lia. }
  rewrite cstr_no_nul, split_at_app by done. cbn [fst].
  assert (Hp : scan_pair line = Some (ascii key, v)).
  { unfold scan_pair, line. rewrite scan_not_app by (done || lia).
    destruct (ascii key) as [|b l]; [cbn in Hlen; lia|]. rewrite byte_eqb_refl.
    pose proof (scan_long_print v [] Hv I) as E. rewrite app_nil_r in E. by rewrite E. }
  rewrite Hp. cbn [mbind option_bind]. rewrite Hset. unfold line.
  destruct (ascii key) as [|b l]; [cbn in Hlen; lia|]. by destruct b.
Qed.

Lemma state_loop_comment fuel l rest tmp f :
  Forall (fun b => b <> newline) l -> no_nul l -> (length l < 254)%nat ->
  match l with Byte.x23 :: _ => True | _ => False end ->
  state_loop (S fuel) (l ++ newline :: rest) tmp f = state_loop fuel rest tmp f.
Proof.
  intros Hn Hz Hl Hc. cbn [state_loop]. rewrite fgets_line by (done || lia).
  rewrite cstr_no_nul by (apply Forall_app; split; [done|by repeat constructor]).
  rewrite split_at_app by done. cbn [fst]. destruct l as [|b l]; [done|]. by destruct b.
Qed.

Lemma set_s32 v : is_s32 v -> s32 v = v.
Proof. intros H. unfold s32, is_s32 in *. rewrite Z.mod_small by lia. lia. Qed.

(** The text of a state parses to the state. *)
Lemma parse_state_text st : state_ok st -> parse_state (state_text st) = Some st.
Proof.
  intros (Hp & Hq & Hd & Hs & Hu). unfold parse_state.
  assert (Hfuel : exists k, S (length (state_text st)) = S (S (S (S (S (S (S k))))))).
  { exists (length (state_text st) - 6)%nat. unfold state_text. rewrite length_app.
    change (length (ascii _)) with 46%nat. lia. }
  destruct Hfuel as [k ->]. unfold state_text.
  rewrite state_loop_comment; [|by repeat constructor|by repeat constructor|vm_compute; lia|done].
  rewrite <- (app_nil_r (field_line "unread_count" _)).
  do 5 (erewrite state_loop_field; [|done|unfold is_s32, is_s64 in *; lia|reflexivity]).
  destruct st as [p q d s u]. cbn in *. by rewrite !set_s32.
Qed.

(** ** Loading *)

(** What a load makes of the contents of the file. *)
Definition on_disk (x : option (list byte)) : load_rc :=
  match x with
  | None => LoadMissing
  | Some c => match parse_state c with Some st => LoadOk st | None => LoadMalformed end
  end.

Abbreviation state_file := (holds state_path).
Abbreviation state_settled := (settled state_path).

Lemma load_ok x fs :
  state_settled x ∅ fs -> fst (complete updates_state_load fs) = on_disk x.
Proof.
  intros Hr. unfold updates_state_load. rewrite (complete_bind _ _ _ true fs) by done. cbn [negb].
  destruct x as [c|].
  - destruct (open_read_ok _ _ _ _ Hr) as (fd & g & E & Hr1 & _ & Hc).
    rewrite (complete_bind _ _ _ _ _ E).
    rewrite (complete_bind _ _ _ c g) by (rewrite complete_call; cbn; by rewrite Hc).
    destruct (close_ok _ _ _ fd _ Hr1) as (g' & E' & _); [by rewrite lookup_empty|].
    by rewrite (complete_bind _ _ _ _ _ E').
  - by rewrite (complete_bind _ _ _ _ _ (open_read_absent _ _ _ Hr)).
Qed.

(** ** Saving *)

Lemma state_tmp_other : state_tmp_path <> state_path.
Proof. done. Qed.

Lemma state_save_ok x st fs :
  state_settled x ∅ fs ->
  exists g, complete (updates_state_save st) fs = (0, g) /\ state_settled (Some (state_text st)) ∅ g.
Proof.
  intros Hr. unfold updates_state_save.
  do 2 (rewrite (complete_bind _ _ _ true fs) by done; cbn [negb]).
  destruct (open_tmp_ok _ _ state_tmp_other _ _ _ Hr) as (fd & g & E & Hr1 & HLfd & Ho).
  rewrite (complete_bind _ _ _ _ _ E).
  destruct (write_tmp_ok _ _ state_tmp_other _ _ _ (state_text st) _ Hr1 Ho) as (g1 & E1 & Hr2 & Ht).
  rewrite (complete_bind _ _ _ _ _ E1).
  destruct (close_ok _ _ _ fd _ Hr2 HLfd) as (g2 & E2 & Hr3 & Hf2).
  rewrite (complete_bind _ _ _ _ _ E2). rewrite Z.eqb_refl. cbn [negb].
  destruct (rename_ok _ _ state_tmp_other _ _ (state_text st) _ Hr3) as (g3 & E3 & Hr4);
    [by rewrite Hf2|].
  rewrite (complete_bind _ _ _ _ _ E3). by exists g3.
Qed.

Lemma state_save_safe x st fs :
  state_file x fs ->
  always (fun g => state_file x g \/ state_file (Some (state_text st)) g)
    (fun rc g => rc = 0 /\ state_file (Some (state_text st)) g \/ rc = -1 /\ state_file x g)
    (updates_state_save st) fs.
Proof.
  intros H. set (I g := state_file x g \/ state_file (Some (state_text st)) g).
  assert (HI : forall g, state_file x g -> I g) by (intros; by left).
  unfold updates_state_save. next_quiet H. destruct (negb _); [apply always_ret; auto|].
  next_quiet H. destruct (negb _); [apply always_ret; auto|].
  eapply always_bind; [by apply (open_tmp_keeps _ _ state_tmp_other I x)|].
  clear H. intros o g _ [H Ho]. destruct o as [fd|]; [|apply always_ret; auto].
  eapply always_bind; [by apply (write_tmp_keeps _ _ state_tmp_other I x); [..|apply Ho]|].
  clear H Ho g. intros n g _ [H Ht]. destruct (Z.eqb_spec n (zlen (state_text st))) as [En|En]; cbn [negb].
  - eapply always_bind; [apply (close_keeps _ _ state_tmp_other I x HI _ (state_text st)); auto|].
    clear H Ht. intros _ g2 _ [H Ht].
    eapply always_bind; [apply (rename_safe _ _ state_tmp_other I x HI (state_text st)); auto|].
    { intros ?; by right. }
    intros ok g3 _ H'. apply always_ret; destruct ok; auto. by right.
  - next_quiet H. apply always_ret; auto.
Qed.

Lemma on_disk_text st : state_ok st -> on_disk (Some (state_text st)) = LoadOk st.
Proof. intros Hst. unfold on_disk. rewrite (parse_state_text _ Hst). reflexivity. Qed.

(** When no call fails, a state that was saved is the one that is loaded
    next, whatever was there before. *)
Theorem state_round_trip x st fs :
  state_ok st -> state_settled x ∅ fs ->
  exists g, complete (updates_state_save st) fs = (0, g) /\
            fst (complete updates_state_load g) = LoadOk st.
Proof.
  intros Hst Hr. destruct (state_save_ok x st fs Hr) as (g & E & Hg). exists g. split; [done|].
  rewrite (load_ok _ _ Hg). exact (on_disk_text st Hst).
Qed.

Definition sample_state : UpdatesState := mkState 1234 (-1) 4102444800 7 0.

Lemma empty_settled : state_settled None ∅ (mkFS ∅ ∅ ∅ ∅ 0).
Proof.
  split; [|split; [done|intros fd [v H]; by rewrite lookup_empty in H]].
  split; [|done]. split; [intros p i H|intros p q i H]; cbn in H; by rewrite lookup_empty in H.
Qed.

Lemma sample_state_ok : state_ok sample_state.
Proof. repeat split; discriminate || reflexivity. Qed.

Lemma state_round_trip_witness :
  exists g, complete (updates_state_save sample_state) (mkFS ∅ ∅ ∅ ∅ 0) = (0, g) /\
            fst (complete updates_state_load g) = LoadOk sample_state.
Proof. exact (state_round_trip None sample_state _ sample_state_ok empty_settled). Defined.

(** Stopped after any number of calls, with any of them failing or writing
    less, a save leaves a file from which the old state or the new one is
    loaded; the new one when it returned 0, the old one when it returned -1,
    and it returns nothing else. *)
Theorem state_save_atomic ds x st fs p g :
  state_ok st -> state_file x fs -> run ds (updates_state_save st) fs = (p, g) ->
  let y := on_disk (file state_path g) in
  (y = on_disk x \/ y = LoadOk st) /\
  match p with
  | Ret rc => rc = 0 /\ y = LoadOk st \/ rc = -1 /\ y = on_disk x
  | _ => True
  end.
Proof.
  intros Hst H E. destruct (always_run _ _ _ _ _ _ _ (state_save_safe x st fs H) E) as [HI HQ].
  pose proof (on_disk_text st Hst) as Hnew.
  split.
  - destruct HI as [[_ ->]|[_ ->]]; auto.
  - destruct p as [rc|]; [|done]. destruct HQ as [[-> [_ ->]]|[-> [_ ->]]]; auto.
Qed.

Lemma state_save_atomic_witness :
  let g := snd (run [DOk; DOk; DOk; DShort 10] (updates_state_save sample_state) (mkFS ∅ ∅ ∅ ∅ 0)) in
  let y := on_disk (file state_path g) in
  (y = LoadMissing \/ y = LoadOk sample_state) /\
  match fst (run [DOk; DOk; DOk; DShort 10] (updates_state_save sample_state) (mkFS ∅ ∅ ∅ ∅ 0)) with
  | Ret rc => rc = 0 /\ y = LoadOk sample_state \/ rc = -1 /\ y = LoadMissing
  | _ => True
  end.
Proof.
  exact (state_save_atomic [DOk; DOk; DOk; DShort 10] None sample_state _ _ _ sample_state_ok
           (proj1 empty_settled) (surjective_pairing _)).
Defined.

(** The check for the four required fields counts lines: four times the same
    key passes, and the others are zero. *)
Theorem repeated_field_accepted v :
  is_s32 v ->
  parse_state (field_line "pts" v ++ field_line "pts" v ++ field_line "pts" v ++ field_line "pts" v) =
  Some (mkState v 0 0 0 0).
Proof.
  intros Hv. unfold parse_state.
  set (file := field_line "pts" v ++ _).
  assert (Hfuel : exists k, S (length file) = S (S (S (S (S k))))).
  { exists (length file - 4)%nat. unfold file, field_line. rewrite !length_app. cbn [length]. lia. }
  destruct Hfuel as [k ->].
  assert (E : file = field_line "pts" v ++ field_line "pts" v ++ field_line "pts" v ++
                     field_line "pts" v ++ []) by (unfold file; by rewrite app_nil_r).
  rewrite E.
  do 4 (erewrite state_loop_field; [|done|unfold is_s32, is_s64 in *; lia|reflexivity]).
  cbn. by rewrite set_s32.
Qed.

Lemma repeated_field_accepted_witness :
  parse_state (field_line "pts" 5 ++ field_line "pts" 5 ++ field_line "pts" 5 ++ field_line "pts" 5) =
  Some (mkState 5 0 0 0 0).
Proof. apply repeated_field_accepted. unfold is_s32. lia. Defined.
