(* ===== verification/DomainWrite.v ===== *)
(** * Requests that write (src/domain/write/)

    The peer descriptor that every request on a conversation takes (history.h),
    the InputPeer it is written as with the lemmas on the bytes of such
    requests, and the requests that send, edit, delete, forward and mark as
    read. *)

From S2P Require Import Prelude TlSerial TlLogic TlCrc World MtprotoCrypto MtprotoSession Transport.
From S2P Require Import MtprotoRpc RpcCorrect ApiCall Request.

#[local] Open Scope Z_scope.

(** ** Peers (src/domain/read/history.h) *)

Inductive HistoryPeerKind :=
| HISTORY_PEER_SELF | HISTORY_PEER_USER | HISTORY_PEER_CHAT | HISTORY_PEER_CHANNEL.

#[global] Instance peer_kind_eq_decision : EqDecision HistoryPeerKind.
Proof. solve_decision. Defined.

Record HistoryPeer := mkPeer {
  peer_kind : HistoryPeerKind;
  peer_id : Z;
  peer_access_hash : Z;
}.

(** Every value of the enumeration is written; the [default] of the switch is
    for values outside it. *)
Definition write_input_peer (w : TlWriter) (p : HistoryPeer) : TlWriter :=
  match peer_kind p with
  | HISTORY_PEER_SELF => tl_write_uint32 w TL_inputPeerSelf
  | HISTORY_PEER_USER =>
      let w := tl_write_uint32 w TL_inputPeerUser in
      let w := tl_write_int64 w (peer_id p) in
      tl_write_int64 w (peer_access_hash p)
  | HISTORY_PEER_CHAT =>
      let w := tl_write_uint32 w TL_inputPeerChat in
      tl_write_int64 w (peer_id p)
  | HISTORY_PEER_CHANNEL =>
      let w := tl_write_uint32 w TL_inputPeerChannel in
      let w := tl_write_int64 w (peer_id p) in
      tl_write_int64 w (peer_access_hash p)
  end.

Definition is_channel (p : HistoryPeer) : bool :=
  match peer_kind p with HISTORY_PEER_CHANNEL => true | _ => false end.

(** ** The bytes of a peer *)

Definition enc_peer (p : HistoryPeer) : list byte :=
  match peer_kind p with
  | HISTORY_PEER_SELF => enc32 TL_inputPeerSelf
  | HISTORY_PEER_USER => enc32 TL_inputPeerUser ++ enc64 (peer_id p) ++ enc64 (peer_access_hash p)
  | HISTORY_PEER_CHAT => enc32 TL_inputPeerChat ++ enc64 (peer_id p)
  | HISTORY_PEER_CHANNEL => enc32 TL_inputPeerChannel ++ enc64 (peer_id p) ++ enc64 (peer_access_hash p)
  end.

Lemma enc_peer_len p : 4 <= zlen (enc_peer p) <= 20.
Proof. unfold enc_peer. destruct (peer_kind p); rewrite ?zlen_app, ?enc64_len, enc32_len; lia. Qed.

Lemma write_peer_data w p : w_data (write_input_peer w p) = w_data w ++ enc_peer p.
Proof. unfold write_input_peer, enc_peer. destruct (peer_kind p); wdata; by rewrite <- ?app_assoc. Qed.

Lemma counts_peer w p : counts w -> counts (write_input_peer w p).
Proof. intros H. unfold write_input_peer. by destruct (peer_kind p); counts_tac. Qed.

(** A query within its limit is taken as it is. *)
Lemma query_bind {S A} w q max_len (k : list byte -> M S A) (st : S) :
  counts w -> w_data w = q -> zlen q <= max_len -> max_len < 2 ^ 64 ->
  (take_query w max_len ≫= k) st = k q st.
Proof.
  intros Hc Hd Hz Hm. apply bind_Done. rewrite (take_query_at w q) by (done || lia).
  by rewrite (proj2 (Z.ltb_ge _ _)) by lia.
Qed.


(** Counts, bytes and lengths of a writer sequence with peers in it. *)
Ltac peer_counts :=
  counts_tac;
  repeat (apply counts_peer; counts_tac); try done.

Ltac peer_bytes :=
  repeat first
    [ progress wdata
    | match goal with |- context [w_data (write_input_peer ?w ?p)] => rewrite (write_peer_data w p) end ];
  cbn [default from_option id]; rewrite <- ?app_assoc; try done.

Ltac peer_lia :=
  rewrite ?zlen_app, ?enc32_len, ?enc64_len, ?zlen_nil;
  repeat match goal with
  | |- context [zlen (enc_peer ?p)] =>
      pose proof (enc_peer_len p); generalize dependent (zlen (enc_peer p)); intros
  | |- context [zlen (enc_bytes ?d)] =>
      pose proof (enc_bytes_bound d); generalize dependent (zlen (enc_bytes d)); intros
  end; lia.

(** ** Requests

    messages.sendMessage, editMessage, deleteMessages, forwardMessages and
    readHistory with their variants for channels.  A C string is the bytes
    before its terminator, an array with its length is a list; the pointers
    that the functions check for NULL are there, and [err] and [msg_id_out]
    are the caller's objects. *)

(** ** Constructors *)

Definition CRC_messages_sendMessage : Z := 0x0d9d75a4.
Definition CRC_updateShortSentMessage : Z := 0x9015e101.
Definition CRC_updateMessageID : Z := 0x4e90bfd6.
Definition CRC_inputReplyToMessage : Z := 0x22c0f6d5.
Definition CRC_messages_editMessage : Z := 0x48f71778.
Definition CRC_messages_deleteMessages : Z := 0xe58e95d2.
Definition CRC_channels_deleteMessages : Z := 0x84c1fd4e.
Definition CRC_messages_forwardMessages : Z := 0xc661bbc4.
Definition CRC_messages_readHistory : Z := 0x0e306d3a.
Definition CRC_channels_readHistory : Z := 0xcc104937.

(** What follows the check of the first word accepts every word. *)
Definition any_top (top : Z) : bool := true.

(** The error detail is the only object of most of the functions. *)
Definition keep_err (e : RpcError) (x : RpcError) : RpcError := e.

(** ** Sending *)

(** [updateShortSentMessage]: constructor and flags are read, then the id if
    four bytes are left. *)
Definition read_short_sent : Rd (option Z) :=
  tl_read_uint32 ;;
  tl_read_uint32 ;;
  ok ← ask_ok;
  left ← ask_remaining;
  if ok && (4 <=? left) then id ← tl_read_int32; mret (Some id) else mret None.

(** The scan for [updateMessageID] over every byte position [i] of the
    response with 16 bytes left; [n] positions are left. *)
Fixpoint find_message_id (n : nat) (i : nat) (resp : list byte) (random_id : Z) : option Z :=
  match n with
  | O => None
  | S n =>
      if negb (le_combine (slice i 4 resp) =? CRC_updateMessageID)
      then find_message_id n (S i) resp random_id
      else
        let mid := s32 (le_combine (slice (i + 4) 4 resp)) in
        let rid := s64 (le_combine (slice (i + 8) 8 resp)) in
        if rid =? random_id then Some mid else find_message_id n (S i) resp random_id
  end.

Definition scan_message_id (resp : list byte) (random_id : Z) : option Z :=
  if 16 <=? zlen resp then find_message_id (length resp - 16 + 1) 0 resp random_id else None.

Section Write.
Context `{C : Crypto} (tinf : Z -> list byte -> option (list byte)) (cfg : ApiConfig).

Definition set_sent_id (v : Z) (x : Z * RpcError) : Z * RpcError := (v, snd x).

(** The generator does not fail, so the identifier is its next eight bytes. *)
Definition domain_send_message_reply (peer : HistoryPeer) (message : list byte)
    (reply_to_msg_id : Z) : Cx (Z * RpcError) unit :=
  let mlen := zlen message in
  if (mlen =? 0) || (4096 <? mlen) then fail
  else
    rand_buf ← on_snd (on_snd (crypto_rand_bytes 8));
    let random_id := s64 (le_combine rand_buf) in
    let w := tl_writer_init in
    let w := tl_write_uint32 w CRC_messages_sendMessage in
    let flags := if 0 <? reply_to_msg_id then 1 else 0 in
    let w := tl_write_uint32 w flags in
    let w := write_input_peer w peer in
    let w := if 0 <? reply_to_msg_id then
               let w := tl_write_uint32 w CRC_inputReplyToMessage in
               let w := tl_write_uint32 w 0 in
               tl_write_int32 w reply_to_msg_id
             else w in
    let w := tl_write_string w (Some message) in
    let w := tl_write_int64 w random_id in
    query ← take_query w 8192;
    resp ← call_api tinf cfg query 8192;
    check_top set_err any_top resp ;;
    let top := first_word resp in
    upd_ctx (set_sent_id 0) ;;
    if top =? CRC_updateShortSentMessage then
      id ← with_parser resp (lift read_short_sent);
      match id with Some id => upd_ctx (set_sent_id id) | None => mret tt end
    else if (top =? TL_updates) || (top =? TL_updatesCombined) then
      match scan_message_id resp random_id with
      | Some mid => upd_ctx (set_sent_id mid)
      | None => mret tt
      end
    else mret tt.

Definition domain_send_message (peer : HistoryPeer) (message : list byte) : Cx (Z * RpcError) unit :=
  domain_send_message_reply peer message 0.

(** ** Editing *)

Definition domain_edit_message (peer : HistoryPeer) (msg_id : Z) (new_text : list byte)
    : Cx RpcError unit :=
  let mlen := zlen new_text in
  if (mlen =? 0) || (4096 <? mlen) then fail
  else if msg_id <=? 0 then fail
  else
    let w := tl_writer_init in
    let w := tl_write_uint32 w CRC_messages_editMessage in
    let w := tl_write_uint32 w (Z.shiftl 1 11) in
    let w := write_input_peer w peer in
    let w := tl_write_int32 w msg_id in
    let w := tl_write_string w (Some new_text) in
    query ← take_query w 8192;
    resp ← call_api tinf cfg query 4096;
    check_top keep_err any_top resp.

(** ** Deleting *)

Definition write_ids (w : TlWriter) (ids : list Z) : TlWriter := fold_left tl_write_int32 ids w.

Definition domain_delete_messages (peer : HistoryPeer) (ids : list Z) (revoke : bool)
    : Cx RpcError unit :=
  let n_ids := zlen ids in
  if (n_ids <=? 0) || (100 <? n_ids) then fail
  else
    let w := tl_writer_init in
    let w := if is_channel peer then
               let w := tl_write_uint32 w CRC_channels_deleteMessages in
               let w := tl_write_uint32 w CRC_inputChannel in
               let w := tl_write_int64 w (peer_id peer) in
               tl_write_int64 w (peer_access_hash peer)
             else
               let w := tl_write_uint32 w CRC_messages_deleteMessages in
               tl_write_uint32 w (if revoke then 1 else 0) in
    let w := tl_write_uint32 w TL_vector in
    let w := tl_write_uint32 w (u32 n_ids) in
    let w := write_ids w ids in
    query ← take_query w 1024;
    resp ← call_api tinf cfg query 1024;
    check_top keep_err any_top resp.

(** ** Forwarding *)

(** One random identifier per message. *)
Fixpoint write_random_ids (n : nat) (w : TlWriter) : Cx RpcError TlWriter :=
  match n with
  | O => mret w
  | S n =>
      rnd ← on_snd (on_snd (crypto_rand_bytes 8));
      write_random_ids n (tl_write_int64 w (s64 (le_combine rnd)))
  end.

Definition domain_forward_messages (from to : HistoryPeer) (ids : list Z) : Cx RpcError unit :=
  let n_ids := zlen ids in
  if (n_ids <=? 0) || (100 <? n_ids) then fail
  else
    let w := tl_writer_init in
    let w := tl_write_uint32 w CRC_messages_forwardMessages in
    let w := tl_write_uint32 w 0 in
    let w := write_input_peer w from in
    let w := tl_write_uint32 w TL_vector in
    let w := tl_write_uint32 w (u32 n_ids) in
    let w := write_ids w ids in
    let w := tl_write_uint32 w TL_vector in
    let w := tl_write_uint32 w (u32 n_ids) in
    w ← write_random_ids (length ids) w;
    let w := write_input_peer w to in
    query ← take_query w 2048;
    resp ← call_api tinf cfg query 4096;
    check_top keep_err any_top resp.

(** ** Marking as read *)

(** [None] is the return value [-1]; [default] is the kind that is left,
    a channel. *)
Definition build_messages_request {S} (peer : HistoryPeer) (max_id cap : Z) : M S (list byte) :=
  let w := tl_write_uint32 tl_writer_init CRC_messages_readHistory in
  match peer_kind peer with
  | HISTORY_PEER_CHANNEL => fail
  | _ => take_query (tl_write_int32 (write_input_peer w peer) max_id) cap
  end.

Definition build_channels_request {S} (peer : HistoryPeer) (max_id cap : Z) : M S (list byte) :=
  let w := tl_writer_init in
  let w := tl_write_uint32 w CRC_channels_readHistory in
  let w := tl_write_uint32 w CRC_inputChannel in
  let w := tl_write_int64 w (peer_id peer) in
  let w := tl_write_int64 w (peer_access_hash peer) in
  let w := tl_write_int32 w max_id in
  take_query w cap.

Definition domain_mark_read (peer : HistoryPeer) (max_id : Z) : Cx RpcError unit :=
  query ← (if is_channel peer then build_channels_request peer max_id 64
           else build_messages_request peer max_id 64);
  resp ← call_api tinf cfg query 512;
  check_top keep_err any_top resp ;;
  let top := first_word resp in
  if is_channel peer then
    if top =? TL_boolTrue then mret tt
    else if top =? TL_boolFalse then fail
    else mret tt
  else mret tt.

End Write.
