(* ===== verification/DomainWriteTheorems.v ===== *)
(** * Requests that write: theorems (src/domain/write/)

    The bytes of each request; the id that a sent message gets; every request
    is safe whatever the server answers. *)

From S2P Require Import Prelude TlSerial TlLogic TlCrc TlSkipBase TlSkipSafe TlRefine World.
From S2P Require Import MtprotoCrypto MtprotoSession Transport WireTheorems MtprotoRpc RpcCorrect.
From S2P Require Import ApiCall ApiCorrect Request RpcTheorems CallLogic LoginCorrect LoginTheorems.
From S2P Require Import DomainWrite.

#[local] Open Scope Z_scope.

(** ** The bytes of the requests *)

Definition enc_channel (p : HistoryPeer) : list byte :=
  enc32 CRC_inputChannel ++ enc64 (peer_id p) ++ enc64 (peer_access_hash p).

Definition enc_vector (enc : Z -> list byte) (vs : list Z) : list byte :=
  enc32 TL_vector ++ enc32 (zlen vs) ++ concat (map enc vs).

Lemma write_ids_data ids : forall w, w_data (write_ids w ids) = w_data w ++ concat (map enc32 ids).
Proof.
  induction ids as [|i ids IH]; intros w; cbn; [by rewrite app_nil_r|].
  change (fold_left tl_write_int32 ids ?v) with (write_ids v ids). rewrite IH. wdata.
  by rewrite <- app_assoc.
Qed.

Lemma counts_ids ids : forall w, counts w -> counts (write_ids w ids).
Proof.
  induction ids as [|i ids IH]; intros w H; [done|]. cbn.
  change (fold_left tl_write_int32 ids ?v) with (write_ids v ids). apply IH. counts_tac. done.
Qed.

Lemma concat_enc_len (enc : Z -> list byte) n vs :
  (forall v, zlen (enc v) = n) -> zlen (concat (map enc vs)) = n * zlen vs.
Proof.
  intros He. induction vs as [|v vs IH]; cbn; [unfold zlen; cbn; lia|].
  rewrite zlen_app, He, IH, (zlen_cons v vs). nia.
Qed.

(** The next random identifiers, and the world behind them. *)
Definition rand_taken (k : nat) (w : World) : World :=
  mkWorld (w_rand w) (w_rpos w + k) (w_clock w) (w_ticks w) (w_net w).

Definition next_id (w : World) : Z := s64 (le_combine (map (w_rand w) (seq (w_rpos w) 8))).

Fixpoint rand_ids (n : nat) (w : World) : list Z :=
  match n with
  | O => []
  | S n => next_id w :: rand_ids n (rand_taken 8 w)
  end.

Lemma rand_ids_len n : forall w, length (rand_ids n w) = n.
Proof. induction n as [|n IH]; intros w; cbn; [done|]. by rewrite IH. Qed.

Lemma write_random_at n : forall v e s t w, counts v -> exists v',
  write_random_ids n v (e, (s, t, w)) = Done v' (e, (s, t, rand_taken (8 * n) w)) /\
  w_data v' = w_data v ++ concat (map enc64 (rand_ids n w)) /\ counts v'.
Proof.
  induction n as [|n IH]; intros v e s t w Hv.
  - exists v. unfold rand_taken. rewrite Nat.mul_0_r, Nat.add_0_r. destruct w. by rewrite app_nil_r.
  - cbn [write_random_ids rand_ids map concat].
    destruct (IH (tl_write_int64 v (next_id w)) e s t (rand_taken 8 w)) as (v' & E & Hd & Hc);
      [by counts_tac|].
    exists v'. split_and!; [|rewrite Hd; wdata; by rewrite <- app_assoc|done].
    rewrite (bind_Done _ _ _ (map (w_rand w) (seq (w_rpos w) 8)) (e, (s, t, rand_taken 8 w))) by done.
    etransitivity; [exact E|]. unfold rand_taken. cbn [w_rand w_rpos w_clock w_ticks w_net].
    by replace (w_rpos w + 8 + 8 * n)%nat with (w_rpos w + 8 * S n)%nat by lia.
Qed.

Definition send_query (peer : HistoryPeer) (message : list byte) (reply random_id : Z) : list byte :=
  enc32 CRC_messages_sendMessage ++ enc32 (if 0 <? reply then 1 else 0) ++ enc_peer peer ++
  optional (0 <? reply) (enc32 CRC_inputReplyToMessage ++ enc32 0 ++ enc32 reply) ++
  enc_bytes message ++ enc64 random_id.

Definition edit_query (peer : HistoryPeer) (msg_id : Z) (new_text : list byte) : list byte :=
  enc32 CRC_messages_editMessage ++ enc32 2048 ++ enc_peer peer ++ enc32 msg_id ++ enc_bytes new_text.

Definition delete_query (peer : HistoryPeer) (ids : list Z) (revoke : bool) : list byte :=
  (if is_channel peer then enc32 CRC_channels_deleteMessages ++ enc_channel peer
   else enc32 CRC_messages_deleteMessages ++ enc32 (if revoke then 1 else 0)) ++
  enc_vector enc32 ids.

Definition forward_query (from to : HistoryPeer) (ids rids : list Z) : list byte :=
  enc32 CRC_messages_forwardMessages ++ enc32 0 ++ enc_peer from ++ enc_vector enc32 ids ++
  enc_vector enc64 rids ++ enc_peer to.

Definition read_query (peer : HistoryPeer) (max_id : Z) : list byte :=
  (if is_channel peer then enc32 CRC_channels_readHistory ++ enc_channel peer
   else enc32 CRC_messages_readHistory ++ enc_peer peer) ++ enc32 max_id.

Ltac counts_step := peer_counts; repeat (apply counts_ids; peer_counts).

Ltac wbytes :=
  repeat (peer_bytes; match goal with
    | |- context [w_data (write_ids ?w ?l)] => rewrite (write_ids_data l w) end);
  peer_bytes.

(** ** Safety *)

Lemma concat32_len ids : zlen (concat (map enc32 ids)) = 4 * zlen ids.
Proof. apply concat_enc_len, enc32_len. Qed.

Lemma concat64_len ids : zlen (concat (map enc64 ids)) = 8 * zlen ids.
Proof. apply concat_enc_len, enc64_len. Qed.

Lemma zlen_rand_ids n w : zlen (rand_ids n w) = Z.of_nat n.
Proof. unfold zlen. by rewrite rand_ids_len. Qed.

Ltac query_lia := rewrite ?zlen_app, ?concat32_len, ?concat64_len; peer_lia.

Section Safe.
Context `{C : Crypto} {HC : CryptoLaws C} (tinf : Z -> list byte -> option (list byte)).
Context (cfg : ApiConfig) (Hcfg : cfg_small cfg) (Hf : tinf_fits tinf).

(** A request whose answer is only checked. *)
Lemma cx_request {X} (I : X -> Prop) w qmax rmax on_error expected :
  counts w -> zlen (w_data w) < 2 ^ 64 -> qmax <= 900000 -> 0 <= rmax ->
  (forall e x, I x -> I (on_error e x)) ->
  cx_safe I (query ← take_query w qmax;
             resp ← call_api tinf cfg query rmax;
             check_top on_error expected resp) any_result.
Proof.
  intros Hc Hz Hq Hr He. eapply cx_bind; [by apply cx_take_query|]. intros q [_ Hql].
  eapply cx_bind; [apply cx_call; try done|].
  { rewrite wrapped_len. unfold cfg_small, RPC_BUF_SIZE in *. lia. }
  intros resp _. eapply cx_weaken; [by apply cx_check_top|done].
Qed.

Lemma safe_short_sent b : safe_upto b read_short_sent.
Proof. unfold read_short_sent. safe_tac. Qed.
Hint Resolve safe_short_sent : tl_safe.

Lemma send_safe peer message reply :
  cx_safe no_inv (domain_send_message_reply tinf cfg peer message reply) any_result.
Proof.
  unfold domain_send_message_reply. cbn zeta. cx_step; [intros; apply cx_fail|]. intros Hb. bool_prop.
  eapply cx_bind; [apply cx_rand|]. intros rnd Hrnd.
  eapply cx_exchange; [exact _|exact Hcfg|exact Hf|..|done|].
  - destruct (0 <? reply); counts_step.
  - destruct (0 <? reply); wbytes; query_lia.
  - lia.
  - lia.
  - intros resp Hr _. cx_tac; try done.
    + unfold SIZE_LIM; lia.
    + apply px_lift. safe_tac.
Qed.

Lemma edit_safe peer msg_id new_text :
  cx_safe no_inv (domain_edit_message tinf cfg peer msg_id new_text) any_result.
Proof.
  unfold domain_edit_message. cbn zeta. do 2 (cx_step; [intros; apply cx_fail|]; intros ?). bool_prop.
  apply cx_request; [counts_step|wbytes; query_lia|lia..|done].
Qed.

Lemma delete_safe peer ids revoke :
  cx_safe no_inv (domain_delete_messages tinf cfg peer ids revoke) any_result.
Proof.
  unfold domain_delete_messages. cbn zeta. cx_step; [intros; apply cx_fail|]; intros ?. bool_prop.
  apply cx_request; [|wbytes|lia..|done].
  - destruct (is_channel peer); counts_step.
  - destruct (is_channel peer); wbytes; query_lia.
Qed.

Lemma write_random_safe n : forall w, counts w ->
  cx_safe no_inv (write_random_ids n w) (fun w' => counts w' /\ zlen (w_data w') = zlen (w_data w) + 8 * Z.of_nat n).
Proof.
  intros w Hw e s t v He Hs. destruct (write_random_at n w e s t v Hw) as (w' & -> & Hd & Hc).
  split; [by apply conn_kept_refl|]. split_and!; try done.
  rewrite Hd, zlen_app, concat64_len, zlen_rand_ids. lia.
Qed.

Lemma forward_safe from to ids :
  cx_safe no_inv (domain_forward_messages tinf cfg from to ids) any_result.
Proof.
  unfold domain_forward_messages. cbn zeta. cx_step; [intros; apply cx_fail|]; intros ?. bool_prop.
  eapply cx_bind; [apply write_random_safe; counts_step|]. intros w [Hc Hl]. revert Hl. wbytes. intros Hl.
  apply cx_request; [by apply counts_peer|rewrite write_peer_data, zlen_app, Hl|lia..|done].
  change (Z.of_nat (length ids)) with (zlen ids). query_lia.
Qed.

Lemma mark_read_safe peer max_id :
  cx_safe no_inv (domain_mark_read tinf cfg peer max_id) any_result.
Proof.
  unfold domain_mark_read, build_channels_request, build_messages_request. cbn zeta.
  eapply (cx_bind _ _ _ (fun q => zlen q <= 64)).
  - assert (Hq : forall w, counts w -> zlen (w_data w) < 2 ^ 64 ->
      cx_safe no_inv (take_query (S := RpcError * _) w 64) (fun q => zlen q <= 64)).
    { intros w Hw Hz. eapply cx_weaken; [by apply cx_take_query|]. by intros q [_ Hq]. }
    cx_tac; try (apply Hq; [counts_step|wbytes; query_lia]).
  - intros q Hq. eapply cx_bind; [apply cx_call; try done|].
    { rewrite wrapped_len. unfold cfg_small, RPC_BUF_SIZE in *. lia. }
    intros resp Hr. cx_tac; try done. 
Qed.

End Safe.

(** (C33) Every request that writes ends without leaving a buffer, whatever the
    arguments, the server and the connection do, and keeps the key and the
    id of the session. *)
Theorem domain_writes_safe `{C : Crypto} {HC : CryptoLaws C} tinf cfg peer to message reply msg_id ids
    revoke max_id :
  cfg_small cfg -> tinf_fits tinf ->
  cx_safe no_inv (domain_send_message_reply tinf cfg peer message reply) any_result /\
  cx_safe no_inv (domain_edit_message tinf cfg peer msg_id message) any_result /\
  cx_safe no_inv (domain_delete_messages tinf cfg peer ids revoke) any_result /\
  cx_safe no_inv (domain_forward_messages tinf cfg peer to ids) any_result /\
  cx_safe no_inv (domain_mark_read tinf cfg peer max_id) any_result.
Proof.
  intros. split_and!; [by apply send_safe | by apply edit_safe | by apply delete_safe
    | by apply forward_safe | by apply mark_read_safe].
Qed.

Definition toy_peer : HistoryPeer := mkPeer HISTORY_PEER_USER 77 (-5).

Lemma domain_writes_safe_witness :
  cx_safe no_inv (domain_send_message_reply (C := toy_crypto) store_tinf api_config_init toy_peer
    [Byte.x68; Byte.x69] 3) any_result.
Proof.
  refine (proj1 (domain_writes_safe (C := toy_crypto) store_tinf api_config_init toy_peer toy_peer
    [Byte.x68; Byte.x69] 3 1 [1] true 0 _ store_tinf_fits)). by vm_compute.
Defined.

(** ** The id of a sent message *)

Lemma slice_app i n m (l : list byte) : slice i (n + m) l = slice i n l ++ slice (i + n) m l.
Proof. unfold slice. by rewrite <- drop_drop, take_take_drop. Qed.

(** At position [i] stands an [updateMessageID] that gives the message with
    the identifier [rid] the id [mid]. *)
Definition announces (resp : list byte) (rid : Z) (i : nat) (mid : Z) : Prop :=
  is_s32 mid /\ slice i 16 resp = enc32 CRC_updateMessageID ++ enc32 mid ++ enc64 rid.

Lemma announces_fits resp rid i mid : announces resp rid i mid -> (i + 16 <= length resp)%nat.
Proof.
  intros [_ H]. apply (f_equal length) in H. unfold slice, enc32, enc64 in H. revert H.
  rewrite length_take, length_drop, !length_app, !length_le_split. intros H. lia.
Qed.

Lemma announces_spec resp rid i mid :
  is_s64 rid -> (i + 16 <= length resp)%nat ->
  announces resp rid i mid <->
  le_combine (slice i 4 resp) = CRC_updateMessageID /\
  mid = s32 (le_combine (slice (i + 4) 4 resp)) /\ s64 (le_combine (slice (i + 8) 8 resp)) = rid.
Proof.
  intros Hr Hl. unfold announces. rewrite (slice_app i 4 12), (slice_app (i + 4) 4 8).
  replace (i + 4 + 4)%nat with (i + 8)%nat by lia.
  pose proof (slice_len i 4 resp ltac:(lia)) as La. pose proof (slice_len (i + 4) 4 resp ltac:(lia)) as Lb.
  pose proof (slice_len (i + 8) 8 resp ltac:(lia)) as Lc. split.
  - intros [Hm H]. apply app_inj_1 in H as [Ha H]; [|by rewrite La].
    apply app_inj_1 in H as [Hb Hc]; [|by rewrite Lb]. rewrite Ha, Hb, Hc.
    by rewrite combine_enc32, s32_combine, s64_combine by done.
  - intros (Ha & -> & Hc). split; [apply s32_range|]. f_equal; [|f_equal].
    + by rewrite <- Ha, enc32_any by (unfold zlen; lia).
    + by rewrite enc32_s32, enc32_any by (unfold zlen; lia).
    + by rewrite <- Hc, enc64_s64, enc64_combine by (unfold zlen; lia).
Qed.

(** The first announcement of [rid]. *)
Definition first_announced (resp : list byte) (rid : Z) (r : option Z) : Prop :=
  match r with
  | Some mid => exists i, announces resp rid i mid /\ forall j mid', (j < i)%nat -> ~ announces resp rid j mid'
  | None => forall i mid, ~ announces resp rid i mid
  end.

Lemma find_message_id_spec n resp rid : is_s64 rid -> forall i,
  (i + n + 15 = length resp)%nat -> (forall j mid, (j < i)%nat -> ~ announces resp rid j mid) ->
  first_announced resp rid (find_message_id n i resp rid).
Proof.
  intros Hr. induction n as [|n IH]; intros i Hl Hb; cbn [find_message_id].
  - intros j mid Ha. pose proof (announces_fits _ _ _ _ Ha). eapply Hb, Ha. lia.
  - pose proof (announces_spec resp rid i) as Hs.
    assert (Hn : (forall mid, ~ announces resp rid i mid) ->
                 first_announced resp rid (find_message_id n (S i) resp rid)).
    { intros Hi. apply IH; [lia|]. intros j mid Hj. destruct (decide (j = i)) as [->|]; [apply Hi|].
      apply Hb. lia. }
    destruct (Z.eqb_spec (le_combine (slice i 4 resp)) CRC_updateMessageID) as [Hc|Hc]; cbn [negb].
    2: { apply Hn. intros mid Ha. by apply Hs in Ha as (? & _); [|done|lia]. }
    destruct (Z.eqb_spec (s64 (le_combine (slice (i + 8) 8 resp))) rid) as [Hd|Hd].
    2: { apply Hn. intros mid Ha. by apply Hs in Ha as (_ & _ & ?); [|done|lia]. }
    exists i. split; [|done]. by apply Hs; [|lia|].
Qed.

Lemma scan_message_id_spec resp rid :
  is_s64 rid -> first_announced resp rid (scan_message_id resp rid).
Proof.
  intros Hr. unfold scan_message_id. destruct (Z.leb_spec 16 (zlen resp)) as [Hl|Hl]; unfold zlen in Hl.
  - apply find_message_id_spec; [done|lia|]. intros j mid Hj. lia.
  - intros i mid Ha. pose proof (announces_fits _ _ _ _ Ha). lia.
Qed.

Lemma short_sent_cut resp :
  zlen resp < 12 -> exists r, read_short_sent (tl_reader_init resp (zlen resp)) = Done None r.
Proof.
  intros Hz. pose proof (zlen_nonneg resp).
  assert (Hwf : reader_wf (tl_reader_init resp (zlen resp))) by (apply reader_init_wf; unfold SIZE_LIM; lia).
  destruct (read_le32_left _ Hwf) as (v1 & r1 & E1 & [Hwf1 (Hd1 & Hn1 & _)] & L1).
  destruct (read_le32_left r1 Hwf1) as (v2 & r2 & E2 & [Hwf2 (Hd2 & Hn2 & _)] & L2).
  exists r2. unfold read_short_sent. rewrite (bind_Done _ _ _ _ _ E1), (bind_Done _ _ _ _ _ E2).
  rewrite (bind_Done _ _ _ (tl_reader_ok r2) r2), (bind_Done _ _ _ (remaining r2) r2) by done.
  assert (Hl : left r2 < 4) by (rewrite L2, L1; unfold left; cbn; lia).
  unfold tl_reader_ok, remaining, left in *. destruct (Z.ltb_spec (r_pos r2) (r_len r2)); [|done].
  unfold reader_wf, SIZE_LIM in *. rewrite u64_id by (unfold is_u64; lia).
  by rewrite (proj2 (Z.leb_gt _ _)) by lia.
Qed.

Lemma parses_short_sent {X} (x : X) flags id :
  is_u32 flags -> is_s32 id ->
  parses (lift read_short_sent) x (enc32 CRC_updateShortSentMessage ++ enc32 flags ++ enc32 id) (Some id) x.
Proof.
  intros Hf Hi. apply parses_lift. unfold read_short_sent.
  eapply reads_bind; [by apply reads_uint32|]. eapply reads_bind; [by apply reads_uint32|].
  intros r tl Hwf Hr. change (rd r) with r in *.
  destruct (remaining_at r _ tl Hwf Hr) as [Hok Hl]; [by rewrite enc32_len|]. rewrite enc32_len in Hl.
  rewrite (bind_Done _ _ _ true r), (bind_Done _ _ _ (remaining r) r) by (unfold ask_ok; by rewrite ?Hok).
  rewrite (proj2 (Z.leb_le _ _)) by lia. cbn [andb].
  by apply (reads_map tl_read_int32 Some (enc32 id) id (reads_int32 id Hi) r tl).
Qed.

(** What the caller learns about the id of the message. *)
Inductive sent_id (resp : list byte) (rid : Z) : Z -> Prop :=
| sent_short flags id tl :
    resp = enc32 CRC_updateShortSentMessage ++ enc32 flags ++ enc32 id ++ tl ->
    is_u32 flags -> is_s32 id -> sent_id resp rid id
| sent_cut : first_word resp = CRC_updateShortSentMessage -> zlen resp < 12 -> sent_id resp rid 0
| sent_updates r :
    first_word resp = TL_updates \/ first_word resp = TL_updatesCombined ->
    first_announced resp rid r -> sent_id resp rid (default 0 r)
| sent_other :
    first_word resp <> CRC_updateShortSentMessage -> first_word resp <> TL_updates ->
    first_word resp <> TL_updatesCombined -> sent_id resp rid 0.

Lemma word_front (l : list byte) : 4 <= zlen l ->
  exists v tl, l = enc32 v ++ tl /\ is_u32 v /\ zlen l = 4 + zlen tl.
Proof.
  intros Hz. exists (le_combine (take 4 l)), (drop 4 l).
  assert (H4 : zlen (take 4 l) = 4) by (unfold zlen in *; rewrite length_take; lia).
  rewrite enc32_any, take_drop by done. split; [done|]. split.
  - pose proof (le_combine_bound (take 4 l)) as Hb. by replace (length (take 4 l)) with 4%nat in Hb by (unfold zlen in H4; lia).
  - unfold zlen in *. rewrite length_drop. lia.
Qed.

Lemma short_front resp :
  first_word resp = CRC_updateShortSentMessage -> 12 <= zlen resp -> exists flags id tl,
  resp = enc32 CRC_updateShortSentMessage ++ enc32 flags ++ enc32 id ++ tl /\ is_u32 flags /\ is_s32 id.
Proof.
  intros Hw Hz. destruct (word_front resp) as (c & l1 & -> & Hc & Hz1); [lia|].
  rewrite first_word_enc32 in Hw by done. subst c.
  destruct (word_front l1) as (fl & l2 & -> & Hfl & Hz2); [lia|].
  destruct (word_front l2) as (v & tl & -> & Hv & Hz3); [lia|].
  exists fl, (s32 v), tl. rewrite enc32_s32. split_and!; [done|done|apply s32_range].
Qed.

(** (C24) A message of 1 to 4096 bytes goes out as one messages.sendMessage with
    the peer, the reply and eight fresh random bytes as identifier; when the
    answer is not an error the call succeeds, and the caller gets the id that
    the server assigned: the one of updateShortSentMessage, or the one of the
    first updateMessageID in the envelope that carries the identifier of this
    message, and 0 when there is none. *)
Theorem send_message_id `{C : Crypto} tinf cfg peer message reply x e s t w resp st' :
  0 < zlen message <= 4096 ->
  api_call tinf cfg (send_query peer message reply (next_id w)) 8192 (s, t, rand_taken 8 w) =
    Done resp st' ->
  4 <= zlen resp <= 8192 -> first_word resp <> TL_rpc_error ->
  exists id, sent_id resp (next_id w) id /\
    domain_send_message_reply tinf cfg peer message reply ((x, e), (s, t, w)) = Done tt ((id, e), st').
Proof.
  intros Hm Ha Hz Hn. unfold domain_send_message_reply. cbn zeta.
  rewrite (proj2 (Z.eqb_neq _ _)), (proj2 (Z.ltb_ge _ _)) by lia. cbn [orb].
  rewrite (bind_Done _ _ _ (map (w_rand w) (seq (w_rpos w) 8)) ((x, e), (s, t, rand_taken 8 w))) by done.
  fold (next_id w).
  rewrite (query_bind _ (send_query peer message reply (next_id w))).
  2: { destruct (0 <? reply); counts_step. }
  2: { unfold send_query, optional. destruct (0 <? reply); wbytes. }
  2: { unfold send_query, optional. destruct (0 <? reply); query_lia. }
  2: lia.
  rewrite (bind_Done _ _ _ _ _ (call_api_at tinf cfg _ 8192 (x, e) _ _ _ Ha)).
  rewrite (bind_Done _ _ _ tt ((x, e), st')).
  2: { unfold check_top. by rewrite (proj2 (Z.ltb_ge _ _)), (proj2 (Z.eqb_neq _ _) Hn) by lia. }
  rewrite (bind_Done _ _ _ tt ((0, e), st')) by done.
  destruct (Z.eqb_spec (first_word resp) CRC_updateShortSentMessage) as [Hs|Hs].
  - destruct (Z.ltb_spec (zlen resp) 12) as [Hc|Hc].
    + exists 0. split; [by apply sent_cut|]. destruct (short_sent_cut resp Hc) as [r Hr].
      rewrite (bind_Done _ _ _ None ((0, e), st')); [done|].
      unfold with_parser, lift. cbn [fst snd]. by rewrite Hr.
    + destruct (short_front resp Hs Hc) as (fl & id & tl & -> & Hfl & Hid).
      exists id. split; [by eapply sent_short|].
      rewrite (bind_Done _ _ _ (Some id) ((0, e), st')); [done|].
      eapply with_parser_at; [by apply (parses_short_sent _ fl)|by rewrite <- !app_assoc|].
      unfold SIZE_LIM. lia.
  - pose proof (scan_message_id_spec resp (next_id w) (s64_range _)) as Hf.
    destruct (Z.eqb_spec (first_word resp) TL_updates) as [Hu|Hu];
      [|destruct (Z.eqb_spec (first_word resp) TL_updatesCombined) as [Hv|Hv]]; cbn [orb].
    1, 2: exists (default 0 (scan_message_id resp (next_id w)));
      (split; [apply sent_updates; [auto|done]|by destruct (scan_message_id _ _)]).
    exists 0. split; [by apply sent_other|done].
Qed.

(** The state behind a call that the peer answers, from any state. *)
Definition answered_in st (query : list byte) (max_len : Z) :=
  match api_call (C := toy_crypto) store_tinf api_config_init query max_len st with
  | Done _ st' => st'
  | _ => st
  end.

Lemma answered_in_at st query max_len body :
  match api_call (C := toy_crypto) store_tinf api_config_init query max_len st with
  | Done b _ => bool_decide (b = body)
  | _ => false
  end = true ->
  api_call (C := toy_crypto) store_tinf api_config_init query max_len st =
    Done body (answered_in st query max_len).
Proof.
  unfold answered_in. destruct (api_call _ _ _ _ _) as [b st'|st'| |]; try done.
  by intros ->%bool_decide_eq_true.
Qed.

(** An envelope with another update in front of the announcement. *)
Definition toy_updates : list byte :=
  enc32 TL_updates ++ enc32 7 ++
  enc32 CRC_updateMessageID ++ enc32 9 ++ enc64 12345 ++
  enc32 CRC_updateMessageID ++ enc32 4711 ++ enc64 (next_id (answering_world [])) ++ enc32 0.

Definition toy_send_state := (sample_session, sample_transport, answering_world toy_updates).
Definition toy_send_query : list byte :=
  send_query toy_peer [Byte.x68; Byte.x69] 3 (next_id (answering_world toy_updates)).

Lemma toy_updates_answered :
  api_call (C := toy_crypto) store_tinf api_config_init toy_send_query 8192
    (sample_session, sample_transport, rand_taken 8 (answering_world toy_updates)) =
  Done toy_updates (answered_in
    (sample_session, sample_transport, rand_taken 8 (answering_world toy_updates)) toy_send_query 8192).
Proof. apply answered_in_at. vm_cast_no_check (eq_refl true). Qed.

Lemma send_message_id_witness :
  exists id, sent_id toy_updates (next_id (answering_world toy_updates)) id /\
    domain_send_message_reply (C := toy_crypto) store_tinf api_config_init toy_peer
      [Byte.x68; Byte.x69] 3 ((-1, no_error), toy_send_state) =
    Done tt ((id, no_error), answered_in
      (sample_session, sample_transport, rand_taken 8 (answering_world toy_updates)) toy_send_query 8192).
Proof.
  refine (send_message_id (C := toy_crypto) store_tinf api_config_init toy_peer [Byte.x68; Byte.x69] 3
    (-1) no_error sample_session sample_transport (answering_world toy_updates) toy_updates _ _
    toy_updates_answered _ _); first [by vm_compute | by split; vm_compute].
Defined.

Example toy_sent_id :
  match domain_send_message_reply (C := toy_crypto) store_tinf api_config_init toy_peer
          [Byte.x68; Byte.x69] 3 ((-1, no_error), toy_send_state) with
  | Done _ ((id, _), _) => id
  | _ => 0
  end = 4711.
Proof. vm_compute. reflexivity. Qed.

(** ** The other requests *)

(** (C32) The arguments of the other requests are checked before anything is sent:
    a text of 1 to 4096 bytes and a positive id for an edit, 1 to 100 ids for
    a deletion and a forwarding.  Then exactly one request with the layout of
    the schema goes out - channels have methods of their own, and every
    forwarded message has a fresh random identifier - and every answer that
    is not an error counts as success, boolFalse for a channel apart. *)
Theorem domain_write_requests `{C : Crypto} tinf cfg peer to msg_id new_text ids revoke max_id e s t w :
  domain_edit_message tinf cfg peer msg_id new_text (e, (s, t, w)) =
    (if (0 <? zlen new_text) && (zlen new_text <=? 4096) && (0 <? msg_id) then
       (resp ← call_api tinf cfg (edit_query peer msg_id new_text) 4096;
        check_top keep_err any_top resp) (e, (s, t, w))
     else Fail (e, (s, t, w))) /\
  domain_delete_messages tinf cfg peer ids revoke (e, (s, t, w)) =
    (if (0 <? zlen ids) && (zlen ids <=? 100) then
       (resp ← call_api tinf cfg (delete_query peer ids revoke) 1024;
        check_top keep_err any_top resp) (e, (s, t, w))
     else Fail (e, (s, t, w))) /\
  domain_forward_messages tinf cfg peer to ids (e, (s, t, w)) =
    (if (0 <? zlen ids) && (zlen ids <=? 100) then
       (resp ← call_api tinf cfg (forward_query peer to ids (rand_ids (length ids) w)) 4096;
        check_top keep_err any_top resp) (e, (s, t, rand_taken (8 * length ids) w))
     else Fail (e, (s, t, w))) /\
  domain_mark_read tinf cfg peer max_id (e, (s, t, w)) =
    (resp ← call_api tinf cfg (read_query peer max_id) 512;
     check_top keep_err any_top resp ;;
     if is_channel peer && (first_word resp =? TL_boolFalse) then fail else mret tt) (e, (s, t, w)).
Proof.
  split_and!.
  - unfold domain_edit_message. cbn zeta. pose proof (zlen_nonneg new_text).
    destruct (Z.eqb_spec (zlen new_text) 0), (Z.ltb_spec 4096 (zlen new_text)), (Z.leb_spec msg_id 0),
      (Z.ltb_spec 0 (zlen new_text)), (Z.leb_spec (zlen new_text) 4096), (Z.ltb_spec 0 msg_id);
      cbn [orb andb]; try lia; try done.
    rewrite (query_bind _ (edit_query peer msg_id new_text)); [done|counts_step|wbytes|unfold edit_query; query_lia|lia].
  - unfold domain_delete_messages. cbn zeta.
    destruct (Z.leb_spec (zlen ids) 0), (Z.ltb_spec 100 (zlen ids)),
      (Z.ltb_spec 0 (zlen ids)), (Z.leb_spec (zlen ids) 100); cbn [orb andb]; try lia; try done.
    rewrite (query_bind _ (delete_query peer ids revoke)); [done| | | |lia];
      unfold delete_query, enc_channel, enc_vector.
    + destruct (is_channel peer); counts_step.
    + destruct (is_channel peer); wbytes; by rewrite enc32_u32.
    + destruct (is_channel peer); query_lia.
  - unfold domain_forward_messages. cbn zeta.
    destruct (Z.leb_spec (zlen ids) 0), (Z.ltb_spec 100 (zlen ids)),
      (Z.ltb_spec 0 (zlen ids)), (Z.leb_spec (zlen ids) 100); cbn [orb andb]; try lia; try done.
    edestruct (fun v => write_random_at (length ids) v e s t w) as (v & E & Hd & Hc);
      [|rewrite (bind_Done _ _ _ _ _ E)]; [counts_step|].
    rewrite (query_bind _ (forward_query peer to ids (rand_ids (length ids) w)));
      [done|by apply counts_peer| | |lia]; unfold forward_query, enc_vector.
    + rewrite write_peer_data, Hd. wbytes.
      rewrite !enc32_u32. unfold zlen at 4. by rewrite rand_ids_len.
    + assert (zlen (rand_ids (length ids) w) = zlen ids) by apply zlen_rand_ids. query_lia.
  - unfold domain_mark_read, build_channels_request, build_messages_request, read_query, enc_channel, enc_peer.
    destruct peer as [[] pid hash]; cbn [is_channel peer_kind peer_id peer_access_hash write_input_peer].
    1-4: unfold write_input_peer; cbn [peer_kind peer_id peer_access_hash];
      erewrite query_bind by (first [by counts_tac|reflexivity|wbytes; query_lia|lia]); wbytes.
    do 2 (apply bind_ext; [done|intros ? ?]). cbn [andb].
    destruct (Z.eqb_spec (first_word a) TL_boolTrue) as [->|]; [done|]. by destruct (_ =? _).
Qed.
