(* ===== verification/History.v ===== *)
(** * Messages of a conversation (src/domain/read/history.c)

    The parser of one message with its service actions, the loop over a
    vector of messages, and messages.getHistory.  [parse_message_gen] is what
    the three copies of parse_message (history.c, search.c, updates.c) have
    in common. *)

From Stdlib Require Import String.
From S2P Require Import Prelude TlSerial TlLogic TlCrc TlSkipBase TlSkipParts TlSkipMedia TlSkipChat.
From S2P Require Import TlSkipMessage CLib World MtprotoSession Transport MtprotoRpc ApiCall Request DomainWrite.

#[local] Open Scope Z_scope.

(** ** Rows *)

Definition HISTORY_TEXT_MAX : Z := 512.

(** [text] is the string before its terminator. *)
Record HistoryEntry := mkEntry {
  e_id : Z;
  e_date : Z;
  e_out : bool;
  e_text : list byte;
  e_truncated : bool;
  e_complex : bool;
  e_is_service : bool;
  e_media : MediaKind;
  e_media_id : Z;
  e_media_dc : Z;
  e_media_info : MediaInfo;
  e_peer_id : Z;
}.

Definition row_zero : HistoryEntry :=
  mkEntry 0 0 false [] false false false MEDIA_NONE 0 0 media_zero 0.

Definition e_set_id v (e : HistoryEntry) := mkEntry v (e_date e) (e_out e) (e_text e) (e_truncated e)
  (e_complex e) (e_is_service e) (e_media e) (e_media_id e) (e_media_dc e) (e_media_info e) (e_peer_id e).
Definition e_set_date v (e : HistoryEntry) := mkEntry (e_id e) v (e_out e) (e_text e) (e_truncated e)
  (e_complex e) (e_is_service e) (e_media e) (e_media_id e) (e_media_dc e) (e_media_info e) (e_peer_id e).
Definition e_set_out v (e : HistoryEntry) := mkEntry (e_id e) (e_date e) v (e_text e) (e_truncated e)
  (e_complex e) (e_is_service e) (e_media e) (e_media_id e) (e_media_dc e) (e_media_info e) (e_peer_id e).
Definition e_put_text v (e : HistoryEntry) := mkEntry (e_id e) (e_date e) (e_out e) v (e_truncated e)
  (e_complex e) (e_is_service e) (e_media e) (e_media_id e) (e_media_dc e) (e_media_info e) (e_peer_id e).
Definition e_set_truncated (e : HistoryEntry) := mkEntry (e_id e) (e_date e) (e_out e) (e_text e) true
  (e_complex e) (e_is_service e) (e_media e) (e_media_id e) (e_media_dc e) (e_media_info e) (e_peer_id e).
Definition e_set_complex (e : HistoryEntry) := mkEntry (e_id e) (e_date e) (e_out e) (e_text e)
  (e_truncated e) true (e_is_service e) (e_media e) (e_media_id e) (e_media_dc e) (e_media_info e)
  (e_peer_id e).
Definition e_set_service (e : HistoryEntry) := mkEntry (e_id e) (e_date e) (e_out e) (e_text e)
  (e_truncated e) (e_complex e) true (e_media e) (e_media_id e) (e_media_dc e) (e_media_info e)
  (e_peer_id e).
Definition e_set_media v (e : HistoryEntry) := mkEntry (e_id e) (e_date e) (e_out e) (e_text e)
  (e_truncated e) (e_complex e) (e_is_service e) v (e_media_id e) (e_media_dc e) (e_media_info e)
  (e_peer_id e).
Definition e_set_media_ref i dc (e : HistoryEntry) := mkEntry (e_id e) (e_date e) (e_out e) (e_text e)
  (e_truncated e) (e_complex e) (e_is_service e) (e_media e) i dc (e_media_info e) (e_peer_id e).
Definition e_set_media_info v (e : HistoryEntry) := mkEntry (e_id e) (e_date e) (e_out e) (e_text e)
  (e_truncated e) (e_complex e) (e_is_service e) (e_media e) (e_media_id e) (e_media_dc e) v (e_peer_id e).
Definition e_set_peer_id v (e : HistoryEntry) := mkEntry (e_id e) (e_date e) (e_out e) (e_text e)
  (e_truncated e) (e_complex e) (e_is_service e) (e_media e) (e_media_id e) (e_media_dc e)
  (e_media_info e) v.

(** Copy a C string into the row, cut to what fits. *)
Definition set_text (src : list byte) (e : HistoryEntry) : HistoryEntry :=
  let s := cstr src in
  if HISTORY_TEXT_MAX <=? zlen s
  then e_put_text (take (Z.to_nat (HISTORY_TEXT_MAX - 1)) s) (e_set_truncated e)
  else e_put_text s e.

Abbreviation EP := (Px HistoryEntry).

(** [if (f(r) != 0) { out->complex = 1; return -1; }] *)
Definition or_complex (m : Rd unit) : EP unit := fun '(r, e) =>
  match m r with
  | Done a r' => Done a (r', e)
  | Fail r' => Fail (r', e_set_complex e)
  | Fault => Fault
  | NoFuel => NoFuel
  end.

(** A C string read from the wire; [NULL] ends the parse. *)
Definition get_string {X} : Px X (list byte) :=
  s ← lift tl_read_string;
  match s with Some s => mret (cstr s) | None => fail end.

(** A 32-bit word [off] bytes ahead, without moving the cursor. *)
Definition peek32 (off : Z) : Rd Z := fun r =>
  match mem_read (r_data r) (r_pos r + off) 4 with
  | Some bs => Done (le_combine bs) r
  | None => Fault
  end.

(** ** Rendering *)

Definition buf_max : Z := HISTORY_TEXT_MAX.

(** [snprintf] into a local array of [HISTORY_TEXT_MAX] bytes, then [set_text]. *)
Definition render_row (s : list byte) : EP unit := set_ctx (set_text (snprintf_s buf_max s)).

Definition hex_nibble (v : Z) : byte := byte.of_Z (if v <? 10 then 48 + v else 87 + v).

(** [%08x] *)
Definition hex8 (v : Z) : list byte :=
  map (fun k => hex_nibble (Z.land (Z.shiftr v (4 * k)) 15)) [7; 6; 5; 4; 3; 2; 1; 0].

Definition quote : list byte := ascii "'"%string.

(** ** Service actions *)

(** At most 4096 values, read one by one; the first of them, or 0. *)
Definition long_vector_first : Rd Z :=
  need 8 ;;
  vcrc ← tl_read_uint32;
  check (vcrc =? TL_vector) ;;
  n ← tl_read_uint32;
  check (n <=? 4096) ;;
  need (u64 (n * 8)) ;;
  if n =? 0 then mret 0
  else
    first ← tl_read_int64;
    for_n (n - 1) skip_int64 ;;
    mret first.

Definition call_reason (rcrc : Z) : list byte :=
  if rcrc =? 0x85e42301 then ascii "missed"%string
  else if rcrc =? 0xe095c1a0 then ascii "disconnected"%string
  else if rcrc =? 0x57adc690 then ascii "hangup"%string
  else if rcrc =? 0xfaf7e8c9 then ascii "busy"%string
  else ascii "completed"%string.

Definition parse_phone_call : EP unit :=
  lift (need (4 + 8)) ;;
  pflags ← lift tl_read_uint32;
  lift skip_int64 ;;
  reason ← (if flag pflags 0 then
              lift (need 4) ;; rcrc ← lift tl_read_uint32; mret (call_reason rcrc)
            else mret (ascii "completed"%string));
  duration ← (if flag pflags 1 then lift (need 4) ;; lift tl_read_int32 else mret 0);
  render_row (ascii "called (duration "%string ++ print_dec duration ++ ascii "s, "%string ++ reason ++
          ascii ")"%string).

Definition skip_group_call : Rd unit := skip_uint32 ;; skip_int64 ;; skip_int64.

(** Every action sets a text; an unknown one is labelled and counts as read. *)
Definition parse_service_action : EP unit :=
  set_ctx e_set_service ;;
  rem ← lift ask_remaining;
  if rem <? 4 then set_ctx (set_text (ascii "[service action truncated]"%string)) ;; fail
  else
    acrc ← lift tl_read_uint32;
    switch acrc [
      ([0xb6aef7b0], set_ctx (set_text []));
      ([0xbd47cbad],
       title ← get_string;
       lift skip_user_vector ;;
       render_row (ascii "created group '"%string ++ title ++ quote));
      ([0xb5a1ce5a],
       title ← get_string;
       render_row (ascii "changed title to '"%string ++ title ++ quote));
      ([0x7fcb13a8], fun '(r, e) =>
       let e' := set_text (ascii "changed group photo"%string) e in
       match tl_skip_photo r with
       | Done _ r' => Done tt (r', e')
       | Fail r' => Fail (r', e')
       | Fault => Fault
       | NoFuel => NoFuel
       end);
      ([0x95e3fbef], set_ctx (set_text (ascii "removed group photo"%string)));
      ([0x15cefd00],
       first ← lift long_vector_first;
       render_row (ascii "added @"%string ++ print_dec first));
      ([0xa43f30cc],
       lift (need 8) ;; uid ← lift tl_read_int64;
       render_row (ascii "removed @"%string ++ print_dec uid));
      ([0x031224c3],
       lift (need 8) ;; lift skip_int64 ;;
       set_ctx (set_text (ascii "joined via invite link"%string)));
      ([0x95d2ac92],
       title ← get_string;
       render_row (ascii "created channel '"%string ++ title ++ quote));
      ([0xe1037f92],
       lift (need 8) ;; cid ← lift tl_read_int64;
       render_row (ascii "migrated to channel "%string ++ print_dec cid));
      ([0xea3948e9],
       title ← get_string;
       lift (need 8) ;; cid ← lift tl_read_int64;
       render_row (ascii "migrated from group "%string ++ print_dec cid ++ ascii " '"%string ++ title ++ quote));
      ([0x94bd38ed],
       e ← get_ctx;
       when (bool_decide (e_text e = [])) (set_ctx (set_text (ascii "pinned message"%string))));
      ([0x9fbab604], set_ctx (set_text (ascii "history cleared"%string)));
      ([0x80e11a7f], parse_phone_call);
      ([0x4792929b], set_ctx (set_text (ascii "took screenshot"%string)));
      ([0xfae69f56], msg ← get_string; set_ctx (set_text msg));
      ([0x7a0d7f42],
       lift (need 4) ;; gflags ← lift tl_read_uint32;
       lift (need (4 + 16)) ;; lift skip_group_call ;;
       when (flag gflags 0) (lift (need 4 ;; skip_int32)) ;;
       set_ctx (set_text (ascii "started video chat"%string)));
      ([0xb3a07661],
       lift (need (4 + 16 + 4)) ;; lift skip_group_call ;;
       sched ← lift tl_read_int32;
       render_row (ascii "scheduled video chat for "%string ++ print_dec sched));
      ([0x502f92f7],
       lift (need (4 + 16)) ;; lift skip_group_call ;; lift skip_user_vector ;;
       set_ctx (set_text (ascii "invited to video chat"%string)))]
      (render_row (ascii "[service action 0x"%string ++ hex8 acrc ++ ascii "]"%string)).

(** The id of a pinned message stands in the reply header, which is looked at
    before it is skipped. *)
Definition peek_pinned : EP unit :=
  rem ← lift ask_remaining;
  when (12 <=? rem) (
    rh_crc ← lift (peek32 0);
    rh_flags ← lift (peek32 4);
    when ((rh_crc =? CRC_messageReplyHeader) && flag rh_flags 4) (
      pinned ← lift (peek32 8);
      render_row (ascii "pinned message "%string ++ print_dec (s32 pinned)))).

(** The text from before the action comes back when the action leaves none. *)
Definition text_back (saved : list byte) (e : HistoryEntry) : HistoryEntry :=
  if bool_decide (e_text e = []) && negb (bool_decide (saved = [])) then e_put_text saved e else e.

Definition keep_text (m : EP unit) : EP unit := fun '(r, e) =>
  match m (r, e) with
  | Done a (r', e') => Done a (r', text_back (e_text e) e')
  | Fail (r', e') => Fail (r', text_back (e_text e) e')
  | Fault => Fault
  | NoFuel => NoFuel
  end.

Definition domain_history_parse_service (flags : Z) : EP unit :=
  set_ctx e_set_service ;;
  when (flag flags 8) (or_complex tl_skip_peer) ;;
  or_complex tl_skip_peer ;;
  when (flag flags 3) (peek_pinned ;; or_complex tl_skip_message_reply_header) ;;
  or_complex (need 4) ;;
  date ← lift tl_read_int32;
  set_ctx (e_set_date date) ;;
  keep_text parse_service_action ;;
  when (flag flags 25) (
    rem ← lift ask_remaining;
    when (4 <=? rem) (lift skip_int32)).

(** ** Messages *)

(** What a copy of parse_message keeps_head of the media. *)
Definition media_ref (mi : MediaInfo) (e : HistoryEntry) : HistoryEntry :=
  e_set_media_ref
    (match kind mi with
     | MEDIA_PHOTO => photo_id mi
     | MEDIA_DOCUMENT => document_id mi
     | _ => 0
     end) (TlSkipMedia.dc_id mi) (e_set_media (kind mi) e).

Definition read_media (store : MediaInfo -> HistoryEntry -> HistoryEntry) : EP unit := fun '(r, e) =>
  match tl_skip_message_media_ex (r, Some media_zero) with
  | Done _ (r', mi) => Done tt (r', store (default media_zero mi) e)
  | Fail (r', mi) => Fail (r', e_set_complex (e_set_media (kind (default media_zero mi)) e))
  | Fault => Fault
  | NoFuel => NoFuel
  end.

(** [if (msg) { ... }]: no text is stored when the string cannot be read. *)
Definition read_text : EP unit :=
  msg ← lift tl_read_string;
  match msg with Some msg => set_ctx (set_text msg) | None => mret tt end.

(** The fields behind the id of a message, with the reader of its peer and
    what is kept of its media. *)
Definition parse_body (peer : EP unit) (store : MediaInfo -> HistoryEntry -> HistoryEntry)
    (flags flags2 : Z) : EP unit :=
  when (flag flags 8) (or_complex tl_skip_peer) ;;
  peer ;;
  when (flag flags 28) (or_complex tl_skip_peer) ;;
  when (flag flags 2) (or_complex tl_skip_message_fwd_header) ;;
  when (flag flags 11) (or_complex long_field) ;;
  when (flag flags2 0) (or_complex long_field) ;;
  when (flag flags 3) (or_complex tl_skip_message_reply_header) ;;
  or_complex (need 4) ;;
  date ← lift tl_read_int32;
  set_ctx (e_set_date date) ;;
  read_text ;;
  when (flag flags 9) (read_media store) ;;
  when (flag flags 6) (or_complex tl_skip_reply_markup) ;;
  when (flag flags 7) (or_complex tl_skip_message_entities_vector) ;;
  when (flag flags 10) (or_complex (need 8 ;; skip_int32 ;; skip_int32)) ;;
  when (flag flags 23) (or_complex tl_skip_message_replies) ;;
  when (flag flags 15) (or_complex int_field) ;;
  when (flag flags 16) (or_complex tl_skip_string) ;;
  when (flag flags 17) (or_complex long_field) ;;
  when (flag flags 20) (or_complex tl_skip_message_reactions) ;;
  when (flag flags 22) (or_complex tl_skip_restriction_reason_vector) ;;
  when (flag flags 25) (or_complex int_field) ;;
  when (flag flags2 30) (or_complex int_field) ;;
  when (flag flags2 2) (or_complex long_field) ;;
  when (flag flags2 3) (or_complex tl_skip_factcheck).

Definition parse_message_gen (peer : EP unit) (store : MediaInfo -> HistoryEntry -> HistoryEntry)
    : EP unit :=
  lift (fail_if (fun r => negb (tl_reader_ok r))) ;;
  crc ← lift tl_read_uint32;
  if crc =? TL_messageEmpty then
    flags ← lift tl_read_uint32;
    id ← lift tl_read_int32;
    set_ctx (e_set_id id) ;;
    when (flag flags 0) (lift (skip_uint32 ;; skip_int64))
  else if negb (crc =? TL_message) && negb (crc =? TL_messageService) then fail
  else
    flags ← lift tl_read_uint32;
    flags2 ← (if crc =? TL_message then lift tl_read_uint32 else mret 0);
    set_ctx (e_set_out (flag flags 1)) ;;
    id ← lift tl_read_int32;
    set_ctx (e_set_id id) ;;
    if crc =? TL_messageService then domain_history_parse_service flags
    else parse_body peer store flags flags2.

Definition parse_message : EP unit :=
  parse_message_gen (or_complex tl_skip_peer) (fun mi e => e_set_media_info mi (media_ref mi e)).

(** ** Vectors of messages *)

(** [if (e.id != 0 || e.text[0] != 0) out[written++] = e;] *)
Definition keep_row (e : HistoryEntry) (out : list HistoryEntry) : list HistoryEntry :=
  if negb (e_id e =? 0) || negb (bool_decide (e_text e = [])) then out ++ [e] else out.

(** [for (i = 0; i < count && written < limit; i++)]; the loop ends at the
    first message that cannot be read to its end.  A message that is read to
    its end takes at least one byte. *)
Fixpoint message_loop (parse : EP unit) (limit : Z) (fuel : nat) (i count : Z)
    : M (TlReader * list HistoryEntry) unit := fun '(r, out) =>
  match fuel with
  | O => NoFuel
  | S fuel =>
      if (i <? count) && (zlen out <? limit) then
        match parse (r, row_zero) with
        | Done _ (r', e) => message_loop parse limit fuel (i + 1) count (r', keep_row e out)
        | Fail (r', e) => Done tt (r', keep_row e out)
        | Fault => Fault
        | NoFuel => NoFuel
        end
      else Done tt (r, out)
  end.

Definition messages_of (parse : EP unit) (limit count : Z) : M (TlReader * list HistoryEntry) unit :=
  fuelled (fun n => message_loop parse limit n 0 count).

(** The envelope of messages.Messages: counters, then the vector. *)
Definition parse_messages (parse : EP unit) (limit : Z) : Px (list HistoryEntry) unit :=
  top ← lift tl_read_uint32;
  when (top =? TL_messages_messagesSlice) (lift (skip_uint32 ;; skip_int32)) ;;
  when (top =? TL_messages_channelMessages) (lift (skip_uint32 ;; skip_int32 ;; skip_int32)) ;;
  vec ← lift tl_read_uint32;
  if negb (vec =? TL_vector) then fail
  else
    count ← lift tl_read_uint32;
    messages_of parse limit count.

Definition is_messages (top : Z) : bool :=
  (top =? TL_messages_messages) || (top =? TL_messages_messagesSlice) ||
  (top =? TL_messages_channelMessages).

(** ** messages.getHistory *)

Definition CRC_messages_getHistory : Z := 0x4423e6c5.

Definition build_request {S} (peer : HistoryPeer) (offset_id limit cap : Z) : M S (list byte) :=
  let w := tl_writer_init in
  let w := tl_write_uint32 w CRC_messages_getHistory in
  let w := write_input_peer w peer in
  let w := tl_write_int32 w offset_id in
  let w := tl_write_int32 w 0 in
  let w := tl_write_int32 w 0 in
  let w := tl_write_int32 w limit in
  let w := tl_write_int32 w 0 in
  let w := tl_write_int32 w 0 in
  let w := tl_write_int64 w 0 in
  take_query w cap.

(** The rows written and their number are the caller's objects; an error
    detail is only logged. *)
Definition log_error {X} (e : RpcError) (x : X) : X := x.

Section History.
Context `{C : Crypto} (tinf : Z -> list byte -> option (list byte)) (cfg : ApiConfig).

Definition domain_get_history (peer : HistoryPeer) (offset_id limit : Z) : Cx (list HistoryEntry) unit :=
  if limit <=? 0 then fail
  else
    upd_ctx (fun _ => []) ;;
    query ← build_request peer offset_id limit 128;
    resp ← call_api tinf cfg query 262144;
    if zlen resp <? 8 then fail
    else
      check_top log_error is_messages resp ;;
      with_parser resp (parse_messages parse_message limit).

Definition domain_get_history_self (offset_id limit : Z) : Cx (list HistoryEntry) unit :=
  domain_get_history (mkPeer HISTORY_PEER_SELF 0 0) offset_id limit.

End History.
