(* ===== verification/HistoryCorrect.v ===== *)
(** * Messages of a conversation: lemmas (src/domain/read/history.c)

    The parsers are safe on arbitrary bytes and keep every row inside its
    text array; the loop ends and writes at most [limit] rows; what a
    well-formed message leaves in its row. *)

From Stdlib Require Import String.
From S2P Require Import Prelude TlSerial TlLogic TlCrc TlSchema TlSkipBase TlSkipParts TlSkipMedia TlSkipChat.
From S2P Require Import TlSkipMessage TlSkipSafe TlRefine TlRefineBase TlRefineMedia TlRefineMessage.
From S2P Require Import CLib World MtprotoSession Transport MtprotoRpc RpcCorrect ApiCall ApiCorrect Request.
From S2P Require Import CallLogic LoginCorrect DomainWrite History.

#[local] Open Scope Z_scope.

(** ** Safety *)

(** The text fits its array with a terminator, and has no other NUL. *)
Definition row_ok (e : HistoryEntry) : Prop := zlen (e_text e) < HISTORY_TEXT_MAX /\ no_nul (e_text e).

Lemma set_text_ok src e : row_ok (set_text src e).
Proof.
  unfold set_text, row_ok. destruct (Z.leb_spec HISTORY_TEXT_MAX (zlen (cstr src))) as [H|H]; cbn [e_text e_put_text].
  - split; [|apply no_nul_take, no_nul_cstr]. unfold zlen, HISTORY_TEXT_MAX. rewrite length_take. lia.
  - split; [done|apply no_nul_cstr].
Qed.

Lemma row_zero_ok : row_ok row_zero.
Proof. by split; [|constructor]. Qed.

Section Rows.
Context (b : Z).

Lemma px_or_complex m : (forall b, safe_upto b m) -> px_safe row_ok (or_complex m) any_result.
Proof.
  intros Hm r e Hr He. specialize (Hm (left r) r Hr ltac:(done)). unfold or_complex.
  change (rd r) with r in Hm. by destruct (m r) as [a r'|r'| |].
Qed.

Lemma px_get_ctx {X} (I : X -> Prop) : px_safe I get_ctx I.
Proof. intros r x Hr Hx. by split; [apply later_refl|]. Qed.

Lemma px_get_string : px_safe row_ok get_string any_result.
Proof. unfold get_string. px_tac. Qed.

Lemma px_render_row s : px_safe row_ok (render_row s) any_result.
Proof. apply px_set. intros e _. apply set_text_ok. Qed.

Lemma px_set_text s : px_safe row_ok (set_ctx (set_text s)) any_result.
Proof. apply px_set. intros e _. apply set_text_ok. Qed.

Lemma px_switch {X A} (I : X -> Prop) v (cases : list (list Z * Px X A)) d Q :
  Forall (fun c => px_safe I (snd c) Q) cases -> px_safe I d Q -> px_safe I (switch v cases d) Q.
Proof. intros Hc Hd. induction Hc as [|[ls m] cs Hm _ IH]; cbn; [done|]. by destruct (existsb _ _). Qed.

Lemma px_keep_text m : px_safe row_ok m any_result -> px_safe row_ok (keep_text m) any_result.
Proof.
  intros Hm r e Hr He. specialize (Hm r e Hr He). unfold keep_text.
  assert (Hb : forall e', row_ok e' -> row_ok (text_back (e_text e) e')).
  { intros e' He'. unfold text_back. by destruct (_ && _). }
  destruct (m (r, e)) as [a [r' e']|[r' e']| |]; try done.
  - destruct Hm as (? & ? & ?). auto.
  - destruct Hm as (? & ?). auto.
Qed.
End Rows.

Lemma safe_long_vector_first b : safe_upto b long_vector_first.
Proof. unfold long_vector_first. skip_safe. Qed.

Lemma safe_group_call b : safe_upto b skip_group_call.
Proof. unfold skip_group_call. skip_safe. Qed.
#[export] Hint Resolve safe_long_vector_first safe_group_call : tl_safe.

(** Decompose a parser of a row. *)
Ltac row_step :=
  lazymatch goal with
  | |- px_safe _ (set_ctx (set_text _)) _ => apply px_set_text
  | |- px_safe _ (render_row _) _ => apply px_render_row
  | |- px_safe _ (or_complex _) _ => apply px_or_complex; intros; solve [skip_safe]
  | |- px_safe _ get_string _ => apply px_get_string
  | |- px_safe _ get_ctx _ => apply px_get_ctx
  | |- px_safe _ (switch _ _ _) _ => apply px_switch
  | |- Forall _ (_ :: _) => constructor; cbn [snd]
  | |- Forall _ [] => constructor
  | |- px_safe _ (lift _) _ => apply px_lift; intros; solve [skip_safe]
  | |- px_safe _ (mret _) _ => first [apply px_ret; done | apply (px_ret _ _ any_result); done]
  | |- _ => px_step
  end.
Ltac row_tac := repeat row_step.

Lemma px_phone_call : px_safe row_ok parse_phone_call any_result.
Proof. unfold parse_phone_call. row_tac. Qed.

Lemma px_service_action : px_safe row_ok parse_service_action any_result.
Proof.
  unfold parse_service_action. row_tac; [done| |apply px_phone_call].
  intros r e Hr He. pose proof (safe_tl_skip_photo (left r) r Hr ltac:(done)) as Hs.
  change (rd r) with r in Hs. destruct (tl_skip_photo r) as [? r'|r'| |]; try done;
    (split; [done|]); try split; try done; apply set_text_ok.
Qed.

(** Peeking inside the buffer. *)
Lemma peek_at r off :
  reader_wf r -> 0 <= off -> r_pos r + off + 4 <= r_len r -> exists v, peek32 off r = Done v r.
Proof.
  intros Hr Ho Hl. unfold peek32, reader_wf, SIZE_LIM in *. rewrite mem_read_some by lia. by eexists.
Qed.

Lemma peek_pinned_inside r e : reader_wf r -> inside r -> row_ok e ->
  exists e', peek_pinned (r, e) = Done tt (r, e') /\ row_ok e'.
Proof.
  intros Hr Hi He. unfold peek_pinned. rewrite (bind_Done _ _ _ (remaining r) (r, e)) by done.
  destruct (Z.leb_spec 12 (remaining r)) as [H|H]; [|by exists e]. cbn [when].
  unfold inside, remaining in *. pose proof Hr as Hr'. unfold reader_wf, SIZE_LIM in Hr'.
  rewrite u64_id in H by (unfold is_u64; lia).
  destruct (peek_at r 0 Hr) as [v Ev]; [lia..|]. destruct (peek_at r 4 Hr) as [v2 Ev2]; [lia..|].
  destruct (peek_at r 8 Hr) as [v3 Ev3]; [lia..|].
  rewrite (bind_Done _ _ _ v (r, e)) by (unfold lift; cbn [fst snd]; by rewrite Ev).
  rewrite (bind_Done _ _ _ v2 (r, e)) by (unfold lift; cbn [fst snd]; by rewrite Ev2).
  destruct (_ && _); [|by exists e]. cbn [when].
  rewrite (bind_Done _ _ _ v3 (r, e)) by (unfold lift; cbn [fst snd]; by rewrite Ev3).
  eexists. split; [reflexivity|apply set_text_ok].
Qed.

Lemma px_parse_service flags : px_safe row_ok (domain_history_parse_service flags) any_result.
Proof.
  unfold domain_history_parse_service. row_step; [row_step; intros; done|]. row_step. row_step; [row_tac|].
  row_step. eapply (px_bind_reader _ inside).
  - intros r e Hr He. pose proof (skip_peer_inside r Hr) as Hs. unfold or_complex.
    destruct (tl_skip_peer r) as [? r'|r'| |]; try done; split_and!; try done; tauto.
  - assert (Hk : px_safe row_ok (or_complex (need 4) ;;
      date ← lift tl_read_int32; set_ctx (e_set_date date) ;; keep_text parse_service_action ;;
      when (flag flags 25) (rem ← lift ask_remaining; when (4 <=? rem) (lift skip_int32))) any_result).
    { row_tac; [done|apply px_keep_text, px_service_action]. }
    intros [] r e Hr Hi He. destruct (flag flags 3); cbn [when].
    + rewrite bind_assoc. destruct (peek_pinned_inside r e Hr Hi He) as (e' & E & He').
      rewrite (bind_Done _ _ _ _ _ E). clear Hi.
      eapply (px_bind row_ok (or_complex tl_skip_message_reply_header)); [row_tac| |done|done].
      intros ? _. exact Hk.
    + rewrite bind_ret_l. by apply Hk.
Qed.

Section Parsers.
Context (peer : EP unit) (Hpeer : px_safe row_ok peer any_result).
Context (store : MediaInfo -> HistoryEntry -> HistoryEntry).
Context (Hstore : forall mi e, row_ok e -> row_ok (store mi e)).

Lemma px_read_media : px_safe row_ok (read_media store) any_result.
Proof.
  intros r e Hr He. unfold read_media.
  pose proof (safe_tl_skip_message_media_ex (left r) (r, Some media_zero) Hr ltac:(done)) as Hs.
  cbn [rd HasReader_fst fst] in Hs.
  destruct (tl_skip_message_media_ex (r, Some media_zero)) as [? [r' mi]|[r' mi]| |]; try done.
  split_and!; auto. done.
Qed.

Lemma px_read_text : px_safe row_ok read_text any_result.
Proof. unfold read_text. row_tac. Qed.

Lemma px_parse_body flags flags2 : px_safe row_ok (parse_body peer store flags flags2) any_result.
Proof.
  unfold parse_body. row_tac; first [exact Hpeer|apply px_read_text|apply px_read_media|done].
Qed.

(** A parser behind a check of the cursor, that reads a word first. *)
Lemma px_parse_message : px_safe row_ok (parse_message_gen peer store) any_result.
Proof.
  unfold parse_message_gen. row_tac; first [done|apply px_parse_service|apply px_parse_body].
Qed.

(** A message that is read takes at least one byte. *)
Lemma parse_message_step r e : reader_wf r -> row_ok e ->
  match parse_message_gen peer store (r, e) with
  | Done _ (r', e') => later r r' /\ left r' < left r /\ row_ok e'
  | Fail (r', e') => later r r' /\ row_ok e'
  | _ => False
  end.
Proof.
  intros Hr He. unfold parse_message_gen. unfold mbind at 1, M_bind at 1, lift at 1, fail_if at 1.
  cbn [fst snd]. destruct (tl_reader_ok r) eqn:Hok; cbn [negb]; [|split; [by apply later_refl|done]].
  destruct (read_le32_left r Hr) as (crc & r1 & E1 & Hl1 & Hleft). unfold tl_reader_ok in Hok. bool_prop.
  rewrite (bind_Done _ _ _ crc (r1, e)) by (unfold lift, tl_read_uint32; cbn [fst snd]; by rewrite E1).
  assert (Hlt : left r1 < left r) by (rewrite Hleft; unfold left; lia).
  match goal with |- match ?m _ with _ => _ end => assert (Hk : px_safe row_ok m any_result) end.
  { row_tac; first [done|apply px_parse_service|apply px_parse_body]. }
  specialize (Hk r1 e (proj1 Hl1) He).
  match goal with |- match ?m with _ => _ end => destruct m as [? [r' e']|[r' e']| |] end; try done.
  - destruct Hk as (Hl & He' & _). split_and!; [by eapply later_trans| |done].
    destruct Hl as (_ & _ & _ & Hll). lia.
  - destruct Hk as (Hl & He'). split; [by eapply later_trans|done].
Qed.

End Parsers.

(** ** The loop *)

(** Rows inside their arrays, each with an id or a text, at most [limit]. *)
Definition row_kept (e : HistoryEntry) : Prop := row_ok e /\ (e_id e <> 0 \/ e_text e <> []).
Definition rows_ok (limit : Z) (out : list HistoryEntry) : Prop :=
  Forall row_kept out /\ zlen out <= Z.max 0 limit.

Lemma keep_row_ok limit e out :
  rows_ok limit out -> row_ok e -> zlen out < limit -> rows_ok limit (keep_row e out).
Proof.
  intros [Ho Hz] He Hl. unfold keep_row.
  destruct (Z.eqb_spec (e_id e) 0) as [H|H], (bool_decide (e_text e = [])) eqn:E; cbn [negb orb];
    [done|..];
    (split; [apply Forall_app; split; [done|]; constructor; [|constructor]; split; [done|]
            |rewrite zlen_app; unfold zlen in *; cbn; lia]).
  - right. by apply bool_decide_eq_false in E.
  - by left.
  - by left.
Qed.

Lemma loop_safe parse limit :
  (forall r e, reader_wf r -> row_ok e -> match parse (r, e) with
   | Done _ (r', e') => later r r' /\ left r' < left r /\ row_ok e'
   | Fail (r', e') => later r r' /\ row_ok e'
   | _ => False end) ->
  forall fuel i count r out, reader_wf r -> left r < Z.of_nat fuel -> rows_ok limit out ->
  exists r' out', message_loop parse limit fuel i count (r, out) = Done tt (r', out') /\
    later r r' /\ rows_ok limit out'.
Proof.
  intros Hp. induction fuel as [|fuel IH]; intros i count r out Hr Hf Ho.
  - pose proof (rest_len r Hr) as Hx. pose proof (zlen_nonneg (rest r)). lia.
  - cbn [message_loop]. destruct (_ && _) eqn:Hc; [|exists r, out; split; [done|split; [by apply later_refl|done]]].
    bool_prop. pose proof (Hp r row_zero Hr row_zero_ok) as Hs.
    destruct (parse (r, row_zero)) as [[] [r1 e1]|[r1 e1]| |]; try done.
    + destruct Hs as (Hl & Hlt & He).
      destruct (IH (i + 1) count r1 (keep_row e1 out)) as (r' & out' & E & Hl' & Ho');
        [apply Hl|lia|by apply keep_row_ok|].
      exists r', out'. split; [done|]. split; [by eapply later_trans|done].
    + destruct Hs as (Hl & He). exists r1, (keep_row e1 out).
      split; [done|]. split; [done|by apply keep_row_ok].
Qed.

Lemma px_messages_of parse limit count :
  (forall r e, reader_wf r -> row_ok e -> match parse (r, e) with
   | Done _ (r', e') => later r r' /\ left r' < left r /\ row_ok e'
   | Fail (r', e') => later r r' /\ row_ok e'
   | _ => False end) ->
  px_safe (rows_ok limit) (messages_of parse limit count) any_result.
Proof.
  intros Hp r out Hr Ho. unfold messages_of, fuelled. cbn [rd HasReader_fst fst].
  destruct (loop_safe parse limit Hp (S (Z.to_nat (left r))) 0 count r out Hr) as (r' & out' & -> & Hl & Ho');
    [|done|done].
  pose proof (rest_len r Hr). pose proof (zlen_nonneg (rest r)). lia.
Qed.

Lemma px_parse_messages parse limit :
  (forall r e, reader_wf r -> row_ok e -> match parse (r, e) with
   | Done _ (r', e') => later r r' /\ left r' < left r /\ row_ok e'
   | Fail (r', e') => later r r' /\ row_ok e'
   | _ => False end) ->
  px_safe (rows_ok limit) (parse_messages parse limit) any_result.
Proof. intros Hp. unfold parse_messages. row_tac. by apply px_messages_of. Qed.

Lemma parse_message_at_step r e : reader_wf r -> row_ok e -> match parse_message (r, e) with
   | Done _ (r', e') => later r r' /\ left r' < left r /\ row_ok e'
   | Fail (r', e') => later r r' /\ row_ok e'
   | _ => False end.
Proof. apply parse_message_step; [row_tac|done]. Qed.

Section Safe.
Context `{C : Crypto} {HC : CryptoLaws C} (tinf : Z -> list byte -> option (list byte)).
Context (cfg : ApiConfig) (Hcfg : cfg_small cfg) (Hf : tinf_fits tinf).

Lemma get_history_safe peer offset_id limit :
  cx_safe (rows_ok limit) (domain_get_history tinf cfg peer offset_id limit) any_result.
Proof.
  unfold domain_get_history. cx_step; [intros; apply cx_fail|]. intros Hb. bool_prop.
  cx_step; [apply cx_upd; intros; split; [constructor|unfold zlen; cbn; lia]|]. cx_step.
  unfold build_request. cbn zeta.
  eapply cx_bind; [apply cx_take_query; [peer_counts|peer_bytes; peer_lia]|]. intros q [_ Hq].
  eapply cx_bind; [eapply cx_call; [exact _|done|lia|]|].
  { rewrite wrapped_len. unfold cfg_small, RPC_BUF_SIZE in *. lia. }
  intros resp Hr. cbn beta in Hr. cx_step; [intros; apply cx_fail|]. intros _.
  eapply cx_bind; [by apply cx_check_top|]. intros _ _.
  apply cx_parser; [unfold SIZE_LIM; lia|apply px_parse_messages, parse_message_at_step].
Qed.

End Safe.

(** ** What a well-formed message leaves in its row

    [rowp m e bs Q]: in front of [bs], with the row [e], [m] succeeds behind
    [bs] with a row that satisfies [Q]. *)

Definition rowp (m : EP unit) (e : HistoryEntry) (bs : list byte) (Q : HistoryEntry -> Prop) : Prop :=
  forall r tl, reader_wf r -> rest r = bs ++ tl ->
    exists e', m (r, e) = Done tt (adv r (zlen bs), e') /\ Q e'.

(** The part of a row that is on display. *)
Definition head_of (e : HistoryEntry) :=
  (e_id e, e_date e, e_out e, e_text e, e_truncated e, e_complex e, e_is_service e).

Definition keeps_head (m : EP unit) (bs : list byte) : Prop :=
  forall e, rowp m e bs (fun e' => head_of e' = head_of e).

Lemma rowp_bind (m k : EP unit) e bs cs P Q :
  rowp m e bs P -> (forall e', P e' -> rowp k e' cs Q) -> rowp (m ;; k) e (bs ++ cs) Q.
Proof.
  intros Hm Hk r tl Hwf Hr. rewrite <- app_assoc in Hr. destruct (Hm r _ Hwf Hr) as (e1 & E1 & H1).
  rewrite (bind_Done _ _ _ _ _ E1).
  destruct (Hk e1 H1 (adv r (zlen bs)) tl) as (e2 & E2 & H2);
    [by eapply adv_wf|by eapply rest_adv|].
  exists e2. split; [|done]. by rewrite E2, adv_adv, zlen_app.
Qed.

Lemma rowp_end m e bs (Q : HistoryEntry -> Prop) : rowp m e (bs ++ []) Q -> rowp m e bs Q.
Proof. by rewrite app_nil_r. Qed.

Lemma head_bind m k bs cs : keeps_head m bs -> keeps_head k cs -> keeps_head (m ;; k) (bs ++ cs).
Proof.
  intros Hm Hk e. eapply rowp_bind; [apply Hm|]. cbn beta. intros e' He r tl Hwf Hr.
  destruct (Hk e' r tl Hwf Hr) as (e2 & E & H). exists e2. split; [done|congruence].
Qed.

Lemma keeps_complex m bs : reads m bs tt -> keeps_head (or_complex m) bs.
Proof.
  intros Hm e r tl Hwf Hr. exists e. split; [|done]. unfold or_complex.
  pose proof (Hm r tl Hwf Hr) as E. change (rd r) with r in E. cbn [with_rd HasReader_self] in E.
  by rewrite E.
Qed.

Lemma keeps_nothing (m : EP unit) : keeps_head (when false m) [].
Proof. intros e r tl _ _. exists e. by rewrite zlen_nil, adv_0. Qed.

Lemma keeps_opt v k t m b :
  0 <= k -> enc_opt (Z.testbit v k) t b -> (enc t b -> keeps_head m b) -> keeps_head (when (flag v k) m) b.
Proof.
  intros Hk Ho Hm. rewrite flag_testbit by done. inversion Ho as [? E|? ? ? E]; subst.
  - apply keeps_nothing.
  - cbn [when]. auto.
Qed.

(** Two fields under one flag. *)
Lemma keeps_opt2 v k t1 t2 m b1 b2 :
  0 <= k -> enc_opt (Z.testbit v k) t1 b1 -> enc_opt (Z.testbit v k) t2 b2 ->
  (enc t1 b1 -> enc t2 b2 -> keeps_head m (b1 ++ b2)) -> keeps_head (when (flag v k) m) (b1 ++ b2).
Proof.
  intros Hk H1 H2 Hm. rewrite flag_testbit by done. destruct (Z.testbit v k); inversion H1; subst;
    inversion H2; subst; [cbn [when]; auto|apply keeps_nothing].
Qed.

Lemma keeps_media store bs :
  (forall mi e, head_of (store mi e) = head_of e) -> enc (TRef (MessageMedia 4)) bs ->
  keeps_head (read_media store) bs.
Proof.
  intros Hs H e r tl Hwf Hr. unfold read_media.
  destruct (walks_MessageMedia 4 bs H r tl (Some media_zero) Hwf Hr) as (o & E & _).
  change (media_ex_at 4) with tl_skip_message_media_ex in E. rewrite E.
  eexists. split; [reflexivity|]. apply Hs.
Qed.

Lemma rowp_set f (k : EP unit) e bs Q : rowp k (f e) bs Q -> rowp (set_ctx f ;; k) e bs Q.
Proof. intros H r tl Hwf Hr. exact (H r tl Hwf Hr). Qed.

Lemma rowp_lift {A} (m : Rd A) (k : A -> EP unit) e bs cs a Q :
  reads m bs a -> rowp (k a) e cs Q -> rowp (lift m ≫= k) e (bs ++ cs) Q.
Proof.
  intros Hm Hk r tl Hwf Hr. rewrite <- app_assoc in Hr.
  assert (E : lift m (r, e) = Done a (adv r (zlen bs), e)).
  { unfold lift. cbn [fst snd]. pose proof (Hm r _ Hwf Hr) as E. by rewrite E. }
  rewrite (bind_Done _ _ _ _ _ E).
  destruct (Hk (adv r (zlen bs)) tl) as (e2 & E2 & H2); [by eapply adv_wf|by eapply rest_adv|].
  exists e2. split; [|done]. by rewrite E2, adv_adv, zlen_app.
Qed.

Lemma rowp_need n (k : EP unit) e bs Q :
  0 < n <= zlen bs -> rowp k e bs Q -> rowp (or_complex (need n) ;; k) e bs Q.
Proof.
  intros Hn Hk r tl Hwf Hr. destruct (remaining_at r bs tl Hwf Hr) as [_ Hle]; [lia|].
  destruct (Hk r tl Hwf Hr) as (e' & E & H). exists e'. split; [|done]. rewrite <- E.
  apply (bind_Done _ (fun _ => k) _ tt). unfold or_complex, need, fail_if.
  by rewrite (proj2 (Z.ltb_ge _ _)) by lia.
Qed.

Lemma rowp_ok (k : EP unit) e bs Q :
  0 < zlen bs -> rowp k e bs Q -> rowp (lift (fail_if (fun r => negb (tl_reader_ok r))) ;; k) e bs Q.
Proof.
  intros Hn Hk r tl Hwf Hr. destruct (remaining_at r bs tl Hwf Hr Hn) as [Hok _].
  destruct (Hk r tl Hwf Hr) as (e' & E & H). exists e'. split; [|done]. rewrite <- E.
  apply (bind_Done _ (fun _ => k) _ tt). unfold lift, fail_if. cbn [fst snd]. by rewrite Hok.
Qed.

Lemma rowp_text (k : EP unit) e d cs Q :
  zlen d < 2 ^ 24 -> rowp k (set_text d e) cs Q -> rowp (read_text ;; k) e (enc_bytes d ++ cs) Q.
Proof.
  intros Hd Hk. eapply (rowp_bind read_text k e (enc_bytes d) cs (fun e' => e' = set_text d e)).
  - intros r tl Hwf Hr. exists (set_text d e). split; [|done]. unfold read_text.
    erewrite bind_Done; [|unfold lift; cbn [fst snd]; by erewrite (reads_string d Hd)]. done.
  - by intros e' ->.
Qed.

(** ** Messages on the wire *)

(** message#94345242: the words in front, the fields before the date, the
    text, and the fields behind it. *)
Record WireMessage := mkMessage {
  m_flags : Z;
  m_flags2 : Z;
  m_id : Z;
  m_pre : list byte;
  m_date : Z;
  m_text : list byte;
  m_post : list byte;
}.

Definition pre_fields : list field :=
  [opt 8 (TRef Peer); ref Peer; opt 28 (TRef Peer); opt 2 (TRef MessageFwdHeader); opt 11 long;
   opt2 0 long; opt 3 (TRef MessageReplyHeader)].

Definition post_fields : list field :=
  [opt 9 (TRef (MessageMedia 4)); opt 6 (TRef ReplyMarkup); opt 7 (TVec (TRef MessageEntity));
   opt 10 int; opt 10 int; opt 23 (TRef MessageReplies); opt 15 int; opt 16 TBytes; opt 17 long;
   opt 20 (TRef MessageReactions); opt 22 (TVec (TRef RestrictionReason)); opt 25 int;
   opt2 30 int; opt2 2 long; opt2 3 (TRef FactCheck)].

Definition message_wf (m : WireMessage) : Prop :=
  is_u32 (m_flags m) /\ is_u32 (m_flags2 m) /\ is_s32 (m_id m) /\ is_s32 (m_date m) /\
  zlen (m_text m) < 2 ^ 24 /\ enc_fields [m_flags m; m_flags2 m] pre_fields (m_pre m) /\
  enc_fields [m_flags m; m_flags2 m] post_fields (m_post m).

Definition wire_bytes (m : WireMessage) : list byte :=
  enc32 TL_message ++ enc32 (m_flags m) ++ enc32 (m_flags2 m) ++ enc32 (m_id m) ++ m_pre m ++
  enc32 (m_date m) ++ enc_bytes (m_text m) ++ m_post m.

Lemma enc_fields_app env fs gs a b :
  Forall (fun f => f <> FFlags) fs -> enc_fields env fs a -> enc_fields env gs b ->
  enc_fields env (fs ++ gs) (a ++ b).
Proof.
  intros Hf H Hg. induction H as [| | ? ? ? ? ? ? ? IH| ? ? ? ? ? ? ? ? ? IH]; [done|..];
    inversion Hf; subst; [done|..]; rewrite <- app_assoc; constructor; auto.
Qed.

(** These are the encodings of the schema. *)
Lemma message_encoded m : message_wf m -> enc (TRef Message) (wire_bytes m).
Proof.
  intros (Hf & Hf2 & _ & _ & Ht & Hpre & Hpost). unfold wire_bytes.
  apply (enc_ref Message (Ctor TL_message ([FFlags; FFlags; FReq int] ++ pre_fields ++
    [FReq int; str] ++ post_fields))); [cbn; tauto|].
  apply ef_flags; [done|]. apply ef_flags; [done|]. apply ef_req; [by apply enc_bare, zlen_enc32|].
  cbn [app]. apply (enc_fields_app _ pre_fields); [by repeat constructor|done|].
  apply ef_req; [by apply enc_bare, zlen_enc32|]. apply ef_req; [by apply enc_str|done].
Qed.

(** What is shown of a message: the text is cut to the 511 bytes a row has
    room for. *)
Definition shows (m : WireMessage) (e : HistoryEntry) : Prop :=
  e_id e = m_id m /\ e_date e = m_date m /\ e_out e = flag (m_flags m) 1 /\
  e_text e = take 511 (cstr (m_text m)) /\
  e_truncated e = (512 <=? zlen (cstr (m_text m))) /\
  e_complex e = false /\ e_is_service e = false.

Lemma shows_set_text m e :
  e_id e = m_id m -> e_date e = m_date m -> e_out e = flag (m_flags m) 1 ->
  e_truncated e = false -> e_complex e = false -> e_is_service e = false ->
  shows m (set_text (m_text m) e).
Proof.
  intros. unfold shows, set_text. change HISTORY_TEXT_MAX with 512.
  destruct (Z.leb_spec 512 (zlen (cstr (m_text m)))) as [H5|H5]; cbn; split_and!; try done.
  by rewrite take_ge by (unfold zlen in H5; lia).
Qed.

Lemma shows_head m e e' : head_of e' = head_of e -> shows m e -> shows m e'.
Proof. unfold head_of, shows. intros [= -> -> -> -> -> -> ->]. done. Qed.

Section Body.
Context (peer : EP unit) (Hpeer : forall bs, enc (TRef Peer) bs -> keeps_head peer bs).
Context (store : MediaInfo -> HistoryEntry -> HistoryEntry).
Context (Hstore : forall mi e, head_of (store mi e) = head_of e).

Ltac keeps_step :=
  lazymatch goal with
  | |- keeps_head (when (flag _ _) (or_complex (need 8 ;; skip_int32 ;; skip_int32)) ;; _) _ =>
      rewrite app_assoc; apply head_bind; [eapply keeps_opt2; [lia|eassumption|eassumption|]|]
  | |- keeps_head (when (flag _ _) _ ;; _) _ =>
      apply head_bind; [eapply keeps_opt; [lia|eassumption|]|]
  | |- keeps_head (when (flag _ _) _) _ => eapply keeps_opt; [lia|eassumption|]
  | |- enc _ _ -> _ => intros
  | |- keeps_head (or_complex _) _ => apply keeps_complex; repeat inv_step; repeat reads_step
  | |- keeps_head (read_media _) _ => apply keeps_media; done
  end.

(** The fields behind the text. *)
Lemma post_keeps flags flags2 bs :
  is_u32 flags -> is_u32 flags2 -> enc_fields [flags; flags2] post_fields bs ->
  keeps_head (when (flag flags 9) (read_media store) ;;
    when (flag flags 6) (or_complex tl_skip_reply_markup) ;;
    when (flag flags 7) (or_complex tl_skip_message_entities_vector) ;;
    when (flag flags 10) (or_complex (need 8 ;; skip_int32 ;; skip_int32)) ;;
    when (flag flags 23) (or_complex tl_skip_message_replies) ;;
    when (flag flags 15) (or_complex int_field) ;;
    when (flag flags 16) (or_complex tl_skip_string) ;;
    when (flag flags 17) (or_complex long_field) ;;
    when (flag flags 20) (or_complex tl_skip_message_reactions) ;;
    when (flag flags 22) (or_complex tl_skip_restriction_reason_vector) ;;
    when (flag flags 25) (or_complex int_field) ;;
    when (flag flags2 30) (or_complex int_field) ;;
    when (flag flags2 2) (or_complex long_field) ;;
    when (flag flags2 3) (or_complex tl_skip_factcheck)) bs.
Proof.
  intros Hf Hf2 H. unfold post_fields, opt, opt2, int, long in H. repeat inv_step. cbn [nth] in *.
  rewrite app_nil_r. repeat keeps_step.
Qed.

(** A field in front of the text. *)
Lemma rowp_pre flags k t (m : EP unit) (rest : EP unit) e0 b cs Q :
  0 <= k -> enc_opt (Z.testbit flags k) t b -> (enc t b -> keeps_head m b) ->
  (forall e, head_of e = head_of e0 -> rowp rest e cs Q) ->
  forall e, head_of e = head_of e0 -> rowp (when (flag flags k) m ;; rest) e (b ++ cs) Q.
Proof.
  intros Hk Ho Hm Hr e He. eapply rowp_bind; [eapply keeps_opt; eassumption|].
  cbn beta. intros e' He'. apply Hr. congruence.
Qed.

Lemma body_rowp m e0 :
  message_wf m -> e_id e0 = m_id m -> e_out e0 = flag (m_flags m) 1 -> e_truncated e0 = false ->
  e_complex e0 = false -> e_is_service e0 = false ->
  rowp (parse_body peer store (m_flags m) (m_flags2 m)) e0
    (m_pre m ++ enc32 (m_date m) ++ enc_bytes (m_text m) ++ m_post m) (shows m).
Proof.
  intros (Hf & Hf2 & _ & Hd & Ht & Hpre & Hpost) Hi Ho Htr Hc Hs. unfold parse_body.
  pose proof (post_keeps _ _ _ Hf Hf2 Hpost) as Hk.
  remember (m_pre m) as pre eqn:Epre. clear Epre.
  unfold pre_fields, ref, opt, opt2, long in Hpre. repeat inv_step. cbn [nth] in *.
  rewrite app_nil_r, <- !app_assoc.
  pose proof (eq_refl (head_of e0)) as He. revert He. generalize e0 at 1 3 as e.
  eapply rowp_pre; [lia|eassumption|by intros; apply keeps_complex; eauto with tl_consume|].
  intros e He. eapply rowp_bind; [by apply Hpeer|]. cbn beta. intros e' He'.
  assert (He2 : head_of e' = head_of e0) by congruence. clear He He' e. revert e' He2.
  repeat (eapply rowp_pre; [lia|eassumption|by intros; apply keeps_complex; repeat inv_step; eauto with tl_consume|]).
  intros e He. apply rowp_need; [rewrite zlen_app, zlen_enc32; pose proof (zlen_nonneg (enc_bytes (m_text m) ++ m_post m)); lia|].
  eapply rowp_lift; [by apply reads_int32|]. apply rowp_set, rowp_text; [done|].
  intros r tl Hwf Hr. destruct (Hk (set_text (m_text m) (e_set_date (m_date m) e)) r tl Hwf Hr) as (e' & E & H').
  exists e'. split; [exact E|]. eapply shows_head; [exact H'|].
  unfold head_of in He. injection He as ? ? ? ? ? ? ?.
  apply shows_set_text; cbn; congruence.
Qed.

(** The whole message. *)
Lemma message_rowp m :
  message_wf m -> rowp (parse_message_gen peer store) row_zero (wire_bytes m) (shows m).
Proof.
  intros Hm. pose proof Hm as (Hf & Hf2 & Hi & _). unfold parse_message_gen, wire_bytes.
  apply rowp_ok; [rewrite zlen_app, zlen_enc32; apply Z.add_pos_nonneg; [done|apply zlen_nonneg]|].
  eapply rowp_lift; [by apply reads_uint32|].
  change (TL_message =? TL_messageEmpty) with false. change (TL_message =? TL_message) with true.
  change (TL_message =? TL_messageService) with false. cbn [negb andb]. cbn iota.
  eapply rowp_lift; [by apply reads_uint32|]. eapply rowp_lift; [by apply reads_uint32|].
  apply rowp_set. eapply rowp_lift; [by apply reads_int32|]. apply rowp_set.
  by apply body_rowp.
Qed.
End Body.

(** ** The vector *)

Lemma skip_peer_keeps bs : enc (TRef Peer) bs -> keeps_head (or_complex tl_skip_peer) bs.
Proof. intros H. apply keeps_complex. eauto with tl_consume. Qed.

(** A row with an id is written. *)
Lemma keep_shown m e out : m_id m <> 0 -> shows m e -> keep_row e out = out ++ [e].
Proof. intros Hi (He & _). unfold keep_row. by rewrite (proj2 (Z.eqb_neq (e_id e) 0)) by congruence. Qed.

Lemma loop_lists parse limit ms :
  (forall m, In m ms -> rowp parse row_zero (wire_bytes m) (shows m)) ->
  Forall (fun m => m_id m <> 0) ms ->
  forall fuel i r out tl, reader_wf r -> rest r = concat (map wire_bytes ms) ++ tl ->
  zlen ms < Z.of_nat fuel -> zlen out <= limit -> exists r' rows,
    message_loop parse limit fuel i (i + zlen ms) (r, out) = Done tt (r', out ++ rows) /\
    Forall2 shows (take (Z.to_nat (limit - zlen out)) ms) rows.
Proof.
  induction ms as [|m ms IH]; intros Hp Hid fuel i r out tl Hwf Hr Hfuel Hout.
  - destruct fuel as [|fuel]; [unfold zlen in Hfuel; cbn in Hfuel; lia|]. exists r, [].
    cbn [message_loop]. rewrite (proj2 (Z.ltb_ge _ _)) by (unfold zlen; cbn; lia).
    rewrite app_nil_r, take_nil. by split; [|constructor].
  - destruct fuel as [|fuel]; [pose proof (zlen_nonneg (m :: ms)); lia|].
    rewrite zlen_cons in Hfuel |- *. pose proof (zlen_nonneg ms). cbn [message_loop].
    rewrite (proj2 (Z.ltb_lt i _)) by lia. cbn [andb].
    destruct (Z.ltb_spec (zlen out) limit) as [Hl|Hl].
    2: { exists r, []. rewrite app_nil_r. replace (Z.to_nat (limit - zlen out)) with 0%nat by lia.
         by split; [|constructor]. }
    cbn [map concat] in Hr. rewrite <- app_assoc in Hr.
    destruct (Hp m (or_introl eq_refl) r _ Hwf Hr) as (e & E & He). rewrite E.
    inversion Hid as [|? ? Hm Hid']; subst. rewrite (keep_shown m) by done.
    destruct (IH (fun m' H' => Hp m' (or_intror H')) Hid' fuel (i + 1) (adv r (zlen (wire_bytes m)))
      (out ++ [e]) tl) as (r' & rows & E' & Hrows);
      [by eapply adv_wf|by eapply rest_adv|lia|rewrite zlen_app; unfold zlen in *; cbn; lia|].
    exists r', (e :: rows). replace (i + (1 + zlen ms)) with (i + 1 + zlen ms) by lia.
    rewrite E', <- app_assoc. split; [done|].
    replace (Z.to_nat (limit - zlen out)) with (S (Z.to_nat (limit - zlen (out ++ [e]))))
      by (rewrite zlen_app; unfold zlen in *; cbn; lia).
    cbn [take]. by constructor.
Qed.

(** The envelope in front of the vector, without the counters that are
    optional. *)
Inductive envelope : Z -> list byte -> Prop :=
| env_messages : envelope TL_messages_messages []
| env_slice flags count : envelope TL_messages_messagesSlice (enc32 flags ++ enc32 count)
| env_channel flags pts count :
    envelope TL_messages_channelMessages (enc32 flags ++ enc32 pts ++ enc32 count).

Definition messages_bytes (top : Z) (hdr : list byte) (ms : list WireMessage) : list byte :=
  enc32 top ++ hdr ++ enc32 TL_vector ++ enc32 (zlen ms) ++ concat (map wire_bytes ms).

(** A read at the front of the rest. *)
Lemma lift_at {X A B} (m : Rd A) (k : A -> Px X B) bs a r x tl :
  reads m bs a -> reader_wf r -> rest r = bs ++ tl ->
  (lift m ≫= k) (r, x) = k a (adv r (zlen bs), x) /\
  reader_wf (adv r (zlen bs)) /\ rest (adv r (zlen bs)) = tl.
Proof.
  intros Hm Hwf Hr. split; [|split; [by eapply adv_wf|by eapply rest_adv]].
  apply bind_Done. unfold lift. cbn [fst snd]. pose proof (Hm r tl Hwf Hr) as E. by rewrite E.
Qed.

Lemma concat_messages_len ms : zlen ms <= zlen (concat (map wire_bytes ms)).
Proof.
  induction ms as [|m ms IH]; [done|]. cbn [map concat]. rewrite zlen_cons, zlen_app.
  unfold wire_bytes at 1. rewrite zlen_app, zlen_enc32.
  match goal with |- context [zlen (enc32 (m_flags m) ++ ?l)] =>
    pose proof (zlen_nonneg (enc32 (m_flags m) ++ l)) end. lia.
Qed.

Lemma messages_of_lists parse limit ms r tl :
  (forall m, In m ms -> rowp parse row_zero (wire_bytes m) (shows m)) ->
  Forall (fun m => m_id m <> 0) ms -> 0 <= limit -> reader_wf r ->
  rest r = concat (map wire_bytes ms) ++ tl -> exists r' rows,
  messages_of parse limit (zlen ms) (r, []) = Done tt (r', rows) /\
  Forall2 shows (take (Z.to_nat limit) ms) rows.
Proof.
  intros Hp Hid Hl Hwf Hr. unfold messages_of, fuelled. cbn [rd HasReader_fst fst].
  pose proof (rest_len r Hwf) as Hlen. rewrite Hr, zlen_app in Hlen.
  pose proof (concat_messages_len ms). pose proof (zlen_nonneg tl). pose proof (zlen_nonneg ms).
  destruct (loop_lists parse limit ms Hp Hid (S (Z.to_nat (left r))) 0 r [] tl Hwf Hr)
    as (r' & rows & E & Hrows); [lia|done|].
  exists r', rows. rewrite Z.add_0_l in E. rewrite E. split; [done|].
  by replace (limit - zlen (@nil HistoryEntry)) with limit in Hrows by (unfold zlen; cbn; lia).
Qed.

(** Read over the next piece of an encoding. *)
Ltac lift_step lem Hr :=
  let E := fresh "E" in let W := fresh "W" in let H := fresh Hr in
  lazymatch type of Hr with rest ?r = _ =>
    lazymatch goal with Hwf : reader_wf r |- context [(lift ?m ≫= ?k) (r, ?x)] =>
      destruct (lift_at m k _ _ r x _ lem Hwf Hr) as (E & W & H);
      rewrite E; clear Hr E; rename H into Hr
    end
  end.

Lemma parse_messages_lists parse limit top hdr ms tl r :
  envelope top hdr -> zlen ms < 2 ^ 32 ->
  (forall m, In m ms -> rowp parse row_zero (wire_bytes m) (shows m)) ->
  Forall (fun m => m_id m <> 0) ms -> 0 <= limit -> reader_wf r ->
  rest r = messages_bytes top hdr ms ++ tl -> exists r' rows,
  parse_messages parse limit (r, []) = Done tt (r', rows) /\
  Forall2 shows (take (Z.to_nat limit) ms) rows.
Proof.
  intros He Hn Hp Hid Hl Hwf Hr. unfold parse_messages. pose proof (zlen_nonneg ms).
  unfold messages_bytes in Hr. rewrite <- !app_assoc in Hr.
  assert (Hvec : forall r, reader_wf r ->
    rest r = enc32 TL_vector ++ enc32 (zlen ms) ++ concat (map wire_bytes ms) ++ tl ->
    exists r' rows, (vec ← lift tl_read_uint32;
      if negb (vec =? TL_vector) then fail
      else count ← lift tl_read_uint32; messages_of parse limit count) (r, []) = Done tt (r', rows) /\
    Forall2 shows (take (Z.to_nat limit) ms) rows).
  { clear -Hn Hp Hid Hl H. intros r Hwf Hr.
    lift_step (reads_uint32 TL_vector ltac:(done)) Hr. change (TL_vector =? TL_vector) with true.
    cbn [negb]. lift_step (reads_uint32 (zlen ms) ltac:(done)) Hr. by eapply messages_of_lists. }
  destruct He as [|flags count|flags pts count].
  - lift_step (reads_uint32 TL_messages_messages ltac:(done)) Hr.
    change (TL_messages_messages =? TL_messages_messagesSlice) with false.
    change (TL_messages_messages =? TL_messages_channelMessages) with false.
    cbn [when]. rewrite !bind_ret_l. by apply Hvec.
  - lift_step (reads_uint32 TL_messages_messagesSlice ltac:(done)) Hr.
    change (TL_messages_messagesSlice =? TL_messages_messagesSlice) with true.
    change (TL_messages_messagesSlice =? TL_messages_channelMessages) with false. cbn [when].
    rewrite <- app_assoc in Hr.
    assert (Hs : reads (skip_uint32 ;; skip_int32) (enc32 flags ++ enc32 count) tt)
      by (eapply reads_bind; [apply reads_skip_uint32, zlen_enc32|apply reads_skip_int32, zlen_enc32]).
    rewrite app_assoc in Hr. lift_step Hs Hr. rewrite bind_ret_l. by apply Hvec.
  - lift_step (reads_uint32 TL_messages_channelMessages ltac:(done)) Hr.
    assert (Hs : reads (skip_uint32 ;; skip_int32 ;; skip_int32) (enc32 flags ++ enc32 pts ++ enc32 count) tt)
      by (repeat (eapply reads_bind; [first [apply reads_skip_uint32, zlen_enc32|apply reads_skip_int32, zlen_enc32]|]);
          apply reads_skip_int32, zlen_enc32).
    change (TL_messages_channelMessages =? TL_messages_messagesSlice) with false.
    change (TL_messages_channelMessages =? TL_messages_channelMessages) with true.
    cbn [when]. rewrite bind_ret_l.
    rewrite <- !app_assoc in Hr. rewrite (app_assoc (enc32 pts)), (app_assoc (enc32 flags)) in Hr.
    lift_step Hs Hr. by apply Hvec.
Qed.
