(* ===== verification/SearchUpdates.v ===== *)
(** * Search and updates (src/domain/read/search.c, updates.c)

    messages.search, messages.searchGlobal, updates.getState and
    updates.getDifference, on the message parser of History. *)

From S2P Require Import Prelude TlSerial TlLogic TlCrc TlSkipBase TlSkipMedia World MtprotoSession.
From S2P Require Import Transport MtprotoRpc ApiCall Request UpdatesStore DomainWrite History.

#[local] Open Scope Z_scope.

(** ** Search *)

Definition CRC_messages_search : Z := 0x29ee847a.
Definition CRC_messages_searchGlobal : Z := 0x4bc6589a.
Definition CRC_inputMessagesFilterEmpty : Z := 0x57e9a944.

(** The copy of parse_message in search.c: the media itself is not kept. *)
Definition search_parse_message : EP unit := parse_message_gen (or_complex tl_skip_peer) media_ref.

(** [if (resp_len < 4) return -1; return parse_top(...);] *)
Definition parse_top {W} (resp : list byte) (limit : Z) : M (list HistoryEntry * W) unit :=
  check_top log_error is_messages resp ;;
  with_parser resp (parse_messages search_parse_message limit).

Section Search.
Context `{C : Crypto} (tinf : Z -> list byte -> option (list byte)) (cfg : ApiConfig).

Definition domain_search_peer (peer : HistoryPeer) (query : list byte) (limit : Z)
    : Cx (list HistoryEntry) unit :=
  if limit <=? 0 then fail
  else
    upd_ctx (fun _ => []) ;;
    let w := tl_writer_init in
    let w := tl_write_uint32 w CRC_messages_search in
    let w := tl_write_uint32 w 0 in
    let w := write_input_peer w peer in
    let w := tl_write_string w (Some query) in
    let w := tl_write_uint32 w CRC_inputMessagesFilterEmpty in
    let w := tl_write_int32 w 0 in
    let w := tl_write_int32 w 0 in
    let w := tl_write_int32 w 0 in
    let w := tl_write_int32 w 0 in
    let w := tl_write_int32 w limit in
    let w := tl_write_int32 w 0 in
    let w := tl_write_int32 w 0 in
    let w := tl_write_int64 w 0 in
    query_buf ← take_query w 2048;
    resp ← call_api tinf cfg query_buf 262144;
    parse_top resp limit.

Definition domain_search_global (query : list byte) (limit : Z) : Cx (list HistoryEntry) unit :=
  if limit <=? 0 then fail
  else
    upd_ctx (fun _ => []) ;;
    let w := tl_writer_init in
    let w := tl_write_uint32 w CRC_messages_searchGlobal in
    let w := tl_write_uint32 w 0 in
    let w := tl_write_string w (Some query) in
    let w := tl_write_uint32 w CRC_inputMessagesFilterEmpty in
    let w := tl_write_int32 w 0 in
    let w := tl_write_int32 w 0 in
    let w := tl_write_int32 w 0 in
    let w := tl_write_uint32 w TL_inputPeerEmpty in
    let w := tl_write_int32 w 0 in
    let w := tl_write_int32 w limit in
    query_buf ← take_query w 2048;
    resp ← call_api tinf cfg query_buf 262144;
    parse_top resp limit.

End Search.

(** ** Updates *)

Definition CRC_updates_getState : Z := 0xedd4882a.
Definition CRC_updates_getDifference : Z := 0x19c2f763.
Definition CRC_updates_differenceTooLong : Z := 0x4afe8f6d.
Definition UPDATES_MAX_MESSAGES : Z := 32.

Definition us_set_pts v s := mkState v (qts s) (date s) (seqno s) (unread_count s).
Definition us_set_qts v s := mkState (pts s) v (date s) (seqno s) (unread_count s).
Definition us_set_date v s := mkState (pts s) (qts s) v (seqno s) (unread_count s).
Definition us_set_seq v s := mkState (pts s) (qts s) (date s) v (unread_count s).
Definition us_set_unread v s := mkState (pts s) (qts s) (date s) (seqno s) v.

(** [other_updates_count] is never written: it stays zero. *)
Record UpdatesDifference := mkDiff {
  d_messages : list HistoryEntry;   (** [new_messages_count] of them *)
  d_other : Z;
  d_next_state : UpdatesState;
  d_too_long : bool;
  d_empty : bool;
}.

Definition diff_start (inp : UpdatesState) : UpdatesDifference := mkDiff [] 0 inp false false.
Definition d_set_next f (d : UpdatesDifference) :=
  mkDiff (d_messages d) (d_other d) (f (d_next_state d)) (d_too_long d) (d_empty d).
Definition d_set_empty (d : UpdatesDifference) :=
  mkDiff (d_messages d) (d_other d) (d_next_state d) (d_too_long d) true.
Definition d_set_too_long (d : UpdatesDifference) :=
  mkDiff (d_messages d) (d_other d) (d_next_state d) true (d_empty d).
Definition d_set_messages ms (d : UpdatesDifference) :=
  mkDiff ms (d_other d) (d_next_state d) (d_too_long d) (d_empty d).

(** The peer of a message is kept. *)
Definition read_peer : EP unit :=
  or_complex (need 12) ;;
  pcrc ← lift tl_read_uint32;
  pid ← lift tl_read_int64;
  if (pcrc =? TL_peerUser) || (pcrc =? TL_peerChat) || (pcrc =? TL_peerChannel)
  then set_ctx (e_set_peer_id pid)
  else set_ctx e_set_complex ;; fail.

Definition updates_parse_message : EP unit := parse_message_gen read_peer media_ref.

Definition parse_updates_state : Px UpdatesState unit :=
  crc ← lift tl_read_uint32;
  if negb (crc =? TL_updates_state) then fail
  else
    v ← lift tl_read_int32; set_ctx (us_set_pts v) ;;
    v ← lift tl_read_int32; set_ctx (us_set_qts v) ;;
    v ← lift tl_read_int32; set_ctx (us_set_date v) ;;
    v ← lift tl_read_int32; set_ctx (us_set_seq v) ;;
    v ← lift tl_read_int32; set_ctx (us_set_unread v).

(** The messages of the difference, in a list of their own. *)
Definition read_new_messages (count : Z) : Px UpdatesDifference unit := fun '(r, d) =>
  match messages_of updates_parse_message UPDATES_MAX_MESSAGES count (r, []) with
  | Done a (r', ms) => Done a (r', d_set_messages ms d)
  | Fail (r', _) => Fail (r', d)
  | Fault => Fault
  | NoFuel => NoFuel
  end.

Definition parse_difference (inp : UpdatesState) : Px UpdatesDifference unit :=
  crc ← lift tl_read_uint32;
  if crc =? TL_updates_differenceEmpty then
    set_ctx d_set_empty ;;
    date ← lift tl_read_int32; set_ctx (d_set_next (us_set_date date)) ;;
    seq ← lift tl_read_int32; set_ctx (d_set_next (us_set_seq seq))
  else if crc =? CRC_updates_differenceTooLong then
    set_ctx d_set_too_long ;;
    pts ← lift tl_read_int32; set_ctx (d_set_next (us_set_pts pts))
  else if negb (crc =? TL_updates_difference) && negb (crc =? TL_updates_differenceSlice) then fail
  else
    vec ← lift tl_read_uint32;
    if negb (vec =? TL_vector) then fail
    else
      count ← lift tl_read_uint32;
      read_new_messages count ;;
      set_ctx (d_set_next (fun _ => inp)).

Section Updates.
Context `{C : Crypto} (tinf : Z -> list byte -> option (list byte)) (cfg : ApiConfig).

Definition send_trivial {X} (method_crc resp_cap : Z) : Cx X (list byte) :=
  query ← take_query (tl_write_uint32 tl_writer_init method_crc) 32;
  call_api tinf cfg query resp_cap.

Definition any_answer (top : Z) : bool := true.

Definition domain_updates_state : Cx UpdatesState unit :=
  upd_ctx (fun _ => state_zero) ;;
  resp ← send_trivial CRC_updates_getState 4096;
  check_top log_error any_answer resp ;;
  with_parser resp parse_updates_state.

Definition domain_updates_difference (inp : UpdatesState) : Cx UpdatesDifference unit :=
  upd_ctx (fun _ => diff_start inp) ;;
  let w := tl_writer_init in
  let w := tl_write_uint32 w CRC_updates_getDifference in
  let w := tl_write_uint32 w 0 in
  let w := tl_write_int32 w (pts inp) in
  let w := tl_write_int32 w (s32 (date inp)) in
  let w := tl_write_int32 w (qts inp) in
  query ← take_query w 64;
  resp ← call_api tinf cfg query 262144;
  check_top log_error any_answer resp ;;
  with_parser resp (parse_difference inp).

End Updates.
