(* ===== verification/HistoryTheorems.v ===== *)
(** * Message lists: theorems (src/domain/read/history.c, search.c, updates.c)

    A well-formed list of messages is shown completely; every query is safe
    whatever the server answers; and where the parsers go astray: the body of
    an unknown service action, the optional counters of an envelope, and the
    state that a difference does not advance. *)

From Stdlib Require Import String.
From S2P Require Import Prelude TlSerial TlLogic TlCrc TlSchema TlSkipBase TlSkipParts TlSkipMedia TlSkipChat.
From S2P Require Import TlSkipMessage TlSkipSafe TlRefine TlRefineBase TlRefineMedia TlRefineMessage.
From S2P Require Import CLib World MtprotoSession Transport WireTheorems MtprotoRpc RpcCorrect ApiCall ApiCorrect.
From S2P Require Import Request RpcTheorems CallLogic LoginCorrect LoginTheorems DomainWrite UpdatesStore.
From S2P Require Import History HistoryCorrect SearchUpdates.

#[local] Open Scope Z_scope.

(** ** Safety *)

Lemma read_peer_safe : px_safe row_ok read_peer any_result.
Proof. unfold read_peer. row_tac; done. Qed.

Lemma search_parse_step r e : reader_wf r -> row_ok e -> match search_parse_message (r, e) with
   | Done _ (r', e') => later r r' /\ left r' < left r /\ row_ok e'
   | Fail (r', e') => later r r' /\ row_ok e'
   | _ => False end.
Proof. apply parse_message_step; [row_tac|done]. Qed.

Lemma updates_parse_step r e : reader_wf r -> row_ok e -> match updates_parse_message (r, e) with
   | Done _ (r', e') => later r r' /\ left r' < left r /\ row_ok e'
   | Fail (r', e') => later r r' /\ row_ok e'
   | _ => False end.
Proof. apply parse_message_step; [apply read_peer_safe|done]. Qed.

Definition diff_ok (d : UpdatesDifference) : Prop := rows_ok UPDATES_MAX_MESSAGES (d_messages d).

Lemma px_new_messages count : px_safe diff_ok (read_new_messages count) any_result.
Proof.
  intros r d Hr Hd. unfold read_new_messages.
  assert (H0 : rows_ok UPDATES_MAX_MESSAGES []) by (split; [constructor|done]).
  pose proof (px_messages_of _ UPDATES_MAX_MESSAGES count updates_parse_step r [] Hr H0) as Hm.
  destruct (messages_of _ _ _ _) as [? [r' ms]|[r' ms]| |]; try done.
  by destruct Hm as (? & _).
Qed.

Lemma px_difference inp : px_safe diff_ok (parse_difference inp) any_result.
Proof. unfold parse_difference. row_tac; first [done|apply px_new_messages]. Qed.

Lemma px_updates_state : px_safe no_inv parse_updates_state any_result.
Proof. unfold parse_updates_state. px_tac; done. Qed.

Section Safe.
Context `{C : Crypto} {HC : CryptoLaws C} (tinf : Z -> list byte -> option (list byte)).
Context (cfg : ApiConfig) (Hcfg : cfg_small cfg) (Hf : tinf_fits tinf).

Lemma call_within {X} (I : X -> Prop) w qmax rmax (k : list byte -> Cx X unit) :
  counts w -> zlen (w_data w) < 2 ^ 64 -> qmax <= 900000 -> 0 <= rmax ->
  (forall resp, zlen resp <= rmax -> cx_safe I (k resp) any_result) ->
  cx_safe I (query ← take_query w qmax; resp ← call_api tinf cfg query rmax; k resp) any_result.
Proof.
  intros Hc Hz Hq Hr Hk. eapply cx_bind; [by apply cx_take_query|]. intros q [_ Hql].
  eapply cx_bind; [eapply cx_call; [exact _|done|done|]|].
  { rewrite wrapped_len. unfold cfg_small, RPC_BUF_SIZE in *. lia. }
  intros resp Hresp. by apply Hk.
Qed.

Lemma parse_top_safe resp limit :
  zlen resp <= 262144 -> cx_safe (rows_ok limit) (parse_top resp limit) any_result.
Proof.
  intros Hz. unfold parse_top. eapply cx_bind; [by apply cx_check_top|]. intros _ _.
  apply cx_parser; [unfold SIZE_LIM; lia|apply px_parse_messages, search_parse_step].
Qed.

(** A query is at most 8191 bytes for the bound on the writer. *)
Lemma search_peer_safe peer query limit :
  short query -> cx_safe (rows_ok limit) (domain_search_peer tinf cfg peer query limit) any_result.
Proof.
  unfold short. intros Hs. unfold domain_search_peer. cx_step; [intros; apply cx_fail|]. intros _.
  cx_step; [apply cx_upd; intros; split; [constructor|unfold zlen; cbn; lia]|]. cx_step.
  apply call_within; [peer_counts|peer_bytes; peer_lia|lia..|]. intros resp Hr. by apply parse_top_safe.
Qed.

Lemma search_global_safe query limit :
  short query -> cx_safe (rows_ok limit) (domain_search_global tinf cfg query limit) any_result.
Proof.
  unfold short. intros Hs. unfold domain_search_global. cx_step; [intros; apply cx_fail|]. intros _.
  cx_step; [apply cx_upd; intros; split; [constructor|unfold zlen; cbn; lia]|]. cx_step.
  apply call_within; [peer_counts|peer_bytes; peer_lia|lia..|]. intros resp Hr. by apply parse_top_safe.
Qed.

Lemma updates_state_safe : cx_safe no_inv (domain_updates_state tinf cfg) any_result.
Proof.
  unfold domain_updates_state, send_trivial. cx_step; [by apply cx_upd|]. cx_step.
  eapply cx_bind; [|intros resp Hr].
  - eapply cx_bind; [by apply cx_take_query|]. intros q [_ Hq].
    eapply cx_call; [exact _|done|lia|]. rewrite wrapped_len. unfold cfg_small, RPC_BUF_SIZE in *. lia.
  - cbn beta in Hr. eapply cx_bind; [by apply cx_check_top|]. intros _ _.
    apply cx_parser; [unfold SIZE_LIM; lia|apply px_updates_state].
Qed.

Lemma updates_difference_safe inp : cx_safe diff_ok (domain_updates_difference tinf cfg inp) any_result.
Proof.
  unfold domain_updates_difference. cx_step; [apply cx_upd; by repeat constructor|]. cx_step.
  apply call_within; [counts_tac|wdata; rewrite !zlen_app, !enc32_len; lia|lia..|]. intros resp Hr.
  eapply cx_bind; [by apply cx_check_top|]. intros _ _.
  apply cx_parser; [unfold SIZE_LIM; lia|apply px_difference].
Qed.

End Safe.

(** (C18) Whatever the server answers: history, search and updates end without
    leaving a buffer and keep the connection; they write at most as many rows
    as they were asked for (32 for a difference), every row has an id or a
    text, and every text fits its 512 bytes with a terminator. *)
Theorem message_lists_safe `{C : Crypto} {HC : CryptoLaws C} tinf cfg peer offset_id limit query inp :
  cfg_small cfg -> tinf_fits tinf -> short query ->
  cx_safe (rows_ok limit) (domain_get_history tinf cfg peer offset_id limit) any_result /\
  cx_safe (rows_ok limit) (domain_search_peer tinf cfg peer query limit) any_result /\
  cx_safe (rows_ok limit) (domain_search_global tinf cfg query limit) any_result /\
  cx_safe no_inv (domain_updates_state tinf cfg) any_result /\
  cx_safe diff_ok (domain_updates_difference tinf cfg inp) any_result.
Proof.
  intros. split_and!; [by apply get_history_safe | by apply search_peer_safe
    | by apply search_global_safe | by apply updates_state_safe | by apply updates_difference_safe].
Qed.

Lemma message_lists_safe_witness :
  cx_safe (rows_ok 20) (domain_get_history (C := toy_crypto) store_tinf api_config_init
    (mkPeer HISTORY_PEER_SELF 0 0) 0 20) any_result.
Proof.
  refine (proj1 (message_lists_safe (C := toy_crypto) store_tinf api_config_init
    (mkPeer HISTORY_PEER_SELF 0 0) 0 20 [Byte.x68] state_zero _ store_tinf_fits _)); by vm_compute.
Defined.

(** ** Complete lists *)

Lemma peer_keeps_head bs : enc (TRef Peer) bs -> keeps_head (or_complex tl_skip_peer) bs.
Proof. intros H. apply keeps_complex. eauto with tl_consume. Qed.

Definition history_query (peer : HistoryPeer) (offset_id limit : Z) : list byte :=
  enc32 CRC_messages_getHistory ++ enc_peer peer ++ enc32 offset_id ++ enc32 0 ++ enc32 0 ++
  enc32 limit ++ enc32 0 ++ enc32 0 ++ enc64 0.

Lemma envelope_top top hdr :
  envelope top hdr -> is_u32 top /\ top <> TL_rpc_error /\ is_messages top = true.
Proof. by intros []. Qed.

(** (C9) A list of well-formed messages is shown completely and in order, cut at
    the limit: for every message one row with its id, its date, whether it is
    outgoing, and its text up to 511 bytes, whatever else the message carries
    (forward headers, replies, media, keyboards, reactions, ...). *)
Theorem get_history_lists `{C : Crypto} tinf cfg peer offset_id limit x st st' top hdr ms tl :
  0 < limit -> envelope top hdr -> zlen ms < 2 ^ 32 ->
  Forall message_wf ms -> Forall (fun m => m_id m <> 0) ms ->
  zlen (messages_bytes top hdr ms ++ tl) <= 262144 ->
  api_call tinf cfg (history_query peer offset_id limit) 262144 st =
    Done (messages_bytes top hdr ms ++ tl) st' ->
  exists rows, Forall2 shows (take (Z.to_nat limit) ms) rows /\
    domain_get_history tinf cfg peer offset_id limit (x, st) = Done tt (rows, st').
Proof.
  intros Hl He Hn Hwf Hid Hz Ha. destruct (envelope_top _ _ He) as (Ht & Hne & Hm).
  unfold domain_get_history. rewrite (proj2 (Z.leb_gt _ _)) by lia.
  rewrite (bind_Done _ _ _ tt ([], st)) by done. unfold build_request. cbn zeta.
  rewrite (query_bind _ (history_query peer offset_id limit));
    [|peer_counts|peer_bytes|unfold history_query; peer_lia|lia].
  rewrite (bind_Done _ _ _ _ _ (call_api_at tinf cfg _ 262144 [] _ _ _ Ha)).
  pose proof (zlen_nonneg hdr). pose proof (zlen_nonneg tl).
  pose proof (zlen_nonneg (concat (map wire_bytes ms))).
  rewrite (proj2 (Z.ltb_ge _ _)).
  2: { unfold messages_bytes. rewrite !zlen_app, !zlen_enc32. lia. }
  rewrite (bind_Done _ _ _ tt ([], st')).
  2: { unfold messages_bytes. rewrite <- app_assoc. by apply check_top_at. }
  destruct (parse_messages_lists parse_message limit top hdr ms tl
    (tl_reader_init (messages_bytes top hdr ms ++ tl) (zlen (messages_bytes top hdr ms ++ tl))))
    as (r' & rows & E & Hrows); try done.
  - intros m Hi. apply message_rowp; [apply peer_keeps_head|done|].
    by apply (proj1 (Forall_forall _ _) Hwf).
  - lia.
  - apply reader_init_wf; unfold SIZE_LIM; [pose proof (zlen_nonneg (messages_bytes top hdr ms ++ tl))|]; lia.
  - apply rest_init.
  - exists rows. split; [done|]. unfold with_parser. cbn [fst snd]. by rewrite E.
Qed.

(** A message from a user with a text, a forward-free reply-free body and two
    counters, and one without anything optional. *)
Definition toy_message : WireMessage :=
  mkMessage 1026 0 17 (enc32 TL_peerUser ++ enc64 77) 1700000000 (ascii "hi"%string)
    (enc32 3 ++ enc32 0).
Definition toy_message2 : WireMessage :=
  mkMessage 0 0 16 (enc32 TL_peerUser ++ enc64 77) 1699999999 (ascii "first"%string) [].

Lemma toy_peer_enc : enc (TRef Peer) (enc32 TL_peerUser ++ enc64 77).
Proof.
  apply (enc_ref Peer (Ctor TL_peerUser [FReq long])); [cbn; tauto|].
  rewrite <- (app_nil_r (enc64 77)). apply ef_req; [by constructor|constructor].
Qed.

Lemma absent env i b t fs bs :
  Z.testbit (nth i env 0) b = false -> enc_fields env fs bs -> enc_fields env (FOpt i b t :: fs) bs.
Proof. intros Hb H. apply (ef_opt env i b t fs [] bs); [rewrite Hb; constructor|done]. Qed.

Lemma toy_pre_enc flags :
  Forall (fun k => Z.testbit flags k = false) [8; 28; 2; 11; 3] ->
  enc_fields [flags; 0] pre_fields (enc32 TL_peerUser ++ enc64 77).
Proof.
  intros H. repeat (inversion H as [|? ? ? H']; subst; clear H; rename H' into H).
  apply absent; [done|]. rewrite <- (app_nil_r (enc32 TL_peerUser ++ enc64 77)).
  apply ef_req; [exact toy_peer_enc|]. repeat (apply absent; [done|]). constructor.
Qed.

Lemma toy_message_wf : message_wf toy_message.
Proof.
  unfold message_wf, is_u32, is_s32. split_and!; try (cbn; lia); [done|..].
  - by apply toy_pre_enc; repeat constructor.
  - unfold post_fields, opt, opt2. repeat (apply absent; [done|]).
    apply (ef_opt _ 0 10 int _ (enc32 3)); [apply (opt_present int); by constructor|].
    rewrite <- (app_nil_r (enc32 0)).
    apply (ef_opt _ 0 10 int _ (enc32 0)); [apply (opt_present int); by constructor|].
    repeat (apply absent; [done|]). constructor.
Qed.

Lemma toy_message2_wf : message_wf toy_message2.
Proof.
  unfold message_wf, is_u32, is_s32. split_and!; try (cbn; lia); [done|..].
  - by apply toy_pre_enc; repeat constructor.
  - unfold post_fields, opt, opt2. repeat (apply absent; [done|]). constructor.
Qed.

Definition toy_list : list byte :=
  messages_bytes TL_messages_messagesSlice (enc32 0 ++ enc32 2) [toy_message; toy_message2] ++ enc32 0.
Definition toy_history_query : list byte := history_query (mkPeer HISTORY_PEER_SELF 0 0) 0 20.

Lemma toy_list_answered :
  api_call (C := toy_crypto) store_tinf api_config_init toy_history_query 262144
    (sample_session, sample_transport, answering_world toy_list) =
  Done toy_list (answered toy_history_query 262144 toy_list).
Proof. apply answered_at. vm_cast_no_check (eq_refl true). Qed.

Lemma get_history_lists_witness :
  exists rows, Forall2 shows [toy_message; toy_message2] rows /\
    domain_get_history (C := toy_crypto) store_tinf api_config_init (mkPeer HISTORY_PEER_SELF 0 0) 0 20
      ([], (sample_session, sample_transport, answering_world toy_list)) =
    Done tt (rows, answered toy_history_query 262144 toy_list).
Proof.
  refine (get_history_lists (C := toy_crypto) store_tinf api_config_init (mkPeer HISTORY_PEER_SELF 0 0)
    0 20 [] _ _ TL_messages_messagesSlice (enc32 0 ++ enc32 2) [toy_message; toy_message2] (enc32 0)
    _ (env_slice 0 2) _ _ _ _ toy_list_answered);
    [lia|done|exact (Forall_cons _ _ _ toy_message_wf (Forall_cons _ _ _ toy_message2_wf (Forall_nil _)))
    |by repeat constructor|by vm_compute].
Defined.

(** ** Differences *)

Definition difference_query (inp : UpdatesState) : list byte :=
  enc32 CRC_updates_getDifference ++ enc32 0 ++ enc32 (pts inp) ++ enc32 (s32 (date inp)) ++
  enc32 (qts inp).

Definition difference_bytes (crc : Z) (ms : list WireMessage) : list byte :=
  enc32 crc ++ enc32 TL_vector ++ enc32 (zlen ms) ++ concat (map wire_bytes ms).

(** The peer with its id. *)
Lemma read_peer_keeps bs : enc (TRef Peer) bs -> keeps_head read_peer bs.
Proof.
  intros H. inv_ctor H; intros e; unfold read_peer.
  all: apply rowp_need; [solve_len|]; eapply rowp_lift; [by apply reads_uint32|];
    match goal with Hz : zlen ?b = 8 |- rowp _ _ ?b _ =>
      apply rowp_end; rewrite <- (enc64_any b Hz);
      rewrite <- enc64_u64, <- (u64_s64 (le_combine b)), enc64_u64;
      eapply rowp_lift; [by apply reads_int64, s64_range|]
    end;
    intros r tl _ _; eexists; split; [by rewrite zlen_nil, adv_0|done].
Qed.

Lemma new_messages_list r d ms tl :
  Forall message_wf ms -> Forall (fun m => m_id m <> 0) ms -> zlen ms < 2 ^ 32 -> reader_wf r ->
  rest r = concat (map wire_bytes ms) ++ tl -> exists r' rows,
  read_new_messages (zlen ms) (r, d) = Done tt (r', d_set_messages rows d) /\
  Forall2 shows (take 32 ms) rows.
Proof.
  intros Hwf Hid Hn Hr Hrest. unfold read_new_messages.
  destruct (messages_of_lists updates_parse_message UPDATES_MAX_MESSAGES ms r tl) as (r' & rows & E & Hrows);
    try done.
  - intros m Hi. apply message_rowp; [apply read_peer_keeps|done|].
    by apply (proj1 (Forall_forall _ _) Hwf).
  - exists r', rows. by rewrite E.
Qed.

Lemma parse_difference_list inp crc ms tl r :
  crc = TL_updates_difference \/ crc = TL_updates_differenceSlice ->
  Forall message_wf ms -> Forall (fun m => m_id m <> 0) ms -> zlen ms < 2 ^ 32 -> reader_wf r ->
  rest r = difference_bytes crc ms ++ tl -> exists r' rows,
  parse_difference inp (r, diff_start inp) =
    Done tt (r', d_set_next (fun _ => inp) (d_set_messages rows (diff_start inp))) /\
  Forall2 shows (take 32 ms) rows.
Proof.
  intros Hc Hwf Hid Hn Hr Hrest. unfold difference_bytes in Hrest. rewrite <- !app_assoc in Hrest.
  assert (Hu : is_u32 crc) by (by destruct Hc as [->| ->]). pose proof (zlen_nonneg ms).
  unfold parse_difference. lift_step (reads_uint32 crc Hu) Hrest.
  replace (crc =? TL_updates_differenceEmpty) with false by (by destruct Hc as [->| ->]).
  replace (crc =? CRC_updates_differenceTooLong) with false by (by destruct Hc as [->| ->]).
  replace (negb (crc =? TL_updates_difference) && negb (crc =? TL_updates_differenceSlice)) with false
    by (by destruct Hc as [->| ->]).
  lift_step (reads_uint32 TL_vector ltac:(done)) Hrest. change (TL_vector =? TL_vector) with true.
  cbn [negb]. lift_step (reads_uint32 (zlen ms) ltac:(done)) Hrest.
  destruct (new_messages_list _ (diff_start inp) ms tl Hwf Hid Hn ltac:(eassumption) Hrest)
    as (r' & rows & E & Hrows). exists r', rows. split; [|done].
  by rewrite (bind_Done _ _ _ _ _ E).
Qed.

(** A difference shows its first 32 messages, one row each - and leaves the
    caller with the state it came with: polling again from [next_state]
    sends the same request and shows the same messages again. *)
Theorem difference_repeats `{C : Crypto} tinf cfg inp x st st' crc ms tl :
  crc = TL_updates_difference \/ crc = TL_updates_differenceSlice ->
  Forall message_wf ms -> Forall (fun m => m_id m <> 0) ms -> zlen ms < 2 ^ 32 ->
  zlen (difference_bytes crc ms ++ tl) <= 262144 ->
  api_call tinf cfg (difference_query inp) 262144 st = Done (difference_bytes crc ms ++ tl) st' ->
  exists d, domain_updates_difference tinf cfg inp (x, st) = Done tt (d, st') /\
    Forall2 shows (take 32 ms) (d_messages d) /\ d_empty d = false /\ d_too_long d = false /\
    d_next_state d = inp.
Proof.
  intros Hc Hwf Hid Hn Hz Ha. unfold domain_updates_difference. cbn zeta.
  rewrite (bind_Done _ _ _ tt (diff_start inp, st)) by done.
  rewrite (query_bind _ (difference_query inp));
    [|counts_tac|wdata; by rewrite <- ?app_assoc|unfold difference_query; rewrite !zlen_app, !enc32_len; lia|lia].
  rewrite (bind_Done _ _ _ _ _ (call_api_at tinf cfg _ 262144 _ _ _ _ Ha)).
  assert (is_u32 crc /\ crc <> TL_rpc_error) as [Hu Hne] by (by destruct Hc as [->| ->]).
  rewrite (bind_Done _ _ _ tt (diff_start inp, st')).
  2: { unfold difference_bytes. rewrite <- app_assoc. by apply check_top_at. }
  destruct (parse_difference_list inp crc ms tl (tl_reader_init (difference_bytes crc ms ++ tl)
    (zlen (difference_bytes crc ms ++ tl))) Hc Hwf Hid Hn) as (r' & rows & E & Hrows).
  - pose proof (zlen_nonneg (difference_bytes crc ms ++ tl)). apply reader_init_wf; unfold SIZE_LIM; lia.
  - apply rest_init.
  - eexists. split; [unfold with_parser; cbn [fst snd]; by rewrite E|]. by split_and!.
Qed.

Definition toy_state : UpdatesState := mkState 100 0 1700000000 1 0.
Definition toy_difference : list byte :=
  difference_bytes TL_updates_difference [toy_message; toy_message2] ++ enc32 TL_vector.

Lemma toy_difference_answered :
  api_call (C := toy_crypto) store_tinf api_config_init (difference_query toy_state) 262144
    (sample_session, sample_transport, answering_world toy_difference) =
  Done toy_difference (answered (difference_query toy_state) 262144 toy_difference).
Proof. apply answered_at. vm_cast_no_check (eq_refl true). Qed.

Lemma difference_repeats_witness :
  exists d, domain_updates_difference (C := toy_crypto) store_tinf api_config_init toy_state
      (diff_start state_zero, (sample_session, sample_transport, answering_world toy_difference)) =
      Done tt (d, answered (difference_query toy_state) 262144 toy_difference) /\
    Forall2 shows [toy_message; toy_message2] (d_messages d) /\ d_empty d = false /\
    d_too_long d = false /\ d_next_state d = toy_state.
Proof.
  refine (difference_repeats (C := toy_crypto) store_tinf api_config_init toy_state _ _ _
    TL_updates_difference [toy_message; toy_message2] (enc32 TL_vector)
    (or_introl eq_refl) _ _ _ _ toy_difference_answered);
    [exact (Forall_cons _ _ _ toy_message_wf (Forall_cons _ _ _ toy_message2_wf (Forall_nil _)))
    |by repeat constructor|done|by vm_compute].
Defined.

(** ** Where the parsers go astray *)

(** The envelope of a slice with [next_rate], which a global search always
    has: the counter is taken for the vector and the answer is refused. *)
Lemma slice_next_rate_rejected parse limit flags count next_rate ms tl r :
  is_u32 next_rate -> next_rate <> TL_vector -> reader_wf r ->
  rest r = enc32 TL_messages_messagesSlice ++ enc32 flags ++ enc32 count ++ enc32 next_rate ++
           (enc32 TL_vector ++ enc32 (zlen ms) ++ concat (map wire_bytes ms)) ++ tl ->
  exists r', parse_messages parse limit (r, []) = Fail (r', []).
Proof.
  intros Hu Hn Hwf Hr. unfold parse_messages.
  lift_step (reads_uint32 TL_messages_messagesSlice ltac:(done)) Hr.
  change (TL_messages_messagesSlice =? TL_messages_messagesSlice) with true.
  change (TL_messages_messagesSlice =? TL_messages_channelMessages) with false. cbn [when].
  assert (Hs : reads (skip_uint32 ;; skip_int32) (enc32 flags ++ enc32 count) tt)
    by (eapply reads_bind; [apply reads_skip_uint32, zlen_enc32|apply reads_skip_int32, zlen_enc32]).
  rewrite app_assoc in Hr. lift_step Hs Hr. rewrite bind_ret_l.
  lift_step (reads_uint32 next_rate Hu) Hr. rewrite (proj2 (Z.eqb_neq _ _) Hn). by eexists.
Qed.

(** *** Unknown service actions *)

Definition known_actions : list Z :=
  [0xb6aef7b0; 0xbd47cbad; 0xb5a1ce5a; 0x7fcb13a8; 0x95e3fbef; 0x15cefd00; 0xa43f30cc; 0x031224c3;
   0x95d2ac92; 0xe1037f92; 0xea3948e9; 0x94bd38ed; 0x9fbab604; 0x80e11a7f; 0x4792929b; 0xfae69f56;
   0x7a0d7f42; 0xb3a07661; 0x502f92f7].

Definition action_label (acrc : Z) : list byte :=
  ascii "[service action 0x"%string ++ hex8 acrc ++ ascii "]"%string.

Definition service_bytes (flags id : Z) (peer : list byte) (date acrc : Z) : list byte :=
  enc32 TL_messageService ++ enc32 flags ++ enc32 id ++ peer ++ enc32 date ++ enc32 acrc.

Lemma hex_nibble_no_nul v : 0 <= v < 16 -> hex_nibble v <> Byte.x00.
Proof.
  intros Hv. assert (In v (map Z.of_nat (seq 0 16))) as Hi.
  { apply in_map_iff. exists (Z.to_nat v). split; [lia|]. apply in_seq. lia. }
  cbn in Hi. repeat (destruct Hi as [<-|Hi]; [done|]). done.
Qed.

Lemma action_label_cstr acrc : cstr (action_label acrc) = action_label acrc.
Proof.
  apply cstr_no_nul. unfold action_label, no_nul. rewrite !Forall_app. split_and!.
  - by repeat constructor.
  - unfold hex8. apply Forall_map, Forall_forall. intros k _. apply hex_nibble_no_nul.
    change 15 with (Z.ones 4). rewrite Z.land_ones by lia. apply Z.mod_pos_bound. lia.
  - by repeat constructor.
Qed.

Lemma rowp_when_false (m k : EP unit) e bs Q : rowp k e bs Q -> rowp (when false m ;; k) e bs Q.
Proof. intros H r tl Hwf Hr. exact (H r tl Hwf Hr). Qed.

Lemma unknown_action_rowp acrc e :
  is_u32 acrc -> ~ In acrc known_actions ->
  rowp parse_service_action e (enc32 acrc)
    (fun e' => e' = e_put_text (action_label acrc) (e_set_service e)).
Proof.
  intros Hu Hk. unfold parse_service_action. apply rowp_set. intros r tl Hwf Hr.
  destruct (remaining_at r _ tl Hwf Hr) as [_ Hrem]; [by rewrite zlen_enc32|].
  rewrite zlen_enc32 in Hrem. rewrite (bind_Done _ _ _ (remaining r) (r, e_set_service e)) by done.
  rewrite (proj2 (Z.ltb_ge _ _)) by lia.
  rewrite (bind_Done _ _ _ acrc (adv r (zlen (enc32 acrc)), e_set_service e)).
  2: { unfold lift. cbn [fst snd]. pose proof (reads_uint32 acrc Hu r tl Hwf Hr) as E. by rewrite E. }
  eexists. split; [|reflexivity].
  assert (Hn : forall c, In c known_actions -> (acrc =? c) = false)
    by (intros c Hc; apply Z.eqb_neq; intros ->; done).
  cbn [switch existsb].
  do 19 (rewrite Hn by (cbn; tauto); cbn [orb]).
  unfold render_row, set_ctx. cbn [fst snd]. unfold set_text, snprintf_s.
  fold (action_label acrc). rewrite take_ge, action_label_cstr.
  2: { change (length (action_label acrc)) with 27%nat. vm_compute. lia. }
  by change (HISTORY_TEXT_MAX <=? zlen (action_label acrc)) with false.
Qed.

Lemma service_rowp flags id peer date acrc :
  is_u32 flags -> flag flags 8 = false -> flag flags 3 = false -> flag flags 25 = false ->
  is_s32 id -> is_s32 date -> enc (TRef Peer) peer -> is_u32 acrc -> ~ In acrc known_actions ->
  rowp parse_message row_zero (service_bytes flags id peer date acrc)
    (fun e => e_id e = id /\ e_is_service e = true /\ e_text e = action_label acrc).
Proof.
  intros Hf H8 H3 H25 Hi Hd Hp Ha Hk. unfold parse_message, parse_message_gen, service_bytes.
  apply rowp_ok; [rewrite zlen_app, zlen_enc32; apply Z.add_pos_nonneg; [done|apply zlen_nonneg]|].
  eapply rowp_lift; [by apply reads_uint32|].
  change (TL_messageService =? TL_messageEmpty) with false.
  change (TL_messageService =? TL_message) with false.
  change (TL_messageService =? TL_messageService) with true. cbn [negb andb]. cbn iota.
  eapply rowp_lift; [by apply reads_uint32|]. intros r tl Hwf Hr. rewrite bind_ret_l. revert r tl Hwf Hr.
  apply rowp_set. eapply rowp_lift; [by apply reads_int32|]. apply rowp_set.
  unfold domain_history_parse_service. rewrite H8, H3, H25. apply rowp_set, rowp_when_false.
  eapply rowp_bind; [by apply peer_keeps_head|]. cbn beta. intros e He.
  apply rowp_when_false, rowp_need; [rewrite zlen_app, !zlen_enc32; lia|].
  eapply rowp_lift; [by apply reads_int32|]. apply rowp_set. apply rowp_end.
  unfold head_of in He. cbn in He. injection He as Hei _ _ _ _ _ _.
  eapply rowp_bind with (P := fun e => e_id e = id /\ e_is_service e = true /\ e_text e = action_label acrc).
  - intros r tl Hwf Hr. unfold keep_text.
    destruct (unknown_action_rowp acrc (e_set_date date e) Ha Hk r tl Hwf Hr) as (e' & -> & ->).
    eexists. split; [reflexivity|]. done.
  - intros e' He' r tl Hwf Hr. exists e'. split; [by rewrite zlen_nil, adv_0|done].
Qed.

Lemma loop_next parse limit fuel i count r out r' e :
  parse (r, row_zero) = Done tt (r', e) -> i < count -> zlen out < limit ->
  message_loop parse limit (S fuel) i count (r, out) =
  message_loop parse limit fuel (i + 1) count (r', keep_row e out).
Proof.
  intros E Hi Hl. cbn [message_loop]. rewrite (proj2 (Z.ltb_lt i count)), (proj2 (Z.ltb_lt _ limit)) by done.
  by rewrite E.
Qed.

(** The body of a service action that the client does not know is read as
    the next message of the list.  Whoever can choose its bytes chooses what
    the list shows: behind the labelled row comes a row with the id, date,
    direction and text that the body spells out, and it takes the place of
    the real next message. *)
Theorem unknown_action_injects flags id peer date acrc m limit tl r :
  is_u32 flags -> flag flags 8 = false -> flag flags 3 = false -> flag flags 25 = false ->
  is_s32 id -> id <> 0 -> is_s32 date -> enc (TRef Peer) peer -> is_u32 acrc ->
  ~ In acrc known_actions -> message_wf m -> m_id m <> 0 -> 2 <= limit -> reader_wf r ->
  rest r = service_bytes flags id peer date acrc ++ wire_bytes m ++ tl ->
  exists r' srow row, messages_of parse_message limit 2 (r, []) = Done tt (r', [srow; row]) /\
    e_id srow = id /\ e_text srow = action_label acrc /\ shows m row.
Proof.
  intros Hf H8 H3 H25 Hi Hi0 Hd Hp Ha Hk Hm Hm0 Hl Hwf Hr.
  destruct (service_rowp flags id peer date acrc Hf H8 H3 H25 Hi Hd Hp Ha Hk r _ Hwf Hr)
    as (srow & E1 & Hs1 & _ & Hs3).
  assert (Hwf1 : reader_wf (adv r (zlen (service_bytes flags id peer date acrc)))) by by eapply adv_wf.
  assert (Hr1 : rest (adv r (zlen (service_bytes flags id peer date acrc))) = wire_bytes m ++ tl)
    by by eapply rest_adv.
  destruct (message_rowp (or_complex tl_skip_peer) peer_keeps_head
    (fun mi e => e_set_media_info mi (media_ref mi e)) (fun _ _ => eq_refl) m Hm _ _ Hwf1 Hr1)
    as (row & E2 & Hrow).
  eexists _, srow, row. split; [|done]. unfold messages_of, fuelled. cbn [rd HasReader_fst fst].
  assert (Hleft : 2 <= left r).
  { rewrite <- rest_len, Hr by done. unfold service_bytes. rewrite !zlen_app, !zlen_enc32.
    pose proof (zlen_nonneg peer). pose proof (zlen_nonneg (wire_bytes m)). pose proof (zlen_nonneg tl). lia. }
  replace (S (Z.to_nat (left r))) with (S (S (S (Z.to_nat (left r - 2))))) by lia.
  rewrite (loop_next _ _ _ _ _ _ _ _ _ E1) by (unfold zlen; cbn; lia).
  assert (Hk1 : keep_row srow [] = [srow]) by
    (unfold keep_row; by rewrite (proj2 (Z.eqb_neq (e_id srow) 0)) by congruence).
  rewrite Hk1, (loop_next _ _ _ _ _ _ _ _ _ E2) by (unfold zlen; cbn; lia).
  rewrite (keep_shown m) by done. cbn [message_loop]. reflexivity.
Qed.

Definition toy_injected : list byte :=
  service_bytes 0 18 (enc32 TL_peerUser ++ enc64 77) 1700000100 0x12345678 ++ wire_bytes toy_message ++
  wire_bytes toy_message2.

Lemma unknown_action_injects_witness :
  exists r' srow row,
    messages_of parse_message 20 2 (tl_reader_init toy_injected (zlen toy_injected), []) =
      Done tt (r', [srow; row]) /\
    e_id srow = 18 /\ e_text srow = action_label 0x12345678 /\ shows toy_message row.
Proof.
  refine (unknown_action_injects 0 18 (enc32 TL_peerUser ++ enc64 77) 1700000100 0x12345678 toy_message
    20 (wire_bytes toy_message2) (tl_reader_init toy_injected (zlen toy_injected))
    _ _ _ _ _ _ _ toy_peer_enc _ _ toy_message_wf _ _ _ _);
    try done; cbn; intros H; repeat (destruct H as [H|H]; [discriminate|]); destruct H.
Defined.

Example toy_injected_texts :
  match messages_of parse_message 20 2 (tl_reader_init toy_injected (zlen toy_injected), []) with
  | Done _ (_, rows) => map e_text rows
  | _ => []
  end = [ascii "[service action 0x12345678]"%string; ascii "hi"%string].
Proof. vm_compute. reflexivity. Qed.
