(* ===== verification/Contacts.v ===== *)
(** * Own profile and contacts (src/domain/read/self.c, contacts.c)

    users.getUsers for the account itself, and contacts.getContacts with the
    join of the contacts and the users of the answer. *)

From S2P Require Import Prelude TlSerial TlLogic TlCrc TlSkipBase TlSkipChat World MtprotoSession.
From S2P Require Import Transport MtprotoRpc ApiCall Request History.

#[local] Open Scope Z_scope.

(** ** Own profile *)

Definition CRC_users_getUsers : Z := 0x0d91a548.

(** Strings are the bytes before the terminator. *)
Record SelfInfo := mkSelf {
  self_id : Z;
  first_name : list byte;
  last_name : list byte;
  self_username : list byte;
  phone : list byte;
  is_premium : bool;
  is_bot : bool;
}.

Definition self_zero : SelfInfo := mkSelf 0 [] [] [] [] false false.
Definition self_set_id v s := mkSelf v (first_name s) (last_name s) (self_username s) (phone s) (is_premium s) (is_bot s).
Definition self_set_first v s := mkSelf (self_id s) v (last_name s) (self_username s) (phone s) (is_premium s) (is_bot s).
Definition self_set_last v s := mkSelf (self_id s) (first_name s) v (self_username s) (phone s) (is_premium s) (is_bot s).
Definition self_set_username v s := mkSelf (self_id s) (first_name s) (last_name s) v (phone s) (is_premium s) (is_bot s).
Definition self_set_phone v s := mkSelf (self_id s) (first_name s) (last_name s) (self_username s) v (is_premium s) (is_bot s).
Definition self_set_bits premium bot s :=
  mkSelf (self_id s) (first_name s) (last_name s) (self_username s) (phone s) premium bot.

(** [NULL] becomes the empty string. *)
Definition copy_str (dst_cap : Z) (src : option (list byte)) : list byte :=
  match src with Some s => copy_trunc dst_cap s | None => [] end.

Definition self_string (cap : Z) (set : list byte -> SelfInfo -> SelfInfo) : Px SelfInfo unit :=
  s ← lift tl_read_string;
  set_ctx (set (copy_str cap s)).

Definition parse_user : Px SelfInfo unit :=
  lift (fail_if (fun r => negb (tl_reader_ok r))) ;;
  crc ← lift tl_read_uint32;
  if crc =? TL_userEmpty then
    id ← lift tl_read_int64;
    set_ctx (self_set_id id)
  else if negb (crc =? TL_user) && negb (crc =? TL_user2) && negb (crc =? TL_userFull) then fail
  else
    flags ← lift tl_read_uint32;
    flags2 ← lift tl_read_uint32;
    id ← lift tl_read_int64;
    set_ctx (self_set_id id) ;;
    when (flag flags 0) (lift skip_int64) ;;
    when (flag flags 1) (self_string 128 self_set_first) ;;
    when (flag flags 2) (self_string 128 self_set_last) ;;
    when (flag flags 3) (self_string 64 self_set_username) ;;
    when (flag flags 4) (self_string 32 self_set_phone) ;;
    set_ctx (self_set_bits (flag flags2 3) (flag flags 14)).

Definition parse_users : Px SelfInfo unit :=
  lift skip_uint32 ;;
  count ← lift tl_read_uint32;
  if count =? 0 then fail else parse_user.

Section Self.
Context `{C : Crypto} (tinf : Z -> list byte -> option (list byte)) (cfg : ApiConfig).

Definition domain_get_self : Cx SelfInfo unit :=
  upd_ctx (fun _ => self_zero) ;;
  let w := tl_writer_init in
  let w := tl_write_uint32 w CRC_users_getUsers in
  let w := tl_write_uint32 w TL_vector in
  let w := tl_write_uint32 w 1 in
  let w := tl_write_uint32 w CRC_inputUserSelf in
  query ← take_query w 64;
  resp ← call_api tinf cfg query 65536;
  if zlen resp <? 8 then fail
  else
    check_top log_error (Z.eqb TL_vector) resp ;;
    with_parser resp parse_users.

End Self.

(** ** Contacts *)

Definition CRC_contacts_getContacts : Z := 0x5dd69e12.
Definition CRC_contact : Z := 0x145ade0b.
Definition CONTACTS_MAX : Z := 512.

Record ContactEntry := mkContact {
  c_user_id : Z;
  c_access_hash : Z;
  c_mutual : bool;
  c_name : list byte;
  c_username : list byte;
}.

(** A round of the loop; [None] ends it. *)
Definition contact_round : Rd (option ContactEntry) :=
  ok ← ask_ok;
  if negb ok then mret None
  else
    ccrc ← tl_read_uint32;
    if negb (ccrc =? CRC_contact) then mret None
    else
      user_id ← tl_read_int64;
      b ← tl_read_bool;
      mret (Some (mkContact user_id 0 (b =? 1) [] [])).

(** [for (i = 0; i < count && written < max_entries; i++)]; every round reads
    at least one byte. *)
Fixpoint contact_loop (max_entries : Z) (fuel : nat) (i count : Z)
    : M (TlReader * list ContactEntry) unit :=
  match fuel with
  | O => no_fuel
  | S fuel =>
      out ← get_ctx;
      if (i <? count) && (zlen out <? max_entries) then
        e ← lift contact_round;
        match e with
        | None => mret tt
        | Some e =>
            set_ctx (fun out => out ++ [e]) ;;
            contact_loop max_entries fuel (i + 1) count
        end
      else mret tt
  end.

(** The first contact with the id of the user gets his hash and names. *)
Fixpoint join_contact (us : UserSummary) (out : list ContactEntry) : list ContactEntry :=
  match out with
  | [] => []
  | e :: out =>
      if c_user_id e =? TlSkipChat.user_id us
      then mkContact (c_user_id e) (user_access_hash us) (c_mutual e)
             (copy_trunc 128 (user_name us)) (copy_trunc 64 (user_username us)) :: out
      else e :: join_contact us out
  end.

(** [UserSummary us = {0}; tl_extract_user(&r, &us)] *)
Definition extract_user : Rd UserSummary := fun r =>
  match tl_extract_user (r, Some user_zero) with
  | Done _ (r', us) => Done (default user_zero us) r'
  | Fail (r', _) => Fail r'
  | Fault => Fault
  | NoFuel => NoFuel
  end.

(** A step whose failure ends a loop and not the function. *)
Definition attempt {A} (m : Rd A) : Rd (option A) := fun r =>
  match m r with
  | Done a r' => Done (Some a) r'
  | Fail r' => Done None r'
  | Fault => Fault
  | NoFuel => NoFuel
  end.

Definition user_round : Rd (option UserSummary) :=
  ok ← ask_ok;
  if negb ok then mret None else attempt extract_user.

Fixpoint user_loop (fuel : nat) (i ucount : Z) : M (TlReader * list ContactEntry) unit :=
  match fuel with
  | O => no_fuel
  | S fuel =>
      if i <? ucount then
        us ← lift user_round;
        match us with
        | None => mret tt
        | Some us => set_ctx (join_contact us) ;; user_loop fuel (i + 1) ucount
        end
      else mret tt
  end.

Definition contacts_body (max_entries : Z) : Px (list ContactEntry) unit :=
  lift skip_uint32 ;;
  vec ← lift tl_read_uint32;
  if negb (vec =? TL_vector) then fail
  else
    count ← lift tl_read_uint32;
    fuelled (fun n => contact_loop max_entries n 0 count) ;;
    lift skip_int32 ;;
    uvec ← lift tl_read_uint32;
    if uvec =? TL_vector then
      ucount ← lift tl_read_uint32;
      fuelled (fun n => user_loop n 0 ucount)
    else mret tt.

Section Contacts.
Context `{C : Crypto} (tinf : Z -> list byte -> option (list byte)) (cfg : ApiConfig).

Definition is_contacts (top : Z) : bool :=
  (top =? TL_contacts_contactsNotModified) || (top =? TL_contacts_contacts).

Definition domain_get_contacts (max_entries : Z) : Cx (list ContactEntry) unit :=
  if max_entries <=? 0 then fail
  else
    upd_ctx (fun _ => []) ;;
    let max_entries := if CONTACTS_MAX <? max_entries then CONTACTS_MAX else max_entries in
    let w := tl_writer_init in
    let w := tl_write_uint32 w CRC_contacts_getContacts in
    let w := tl_write_int64 w 0 in
    query ← take_query w 32;
    resp ← call_api tinf cfg query 65536;
    check_top log_error is_contacts resp ;;
    if first_word resp =? TL_contacts_contactsNotModified then mret tt
    else with_parser resp (contacts_body max_entries).

End Contacts.
