(* ===== verification/Resolver.v ===== *)
(** * User names and profiles (src/domain/read/user_info.c)

    contacts.resolveUsername behind a cache of 32 answers, and
    users.getFullUser.  The cache is a static array of the file; its clock is
    the [time] of the world. *)

From Stdlib Require Import String.
From S2P Require Import Prelude TlSerial TlLogic TlCrc TlSkipBase TlSkipChat CLib World MtprotoSession.
From S2P Require Import Transport MtprotoRpc ApiCall Request History Contacts.

#[local] Open Scope Z_scope.

Definition CRC_contacts_resolveUsername : Z := 0xf93ccba3.
Definition CRC_users_getFullUser : Z := 0xb9f11a99.
Definition CRC_users_userFull : Z := 0x3b6d152e.
Definition CRC_inputUser : Z := 0x0d313d36.

Inductive ResolvedKind :=
| RESOLVED_KIND_UNKNOWN | RESOLVED_KIND_USER | RESOLVED_KIND_CHAT | RESOLVED_KIND_CHANNEL.

Record ResolvedPeer := mkResolved {
  r_kind : ResolvedKind;
  r_id : Z;
  r_access_hash : Z;
  r_title : list byte;
  r_username : list byte;
  r_have_hash : bool;
}.

Definition resolved_zero : ResolvedPeer := mkResolved RESOLVED_KIND_UNKNOWN 0 0 [] [] false.
Definition r_set_kind v p := mkResolved v (r_id p) (r_access_hash p) (r_title p) (r_username p) (r_have_hash p).
Definition r_set_id v p := mkResolved (r_kind p) v (r_access_hash p) (r_title p) (r_username p) (r_have_hash p).
Definition r_set_hash v h p := mkResolved (r_kind p) (r_id p) v (r_title p) (r_username p) h.
Definition r_set_title v p := mkResolved (r_kind p) (r_id p) (r_access_hash p) v (r_username p) (r_have_hash p).
Definition r_set_username v p := mkResolved (r_kind p) (r_id p) (r_access_hash p) (r_title p) v (r_have_hash p).

(** ** The cache *)

Definition RESOLVE_CACHE_TTL_S : Z := 300.
Definition RESOLVE_CACHE_NEG_TTL_S : Z := 60.
Definition RESOLVE_CACHE_MAX : nat := 32.

Record ResolveCacheEntry := mkRc {
  rc_valid : bool;
  rc_negative : bool;
  rc_fetched_at : Z;
  rc_key : list byte;
  rc_value : ResolvedPeer;
}.

Definition rc_zero : ResolveCacheEntry := mkRc false false 0 [] resolved_zero.

(** [resolve_cache_flush], and the array when the program starts. *)
Definition resolve_cache_flush : list ResolveCacheEntry := replicate RESOLVE_CACHE_MAX rc_zero.

Inductive RcacheLookupResult := RCACHE_MISS | RCACHE_HIT_POS (value : ResolvedPeer) | RCACHE_HIT_NEG.

Definition rc_invalidate (e : ResolveCacheEntry) : ResolveCacheEntry :=
  mkRc false (rc_negative e) (rc_fetched_at e) (rc_key e) (rc_value e).

Definition rc_ttl (e : ResolveCacheEntry) : Z :=
  if rc_negative e then RESOLVE_CACHE_NEG_TTL_S else RESOLVE_CACHE_TTL_S.

(** The first valid entry with the key decides; an expired one is dropped. *)
Fixpoint rcache_lookup_v2 (name : list byte) (now : Z) (cache : list ResolveCacheEntry)
    : RcacheLookupResult * list ResolveCacheEntry :=
  match cache with
  | [] => (RCACHE_MISS, [])
  | e :: rest =>
      if negb (rc_valid e) || negb (str_eq (rc_key e) name) then
        let '(res, rest) := rcache_lookup_v2 name now rest in (res, e :: rest)
      else if rc_ttl e <=? now - rc_fetched_at e then (RCACHE_MISS, rc_invalidate e :: rest)
      else (if rc_negative e then RCACHE_HIT_NEG else RCACHE_HIT_POS (rc_value e), e :: rest)
  end.

(** The first invalid slot, otherwise the first one with the oldest entry;
    [slot] and [oldest] are the variables of the loop at entry [i]. *)
Fixpoint find_slot (cache : list ResolveCacheEntry) (i slot : nat) (oldest : Z) : nat :=
  match cache with
  | [] => slot
  | e :: rest =>
      if negb (rc_valid e) then i
      else if rc_fetched_at e <? oldest then find_slot rest (S i) i (rc_fetched_at e)
      else find_slot rest (S i) slot oldest
  end.

Definition rcache_store_entry (name : list byte) (rp : option ResolvedPeer) (negative : bool) (now : Z)
    (cache : list ResolveCacheEntry) : list ResolveCacheEntry :=
  let slot := find_slot cache 0 0 (rc_fetched_at (nth 0 cache rc_zero)) in
  <[slot := mkRc true negative now (copy_trunc 64 name) (default resolved_zero rp)]> cache.

(** ** Parsers *)

Definition resolved_string (cap : Z) : Rd (list byte) :=
  s ← tl_read_string;
  mret (copy_str cap s).

Definition parse_user_prefix : Rd ResolvedPeer :=
  flags ← tl_read_uint32;
  skip_uint32 ;;
  id ← tl_read_int64;
  hash ← (if flag flags 0 then h ← tl_read_int64; mret (h, true) else mret (0, false));
  first ← (if flag flags 1 then resolved_string 64 else mret []);
  last ← (if flag flags 2 then resolved_string 64 else mret []);
  username ← (if flag flags 3 then resolved_string 64 else mret []);
  let both := negb (bool_decide (first = [])) && negb (bool_decide (last = [])) in
  let title := if negb (bool_decide (first = [])) || negb (bool_decide (last = []))
               then snprintf_s 128 (first ++ (if both then space else []) ++ last) else [] in
  mret (mkResolved RESOLVED_KIND_UNKNOWN id (fst hash) title username (snd hash)).

Definition parse_channel_prefix : Rd ResolvedPeer :=
  flags ← tl_read_uint32;
  skip_uint32 ;;
  id ← tl_read_int64;
  hash ← (if flag flags 13 then h ← tl_read_int64; mret (h, true) else mret (0, false));
  mret (mkResolved RESOLVED_KIND_UNKNOWN id (fst hash) [] [] (snd hash)).

(** Only the hash of the matching object is taken over. *)
Definition take_hash (peer_id : Z) (tmp p : ResolvedPeer) : ResolvedPeer :=
  if r_id tmp =? peer_id then r_set_hash (r_access_hash tmp) (r_have_hash tmp) p else p.

Definition kind_of (pcrc : Z) : ResolvedKind :=
  if pcrc =? TL_peerUser then RESOLVED_KIND_USER
  else if pcrc =? TL_peerChat then RESOLVED_KIND_CHAT
  else RESOLVED_KIND_CHANNEL.

(** contacts.resolvedPeer; both loops end in their first round. *)
Definition parse_resolved : Px ResolvedPeer unit :=
  lift skip_uint32 ;;
  pcrc ← lift tl_read_uint32;
  if negb ((pcrc =? TL_peerUser) || (pcrc =? TL_peerChat) || (pcrc =? TL_peerChannel)) then fail
  else
    set_ctx (r_set_kind (kind_of pcrc)) ;;
    peer_id_raw ← lift tl_read_int64;
    set_ctx (r_set_id peer_id_raw) ;;
    vec ← lift tl_read_uint32;
    if negb (vec =? TL_vector) then fail
    else
      nchats ← lift tl_read_uint32;
      when (0 <? nchats) (
        ccrc ← lift tl_read_uint32;
        when (ccrc =? TL_channel) (
          tmp ← lift parse_channel_prefix;
          set_ctx (take_hash peer_id_raw tmp))) ;;
      vec ← lift tl_read_uint32;
      when (vec =? TL_vector) (
        nusers ← lift tl_read_uint32;
        when (0 <? nusers) (
          ucrc ← lift tl_read_uint32;
          when ((ucrc =? TL_user) || (ucrc =? TL_user2)) (
            tmp ← lift parse_user_prefix;
            set_ctx (take_hash peer_id_raw tmp)))).

(** ** Full profiles *)

Record UserFullInfo := mkFull {
  uf_id : Z;
  uf_bio : list byte;
  uf_phone : list byte;
  common_chats_count : Z;
}.

Definition full_zero : UserFullInfo := mkFull 0 [] [] 0.
Definition uf_set_id v f := mkFull v (uf_bio f) (uf_phone f) (common_chats_count f).
Definition uf_set_bio v f := mkFull (uf_id f) v (uf_phone f) (common_chats_count f).
Definition uf_set_phone v f := mkFull (uf_id f) (uf_bio f) v (common_chats_count f).
Definition uf_set_chats v f := mkFull (uf_id f) (uf_bio f) (uf_phone f) v.

(** A string that is copied when it could be read. *)
Definition full_string (cap : Z) (set : list byte -> UserFullInfo -> UserFullInfo) : Px UserFullInfo unit :=
  s ← lift tl_read_string;
  match s with
  | Some s => set_ctx (set (copy_trunc cap s))
  | None => mret tt
  end.

Definition parse_user_full : Px UserFullInfo unit :=
  flags ← lift tl_read_uint32;
  lift skip_int64 ;;
  when (flag flags 5) (full_string 256 uf_set_bio) ;;
  when (flag flags 4) (full_string 32 uf_set_phone) ;;
  when (flag flags 20) (n ← lift tl_read_int32; set_ctx (uf_set_chats n)).

Definition parse_full : Px UserFullInfo unit :=
  lift skip_uint32 ;;
  uf_crc ← lift tl_read_uint32;
  if negb (uf_crc =? TL_userFull) then fail else parse_user_full.

(** inputUserSelf for the id 0. *)
Definition build_get_full_user {S} (user_id access_hash : Z) : M S (list byte) :=
  let w := tl_writer_init in
  let w := tl_write_uint32 w CRC_users_getFullUser in
  let w := if user_id =? 0 then tl_write_uint32 w CRC_inputUserSelf
           else
             let w := tl_write_uint32 w CRC_inputUser in
             let w := tl_write_int64 w user_id in
             tl_write_int64 w access_hash in
  take_query w 64.

(** ** Calls *)

Definition at_sign : byte := Byte.x40.

Definition bare_name (username : list byte) : list byte :=
  match username with
  | b :: rest => if Byte.eqb b at_sign then rest else username
  | [] => []
  end.

Section Resolver.
Context `{C : Crypto} (tinf : Z -> list byte -> option (list byte)) (cfg : ApiConfig).

Abbreviation RX := (ResolvedPeer * list ResolveCacheEntry)%type.

Definition resolver_now {X} : Cx X Z :=
  now ← on_snd (on_snd time_now);
  mret (s64 now).

Definition lookup_cached (bare : list byte) : Cx RX RcacheLookupResult :=
  now ← resolver_now;
  x ← get_fst;
  let '(res, cache) := rcache_lookup_v2 bare now (snd x) in
  upd_ctx (fun x => (fst x, cache)) ;;
  mret res.

Definition rcache_store (name : list byte) : Cx RX unit :=
  now ← resolver_now;
  upd_ctx (fun x => (fst x, rcache_store_entry name (Some (fst x)) false now (snd x))).

Definition rcache_store_negative (name : list byte) : Cx RX unit :=
  now ← resolver_now;
  upd_ctx (fun x => (fst x, rcache_store_entry name None true now (snd x))).

Definition USERNAME_ : list byte := ascii "USERNAME_"%string.

(** The parser works on the caller's peer, in front of the cache. *)
Definition on_peer {A} (m : Px ResolvedPeer A) : Px RX A := fun '(r, x) =>
  match m (r, fst x) with
  | Done a (r', p) => Done a (r', (p, snd x))
  | Fail (r', p) => Fail (r', (p, snd x))
  | Fault => Fault
  | NoFuel => NoFuel
  end.

Definition domain_resolve_username (username : list byte) : Cx RX unit :=
  let bare := bare_name username in
  upd_ctx (fun x => (r_set_username (copy_trunc 64 bare) resolved_zero, snd x)) ;;
  cr ← lookup_cached bare;
  match cr with
  | RCACHE_HIT_POS cached => upd_ctx (fun x => (cached, snd x))
  | RCACHE_HIT_NEG => fail
  | RCACHE_MISS =>
      let w := tl_writer_init in
      let w := tl_write_uint32 w CRC_contacts_resolveUsername in
      let w := tl_write_string w (Some (bare_name username)) in
      query ← take_query w 128;
      resp ← call_api tinf cfg query 65536;
      if zlen resp <? 4 then fail
      else
        let top := first_word resp in
        if top =? TL_rpc_error then
          match rpc_parse_error resp with
          | Some err =>
              when (starts_with USERNAME_ (error_msg err)) (rcache_store_negative bare) ;; fail
          | None => fail
          end
        else if negb (top =? TL_contacts_resolvedPeer) then fail
        else
          with_parser resp (on_peer parse_resolved) ;;
          rcache_store bare
  end.

Abbreviation FX := (UserFullInfo * RX)%type.

(** A computation on the resolver's objects, behind the profile. *)
Definition on_resolver {A} (m : Cx RX A) : Cx FX A := fun '((f, x), w) =>
  match m (x, w) with
  | Done a (x', w') => Done a ((f, x'), w')
  | Fail (x', w') => Fail ((f, x'), w')
  | Fault => Fault
  | NoFuel => NoFuel
  end.

Definition on_full {A} (m : Px UserFullInfo A) : Px FX A := fun '(r, (f, x)) =>
  match m (r, f) with
  | Done a (r', f') => Done a (r', (f', x))
  | Fail (r', f') => Fail (r', (f', x))
  | Fault => Fault
  | NoFuel => NoFuel
  end.

Definition upd_full {W} (f : UserFullInfo -> UserFullInfo) : M (FX * W) unit :=
  upd_ctx (fun x => (f (fst x), snd x)).

Definition is_self (peer : list byte) : bool := str_eq peer (ascii "self"%string) || str_eq peer (ascii "me"%string).

(** The id and the hash of the user; those of the account itself are 0. *)
Definition user_of (peer : list byte) : Cx FX (Z * Z) :=
  if is_self peer then mret (0, 0)
  else
    on_resolver (domain_resolve_username peer) ;;
    x ← get_fst;
    let rp := fst (snd x) in
    upd_full (uf_set_id (r_id rp)) ;;
    mret (r_id rp, r_access_hash rp).

Definition domain_get_user_info (peer : list byte) : Cx FX unit :=
  upd_full (fun _ => full_zero) ;;
  u ← user_of peer;
  query ← build_get_full_user (fst u) (snd u);
  resp ← call_api tinf cfg query 65536;
  check_top log_error (Z.eqb CRC_users_userFull) resp ;;
  with_parser resp (on_full parse_full).

End Resolver.
