(* ===== verification/ResolveCache.v ===== *)
(** * The cache of resolved names (src/domain/read/user_info.c)

    What the array of 32 slots is to its callers: a map from names to answers,
    [view], that a lookup reads (dropping the expired answer of that name) and
    a store extends; only a full array loses an answer, and then one of the
    oldest. *)

From S2P Require Import Prelude CLib Contacts Resolver.

#[local] Open Scope Z_scope.

(** ** The abstract cache *)

Definition answers_to (name : list byte) (e : ResolveCacheEntry) : bool :=
  rc_valid e && str_eq (rc_key e) name.

(** The answer stored for a name, expired or not. *)
Fixpoint view (cache : list ResolveCacheEntry) (name : list byte) : option ResolveCacheEntry :=
  match cache with
  | [] => None
  | e :: rest => if answers_to name e then Some e else view rest name
  end.

Definition expired (now : Z) (e : ResolveCacheEntry) : bool := rc_ttl e <=? now - rc_fetched_at e.

(** No two valid slots have the same name, and every name fits its slot. *)
Record cache_ok (cache : list ResolveCacheEntry) : Prop := {
  ok_length : length cache = RESOLVE_CACHE_MAX;
  ok_unique i j e e' : cache !! i = Some e -> cache !! j = Some e' ->
    rc_valid e = true -> rc_valid e' = true -> rc_key e = rc_key e' -> i = j;
  ok_keys e : In e cache -> zlen (rc_key e) < 64 /\ no_nul (rc_key e);
}.

(** What a lookup reports of an answer. *)
Definition report (now : Z) (a : option ResolveCacheEntry) : RcacheLookupResult :=
  match a with
  | Some e => if expired now e then RCACHE_MISS
              else if rc_negative e then RCACHE_HIT_NEG else RCACHE_HIT_POS (rc_value e)
  | None => RCACHE_MISS
  end.

(** ** Lemmas *)

Lemma answers_spec name e : answers_to name e = true <-> rc_valid e = true /\ rc_key e = name.
Proof. unfold answers_to. by rewrite andb_true_iff, str_eq_true. Qed.

Lemma view_index cache name e : view cache name = Some e ->
  exists i, cache !! i = Some e /\ answers_to name e = true.
Proof.
  induction cache as [|a rest IH]; cbn; [done|]. destruct (answers_to name a) eqn:E.
  - intros [= <-]. by exists O.
  - intros (i & Hi & Ha)%IH. by exists (S i).
Qed.

Lemma view_None cache name : view cache name = None ->
  forall i e, cache !! i = Some e -> answers_to name e = false.
Proof.
  induction cache as [|a rest IH]; [done|]. cbn. destruct (answers_to name a) eqn:E; [done|].
  intros Hv [|i] e; cbn; [by intros [= <-]|by apply IH].
Qed.

Definition unique (cache : list ResolveCacheEntry) : Prop := forall i j e e',
  cache !! i = Some e -> cache !! j = Some e' ->
  rc_valid e = true -> rc_valid e' = true -> rc_key e = rc_key e' -> i = j.

Lemma view_Some cache name e : unique cache ->
  view cache name = Some e <-> exists i, cache !! i = Some e /\ answers_to name e = true.
Proof.
  intros Hu. split; [apply view_index|]. intros (i & Hi & Ha).
  destruct (view cache name) as [e'|] eqn:Ev; [|by rewrite (view_None _ _ Ev i e Hi) in Ha].
  apply view_index in Ev as (j & Hj & Ha'). apply answers_spec in Ha as [Hv Hk], Ha' as [Hv' Hk'].
  assert (i = j) as -> by (by eapply Hu; [exact Hi|exact Hj|..]; congruence). congruence.
Qed.

(** A slot that is replaced by an entry whose name no other valid slot has. *)
Lemma unique_insert cache k new : unique cache ->
  (rc_valid new = true -> forall j e, cache !! j = Some e -> rc_valid e = true ->
     rc_key e = rc_key new -> j = k) ->
  unique (<[k := new]> cache).
Proof.
  intros Hu Hn i j e e' Hi Hj Hv Hv' Hk.
  apply list_lookup_insert_Some in Hi as [(-> & <- & _)|[Hki Hi]];
    apply list_lookup_insert_Some in Hj as [(-> & <- & _)|[Hkj Hj]].
  - done.
  - symmetry. by eapply Hn.
  - by eapply Hn.
  - by eapply Hu.
Qed.

(** The views before and behind the replacement of a slot. *)
Lemma view_insert cache k old new name : unique cache -> unique (<[k := new]> cache) ->
  cache !! k = Some old ->
  view (<[k := new]> cache) name =
    if answers_to name new then Some new
    else if answers_to name old then None else view cache name.
Proof.
  intros Hu Hu' Hold. pose proof (lookup_lt_Some _ _ _ Hold) as Hlt.
  destruct (answers_to name new) eqn:En.
  { apply view_Some; [done|]. exists k. by rewrite list_lookup_insert_eq. }
  destruct (answers_to name old) eqn:Eo.
  - destruct (view _ name) as [e|] eqn:Ev; [|done]. apply view_index in Ev as (i & Hi & Ha).
    apply list_lookup_insert_Some in Hi as [(-> & <- & _)|[Hki Hi]]; [congruence|].
    apply answers_spec in Ha as [Hv Hk], Eo as [Hv' Hk']. destruct Hki. eapply Hu; [exact Hold|exact Hi|..]; congruence.
  - apply option_eq. intros e. rewrite !view_Some by done. split.
    + intros (i & Hi & Ha). apply list_lookup_insert_Some in Hi as [(-> & <- & _)|[Hki Hi]]; [congruence|eauto].
    + intros (i & Hi & Ha). exists i. split; [|done]. rewrite list_lookup_insert_ne; [done|].
      intros ->. congruence.
Qed.

(** What a lookup does, by the answer it finds. *)
Lemma lookup_cases name now cache :
  (view cache name = None /\ rcache_lookup_v2 name now cache = (RCACHE_MISS, cache)) \/
  exists i e, cache !! i = Some e /\ view cache name = Some e /\
    rcache_lookup_v2 name now cache =
      (report now (Some e), if expired now e then <[i := rc_invalidate e]> cache else cache).
Proof.
  induction cache as [|a rest IH]; [by left|]. cbn [view rcache_lookup_v2].
  replace (negb (rc_valid a) || negb (str_eq (rc_key a) name)) with (negb (answers_to name a))
    by (unfold answers_to; by rewrite negb_andb).
  destruct (answers_to name a) eqn:Ea; cbn [negb].
  - right. exists O, a. split_and!; [done..|]. cbn [report]. unfold expired. by destruct (_ <=? _).
  - destruct IH as [[Hv ->]|(i & e & Hi & Hv & ->)]; [by left|]. right. exists (S i), e.
    split_and!; [done..|]. by destruct (expired now e).
Qed.

Lemma cache_insert_ok cache k new : cache_ok cache -> unique (<[k := new]> cache) ->
  zlen (rc_key new) < 64 -> no_nul (rc_key new) -> cache_ok (<[k := new]> cache).
Proof.
  intros [Hl Hu Hk] Hu' Hz Hn. split; [by rewrite length_insert|done|].
  intros e [i Hi]%list_elem_of_In%list_elem_of_lookup.
  apply list_lookup_insert_Some in Hi as [(-> & <- & _)|[Hki Hi]]; [done|].
  apply Hk. apply list_elem_of_In, list_elem_of_lookup. eauto.
Qed.

(** The slot that a store takes. *)
Lemma find_slot_spec cache : forall i slot oldest,
  let r := find_slot cache i slot oldest in
  (exists k e, r = (i + k)%nat /\ cache !! k = Some e /\ rc_valid e = false) \/
  (forall e, In e cache -> rc_valid e = true) /\
  ((r = slot /\ forall e, In e cache -> oldest <= rc_fetched_at e) \/
   exists k e, r = (i + k)%nat /\ cache !! k = Some e /\ rc_fetched_at e < oldest /\
     forall e', In e' cache -> rc_fetched_at e <= rc_fetched_at e').
Proof.
  induction cache as [|a rest IH]; intros i slot oldest; cbn [find_slot].
  { right. split; [done|]. by left. }
  destruct (rc_valid a) eqn:Ea; cbn [negb].
  2: { left. exists O, a. by rewrite Nat.add_0_r. }
  destruct (Z.ltb_spec (rc_fetched_at a) oldest) as [Ho|Ho].
  - destruct (IH (S i) i (rc_fetched_at a)) as [(k & e & -> & Hk & He)|[Hv H]].
    + left. exists (S k), e. by split_and!; [lia| |].
    + right. split; [by intros e [<-|]; auto|]. right. destruct H as [[-> Hm]|(k & e & -> & Hk & Hlt & Hm)].
      * exists O, a. split_and!; [lia|done|done|]. intros e' [<-|]; [lia|auto].
      * exists (S k), e. split_and!; [lia|done|lia|]. intros e' [<-|]; [lia|auto].
  - destruct (IH (S i) slot oldest) as [(k & e & -> & Hk & He)|[Hv H]].
    + left. exists (S k), e. by split_and!; [lia| |].
    + right. split; [by intros e [<-|]; auto|]. destruct H as [[-> Hm]|(k & e & -> & Hk & Hlt & Hm)].
      * left. split; [done|]. intros e [<-|]; [lia|auto].
      * right. exists (S k), e. split_and!; [lia|done|lia|]. intros e' [<-|]; [lia|auto].
Qed.

(** A free slot, or that of one of the oldest answers of a full array. *)
Definition store_slot (cache : list ResolveCacheEntry) : nat :=
  find_slot cache 0 0 (rc_fetched_at (nth 0 cache rc_zero)).

Lemma store_slot_spec cache : length cache = RESOLVE_CACHE_MAX ->
  exists e, cache !! store_slot cache = Some e /\
    (rc_valid e = false \/
     (forall e', In e' cache -> rc_valid e' = true /\ rc_fetched_at e <= rc_fetched_at e')).
Proof.
  intros Hl. destruct cache as [|a rest] eqn:Hc; [done|]. rewrite <- Hc in *. unfold store_slot.
  destruct (find_slot_spec cache 0 0 (rc_fetched_at (nth 0 cache rc_zero)))
    as [(k & e & -> & Hk & He)|[Hv [[-> Hm]|(k & e & -> & Hk & _ & Hm)]]].
  - exists e. by split; [|left].
  - exists a. split; [by rewrite Hc|]. right. intros e' He. split; [auto|].
    specialize (Hm e' He). by rewrite Hc in Hm.
  - exists e. split; [done|]. right. auto.
Qed.

Lemma nth_lookup_of {A} (d : A) l i x : l !! i = Some x -> nth i l d = x.
Proof. rewrite nth_lookup. by intros ->. Qed.

(** ** Refinement *)

Lemma lookup_refines cache name now : cache_ok cache ->
  let '(res, cache') := rcache_lookup_v2 name now cache in
  res = report now (view cache name) /\ cache_ok cache' /\
  forall n, view cache' n =
    if str_eq n name && from_option (expired now) false (view cache name) then None else view cache n.
Proof.
  intros Hok. pose proof (ok_unique _ Hok) as Hu.
  destruct (lookup_cases name now cache) as [[Hv ->]|(i & e & Hi & Hv & ->)]; rewrite Hv.
  + split_and!; [done..|]. intros n. cbn. by rewrite andb_false_r.
  + cbn [from_option]. destruct (expired now e) eqn:Ex; cbn [report]; rewrite Ex.
    2: { split_and!; [done..|]. intros n. by rewrite andb_false_r. }
    assert (Hu' : unique (<[i := rc_invalidate e]> cache)) by (by apply unique_insert).
    destruct (ok_keys _ Hok e) as [Hz Hn]; [by eapply list_elem_of_In, list_elem_of_lookup_2|].
    split_and!; [done|by apply cache_insert_ok|]. intros n. rewrite (view_insert _ _ e) by done.
    apply view_index in Hv as (j & _ & Ha). apply answers_spec in Ha as [Hval <-].
    replace (answers_to n e) with (str_eq n (rc_key e)); [by rewrite andb_true_r|].
    unfold answers_to. rewrite Hval. unfold str_eq. by apply bool_decide_ext.
Qed.

Lemma store_refines cache name now rp negative : cache_ok cache ->
  no_nul name -> zlen name < 64 -> view cache name = None ->
  let new := mkRc true negative now name (default resolved_zero rp) in
  let cache' := rcache_store_entry name rp negative now cache in
  cache_ok cache' /\
  exists evicted : option ResolveCacheEntry,
    (forall n, view cache' n =
       if str_eq n name then Some new
       else if from_option (answers_to n) false evicted then None else view cache n) /\
    forall v, evicted = Some v -> view cache (rc_key v) = Some v /\
      forall e, In e cache -> rc_valid e = true /\ rc_fetched_at v <= rc_fetched_at e.
Proof.
  intros Hok Hn Hz Hv new cache'. pose proof (ok_unique _ Hok) as Hu.
  destruct (store_slot_spec cache (ok_length _ Hok)) as (old & Hold & Hs).
  assert (E : cache' = <[store_slot cache := new]> cache).
  { subst cache' new. unfold rcache_store_entry. by rewrite copy_trunc_fits. }
  assert (Hu' : unique cache').
  { rewrite E. apply unique_insert; [done|]. intros _ j e Hj Hval Hk.
    pose proof (view_None _ _ Hv j e Hj) as Ha. cbn [rc_key new] in Hk.
    rewrite (proj2 (answers_spec name e)) in Ha by done. done. }
  split; [rewrite E in *; by apply cache_insert_ok|].
  assert (Hnew : forall n, answers_to n new = str_eq n name).
  { intros n. unfold answers_to. cbn. unfold str_eq. by apply bool_decide_ext. }
  exists (if rc_valid old then Some old else None). split.
  + intros n. rewrite E in *. rewrite (view_insert _ _ old), Hnew by done.
    destruct (rc_valid old) eqn:Eo; [done|]. unfold answers_to at 1. by rewrite Eo.
  + intros v. destruct (rc_valid old) eqn:Eo; [|done]. intros [= <-].
    destruct Hs as [|Hs]; [congruence|]. split; [|done]. apply view_Some; [done|].
    exists (store_slot cache). split; [done|]. by apply answers_spec.
Qed.

(** (C16) The array of [domain_resolve_username] implements a map from names
    to answers with expiry.  A lookup reports the answer of the name unless it
    has expired (300 seconds for a peer, 60 for a refusal), and drops it when
    it has; the answers of all other names stay.  A store of a name without
    an answer adds it and keeps all others, except that in a full array one
    of the 32 is evicted, none of which was fetched earlier. *)
Theorem resolve_cache_refines cache name now : cache_ok cache ->
  (let '(res, cache') := rcache_lookup_v2 name now cache in
   res = report now (view cache name) /\ cache_ok cache' /\
   forall n, view cache' n =
     if str_eq n name && from_option (expired now) false (view cache name) then None else view cache n) /\
  (forall rp negative, no_nul name -> zlen name < 64 -> view cache name = None ->
   let new := mkRc true negative now name (default resolved_zero rp) in
   let cache' := rcache_store_entry name rp negative now cache in
   cache_ok cache' /\
   exists evicted : option ResolveCacheEntry,
     (forall n, view cache' n =
        if str_eq n name then Some new
        else if from_option (answers_to n) false evicted then None else view cache n) /\
     forall v, evicted = Some v -> view cache (rc_key v) = Some v /\
       forall e, In e cache -> rc_valid e = true /\ rc_fetched_at v <= rc_fetched_at e).
Proof. intros Hok. split; [by apply lookup_refines|]. intros rp negative. by apply store_refines. Qed.

Lemma empty_cache_ok : cache_ok resolve_cache_flush.
Proof.
  split; [done| |].
  - intros i j e e' Hi Hj Hv. apply lookup_replicate in Hi as [-> _]. done.
  - intros e He%list_elem_of_In. apply elem_of_replicate in He as [-> _]. split; [done|constructor].
Qed.

Lemma resolve_cache_refines_witness :
  view (rcache_store_entry [Byte.x61] None true 1000 resolve_cache_flush) [Byte.x61] =
    Some (mkRc true true 1000 [Byte.x61] resolved_zero).
Proof.
  destruct (proj2 (resolve_cache_refines resolve_cache_flush [Byte.x61] 1000 empty_cache_ok)
    None true ltac:(by repeat constructor) eq_refl eq_refl) as (_ & v & Hview & _).
  exact (Hview [Byte.x61]).
Defined.
