(* ===== verification/Dialogs.v ===== *)
(** * The list of dialogs (src/domain/read/dialogs.c)

    messages.getDialogs for the inbox or the archive, each with a cache of its
    last answer, and the join of the dialogs with the chats and users behind
    them.  The caches are static objects of the file. *)

From S2P Require Import Prelude TlSerial TlLogic TlCrc TlSkipBase TlSkipChat TlSkipMessage World.
From S2P Require Import MtprotoSession Transport MtprotoRpc ApiCall Request History Contacts.

#[local] Open Scope Z_scope.

Definition DIALOGS_CACHE_TTL_S : Z := 60.
Definition DIALOGS_CACHE_MAX : Z := 512.
Definition CRC_messages_getDialogs : Z := 0xa0f4cb4f.
Definition CRC_dialog : Z := 0xd58a08c6.
Definition CRC_dialogFolder : Z := 0x71bd134c.

Inductive DialogPeerKind :=
| DIALOG_PEER_UNKNOWN | DIALOG_PEER_USER | DIALOG_PEER_CHAT | DIALOG_PEER_CHANNEL.

Record DialogEntry := mkDialog {
  de_kind : DialogPeerKind;
  de_peer_id : Z;
  de_access_hash : Z;
  de_have_hash : bool;
  de_unread : Z;
  de_top : Z;
  de_title : list byte;
  de_username : list byte;
}.

(** The entries are the first [count] of the array. *)
Record DialogsCache := mkDCache {
  dc_valid : bool;
  dc_archived : bool;
  dc_fetched_at : Z;
  dc_count : Z;
  dc_total : Z;
  dc_entries : list DialogEntry;
}.

Definition dcache_zero : DialogsCache := mkDCache false false 0 0 0 [].

(** [out] with [*out_count], [*total_count] unless the pointer is [NULL], and
    [s_cache]. *)
Record DialogsOut := mkDOut {
  do_out : list DialogEntry;
  do_total : option Z;
  do_inbox : DialogsCache;
  do_archive : DialogsCache;
}.

Definition set_out (f : list DialogEntry -> list DialogEntry) x :=
  mkDOut (f (do_out x)) (do_total x) (do_inbox x) (do_archive x).
Definition set_total v x :=
  mkDOut (do_out x) (option_map (fun _ => v) (do_total x)) (do_inbox x) (do_archive x).
Definition slot_of (archived : bool) x := if archived then do_archive x else do_inbox x.
Definition set_slot (archived : bool) c x :=
  if archived then mkDOut (do_out x) (do_total x) (do_inbox x) c
  else mkDOut (do_out x) (do_total x) c (do_archive x).

Definition dialogs_cache_flush x := mkDOut (do_out x) (do_total x) dcache_zero dcache_zero.

(** ** Parsers *)

Definition skip_dialog_folder : Rd unit :=
  skip_uint32 ;;
  tl_skip_peer ;;
  repeat_nat 5 (need 4 ;; skip_int32).

Definition parse_dialog_peer : Rd (DialogPeerKind * Z) :=
  fail_if (fun r => negb (tl_reader_ok r)) ;;
  crc ← tl_read_uint32;
  let known (kind : DialogPeerKind) := id ← tl_read_int64; mret (kind, id) in
  if crc =? TL_peerUser then known DIALOG_PEER_USER
  else if crc =? TL_peerChat then known DIALOG_PEER_CHAT
  else if crc =? TL_peerChannel then known DIALOG_PEER_CHANNEL
  else fail.

(** How a round of the loop ends: in front of the entry, with the entry
    skipped, or with the entry written, and then as the last one or not. *)
Inductive Round := Stop | Skipped | Written (e : DialogEntry) (last : bool).

Definition read_dialog : Rd Round :=
  flags ← tl_read_uint32;
  p ← attempt parse_dialog_peer;
  match p with
  | None => mret Stop
  | Some (kind, peer_id) =>
      top_message_id ← tl_read_int32;
      skip_int32 ;;
      skip_int32 ;;
      unread_count ← tl_read_int32;
      skip_int32 ;;
      skip_int32 ;;
      let e := mkDialog kind peer_id 0 false unread_count top_message_id [] [] in
      ns ← attempt tl_skip_peer_notify_settings;
      match ns with
      | None => mret (Written e true)
      | Some _ =>
          when (flag flags 0) skip_int32 ;;
          d ← (if flag flags 1 then attempt tl_skip_draft_message else mret (Some tt));
          match d with
          | None => mret (Written e true)
          | Some _ =>
              when (flag flags 4) skip_int32 ;;
              when (flag flags 5) skip_int32 ;;
              mret (Written e false)
          end
      end
  end.

Definition dialog_round : Rd Round :=
  ok ← ask_ok;
  if negb ok then mret Stop
  else
    dcrc ← tl_read_uint32;
    if dcrc =? CRC_dialogFolder then
      s ← attempt skip_dialog_folder;
      mret (match s with Some _ => Skipped | None => Stop end)
    else if negb (dcrc =? CRC_dialog) then mret Stop
    else read_dialog.

Definition write_entry (e : DialogEntry) : Px DialogsOut unit := set_ctx (set_out (fun out => out ++ [e])).

(** The result is the number of entries consumed. *)
Fixpoint dialog_loop (max_entries : Z) (fuel : nat) (i count parsed : Z) : Px DialogsOut Z :=
  match fuel with
  | O => no_fuel
  | S fuel =>
      x ← get_ctx;
      if (i <? count) && (zlen (do_out x) <? max_entries) then
        round ← lift dialog_round;
        match round with
        | Stop => mret parsed
        | Skipped => dialog_loop max_entries fuel (i + 1) count (parsed + 1)
        | Written e last =>
            write_entry e ;;
            if last then mret (parsed + 1)
            else dialog_loop max_entries fuel (i + 1) count (parsed + 1)
        end
      else mret parsed
  end.

(** The entries; the result is whether all of them were consumed, with the
    reader for what follows. *)
Definition parse_entries (top max_entries : Z) : Px DialogsOut (bool * TlReader) :=
  lift skip_uint32 ;;
  when (top =? TL_messages_dialogsSlice) (
    slice_total ← lift tl_read_int32;
    set_ctx (set_total slice_total)) ;;
  vec ← lift tl_read_uint32;
  if negb (vec =? TL_vector) then fail
  else
    count ← lift tl_read_uint32;
    when (top =? TL_messages_dialogs) (set_ctx (set_total (s32 count))) ;;
    parsed ← fuelled (fun n => dialog_loop max_entries n 0 count 0);
    r ← get_fst;
    mret (negb (parsed <? s32 count), r).

(** [ChatSummary cs = {0}; tl_extract_chat(&r, &cs)] *)
Definition extract_chat : Rd ChatSummary := fun r =>
  match tl_extract_chat (r, Some chat_zero) with
  | Done _ (r', cs) => Done (default chat_zero cs) r'
  | Fail (r', _) => Fail r'
  | Fault => Fault
  | NoFuel => NoFuel
  end.

(** [n] objects into an array; the first failure ends the function. *)
Definition extract_all {A} (n : Z) (extract : Rd A) : Rd (list A) := fun r =>
  match for_n n (a ← lift extract; set_ctx (fun acc => acc ++ [a])) (r, []) with
  | Done _ (r', acc) => Done acc r'
  | Fail (r', _) => Fail r'
  | Fault => Fault
  | NoFuel => NoFuel
  end.

(** messages, chats and users behind the dialogs; every failure leaves the
    entries without titles. *)
Definition read_tables : Rd (list ChatSummary * list UserSummary) :=
  fail_if (fun r => negb (tl_reader_ok r)) ;;
  mvec ← tl_read_uint32;
  if negb (mvec =? TL_vector) then fail
  else
    mcount ← tl_read_uint32;
    for_n mcount tl_skip_message ;;
    cvec ← tl_read_uint32;
    if negb (cvec =? TL_vector) then fail
    else
      ccount ← tl_read_uint32;
      chats ← extract_all ccount extract_chat;
      uvec ← tl_read_uint32;
      if negb (uvec =? TL_vector) then fail
      else
        ucount ← tl_read_uint32;
        users ← extract_all ucount extract_user;
        mret (chats, users).

(** The first chat or user with the id of the peer. *)
Definition join_entry (chats : list ChatSummary) (users : list UserSummary) (e : DialogEntry) : DialogEntry :=
  match de_kind e with
  | DIALOG_PEER_USER =>
      match List.find (fun us => TlSkipChat.user_id us =? de_peer_id e) users with
      | Some us => mkDialog (de_kind e) (de_peer_id e) (user_access_hash us) (user_have_access_hash us)
                     (de_unread e) (de_top e) (user_name us) (user_username us)
      | None => e
      end
  | _ =>
      match List.find (fun cs => chat_id cs =? de_peer_id e) chats with
      | Some cs => mkDialog (de_kind e) (de_peer_id e) (chat_access_hash cs) (chat_have_access_hash cs)
                     (de_unread e) (de_top e) (chat_title cs) (de_username e)
      | None => e
      end
  end.

(** ** Caches *)

Definition first_cached (out : list DialogEntry) : list DialogEntry := take (Z.to_nat DIALOGS_CACHE_MAX) out.

Definition store_cache (archived : bool) (now : Z) (x : DialogsOut) : DialogsOut :=
  let written := zlen (do_out x) in
  let cached_n := if written <? DIALOGS_CACHE_MAX then written else DIALOGS_CACHE_MAX in
  set_slot archived
    (mkDCache true archived now cached_n (default written (do_total x)) (first_cached (do_out x))) x.

(** The entries of the slot are refreshed behind the join. *)
Definition refresh_cache (archived : bool) (x : DialogsOut) : DialogsOut :=
  let c := slot_of archived x in
  set_slot archived
    (mkDCache (dc_valid c) (dc_archived c) (dc_fetched_at c) (dc_count c) (dc_total c)
       (first_cached (do_out x))) x.

Definition serve_cache (c : DialogsCache) (max_entries : Z) (x : DialogsOut) : DialogsOut :=
  let n := if dc_count c <? max_entries then dc_count c else max_entries in
  set_total (dc_total c) (set_out (fun _ => take (Z.to_nat n) (dc_entries c)) x).

Fixpoint find_dialog (peer_id : Z) (es : list DialogEntry) : option DialogEntry :=
  match es with
  | [] => None
  | e :: es => if de_peer_id e =? peer_id then Some e else find_dialog peer_id es
  end.

Definition cached_entries (c : DialogsCache) : list DialogEntry :=
  if dc_valid c then take (Z.to_nat (dc_count c)) (dc_entries c) else [].

Definition domain_dialogs_find_by_id (peer_id : Z) (x : DialogsOut) : option DialogEntry :=
  match find_dialog peer_id (cached_entries (do_inbox x)) with
  | Some e => Some e
  | None => find_dialog peer_id (cached_entries (do_archive x))
  end.

(** ** The call *)

Section Dialogs.
Context `{C : Crypto} (tinf : Z -> list byte -> option (list byte)) (cfg : ApiConfig).

Definition dialogs_now {X} : Cx X Z :=
  now ← on_snd (on_snd time_now);
  mret (s64 now).

Definition build_dialogs_request {S} (limit : Z) (archived : bool) : M S (list byte) :=
  let w := tl_writer_init in
  let w := tl_write_uint32 w CRC_messages_getDialogs in
  let w := tl_write_uint32 w (if archived then 2 else 0) in
  let w := if archived then tl_write_int32 w 1 else w in
  let w := tl_write_int32 w 0 in
  let w := tl_write_int32 w 0 in
  let w := tl_write_uint32 w CRC_inputPeerEmpty in
  let w := tl_write_int32 w limit in
  let w := tl_write_int64 w 0 in
  take_query w 132.

(** Go on with a reader that an earlier parser has left. *)
Definition resume {X W A} (r : TlReader) (m : Px X A) : M (X * W) A := fun st =>
  match m (r, fst st) with
  | Done a (_, x) => Done a (x, snd st)
  | Fail (_, x) => Fail (x, snd st)
  | Fault => Fault
  | NoFuel => NoFuel
  end.

Definition is_dialogs (top : Z) : bool :=
  (top =? TL_messages_dialogsNotModified) || (top =? TL_messages_dialogs) ||
  (top =? TL_messages_dialogsSlice).

Definition join_titles (archived : bool) : Px DialogsOut unit :=
  t ← lift (attempt read_tables);
  match t with
  | None => mret tt
  | Some (chats, users) =>
      set_ctx (set_out (map (join_entry chats users))) ;;
      set_ctx (refresh_cache archived)
  end.

Definition domain_get_dialogs (max_entries : Z) (archived : bool) : Cx DialogsOut unit :=
  if max_entries <=? 0 then fail
  else
    upd_ctx (fun x => set_total 0 (set_out (fun _ => []) x)) ;;
    now ← dialogs_now;
    x ← get_fst;
    let cache := slot_of archived x in
    if dc_valid cache && (now - dc_fetched_at cache <? DIALOGS_CACHE_TTL_S) then
      upd_ctx (serve_cache cache max_entries)
    else
      query ← build_dialogs_request max_entries archived;
      resp ← call_api tinf cfg query 262144;
      if zlen resp <? 8 then fail
      else
        check_top log_error is_dialogs resp ;;
        let top := first_word resp in
        if top =? TL_messages_dialogsNotModified then
          with_parser resp (lift skip_uint32 ;; n ← lift tl_read_int32; set_ctx (set_total n))
        else
          p ← with_parser resp (parse_entries top max_entries);
          now ← dialogs_now;
          upd_ctx (store_cache archived now) ;;
          when (fst p) (resume (snd p) (join_titles archived)).

End Dialogs.
