(* ===== verification/ReadSafe.v ===== *)
(** * Profiles, contacts and dialogs: safety lemmas (src/domain/read/)

    On whatever the server answers, every parser stays inside its buffer and
    ends, the strings that are stored fit their arrays, and the lists respect
    their limits. *)

From S2P Require Import Prelude TlSerial TlLogic TlCrc TlSkipBase TlSkipChat TlSkipMessage TlSkipSafe CLib World.
From S2P Require Import MtprotoSession Transport MtprotoRpc RpcCorrect ApiCall ApiCorrect Request CallLogic.
From S2P Require Import LoginCorrect DomainWrite History HistoryCorrect Contacts Resolver Dialogs.

#[local] Open Scope Z_scope.

(** ** Invariants of the objects *)

Definition fits_array (cap : Z) (s : list byte) : Prop := zlen s < cap.

Definition self_ok (s : SelfInfo) : Prop :=
  fits_array 128 (first_name s) /\ fits_array 128 (last_name s) /\
  fits_array 64 (self_username s) /\ fits_array 32 (phone s).

Definition contact_ok (e : ContactEntry) : Prop :=
  fits_array 128 (c_name e) /\ fits_array 64 (c_username e).
Definition contacts_ok (limit : Z) (out : list ContactEntry) : Prop :=
  Forall contact_ok out /\ zlen out <= limit.

Definition peer_ok (p : ResolvedPeer) : Prop := fits_array 128 (r_title p) /\ fits_array 64 (r_username p).
Definition slot_ok (e : ResolveCacheEntry) : Prop := fits_array 64 (rc_key e) /\ peer_ok (rc_value e).
Definition resolver_ok (x : ResolvedPeer * list ResolveCacheEntry) : Prop :=
  peer_ok (fst x) /\ length (snd x) = RESOLVE_CACHE_MAX /\ Forall slot_ok (snd x).

Definition full_ok (f : UserFullInfo) : Prop := fits_array 256 (uf_bio f) /\ fits_array 32 (uf_phone f).
Definition info_ok (x : UserFullInfo * (ResolvedPeer * list ResolveCacheEntry)) : Prop :=
  full_ok (fst x) /\ resolver_ok (snd x).

(** The entries of a slot are as many as it counts, and no more than 512. *)
Definition dslot_ok (c : DialogsCache) : Prop :=
  dc_count c = zlen (dc_entries c) /\ dc_count c <= DIALOGS_CACHE_MAX.
Definition dialogs_ok (limit : Z) (x : DialogsOut) : Prop :=
  zlen (do_out x) <= limit /\ dslot_ok (do_inbox x) /\ dslot_ok (do_archive x).

Lemma copy_fits cap s : 0 < cap -> fits_array cap (copy_trunc cap s).
Proof. intros H. by apply copy_trunc_ok. Qed.

Lemma copy_str_fits cap s : 0 < cap -> fits_array cap (copy_str cap s).
Proof. destruct s; [apply copy_fits|done]. Qed.

Lemma snprintf_fits cap s : 0 < cap -> fits_array cap (snprintf_s cap s).
Proof. intros H. unfold fits_array, snprintf_s, zlen. rewrite length_take. lia. Qed.

#[local] Hint Resolve copy_fits copy_str_fits snprintf_fits : core.

(** ** Own profile *)

Lemma px_self_string cap set :
  (forall s x, self_ok x -> self_ok (set (copy_str cap s) x)) ->
  px_safe self_ok (self_string cap set) any_result.
Proof. intros Hs. unfold self_string. px_tac. by apply Hs. Qed.

Lemma px_parse_users : px_safe self_ok parse_users any_result.
Proof.
  assert (Hstr : forall s x, self_ok x ->
    self_ok (self_set_first (copy_str 128 s) x) /\ self_ok (self_set_last (copy_str 128 s) x) /\
    self_ok (self_set_username (copy_str 64 s) x) /\ self_ok (self_set_phone (copy_str 32 s) x)).
  { intros s x (? & ? & ? & ?). unfold self_ok. cbn. split_and!; by auto with lia. }
  unfold parse_users, parse_user.
  repeat first [apply px_self_string; intros; by apply Hstr | px_step]; done.
Qed.

(** ** Extraction of users and chats *)

Lemma safe_attempt {A} b (m : Rd A) : safe_upto b m -> safe_upto b (attempt m).
Proof.
  intros Hm r Hwf Hb. specialize (Hm r Hwf Hb). unfold attempt. change (rd r) with r in *.
  by destruct (m r).
Qed.

Lemma safe_extract_user b : safe_upto b extract_user.
Proof.
  intros r Hwf Hb. pose proof (safe_extract_user_inner b (r, Some user_zero) Hwf Hb) as Hs.
  unfold extract_user, tl_extract_user. cbn [rd HasReader_fst fst] in *. change (rd r) with r in *.
  by destruct (extract_user_inner _) as [? [? ?]|[? ?]| |].
Qed.

Lemma safe_extract_chat b : safe_upto b extract_chat.
Proof.
  intros r Hwf Hb. pose proof (safe_extract_chat_inner b (r, Some chat_zero) Hwf Hb) as Hs.
  unfold extract_chat, tl_extract_chat. cbn [rd HasReader_fst fst] in *. change (rd r) with r in *.
  by destruct (extract_chat_inner _) as [? [? ?]|[? ?]| |].
Qed.

Lemma safe_extract_all {A} b n (m : Rd A) : (forall b, safe_upto b m) -> safe_upto b (extract_all n m).
Proof.
  intros Hm r Hwf Hb. change (rd r) with r in *.
  assert (Hp : px_safe (fun _ : list A => True)
    (for_n n (a ← lift m; set_ctx (fun acc => acc ++ [a]))) any_result).
  { px_step. px_step; [by apply px_lift|]. intros a _. by apply px_set. }
  specialize (Hp r [] Hwf Logic.I). unfold extract_all.
  destruct (for_n _ _ _) as [? [? ?]|[? ?]| |]; try done; tauto.
Qed.
#[export] Hint Resolve safe_attempt safe_extract_user safe_extract_chat safe_extract_all : tl_safe.

(** An extracted user takes bytes off the reader. *)
Lemma extract_user_less r us r' : reader_wf r -> extract_user r = Done us r' -> left r' <= left r - 4.
Proof.
  intros Hwf. unfold extract_user.
  destruct (tl_extract_user _) as [[] [r1 u1]|[r1 u1]| |] eqn:E; try done. intros [= <- <-]. revert E.
  unfold tl_extract_user, extract_user_inner.
  rewrite (bind_Done _ _ (r, Some user_zero) tt (r, Some user_zero)) by done.
  unfold mbind at 1, M_bind at 1, lift at 1, need_ok, fail_if. cbn [fst snd].
  destruct (negb (tl_reader_ok r) || (remaining r <? 4)) eqn:Hn; [done|]. bool_prop.
  destruct (read_le32_left r Hwf) as (v & r2 & E2 & Hl2 & Hleft).
  match goal with |- context [lift tl_read_uint32 ≫= ?k] =>
    rewrite (bind_Done _ k _ v (r2, Some user_zero)) by (unfold lift, tl_read_uint32; cbn [fst snd]; by rewrite E2)
  end.
  assert (Hr4 : 4 <= left r).
  { unfold tl_reader_ok, remaining, left, reader_wf, SIZE_LIM in *. bool_prop. rewrite u64_id in * by (unfold is_u64; lia). lia. }
  intros E. match type of E with ?m _ = _ => assert (Hs : safe_upto (left r2) m) end.
  { skip_safe. }
  specialize (Hs (r2, Some user_zero) (proj1 Hl2) ltac:(done)). cbn [rd HasReader_fst fst] in Hs.
  rewrite E in Hs. cbn [rd HasReader_fst fst] in Hs. destruct Hs as (_ & _ & _ & ?). lia.
Qed.

(** ** Contacts *)

Lemma contacts_push limit e out :
  contacts_ok limit out -> contact_ok e -> zlen out < limit -> contacts_ok limit (out ++ [e]).
Proof.
  intros [Ho Hz] He Hl. split; [apply Forall_app; split; [done|by constructor]|].
  rewrite zlen_app. unfold zlen in *. cbn. lia.
Qed.

Lemma join_contact_ok us limit out : contacts_ok limit out -> contacts_ok limit (join_contact us out).
Proof.
  intros [Ho Hz]. assert (Hl : length (join_contact us out) = length out).
  { clear. induction out as [|e out IH]; cbn; [done|]. destruct (_ =? _); cbn; [done|by rewrite IH]. }
  split; [|unfold zlen in *; by rewrite Hl]. clear Hz Hl.
  induction Ho as [|e out He Ho IH]; cbn; [constructor|].
  destruct (_ =? _); constructor; try done. split; cbn; auto with lia.
Qed.

Lemma contact_round_ok r e r' :
  contact_round r = Done e r' -> from_option contact_ok True e.
Proof.
  unfold contact_round. intros (ok & r1 & _ & H)%run_inv. destruct (negb ok); [by injection H as <- _|].
  apply run_inv in H as (c & r2 & _ & H). destruct (negb _); [by injection H as <- _|].
  apply run_inv in H as (id & r3 & _ & H). apply run_inv in H as (b & r4 & _ & H).
  injection H as <- _. done.
Qed.

Lemma at_contact_loop limit : forall fuel b x i count, b < Z.of_nat fuel -> contacts_ok limit x ->
  px_at (contacts_ok limit) b x (contact_loop limit fuel i count) any_result.
Proof.
  induction fuel as [|fuel IH]; intros b x i count Hb Hx; [apply at_no_bytes; lia|].
  cbn [contact_loop]. apply at_get. apply at_if; [|by intros; apply at_ret]. intros Hc. bool_prop.
  eapply at_lift; [done|eapply rd_post; [apply rd_head; intros; safe_tac|apply contact_round_ok]|].
  intros [e|] n; [|by intros; apply at_ret]. intros [[_ [|Hn]] He]; [done|].
  apply at_set. apply IH; [lia|by apply contacts_push].
Qed.

Lemma rd_user_round b : rd_within b user_round (fun us n => n <= b /\ (us = None \/ n <= b - 1)).
Proof.
  intros r Hr Hb. unfold user_round. rewrite (bind_Done _ _ _ (tl_reader_ok r) r) by done.
  destruct (negb _); [split_and!; [by apply later_refl|done|by left]|].
  pose proof (safe_attempt b extract_user (safe_extract_user b) r Hr Hb) as Hs. change (rd r) with r in Hs.
  unfold attempt in *. destruct (extract_user r) as [us r'|r'| |] eqn:E; try done; change (rd r') with r' in Hs.
  - apply extract_user_less in E; [|done]. split; [done|lia].
  - split; [done|]. destruct Hs as (_ & _ & _ & ?). split; [lia|by left].
Qed.

Lemma at_user_loop limit : forall fuel b x i count, b < Z.of_nat fuel -> contacts_ok limit x ->
  px_at (contacts_ok limit) b x (user_loop fuel i count) any_result.
Proof.
  induction fuel as [|fuel IH]; intros b x i count Hb Hx; [apply at_no_bytes; lia|].
  cbn [user_loop]. apply at_if; [|by intros; apply at_ret]. intros _.
  eapply at_lift; [done|apply rd_user_round|]. intros [us|] n; [|by intros; apply at_ret].
  intros [_ [|Hn]]; [done|]. apply at_set. apply IH; [lia|by apply join_contact_ok].
Qed.

Lemma px_parse_contacts limit : px_safe (contacts_ok limit) (contacts_body limit) any_result.
Proof.
  unfold contacts_body. px_tac; try done; apply px_fuelled; intros.
  - by apply at_contact_loop.
  - by apply at_user_loop.
Qed.

(** ** Names and profiles *)

Lemma px_on_peer {K} (J : list ResolveCacheEntry -> Prop) (m : Px ResolvedPeer K) Q :
  px_safe peer_ok m Q -> px_safe (fun x => peer_ok (fst x) /\ J (snd x)) (on_peer m) Q.
Proof.
  intros Hm r [p c] Hr [Hp Hc]. specialize (Hm r p Hr Hp). unfold on_peer. cbn [fst snd] in *.
  destruct (m (r, p)) as [a [r' p']|[r' p']| |]; try done; tauto.
Qed.

Lemma px_on_full {K} (J : ResolvedPeer * list ResolveCacheEntry -> Prop) (m : Px UserFullInfo K) Q :
  px_safe full_ok m Q -> px_safe (fun x => full_ok (fst x) /\ J (snd x)) (on_full m) Q.
Proof.
  intros Hm r [p c] Hr [Hp Hc]. specialize (Hm r p Hr Hp). unfold on_full. cbn [fst snd] in *.
  destruct (m (r, p)) as [a [r' p']|[r' p']| |]; try done; tauto.
Qed.

Lemma safe_user_prefix b : safe_upto b parse_user_prefix.
Proof. unfold parse_user_prefix, resolved_string. safe_tac. Qed.

Lemma safe_channel_prefix b : safe_upto b parse_channel_prefix.
Proof. unfold parse_channel_prefix. safe_tac. Qed.
#[export] Hint Resolve safe_user_prefix safe_channel_prefix : tl_safe.

Lemma take_hash_ok id tmp p : peer_ok p -> peer_ok (take_hash id tmp p).
Proof. intros H. unfold take_hash. by destruct (_ =? _). Qed.

Lemma px_parse_resolved : px_safe peer_ok parse_resolved any_result.
Proof. unfold parse_resolved. px_tac; try done; intros; by apply take_hash_ok. Qed.

Lemma px_full_string cap set :
  (forall s x, full_ok x -> full_ok (set (copy_trunc cap s) x)) ->
  px_safe full_ok (full_string cap set) any_result.
Proof. intros Hs. unfold full_string. px_tac. by apply Hs. Qed.

Lemma px_parse_full : px_safe full_ok parse_full any_result.
Proof.
  unfold parse_full, parse_user_full.
  repeat first [apply px_full_string | px_step]; try done; intros;
    unfold full_ok in *; cbn; split; auto with lia; tauto.
Qed.

(** *** The cache *)

Lemma lookup_keeps name now cache : Forall slot_ok cache ->
  let '(res, cache') := rcache_lookup_v2 name now cache in
  length cache' = length cache /\ Forall slot_ok cache' /\
  (forall v, res = RCACHE_HIT_POS v -> peer_ok v).
Proof.
  induction 1 as [|e rest He Hr IH]; [done|]. cbn [rcache_lookup_v2].
  destruct (_ || _).
  - destruct (rcache_lookup_v2 name now rest) as [res rest']. destruct IH as (Hl & Hs & Hv).
    split_and!; [cbn; by rewrite Hl|by constructor|done].
  - destruct (_ <=? _); [split_and!; [done|by constructor|done]|].
    split_and!; [done|by constructor|]. intros v. destruct (rc_negative e); [done|].
    intros [= <-]. apply He.
Qed.

Lemma store_keeps name rp negative now cache : Forall slot_ok cache -> from_option peer_ok True rp ->
  length (rcache_store_entry name rp negative now cache) = length cache /\
  Forall slot_ok (rcache_store_entry name rp negative now cache).
Proof.
  intros Hc Hr. unfold rcache_store_entry. rewrite length_insert. split; [done|].
  apply Forall_insert; [done|]. split; cbn; [auto with lia|]. by destruct rp.
Qed.

Section Safe.
Context `{C : Crypto} {HC : CryptoLaws C} (tinf : Z -> list byte -> option (list byte)).
Context (cfg : ApiConfig) (Hcfg : cfg_small cfg) (Hf : tinf_fits tinf).

Lemma cx_time {X} (I : X -> Prop) : cx_safe I (now ← on_snd (on_snd time_now); mret (s64 now)) any_result.
Proof. intros x s t w Hx Hs. by split; [apply conn_kept_refl|]. Qed.

Lemma cx_call_within {X} (I : X -> Prop) query max_len :
  zlen query <= 900000 -> 0 <= max_len ->
  cx_safe I (call_api tinf cfg query max_len) (fun resp => zlen resp <= max_len).
Proof.
  intros Hq Hm. eapply cx_call; [exact _|done|done|].
  rewrite wrapped_len. unfold cfg_small, RPC_BUF_SIZE in *. lia.
Qed.

Lemma get_self_safe : cx_safe self_ok (domain_get_self tinf cfg) any_result.
Proof.
  unfold domain_get_self. cx_step; [by apply cx_upd|]. cx_step.
  eapply cx_bind; [apply cx_take_query; [counts_tac|wdata; rewrite !zlen_app, !enc32_len; lia]|].
  intros q [_ Hq]. eapply cx_bind; [by apply cx_call_within; lia|]. intros resp Hr. cbn beta in Hr.
  cx_step; [intros; apply cx_fail|]. intros _. eapply cx_bind; [by apply cx_check_top|]. intros _ _.
  apply cx_parser; [unfold SIZE_LIM; lia|apply px_parse_users].
Qed.

Lemma get_contacts_safe max_entries :
  cx_safe (contacts_ok (Z.max 0 (Z.min max_entries CONTACTS_MAX)))
    (domain_get_contacts tinf cfg max_entries) any_result.
Proof.
  unfold domain_get_contacts. cx_step; [intros; apply cx_fail|]. intros Hm. bool_prop.
  cx_step; [apply cx_upd; intros; split; [constructor|unfold zlen; cbn; lia]|]. cx_step.
  eapply cx_bind; [apply cx_take_query; [counts_tac|wdata; rewrite !zlen_app, !enc32_len, enc64_len; lia]|].
  intros q [_ Hq]. eapply cx_bind; [by apply cx_call_within; lia|]. intros resp Hr. cbn beta in Hr.
  eapply cx_bind; [by apply cx_check_top|]. intros _ _.
  cx_step; [by intros; apply cx_ret|]. intros _. apply cx_parser; [unfold SIZE_LIM; lia|].
  replace (Z.max 0 _) with (if CONTACTS_MAX <? max_entries then CONTACTS_MAX else max_entries); [apply px_parse_contacts|].
  unfold CONTACTS_MAX. destruct (Z.ltb_spec 512 max_entries); lia.
Qed.

Lemma lookup_cached_safe bare :
  cx_safe resolver_ok (lookup_cached bare)
    (fun res => forall v, res = RCACHE_HIT_POS v -> peer_ok v).
Proof.
  intros x s t w (Hp & Hl & Hx) Hs. unfold lookup_cached, resolver_now.
  pose proof (lookup_keeps bare (s64 (u64 (w_clock w (w_ticks w)))) (snd x) Hx) as Hk.
  unfold on_snd, time_now, get_fst, upd_ctx, mbind, M_bind, mret, M_ret in *. cbn [fst snd] in *.
  destruct (rcache_lookup_v2 _ _ _) as [res cache']. destruct Hk as (Hl' & Hx' & Hv). cbn [fst snd].
  split; [by apply conn_kept_refl|]. split_and!; try done. split; [done|]. by split; cbn [snd]; [rewrite Hl'|].
Qed.

Lemma rcache_store_safe name : cx_safe resolver_ok (rcache_store name) any_result.
Proof.
  unfold rcache_store. eapply cx_bind; [apply cx_time|]. intros now _. apply cx_upd.
  intros [p c] (Hp & Hl & Hc). cbn [fst snd] in *.
  destruct (store_keeps name (Some p) false now c Hc Hp) as [E ?]. split; [done|]. by split; cbn [snd]; [rewrite E|].
Qed.

Lemma rcache_store_negative_safe name : cx_safe resolver_ok (rcache_store_negative name) any_result.
Proof.
  unfold rcache_store_negative. eapply cx_bind; [apply cx_time|]. intros now _. apply cx_upd.
  intros [p c] (Hp & Hl & Hc). cbn [fst snd] in *.
  destruct (store_keeps name None true now c Hc Logic.I) as [E ?]. split; [done|]. by split; cbn [snd]; [rewrite E|].
Qed.

Lemma resolve_safe username : short username ->
  cx_safe resolver_ok (domain_resolve_username tinf cfg username) any_result.
Proof.
  unfold short. intros Hs. assert (Hb : zlen (bare_name username) <= zlen username).
  { unfold bare_name. destruct username as [|b l]; [done|]. destruct (Byte.eqb _ _); [|done].
    rewrite zlen_cons. lia. }
  unfold domain_resolve_username. cx_step.
  { apply cx_upd. intros x (_ & Hl & Hx). split_and!; try done. split; cbn; auto with lia. done. }
  intros _ _. eapply cx_bind; [apply lookup_cached_safe|]. intros [|v|] Hv; [|by apply cx_upd; intros x (_ & ?); split; [apply Hv|]|apply cx_fail].
  cbn zeta. eapply cx_bind; [apply cx_take_query; [peer_counts|peer_bytes; peer_lia]|].
  intros q [_ Hq]. eapply cx_bind; [by apply cx_call_within; lia|]. intros resp Hr. cbn beta in Hr.
  cx_step; [intros; apply cx_fail|]. intros _. cx_step.
  - intros _. destruct (rpc_parse_error resp); [|apply cx_fail].
    cx_step; [apply cx_when; intros _; apply rcache_store_negative_safe|]. intros ? _. apply cx_fail.
  - intros _. cx_step; [intros; apply cx_fail|]. intros _. cx_step; [|intros ? _; apply rcache_store_safe].
    apply cx_parser; [unfold SIZE_LIM; lia|]. apply (px_on_peer (fun c => length c = RESOLVE_CACHE_MAX /\ Forall slot_ok c)), px_parse_resolved.
Qed.

Lemma cx_on_resolver {A} (m : Cx (ResolvedPeer * list ResolveCacheEntry) A) Q :
  cx_safe resolver_ok m Q -> cx_safe info_ok (on_resolver m) Q.
Proof.
  intros Hm [f x] s t w [Hff Hx] Hs. specialize (Hm x s t w Hx Hs). unfold on_resolver. cbn [fst snd] in *.
  destruct (m _) as [a [x' [[s' t'] w']]|[x' [[s' t'] w']]| |]; try done.
  - destruct Hm as (? & ? & ? & ?). by split_and!.
  - destruct Hm as (? & ? & ?). by split_and!.
Qed.

Lemma upd_full_safe f : (forall u, full_ok u -> full_ok (f u)) -> cx_safe info_ok (upd_full f) any_result.
Proof. intros H. apply cx_upd. intros x [? ?]. split; [by apply H|done]. Qed.

Lemma get_user_info_safe peer : short peer ->
  cx_safe info_ok (domain_get_user_info tinf cfg peer) any_result.
Proof.
  intros Hs. unfold domain_get_user_info. cx_step; [by apply upd_full_safe|]. intros _ _.
  eapply (cx_bind _ _ _ any_result).
  { unfold user_of. cx_step; [by intros; apply cx_ret|]. intros _.
    cx_step; [by apply cx_on_resolver, resolve_safe|]. intros _ _. cx_step; [apply cx_get|].
    intros x _. cbn zeta. cx_step; [by apply upd_full_safe|]. by intros _ _; apply cx_ret. }
  intros [id hash] _. unfold build_get_full_user. cbn zeta. cbn [fst snd].
  eapply cx_bind.
  { apply cx_take_query; destruct (id =? 0); [counts_tac..|wdata; rewrite !zlen_app, !enc32_len; lia|].
    wdata. rewrite !zlen_app, !enc32_len, !enc64_len. lia. }
  intros q [_ Hq]. eapply cx_bind; [by apply cx_call_within; lia|]. intros resp Hr. cbn beta in Hr.
  eapply cx_bind; [by apply cx_check_top|]. intros _ _.
  apply cx_parser; [unfold SIZE_LIM; lia|]. apply (px_on_full resolver_ok), px_parse_full.
Qed.

End Safe.

(** ** Dialogs *)

Lemma safe_dialog_folder b : safe_upto b skip_dialog_folder.
Proof. unfold skip_dialog_folder. cbn [repeat_nat]. skip_safe. Qed.

Lemma safe_dialog_peer b : safe_upto b parse_dialog_peer.
Proof. unfold parse_dialog_peer. safe_tac. Qed.
#[export] Hint Resolve safe_dialog_folder safe_dialog_peer : tl_safe.

Lemma safe_read_dialog b : safe_upto b read_dialog.
Proof. unfold read_dialog. skip_safe. Qed.
#[export] Hint Resolve safe_read_dialog : tl_safe.

Lemma safe_read_tables b : safe_upto b read_tables.
Proof. unfold read_tables. skip_safe. Qed.
#[export] Hint Resolve safe_read_tables : tl_safe.

Lemma push_dialog limit e x :
  dialogs_ok limit x -> zlen (do_out x) < limit -> dialogs_ok limit (set_out (fun out => out ++ [e]) x).
Proof.
  intros (Hl & Hi & Ha) Hn. split_and!; try done. cbn. rewrite zlen_app. unfold zlen in *. cbn. lia.
Qed.

Lemma at_dialog_loop limit : forall fuel b x i count parsed,
  b < Z.of_nat fuel -> dialogs_ok limit x ->
  px_at (dialogs_ok limit) b x (dialog_loop limit fuel i count parsed) any_result.
Proof.
  induction fuel as [|fuel IH]; intros b x i count parsed Hb Hx; [apply at_no_bytes; lia|].
  cbn [dialog_loop]. apply at_get. apply at_if; [|by intros; apply at_ret]. intros Hc. bool_prop.
  eapply at_lift; [done|apply rd_head; intros; skip_safe|].
  intros [| |e last] n; [by intros; apply at_ret|intros [_ [|Hn]]; [done|]..].
  - apply IH; [lia|done].
  - apply at_set. apply at_if; intros _; [apply at_ret|apply IH; [lia|]]; try done; by apply push_dialog.
Qed.

Lemma px_parse_entries top limit :
  px_safe (dialogs_ok limit) (parse_entries top limit) (fun p => reader_wf (snd p)).
Proof.
  unfold parse_entries. px_tac; try done.
  - apply px_fuelled. intros. by apply at_dialog_loop.
Qed.

Lemma store_cache_ok limit archived now x :
  dialogs_ok limit x -> dialogs_ok limit (store_cache archived now x).
Proof.
  intros (Hl & Hi & Ha). assert (Hs : dslot_ok (mkDCache true archived now
    (if zlen (do_out x) <? DIALOGS_CACHE_MAX then zlen (do_out x) else DIALOGS_CACHE_MAX)
    (default (zlen (do_out x)) (do_total x)) (first_cached (do_out x)))).
  { unfold dslot_ok, first_cached, DIALOGS_CACHE_MAX. cbn. unfold zlen. rewrite length_take.
    destruct (Z.ltb_spec (Z.of_nat (length (do_out x))) 512); lia. }
  unfold store_cache, set_slot. by destruct archived.
Qed.

(** The refresh is behind the store of the same list. *)
Definition just_stored (archived : bool) (x : DialogsOut) : Prop :=
  let c := slot_of archived x in
  dc_count c = zlen (first_cached (do_out x)).

Lemma refresh_cache_ok limit archived x :
  dialogs_ok limit x -> just_stored archived x -> dialogs_ok limit (refresh_cache archived x).
Proof.
  intros (Hl & Hi & Ha) Hj. unfold refresh_cache, set_slot, just_stored, slot_of in *.
  destruct archived; split_and!; try done; cbn; split; cbn; try done; first [apply Hi|apply Ha].
Qed.

Lemma px_join_titles limit archived :
  px_safe (fun x => dialogs_ok limit x /\ just_stored archived x) (join_titles archived) any_result.
Proof.
  unfold join_titles. px_step; [apply px_lift; intros; skip_safe|]. intros [[chats users]|] _; [|by apply px_ret].
  intros r x Hr [(Hl & Hi & Ha) Hj].
  assert (Hm : zlen (map (join_entry chats users) (do_out x)) = zlen (do_out x))
    by (unfold zlen; by rewrite length_map).
  assert (Hj' : just_stored archived (set_out (map (join_entry chats users)) x)).
  { unfold just_stored, first_cached in *. cbn. rewrite firstn_map.
    unfold zlen in *. rewrite length_map. by destruct archived. }
  unfold set_ctx, mbind, M_bind. cbn [fst snd]. split; [by apply later_refl|]. split; [|done]. split.
  - apply refresh_cache_ok; [|done]. split_and!; try done. cbn. lia.
  - unfold just_stored, refresh_cache in *. by destruct archived.
Qed.

Lemma cx_resume {X A} (I : X -> Prop) r (m : Px X A) Q :
  reader_wf r -> px_safe I m Q -> cx_safe I (resume r m) Q.
Proof.
  intros Hr Hm x s t w Hx Hs. specialize (Hm r x Hr Hx). unfold resume. cbn [fst snd].
  destruct (m (r, x)) as [a [r' x']|[r' x']| |]; try done.
  - destruct Hm as (_ & ? & ?). by split; [apply conn_kept_refl|].
  - destruct Hm as (_ & ?). by split; [apply conn_kept_refl|].
Qed.

Lemma stored_just archived now x : just_stored archived (store_cache archived now x).
Proof.
  unfold just_stored, store_cache, set_slot, slot_of, first_cached, DIALOGS_CACHE_MAX.
  destruct archived; cbn; unfold zlen; rewrite length_take;
    destruct (Z.ltb_spec (Z.of_nat (length (do_out x))) 512); lia.
Qed.

(** The last part of the call: the slot is stored and then refreshed. *)
Lemma finish_safe `{C : Crypto} limit archived now (p : bool * TlReader) : reader_wf (snd p) ->
  cx_safe (dialogs_ok limit)
    (upd_ctx (store_cache archived now) ;; when (fst p) (resume (snd p) (join_titles archived))) any_result.
Proof.
  intros Hr x s t w Hx Hs. unfold upd_ctx at 1, mbind, M_bind. cbn [fst snd].
  pose proof (store_cache_ok limit archived now x Hx) as Hx'. destruct (fst p); cbn [when].
  - pose proof (cx_resume _ (snd p) _ _ Hr (px_join_titles limit archived) (store_cache archived now x) s t w
      (conj Hx' (stored_just _ _ _)) Hs) as Hc.
    destruct (resume _ _ _) as [a [x' [[s' t'] w']]|[x' [[s' t'] w']]| |]; try done.
    + destruct Hc as (? & ? & [? _] & ?). by split_and!.
    + destruct Hc as (? & ? & [? _]). by split_and!.
  - by split; [apply conn_kept_refl|].
Qed.

Lemma serve_cache_ok limit c x : 0 < limit -> dslot_ok c -> dialogs_ok limit x ->
  dialogs_ok limit (serve_cache c limit x).
Proof.
  intros Hl [Hc Hm] (_ & Hi & Ha). split_and!; try done. cbn. unfold zlen in *. rewrite length_take.
  destruct (Z.ltb_spec (dc_count c) limit); lia.
Qed.

Lemma get_dialogs_safe `{C : Crypto} {HC : CryptoLaws C} tinf cfg max_entries archived :
  cfg_small cfg -> tinf_fits tinf ->
  cx_safe (dialogs_ok (Z.max 0 max_entries)) (domain_get_dialogs tinf cfg max_entries archived) any_result.
Proof.
  intros Hcfg Hf. unfold domain_get_dialogs. cx_step; [intros; apply cx_fail|]. intros Hm. bool_prop.
  replace (Z.max 0 max_entries) with max_entries by lia.
  cx_step; [apply cx_upd; intros x (_ & Hi & Ha); split_and!; try done; unfold zlen; cbn; lia|]. intros _ _.
  eapply cx_bind; [apply cx_time|]. intros now _. cx_step; [apply cx_get|]. intros x Hx. cbn zeta.
  assert (Hs : dslot_ok (slot_of archived x)) by (destruct archived, Hx as (_ & ? & ?); done).
  cx_step; [intros _; apply cx_upd; intros y Hy; by apply serve_cache_ok|]. intros _.
  unfold build_dialogs_request. cbn zeta. eapply cx_bind.
  { apply cx_take_query; destruct archived; [counts_tac..| |]; wdata;
      rewrite !zlen_app, !enc32_len, !enc64_len; lia. }
  intros q [_ Hq]. eapply cx_bind; [by apply cx_call_within; try lia|].
  intros resp Hr. cbn beta in Hr.
  cx_step; [intros; apply cx_fail|]. intros _. eapply cx_bind; [by apply cx_check_top|]. intros _ _.
  cx_step; intros _; [apply cx_parser; [unfold SIZE_LIM; lia|px_tac; done]|].
  eapply cx_bind; [apply cx_parser; [unfold SIZE_LIM; lia|apply px_parse_entries]|]. intros p Hp.
  eapply cx_bind; [apply cx_time|]. intros now2 _. by apply finish_safe.
Qed.
