(* ===== verification/DialogsTheorems.v ===== *)
(** * The list of dialogs: theorems (src/domain/read/dialogs.c)

    The entries of a well-formed answer with their titles, described without
    the code's join; the second call within a minute; the lookup by id. *)

From S2P Require Import Prelude TlSerial TlLogic TlCrc TlSchema TlSkipBase TlSkipChat TlSkipMessage TlSkipSafe.
From S2P Require Import TlRefine TlRefineBase TlRefineMessage TlExtract World MtprotoSession Transport.
From S2P Require Import MtprotoRpc RpcCorrect ApiCall ApiCorrect Request CallLogic LoginCorrect LoginTheorems.
From S2P Require Import TlTheorems MtprotoCrypto WireTheorems RpcTheorems DomainWrite DomainWriteTheorems History HistoryCorrect Contacts Dialogs ReadSafe.

#[local] Open Scope Z_scope.

(** ** The answer on the wire *)

Record WireDialog := mkWd {
  wd_flags : Z;
  wd_peer : Z;                  (** the constructor of the peer *)
  wd_id : Z;
  wd_top : Z;
  wd_read : Z * Z;              (** read_inbox_max_id, read_outbox_max_id *)
  wd_unread : Z;
  wd_marks : Z * Z;             (** unread mentions and reactions *)
  wd_notify : list byte;
  wd_pts : Z;
  wd_draft : list byte;
  wd_folder : Z;
  wd_ttl : Z;
}.

Definition wd_ok (d : WireDialog) : Prop :=
  is_u32 (wd_flags d) /\ In (wd_peer d) [TL_peerUser; TL_peerChat; TL_peerChannel] /\
  is_s64 (wd_id d) /\ is_s32 (wd_top d) /\ is_s32 (wd_unread d) /\
  enc (TRef PeerNotifySettings) (wd_notify d) /\
  (flag (wd_flags d) 1 = true -> enc (TRef DraftMessage) (wd_draft d)).

Definition wd_tail (d : WireDialog) : list byte :=
  enc32 (wd_flags d) ++ enc32 (wd_peer d) ++ enc64 (wd_id d) ++ enc32 (wd_top d) ++
  enc32 (fst (wd_read d)) ++ enc32 (snd (wd_read d)) ++ enc32 (wd_unread d) ++
  enc32 (fst (wd_marks d)) ++ enc32 (snd (wd_marks d)) ++ wd_notify d ++
  optional (flag (wd_flags d) 0) (enc32 (wd_pts d)) ++
  optional (flag (wd_flags d) 1) (wd_draft d) ++
  optional (flag (wd_flags d) 4) (enc32 (wd_folder d)) ++
  optional (flag (wd_flags d) 5) (enc32 (wd_ttl d)).

Definition wd_bytes (d : WireDialog) : list byte := enc32 CRC_dialog ++ wd_tail d.

Definition kind_of_peer (crc : Z) : DialogPeerKind :=
  if crc =? TL_peerUser then DIALOG_PEER_USER
  else if crc =? TL_peerChat then DIALOG_PEER_CHAT else DIALOG_PEER_CHANNEL.

(** The entry of a dialog in front of the join. *)
Definition entry_of (d : WireDialog) : DialogEntry :=
  mkDialog (kind_of_peer (wd_peer d)) (wd_id d) 0 false (wd_unread d) (wd_top d) [] [].

(** Users and channels on the wire, with what is extracted of them. *)
Inductive wire_user : list byte -> UserSummary -> Prop :=
| WireUser crc flags flags2 id hash first last uname tail :
    crc = TL_user \/ crc = TL_user2 -> is_u32 flags -> is_u32 flags2 -> is_s64 id -> is_s64 hash ->
    zlen first < 2 ^ 24 -> zlen last < 2 ^ 24 -> zlen uname < 2 ^ 24 ->
    enc_fields [flags; flags2] user_tail_fields tail ->
    wire_user (user_bytes crc flags flags2 id hash first last uname tail)
      (user_view flags id hash first last uname).

Inductive wire_chat : list byte -> ChatSummary -> Prop :=
| WireChat flags flags2 id hash title tail :
    is_u32 flags -> is_u32 flags2 -> is_s64 id -> is_s64 hash -> zlen title < 2 ^ 24 ->
    enc_fields [flags; flags2] channel_tail_fields tail ->
    wire_chat (channel_bytes flags flags2 id hash title tail) (channel_view flags id hash title).

Definition wire_vector (elems : list (list byte)) : list byte :=
  enc32 TL_vector ++ enc32 (zlen elems) ++ concat elems.

(** What follows the dialogs. *)
Definition tables_bytes (ms : list (list byte)) (chats : list (list byte * ChatSummary))
    (users : list (list byte * UserSummary)) : list byte :=
  wire_vector ms ++ wire_vector (map fst chats) ++ wire_vector (map fst users).

Definition tables_ok (ms : list (list byte)) (chats : list (list byte * ChatSummary))
    (users : list (list byte * UserSummary)) : Prop :=
  zlen ms < 2 ^ 32 /\ zlen chats < 2 ^ 32 /\ zlen users < 2 ^ 32 /\
  Forall (enc (TRef Message)) ms /\
  Forall (fun c => wire_chat (fst c) (snd c)) chats /\
  Forall (fun u => wire_user (fst u) (snd u)) users.

(** ** The parsers in front of it *)

Lemma reads_attempt {A} (m : Rd A) bs a : reads m bs a -> reads (attempt m) bs (Some a).
Proof.
  intros Hm r tl Hwf Hr. unfold attempt. change (rd r) with r in *. by rewrite (Hm r tl Hwf Hr).
Qed.

Lemma reads_skip (m : Rd unit) (k : unit -> Rd Round) bs cs a :
  reads m bs tt -> reads (k tt) cs a -> reads (m ≫= k) (bs ++ cs) a.
Proof. apply reads_bind. Qed.

Lemma reads_dialog_peer crc id :
  In crc [TL_peerUser; TL_peerChat; TL_peerChannel] -> is_s64 id ->
  reads parse_dialog_peer (enc32 crc ++ enc64 id) (kind_of_peer crc, id).
Proof.
  intros Hc Hid. unfold parse_dialog_peer. apply reads_pre.
  { intros r tl Hwf Hr. change (rd r) with r in *.
    destruct (remaining_at r (enc32 crc ++ enc64 id) tl Hwf Hr) as [Hok _]; [|by rewrite Hok].
    rewrite zlen_app, enc32_len, enc64_len. lia. }
  eapply reads_bind; [apply reads_uint32; by destruct Hc as [<-|[<-|[<-|[]]]]|].
  cbn zeta. rewrite <- (app_nil_r (enc64 id)).
  destruct Hc as [<-|[<-|[<-|[]]]]; cbn - [enc64]; (eapply reads_bind; [by apply reads_int64|apply reads_ret]).
Qed.

Lemma reads_optional {A} (c : bool) (m : Rd unit) (k : unit -> Rd A) bs cs a :
  (c = true -> reads m bs tt) -> reads (k tt) cs a -> reads (when c m ≫= k) (optional c bs ++ cs) a.
Proof. intros Hm Hk. eapply reads_bind; [|exact Hk]. by apply reads_when; destruct c; auto. Qed.

Lemma reads_dialog d : wd_ok d -> reads read_dialog (wd_tail d) (Written (entry_of d) false).
Proof.
  intros (Hf & Hp & Hid & Ht & Hu & Hn & Hd). unfold read_dialog, wd_tail.
  eapply reads_bind; [by apply reads_uint32|].
  rewrite (app_assoc (enc32 (wd_peer d))).
  eapply reads_bind; [by apply reads_attempt, reads_dialog_peer|]. cbn beta iota.
  eapply reads_bind; [by apply reads_int32|].
  eapply reads_bind; [apply reads_skip_int32, enc32_len|].
  eapply reads_bind; [apply reads_skip_int32, enc32_len|].
  eapply reads_bind; [by apply reads_int32|].
  eapply reads_bind; [apply reads_skip_int32, enc32_len|].
  eapply reads_bind; [apply reads_skip_int32, enc32_len|]. cbn zeta.
  eapply reads_bind; [by apply reads_attempt, reads_PeerNotifySettings|]. cbn beta iota.
  apply reads_optional; [intros _; apply reads_skip_int32, enc32_len|].
  eapply reads_bind.
  { instantiate (1 := Some tt). destruct (flag (wd_flags d) 1); [|apply reads_ret].
    by apply reads_attempt, reads_DraftMessage, Hd. }
  cbn beta iota. apply reads_optional; [intros _; apply reads_skip_int32, enc32_len|].
  rewrite <- (app_nil_r (optional (flag (wd_flags d) 5) _)).
  apply reads_optional; [intros _; apply reads_skip_int32, enc32_len|]. apply reads_ret.
Qed.

(** A round in front of bytes does not stop. *)
Lemma reads_ask_ok {A} (stop k : Rd A) bs a :
  0 < zlen bs -> reads k bs a -> reads (ok ← ask_ok; if negb ok then stop else k) bs a.
Proof.
  intros Hb Hk r tl Hwf Hr. change (rd r) with r in *.
  destruct (remaining_at r bs tl Hwf Hr Hb) as [Hok _].
  rewrite (bind_Done _ _ _ (tl_reader_ok r) r) by done. rewrite Hok. cbn [negb]. by apply Hk with tl.
Qed.

Lemma reads_round d : wd_ok d -> reads dialog_round (wd_bytes d) (Written (entry_of d) false).
Proof.
  intros Hd. unfold dialog_round, wd_bytes. apply reads_ask_ok.
  { rewrite zlen_app, enc32_len. pose proof (zlen_nonneg (wd_tail d)). lia. }
  eapply reads_bind; [by apply reads_uint32|]. by apply reads_dialog.
Qed.

Lemma reads_extract_user bs us : wire_user bs us -> reads extract_user bs us.
Proof.
  intros [crc flags flags2 id hash first last uname tail] r tl Hwf Hr. change (rd r) with r in *.
  unfold extract_user, tl_extract_user. by erewrite extract_user_at.
Qed.

Lemma reads_extract_chat bs cs : wire_chat bs cs -> reads extract_chat bs cs.
Proof.
  intros [flags flags2 id hash title tail] r tl Hwf Hr. change (rd r) with r in *.
  unfold extract_chat, tl_extract_chat. by erewrite extract_channel_at.
Qed.

Lemma reads_extract_all {A} (m : Rd A) (elems : list (list byte * A)) :
  Forall (fun e => reads m (fst e) (snd e)) elems ->
  reads (extract_all (zlen elems) m) (concat (map fst elems)) (map snd elems).
Proof.
  intros He r tl Hwf Hr. change (rd r) with r in *. unfold extract_all. rewrite for_n_nat.
  unfold zlen at 1. rewrite Nat2Z.id.
  enough (H : forall acc r, reader_wf r -> rest r = concat (map fst elems) ++ tl ->
    repeat_nat (length elems) (a ← lift m; set_ctx (fun acc => acc ++ [a])) (r, acc) =
    Done tt (adv r (zlen (concat (map fst elems))), acc ++ map snd elems)) by (by rewrite (H [] r Hwf Hr)).
  clear r Hwf Hr. induction He as [|[bs a] elems Ha _ IH]; intros acc r Hwf Hr.
  - cbn. by rewrite app_nil_r, adv_0.
  - cbn [length repeat_nat map concat fst snd] in *. rewrite <- app_assoc in Hr.
    rewrite (bind_Done _ _ _ tt (adv r (zlen bs), acc ++ [a])).
    2: { pose proof (Ha r _ Hwf Hr) as E. unfold mbind, M_bind, lift, set_ctx. cbn [fst snd]. by rewrite E. }
    rewrite IH; [|by eapply adv_wf|by eapply rest_adv]. by rewrite adv_adv, zlen_app, <- app_assoc.
Qed.

Lemma reads_tables ms chats users : tables_ok ms chats users ->
  reads read_tables (tables_bytes ms chats users) (map snd chats, map snd users).
Proof.
  intros (Hm & Hc & Hu & Hms & Hcs & Hus). unfold read_tables, tables_bytes, wire_vector.
  pose proof (zlen_nonneg ms). pose proof (zlen_nonneg chats). pose proof (zlen_nonneg users).
  assert (Hlen : forall A B (f : A -> B) l, zlen (map f l) = zlen l) by (intros; unfold zlen; by rewrite length_map).
  rewrite !Hlen, <- !app_assoc. apply reads_pre.
  { intros r tl Hwf Hr. change (rd r) with r in *. edestruct (remaining_at r) as [Hok _]; [done|exact Hr| |by rewrite Hok].
    rewrite zlen_app, enc32_len. match goal with |- context [4 + zlen ?l] => pose proof (zlen_nonneg l) end. lia. }
  eapply reads_bind; [by apply reads_uint32|]. cbn [Z.eqb negb].
  change (negb (TL_vector =? TL_vector)) with false. cbn iota.
  eapply reads_bind; [by apply reads_uint32|].
  eapply reads_bind; [apply reads_for_n; [done|eapply Forall_impl; [apply reads_Message|exact Hms]]|].
  eapply reads_bind; [by apply reads_uint32|]. change (negb (TL_vector =? TL_vector)) with false. cbn iota.
  eapply reads_bind; [by apply reads_uint32|].
  eapply reads_bind; [apply reads_extract_all; eapply Forall_impl; [|exact Hcs]; intros c; apply reads_extract_chat|].
  eapply reads_bind; [by apply reads_uint32|]. change (negb (TL_vector =? TL_vector)) with false. cbn iota.
  eapply reads_bind; [by apply reads_uint32|]. rewrite <- (app_nil_r (concat (map fst users))).
  eapply reads_bind; [apply reads_extract_all; eapply Forall_impl; [|exact Hus]; intros u; apply reads_extract_user|].
  apply reads_ret.
Qed.

(** ** The loop *)

Lemma set_out_nil x : set_out (fun out => out ++ []) x = x.
Proof. destruct x. unfold set_out. cbn. by rewrite app_nil_r. Qed.

(** The number of entries that a limit leaves room for. *)
Definition room (limit : Z) (x : DialogsOut) (ds : list WireDialog) : nat :=
  Nat.min (length ds) (Z.to_nat (limit - zlen (do_out x))).

Lemma dialog_loop_lists limit ds : Forall wd_ok ds -> forall fuel i r x parsed tl,
  reader_wf r -> rest r = concat (map wd_bytes ds) ++ tl -> zlen ds < Z.of_nat fuel ->
  zlen (do_out x) <= limit ->
  dialog_loop limit fuel i (i + zlen ds) parsed (r, x) =
    Done (parsed + Z.of_nat (room limit x ds))
      (adv r (zlen (concat (map wd_bytes (take (room limit x ds) ds)))),
       set_out (fun out => out ++ map entry_of (take (room limit x ds) ds)) x).
Proof.
  induction 1 as [|d ds Hd Hds IH]; intros fuel i r x parsed tl Hwf Hr Hfuel Hl.
  - destruct fuel as [|fuel]; [unfold zlen in Hfuel; cbn in Hfuel; lia|]. cbn [dialog_loop].
    rewrite (bind_Done _ _ _ x (r, x)) by done.
    rewrite (proj2 (Z.ltb_ge _ _)) by (unfold zlen; cbn; lia). unfold room. cbn.
    by rewrite adv_0, set_out_nil, Z.add_0_r.
  - destruct fuel as [|fuel]; [pose proof (zlen_nonneg (d :: ds)); lia|].
    rewrite zlen_cons in Hfuel |- *. pose proof (zlen_nonneg ds). cbn [dialog_loop].
    rewrite (bind_Done _ _ _ x (r, x)) by done. rewrite (proj2 (Z.ltb_lt i _)) by lia. cbn [andb].
    destruct (Z.ltb_spec (zlen (do_out x)) limit) as [Hlt|Hge].
    2: { replace (room limit x (d :: ds)) with O by (unfold room; lia). cbn.
         by rewrite adv_0, set_out_nil, Z.add_0_r. }
    cbn [map concat] in Hr. rewrite <- app_assoc in Hr.
    destruct (lift_at dialog_round (fun round => match round with
        | Stop => mret parsed
        | Skipped => dialog_loop limit fuel (i + 1) (i + (1 + zlen ds)) (parsed + 1)
        | Written e last => write_entry e ;;
            if last then mret (parsed + 1)
            else dialog_loop limit fuel (i + 1) (i + (1 + zlen ds)) (parsed + 1)
        end) (wd_bytes d) _ r x _ (reads_round d Hd) Hwf Hr) as (E & Hwf' & Hr').
    rewrite E. cbn iota. set (x1 := set_out (fun out => out ++ [entry_of d]) x).
    rewrite (bind_Done _ _ _ tt (adv r (zlen (wd_bytes d)), x1)) by done.
    replace (i + (1 + zlen ds)) with (i + 1 + zlen ds) by lia.
    rewrite (IH fuel (i + 1) _ x1 (parsed + 1) tl Hwf' Hr') by (subst x1; cbn; rewrite ?zlen_app; unfold zlen in *; cbn; lia).
    assert (Hroom : room limit x (d :: ds) = S (room limit x1 ds)).
    { subst x1. unfold room. cbn [length set_out do_out]. rewrite zlen_app. unfold zlen in *. cbn [length]. lia. }
    rewrite Hroom. cbn [take map concat]. rewrite zlen_app, adv_adv. subst x1. unfold set_out. cbn.
    rewrite <- app_assoc. f_equal. lia.
Qed.

(** ** The answer as a whole *)

Definition dialogs_bytes (slice : option Z) (ds : list WireDialog) (tables : list byte) : list byte :=
  match slice with
  | Some total => enc32 TL_messages_dialogsSlice ++ enc32 total
  | None => enc32 TL_messages_dialogs
  end ++ enc32 TL_vector ++ enc32 (zlen ds) ++ concat (map wd_bytes ds) ++ tables.

Definition top_of (slice : option Z) : Z :=
  match slice with Some _ => TL_messages_dialogsSlice | None => TL_messages_dialogs end.

(** What the entries are, and whether the tables are read behind them. *)
Definition shown (limit : Z) (ds : list WireDialog) : list DialogEntry :=
  map entry_of (take (Z.to_nat limit) ds).

Lemma concat_wd_len ds : zlen ds <= zlen (concat (map wd_bytes ds)).
Proof.
  induction ds as [|d ds IH]; [done|]. cbn [map concat]. rewrite zlen_cons, zlen_app.
  unfold wd_bytes at 1. rewrite zlen_app, enc32_len. pose proof (zlen_nonneg (wd_tail d)). lia.
Qed.

Lemma vector_entries limit ds x tl r : Forall wd_ok ds -> zlen ds < 2 ^ 31 -> 0 <= limit ->
  reader_wf r -> rest r = concat (map wd_bytes ds) ++ tl -> do_out x = [] ->
  exists r', reader_wf r' /\ (zlen ds <= limit -> rest r' = tl) /\
    (parsed ← fuelled (fun n => dialog_loop limit n 0 (zlen ds) 0);
     r ← get_fst; mret (negb (parsed <? s32 (zlen ds)), r)) (r, x) =
    Done (zlen ds <=? limit, r') (r', set_out (fun _ => shown limit ds) x).
Proof.
  intros Hd Hn Hl Hwf Hr Hx. pose proof (rest_len r Hwf) as Hlen. rewrite Hr, zlen_app in Hlen.
  pose proof (concat_wd_len ds). pose proof (zlen_nonneg tl). pose proof (zlen_nonneg ds).
  pose proof (dialog_loop_lists limit ds Hd (S (Z.to_nat (left r))) 0 r x 0 tl Hwf Hr ltac:(lia)
    ltac:(rewrite Hx; unfold zlen; cbn; lia)) as E.
  set (k := room limit x ds) in *. exists (adv r (zlen (concat (map wd_bytes (take k ds))))).
  assert (Hk : k = Nat.min (length ds) (Z.to_nat limit)).
  { subst k. unfold room. rewrite Hx. unfold zlen. cbn. f_equal. lia. }
  assert (Hrest : rest r = concat (map wd_bytes (take k ds)) ++ concat (map wd_bytes (drop k ds)) ++ tl).
  { rewrite Hr, app_assoc, <- concat_app, <- map_app, take_drop. done. }
  split_and!.
  - by eapply adv_wf.
  - intros Hle. replace (drop k ds) with (@nil WireDialog) in Hrest.
    + by eapply rest_adv.
    + symmetry. apply drop_ge. unfold zlen in Hle. lia.
  - erewrite bind_Done; [|unfold fuelled; cbn [rd HasReader_fst fst]; rewrite Z.add_0_l in E; exact E].
    rewrite s32_id by (unfold is_s32; lia). unfold get_fst, mret, M_ret, mbind, M_bind. cbn [fst].
    assert (Hb : negb (0 + Z.of_nat k <? zlen ds) = (zlen ds <=? limit)).
    { unfold zlen in *. destruct (Z.ltb_spec (0 + Z.of_nat k) (Z.of_nat (length ds)));
        destruct (Z.leb_spec (Z.of_nat (length ds)) limit); cbn; lia || done. }
    assert (Ho : set_out (fun out => out ++ map entry_of (take k ds)) x = set_out (fun _ => shown limit ds) x).
    { unfold set_out, shown. rewrite Hx. cbn [app]. by rewrite Hk, Nat.min_comm, <- take_take, (take_ge ds). }
    by rewrite Hb, Ho.
Qed.

Lemma entries_read slice limit ds tables tl x r : Forall wd_ok ds -> zlen ds < 2 ^ 31 -> 0 <= limit ->
  from_option is_s32 True slice -> reader_wf r -> rest r = dialogs_bytes slice ds tables ++ tl -> do_out x = [] ->
  exists r', reader_wf r' /\ (zlen ds <= limit -> rest r' = tables ++ tl) /\
    parse_entries (top_of slice) limit (r, x) =
      Done (zlen ds <=? limit, r')
        (r', set_out (fun _ => shown limit ds) (set_total (default (zlen ds) slice) x)).
Proof.
  intros Hd Hn Hl Hs Hwf Hr Hx. unfold parse_entries, dialogs_bytes in *. pose proof (zlen_nonneg ds).
  rewrite <- !app_assoc in Hr. destruct slice as [total|]; rewrite <- ?app_assoc in Hr; cbn [top_of].
  - lift_step (reads_skip_uint32 (enc32 TL_messages_dialogsSlice) (enc32_len _)) Hr.
    change (TL_messages_dialogsSlice =? TL_messages_dialogsSlice) with true.
    change (TL_messages_dialogsSlice =? TL_messages_dialogs) with false. cbn [when].
    rewrite bind_assoc. lift_step (reads_int32 total Hs) Hr.
    rewrite (bind_Done _ _ _ tt (adv (adv r (zlen (enc32 TL_messages_dialogsSlice))) (zlen (enc32 total)), set_total total x)) by done.
    lift_step (reads_uint32 TL_vector ltac:(done)) Hr. change (TL_vector =? TL_vector) with true. cbn [negb].
    lift_step (reads_uint32 (zlen ds) ltac:(unfold is_u32; lia)) Hr. rewrite bind_ret_l.
    by apply vector_entries.
  - lift_step (reads_skip_uint32 (enc32 TL_messages_dialogs) (enc32_len _)) Hr.
    change (TL_messages_dialogs =? TL_messages_dialogsSlice) with false.
    change (TL_messages_dialogs =? TL_messages_dialogs) with true. cbn [when]. rewrite bind_ret_l.
    lift_step (reads_uint32 TL_vector ltac:(done)) Hr. change (TL_vector =? TL_vector) with true. cbn [negb].
    lift_step (reads_uint32 (zlen ds) ltac:(unfold is_u32; lia)) Hr.
    replace (set_total (default (zlen ds) None) x) with (set_total (s32 (zlen ds)) x)
      by (rewrite s32_id by (unfold is_s32; lia); done).
    erewrite (bind_Done (set_ctx _)) by done. by apply vector_entries.
Qed.

(** ** The call *)

(** The time that is read next, and the world behind that read. *)
Definition clock (w : World) : Z := s64 (u64 (w_clock w (w_ticks w))).
Definition clocked (w : World) : World :=
  mkWorld (w_rand w) (w_rpos w) (w_clock w) (S (w_ticks w)) (w_net w).

Lemma dialogs_now_at {X} (x : X) s t w : dialogs_now (x, (s, t, w)) = Done (clock w) (x, (s, t, clocked w)).
Proof. done. Qed.

Definition dialogs_query (limit : Z) (archived : bool) : list byte :=
  enc32 CRC_messages_getDialogs ++ enc32 (if archived then 2 else 0) ++
  optional archived (enc32 1) ++ enc32 0 ++ enc32 0 ++ enc32 CRC_inputPeerEmpty ++ enc32 limit ++ enc64 0.

Lemma dialogs_query_at {S} limit archived (st : S) :
  build_dialogs_request limit archived st = Done (dialogs_query limit archived) st.
Proof.
  unfold build_dialogs_request. cbn zeta.
  rewrite (take_query_at _ (dialogs_query limit archived)).
  - rewrite (proj2 (Z.ltb_ge _ _)); [done|]. unfold dialogs_query.
    destruct archived; cbn [optional]; rewrite !zlen_app, !enc32_len, !enc64_len, ?zlen_nil; lia.
  - by destruct archived; counts_tac.
  - unfold dialogs_query. by destruct archived; cbn [optional]; wdata; rewrite <- !app_assoc.
  - unfold dialogs_query.
    destruct archived; cbn [optional]; rewrite !zlen_app, !enc32_len, !enc64_len, ?zlen_nil; lia.
Qed.

Definition fresh (archived : bool) (now : Z) (x : DialogsOut) : bool :=
  let c := slot_of archived x in dc_valid c && (now - dc_fetched_at c <? DIALOGS_CACHE_TTL_S).

Definition restart (x : DialogsOut) : DialogsOut := set_total 0 (set_out (fun _ => []) x).

(** The slot behind a call that listed [out]. *)
Definition stored_slot (archived : bool) (now : Z) (x : DialogsOut) : DialogsCache :=
  mkDCache true archived now (Z.min (zlen (do_out x)) DIALOGS_CACHE_MAX)
    (default (zlen (do_out x)) (do_total x)) (first_cached (do_out x)).

Lemma store_cache_slot archived now x :
  slot_of archived (store_cache archived now x) = stored_slot archived now x /\
  do_out (store_cache archived now x) = do_out x /\ do_total (store_cache archived now x) = do_total x.
Proof.
  unfold store_cache, set_slot, slot_of, stored_slot.
  replace (if _ <? _ then _ else _) with (Z.min (zlen (do_out x)) DIALOGS_CACHE_MAX)
    by (destruct (Z.ltb_spec (zlen (do_out x)) DIALOGS_CACHE_MAX); lia).
  by destruct archived.
Qed.

(** The join changes the entries only, in the list and in the slot. *)
Lemma join_stored archived now chats users x :
  let x1 := refresh_cache archived (set_out (map (join_entry chats users)) (store_cache archived now x)) in
  do_out x1 = map (join_entry chats users) (do_out x) /\ do_total x1 = do_total x /\
  slot_of archived x1 = stored_slot archived now x1.
Proof.
  destruct (store_cache_slot archived now x) as (Hs & Ho & Ht). cbn zeta.
  unfold refresh_cache, stored_slot in *. set (y := store_cache archived now x) in *. clearbody y.
  assert (Hy : slot_of archived (set_out (map (join_entry chats users)) y) = slot_of archived y)
    by (by destruct archived).
  rewrite Hy, Hs. unfold set_slot. destruct archived; cbn - [DIALOGS_CACHE_MAX];
    rewrite Ho, Ht; unfold zlen; by rewrite length_map.
Qed.

Section Call.
Context `{C : Crypto} (tinf : Z -> list byte -> option (list byte)) (cfg : ApiConfig).

Lemma get_dialogs_served max_entries archived x s t w :
  0 < max_entries -> fresh archived (clock w) x = true ->
  domain_get_dialogs tinf cfg max_entries archived (x, (s, t, w)) =
    Done tt (serve_cache (slot_of archived x) max_entries (restart x), (s, t, clocked w)).
Proof.
  intros Hm Hf. unfold domain_get_dialogs. rewrite (proj2 (Z.leb_gt _ _)) by lia.
  rewrite (bind_Done _ _ _ tt (restart x, (s, t, w))) by done.
  rewrite (bind_Done _ _ _ _ _ (dialogs_now_at _ _ _ _)).
  rewrite (bind_Done _ _ _ (restart x) (restart x, (s, t, clocked w))) by done. cbn zeta.
  assert (Hs : slot_of archived (restart x) = slot_of archived x) by (by destruct archived).
  unfold fresh in Hf. cbn zeta in Hf. by rewrite Hs, Hf.
Qed.

(** A call without a fresh slot, up to the response. *)
Lemma get_dialogs_called max_entries archived x s t w st' top rest :
  0 < max_entries -> fresh archived (clock w) x = false ->
  api_call tinf cfg (dialogs_query max_entries archived) 262144 (s, t, clocked w) =
    Done (enc32 top ++ rest) st' ->
  is_u32 top -> top <> TL_rpc_error -> is_dialogs top = true -> top <> TL_messages_dialogsNotModified ->
  4 <= zlen rest ->
  domain_get_dialogs tinf cfg max_entries archived (x, (s, t, w)) =
    (p ← with_parser (enc32 top ++ rest) (parse_entries top max_entries);
     now ← dialogs_now;
     upd_ctx (store_cache archived now) ;;
     when (fst p) (resume (snd p) (join_titles archived))) (restart x, st').
Proof.
  intros Hm Hf Ha Ht Hne Hd Hnm Hz. unfold domain_get_dialogs. rewrite (proj2 (Z.leb_gt _ _)) by lia.
  rewrite (bind_Done _ _ _ tt (restart x, (s, t, w))) by done.
  rewrite (bind_Done _ _ _ _ _ (dialogs_now_at _ _ _ _)).
  rewrite (bind_Done _ _ _ (restart x) (restart x, (s, t, clocked w))) by done. cbn zeta.
  assert (Hs : slot_of archived (restart x) = slot_of archived x) by (by destruct archived).
  unfold fresh in Hf. cbn zeta in Hf. rewrite Hs, Hf.
  rewrite (bind_Done _ _ _ _ _ (dialogs_query_at _ _ _)).
  rewrite (bind_Done _ _ _ _ _ (call_api_at tinf cfg _ 262144 (restart x) _ _ _ Ha)).
  rewrite (proj2 (Z.ltb_ge _ _)) by (rewrite zlen_app, enc32_len; lia).
  rewrite (bind_Done _ _ _ tt (restart x, st')) by (by apply check_top_at).
  rewrite first_word_enc32 by done. by rewrite (proj2 (Z.eqb_neq _ _)).
Qed.

End Call.

(** ** What a listed dialog is *)

(** [a] is the first element of the list whose key is [id]. *)
Definition first_with {A} (key : A -> Z) (id : Z) (l : list A) (a : A) : Prop :=
  exists front back, l = front ++ a :: back /\ key a = id /\ Forall (fun b => key b <> id) front.

Definition nobody {A} (key : A -> Z) (id : Z) (l : list A) : Prop := Forall (fun b => key b <> id) l.

Lemma find_first_with {A} (key : A -> Z) id l :
  match List.find (fun a => key a =? id) l with
  | Some a => first_with key id l a
  | None => nobody key id l
  end.
Proof.
  induction l as [|a l IH]; cbn; [constructor|]. destruct (Z.eqb_spec (key a) id) as [He|He].
  - by exists [], l.
  - destruct (List.find _ l) as [b|]; [|by constructor].
    destruct IH as (front & back & -> & Hb & Hf). exists (a :: front), back. by split_and!; [..|constructor].
Qed.

(** The entry of a dialog: the fields of the dialog itself, and the title,
    user name and access hash of the first user (for a person) or of the
    first chat (for a group or a channel) with its id; empty ones when
    there is none. *)
Inductive listed_as (chats : list ChatSummary) (users : list UserSummary) (d : WireDialog) : DialogEntry -> Prop :=
| ListedUser us :
    wd_peer d = TL_peerUser -> first_with TlSkipChat.user_id (wd_id d) users us ->
    listed_as chats users d
      (mkDialog DIALOG_PEER_USER (wd_id d) (user_access_hash us) (user_have_access_hash us)
         (wd_unread d) (wd_top d) (user_name us) (user_username us))
| UnknownUser :
    wd_peer d = TL_peerUser -> nobody TlSkipChat.user_id (wd_id d) users ->
    listed_as chats users d
      (mkDialog DIALOG_PEER_USER (wd_id d) 0 false (wd_unread d) (wd_top d) [] [])
| ListedChat kind cs :
    In (wd_peer d, kind) [(TL_peerChat, DIALOG_PEER_CHAT); (TL_peerChannel, DIALOG_PEER_CHANNEL)] ->
    first_with chat_id (wd_id d) chats cs ->
    listed_as chats users d
      (mkDialog kind (wd_id d) (chat_access_hash cs) (chat_have_access_hash cs)
         (wd_unread d) (wd_top d) (chat_title cs) [])
| UnknownChat kind :
    In (wd_peer d, kind) [(TL_peerChat, DIALOG_PEER_CHAT); (TL_peerChannel, DIALOG_PEER_CHANNEL)] ->
    nobody chat_id (wd_id d) chats ->
    listed_as chats users d (mkDialog kind (wd_id d) 0 false (wd_unread d) (wd_top d) [] []).

Lemma join_listed_as chats users d : wd_ok d -> listed_as chats users d (join_entry chats users (entry_of d)).
Proof.
  intros (_ & Hp & _). unfold join_entry, entry_of. cbn [de_kind de_peer_id de_unread de_top de_username].
  pose proof (find_first_with TlSkipChat.user_id (wd_id d) users) as Hu.
  pose proof (find_first_with chat_id (wd_id d) chats) as Hc.
  destruct Hp as [E|[E|[E|[]]]]; rewrite <- E; cbn [kind_of_peer Z.eqb Pos.eqb].
  - change (kind_of_peer TL_peerUser) with DIALOG_PEER_USER.
    destruct (List.find _ users); [by apply ListedUser|by apply UnknownUser].
  - change (kind_of_peer TL_peerChat) with DIALOG_PEER_CHAT.
    destruct (List.find _ chats); [apply ListedChat|apply UnknownChat]; try done; rewrite <- E; cbn; auto.
  - change (kind_of_peer TL_peerChannel) with DIALOG_PEER_CHANNEL.
    destruct (List.find _ chats); [apply ListedChat|apply UnknownChat]; try done; rewrite <- E; cbn; auto.
Qed.

Lemma bare_listed_as d : wd_ok d -> listed_as [] [] d (entry_of d).
Proof. intros Hd. pose proof (join_listed_as [] [] d Hd) as H. unfold join_entry in H. by destruct (de_kind (entry_of d)). Qed.

(** The relation is a function: two readers of the same tables agree. *)
Lemma first_with_find {A} (key : A -> Z) id l a :
  first_with key id l a -> List.find (fun b => key b =? id) l = Some a.
Proof.
  intros (front & back & -> & Ha & Hf). induction Hf as [|b front Hb _ IH]; cbn.
  - by rewrite (proj2 (Z.eqb_eq _ _) Ha).
  - by rewrite (proj2 (Z.eqb_neq _ _) Hb).
Qed.

Lemma nobody_find {A} (key : A -> Z) id l : nobody key id l -> List.find (fun b => key b =? id) l = None.
Proof. induction 1 as [|b l Hb _ IH]; cbn; [done|]. by rewrite (proj2 (Z.eqb_neq _ _) Hb). Qed.

Lemma listed_as_join chats users d e : listed_as chats users d e -> e = join_entry chats users (entry_of d).
Proof.
  unfold join_entry, entry_of. cbn [de_kind de_peer_id de_unread de_top de_username].
  intros [us -> Hu| -> Hu|kind cs [[= <- <-]|[[= <- <-]|[]]] Hc|kind [[= <- <-]|[[= <- <-]|[]]] Hc]; cbn.
  - by rewrite (first_with_find _ _ _ _ Hu).
  - by rewrite (nobody_find _ _ _ Hu).
  - by rewrite (first_with_find _ _ _ _ Hc).
  - by rewrite (first_with_find _ _ _ _ Hc).
  - by rewrite (nobody_find _ _ _ Hc).
  - by rewrite (nobody_find _ _ _ Hc).
Qed.

(** All the dialogs with what the tables say of them; when there are more
    than asked for, the first ones with nothing of the tables. *)
Definition listed (max_entries : Z) (ds : list WireDialog) (chats : list ChatSummary)
    (users : list UserSummary) (out : list DialogEntry) : Prop :=
  if zlen ds <=? max_entries then Forall2 (listed_as chats users) ds out
  else Forall2 (listed_as [] []) (take (Z.to_nat max_entries) ds) out.

Lemma Forall2_listed chats users f ds : Forall wd_ok ds ->
  (forall d, wd_ok d -> listed_as chats users d (f (entry_of d))) ->
  Forall2 (listed_as chats users) ds (map f (map entry_of ds)).
Proof. intros Hd Hf. induction Hd; cbn; constructor; auto. Qed.

Lemma Forall2_listed_join chats users ds out : Forall2 (listed_as chats users) ds out ->
  out = map (fun d => join_entry chats users (entry_of d)) ds.
Proof. induction 1 as [|d e ds out He _ ->]; cbn; [done|]. by rewrite (listed_as_join _ _ _ _ He). Qed.

(** (C14) On a well-formed answer (the whole list or a slice of it, with the
    messages, chats and users behind the dialogs) [domain_get_dialogs] lists
    the dialogs in order: kind, id, unread count and last message of each,
    with title, user name and access hash of the first chat or user with its
    id, and empty ones when the tables name nobody with that id.  When there
    are more dialogs than asked for, the first ones are listed without titles.
    The total is that of the server (for a complete list the number of its
    dialogs, also when fewer are listed), and the slot of the folder keeps the
    list and the time. *)
Theorem dialogs_listed `{C : Crypto} tinf cfg max_entries archived x s t w slice ds ms chats users tl s' t' w' :
  0 < max_entries -> fresh archived (clock w) x = false ->
  Forall wd_ok ds -> zlen ds < 2 ^ 31 -> from_option is_s32 True slice -> tables_ok ms chats users ->
  let resp := dialogs_bytes slice ds (tables_bytes ms chats users) ++ tl in
  zlen resp <= 262144 ->
  api_call tinf cfg (dialogs_query max_entries archived) 262144 (s, t, clocked w) = Done resp (s', t', w') ->
  exists x1, domain_get_dialogs tinf cfg max_entries archived (x, (s, t, w)) =
      Done tt (x1, (s', t', clocked w')) /\
    listed max_entries ds (map snd chats) (map snd users) (do_out x1) /\
    do_total x1 = option_map (fun _ => default (zlen ds) slice) (do_total x) /\
    slot_of archived x1 = stored_slot archived (clock w') x1.
Proof.
  intros Hm Hf Hd Hn Hs Ht resp Hz Ha.
  assert (Hresp : exists rest, resp = enc32 (top_of slice) ++ rest /\ 4 <= zlen rest).
  { subst resp. unfold dialogs_bytes. destruct slice; cbn [top_of]; rewrite <- !app_assoc; eexists;
      (split; [reflexivity|]); rewrite !zlen_app, !enc32_len;
      match goal with |- context [zlen (concat ?l)] => pose proof (zlen_nonneg (concat l)) end;
      pose proof (zlen_nonneg (tables_bytes ms chats users)); pose proof (zlen_nonneg tl); lia. }
  destruct Hresp as (rest & Er & Hrest). rewrite Er in Ha.
  rewrite (get_dialogs_called tinf cfg max_entries archived x s t w (s', t', w') (top_of slice) rest);
    try done; [|by destruct slice..]. rewrite <- Er.
  set (r0 := tl_reader_init resp (zlen resp)).
  assert (Hwf : reader_wf r0).
  { apply reader_init_wf; pose proof (zlen_nonneg resp); unfold SIZE_LIM; lia. }
  destruct (entries_read slice max_entries ds (tables_bytes ms chats users) tl (restart x) r0)
    as (r' & Hwf' & Hr' & E); try done; [lia|apply rest_init|].
  set (y := set_out _ (set_total _ (restart x))) in E.
  rewrite (bind_Done _ _ _ (zlen ds <=? max_entries, r') (y, (s', t', w'))).
  2: { unfold with_parser. cbn [fst snd]. fold r0. by rewrite E. }
  rewrite (bind_Done _ _ _ _ _ (dialogs_now_at _ _ _ _)).
  rewrite (bind_Done _ _ _ tt (store_cache archived (clock w') y, (s', t', clocked w'))) by done.
  destruct (store_cache_slot archived (clock w') y) as (Hslot & Hout & Htot).
  assert (Hy : do_out y = shown max_entries ds /\
    do_total y = option_map (fun _ => default (zlen ds) slice) (do_total x)).
  { split; [done|]. subst y. cbn. by destruct (do_total x). }
  destruct Hy as [Hyo Hyt]. cbn [fst snd]. unfold listed.
  destruct (Z.leb_spec (zlen ds) max_entries) as [Hle|Hgt]; cbn [when].
  - pose proof (reads_tables ms chats users Ht r' tl Hwf' (Hr' Hle)) as Et.
    destruct (join_stored archived (clock w') (map snd chats) (map snd users) y) as (J1 & J2 & J3).
    cbn zeta in *. eexists. split_and!; [|rewrite J1, Hyo|by rewrite J2|exact J3].
    + unfold resume, join_titles, attempt. cbn [fst snd]. unfold lift, mbind, M_bind. cbn [fst snd].
      by rewrite Et.
    + unfold shown. rewrite take_ge by (unfold zlen in Hle; lia).
      apply Forall2_listed; [done|]. intros d. apply join_listed_as.
  - eexists. split; [reflexivity|]. split_and!; [|congruence|].
    { rewrite Hout, Hyo. unfold shown. rewrite <- (map_id (map entry_of _)).
      apply Forall2_listed; [by apply Forall_take|]. apply bare_listed_as. }
    rewrite Hslot. unfold stored_slot. by rewrite Hout, Htot.
Qed.

(** ** The second call *)

Lemma join_titles_inv archived r x r' x' :
  join_titles archived (r, x) = Done tt (r', x') ->
  x' = x \/ exists chats users, x' = refresh_cache archived (set_out (map (join_entry chats users)) x).
Proof.
  unfold join_titles. intros (t & [r1 x1] & Ht & H)%run_inv.
  assert (x1 = x) as ->.
  { unfold lift in Ht. cbn [fst snd] in Ht. by destruct (attempt _ _) as [? ?|?| |]; inversion Ht. }
  destruct t as [[chats users]|]; [|left; by inversion H].
  right. exists chats, users. by inversion H.
Qed.

(** What a successful call has left: a served slot, or a stored one behind a
    read of the clock. *)
Lemma get_dialogs_inv `{C : Crypto} tinf cfg max_entries archived x s t w x1 s1 t1 w1 :
  domain_get_dialogs tinf cfg max_entries archived (x, (s, t, w)) = Done tt (x1, (s1, t1, w1)) ->
  do_out x1 <> [] ->
  (fresh archived (clock w) x = true /\ x1 = serve_cache (slot_of archived x) max_entries (restart x)) \/
  (exists w', w1 = clocked w' /\ slot_of archived x1 = stored_slot archived (clock w') x1).
Proof.
  intros H Hne. destruct (Z.leb_spec max_entries 0) as [Hm|Hm].
  { unfold domain_get_dialogs in H. by rewrite (proj2 (Z.leb_le _ _)) in H. }
  destruct (fresh archived (clock w) x) eqn:Hf.
  { left. rewrite (get_dialogs_served tinf cfg max_entries archived x s t w Hm Hf) in H. by inversion H. }
  right. unfold domain_get_dialogs in H. rewrite (proj2 (Z.leb_gt _ _)) in H by lia.
  rewrite (bind_Done _ _ _ tt (restart x, (s, t, w))) in H by done.
  rewrite (bind_Done _ _ _ _ _ (dialogs_now_at _ _ _ _)) in H.
  rewrite (bind_Done _ _ _ (restart x) (restart x, (s, t, clocked w))) in H by done. cbn zeta in H.
  assert (Hs : slot_of archived (restart x) = slot_of archived x) by (by destruct archived).
  unfold fresh in Hf. cbn zeta in Hf. rewrite Hs, Hf in H.
  rewrite (bind_Done _ _ _ _ _ (dialogs_query_at _ _ _)) in H.
  apply run_inv in H as (resp & [y st1] & Hc & H).
  apply call_api_inv in Hc as [-> _].
  destruct (zlen resp <? 8); [done|]. apply run_inv in H as ([] & [y st2] & Hk & H).
  apply check_top_inv in Hk. injection Hk as -> ->.
  destruct (first_word resp =? TL_messages_dialogsNotModified).
  { exfalso. apply Hne. unfold with_parser in H. cbn [fst snd] in H.
    match type of H with match ?m with _ => _ end = _ =>
      destruct m as [? [r1 y]|[r1 y]| |] eqn:E; try done end.
    apply run_inv in E as (? & [r2 y2] & E2 & E). apply run_inv in E as (n & [r3 y3] & E3 & E).
    unfold lift in E2, E3. cbn [fst snd] in E2, E3.
    destruct (skip_uint32 _); try done. inversion E2; subst.
    destruct (tl_read_int32 _); try done. inversion E3; subst. inversion E; subst. by inversion H. }
  apply run_inv in H as (p & [y [[s3 t3] w3]] & _ & H). rewrite (bind_Done _ _ _ _ _ (dialogs_now_at _ _ _ _)) in H.
  rewrite (bind_Done _ _ _ tt (store_cache archived (clock w3) y, (s3, t3, clocked w3))) in H by done.
  exists w3. destruct (store_cache_slot archived (clock w3) y) as (Hslot & Hout & Htot).
  assert (Hkeep : slot_of archived (store_cache archived (clock w3) y) =
                  stored_slot archived (clock w3) (store_cache archived (clock w3) y)).
  { rewrite Hslot. unfold stored_slot. by rewrite Hout, Htot. }
  destruct (fst p); cbn [when] in H; [|by inversion H; subst].
  unfold resume in H. cbn [fst snd] in H.
  destruct (join_titles archived _) as [[] [r1 y1]|[r1 y1]| |] eqn:E; try done. inversion H; subst.
  split; [done|]. apply join_titles_inv in E as [->|(chats & users & ->)]; [done|]. apply join_stored.
Qed.

(** The outcome of a lookup: the first element with the key, or nothing when
    no element has it. *)
Definition finds {A} (key : A -> Z) (id : Z) (l : list A) (o : option A) : Prop :=
  match o with Some a => first_with key id l a | None => nobody key id l end.

Lemma finds_app {A} (key : A -> Z) id l1 l2 o1 o2 :
  finds key id l1 o1 -> finds key id l2 o2 ->
  finds key id (l1 ++ l2) (match o1 with Some a => Some a | None => o2 end).
Proof.
  destruct o1 as [a|]; cbn.
  - intros (front & back & -> & Ha & Hf) _. exists front, (back ++ l2). by rewrite <- app_assoc.
  - intros Hn. destruct o2 as [b|]; cbn; [|by intros; apply Forall_app].
    intros (front & back & -> & Hb & Hf). exists (l1 ++ front), back.
    rewrite app_assoc. split_and!; [done..|]. by apply Forall_app.
Qed.

Lemma find_dialog_finds id es : finds de_peer_id id es (find_dialog id es).
Proof.
  induction es as [|e es IH]; cbn; [constructor|]. destruct (Z.eqb_spec (de_peer_id e) id) as [He|He].
  - by exists [], es.
  - by apply (finds_app de_peer_id id [e] es None); [constructor; [|constructor]|].
Qed.

Lemma find_by_id_finds id x :
  finds de_peer_id id (cached_entries (do_inbox x) ++ cached_entries (do_archive x)) (domain_dialogs_find_by_id id x).
Proof. apply (finds_app _ _ _ _ (find_dialog id _)); apply find_dialog_finds. Qed.

Lemma stored_entries archived now x :
  cached_entries (stored_slot archived now x) = first_cached (do_out x).
Proof.
  unfold cached_entries, stored_slot, first_cached, DIALOGS_CACHE_MAX. cbn.
  rewrite take_take. unfold zlen. destruct (Nat.le_gt_cases (length (do_out x)) 512).
  - by rewrite !take_ge by lia.
  - f_equal. lia.
Qed.

(** (C29) After [domain_get_dialogs] has listed dialogs, every call for as many or
    fewer of that folder within a minute of the answer lists the same dialogs
    without any message to the server.  The slot of the folder then holds the
    first 512 of them, and the lookup of an id returns the first entry of the
    two slots (the inbox first) that has exactly this id, or nothing when no
    entry has it. *)
Theorem dialogs_served_again `{C : Crypto} tinf cfg max_entries archived x s t w x1 s1 t1 w1 :
  domain_get_dialogs tinf cfg max_entries archived (x, (s, t, w)) = Done tt (x1, (s1, t1, w1)) ->
  do_out x1 <> [] ->
  (slot_of archived x1 = slot_of archived x \/
   exists w', w1 = clocked w' /\ dc_fetched_at (slot_of archived x1) = clock w') /\
  (forall n y s2 t2 w2, 0 < n <= max_entries -> n <= DIALOGS_CACHE_MAX ->
     slot_of archived y = slot_of archived x1 ->
     clock w2 - dc_fetched_at (slot_of archived x1) < DIALOGS_CACHE_TTL_S ->
     exists y', domain_get_dialogs tinf cfg n archived (y, (s2, t2, w2)) = Done tt (y', (s2, t2, clocked w2)) /\
       do_out y' = take (Z.to_nat n) (do_out x1) /\
       do_inbox y' = do_inbox y /\ do_archive y' = do_archive y) /\
  (slot_of archived x1 <> slot_of archived x ->
     cached_entries (slot_of archived x1) = take 512 (do_out x1)) /\
  (forall id, finds de_peer_id id (cached_entries (do_inbox x1) ++ cached_entries (do_archive x1))
     (domain_dialogs_find_by_id id x1)).
Proof.
  intros H Hne. pose proof (get_dialogs_inv tinf cfg max_entries archived x s t w x1 s1 t1 w1 H Hne) as Hi.
  destruct (Z.leb_spec max_entries 0) as [Hm|Hm].
  { unfold domain_get_dialogs in H. by rewrite (proj2 (Z.leb_le _ _)) in H. }
  assert (Hsame : x1 = serve_cache (slot_of archived x) max_entries (restart x) -> slot_of archived x1 = slot_of archived x)
    by (intros ->; by destruct archived).
  split_and!.
  - destruct Hi as [[_ Hx]|(w' & -> & Hs)]; [left; auto|right]. exists w'. by rewrite Hs.
  - intros n y s2 t2 w2 Hn Hn2 Hy Ht. assert (Hfr : fresh archived (clock w2) y = true).
    { unfold fresh. cbn zeta. rewrite Hy, (proj2 (Z.ltb_lt _ _) Ht), andb_true_r.
      destruct Hi as [[Hf Hx]|(w' & _ & ->)]; [|done]. rewrite (Hsame Hx). unfold fresh in Hf. cbn zeta in Hf. by bool_prop. }
    rewrite (get_dialogs_served tinf cfg n archived y s2 t2 w2) by (done || lia).
    eexists. split; [reflexivity|]. split_and!; [|by destruct archived..]. cbn. rewrite Hy.
    destruct Hi as [[_ Hx]|(w' & _ & Hs)].
    + rewrite (Hsame Hx), Hx. cbn. rewrite take_take. f_equal.
      destruct (Z.ltb_spec (dc_count (slot_of archived x)) n), (Z.ltb_spec (dc_count (slot_of archived x)) max_entries); lia.
    + rewrite Hs. cbn - [DIALOGS_CACHE_MAX]. unfold first_cached. rewrite take_take. unfold DIALOGS_CACHE_MAX in *.
      destruct (Z.ltb_spec (Z.min (zlen (do_out x1)) 512) n).
      * rewrite !take_ge; [done|unfold zlen in *; lia..].
      * f_equal. lia.
  - intros Hs. destruct Hi as [[_ Hx]|(w' & _ & Hst)]; [by destruct Hs; auto|]. rewrite Hst. apply stored_entries.
  - intros id. apply find_by_id_finds.
Qed.

(** ** An exchange *)

Definition toy_notify : list byte := enc32 CRC_peerNotifySettings ++ enc32 0 ++ [].

Lemma toy_notify_ok : enc (TRef PeerNotifySettings) toy_notify.
Proof.
  refine (enc_ref PeerNotifySettings (nth 0 (schema_base PeerNotifySettings) (Ctor 0 [])) _ _ _);
    [cbn; tauto|]. cbn [schema_base nth ctors map c_fields]. unfold opt. repeat enc_step.
Qed.

(** A dialog with a user and one with a channel, and the tables with both. *)
Definition toy_dialogs : list WireDialog :=
  [mkWd 1 TL_peerUser 77 9 (1, 2) 3 (0, 0) toy_notify 55 [] 0 0;
   mkWd 16 TL_peerChannel 88 5 (1, 2) 0 (0, 0) toy_notify 0 [] 1 0].

Lemma toy_dialogs_ok : Forall wd_ok toy_dialogs.
Proof.
  constructor; [|constructor; [|constructor]]; unfold wd_ok;
    (split_and!; [done|cbn; tauto|done|done|done|exact toy_notify_ok|done]).
Qed.

Definition toy_users : list (list byte * UserSummary) :=
  [(user_bytes TL_user 3 0 77 (-5) [Byte.x41; Byte.x64; Byte.x61] [] [] [],
    user_view 3 77 (-5) [Byte.x41; Byte.x64; Byte.x61] [] [])].
Definition toy_chats : list (list byte * ChatSummary) :=
  [(channel_bytes 8192 0 88 6 [Byte.x4e] sample_channel_tail, channel_view 8192 88 6 [Byte.x4e])].

Lemma toy_tables_ok : tables_ok [sample_message] toy_chats toy_users.
Proof.
  unfold tables_ok. split_and!; [done..| | |]; (constructor; [|constructor]); [exact sample_message_ok| |].
  - apply WireChat; try (split; [apply Z.leb_le|apply Z.ltb_lt]; reflexivity); try reflexivity.
    unfold channel_tail_fields, opt, opt2, ref, int, sample_channel_tail.
    repeat first
      [ refine (enc_ref ChatPhoto (Ctor CRC_chatPhotoEmpty []) _ _ _); [cbn; tauto|cbn [c_fields]]
      | enc_step ].
  - apply WireUser; try (split; [apply Z.leb_le|apply Z.ltb_lt]; reflexivity); try reflexivity; [by left|].
    unfold user_tail_fields, opt, opt2. repeat enc_step.
Qed.

Definition toy_answer : list byte :=
  dialogs_bytes (Some 2) toy_dialogs (tables_bytes [sample_message] toy_chats toy_users) ++ [].

Definition toy_caller : DialogsOut := mkDOut [] (Some 0) dcache_zero dcache_zero.
Definition toy_start : MtProtoSession * Transport * World :=
  (sample_session, sample_transport, answering_world toy_answer).
Definition toy_end : MtProtoSession * Transport * World :=
  answered_in (sample_session, sample_transport, clocked (answering_world toy_answer))
    (dialogs_query 20 false) 262144.

Lemma toy_answered :
  api_call (C := toy_crypto) store_tinf api_config_init (dialogs_query 20 false) 262144
    (sample_session, sample_transport, clocked (answering_world toy_answer)) =
  Done toy_answer (fst (fst toy_end), snd (fst toy_end), snd toy_end).
Proof.
  rewrite <- (surjective_pairing (fst toy_end)), <- (surjective_pairing toy_end).
  apply answered_in_at. vm_cast_no_check (eq_refl true).
Qed.

Lemma dialogs_listed_witness :
  exists x1, domain_get_dialogs (C := toy_crypto) store_tinf api_config_init 20 false (toy_caller, toy_start) =
      Done tt (x1, (fst (fst toy_end), snd (fst toy_end), clocked (snd toy_end))) /\
    do_out x1 =
      [mkDialog DIALOG_PEER_USER 77 (-5) true 3 9 [Byte.x41; Byte.x64; Byte.x61] [];
       mkDialog DIALOG_PEER_CHANNEL 88 6 true 0 5 [Byte.x4e] []] /\
    do_total x1 = Some 2 /\
    slot_of false x1 = stored_slot false (clock (snd toy_end)) x1.
Proof.
  destruct (dialogs_listed (C := toy_crypto) store_tinf api_config_init 20 false toy_caller sample_session
    sample_transport (answering_world toy_answer) (Some 2) toy_dialogs [sample_message] toy_chats toy_users []
    (fst (fst toy_end)) (snd (fst toy_end)) (snd toy_end) ltac:(reflexivity) ltac:(reflexivity) toy_dialogs_ok
    ltac:(reflexivity) ltac:(split; [apply Z.leb_le|apply Z.ltb_lt]; reflexivity) toy_tables_ok
    ltac:(by vm_compute) toy_answered) as (x1 & E & L & T & Sl).
  exists x1. split; [exact E|]. split; [|split; [exact T|exact Sl]].
  change (listed 20 toy_dialogs (map snd toy_chats) (map snd toy_users) (do_out x1)) with
    (Forall2 (listed_as (map snd toy_chats) (map snd toy_users)) toy_dialogs (do_out x1)) in L.
  rewrite (Forall2_listed_join _ _ _ _ L). reflexivity.
Defined.

(** The same call as a run. *)
Definition toy_listed : DialogsOut * (MtProtoSession * Transport * World) :=
  match domain_get_dialogs (C := toy_crypto) store_tinf api_config_init 20 false (toy_caller, toy_start) with
  | Done _ st => st
  | _ => (toy_caller, toy_start)
  end.

Lemma toy_listed_run :
  domain_get_dialogs (C := toy_crypto) store_tinf api_config_init 20 false (toy_caller, toy_start) =
  Done tt (fst toy_listed, (fst (fst (snd toy_listed)), snd (fst (snd toy_listed)), snd (snd toy_listed))).
Proof.
  rewrite <- (surjective_pairing (fst (snd toy_listed))), <- (surjective_pairing (snd toy_listed)),
    <- (surjective_pairing toy_listed). unfold toy_listed.
  assert (H : match domain_get_dialogs (C := toy_crypto) store_tinf api_config_init 20 false (toy_caller, toy_start) with
              | Done _ _ => true | _ => false end = true) by (vm_cast_no_check (eq_refl true)).
  by destruct (domain_get_dialogs _ _ _ _ _) as [[] st|st| |].
Qed.

Lemma toy_listed_two : do_out (fst toy_listed) <> [].
Proof.
  assert (H : length (do_out (fst toy_listed)) = 2%nat) by (vm_cast_no_check (eq_refl 2%nat)).
  intros E. apply (f_equal length) in E. rewrite H in E. discriminate E.
Qed.

Lemma dialogs_served_again_witness :
  exists y', domain_get_dialogs (C := toy_crypto) store_tinf api_config_init 1 false
      (fst toy_listed, (sample_session, sample_transport, snd (snd toy_listed))) =
      Done tt (y', (sample_session, sample_transport, clocked (snd (snd toy_listed)))) /\
    do_out y' = take 1 (do_out (fst toy_listed)) /\
    do_inbox y' = do_inbox (fst toy_listed) /\ do_archive y' = do_archive (fst toy_listed).
Proof.
  refine (proj1 (proj2 (dialogs_served_again (C := toy_crypto) store_tinf api_config_init 20 false _ _ _ _ _ _ _ _
    toy_listed_run _)) 1 _ _ _ _ _ _ _ _).
  - exact toy_listed_two.
  - lia.
  - by vm_compute.
  - reflexivity.
  - apply Z.ltb_lt. vm_cast_no_check (eq_refl true).
Defined.
