(* ===== verification/ReadTheorems.v ===== *)
(** * Profiles, names and contacts: theorems (src/domain/read/)

    Every query of this part is safe whatever the server answers; a resolved
    name is answered from the cache; the contacts are joined with the users. *)

From S2P Require Import Prelude TlSerial TlLogic TlCrc TlSchema TlSkipBase TlSkipChat TlSkipSafe TlRefine TlExtract CLib World.
From S2P Require Import MtprotoCrypto MtprotoSession Transport WireTheorems MtprotoRpc RpcCorrect ApiCall ApiCorrect.
From S2P Require Import Request RpcTheorems CallLogic LoginCorrect LoginTheorems DomainWrite DomainWriteTheorems History.
From S2P Require Import HistoryCorrect Contacts Resolver ResolveCache Dialogs ReadSafe DialogsTheorems.

#[local] Open Scope Z_scope.

(** (C19) Whatever the server answers: the own profile, the contacts, a name, a
    full profile and the dialogs are queried without leaving a buffer, in
    finitely many steps and with the connection kept.  Every string that is
    stored fits its array, every list its limit, and the two caches stay
    within 32 and twice 512 entries. *)
Theorem read_queries_safe `{C : Crypto} {HC : CryptoLaws C} tinf cfg max_entries archived username :
  cfg_small cfg -> tinf_fits tinf -> short username ->
  cx_safe self_ok (domain_get_self tinf cfg) any_result /\
  cx_safe (contacts_ok (Z.max 0 (Z.min max_entries CONTACTS_MAX)))
    (domain_get_contacts tinf cfg max_entries) any_result /\
  cx_safe resolver_ok (domain_resolve_username tinf cfg username) any_result /\
  cx_safe info_ok (domain_get_user_info tinf cfg username) any_result /\
  cx_safe (dialogs_ok (Z.max 0 max_entries)) (domain_get_dialogs tinf cfg max_entries archived) any_result.
Proof.
  intros. split_and!; [by apply get_self_safe|by apply get_contacts_safe|by apply resolve_safe
    |by apply get_user_info_safe|by apply get_dialogs_safe].
Qed.

Lemma read_queries_safe_witness :
  cx_safe self_ok (domain_get_self (C := toy_crypto) store_tinf api_config_init) any_result.
Proof.
  refine (proj1 (read_queries_safe (C := toy_crypto) store_tinf api_config_init 100 false [Byte.x61]
    _ store_tinf_fits _)); by vm_compute.
Defined.

(** ** Names *)

Definition named (bare : list byte) : ResolvedPeer := r_set_username (copy_trunc 64 bare) resolved_zero.

Lemma lookup_cached_at bare p cache s t w :
  lookup_cached bare ((p, cache), (s, t, w)) =
    let '(res, cache') := rcache_lookup_v2 bare (clock w) cache in
    Done res ((p, cache'), (s, t, clocked w)).
Proof.
  unfold lookup_cached, resolver_now, upd_ctx, mbind, M_bind, on_snd, time_now, get_fst, mret, M_ret. cbn [fst snd].
  change (s64 (u64 (w_clock w (w_ticks w)))) with (clock w).
  by destruct (rcache_lookup_v2 bare (clock w) cache).
Qed.

Lemma rcache_store_at name p cache s t w :
  rcache_store name ((p, cache), (s, t, w)) =
    Done tt ((p, rcache_store_entry name (Some p) false (clock w) cache), (s, t, clocked w)).
Proof. done. Qed.

(** The parser does not touch the cache. *)
Lemma on_peer_inv {W A} (m : Px ResolvedPeer A) buf p cache (st : W) a y st' :
  with_parser buf (on_peer m) ((p, cache), st) = Done a (y, st') -> snd y = cache /\ st' = st.
Proof.
  unfold with_parser, on_peer. cbn [fst snd].
  destruct (m _) as [b [r' p']|[r' p']| |]; try done. by intros [= _ <- <-].
Qed.

Section Resolve.
Context `{C : Crypto} (tinf : Z -> list byte -> option (list byte)) (cfg : ApiConfig).

(** A name with a fresh positive answer. *)
Lemma resolve_cached username x s t w e : cache_ok (snd x) ->
  view (snd x) (bare_name username) = Some e -> rc_negative e = false ->
  clock w - rc_fetched_at e < RESOLVE_CACHE_TTL_S ->
  domain_resolve_username tinf cfg username (x, (s, t, w)) =
    Done tt ((rc_value e, snd x), (s, t, clocked w)).
Proof.
  intros Hok Hv Hn Ht. destruct x as [p cache]. cbn [snd] in *. unfold domain_resolve_username.
  rewrite (bind_Done _ _ _ tt ((named (bare_name username), cache), (s, t, w))) by done.
  assert (Hx : expired (clock w) e = false) by (unfold expired, rc_ttl; rewrite Hn; by apply Z.leb_gt).
  rewrite (bind_Done _ _ _ (RCACHE_HIT_POS (rc_value e)) ((named (bare_name username), cache), (s, t, clocked w))); [done|].
  rewrite lookup_cached_at. destruct (lookup_cases (bare_name username) (clock w) cache) as [[Hv' _]|(i & e' & _ & Hv' & ->)];
    [congruence|]. assert (e' = e) as -> by congruence. cbn [report]. by rewrite Hx, Hn.
Qed.

(** A successful call: a fresh answer, or one that has just been stored for a
    name without an answer. *)
Lemma resolve_inv username x s t w x1 s1 t1 w1 :
  cache_ok (snd x) ->
  domain_resolve_username tinf cfg username (x, (s, t, w)) = Done tt (x1, (s1, t1, w1)) ->
  (exists e, view (snd x) (bare_name username) = Some e /\ expired (clock w) e = false /\
     rc_negative e = false /\ x1 = (rc_value e, snd x)) \/
  (exists w' cache, w1 = clocked w' /\ cache_ok cache /\ view cache (bare_name username) = None /\
     snd x1 = rcache_store_entry (bare_name username) (Some (fst x1)) false (clock w') cache).
Proof.
  intros Hok H. destruct x as [p cache]. cbn [snd] in *. unfold domain_resolve_username in H.
  rewrite (bind_Done _ _ _ tt ((named (bare_name username), cache), (s, t, w))) in H by done.
  apply run_inv in H as (res & [[p2 cache2] st2] & Hl & H). rewrite lookup_cached_at in Hl.
  pose proof (lookup_refines cache (bare_name username) (clock w) Hok) as Hc.
  destruct (rcache_lookup_v2 _ _ _) as [res' cache'] eqn:El. destruct Hc as (Hr & Hok' & Hview).
  injection Hl as <- <- <- <-.
  assert (Hmiss : res' = RCACHE_MISS -> view cache' (bare_name username) = None ->
    exists w' cache, w1 = clocked w' /\ cache_ok cache /\ view cache (bare_name username) = None /\
      snd x1 = rcache_store_entry (bare_name username) (Some (fst x1)) false (clock w') cache).
  { intros E Hnone. rewrite E in H. cbn zeta in H.
    apply run_inv in H as (q & [y st3] & Hq & H). apply run_inv in H as (resp & [y2 st4] & Hc & H).
    apply take_query_inv in Hq as [Hq _]. injection Hq as -> ->.
    apply call_api_inv in Hc as [-> _]. destruct (zlen resp <? 4); [done|].
    destruct (first_word resp =? TL_rpc_error).
    { destruct (rpc_parse_error resp) as [err|]; [|done]. by apply run_inv in H as (? & ? & _ & H). }
    destruct (negb _); [done|]. apply run_inv in H as ([] & [[p2 c2] [[s5 t5] w5]] & Hp & H).
    apply on_peer_inv in Hp as [Hc2 _]. cbn [snd] in Hc2. subst c2.
    rewrite rcache_store_at in H. injection H as <- <- <- <-. by exists w5, cache'. }
  subst res'. rewrite Hview, str_eq_refl in Hmiss. unfold report in H, Hmiss.
  destruct (view cache (bare_name username)) as [e|] eqn:Ev; cbn [from_option andb] in *; [|by right; apply Hmiss].
  destruct (expired (clock w) e) eqn:Ex; [by right; apply Hmiss|].
  destruct (rc_negative e) eqn:En; [done|]. left. exists e. split_and!; try done.
  injection H as <- _ _ _. cbn [snd]. f_equal.
  destruct (lookup_cases (bare_name username) (clock w) cache) as [[Hv _]|(i & e' & _ & Hv & E)]; [congruence|].
  assert (e' = e) as -> by congruence. rewrite Ex in E. congruence.
Qed.

End Resolve.

(** (C28) A name that was resolved is remembered: the answer is in the cache
    with the time of the call (or the older one that served the call), and
    for 300 seconds from that time every further resolution of the name, with
    or without its at sign, gives the same peer without any message to the
    server. *)
Theorem resolve_remembered `{C : Crypto} tinf cfg username x s t w x1 s1 t1 w1 :
  cache_ok (snd x) -> no_nul (bare_name username) -> zlen (bare_name username) < 64 ->
  domain_resolve_username tinf cfg username (x, (s, t, w)) = Done tt (x1, (s1, t1, w1)) ->
  cache_ok (snd x1) /\
  exists e, view (snd x1) (bare_name username) = Some e /\ rc_value e = fst x1 /\
    (view (snd x) (bare_name username) = Some e \/ exists w', w1 = clocked w' /\ rc_fetched_at e = clock w') /\
    forall again p s2 t2 w2, bare_name again = bare_name username ->
      clock w2 - rc_fetched_at e < RESOLVE_CACHE_TTL_S ->
      domain_resolve_username tinf cfg again ((p, snd x1), (s2, t2, w2)) =
        Done tt ((fst x1, snd x1), (s2, t2, clocked w2)).
Proof.
  intros Hok Hn Hz H.
  assert (Hr : cache_ok (snd x1) /\ exists e, view (snd x1) (bare_name username) = Some e /\
    rc_negative e = false /\ rc_value e = fst x1 /\
    (view (snd x) (bare_name username) = Some e \/ exists w', w1 = clocked w' /\ rc_fetched_at e = clock w')).
  { destruct (resolve_inv tinf cfg username x s t w x1 s1 t1 w1 Hok H)
      as [(e & Hv & _ & Hneg & ->)|(w' & cache & -> & Hok' & Hnone & Hc)].
    - split; [done|]. exists e. by split_and!; [..|left].
    - destruct (store_refines cache (bare_name username) (clock w') (Some (fst x1)) false Hok' Hn Hz Hnone)
        as (Hok1 & ev & Hview & _). rewrite <- Hc in *. split; [done|]. rewrite Hview, str_eq_refl.
      eexists. split; [reflexivity|]. split_and!; [done..|]. right. by exists w'. }
  destruct Hr as (Hok1 & e & Hv & Hneg & Hval & Hwhen). split; [done|]. exists e. split_and!; try done.
  intros again p s2 t2 w2 Ha Ht. rewrite <- Hval.
  apply (resolve_cached tinf cfg again (p, snd x1) s2 t2 w2 e); try done. by rewrite Ha.
Qed.

(** *** A user behind a name *)

Definition resolve_query (bare : list byte) : list byte :=
  enc32 CRC_contacts_resolveUsername ++ enc_bytes bare.

(** contacts.resolvedPeer of a user, who is the first of the users. *)
Definition resolved_user_bytes (nusers crc flags flags2 id hash : Z) (first last uname tail : list byte) : list byte :=
  enc32 TL_contacts_resolvedPeer ++ enc32 TL_peerUser ++ enc64 id ++
  enc32 TL_vector ++ enc32 0 ++ enc32 TL_vector ++ enc32 nusers ++
  user_bytes crc flags flags2 id hash first last uname tail.

Definition resolved_user (bare : list byte) (flags id hash : Z) : ResolvedPeer :=
  mkResolved RESOLVED_KIND_USER id (if flag flags 0 then hash else 0) [] (copy_trunc 64 bare) (flag flags 0).

Lemma reads_opt_hash (c : bool) hash : is_s64 hash ->
  reads (if c then h ← tl_read_int64; mret (h, true) else mret (0, false))
    (if c then enc64 hash else []) (if c then hash else 0, c).
Proof.
  intros Hh. destruct c; [|apply reads_ret]. rewrite <- (app_nil_r (enc64 hash)).
  eapply reads_bind; [by apply reads_int64|apply reads_ret].
Qed.

Lemma reads_opt_string (c : bool) cap d : zlen d < 2 ^ 24 ->
  reads (if c then resolved_string cap else mret []) (if c then enc_bytes d else [])
    (if c then copy_trunc cap d else []).
Proof.
  intros Hd. destruct c; [|apply reads_ret]. unfold resolved_string. rewrite <- (app_nil_r (enc_bytes d)).
  eapply reads_bind; [by apply reads_bytes|apply reads_ret].
Qed.

(** The prefix of a user, with its names. *)
Lemma reads_user_prefix flags flags2 id hash first last uname :
  is_u32 flags -> is_s64 id -> is_s64 hash ->
  zlen first < 2 ^ 24 -> zlen last < 2 ^ 24 -> zlen uname < 2 ^ 24 ->
  exists title name, reads parse_user_prefix (enc32 flags ++ enc32 flags2 ++ enc64 id ++
      (if flag flags 0 then enc64 hash else []) ++ (if flag flags 1 then enc_bytes first else []) ++
      (if flag flags 2 then enc_bytes last else []) ++ (if flag flags 3 then enc_bytes uname else []))
    (mkResolved RESOLVED_KIND_UNKNOWN id (if flag flags 0 then hash else 0) title name (flag flags 0)).
Proof.
  intros Hf Hid Hh H1 H2 H3. do 2 eexists. unfold parse_user_prefix.
  eapply reads_bind; [by apply reads_uint32|].
  eapply reads_bind; [apply reads_skip_uint32, enc32_len|].
  eapply reads_bind; [by apply reads_int64|].
  eapply reads_bind; [by apply reads_opt_hash|].
  eapply reads_bind; [by apply reads_opt_string|].
  eapply reads_bind; [by apply reads_opt_string|].
  rewrite <- (app_nil_r (if flag flags 3 then _ else _)).
  eapply reads_bind; [by apply reads_opt_string|]. cbn zeta. cbn [fst snd]. apply reads_ret.
Qed.

Lemma resolved_user_parsed nusers crc flags flags2 id hash first last uname tail p r tl :
  crc = TL_user \/ crc = TL_user2 -> 0 < nusers < 2 ^ 32 -> is_u32 flags -> is_s64 id -> is_s64 hash ->
  zlen first < 2 ^ 24 -> zlen last < 2 ^ 24 -> zlen uname < 2 ^ 24 -> reader_wf r ->
  rest r = resolved_user_bytes nusers crc flags flags2 id hash first last uname tail ++ tl ->
  exists r', parse_resolved (r, p) =
    Done tt (r', r_set_hash (if flag flags 0 then hash else 0) (flag flags 0)
                   (r_set_id id (r_set_kind RESOLVED_KIND_USER p))).
Proof.
  intros Hcrc Hn Hf Hid Hh H1 H2 H3 Hwf Hr.
  destruct (reads_user_prefix flags flags2 id hash first last uname Hf Hid Hh H1 H2 H3) as (title & name & Hp).
  unfold parse_resolved, resolved_user_bytes, user_bytes in *. rewrite <- !app_assoc in Hr.
  lift_step (reads_skip_uint32 (enc32 TL_contacts_resolvedPeer) (enc32_len _)) Hr.
  lift_step (reads_uint32 TL_peerUser ltac:(done)) Hr.
  change (negb _) with false at 1. cbn iota. change (kind_of TL_peerUser) with RESOLVED_KIND_USER.
  erewrite (bind_Done (set_ctx _)) by done. cbn [fst snd].
  lift_step (reads_int64 id Hid) Hr. erewrite (bind_Done (set_ctx _)) by done. cbn [fst snd].
  lift_step (reads_uint32 TL_vector ltac:(done)) Hr. change (negb (TL_vector =? TL_vector)) with false. cbn iota.
  lift_step (reads_uint32 0 ltac:(done)) Hr. change (0 <? 0) with false. cbn [when]. rewrite bind_ret_l.
  lift_step (reads_uint32 TL_vector ltac:(done)) Hr. change (TL_vector =? TL_vector) with true. cbn [when].
  lift_step (reads_uint32 nusers ltac:(unfold is_u32; lia)) Hr. rewrite (proj2 (Z.ltb_lt 0 nusers)) by lia. cbn [when].
  lift_step (reads_uint32 crc ltac:(destruct Hcrc as [->| ->]; done)) Hr.
  replace ((crc =? TL_user) || (crc =? TL_user2)) with true by (destruct Hcrc as [->| ->]; done). cbn [when].
  match type of Hr with rest ?r = _ => match type of Hp with reads _ ?bs _ =>
    assert (Hrest : rest r = bs ++ (tail ++ tl)) by (rewrite Hr, <- !app_assoc; done) end end.
  lift_step Hp Hrest. eexists. unfold set_ctx, take_hash. cbn [fst snd r_id r_access_hash r_have_hash].
  by rewrite Z.eqb_refl.
Qed.

(** In front of the answer for a user (no chats, the user first among the
    users), a name without a fresh answer resolves to that user: its id, the
    name as it was asked for, and the access hash when the user carries one.
    The peer is stored under the name with the time of the store. *)
Theorem resolve_user `{C : Crypto} tinf cfg username x s t w nusers crc flags flags2 id hash first last uname
    tail tl s' t' w' :
  cache_ok (snd x) -> zlen (bare_name username) <= 100 ->
  report (clock w) (view (snd x) (bare_name username)) = RCACHE_MISS ->
  crc = TL_user \/ crc = TL_user2 -> 0 < nusers < 2 ^ 32 -> is_u32 flags -> is_s64 id -> is_s64 hash ->
  zlen first < 2 ^ 24 -> zlen last < 2 ^ 24 -> zlen uname < 2 ^ 24 ->
  let resp := resolved_user_bytes nusers crc flags flags2 id hash first last uname tail ++ tl in
  zlen resp <= 65536 ->
  api_call tinf cfg (resolve_query (bare_name username)) 65536 (s, t, clocked w) = Done resp (s', t', w') ->
  exists cache, domain_resolve_username tinf cfg username (x, (s, t, w)) =
      Done tt ((resolved_user (bare_name username) flags id hash,
                rcache_store_entry (bare_name username)
                  (Some (resolved_user (bare_name username) flags id hash)) false (clock w') cache),
               (s', t', clocked w')) /\
    forall n, view cache n = if str_eq n (bare_name username) then None else view (snd x) n.
Proof.
  intros Hok Hz Hmiss Hcrc Hn Hf Hid Hh H1 H2 H3 resp Hrz Ha. destruct x as [p cache]. cbn [snd] in *.
  set (bare := bare_name username) in *. pose proof (zlen_nonneg bare) as Hb0.
  pose proof (lookup_refines cache bare (clock w) Hok) as Hl.
  pose proof (lookup_cached_at bare (named bare) cache s t w) as El.
  destruct (rcache_lookup_v2 bare (clock w) cache) as [res cache'] eqn:Elk. destruct Hl as (Hr & Hok' & Hview).
  exists cache'. split.
  2: { intros n. rewrite Hview. destruct (str_eq n bare) eqn:En; [|done]. cbn [andb].
       apply str_eq_true in En as ->. destruct (view cache bare) as [e|] eqn:Ev; [|done]. cbn [from_option].
       cbn [report] in Hmiss. destruct (expired (clock w) e); [done|]. by destruct (rc_negative e). }
  unfold domain_resolve_username. fold bare.
  rewrite (bind_Done _ _ _ tt ((named bare, cache), (s, t, w))) by done.
  rewrite (bind_Done _ _ _ _ _ El), Hr, Hmiss. cbn zeta.
  rewrite (query_bind _ (resolve_query bare));
    [|peer_counts|unfold resolve_query; peer_bytes; unfold bare in *; lia|unfold resolve_query; peer_lia|lia].
  rewrite (bind_Done _ _ _ _ _ (call_api_at tinf cfg _ 65536 _ _ _ _ Ha)).
  assert (Hresp : exists rest, resp = enc32 TL_contacts_resolvedPeer ++ rest).
  { subst resp. unfold resolved_user_bytes. rewrite <- !app_assoc. by eexists. }
  destruct Hresp as [rst Er]. pose proof (zlen_nonneg rst).
  rewrite (proj2 (Z.ltb_ge (zlen resp) 4)) by (rewrite Er, zlen_app, enc32_len; lia).
  replace (first_word resp) with TL_contacts_resolvedPeer by (by rewrite Er, first_word_enc32).
  change (TL_contacts_resolvedPeer =? TL_rpc_error) with false.
  change (negb (TL_contacts_resolvedPeer =? TL_contacts_resolvedPeer)) with false. cbn iota.
  destruct (resolved_user_parsed nusers crc flags flags2 id hash first last uname tail (named bare)
    (tl_reader_init resp (zlen resp)) tl Hcrc Hn Hf Hid Hh H1 H2 H3) as [r' Ep];
    [apply reader_init_wf; unfold SIZE_LIM; [pose proof (zlen_nonneg resp)|]; lia|apply rest_init|].
  erewrite bind_Done; [|unfold with_parser, on_peer; cbn [fst snd]; rewrite Ep; reflexivity].
  reflexivity.
Qed.

(** ** Contacts *)

Definition contact_bytes (c : Z * bool) : list byte := enc32 CRC_contact ++ enc64 (fst c) ++ enc_bool (snd c).

Definition contact_of (c : Z * bool) : ContactEntry := mkContact (fst c) 0 (snd c) [] [].

(** The entry with the names of the user that has its id. *)
Definition with_user (users : list UserSummary) (e : ContactEntry) : ContactEntry :=
  match List.find (fun us => TlSkipChat.user_id us =? c_user_id e) users with
  | Some us => mkContact (c_user_id e) (user_access_hash us) (c_mutual e)
                 (copy_trunc 128 (user_name us)) (copy_trunc 64 (user_username us))
  | None => e
  end.

Definition contacts_bytes (cs : list (Z * bool)) (saved : Z) (users : list (list byte * UserSummary)) : list byte :=
  enc32 TL_contacts_contacts ++ wire_vector (map contact_bytes cs) ++ enc32 saved ++
  wire_vector (map fst users).

Lemma reads_contact_round c : is_s64 (fst c) ->
  reads contact_round (contact_bytes c) (Some (contact_of c)).
Proof.
  intros Hid. unfold contact_round, contact_bytes. apply reads_ask_ok.
  { rewrite zlen_app, enc32_len. pose proof (zlen_nonneg (enc64 (fst c) ++ enc_bool (snd c))). lia. }
  eapply reads_bind; [by apply reads_uint32|]. change (negb _) with false. cbn iota.
  eapply reads_bind; [by apply reads_int64|]. rewrite <- (app_nil_r (enc_bool (snd c))).
  eapply reads_bind; [apply reads_bool|]. unfold contact_of. destruct (snd c); apply reads_ret.
Qed.

Lemma reads_user_round bs us : wire_user bs us -> reads user_round bs (Some us).
Proof.
  intros H. unfold user_round. apply reads_ask_ok; [|by apply reads_attempt, reads_extract_user].
  destruct H. unfold user_bytes. rewrite zlen_app, enc32_len.
  match goal with |- 0 < 4 + zlen ?l => pose proof (zlen_nonneg l) end. lia.
Qed.

(** A loop in front of its elements. *)
Lemma contact_loop_lists limit cs : Forall (fun c => is_s64 (fst c)) cs -> forall fuel i r out tl,
  reader_wf r -> rest r = concat (map contact_bytes cs) ++ tl -> zlen cs < Z.of_nat fuel ->
  zlen out + zlen cs <= limit ->
  contact_loop limit fuel i (i + zlen cs) (r, out) =
    Done tt (adv r (zlen (concat (map contact_bytes cs))), out ++ map contact_of cs).
Proof.
  induction 1 as [|c cs Hc _ IH]; intros fuel i r out tl Hwf Hr Hfuel Hl.
  - destruct fuel as [|fuel]; [unfold zlen in Hfuel; cbn in Hfuel; lia|]. cbn [contact_loop].
    rewrite (bind_Done _ _ _ out (r, out)) by done.
    rewrite (proj2 (Z.ltb_ge _ _)) by (unfold zlen; cbn; lia). cbn. by rewrite adv_0, app_nil_r.
  - destruct fuel as [|fuel]; [pose proof (zlen_nonneg (c :: cs)); lia|].
    rewrite zlen_cons in *. pose proof (zlen_nonneg cs). cbn [contact_loop].
    rewrite (bind_Done _ _ _ out (r, out)) by done. rewrite !(proj2 (Z.ltb_lt _ _)) by lia. cbn [andb].
    cbn [map concat] in Hr. rewrite <- app_assoc in Hr. replace (i + (1 + zlen cs)) with (i + 1 + zlen cs) by lia.
    lift_step (reads_contact_round c Hc) Hr. erewrite (bind_Done (set_ctx _)) by done. cbn [fst snd].
    rewrite (IH fuel (i + 1) _ (out ++ [contact_of c]) tl); [|done|done|lia|rewrite zlen_app; unfold zlen in *; cbn; lia].
    cbn [map concat]. by rewrite adv_adv, zlen_app, <- app_assoc.
Qed.

Lemma user_loop_joins users : Forall (fun u => wire_user (fst u) (snd u)) users -> forall fuel i r out tl,
  reader_wf r -> rest r = concat (map fst users) ++ tl -> zlen users < Z.of_nat fuel ->
  exists r', user_loop fuel i (i + zlen users) (r, out) =
    Done tt (r', fold_left (fun out us => join_contact us out) (map snd users) out).
Proof.
  induction 1 as [|[bs us] users Hu _ IH]; intros fuel i r out tl Hwf Hr Hfuel.
  - destruct fuel as [|fuel]; [unfold zlen in Hfuel; cbn in Hfuel; lia|]. cbn [user_loop].
    rewrite (proj2 (Z.ltb_ge _ _)) by (unfold zlen; cbn; lia). by eexists.
  - destruct fuel as [|fuel]; [pose proof (zlen_nonneg ((bs, us) :: users)); lia|].
    rewrite zlen_cons in *. pose proof (zlen_nonneg users). cbn [user_loop].
    rewrite (proj2 (Z.ltb_lt _ _)) by lia. cbn [map concat fst snd] in *. rewrite <- app_assoc in Hr.
    replace (i + (1 + zlen users)) with (i + 1 + zlen users) by lia.
    lift_step (reads_user_round bs us Hu) Hr. erewrite (bind_Done (set_ctx _)) by done. cbn [fst snd fold_left].
    by apply (IH fuel (i + 1) _ _ tl); [..|lia].
Qed.

(** The users one after the other, for contacts and users without
    duplicates, give every contact its user. *)
Lemma join_contact_map us out : NoDup (map c_user_id out) ->
  join_contact us out = map (with_user [us]) out.
Proof.
  induction out as [|e out IH]; intros Hd; [done|]. cbn [map join_contact] in *.
  inversion Hd as [|? ? Hn Hd']; subst. unfold with_user at 1. cbn [List.find].
  rewrite (Z.eqb_sym (TlSkipChat.user_id us)). destruct (Z.eqb_spec (c_user_id e) (TlSkipChat.user_id us)) as [E|E].
  - f_equal. rewrite <- (map_id out) at 1. apply map_ext_in. intros a Ha. unfold with_user. cbn [List.find].
    destruct (Z.eqb_spec (TlSkipChat.user_id us) (c_user_id a)); [|done]. destruct Hn.
    apply list_elem_of_In. rewrite E, e0. by apply in_map.
  - by rewrite IH.
Qed.

Lemma with_user_id users e : c_user_id (with_user users e) = c_user_id e.
Proof. unfold with_user. by destruct (List.find _ _). Qed.

Lemma fold_join users : NoDup (map TlSkipChat.user_id users) -> forall out, NoDup (map c_user_id out) ->
  fold_left (fun out us => join_contact us out) users out = map (with_user users) out.
Proof.
  induction users as [|us users IH]; intros Hu out Hd.
  - cbn. symmetry. rewrite <- (map_id out) at 2. by apply map_ext.
  - cbn [map fold_left] in *. inversion Hu as [|? ? Hn Hu']; subst. rewrite (join_contact_map us out Hd).
    rewrite IH; [|done|].
    2: { rewrite map_map. erewrite map_ext; [exact Hd|]. intros e. apply with_user_id. }
    rewrite map_map. apply map_ext. intros e. unfold with_user at 1. rewrite with_user_id.
    unfold with_user. cbn [List.find].
    destruct (Z.eqb_spec (TlSkipChat.user_id us) (c_user_id e)) as [E|E]; [|done]. cbn [c_user_id c_mutual].
    destruct (List.find _ users) as [us'|] eqn:Ef; [|done]. apply List.find_some in Ef as [Hi Heq].
    apply Z.eqb_eq in Heq. destruct Hn. apply list_elem_of_In. rewrite E, <- Heq. by apply in_map.
Qed.

Lemma concat_nonempty_len {A} (l : list (list A)) :
  Forall (fun b => 0 < zlen b) l -> zlen l <= zlen (concat l).
Proof.
  induction 1 as [|b l Hb _ IH]; [done|]. cbn [concat]. rewrite zlen_cons, zlen_app. lia.
Qed.

Lemma contact_bytes_len c : 0 < zlen (contact_bytes c).
Proof. unfold contact_bytes. rewrite zlen_app, enc32_len. pose proof (zlen_nonneg (enc64 (fst c) ++ enc_bool (snd c))). lia. Qed.

Lemma wire_user_len bs us : wire_user bs us -> 0 < zlen bs.
Proof.
  intros []. unfold user_bytes. rewrite zlen_app, enc32_len.
  match goal with |- 0 < 4 + zlen ?l => pose proof (zlen_nonneg l) end. lia.
Qed.

Lemma contacts_parsed limit cs saved users tl r :
  Forall (fun c => is_s64 (fst c)) cs -> Forall (fun u => wire_user (fst u) (snd u)) users ->
  NoDup (map fst cs) -> NoDup (map (fun u => TlSkipChat.user_id (snd u)) users) ->
  zlen cs <= limit -> zlen cs < 2 ^ 32 -> zlen users < 2 ^ 32 -> reader_wf r ->
  rest r = contacts_bytes cs saved users ++ tl -> exists r',
  contacts_body limit (r, []) = Done tt (r', map (with_user (map snd users)) (map contact_of cs)).
Proof.
  intros Hc Hu Hdc Hdu Hl Hzc Hzu Hwf Hr. pose proof (zlen_nonneg cs). pose proof (zlen_nonneg users).
  assert (Hlc : zlen (map contact_bytes cs) = zlen cs) by (unfold zlen; by rewrite length_map).
  assert (Hlu : zlen (map fst users) = zlen users) by (unfold zlen; by rewrite length_map).
  assert (Hcl : zlen cs <= zlen (concat (map contact_bytes cs))).
  { rewrite <- Hlc. apply concat_nonempty_len. apply Forall_forall. intros b Hb.
    apply in_map_iff in Hb as (c & <- & _). apply contact_bytes_len. }
  assert (Hul : zlen users <= zlen (concat (map fst users))).
  { rewrite <- Hlu. apply concat_nonempty_len. apply Forall_forall. intros b Hb.
    apply in_map_iff in Hb as (u & <- & Hi). eapply wire_user_len, (proj1 (Forall_forall _ _) Hu), Hi. }
  unfold contacts_body, contacts_bytes, wire_vector in *. rewrite Hlc, Hlu, <- !app_assoc in Hr.
  lift_step (reads_skip_uint32 (enc32 TL_contacts_contacts) (enc32_len _)) Hr.
  lift_step (reads_uint32 TL_vector ltac:(done)) Hr. change (negb (TL_vector =? TL_vector)) with false. cbn iota.
  lift_step (reads_uint32 (zlen cs) ltac:(done)) Hr.
  match type of Hr with rest ?r = _ => set (r1 := r) in * end.
  pose proof (rest_len r1 W1) as Hlen. rewrite Hr, zlen_app in Hlen.
  match type of Hlen with context [_ + zlen ?l] => pose proof (zlen_nonneg l) end.
  pose proof (contact_loop_lists limit cs Hc (S (Z.to_nat (left r1))) 0 r1 [] _ W1 Hr ltac:(lia)
    ltac:(unfold zlen at 1; cbn; lia)) as E. rewrite Z.add_0_l in E. cbn [app] in E.
  erewrite bind_Done; [|unfold fuelled; cbn [rd HasReader_fst fst]; exact E].
  assert (W2 : reader_wf (adv r1 (zlen (concat (map contact_bytes cs))))) by (by eapply adv_wf).
  assert (Hr2 : rest (adv r1 (zlen (concat (map contact_bytes cs)))) = enc32 saved ++
    enc32 TL_vector ++ enc32 (zlen users) ++ concat (map fst users) ++ tl) by (by eapply rest_adv).
  clear Hr. lift_step (reads_skip_int32 (enc32 saved) (enc32_len _)) Hr2.
  lift_step (reads_uint32 TL_vector ltac:(done)) Hr2. change (TL_vector =? TL_vector) with true. cbn iota.
  lift_step (reads_uint32 (zlen users) ltac:(done)) Hr2.
  match type of Hr2 with rest ?r = _ => set (r2 := r) in * end.
  assert (Hw2 : reader_wf r2) by done.
  pose proof (rest_len r2 Hw2) as Hlen2. rewrite Hr2, zlen_app in Hlen2. pose proof (zlen_nonneg tl).
  destruct (user_loop_joins users Hu (S (Z.to_nat (left r2))) 0 r2 (map contact_of cs) tl Hw2 Hr2 ltac:(lia)) as [r' Eu].
  exists r'. unfold fuelled. cbn [rd HasReader_fst fst]. rewrite Z.add_0_l in Eu. rewrite Eu.
  rewrite fold_join; [done|by rewrite map_map|by rewrite map_map].
Qed.

(** On a well-formed answer within the limit, [domain_get_contacts] lists
    every contact in order, each with the names and the access hash of the
    user with its id, and without them when there is none. *)
Theorem contacts_joined `{C : Crypto} tinf cfg max_entries x st st' cs saved users tl :
  Forall (fun c => is_s64 (fst c)) cs -> Forall (fun u => wire_user (fst u) (snd u)) users ->
  NoDup (map fst cs) -> NoDup (map (fun u => TlSkipChat.user_id (snd u)) users) ->
  0 < max_entries -> zlen cs <= Z.min max_entries CONTACTS_MAX ->
  let resp := contacts_bytes cs saved users ++ tl in
  zlen resp <= 65536 ->
  api_call tinf cfg (enc32 CRC_contacts_getContacts ++ enc64 0) 65536 st = Done resp st' ->
  domain_get_contacts tinf cfg max_entries (x, st) =
    Done tt (map (with_user (map snd users)) (map contact_of cs), st').
Proof.
  intros Hc Hu Hdc Hdu Hm Hl resp Hz Ha. unfold CONTACTS_MAX in *. pose proof (zlen_nonneg tl).
  assert (Hul : zlen users <= zlen (concat (map fst users))).
  { replace (zlen users) with (zlen (map fst users)) by (unfold zlen; by rewrite length_map).
    apply concat_nonempty_len. apply Forall_forall. intros b Hb.
    apply in_map_iff in Hb as (u & <- & Hi). eapply wire_user_len, (proj1 (Forall_forall _ _) Hu), Hi. }
  assert (Hub : zlen users < 2 ^ 32).
  { subst resp. unfold contacts_bytes, wire_vector in Hz. rewrite !zlen_app in Hz.
    pose proof (zlen_nonneg (concat (map contact_bytes cs))). rewrite !enc32_len in Hz. lia. }
  unfold domain_get_contacts. rewrite (proj2 (Z.leb_gt _ _)) by lia.
  rewrite (bind_Done _ _ _ tt ([], st)) by done. cbn zeta.
  rewrite (query_bind _ (enc32 CRC_contacts_getContacts ++ enc64 0));
    [|counts_tac|wdata; done|rewrite zlen_app, enc32_len, enc64_len; lia|lia].
  rewrite (bind_Done _ _ _ _ _ (call_api_at tinf cfg _ 65536 [] _ _ _ Ha)).
  assert (Hresp : exists rest, resp = enc32 TL_contacts_contacts ++ rest).
  { subst resp. unfold contacts_bytes. rewrite <- !app_assoc. by eexists. }
  destruct Hresp as [rst Er].
  rewrite (bind_Done _ _ _ tt ([], st')) by (rewrite Er; by apply check_top_at).
  replace (first_word resp) with TL_contacts_contacts by (by rewrite Er, first_word_enc32).
  change (TL_contacts_contacts =? TL_contacts_contactsNotModified) with false. cbn iota.
  destruct (contacts_parsed (if 512 <? max_entries then 512 else max_entries) cs saved users tl
    (tl_reader_init resp (zlen resp)) Hc Hu Hdc Hdu) as [r' Ep].
  - destruct (Z.ltb_spec 512 max_entries); lia.
  - lia.
  - done.
  - apply reader_init_wf; unfold SIZE_LIM; [pose proof (zlen_nonneg resp)|]; lia.
  - apply rest_init.
  - unfold with_parser. cbn [fst snd]. unfold CONTACTS_MAX. by rewrite Ep.
Qed.

(** ** Exchanges *)

Definition ada : list byte := [Byte.x61; Byte.x64; Byte.x61].

Definition toy_resolved : list byte := resolved_user_bytes 1 TL_user 3 0 77 (-5) [Byte.x41] [] [] [] ++ [].
Definition toy_resolve_state : MtProtoSession * Transport * World :=
  answered_in (sample_session, sample_transport, clocked (answering_world toy_resolved)) (resolve_query ada) 65536.

Lemma toy_resolve_answered :
  api_call (C := toy_crypto) store_tinf api_config_init (resolve_query ada) 65536
    (sample_session, sample_transport, clocked (answering_world toy_resolved)) =
  Done toy_resolved (fst (fst toy_resolve_state), snd (fst toy_resolve_state), snd toy_resolve_state).
Proof.
  rewrite <- (surjective_pairing (fst toy_resolve_state)), <- (surjective_pairing toy_resolve_state).
  apply answered_in_at. vm_cast_no_check (eq_refl true).
Qed.

(** The name with an at sign, and an empty cache. *)
Lemma resolve_user_witness :
  exists cache, domain_resolve_username (C := toy_crypto) store_tinf api_config_init (Byte.x40 :: ada)
      ((resolved_zero, resolve_cache_flush), (sample_session, sample_transport, answering_world toy_resolved)) =
    Done tt ((mkResolved RESOLVED_KIND_USER 77 (-5) [] ada true,
              rcache_store_entry ada (Some (mkResolved RESOLVED_KIND_USER 77 (-5) [] ada true)) false
                (clock (snd toy_resolve_state)) cache),
             (fst (fst toy_resolve_state), snd (fst toy_resolve_state), clocked (snd toy_resolve_state))) /\
    forall n, view cache n = if str_eq n ada then None else view resolve_cache_flush n.
Proof.
  refine (resolve_user (C := toy_crypto) store_tinf api_config_init (Byte.x40 :: ada) (resolved_zero, resolve_cache_flush)
    sample_session sample_transport (answering_world toy_resolved) 1 TL_user 3 0 77 (-5) [Byte.x41] [] [] [] []
    _ _ _ empty_cache_ok _ _ (or_introl eq_refl) _ _ _ _ _ _ _ _ toy_resolve_answered);
    try reflexivity; try (split; [apply Z.leb_le|apply Z.ltb_lt]; reflexivity); by vm_compute.
Defined.

(** What a successful run leaves. *)
Definition toy_resolved_run :
    (ResolvedPeer * list ResolveCacheEntry) * (MtProtoSession * Transport * World) :=
  match domain_resolve_username (C := toy_crypto) store_tinf api_config_init ada
    ((resolved_zero, resolve_cache_flush), (sample_session, sample_transport, answering_world toy_resolved)) with
  | Done _ st => st
  | _ => ((resolved_zero, resolve_cache_flush), (sample_session, sample_transport, answering_world toy_resolved))
  end.

Lemma toy_resolved_ran :
  domain_resolve_username (C := toy_crypto) store_tinf api_config_init ada
    ((resolved_zero, resolve_cache_flush), (sample_session, sample_transport, answering_world toy_resolved)) =
  Done tt (fst toy_resolved_run, (fst (fst (snd toy_resolved_run)), snd (fst (snd toy_resolved_run)),
           snd (snd toy_resolved_run))).
Proof.
  rewrite <- (surjective_pairing (fst (snd toy_resolved_run))), <- (surjective_pairing (snd toy_resolved_run)),
    <- (surjective_pairing toy_resolved_run). unfold toy_resolved_run.
  assert (H : match domain_resolve_username (C := toy_crypto) store_tinf api_config_init ada
    ((resolved_zero, resolve_cache_flush), (sample_session, sample_transport, answering_world toy_resolved)) with
    | Done _ _ => true | _ => false end = true) by (vm_cast_no_check (eq_refl true)).
  by destruct (domain_resolve_username _ _ _ _) as [[] st|st| |].
Qed.

Lemma resolve_remembered_witness :
  cache_ok (snd (fst toy_resolved_run)) /\
  exists e, view (snd (fst toy_resolved_run)) ada = Some e /\ rc_value e = fst (fst toy_resolved_run) /\
    (view resolve_cache_flush ada = Some e \/
     exists w', snd (snd toy_resolved_run) = clocked w' /\ rc_fetched_at e = clock w') /\
    forall again p s2 t2 w2, bare_name again = ada ->
      clock w2 - rc_fetched_at e < RESOLVE_CACHE_TTL_S ->
      domain_resolve_username (C := toy_crypto) store_tinf api_config_init again
        ((p, snd (fst toy_resolved_run)), (s2, t2, w2)) =
        Done tt ((fst (fst toy_resolved_run), snd (fst toy_resolved_run)), (s2, t2, clocked w2)).
Proof.
  refine (resolve_remembered (C := toy_crypto) store_tinf api_config_init ada (resolved_zero, resolve_cache_flush)
    _ _ _ _ _ _ _ empty_cache_ok _ _ toy_resolved_ran); [by repeat constructor|reflexivity].
Defined.

Definition toy_contacts : list byte := contacts_bytes [(77, true); (99, false)] 0 toy_users ++ [].
Definition toy_contacts_query : list byte := enc32 CRC_contacts_getContacts ++ enc64 0.

Lemma contacts_joined_witness :
  domain_get_contacts (C := toy_crypto) store_tinf api_config_init 10
    ([], (sample_session, sample_transport, answering_world toy_contacts)) =
  Done tt ([mkContact 77 (-5) true [Byte.x41; Byte.x64; Byte.x61] []; mkContact 99 0 false [] []],
           answered toy_contacts_query 65536 toy_contacts).
Proof.
  refine (contacts_joined (C := toy_crypto) store_tinf api_config_init 10 [] _ _ [(77, true); (99, false)] 0
    toy_users [] _ _ _ _ _ _ _ _).
  - repeat constructor; by vm_compute.
  - by destruct toy_tables_ok as (_ & _ & _ & _ & _ & H).
  - apply (bool_decide_unpack _). by vm_compute.
  - apply (bool_decide_unpack _). by vm_compute.
  - lia.
  - by vm_compute.
  - by vm_compute.
  - apply answered_at. vm_cast_no_check (eq_refl true).
Defined.
