(* ===== verification/Progress.v ===== *)
(** * What goes on around a call

    A call uses up random bytes, readings of the clock and bytes that the
    peer has sent, and changes nothing else of the environment.  [tracks m]
    says this of [m], whether it succeeds or fails; [eats m], that a success
    of [m] takes bytes from the peer, which bounds the loops over calls. *)

From S2P Require Import Prelude TlSerial World MtprotoCrypto MtprotoSession Transport MtprotoRpc RpcCorrect.
From S2P Require Import ApiCall Request.

(** ** Worlds *)

(** The number of bytes that are still to come. *)
Definition incoming (w : World) : nat := length (n_in (w_net w)).

Definition went (w w' : World) : Prop :=
  w_rand w' = w_rand w /\ w_clock w' = w_clock w /\ (incoming w' <= incoming w)%nat.

#[global] Instance went_preorder : PreOrder went.
Proof.
  split; [done|]. intros w1 w2 w3 (? & ? & ?) (? & ? & ?). split_and!; [congruence|congruence|lia].
Qed.

(** The world is the last component of the state. *)
Class HasWorld (S : Type) := wld : S -> World.
#[global] Instance has_world : HasWorld World := id.
#[global] Instance has_world_snd {S T} `{HasWorld T} : HasWorld (S * T) := fun p => wld (snd p).

Section Tracks.
Context {S : Type} `{HW : HasWorld S}.

Definition tracks {A} (m : M S A) : Prop := forall st,
  match m st with
  | Done _ st' | Fail st' => went (wld st) (wld st')
  | Fault | NoFuel => True
  end.

Definition eats {A} (m : M S A) : Prop := forall st a st',
  m st = Done a st' -> (incoming (wld st') < incoming (wld st))%nat.

Lemma tracks_ret {A} (a : A) : tracks (mret a).
Proof. by intros st. Qed.

Lemma tracks_fail {A} : tracks (fail : M S A).
Proof. by intros st. Qed.

Lemma tracks_bind {A B} (m : M S A) (k : A -> M S B) :
  tracks m -> (forall a, tracks (k a)) -> tracks (m ≫= k).
Proof.
  intros Hm Hk st. specialize (Hm st). unfold mbind, M_bind.
  destruct (m st) as [a st1|st1| |]; try done. specialize (Hk a st1).
  destruct (k a st1) as [b st2|st2| |]; try done; by etransitivity.
Qed.

Lemma tracks_when (b : bool) (m : M S unit) : tracks m -> tracks (when b m).
Proof. by destruct b. Qed.

(** A computation that changes nothing of the environment. *)
Lemma tracks_same {A} (m : M S A) :
  (forall st, match m st with Done _ st' | Fail st' => wld st' = wld st | _ => True end) -> tracks m.
Proof. intros H st. specialize (H st). by destruct (m st); try done; rewrite H. Qed.

Lemma tracks_fits n cap : tracks (fits n cap).
Proof. intros st. unfold fits. by destruct (cap <? n). Qed.

Lemma tracks_reader {A} buf (m : Rd A) : tracks (with_reader buf m).
Proof. intros st. unfold with_reader. by destruct (m _). Qed.

Lemma tracks_query w max_len : tracks (take_query w max_len).
Proof. intros st. unfold take_query. by destruct (max_len <? _). Qed.

Lemma eats_first {A B} (m : M S A) (k : A -> M S B) :
  eats m -> (forall a, tracks (k a)) -> eats (m ≫= k).
Proof.
  intros Hm Hk st b st' E. apply run_inv in E as (a & st1 & E1 & E2). specialize (Hk a st1).
  rewrite E2 in Hk. destruct Hk as (_ & _ & Hk). apply Hm in E1. lia.
Qed.

Lemma eats_then {A B} (m : M S A) (k : A -> M S B) :
  tracks m -> (forall a, eats (k a)) -> eats (m ≫= k).
Proof.
  intros Hm Hk st b st' E. apply run_inv in E as (a & st1 & E1 & E2). specialize (Hm st).
  rewrite E1 in Hm. destruct Hm as (_ & _ & Hm). apply Hk in E2. lia.
Qed.

Lemma eats_fail {A} : eats (fail : M S A).
Proof. by intros st a st' E. Qed.

End Tracks.

(** ** Parts of a state *)

Lemma tracks_snd {S T A} `{HW : HasWorld T} (m : M T A) : tracks m -> tracks (S := S * T) (on_snd m).
Proof. intros Hm [s t]. specialize (Hm t). unfold on_snd. cbn [fst snd]. by destruct (m t). Qed.

Lemma eats_snd {S T A} `{HW : HasWorld T} (m : M T A) : eats m -> eats (S := S * T) (on_snd m).
Proof.
  intros Hm [s t] a [s' t'] E. unfold on_snd in E. cbn [fst snd] in E.
  destruct (m t) eqn:Em; try done. injection E as <- <- <-. by eapply Hm.
Qed.

Lemma tracks_ses {A} (m : SM A) : tracks m -> tracks (on_ses m).
Proof. intros Hm [[s t] w]. specialize (Hm (s, w)). unfold on_ses. by destruct (m (s, w)) as [a []|[]| |]. Qed.

Lemma tracks_tr {A} (m : TM A) : tracks m -> tracks (on_tr m).
Proof. intros Hm [[s t] w]. specialize (Hm (t, w)). unfold on_tr. by destruct (m (t, w)) as [a []|[]| |]. Qed.

Lemma eats_tr {A} (m : TM A) : eats m -> eats (on_tr m).
Proof.
  intros Hm [[s t] w] a st' E. unfold on_tr in E.
  destruct (m (t, w)) as [a1 [t1 w1]|[]| |] eqn:Em; try done. injection E as <- <-.
  exact (Hm _ _ _ Em).
Qed.

Lemma tracks_session {A} (m : M MtProtoSession A) : tracks (on_session m).
Proof. apply tracks_same. intros [[s t] w]. unfold on_session. by destruct (m s). Qed.

(** ** The layers *)

Lemma tracks_rand n : tracks (crypto_rand_bytes n).
Proof. by intros w. Qed.

Lemma tracks_padding n : tracks (mtproto_gen_padding n).
Proof. intros w. unfold mtproto_gen_padding. by destruct (0 <? _). Qed.

Lemma tracks_msg_id : tracks mtproto_session_next_msg_id.
Proof.
  intros [s w]. unfold mtproto_session_next_msg_id, modify_session, get_fst, put_fst, on_snd, time_now,
    crypto_rand_bytes, mret, M_ret, mbind, M_bind. cbn [fst snd]. done.
Qed.

Lemma tracks_seq_no c : tracks (mtproto_session_next_seq_no c).
Proof.
  intros [s w]. unfold mtproto_session_next_seq_no, modify_session, get_fst, put_fst, when, mret, M_ret,
    mbind, M_bind. by destruct c.
Qed.

(** Sending leaves alone what the peer has sent. *)
Lemma send_loop_in fuel data n :
  match send_loop fuel data n with Done _ n' | Fail n' => n_in n' = n_in n | _ => True end.
Proof.
  revert n. induction fuel as [|fuel IH]; intros n; [done|]. cbn [send_loop].
  unfold mbind, M_bind, sys_socket_send. destruct (n_send_evs n) as [|ev evs]; [done|].
  destruct ev as [k| |]; cbn [fst snd].
  - rewrite andb_false_r. done.
  - change ((-1 <? 0) && true) with true. cbv iota.
    match goal with |- context [send_loop fuel data ?n'] => specialize (IH n') end.
    by destruct (send_loop _ _ _).
  - done.
Qed.

Lemma send_retry_in data n :
  match send_retry data n with Done _ n' | Fail n' => n_in n' = n_in n | _ => True end.
Proof. apply send_loop_in. Qed.

Lemma send_all_in fuel data n :
  match send_all fuel data n with Done _ n' | Fail n' => n_in n' = n_in n | _ => True end.
Proof.
  revert data n. induction fuel as [|fuel IH]; intros data n; destruct data as [|b bs]; try done.
  cbn [send_all]. unfold mbind, M_bind. pose proof (send_retry_in (b :: bs) n) as H.
  destruct (send_retry _ n) as [sent n1|n1| |]; try done. destruct (sent <=? 0); [done|].
  specialize (IH (drop (Z.to_nat sent) (b :: bs)) n1).
  destruct (send_all _ _ n1); try done; congruence.
Qed.

Lemma tracks_send_net {T A} (m : M Net A) :
  (forall n, match m n with Done _ n' | Fail n' => n_in n' = n_in n | _ => True end) ->
  tracks (S := T * World) (on_snd (on_net m)).
Proof.
  intros Hm. apply tracks_snd. intros w. specialize (Hm (w_net w)). unfold on_net.
  destruct (m (w_net w)); try done; (split_and!; [done|done|]; unfold incoming; cbn; by rewrite Hm).
Qed.

Lemma tracks_send data : tracks (transport_send data).
Proof.
  unfold transport_send. apply tracks_bind; [by apply tracks_same; intros []|]. intros t.
  destruct (_ || _); [apply tracks_fail|]. destruct (negb _); [apply tracks_fail|].
  apply tracks_bind; [apply tracks_send_net, send_retry_in|]. intros n.
  destruct (negb _); [apply tracks_fail|]. apply tracks_send_net, send_all_in.
Qed.

Lemma unframe_shorter inp payload rest :
  unframe inp = Some (payload, rest) -> (length rest < length inp)%nat.
Proof.
  unfold unframe. destruct inp as [|b bs]; [done|]. repeat case_match; intros; simplify_eq;
    rewrite ?length_drop; cbn [length] in *; lia.
Qed.

Lemma recv_incoming max_len t w :
  match transport_recv max_len (t, w) with
  | Done _ (_, w') => went w w' /\ (incoming w' < incoming w)%nat
  | Fail (_, w') => went w w'
  | _ => True
  end.
Proof.
  pose proof (transport_recv_at max_len t w) as H.
  destruct (transport_recv max_len (t, w)) as [p [t' w']|[t' w']| |]; try done.
  - destruct H as (_ & Hw & _ & _ & _ & Hu). apply unframe_shorter in Hu. rewrite Hw in *. cbn in Hu.
    unfold went, incoming. cbn. split_and!; try done; lia.
  - destruct H as (_ & Hw & p & Hp). rewrite Hw. unfold went, incoming. cbn.
    rewrite Hp, length_app. split_and!; try done; lia.
Qed.

Lemma tracks_recv max_len : tracks (transport_recv max_len).
Proof.
  intros [t w]. pose proof (recv_incoming max_len t w) as H.
  destruct (transport_recv _ _) as [? []|[]| |]; try done. by destruct H.
Qed.

Lemma eats_recv max_len : eats (transport_recv max_len).
Proof.
  intros [t w] a [t' w'] E. pose proof (recv_incoming max_len t w) as H. rewrite E in H. apply H.
Qed.

Create HintDb tracking.
#[export] Hint Resolve tracks_ret tracks_fail tracks_when tracks_fits tracks_reader tracks_query tracks_snd
  tracks_ses tracks_tr tracks_session tracks_rand tracks_padding tracks_msg_id tracks_seq_no
  tracks_send tracks_recv : tracking.

(** Along the syntax of a computation. *)
Ltac tracks_tac :=
  repeat first
    [ progress cbn zeta
    | apply tracks_bind; [|intros ?]
    | match goal with
      | |- tracks (if ?b then _ else _) => destruct b
      | |- tracks (match ?x with _ => _ end) => destruct x
      end
    | solve [auto with tracking]
    | apply tracks_same; by intros [] ].

Section Calls.
Context `{C : Crypto} (tinf : Z -> list byte -> option (list byte)).

Lemma tracks_encrypt p k x : tracks (mtproto_encrypt p k x).
Proof. unfold mtproto_encrypt. tracks_tac. Qed.
#[local] Hint Resolve tracks_encrypt : tracking.

Lemma tracks_send_encrypted data c : tracks (rpc_send_encrypted data c).
Proof. unfold rpc_send_encrypted, get_session. tracks_tac. Qed.

Lemma tracks_recv_encrypted max_len : tracks (rpc_recv_encrypted max_len).
Proof. unfold rpc_recv_encrypted, get_session. tracks_tac. Qed.

Lemma eats_recv_encrypted max_len : eats (rpc_recv_encrypted max_len).
Proof.
  unfold rpc_recv_encrypted, get_session. apply eats_then; [tracks_tac|]. intros s.
  destruct (negb _); [apply eats_fail|]. apply eats_first; [apply eats_tr, eats_recv|]. intros buf.
  tracks_tac.
Qed.
#[local] Hint Resolve tracks_send_encrypted tracks_recv_encrypted : tracking.

Lemma tracks_drain n : tracks (drain n).
Proof. induction n as [|n IH]; cbn [drain]; tracks_tac. Qed.

Lemma eats_drain n : eats (drain n).
Proof.
  destruct n as [|n]; cbn [drain]; [apply eats_fail|]. apply eats_first; [apply eats_recv_encrypted|].
  intros raw. pose proof (tracks_drain n). tracks_tac.
Qed.
#[local] Hint Resolve tracks_drain : tracking.

Lemma tracks_call_once cfg q n : tracks (api_call_once tinf cfg q n).
Proof. unfold api_call_once. tracks_tac. Qed.

Lemma eats_call_once cfg q n : eats (api_call_once tinf cfg q n).
Proof.
  unfold api_call_once. destruct (api_wrap_query _ _ _); [|apply eats_fail].
  apply eats_then; [tracks_tac|]. intros _. apply eats_first; [apply eats_drain|]. intros raw. tracks_tac.
Qed.
#[local] Hint Resolve tracks_call_once : tracking.

Lemma tracks_call cfg q n : tracks (api_call tinf cfg q n).
Proof. unfold api_call. tracks_tac. Qed.

Lemma eats_call cfg q n : eats (api_call tinf cfg q n).
Proof. unfold api_call. apply eats_first; [apply eats_call_once|]. intros r. tracks_tac. Qed.

Context {X : Type}.

Lemma tracks_call_api cfg q n : tracks (call_api (X := X) tinf cfg q n).
Proof. apply tracks_snd, tracks_call. Qed.

Lemma eats_call_api cfg q n : eats (call_api (X := X) tinf cfg q n).
Proof. apply eats_snd, eats_call. Qed.

Lemma tracks_upd {W} `{HW : HasWorld W} (f : X -> X) : tracks (upd_ctx (W := W) f).
Proof. by intros []. Qed.

Lemma tracks_get {W} `{HW : HasWorld W} : tracks (get_fst : M (X * W) X).
Proof. by intros []. Qed.

Lemma tracks_check {W} `{HW : HasWorld W} on_error expected resp :
  tracks (S := X * W) (check_top on_error expected resp).
Proof. unfold check_top. pose proof @tracks_upd. tracks_tac. Qed.

Lemma tracks_parser {W A} `{HW : HasWorld W} buf (m : Px X A) : tracks (S := X * W) (with_parser buf m).
Proof. intros [x st]. unfold with_parser. cbn [fst snd]. by destruct (m _). Qed.

End Calls.

#[export] Hint Resolve tracks_call tracks_call_api tracks_upd tracks_get tracks_check tracks_parser : tracking.
