(* ===== verification/Machine.v ===== *)
(** * Data centres and the process (src/app/dc_config.c)

    The compiled-in table of endpoints, the overrides of hosts from the
    configuration, the redirect by two environment variables, and the lookup;
    then what a function has that uses several connections and files. *)

From Stdlib Require Import String.
From S2P Require Import Prelude CLib World MtprotoSession Transport MtprotoRpc FileSys.

#[local] Open Scope Z_scope.

Record DcEndpoint := mkEndpoint { ep_id : Z; ep_host : list byte; ep_port : Z }.

Definition DC_ID_MAX : Z := 5.
Definition DEFAULT_DC_ID : Z := 2.

Definition ENDPOINTS : list DcEndpoint := [
  mkEndpoint 1 (ascii "149.154.175.50") 443;
  mkEndpoint 2 (ascii "149.154.167.50") 443;
  mkEndpoint 3 (ascii "149.154.175.100") 443;
  mkEndpoint 4 (ascii "149.154.167.91") 443;
  mkEndpoint 5 (ascii "91.108.56.130") 443].

(** The static array of DC_ID_MAX overrides, and what [getenv] returns for
    TG_CLI_DC_HOST and TG_CLI_DC_PORT. *)
Record DcConfig := mkDcConfig {
  host_overrides : list (option (list byte));
  env_host : option (list byte);
  env_port : option (list byte);
}.

Definition dc_config_init (host port : option (list byte)) : DcConfig :=
  mkDcConfig (replicate (Z.to_nat DC_ID_MAX) None) host port.

(** [p && *p] *)
Definition non_empty (s : option (list byte)) : option (list byte) :=
  match s with Some (b :: l) => Some (b :: l) | _ => None end.

Definition dc_config_set_host_override (dc_id : Z) (host : option (list byte)) (c : DcConfig) : DcConfig :=
  if (dc_id <? 1) || (DC_ID_MAX <? dc_id) then c
  else mkDcConfig (<[Z.to_nat (dc_id - 1) := non_empty host]> (host_overrides c)) (env_host c) (env_port c).

(** The loops over the table. *)
Definition builtin (abs_id : Z) : option DcEndpoint :=
  List.find (fun e => ep_id e =? abs_id) ENDPOINTS.

(** [atoi], and the value of [dc_id] as an [int]: the negation of the least
    one, which C leaves undefined, names no data centre here. *)
Definition atoi (s : list byte) : Z := s32 (fst (strtol s)).

Definition host_override (c : DcConfig) (abs_id : Z) : option (list byte) :=
  if (1 <=? abs_id) && (abs_id <=? DC_ID_MAX) then mjoin (host_overrides c !! Z.to_nat (abs_id - 1)) else None.

Definition dc_lookup (c : DcConfig) (dc_id : Z) : option DcEndpoint :=
  let abs_id := if dc_id =? 0 then DEFAULT_DC_ID else if dc_id <? 0 then - dc_id else dc_id in
  match non_empty (env_host c), non_empty (env_port c) with
  | Some host, Some port => Some (mkEndpoint dc_id host (atoi port))
  | _, _ =>
      match host_override c abs_id, builtin abs_id with
      | Some host, Some e => Some (mkEndpoint dc_id host (ep_port e))
      | _, e => (fun e => mkEndpoint dc_id (ep_host e) (ep_port e)) <$> e
      end
  end.

(** ** What it promises *)

Definition config_ok (c : DcConfig) : Prop := length (host_overrides c) = Z.to_nat DC_ID_MAX.

Lemma set_override_ok dc host c : config_ok c -> config_ok (dc_config_set_host_override dc host c).
Proof.
  unfold config_ok, dc_config_set_host_override. intros H. destruct (_ || _); [done|]. cbn.
  by rewrite length_insert.
Qed.

Lemma builtin_known id : is_Some (builtin id) <-> 1 <= id <= DC_ID_MAX.
Proof.
  unfold DC_ID_MAX. split.
  - intros [e He]. unfold builtin in He. apply List.find_some in He as [Hin He]. bool_prop. subst id.
    unfold ENDPOINTS in Hin. cbn [In] in Hin.
    repeat (destruct Hin as [<-|Hin]; [cbn; lia|]). done.
  - intros H. assert (id = 1 \/ id = 2 \/ id = 3 \/ id = 4 \/ id = 5) by lia.
    destruct H0 as [->|[->|[->|[->| ->]]]]; by eexists.
Qed.

(** Without a redirect the known data centres are the five, negative for the
    test servers, and 0 for the default one. *)
Lemma dc_lookup_known c id : non_empty (env_host c) = None \/ non_empty (env_port c) = None ->
  is_Some (dc_lookup c id) <-> - DC_ID_MAX <= id <= DC_ID_MAX.
Proof.
  intros He. unfold dc_lookup. set (abs_id := if id =? 0 then _ else _).
  assert (Hb : is_Some (builtin abs_id) <-> - DC_ID_MAX <= id <= DC_ID_MAX).
  { rewrite builtin_known. unfold abs_id, DEFAULT_DC_ID, DC_ID_MAX.
    destruct (Z.eqb_spec id 0), (Z.ltb_spec id 0); lia. }
  rewrite <- Hb. clearbody abs_id.
  destruct (non_empty (env_host c)), (non_empty (env_port c)); destruct He as [He|He]; try done;
    destruct (host_override c abs_id), (builtin abs_id); cbn; split; intros [e ?]; by try eexists.
Qed.

(** An override changes the host of its data centre and nothing else. *)
Lemma dc_lookup_override c dc host id :
  config_ok c -> 1 <= dc <= DC_ID_MAX -> - DC_ID_MAX <= id <= DC_ID_MAX ->
  non_empty (env_host c) = None \/ non_empty (env_port c) = None ->
  dc_lookup (dc_config_set_host_override dc (Some host) c) id =
    if (Z.abs id =? dc) || (id =? 0) && (dc =? DEFAULT_DC_ID) then
      match non_empty (Some host), builtin dc with
      | Some h, Some e => Some (mkEndpoint id h (ep_port e))
      | None, Some e => Some (mkEndpoint id (ep_host e) (ep_port e))
      | _, None => None
      end
    else dc_lookup c id.
Proof.
  intros Hc Hdc Hid He. unfold dc_lookup.
  set (abs_id := if id =? 0 then _ else _).
  assert (Habs : 1 <= abs_id <= DC_ID_MAX).
  { unfold abs_id, DEFAULT_DC_ID, DC_ID_MAX in *. destruct (Z.eqb_spec id 0), (Z.ltb_spec id 0); lia. }
  assert (Hcond : (Z.abs id =? dc) || (id =? 0) && (dc =? DEFAULT_DC_ID) = (abs_id =? dc)).
  { apply eq_true_iff_eq. rewrite orb_true_iff, andb_true_iff, !Z.eqb_eq.
    unfold abs_id, DEFAULT_DC_ID, DC_ID_MAX in *.
    destruct (Z.eqb_spec id 0), (Z.ltb_spec id 0); lia. }
  rewrite Hcond. clearbody abs_id. clear Hcond.
  assert (Hov : host_override (dc_config_set_host_override dc (Some host) c) abs_id =
                if abs_id =? dc then non_empty (Some host) else host_override c abs_id).
  { unfold host_override, dc_config_set_host_override.
    rewrite (proj2 (Z.leb_le 1 _)), (proj2 (Z.leb_le _ DC_ID_MAX)), (proj2 (Z.ltb_ge dc 1)),
      (proj2 (Z.ltb_ge _ dc)) by lia. cbn [andb orb host_overrides].
    destruct (Z.eqb_spec abs_id dc) as [->|Hne].
    - rewrite list_lookup_insert_eq; [by destruct (non_empty _)|]. rewrite Hc. unfold DC_ID_MAX in *. lia.
    - rewrite list_lookup_insert_ne by lia. done. }
  rewrite Hov. unfold dc_config_set_host_override.
  rewrite (proj2 (Z.ltb_ge dc 1)), (proj2 (Z.ltb_ge _ dc)) by lia. cbn [orb env_host env_port].
  destruct (Z.eqb_spec abs_id dc) as [->|Hne]; [|done].
  destruct (non_empty (env_host c)), (non_empty (env_port c)); destruct He as [He|He]; try done;
    destruct (non_empty (Some host)), (builtin dc); done.
Qed.

(** * One process: connections, files, time

    The login flow and the transfer of media use several connections and the
    file system.  [Machine] is what such a function has besides the caller's
    connection: the file system with what the kernel will decide about the
    calls to come, and what the next connections will be like. *)

(** Behind the end of [m_ds] file system calls proceed.  [m_dial ep n] is the
    socket that the [n]-th connection gets when it goes to [ep]; [m_dials] are
    the endpoints so far. *)
Record Machine := mkMachine {
  m_fs : FS;
  m_ds : list decision;
  m_dial : DcEndpoint -> nat -> Net;
  m_dials : list DcEndpoint;
  m_config : DcConfig;
}.

Abbreviation Conn := (MtProtoSession * Transport * World)%type.

(** A function of the process with objects [X] of the caller. *)
Abbreviation Fx X := (M ((X * Machine) * Conn)).

(** ** Files *)

Definition next_decision (ds : list decision) : decision * list decision :=
  match ds with [] => (DOk, []) | d :: ds => (d, ds) end.

Fixpoint exec_prog {A} (p : prog A) (fs : FS) (ds : list decision) : A * FS * list decision :=
  match p with
  | Ret a => (a, fs, ds)
  | Sys c k =>
      let '(d, ds) := next_decision ds in
      let '(r, fs) := exec d c fs in exec_prog (k r) fs ds
  end.

Definition set_files (fs : FS) (ds : list decision) (m : Machine) : Machine :=
  mkMachine fs ds (m_dial m) (m_dials m) (m_config m).

Definition files {X A} (p : prog A) : Fx X A := fun '((x, m), c) =>
  let '(a, fs, ds) := exec_prog p (m_fs m) (m_ds m) in
  Done a ((x, set_files fs ds m), c).

(** ** Connections *)

(** The socket that [transport_connect] gets. *)
Definition new_socket {X} (ep : DcEndpoint) : Fx X unit := fun '((x, m), (s, t, w)) =>
  Done tt ((x, mkMachine (m_fs m) (m_ds m) (m_dial m) (m_dials m ++ [ep]) (m_config m)),
           (s, t, set_net w (m_dial m ep (length (m_dials m))))).

Definition dial {X} (ep : DcEndpoint) : Fx X unit := new_socket ep ;; on_snd (on_tr transport_connect).

Definition set_transport_dc v (t : Transport) : Transport := mkTransport (fd t) v (connected t).

Definition put_dc_id {X} (v : Z) : Fx X unit := on_snd (on_tr (modify_transport (set_transport_dc v))).

Definition close {X} : Fx X unit := on_snd (on_tr transport_close).

Definition lookup {X} (dc_id : Z) : Fx X (option DcEndpoint) := fun st =>
  Done (dc_lookup (m_config (snd (fst st))) dc_id) st.

(** ** Objects and failures *)

Definition obj {X} : Fx X X := fun st => Done (fst (fst st)) st.
Definition upd_obj {X} (f : X -> X) : Fx X unit := fun '((x, m), c) => Done tt ((f x, m), c).

(** [if (f(..) != 0)]: whether [m] succeeded. *)
Definition succeeded {S A} (m : M S A) : M S bool := fun st =>
  match m st with
  | Done _ st => Done true st
  | Fail st => Done false st
  | Fault => Fault
  | NoFuel => NoFuel
  end.

(** The same with the result of [m]. *)
Definition succeeded_with {S A} (m : M S A) : M S (option A) := fun st =>
  match m st with
  | Done a st => Done (Some a) st
  | Fail st => Done None st
  | Fault => Fault
  | NoFuel => NoFuel
  end.

(** A call with a local object [x]: the result, [None] for [-1], and what the
    object holds afterwards. *)
Definition local_call {Y X A} (x : Y) (m : M (Y * Conn) A) : Fx X (option A * Y) := fun '(xm, c) =>
  match m (x, c) with
  | Done a (x, c) => Done (Some a, x) (xm, c)
  | Fail (x, c) => Done (None, x) (xm, c)
  | Fault => Fault
  | NoFuel => NoFuel
  end.

(** Run [m], then [h], whatever [m] does ([RAII_FILE]). *)
Definition finally {X A} (m : Fx X A) (h : Fx X unit) : Fx X A := fun st =>
  match m st with
  | Done a st => (h ;; mret a) st
  | Fail st => (h ;; fail) st
  | Fault => Fault
  | NoFuel => NoFuel
  end.

(** A call and the check of its answer on behalf of the caller's object. *)
Definition on_answer {X A} (m : M (X * Conn) A) : Fx X A := fun '((x, mc), c) =>
  match m (x, c) with
  | Done a (x, c) => Done a ((x, mc), c)
  | Fail (x, c) => Fail ((x, mc), c)
  | Fault => Fault
  | NoFuel => NoFuel
  end.

(** A call with a local object, on the same connection. *)
Definition with_obj {Y X A} (y : Y) (m : Fx Y A) : Fx X (option A * Y) := fun '((x, mc), c) =>
  match m ((y, mc), c) with
  | Done a ((y, mc), c) => Done (Some a, y) ((x, mc), c)
  | Fail ((y, mc), c) => Done (None, y) ((x, mc), c)
  | Fault => Fault
  | NoFuel => NoFuel
  end.

(** A redirect is stored for the caller, every other error dropped. *)
Definition keep_migrate (e : RpcError) (wrong_dc : Z) : Z :=
  if 0 <? migrate_dc e then migrate_dc e else wrong_dc.
