(* ===== verification/AuthFlow.v ===== *)
(** * The login flow (src/app/auth_flow.c)

    Connecting to a data centre with a fresh authorization key, moving to
    another one, and the whole login: the saved session, the code with
    redirects, the sign-in, the second factor, and saving the session. *)

From Stdlib Require Import String.
From S2P Require Import Prelude CLib World MtprotoSession Transport MtprotoRpc ApiCall Request.
From S2P Require Import BigNum ServerKey MtprotoAuth FileSys SessionStore Login Auth2fa Machine.

#[local] Open Scope Z_scope.

Definition CRC_codeTypeSms : Z := 0x72a3158c.

Definition AUTH_MAX_MIGRATIONS : nat := 3.

(** What the three callbacks answer, [None] for a failure; each is called at
    most once.  [get_password] is optional. *)
Record AuthFlowCallbacks := mkCallbacks {
  get_phone : option (list byte);
  get_code : option (list byte);
  get_password : option (option (list byte));
}.

(** The caller's object. *)
Record AuthFlowResult := mkFlow { fl_dc_id : Z; fl_user_id : Z; needs_password : bool }.

Definition flow_zero : AuthFlowResult := mkFlow 0 0 false.
Definition set_flow dc uid (r : AuthFlowResult) : AuthFlowResult := mkFlow dc uid (needs_password r).
Definition set_needs (r : AuthFlowResult) : AuthFlowResult := mkFlow (fl_dc_id r) (fl_user_id r) true.

Definition sent_zero : AuthSentCode := mkSentCode [] 0 0 0.

Section Flow.
Context `{C : Crypto} `{R : Rsa} `{K : Kdf} (server_key : ServerKeyState).
Context (malloc_bytes : nat -> list byte) (tinf : Z -> list byte -> option (list byte)).
Context (cfg : ApiConfig).

Definition session_init {X} : Fx X unit := on_snd (on_ses mtproto_session_init).
Definition this_session {X} : Fx X MtProtoSession := fun st => Done (fst (fst (snd st))) st.
Definition put_session {X} (s : MtProtoSession) : Fx X unit := on_snd (on_ses (put_fst s)).

(** ** Connecting *)

Definition connect_dc_ex {X} (phys_dc dh_dc : Z) : Fx X unit :=
  ep ← lookup phys_dc;
  match ep with
  | None => fail
  | Some ep =>
      dial ep ;;
      put_dc_id dh_dc ;;
      ok ← succeeded (on_snd (mtproto_auth_key_gen server_key malloc_bytes));
      if negb (ok : bool) then close ;; fail else put_dc_id phys_dc
  end.

Definition auth_flow_connect_dc {X} (dc_id : Z) : Fx X unit := connect_dc_ex dc_id dc_id.

Definition migrate {X} (new_dc dh_dc : Z) : Fx X unit :=
  close ;;
  session_init ;;
  connect_dc_ex new_dc dh_dc.

Definition migrate_soft {X} (new_dc : Z) : Fx X unit :=
  close ;;
  ep ← lookup new_dc;
  match ep with
  | None => fail
  | Some ep => dial ep ;; put_dc_id new_dc
  end.

(** ** The login *)

(** A persisted session: whether it is usable.  It gets a new session id, and
    is dropped when the connection cannot be made. *)
Definition restore_session : Fx AuthFlowResult bool :=
  session_init ;;
  s ← this_session;
  saved ← files (session_store_load s);
  match saved with
  | None => mret false
  | Some (s, saved_dc) =>
      put_session s ;;
      if negb (has_auth_key s) then mret false
      else
        on_snd (on_ses mtproto_session_renew_id) ;;
        ep ← lookup saved_dc;
        ok ← match ep with Some ep => succeeded (dial ep) | None => mret false end;
        if ok : bool then
          put_dc_id saved_dc ;;
          upd_obj (set_flow saved_dc 0) ;;
          mret true
        else
          match ep with Some _ => close | None => mret tt end ;;
          session_init ;;
          mret false
  end.

Definition migration_target (current_dc dc : Z) : Z := if current_dc <? 0 then - dc else dc.

(** auth.sendCode with [quota] redirects to go; the code, the data centre and
    the redirects that are left. *)
Fixpoint send_code_loop {X} (quota : nat) (phone : list byte) (current_dc : Z) (sent : AuthSentCode)
    : Fx X (AuthSentCode * Z * nat) :=
  r ← local_call (sent, no_error) (auth_send_code tinf cfg phone);
  let '(rc, (sent, err)) := r in
  match rc, quota with
  | Some tt, _ => mret (sent, current_dc, quota)
  | None, S quota =>
      if 0 <? migrate_dc err then
        let target := migration_target current_dc (migrate_dc err) in
        ok ← succeeded (migrate target target);
        if ok : bool then send_code_loop quota phone target sent
        else migrate_soft target ;; send_code_loop quota phone target sent
      else fail
  | None, O => fail
  end.

(** A code that went to another client is sent again when a text message is
    next; it does not matter when that fails. *)
Definition resend_by_sms {X} (phone : list byte) (sent : AuthSentCode) : Fx X AuthSentCode :=
  if (code_type sent =? CRC_auth_sentCodeTypeApp) && (next_type sent =? CRC_codeTypeSms) then
    r ← local_call (sent, no_error) (auth_resend_code tinf cfg phone);
    mret (fst (snd r))
  else mret sent.

(** The second factor. *)
Definition password_login (cb : AuthFlowCallbacks) : Fx AuthFlowResult Z :=
  upd_obj set_needs ;;
  match get_password cb with
  | None => fail
  | Some answer =>
      r ← local_call (password_zero, mkError 0 [] 0 0) (auth_2fa_get_password tinf cfg);
      let '(rc, (params, _)) := r in
      match rc with
      | None => fail
      | Some _ =>
          if negb (has_password params) then fail
          else
            match answer with
            | None => fail
            | Some pwd =>
                r ← local_call (0, mkError 0 [] 0 0) (auth_2fa_check_password tinf cfg params pwd);
                match fst r with Some _ => mret (fst (snd r)) | None => fail end
            end
      end
  end.

Definition SESSION_PASSWORD_NEEDED : list byte := ascii "SESSION_PASSWORD_NEEDED".

(** auth.signIn, the registration of a new account, the second factor; a
    redirect at this point is followed, but the login fails.  The loop of the
    source has no second round. *)
Definition sign_in (cb : AuthFlowCallbacks) (quota : nat) (phone hash code : list byte) (current_dc : Z)
    : Fx AuthFlowResult Z :=
  r ← local_call (mkSignIn 0 0, no_error) (auth_sign_in tinf cfg phone hash code);
  let '(rc, (o, err)) := r in
  match rc with
  | Some _ => mret (user_id_out o)
  | None =>
      if negb (signup_required o =? 0) then
        r ← local_call (o, mkError 0 [] 0 0)
              (auth_sign_up tinf cfg phone hash (ascii "Test") (Some (ascii "Account")));
        match fst r with Some _ => mret (user_id_out (fst (snd r))) | None => fail end
      else if (0 <? migrate_dc err) && (0 <? quota)%nat then
        let target := migration_target current_dc (migrate_dc err) in
        migrate target target ;; fail
      else if str_eq (error_msg err) SESSION_PASSWORD_NEEDED then password_login cb
      else fail
  end.

Definition auth_flow_login (cb : AuthFlowCallbacks) : Fx AuthFlowResult unit :=
  upd_obj (fun _ => flow_zero) ;;
  restored ← restore_session;
  if restored : bool then mret tt
  else
    let current_dc := if start_dc_set cfg =? 0 then DEFAULT_DC_ID else start_dc cfg in
    connect_dc_ex current_dc current_dc ;;
    match get_phone cb with
    | None => fail
    | Some phone =>
        r ← send_code_loop AUTH_MAX_MIGRATIONS phone current_dc sent_zero;
        let '(sent, current_dc, quota) := r in
        sent ← resend_by_sms phone sent;
        match get_code cb with
        | None => fail
        | Some code =>
            uid ← sign_in cb quota phone (phone_code_hash sent) code current_dc;
            upd_obj (set_flow current_dc uid) ;;
            s ← this_session;
            files (session_store_save s current_dc) ;;
            mret tt
        end
    end.

End Flow.
