(* ===== verification/DcSession.v ===== *)
(** * Sessions with other data centres (src/app/dc_session.c)

    Opening a session with a data centre that is not the home one, from its
    saved key or by a new key exchange, and bringing the authorization of the
    home session to it. *)

From S2P Require Import Prelude World MtprotoSession Transport MtprotoRpc ApiCall Request.
From S2P Require Import BigNum ServerKey MtprotoAuth FileSys SessionStore Login Auth2fa Machine AuthFlow.

#[local] Open Scope Z_scope.

(** [x_net] is the socket behind the descriptor of the transport. *)
Record DcSession := mkDcSession {
  x_dc_id : Z;
  x_session : MtProtoSession;
  x_transport : Transport;
  x_authorized : bool;
  x_net : Net;
}.

Definition set_authorized v (d : DcSession) : DcSession :=
  mkDcSession (x_dc_id d) (x_session d) (x_transport d) v (x_net d).
Definition set_x_conn s t n (d : DcSession) : DcSession :=
  mkDcSession (x_dc_id d) s t (x_authorized d) n.

Definition no_socket : Net := mkNet [] [] [] [] (-1) (-1).

(** [memset(out, 0, ..); out->dc_id = dc_id;] *)
Definition dc_session_zero (dc_id : Z) : DcSession :=
  mkDcSession dc_id session_zero (mkTransport 0 0 false) false no_socket.

(** Run [m] on the connection of the session; the caller's connection is kept,
    time and randomness go on.  The result is [None] when [m] fails. *)
Definition abroad {X A} (d : DcSession) (m : Fx X A) : Fx X (option A * DcSession) :=
  fun '(xm, (hs, ht, w)) =>
  let back a xm s t w' :=
    Done (a, set_x_conn s t (w_net w') d) (xm, (hs, ht, set_net w' (w_net w))) in
  match m (xm, (x_session d, x_transport d, set_net w (x_net d))) with
  | Done a (xm, (s, t, w')) => back (Some a) xm s t w'
  | Fail (xm, (s, t, w')) => back None xm s t w'
  | Fault => Fault
  | NoFuel => NoFuel
  end.

Section DcSession.
Context `{C : Crypto} `{R : Rsa} (server_key : ServerKeyState).
Context (malloc_bytes : nat -> list byte) (tinf : Z -> list byte -> option (list byte)).
Context (cfg : ApiConfig).

(** The saved key, if there is one and its endpoint answers; its new session
    is taken for authorized. *)
Definition reuse_key {X} (dc_id : Z) : Fx X bool :=
  s ← this_session;
  saved ← files (session_store_load_dc dc_id s);
  match saved with
  | None => mret false
  | Some s =>
      put_session s ;;
      ep ← lookup dc_id;
      ok ← match ep with Some ep => succeeded (dial ep) | None => mret false end;
      if ok : bool then put_dc_id dc_id ;; mret true
      else close ;; session_init ;; mret false
  end.

(** [dc_session_open] on the connection of the new session; whether it is
    authorized. *)
Definition open_dc {X} (dc_id : Z) : Fx X bool :=
  on_snd (on_tr transport_init) ;;
  session_init ;;
  reused ← reuse_key dc_id;
  if reused : bool then mret true
  else
    auth_flow_connect_dc server_key malloc_bytes dc_id ;;
    s ← this_session;
    files (session_store_save_dc dc_id s) ;;
    mret false.

Definition dc_session_open {X} (dc_id : Z) : Fx X DcSession :=
  r ← abroad (dc_session_zero dc_id) (open_dc dc_id);
  match r with
  | (Some authorized, d) => mret (set_authorized authorized d)
  | (None, _) => fail
  end.

Definition dc_session_ensure_authorized {X} (d : DcSession) : Fx X DcSession :=
  if x_authorized d then mret d
  else
    r ← local_call (mkExported 0 [], mkError 0 [] 0 0) (auth_transfer_export tinf cfg (x_dc_id d));
    match r with
    | (None, _) => fail
    | (Some _, (tok, _)) =>
        r ← abroad d (local_call (mkError 0 [] 0 0) (auth_transfer_import tinf cfg tok));
        match r with
        | (Some (Some _, _), d) =>
            files (session_store_save_dc (x_dc_id d) (x_session d)) ;;
            mret (set_authorized true d)
        | _ => fail
        end
    end.

Definition dc_session_close {X} (d : DcSession) : Fx X DcSession :=
  r ← abroad d close;
  mret (snd r).

End DcSession.
