(* ===== verification/ProcessLogic.v ===== *)
(** * A logic for functions of the process

    [fx_safe rnd m Q]: whatever the server, the network and the kernel do,
    [m] ends inside its buffers, leaves a well-formed session, takes its
    random bytes from the stream [rnd], and its result satisfies [Q].  The
    rules are per construct; [fx_tac] applies them along the syntax.  Below
    them are the safety of the login flow and of sessions with other data
    centres. *)

From S2P Require Import Prelude TlSerial World MtprotoCrypto MtprotoSession Transport MtprotoRpc RpcCorrect.
From S2P Require Import ApiCall ApiCorrect Request.
From S2P Require Import CallLogic BigNum ServerKey MtprotoAuth AuthCorrect AuthSafe FileSys SessionStore.
From S2P Require Import StoreTheorems Login Auth2fa LoginCorrect Progress Machine AuthFlow DcSession.

#[local] Open Scope Z_scope.

(** ** Results of programs

    Whatever the calls return, the result of [p] satisfies [P]. *)

Fixpoint returns {A} (P : A -> Prop) (p : prog A) : Prop :=
  match p with
  | Ret a => P a
  | Sys c k => forall r, returns P (k r)
  end.

Lemma returns_any {A} (p : prog A) : returns any_result p.
Proof. by induction p. Qed.

Lemma returns_bind {A B} (P : A -> Prop) (Q : B -> Prop) p (k : A -> prog B) :
  returns P p -> (forall a, P a -> returns Q (k a)) -> returns Q (p ≫= k).
Proof.
  intros Hp Hk. induction p as [a|R c h IH]; [by apply Hk|]. intros r. apply IH, Hp.
Qed.

Lemma exec_returns {A} (P : A -> Prop) p fs ds : returns P p -> P (fst (fst (exec_prog p fs ds))).
Proof.
  revert fs ds. induction p as [a|R c k IH]; intros fs ds H; [done|]. cbn [exec_prog].
  destruct (next_decision ds) as [d ds']. destruct (exec d c fs) as [r fs']. by apply IH.
Qed.

(** A step whose result does not matter. *)
Lemma returns_then {A B} (Q : B -> Prop) (p : prog A) (k : A -> prog B) :
  (forall a, returns Q (k a)) -> returns Q (p ≫= k).
Proof. intros Hk. apply (returns_bind any_result); [apply returns_any|auto]. Qed.

Ltac returns_tac :=
  repeat match goal with
  | |- returns _ (_ ≫= _) => apply returns_then; intros ?
  | |- returns _ (match ?x with _ => _ end) => destruct x eqn:?
  | |- returns _ (mret _) => cbn
  end.

Lemma read_file_returns :
  returns (fun rc => match rc with RcOk st => store_ok st | _ => True end) read_file_locked.
Proof. unfold read_file_locked. returns_tac; try done.
  destruct (parse_store _) eqn:E; [by eapply parse_store_ok|done].
Qed.

Lemma read_shared_returns : returns (fun o => match o with Some st => store_ok st | None => True end) read_shared.
Proof.
  unfold read_shared. apply returns_then; intros path. destruct (negb path); [done|].
  apply returns_then; intros [fd|]; [|done].
  eapply returns_bind; [apply read_file_returns|]. intros rc Hrc. apply returns_then. intros _. by destruct rc.
Qed.

(** A loaded session is well-formed and has a key. *)
Definition keyed (s : MtProtoSession) : Prop := session_wf s /\ has_auth_key s = true.

Lemma apply_entry_keyed st i e s : store_ok st -> entries st !! i = Some e -> keyed (apply_entry e s).
Proof.
  intros (_ & _ & _ & Hall & _) He. apply (Forall_lookup_1 _ _ _ _ Hall) in He as (_ & Hs & Hi & Hk).
  split; [|done]. unfold session_wf, is_u32, is_u64 in *. cbn. split_and!; try done; lia.
Qed.

Lemma load_returns s : returns (fun o => match o with Some (s, _) => keyed s | None => True end)
  (session_store_load s).
Proof.
  unfold session_store_load. eapply returns_bind; [apply read_shared_returns|]. intros [st|] Hst; [|done].
  cbn. destruct (_ || _); [done|]. destruct (find_entry st _) as [i|]; [|done]. cbn.
  destruct (entries st !! i) as [e|] eqn:He; [|done]. by eapply apply_entry_keyed.
Qed.

Lemma load_dc_returns dc s : returns (fun o => match o with Some s => keyed s | None => True end)
  (session_store_load_dc dc s).
Proof.
  unfold session_store_load_dc. eapply returns_bind; [apply read_shared_returns|]. intros [st|] Hst; [|done].
  cbn. destruct (find_entry st _) as [i|]; [|done]. cbn.
  destruct (entries st !! i) as [e|] eqn:He; [|done]. by eapply apply_entry_keyed.
Qed.

(** Files, when the outcome of the program is known. *)
Lemma files_at {X A} (p : prog A) (x : X) m (c : Conn) a fs ds :
  exec_prog p (m_fs m) (m_ds m) = (a, fs, ds) -> files p ((x, m), c) = Done a ((x, set_files fs ds m), c).
Proof. intros E. unfold files. by rewrite E. Qed.

(** ** The judgement and its rules *)

(** [Q] of a result that may be missing. *)
Definition opt {A : Type} (Q : A -> Prop) (o : option A) : Prop :=
  match o with Some a => Q a | None => True end.

Section Fx.
Context (rnd : nat -> byte).

Definition fx_safe {X A} (m : Fx X A) (Q : A -> Prop) : Prop := forall xm s t w,
  session_wf s -> w_rand w = rnd ->
  match m (xm, (s, t, w)) with
  | Done a (_, (s', _, w')) => session_wf s' /\ w_rand w' = rnd /\ Q a
  | Fail (_, (s', _, w')) => session_wf s' /\ w_rand w' = rnd
  | Fault | NoFuel => False
  end.

Section Rules.
Context {X : Type}.

Lemma fx_ret {A} (a : A) (Q : A -> Prop) : Q a -> fx_safe (X := X) (mret a) Q.
Proof. by intros Ha xm s t w. Qed.

Lemma fx_fail {A} (Q : A -> Prop) : fx_safe (X := X) fail Q.
Proof. by intros xm s t w. Qed.

Lemma fx_bind {A B} (m : Fx X A) (k : A -> Fx X B) Q Q' :
  fx_safe m Q -> (forall a, Q a -> fx_safe (k a) Q') -> fx_safe (m ≫= k) Q'.
Proof.
  intros Hm Hk xm s t w Hs Hw. specialize (Hm xm s t w Hs Hw). unfold mbind, M_bind.
  destruct (m _) as [a [xm1 [[s1 t1] w1]]|[xm1 [[s1 t1] w1]]| |]; try done.
  destruct Hm as (Hs1 & Hw1 & Ha). by apply Hk.
Qed.

Lemma fx_weaken {A} (m : Fx X A) (Q Q' : A -> Prop) :
  fx_safe m Q -> (forall a, Q a -> Q' a) -> fx_safe m Q'.
Proof.
  intros Hm HQ xm s t w Hs Hw. specialize (Hm xm s t w Hs Hw).
  destruct (m _) as [a [xm1 [[s1 t1] w1]]|[xm1 [[s1 t1] w1]]| |]; try done. naive_solver.
Qed.

Lemma fx_when (c : bool) (m : Fx X unit) : fx_safe m any_result -> fx_safe (when c m) any_result.
Proof. intros H. destruct c; [done|by apply fx_ret]. Qed.

Lemma fx_files {A} (p : prog A) P : returns P p -> fx_safe (X := X) (files p) P.
Proof.
  intros Hp [x m] s t w Hs Hw. unfold files. pose proof (exec_returns P p (m_fs m) (m_ds m) Hp) as H.
  by destruct (exec_prog p _ _) as [[a fs] ds].
Qed.

Lemma fx_any {A} (p : prog A) : fx_safe (X := X) (files p) any_result.
Proof. apply fx_files, returns_any. Qed.

Lemma fx_lookup dc : fx_safe (X := X) (lookup dc) any_result.
Proof. by intros xm s t w. Qed.

Lemma fx_obj : fx_safe (X := X) obj any_result.
Proof. by intros xm s t w. Qed.

Lemma fx_upd_obj (f : X -> X) : fx_safe (upd_obj f) any_result.
Proof. by intros [x m] s t w. Qed.

Lemma fx_session : fx_safe (X := X) this_session session_wf.
Proof. by intros xm s t w. Qed.

Lemma fx_put_session s : session_wf s -> fx_safe (X := X) (put_session s) any_result.
Proof. by intros Hs xm s' t w. Qed.

Lemma fx_rand n : fx_safe (X := X) (on_snd (on_snd (crypto_rand_bytes n))) any_result.
Proof. by intros xm s t w. Qed.

Lemma fresh_id_wf s w : session_wf s -> exists s' w',
  fresh_session_id (s, w) = Done tt (s', w') /\ session_wf s' /\ w_rand w' = w_rand w.
Proof.
  intros (_ & Hrest). unfold fresh_session_id, modify_session, get_fst, put_fst, on_snd, crypto_rand_bytes,
    when, mret, M_ret, mbind, M_bind. cbn [fst snd].
  match goal with |- context [session_id ?x =? 0] => destruct (session_id x =? 0) end;
    (eexists _, _; split; [reflexivity|]; split; [|done]; split; [|exact Hrest]); cbn; [done|].
  by apply le_combine8_range.
Qed.

Lemma fx_session_init : fx_safe (X := X) session_init any_result.
Proof.
  intros xm s t w Hs Hw. unfold session_init, on_snd, on_ses, mtproto_session_init. cbn [fst snd].
  destruct (fresh_id_wf session_zero w) as (s' & w' & E & Hs' & Hw'); [done|].
  rewrite (bind_Done _ _ _ tt (session_zero, w)) by done. rewrite E. by rewrite Hw'.
Qed.

Lemma fx_renew_id : fx_safe (X := X) (on_snd (on_ses mtproto_session_renew_id)) any_result.
Proof.
  intros xm s t w Hs Hw. unfold on_snd, on_ses, mtproto_session_renew_id. cbn [fst snd].
  destruct (fresh_id_wf s w Hs) as (s' & w' & E & (H1 & H2 & H3 & H4 & H5 & H6) & Hw').
  rewrite (bind_Done _ _ _ _ _ E). unfold modify_session, get_fst, put_fst, mbind, M_bind. cbn.
  split; [by split_and!|by rewrite Hw'].
Qed.

(** Work on the transport. *)
Lemma fx_tr (m : TM unit) :
  (forall t w, match m (t, w) with
   | Done _ (_, w') | Fail (_, w') => w_rand w' = w_rand w | _ => False end) ->
  fx_safe (X := X) (on_snd (on_tr m)) any_result.
Proof.
  intros Hm xm s t w Hs Hw. specialize (Hm t w). unfold on_snd. cbn [fst snd]. rewrite on_tr_cases.
  by destruct (m (t, w)) as [a [t' w']|[t' w']| |]; try done; rewrite Hm.
Qed.

Lemma fx_put_dc_id v : fx_safe (X := X) (put_dc_id v) any_result.
Proof. by apply fx_tr. Qed.

Lemma fx_transport_init : fx_safe (X := X) (on_snd (on_tr transport_init)) any_result.
Proof. by apply fx_tr. Qed.

Lemma fx_close : fx_safe (X := X) close any_result.
Proof.
  apply fx_tr. intros t w. unfold transport_close, mbind, M_bind, get_fst. cbn [fst].
  by destruct (0 <=? fd t).
Qed.

(** [transport_connect] ends and keeps the random bytes. *)
Lemma connect_rand t w :
  match transport_connect (t, w) with
  | Done _ (_, w') | Fail (_, w') => w_rand w' = w_rand w | _ => False end.
Proof.
  unfold transport_connect. unfold mbind at 1, M_bind at 1, on_snd at 1. cbn [fst snd].
  rewrite (bind_Done _ _ _ tt (set_fd (n_socket (w_net w)) t, w)) by done.
  destruct (n_socket (w_net w) <? 0); [done|]. destruct (n_connect (w_net w) <? 0); [done|].
  unfold mbind at 1, M_bind at 1, on_snd at 1, on_net. cbn [fst snd].
  destruct (send_retry_at [ABRIDGED_MARKER] (w_net w)) as (n & v & -> & _). by destruct (negb _).
Qed.

Lemma fx_dial ep : fx_safe (X := X) (dial ep) any_result.
Proof.
  unfold dial. eapply fx_bind with any_result; [by intros [x m] s t w|]. intros _ _.
  apply fx_tr, connect_rand.
Qed.

(** ** Failures and local objects *)

Lemma fx_succeeded {A} (m : Fx X A) Q : fx_safe m Q -> fx_safe (succeeded m) any_result.
Proof.
  intros Hm xm s t w Hs Hw. specialize (Hm xm s t w Hs Hw). unfold succeeded.
  destruct (m _) as [a [xm1 [[s1 t1] w1]]|[xm1 [[s1 t1] w1]]| |]; try done; unfold any_result, opt in *; tauto.
Qed.

Lemma fx_succeeded_with {A} (m : Fx X A) Q : fx_safe m Q -> fx_safe (succeeded_with m) (opt Q).
Proof.
  intros Hm xm s t w Hs Hw. specialize (Hm xm s t w Hs Hw). unfold succeeded_with.
  destruct (m _) as [a [xm1 [[s1 t1] w1]]|[xm1 [[s1 t1] w1]]| |]; try done; unfold any_result, opt in *; tauto.
Qed.

Lemma fx_local {Y A} (I : Y -> Prop) (y : Y) (m : M (Y * Conn) A) Q :
  I y -> cx_safe I m Q -> tracks m ->
  fx_safe (X := X) (local_call y m) (fun r => opt Q (fst r) /\ I (snd r)).
Proof.
  intros Hy Hm Ht xm s t w Hs Hw. specialize (Hm y s t w Hy Hs). specialize (Ht (y, (s, t, w))).
  unfold local_call. destruct (m _) as [a [y1 [[s1 t1] w1]]|[y1 [[s1 t1] w1]]| |]; try done.
  - destruct Hm as (Hk & _ & HI & HQ), Ht as (Hr & _). split_and!; [apply Hk|by rewrite <- Hw|done..].
  - destruct Hm as (Hk & _ & HI), Ht as (Hr & _). split_and!; [apply Hk|by rewrite <- Hw|done..].
Qed.

Lemma fx_on_answer {A} (I : X -> Prop) (m : M (X * Conn) A) Q :
  (forall x, I x) -> cx_safe I m Q -> tracks m -> fx_safe (on_answer m) Q.
Proof.
  intros HI Hm Ht [x mc] s t w Hs Hw. specialize (Hm x s t w (HI x) Hs). specialize (Ht (x, (s, t, w))).
  unfold on_answer. destruct (m _) as [a [y1 [[s1 t1] w1]]|[y1 [[s1 t1] w1]]| |]; try done.
  - destruct Hm as (Hk & _ & _ & HQ), Ht as (Hr & _). split_and!; [apply Hk|by rewrite <- Hw|done].
  - destruct Hm as (Hk & _ & _), Ht as (Hr & _). split; [apply Hk|by rewrite <- Hw].
Qed.

Lemma fx_with_obj {Y A} (y : Y) (m : Fx Y A) Q :
  fx_safe m Q -> fx_safe (X := X) (with_obj y m) (fun r => opt Q (fst r)).
Proof.
  intros Hm [x mc] s t w Hs Hw. specialize (Hm (y, mc) s t w Hs Hw). unfold with_obj.
  destruct (m _) as [a [[y1 mc1] [[s1 t1] w1]]|[[y1 mc1] [[s1 t1] w1]]| |]; try done; cbn; tauto.
Qed.

Lemma fx_finally {A} (m : Fx X A) h Q :
  fx_safe m Q -> fx_safe h any_result -> fx_safe (finally m h) Q.
Proof.
  intros Hm Hh xm s t w Hs Hw. specialize (Hm xm s t w Hs Hw). unfold finally.
  destruct (m _) as [a [xm1 [[s1 t1] w1]]|[xm1 [[s1 t1] w1]]| |]; try done.
  - destruct Hm as (Hs1 & Hw1 & Ha). assert (H : fx_safe (h ;; mret a) Q); [|by apply H].
    eapply fx_bind; [exact Hh|]. intros u _. by apply fx_ret.
  - destruct Hm as (Hs1 & Hw1). assert (H : fx_safe (h ;; fail) Q); [|by apply H].
    eapply fx_bind; [exact Hh|]. intros u _. apply fx_fail.
Qed.

(** The session with another data centre is well-formed. *)
Definition dc_wf (d : DcSession) : Prop := session_wf (x_session d).

Lemma fx_abroad {A} d (m : Fx X A) Q :
  dc_wf d -> fx_safe m Q -> fx_safe (abroad d m) (fun r => opt Q (fst r) /\ dc_wf (snd r)).
Proof.
  intros Hd Hm xm s t w Hs Hw. specialize (Hm xm (x_session d) (x_transport d) (set_net w (x_net d)) Hd Hw).
  unfold abroad. destruct (m _) as [a [xm1 [[s1 t1] w1]]|[xm1 [[s1 t1] w1]]| |]; try done; cbn;
    unfold dc_wf; cbn; tauto.
Qed.

End Rules.
End Fx.

(** Decompose a function along its syntax; calls and programs are left. *)
Create HintDb process_safe.
#[export] Hint Resolve fx_fail fx_any fx_lookup fx_obj fx_upd_obj fx_session fx_rand fx_session_init
  fx_renew_id fx_put_dc_id fx_transport_init fx_close fx_dial : process_safe.

Ltac fx_step :=
  lazymatch goal with
  | |- fx_safe _ (_ ≫= _) _ => eapply fx_bind; [fx_step|intros ? ?]
  | |- fx_safe _ (mret _) _ => apply fx_ret
  | |- fx_safe _ (when _ _) _ => apply fx_when
  | |- fx_safe _ (succeeded _) _ => eapply fx_succeeded
  | |- fx_safe _ (if ?b then _ else _) _ => destruct b eqn:?
  | |- fx_safe _ (match ?x with _ => _ end) _ => destruct x eqn:?
  | |- fx_safe _ _ _ => solve [eauto with process_safe]
  | |- _ => idtac
  end.
Ltac fx_tac := repeat (try done; fx_step).

(** ** Calls keep the random bytes *)

Section TracksLogin.
Context `{C : Crypto} `{K : Kdf} `{B : BigNum} (tinf : Z -> list byte -> option (list byte)) (cfg : ApiConfig).

Lemma tracks_copy_query {X} (w : TlWriter) max_len : tracks (S := X * Conn) (copy_query w max_len).
Proof. unfold copy_query. tracks_tac. Qed.

Lemma tracks_pure {X A} (m : M (X * Conn) A) : pure_m m -> tracks m.
Proof. intros Hm. apply tracks_same. intros st. specialize (Hm st). destruct (m st); by subst. Qed.

Lemma pure_mod_op {S} op l a b m : pure_m (bn_mod_op (S := S) op l a b m).
Proof. intros s. unfold bn_mod_op. destruct (op _ _ _); [apply pure_finalize|done]. Qed.

Hint Resolve tracks_copy_query : tracking.
Hint Extern 2 (tracks (crypto_bn_mod_exp _ _ _ _)) => apply tracks_pure, pure_mod_exp : tracking.
Hint Extern 2 (tracks (crypto_bn_mod_mul _ _ _ _)) => apply tracks_pure, pure_mod_op : tracking.
Hint Extern 2 (tracks (crypto_bn_mod_sub _ _ _ _)) => apply tracks_pure, pure_mod_op : tracking.

Lemma tracks_send_code phone : tracks (auth_send_code tinf cfg phone).
Proof. unfold auth_send_code, build_send_code. tracks_tac. Qed.

Lemma tracks_resend_code phone : tracks (auth_resend_code tinf cfg phone).
Proof. unfold auth_resend_code. tracks_tac. Qed.

Lemma tracks_sign_in phone hash code : tracks (auth_sign_in tinf cfg phone hash code).
Proof. unfold auth_sign_in, build_sign_in. tracks_tac. Qed.

Lemma tracks_sign_up phone hash first last : tracks (auth_sign_up tinf cfg phone hash first last).
Proof. unfold auth_sign_up, build_sign_up. tracks_tac. Qed.

Lemma tracks_get_password : tracks (auth_2fa_get_password tinf cfg).
Proof. unfold auth_2fa_get_password. tracks_tac. Qed.

Lemma tracks_check_password p pwd : tracks (auth_2fa_check_password tinf cfg p pwd).
Proof. unfold auth_2fa_check_password, srp_compute, srp_secret. tracks_tac. Qed.

Lemma tracks_export dc : tracks (auth_transfer_export tinf cfg dc).
Proof. unfold auth_transfer_export. tracks_tac. Qed.

Lemma tracks_import tok : tracks (auth_transfer_import tinf cfg tok).
Proof. unfold auth_transfer_import. tracks_tac. Qed.

End TracksLogin.

#[export] Hint Resolve tracks_send_code tracks_resend_code tracks_sign_in tracks_sign_up tracks_get_password
  tracks_check_password tracks_export tracks_import : tracking.

(** ** Connecting and logging in *)

(** What the login flow and the sessions rely on. *)
Section Flow.
Context `{C : Crypto} {HC : CryptoLaws C} `{R : Rsa} {HB : BigNumLaws B} {HR : RsaLaws R} `{K : Kdf}.
Context (server_key : ServerKeyState) (malloc_bytes : nat -> list byte).
Context (tinf : Z -> list byte -> option (list byte)) (cfg : ApiConfig).
Context (rnd : nat -> byte) (Hmalloc : malloc_sized malloc_bytes) (Hrnd : nonzero_rand rnd).
Context (Hcfg : cfg_small cfg) (Hf : tinf_fits tinf) (Hhash : short (default [] (api_hash cfg))).

Lemma key_gen_safe {X} :
  fx_safe (X := X) rnd (on_snd (mtproto_auth_key_gen server_key malloc_bytes)) any_result.
Proof using HB HC HR Hmalloc Hrnd.
  intros xm s t w Hs Hw. unfold on_snd, mtproto_auth_key_gen. cbn [fst snd].
  pose proof (post_auth_steps server_key malloc_bytes Hmalloc rnd Hrnd (auth_ctx_init (dc_id t)) s t w
    (ctx_init_wf _) Hw) as Hp.
  pose proof (fail_keeps_steps server_key malloc_bytes (auth_ctx_init (dc_id t)) s t w) as Hk.
  destruct (auth_steps _ _ _) as [[] [c1 [[s1 t1] w1]]|[c1 [[s1 t1] w1]]| |]; try done; cbn [snd].
  - destruct Hp as (_ & Hw1 & _), Hk as [Hk _]. split; [auto|done].
  - destruct Hp as (_ & Hw1), Hk as [Hk _]. split; [by eapply same_keys_wf|done].
Qed.
Hint Resolve key_gen_safe : process_safe.

Lemma connect_safe {X} phys dh : fx_safe (X := X) rnd (connect_dc_ex server_key malloc_bytes phys dh) any_result.
Proof using HB HC HR Hmalloc Hrnd. unfold connect_dc_ex. fx_tac. Qed.
Hint Resolve connect_safe : process_safe.

Lemma migrate_safe {X} dc dh : fx_safe (X := X) rnd (migrate server_key malloc_bytes dc dh) any_result.
Proof using HB HC HR Hmalloc Hrnd. unfold migrate. fx_tac. Qed.

Lemma migrate_soft_safe {X} dc : fx_safe (X := X) rnd (migrate_soft dc) any_result.
Proof. unfold migrate_soft. fx_tac. Qed.
Hint Resolve migrate_safe migrate_soft_safe : process_safe.

Lemma restore_safe : fx_safe rnd restore_session any_result.
Proof.
  unfold restore_session. do 2 fx_step.
  eapply fx_bind; [apply fx_files, load_returns|]. intros [[s dc]|] Hs; [|by apply fx_ret].
  eapply fx_bind; [by apply fx_put_session, Hs|]. intros _ _. fx_tac.
Qed.
Hint Resolve restore_safe : process_safe.

(** A call of the login layer with its local object. *)
Definition code_result (r : option unit * (AuthSentCode * RpcError)) : Prop := code_inv (snd r).

Lemma send_code_local {X} phone sent err : short phone -> code_inv (sent, err) ->
  fx_safe (X := X) rnd (local_call (sent, err) (auth_send_code tinf cfg phone)) code_result.
Proof using HC Hcfg Hf Hhash.
  intros Hp Hs. eapply fx_weaken; [apply (fx_local rnd code_inv _ _ any_result Hs)|by intros r [_ H]].
  - by apply send_code_safe.
  - apply tracks_send_code.
Qed.

Lemma send_code_loop_safe {X} quota phone dc sent : short phone -> code_inv (sent, no_error) ->
  fx_safe (X := X) rnd (send_code_loop server_key malloc_bytes tinf cfg quota phone dc sent)
    (fun r => code_inv (fst (fst r), no_error)).
Proof using HB HC HR Hcfg Hf Hhash Hmalloc Hrnd.
  intros Hp. revert dc sent. induction quota as [|quota IH]; intros dc sent Hs; cbn [send_code_loop];
    (eapply fx_bind; [by apply send_code_local|]); intros [[[]|] [s e]] Hr; try by apply fx_ret.
  - apply fx_fail.
  - destruct (0 <? migrate_dc e); [|apply fx_fail]. cbn zeta.
    eapply fx_bind; [eapply fx_succeeded, migrate_safe|]. intros ok _. destruct ok; [by apply IH|].
    eapply fx_bind; [apply migrate_soft_safe|]. intros _ _. by apply IH.
Qed.

Lemma resend_safe {X} phone sent : short phone -> code_inv (sent, no_error) ->
  fx_safe (X := X) rnd (resend_by_sms tinf cfg phone sent) (fun r => code_inv (r, no_error)).
Proof using HC Hcfg Hf.
  intros Hp Hs. unfold resend_by_sms. destruct (_ && _); [|by apply fx_ret].
  eapply fx_bind; [apply (fx_local rnd code_inv _ _ any_result Hs)|].
  - by apply resend_code_safe.
  - apply tracks_resend_code.
  - intros [o [s e]] [_ H]. by apply fx_ret.
Qed.

(** The second factor with a modulus of 0 fails at the first power. *)
Lemma check_password_zero p pwd x s t w : ~ 0 < srp_N p -> w_rand w = rnd ->
  exists w', auth_2fa_check_password tinf cfg p pwd (x, (s, t, w)) = Fail (x, (s, t, w')) /\ w_rand w' = rnd.
Proof using HB Hrnd.
  intros Hp Hw. unfold auth_2fa_check_password. destruct (negb (has_password p)); [by exists w|].
  exists (mkWorld (w_rand w) (w_rpos w + 256) (w_clock w) (w_ticks w) (w_net w)). split; [|done].
  apply bind_Fail. unfold srp_compute, srp_secret. erewrite bind_Done by reflexivity. apply bind_Fail.
  unfold crypto_bn_mod_exp. rewrite mod_exp_zero; [done|..].
  - rewrite bin2bn_val. subst rnd. apply (Hrnd (w_rpos w)).
  - rewrite bin2bn_val. pose proof (be_combine_range (srp_p p)). unfold srp_N in Hp. lia.
Qed.

Lemma check_password_local {X} p pwd :
  length (srp_p p) = 256%nat ->
  fx_safe (X := X) rnd (local_call (0, mkError 0 [] 0 0) (auth_2fa_check_password tinf cfg p pwd)) any_result.
Proof using HB HC Hcfg Hf Hrnd.
  intros Hl. destruct (decide (0 < srp_N p)) as [Hp|Hp].
  { eapply fx_weaken; [eapply (fx_local rnd no_inv); [done| |apply tracks_check_password]|done].
    by apply check_password_safe. }
  intros xm s t w Hs Hw. unfold local_call.
  by destruct (check_password_zero p pwd (0, mkError 0 [] 0 0) s t w Hp Hw) as (w' & -> & Hw').
Qed.

Lemma password_safe cb : fx_safe rnd (password_login tinf cfg cb) any_result.
Proof using HB HC Hcfg Hf Hrnd.
  unfold password_login. eapply fx_bind; [apply fx_upd_obj|]. intros _ _.
  destruct (get_password cb) as [answer|]; [|apply fx_fail].
  eapply fx_bind; [eapply (fx_local rnd pw_inv _ _ any_result)|].
  - by split_and!.
  - by apply get_password_safe.
  - apply tracks_get_password.
  - intros [o [params e]] [_ H]. cbn [snd] in H. destruct o; [|apply fx_fail].
    destruct (negb _); [apply fx_fail|]. destruct answer as [pwd|]; [|apply fx_fail].
    eapply fx_bind; [apply check_password_local; apply H|]. intros r _. by fx_step.
Qed.

Lemma sign_in_flow_safe cb quota phone hash code dc :
  short phone -> short hash -> short code ->
  fx_safe rnd (AuthFlow.sign_in server_key malloc_bytes tinf cfg cb quota phone hash code dc) any_result.
Proof using HB HC HR Hcfg Hf Hmalloc Hrnd.
  intros Hp Hh Hc. unfold AuthFlow.sign_in.
  eapply fx_bind; [eapply (fx_local rnd no_inv _ _ any_result); [done| |apply tracks_sign_in]|].
  { by apply sign_in_safe. }
  intros [rc [o e]] _. destruct rc; [by apply fx_ret|].
  destruct (negb _).
  { eapply fx_bind; [eapply (fx_local rnd no_inv _ _ any_result); [done| |apply tracks_sign_up]|].
    - by apply sign_up_safe.
    - intros r _. by fx_step. }
  destruct (_ && _).
  { cbn zeta. eapply fx_bind; [apply migrate_safe|]. intros _ _. apply fx_fail. }
  destruct (str_eq _ _); [apply password_safe|apply fx_fail].
Qed.

(** The login, for callbacks whose strings a query can hold. *)
Lemma login_safe cb :
  opt short (get_phone cb) -> opt short (get_code cb) ->
  fx_safe rnd (auth_flow_login server_key malloc_bytes tinf cfg cb) any_result.
Proof using HB HC HR Hcfg Hf Hhash Hmalloc Hrnd.
  intros Hp Hc. unfold auth_flow_login. eapply fx_bind; [apply fx_upd_obj|]. intros _ _.
  eapply fx_bind; [apply restore_safe|]. intros restored _. destruct restored; [by apply fx_ret|].
  cbn zeta. eapply fx_bind; [apply connect_safe|]. intros _ _.
  destruct (get_phone cb) as [phone|]; [|apply fx_fail].
  eapply fx_bind; [by apply send_code_loop_safe|]. intros [[sent dc] quota] Hs.
  eapply fx_bind; [by apply resend_safe|]. intros sent' Hs'.
  destruct (get_code cb) as [code|]; [|apply fx_fail].
  eapply fx_bind; [apply sign_in_flow_safe; try done|].
  { unfold code_inv, AUTH_CODE_HASH_MAX in Hs'. cbn in Hs'. unfold short. lia. }
  intros uid _. fx_tac.
Qed.

(** ** Sessions with other data centres *)

Lemma open_dc_safe {X} dc : fx_safe (X := X) rnd (open_dc server_key malloc_bytes dc) any_result.
Proof using HB HC HR Hmalloc Hrnd.
  unfold open_dc. do 2 fx_step.
  eapply fx_bind with any_result.
  - unfold reuse_key. fx_step. eapply fx_bind; [apply fx_files, load_dc_returns|].
    intros [s|] Hs; [|by apply fx_ret]. eapply fx_bind; [by apply fx_put_session, Hs|]. intros _ _. fx_tac.
  - intros reused _. destruct reused; [by apply fx_ret|]. unfold auth_flow_connect_dc. fx_tac.
Qed.

Lemma dc_open_safe {X} dc : fx_safe (X := X) rnd (dc_session_open server_key malloc_bytes dc) dc_wf.
Proof using HB HC HR Hmalloc Hrnd.
  unfold dc_session_open. eapply fx_bind; [apply fx_abroad; [|apply open_dc_safe]; done|].
  intros [[b|] d] [_ H]; [by apply fx_ret|apply fx_fail].
Qed.

Lemma dc_ensure_safe {X} d : dc_wf d -> fx_safe (X := X) rnd (dc_session_ensure_authorized tinf cfg d) dc_wf.
Proof using HC Hcfg Hf.
  intros Hd. unfold dc_session_ensure_authorized. destruct (x_authorized d); [by apply fx_ret|].
  eapply fx_bind; [eapply (fx_local rnd exported_inv _ _ any_result); [done| |apply tracks_export]|].
  { by apply transfer_export_safe. }
  intros [o [tok e]] _. destruct o; [|apply fx_fail].
  eapply fx_bind; [apply fx_abroad; [done|]|].
  { eapply (fx_local rnd no_inv _ _ any_result); [done| |apply tracks_import]. by apply transfer_import_safe. }
  intros [[[[]]|] d'] [_ H]; try apply fx_fail. eapply fx_bind; [apply fx_any|]. intros _ _. by apply fx_ret.
Qed.

Lemma dc_close_safe {X} d : dc_wf d -> fx_safe (X := X) rnd (dc_session_close d) dc_wf.
Proof.
  intros Hd. unfold dc_session_close. eapply fx_bind; [apply fx_abroad; [done|apply fx_close]|].
  intros r [_ H]. by apply fx_ret.
Qed.

End Flow.
