(* ===== verification/MediaIndex.v ===== *)
(** * The index of downloaded media (src/infrastructure/media_index.c)

    A text file with one line per file: the number of the media, a tab and a
    path.  A store reads all lines and writes them back; a lookup scans.  On
    files that hold a list of entries the index is a finite map. *)

From Stdlib Require Import String.
From S2P Require Import Prelude CLib FileSys FileLogic.

#[local] Open Scope Z_scope.

Definition MEDIA_IDX_MAX_LINE : nat := 2048.
Definition MEDIA_IDX_MAX_ENTRIES : Z := 8192.
Definition index_path : string := "media.idx"%string.

(** [while (n > 0 && (buf[n-1] == '\n' || buf[n-1] == '\r')) buf[--n] = 0;] *)
Fixpoint strip_eol (s : list byte) : list byte :=
  match s with
  | [] => []
  | b :: s =>
      match strip_eol s with
      | [] => if Byte.eqb b newline || Byte.eqb b carriage then [] else [b]
      | s => b :: s
      end
  end.

(** The strings that successive calls of [fgets] leave in the buffer. *)
Fixpoint fgets_all (fuel : nat) (file : list byte) : list (list byte) :=
  match fuel with
  | O => []
  | S fuel =>
      match fgets MEDIA_IDX_MAX_LINE file with
      | None => []
      | Some (buf, rest) => cstr buf :: fgets_all fuel rest
      end
  end.

Definition buffers (file : list byte) : list (list byte) := fgets_all (length file) file.

(** ** Storing *)

(** The number in front of the first tab, 0 for a line without one. *)
Definition line_id (line : list byte) : Z :=
  match split_at tab line with
  | (pre, Some _) => fst (strtol pre)
  | (_, None) => 0
  end.

Definition index_line (media_id : Z) (path : list byte) : list byte :=
  snprintf_s (Z.of_nat MEDIA_IDX_MAX_LINE) (print_dec media_id ++ tab :: path).

(** The lines to write back, and whether one of them was replaced; [count]
    lines were taken before. *)
Fixpoint put_loop (media_id : Z) (path : list byte) (bufs : list (list byte)) (count : Z)
    : list (list byte) * bool :=
  match bufs with
  | [] => ([], false)
  | buf :: bufs =>
      if negb (count <? MEDIA_IDX_MAX_ENTRIES) then ([], false)
      else
        match strip_eol buf with
        | [] => put_loop media_id path bufs count
        | line =>
            let '(lines, found) := put_loop media_id path bufs (count + 1) in
            if line_id line =? media_id then (index_line media_id path :: lines, true)
            else (snprintf_s (Z.of_nat MEDIA_IDX_MAX_LINE) line :: lines, found)
        end
  end.

(** The new lines, [None] when the index is full. *)
Definition put_lines (media_id : Z) (path : list byte) (file : list byte) : option (list (list byte)) :=
  let '(lines, found) := put_loop media_id path (buffers file) 0 in
  if found then Some lines
  else if zlen lines <? MEDIA_IDX_MAX_ENTRIES then Some (lines ++ [index_line media_id path])
  else None.

Definition file_text (lines : list (list byte)) : list byte := flat_map (fun l => l ++ [newline]) lines.

(** [true] is the return value 0.  The results of [fprintf] and [fclose] are
    not looked at. *)
Definition media_index_put (media_id : Z) (local_path : list byte) : prog bool :=
  idx ← call SConfigDir;
  if negb idx then mret false
  else
    dir ← call SMkdir;
    if negb dir then mret false
    else
      rf ← call (SOpen index_path false false);
      file ← match rf with
             | Some rf => file ← call (SReadAll rf); call (SClose rf) ;; mret file
             | None => mret []
             end;
      match put_lines media_id local_path file with
      | None => mret false
      | Some lines =>
          wf ← call (SOpen index_path true true);
          match wf with
          | None => mret false
          | Some wf =>
              call (SWrite wf (file_text lines)) ;;
              call (SClose wf) ;;
              mret true
          end
      end.

(** ** Lookup *)

(** Return values -1, 0 and 1. *)
Inductive index_rc := IdxError | IdxMiss | IdxHit (path : list byte).

(** The first line with the number decides. *)
Fixpoint get_loop (media_id : Z) (cap : Z) (bufs : list (list byte)) : index_rc :=
  match bufs with
  | [] => IdxMiss
  | buf :: bufs =>
      match split_at tab buf with
      | (_, None) => get_loop media_id cap bufs
      | (pre, Some path) =>
          if negb (fst (strtol pre) =? media_id) then get_loop media_id cap bufs
          else
            match strip_eol path with
            | [] => IdxMiss
            | path => IdxHit (snprintf_s cap path)
            end
      end
  end.

Definition media_index_get (media_id : Z) (out_cap : Z) : prog index_rc :=
  if out_cap =? 0 then mret IdxError
  else
    idx ← call SConfigDir;
    if negb idx then mret IdxError
    else
      rf ← call (SOpen index_path false false);
      match rf with
      | None => mret IdxMiss
      | Some rf =>
          file ← call (SReadAll rf);
          call (SClose rf) ;;
          mret (get_loop media_id out_cap (buffers file))
      end.

(** * The index of downloaded media: theorems

    On files that hold a list of entries the index is a finite map from
    numbers to paths. *)

(** ** The files of the index *)

Abbreviation entry := (Z * list byte)%type.

(** A path without line ends that fits the buffer of a line. *)
Definition path_ok (p : list byte) : Prop :=
  p <> [] /\ no_nul p /\ Forall (fun b => b <> newline) p /\ Forall (fun b => b <> carriage) p /\
  zlen p <= 2000.

Definition entry_ok (e : entry) : Prop := is_s64 (fst e) /\ path_ok (snd e).

Definition entry_line (e : entry) : list byte := print_dec (fst e) ++ tab :: snd e.

Definition index_text (es : list entry) : list byte := file_text (map entry_line es).

(** The lines as the reading loop gets them. *)
Definition line_buffers (es : list entry) : list (list byte) :=
  map (fun e => entry_line e ++ [newline]) es.

Lemma entry_line_chars e (P : byte -> Prop) :
  entry_ok e -> P tab -> P Byte.x2d -> (forall b, is_digit b = true -> P b) ->
  Forall P (snd e) -> Forall P (entry_line e).
Proof.
  intros [Hid _] Ht Hm Hd Hp. apply Forall_app. split; [|by constructor].
  eapply Forall_impl; [by apply print_dec_chars|]. intros b [Hb| ->]; auto.
Qed.

Lemma entry_line_no_nul e : entry_ok e -> no_nul (entry_line e).
Proof.
  intros He. apply entry_line_chars; try done; [by intros b Hb ->|]. apply He.
Qed.

Lemma entry_line_avoids e c :
  entry_ok e -> c = newline \/ c = carriage -> Forall (fun b => b <> c) (entry_line e).
Proof.
  intros He Hc. apply entry_line_chars; try done; try (by destruct Hc as [-> | ->]).
  - intros b Hb ->. by destruct Hc as [-> | ->].
  - destruct He as (_ & _ & _ & ? & ? & _). by destruct Hc as [-> | ->].
Qed.

Lemma entry_line_len e : entry_ok e -> (length (entry_line e) <= 2022)%nat.
Proof.
  intros [Hid (_ & _ & _ & _ & Hl)]. unfold entry_line. rewrite length_app. cbn [length].
  pose proof (print_dec_len _ Hid). unfold zlen in Hl. lia.
Qed.

Lemma entry_line_not_nil e : entry_line e <> [].
Proof. unfold entry_line. by destruct (print_dec _). Qed.

Lemma strip_eol_line l r :
  Forall (fun b => b <> newline) l -> Forall (fun b => b <> carriage) l ->
  Forall (fun b => b = newline \/ b = carriage) r -> strip_eol (l ++ r) = l.
Proof.
  intros Hn Hc Hr. assert (Hr0 : strip_eol r = []).
  { induction Hr as [|b r Hb _ IH]; [done|]. cbn. rewrite IH. by destruct Hb as [-> | ->]. }
  induction l as [|b l IH]; [done|]. apply Forall_cons in Hn as [Hbn Hn], Hc as [Hbc Hc].
  cbn [app strip_eol]. rewrite IH by done. rewrite !byte_eqb_neq by done. by destruct l.
Qed.

Lemma fgets_all_lines es fuel :
  Forall entry_ok es -> (length es <= fuel)%nat -> fgets_all fuel (index_text es) = line_buffers es.
Proof.
  intros Hes. revert fuel. induction Hes as [|e es He _ IH]; intros fuel Hf; [by destruct fuel|].
  destruct fuel as [|fuel]; [cbn in Hf; lia|]. cbn [fgets_all].
  change (index_text (e :: es)) with ((entry_line e ++ [newline]) ++ index_text es).
  rewrite <- app_assoc. cbn [app]. rewrite fgets_line.
  - cbn [line_buffers map]. rewrite IH by (cbn in Hf; lia). f_equal. apply cstr_no_nul.
    apply Forall_app. split; [by apply entry_line_no_nul|by repeat constructor].
  - apply entry_line_avoids; auto.
  - pose proof (entry_line_len e He). unfold MEDIA_IDX_MAX_LINE. lia.
Qed.

Lemma buffers_text es : Forall entry_ok es -> buffers (index_text es) = line_buffers es.
Proof.
  intros Hes. apply fgets_all_lines; [done|]. clear Hes. induction es as [|e es IH]; [done|].
  change (index_text (e :: es)) with ((entry_line e ++ [newline]) ++ index_text es).
  rewrite !length_app. cbn [length]. lia.
Qed.

Lemma line_tab e : entry_ok e ->
  split_at tab (entry_line e) = (print_dec (fst e), Some (snd e)) /\
  split_at tab (entry_line e ++ [newline]) = (print_dec (fst e), Some (snd e ++ [newline])).
Proof.
  intros [Hid _]. unfold entry_line. rewrite <- app_assoc. cbn [app].
  rewrite !split_at_app; [done|..]; by apply print_dec_avoids.
Qed.

Lemma strtol_id e : entry_ok e -> fst (strtol (print_dec (fst e))) = fst e.
Proof.
  intros [Hid _]. pose proof (strtol_print (fst e) [] Hid I) as E. rewrite app_nil_r in E. by rewrite E.
Qed.

Lemma index_line_fits e : entry_ok e -> index_line (fst e) (snd e) = entry_line e.
Proof.
  intros He. apply snprintf_s_fits. pose proof (entry_line_len e He).
  unfold entry_line, zlen, MEDIA_IDX_MAX_LINE in *. lia.
Qed.

(** ** Storing and looking up *)

Definition upsert_entry (id : Z) (path : list byte) (es : list entry) : list entry :=
  let es' := map (fun e => if fst e =? id then (id, path) else e) es in
  if existsb (fun e => fst e =? id) es then es' else es' ++ [(id, path)].

Lemma put_loop_lines id path es count :
  Forall entry_ok es -> entry_ok (id, path) -> 0 <= count -> count + zlen es <= MEDIA_IDX_MAX_ENTRIES ->
  put_loop id path (line_buffers es) count =
    (map entry_line (map (fun e => if fst e =? id then (id, path) else e) es),
     existsb (fun e => fst e =? id) es).
Proof.
  intros Hes Hp. revert count. induction Hes as [|e es He _ IH]; intros count Hc Hn; [done|].
  rewrite zlen_cons in Hn. pose proof (zlen_nonneg es). cbn [line_buffers map put_loop].
  rewrite (proj2 (Z.ltb_lt _ _)) by lia. cbn [negb].
  rewrite strip_eol_line by (try apply entry_line_avoids; auto).
  pose proof (entry_line_not_nil e). destruct (entry_line e) as [|b l] eqn:El; [done|]. rewrite <- El in *.
  change (map (fun e => entry_line e ++ [newline]) es) with (line_buffers es). rewrite IH by lia.
  unfold line_id. rewrite (proj1 (line_tab e He)), strtol_id by done. cbn [existsb map].
  destruct (Z.eqb_spec (fst e) id) as [<-|Hne]; cbn [orb].
  - f_equal. f_equal. exact (index_line_fits (fst e, path) Hp).
  - f_equal. f_equal. apply snprintf_s_fits. pose proof (entry_line_len e He).
    unfold zlen, MEDIA_IDX_MAX_LINE. lia.
Qed.

Lemma put_lines_upsert id path es :
  Forall entry_ok es -> entry_ok (id, path) -> zlen es < MEDIA_IDX_MAX_ENTRIES ->
  put_lines id path (index_text es) = Some (map entry_line (upsert_entry id path es)).
Proof.
  intros Hes Hp Hn. unfold put_lines. rewrite buffers_text, put_loop_lines by (done || lia).
  unfold upsert_entry. destruct (existsb _ es); [done|].
  unfold zlen in *. rewrite !length_map, (proj2 (Z.ltb_lt _ _)) by lia.
  rewrite (map_app entry_line _ [_]). do 2 f_equal. cbn [map]. f_equal.
  exact (index_line_fits (id, path) Hp).
Qed.

Lemma get_loop_find id cap es :
  Forall entry_ok es -> 2000 < cap ->
  get_loop id cap (line_buffers es) =
    match List.find (fun e => fst e =? id) es with Some e => IdxHit (snd e) | None => IdxMiss end.
Proof.
  intros Hes Hcap. induction Hes as [|e es He _ IH]; [done|]. cbn [line_buffers map get_loop List.find].
  rewrite (proj2 (line_tab e He)), strtol_id by done.
  destruct (Z.eqb_spec (fst e) id) as [<-|Hne]; cbn [negb]; [|exact IH].
  destruct He as (_ & Hnil & _ & Hn & Hc & Hl). rewrite strip_eol_line by (done || (constructor; auto)).
  destruct (snd e) as [|b p] eqn:Ep; [done|]. rewrite <- Ep. by rewrite snprintf_s_fits by (rewrite Ep; lia).
Qed.

(** ** The map *)

Definition index_map (es : list entry) : gmap Z (list byte) := list_to_map es.

Lemma find_map id es :
  snd <$> List.find (fun e => fst e =? id) es = index_map es !! id.
Proof.
  induction es as [|[i p] es IH]; [done|].
  unfold index_map in *. cbn [List.find list_to_map foldr fst]. destruct (Z.eqb_spec i id) as [->|Hne].
  - by rewrite lookup_insert_eq.
  - rewrite lookup_insert_ne by done. auto.
Qed.

Lemma existsb_fst id (es : list entry) : existsb (fun e => fst e =? id) es = true <-> id ∈ map fst es.
Proof.
  rewrite existsb_exists, list_elem_of_In, in_map_iff. split.
  - intros (e & ? & ?%Z.eqb_eq). by exists e.
  - intros (e & <- & ?). exists e. by rewrite Z.eqb_refl.
Qed.

Lemma replace_keys id path (es : list entry) :
  map fst (map (fun e => if fst e =? id then (id, path) else e) es) = map fst es.
Proof. rewrite map_map. apply map_ext. intros [i p]. cbn. by destruct (Z.eqb_spec i id) as [->|]. Qed.

Lemma upsert_entry_ok id path es :
  Forall entry_ok es -> entry_ok (id, path) -> Forall entry_ok (upsert_entry id path es).
Proof.
  intros Hes Hp. assert (H : Forall entry_ok (map (fun e => if fst e =? id then (id, path) else e) es)).
  { apply Forall_map. eapply Forall_impl; [exact Hes|]. intros e He. by destruct (fst e =? id). }
  unfold upsert_entry. destruct (existsb _ es); [done|]. apply Forall_app. by split; [|constructor].
Qed.

Lemma replace_map id path es :
  index_map (map (fun e => if fst e =? id then (id, path) else e) es) =
  if existsb (fun e => fst e =? id) es then <[id := path]> (index_map es) else index_map es.
Proof.
  unfold index_map. induction es as [|[i p] es IH]; [done|].
  cbn [map existsb list_to_map foldr fst]. destruct (Z.eqb_spec i id) as [->|Hne]; cbn [orb fst snd];
    cbn [list_to_map foldr]; rewrite IH; destruct (existsb _ es);
    by rewrite ?insert_insert_eq, ?(insert_insert_ne _ i id).
Qed.

Lemma upsert_map id path es : index_map (upsert_entry id path es) = <[id := path]> (index_map es).
Proof.
  unfold upsert_entry. pose proof (replace_map id path es) as Hr. pose proof (existsb_fst id es) as Hf.
  destruct (existsb _ es); [done|]. unfold index_map in *. rewrite list_to_map_snoc; [by rewrite Hr|].
  change (id ∉ map fst (map (fun e : entry => if fst e =? id then (id, path) else e) es)).
  rewrite replace_keys. naive_solver.
Qed.

(** ** The index implements a map *)

(** What a lookup reports for an entry of the map. *)
Definition hit (o : option (list byte)) : index_rc :=
  match o with Some p => IdxHit p | None => IdxMiss end.

Lemma upsert_len id path es : zlen (upsert_entry id path es) <= zlen es + 1.
Proof.
  unfold upsert_entry. destruct (existsb _ es); rewrite ?zlen_app; unfold zlen; rewrite length_map; cbn; lia.
Qed.

Lemma index_get_at es id cap fs :
  Forall entry_ok es -> 2000 < cap -> settled index_path (Some (index_text es)) ∅ fs ->
  exists g, complete (media_index_get id cap) fs = (hit (index_map es !! id), g) /\
    settled index_path (Some (index_text es)) ∅ g.
Proof.
  intros Hes Hcap Hs. unfold media_index_get. rewrite (proj2 (Z.eqb_neq _ _)) by lia.
  rewrite (complete_bind _ _ _ true fs) by done. cbn [negb].
  destruct (open_read_ok _ _ _ _ Hs) as (fd & g & E & Hs1 & HLfd & Hc).
  rewrite (complete_bind _ _ _ _ _ E).
  rewrite (complete_bind _ _ _ (index_text es) g) by (rewrite complete_call; cbn; by rewrite Hc).
  destruct (close_ok _ _ _ fd _ Hs1 HLfd) as (g' & E' & Hs' & _).
  rewrite (complete_bind _ _ _ _ _ E'). exists g'. split; [|done].
  cbn [complete mret prog_mret]. rewrite buffers_text, get_loop_find, <- find_map by done.
  by destruct (List.find _ es).
Qed.

(** (C20) The index is a finite map: a store that is not disturbed puts the path
    under the number and keeps everything else, and a lookup reports what the
    map has. *)
Theorem media_index_implements_map es id path id' cap x fs :
  Forall entry_ok es -> entry_ok (id, path) -> zlen es < MEDIA_IDX_MAX_ENTRIES -> 2000 < cap ->
  settled index_path x ∅ fs -> default [] x = index_text es ->
  exists es' g h, complete (media_index_put id path) fs = (true, g) /\
    settled index_path (Some (index_text es')) ∅ g /\ Forall entry_ok es' /\ zlen es' <= zlen es + 1 /\
    index_map es' = <[id := path]> (index_map es) /\
    complete (media_index_get id' cap) g = (hit (<[id := path]> (index_map es) !! id'), h).
Proof.
  intros Hes Hp Hn Hcap Hs Hx. exists (upsert_entry id path es).
  pose proof (upsert_entry_ok id path es Hes Hp) as Hes'.
  assert (Hput : exists g, complete (media_index_put id path) fs = (true, g) /\
            settled index_path (Some (index_text (upsert_entry id path es))) ∅ g).
  { unfold media_index_put. rewrite (complete_bind _ _ _ true fs) by done. cbn [negb].
    rewrite (complete_bind _ _ _ true fs) by done. cbn [negb].
    destruct (read_whole_ok index_path x ∅ fs Hs) as (g & Hs1 & Hk). rewrite Hk.
    rewrite Hx, put_lines_upsert by done.
    destruct (open_trunc_ok _ _ _ _ Hs1) as (fd & g1 & E1 & Hs2 & HLfd & Ho).
    rewrite (complete_bind _ _ _ _ _ E1).
    destruct (write_here_ok _ _ _ fd (index_text (upsert_entry id path es)) _ Hs2 Ho) as (g2 & E2 & Hs3).
    rewrite (complete_bind _ _ _ _ _ E2).
    destruct (close_ok _ _ _ fd _ Hs3 HLfd) as (g3 & E3 & Hs4 & _).
    rewrite (complete_bind _ _ _ _ _ E3). by exists g3. }
  destruct Hput as (g & E & Hg). destruct (index_get_at _ id' cap g Hes' Hcap Hg) as (h & Eh & _).
  exists g, h. rewrite upsert_map in Eh. split_and!; try done; [apply upsert_len|apply upsert_map].
Qed.

Definition sample_path : list byte := ascii "/tmp/a.jpg"%string.
Definition sample_entries : list entry := [(7, ascii "/tmp/b"%string)].
Definition index_fs : FS :=
  mkFS {[index_path := 0%nat]} {[0%nat := index_text sample_entries]} ∅ ∅ 1.

Lemma sample_entry_ok id p :
  is_s64 id -> p = sample_path \/ p = ascii "/tmp/b"%string -> entry_ok (id, p).
Proof. intros Hid [-> | ->]; (split; [done|]); (split; [done|]); by repeat constructor. Qed.

Lemma index_fs_settled : settled index_path (Some (index_text sample_entries)) ∅ index_fs.
Proof.
  unfold index_fs. split; [split; [split|]|split]; cbn [fs_names fs_inodes fs_next fs_locks]; try done.
  - intros p i Hp. apply lookup_singleton_Some in Hp as [<- <-]. split; [cbn; lia|]. cbn. by eexists.
  - intros p q i Hp Hq. apply lookup_singleton_Some in Hp as [<- _], Hq as [<- _]. done.
  - intros fd [v H]. by rewrite lookup_empty in H.
Qed.

Lemma media_index_implements_map_witness :
  exists es' g h, complete (media_index_put 5 sample_path) index_fs = (true, g) /\
    settled index_path (Some (index_text es')) ∅ g /\ Forall entry_ok es' /\ zlen es' <= 2 /\
    index_map es' = <[5 := sample_path]> (index_map sample_entries) /\
    complete (media_index_get 7 4096) g =
      (hit (<[5 := sample_path]> (index_map sample_entries) !! 7), h).
Proof.
  apply (media_index_implements_map sample_entries 5 sample_path 7 4096
           (Some (index_text sample_entries)) index_fs).
  - constructor; [|constructor]. by apply sample_entry_ok; [|right].
  - by apply sample_entry_ok; [|left].
  - done.
  - done.
  - apply index_fs_settled.
  - done.
Defined.

(** The index is written in place, and nobody looks at the result: a store
    that is stopped behind the truncation leaves an empty index, and one
    whose write fails does so and reports success. *)
Example index_lost :
  file index_path (snd (run (replicate 6 DOk) (media_index_put 5 sample_path) index_fs)) = Some [] /\
  exists ds g, run ds (media_index_put 5 sample_path) index_fs = (Ret true, g) /\
    file index_path g = Some [].
Proof.
  split; [by vm_compute|]. exists (replicate 6 DOk ++ [DErr; DOk]). eexists. by vm_compute.
Qed.
