(* ===== verification/Media.v ===== *)
(** * Downloading media (src/domain/read/media.c)

    upload.getFile in chunks into a file, the index of what was downloaded
    before, and the second attempt at the data centre that the server names.
    The files are streams: [fwrite] may keep bytes for later, and what is left
    is written by the [fclose] behind RAII_FILE, whose result is lost. *)

From Stdlib Require Import String.
From S2P Require Import Prelude CLib TlSerial TlLogic TlCrc TlSkipBase TlSkipMedia World MtprotoSession Transport.
From S2P Require Import MtprotoRpc ApiCall Request BigNum ServerKey FileSys SessionStore Machine DcSession.
From S2P Require Import MediaIndex.

#[local] Open Scope Z_scope.

Definition CRC_upload_getFile : Z := 0xbe5335be.
Definition CRC_inputPhotoFileLocation : Z := 0x40181ffe.
Definition CRC_inputDocumentFileLocation : Z := 0xbad07584.
Definition CRC_upload_file : Z := 0x096a18d5.
Definition CRC_upload_fileCdnRedirect : Z := 0xf18cda44.
Definition CHUNK_SIZE : Z := 128 * 1024.

(** The name of a file is a string for the file system and bytes for the code
    that compares or stores it. *)
Definition path_of (p : list byte) : string := string_of_list_byte p.

Definition write_location (w : TlWriter) (info : MediaInfo) : TlWriter :=
  if decide (kind info = MEDIA_DOCUMENT) then
    let w := tl_write_uint32 w CRC_inputDocumentFileLocation in
    let w := tl_write_int64 w (document_id info) in
    let w := tl_write_int64 w (access_hash info) in
    let w := tl_write_bytes w (file_reference info) in
    tl_write_string w (Some [])
  else
    let w := tl_write_uint32 w CRC_inputPhotoFileLocation in
    let w := tl_write_int64 w (photo_id info) in
    let w := tl_write_int64 w (access_hash info) in
    let w := tl_write_bytes w (file_reference info) in
    tl_write_string w (Some (match thumb_type info with [] => ascii "y" | t => t end)).

Definition build_getfile_request {S} (info : MediaInfo) (offset limit cap : Z) : M S (list byte) :=
  let w := tl_writer_init in
  let w := tl_write_uint32 w CRC_upload_getFile in
  let w := tl_write_uint32 w 0 in
  let w := write_location w info in
  let w := tl_write_int64 w offset in
  let w := tl_write_int32 w limit in
  take_query w cap.

(** upload.file; the bytes are [NULL] when they are cut short. *)
Definition parse_file {X} : Px X (option (list byte)) :=
  lift skip_uint32 ;;
  lift skip_uint32 ;;
  lift skip_int32 ;;
  lift tl_read_bytes.

Section Media.
Context `{Io : Stdio}.
Context `{C : Crypto} `{R : Rsa} (server_key : ServerKeyState).
Context (malloc_bytes : nat -> list byte) (tinf : Z -> list byte -> option (list byte)).
Context (cfg : ApiConfig).

(** One request for the chunk at [offset]. *)
Definition get_chunk (info : MediaInfo) (offset : Z) : M (Z * Conn) (option (list byte)) :=
  query ← build_getfile_request info offset CHUNK_SIZE 1024;
  resp ← call_api tinf cfg query (CHUNK_SIZE + 4096);
  check_top keep_migrate (Z.eqb CRC_upload_file) resp ;;
  with_parser resp parse_file.

(** The loop over the chunks; it ends at the first one that is not full.
    Every answer takes bytes from the peer, so their number bounds the loop.
    [held] is the buffer of [fp]; the result says whether the loop was left by
    its [break], and what the stream holds then. *)
Fixpoint chunk_loop (fuel : nat) (info : MediaInfo) (fp : nat) (held : list byte) (offset : Z)
    : Fx Z (bool * list byte) :=
  match fuel with
  | O => no_fuel
  | S fuel =>
      bytes ← succeeded_with (on_answer (get_chunk info offset));
      match bytes with
      | None => mret (false, held)
      | Some bytes =>
          let bytes := default [] bytes in
          w ← (if 0 <? zlen bytes then files (stream_write fp held bytes) else mret (true, held));
          if negb (fst w) then mret (false, snd w)
          else if zlen bytes <? CHUNK_SIZE then mret (true, snd w)
          else chunk_loop fuel info fp (snd w) (offset + zlen bytes)
      end
  end.

Definition download_loop (info : MediaInfo) (out_path : list byte) : Fx Z unit :=
  fp ← files (call (SOpen (path_of out_path) true true));
  match fp with
  | None => fail
  | Some fp =>
      peer ← (fun st => Done (length (n_in (w_net (snd (snd st))))) st);
      r ← chunk_loop (S peer) info fp [] 0;
      files (stream_close fp (snd r)) ;;
      if fst r : bool then mret tt else fail
  end.

(** The blocks of [fread], each given to [fwrite], whose result is not looked
    at: what the stream holds at the end. *)
Fixpoint copy_blocks (fuel : nat) (dst : nat) (held data : list byte) : prog (list byte) :=
  match fuel, data with
  | S fuel, _ :: _ =>
      w ← stream_write dst held (take (Z.to_nat 4096) data);
      copy_blocks fuel dst (snd w) (drop (Z.to_nat 4096) data)
  | _, _ => mret held
  end.

Definition copy_file (src dst : string) : prog unit :=
  src ← call (SOpen src false false);
  dst ← call (SOpen dst true true);
  match src, dst with
  | Some src, Some dst =>
      data ← call (SReadAll src);
      held ← copy_blocks (length data) dst [] data;
      stream_close dst held ;;
      call (SClose src)
  | Some src, None => call (SClose src)
  | None, Some dst => call (SClose dst)
  | None, None => mret tt
  end.

(** The index has the media and its file can be opened; then the file is
    copied, unless it is the one that is asked for. *)
Definition serve_indexed (media_id : Z) (out_path : list byte) : prog bool :=
  rc ← media_index_get media_id 4096;
  match rc with
  | IdxHit cached =>
      fp ← call (SOpen (path_of cached) false false);
      match fp with
      | None => mret false
      | Some fp =>
          call (SClose fp) ;;
          (if str_eq cached out_path then mret tt else copy_file (path_of cached) (path_of out_path)) ;;
          mret true
      end
  | _ => mret false
  end.

(** What the two public functions share; [media_id] is the number of the
    photo or document. *)
Definition download (media_id : Z) (info : MediaInfo) (out_path : list byte) : Fx Z unit :=
  if (media_id =? 0) || (access_hash info =? 0) || (zlen (file_reference info) =? 0) then fail
  else
    served ← files (serve_indexed media_id out_path);
    if served : bool then mret tt
    else
      download_loop info out_path ;;
      files (media_index_put media_id out_path) ;;
      mret tt.

Definition domain_download_photo (info : MediaInfo) (out_path : list byte) : Fx Z unit :=
  upd_obj (fun _ => 0) ;;
  if decide (kind info = MEDIA_PHOTO) then download (photo_id info) info out_path else fail.

Definition domain_download_document (info : MediaInfo) (out_path : list byte) : Fx Z unit :=
  upd_obj (fun _ => 0) ;;
  if decide (kind info = MEDIA_DOCUMENT) then download (document_id info) info out_path else fail.

Definition download_any (info : MediaInfo) (out_path : list byte) : Fx Z unit :=
  if decide (kind info = MEDIA_PHOTO) then domain_download_photo info out_path
  else if decide (kind info = MEDIA_DOCUMENT) then domain_download_document info out_path
  else fail.

(** [wrong_dc] is the object. *)
Definition domain_download_media_cross_dc (info : MediaInfo) (out_path : list byte) : Fx Z unit :=
  upd_obj (fun _ => 0) ;;
  ok ← succeeded (download_any info out_path);
  if ok : bool then mret tt
  else
    wrong_dc ← obj;
    if wrong_dc <=? 0 then fail
    else
      xdc ← dc_session_open server_key malloc_bytes wrong_dc;
      r ← succeeded_with (dc_session_ensure_authorized tinf cfg xdc);
      match r with
      | None => dc_session_close xdc ;; fail
      | Some xdc =>
          r ← abroad xdc (upd_obj (fun _ => 0) ;; download_any info out_path);
          dc_session_close (snd r) ;;
          match fst r with Some _ => mret tt | None => fail end
      end.

End Media.
