(* ===== verification/Upload.v ===== *)
(** * Uploading files (src/domain/write/upload.c)

    A file is sent in parts of 512 KiB with upload.saveFilePart or, from
    10 MiB on, saveBigFilePart, at another data centre when the server says
    so, and then attached to a message.  [caption] and [mime_type] are the
    strings after the defaults for NULL were put in. *)

From Stdlib Require Import String.
From S2P Require Import Prelude CLib TlSerial TlLogic TlCrc World MtprotoSession Transport.
From S2P Require Import MtprotoRpc ApiCall Request BigNum ServerKey FileSys SessionStore Machine DcSession.
From S2P Require Import DomainWrite.

#[local] Open Scope Z_scope.

Definition CRC_upload_saveFilePart : Z := 0xb304a621.
Definition CRC_upload_saveBigFilePart : Z := 0xde7b673d.
Definition CRC_messages_sendMedia : Z := 0x7547c966.
Definition CRC_inputFile : Z := 0xf52ff27f.
Definition CRC_inputFileBig : Z := 0xfa4f0bb5.
Definition CRC_inputMediaUploadedDocument : Z := 0x5b38c6c1.
Definition CRC_inputMediaUploadedPhoto : Z := 0x1e287d04.
Definition CRC_documentAttributeFilename : Z := 0x15590068.

Definition UPLOAD_CHUNK_SIZE : Z := 512 * 1024.
Definition UPLOAD_BIG_THRESHOLD : Z := 10 * 1024 * 1024.
Definition UPLOAD_MAX_SIZE : Z := 1536 * 1024 * 1024.

(** ** Names *)

(** What follows the last [c], [strrchr(s, c) + 1]. *)
Fixpoint after_last (c : byte) (s : list byte) : option (list byte) :=
  match s with
  | [] => None
  | b :: s =>
      match after_last c s with
      | Some r => Some r
      | None => if Byte.eqb b c then Some s else None
      end
  end.

Definition basename_of (path : list byte) : list byte := default path (after_last Byte.x2f path).

Definition lower (b : byte) : byte :=
  if (65 <=? byte.unsigned b) && (byte.unsigned b <=? 90) then byte.of_Z (byte.unsigned b + 32) else b.

Definition domain_path_is_image (path : list byte) : bool :=
  match after_last Byte.x2e path with
  | None => false
  | Some ext =>
      if (zlen ext =? 0) || (8 <=? zlen ext) then false
      else
        let buf := map lower ext in
        str_eq buf (ascii "jpg") || str_eq buf (ascii "jpeg") || str_eq buf (ascii "png")
        || str_eq buf (ascii "webp") || str_eq buf (ascii "gif")
  end.

(** ** Parts *)

Definition part_query (is_big : bool) (file_id part_idx total_parts : Z) (bytes : list byte) : TlWriter :=
  let w := tl_writer_init in
  if is_big then
    let w := tl_write_uint32 w CRC_upload_saveBigFilePart in
    let w := tl_write_int64 w file_id in
    let w := tl_write_int32 w part_idx in
    let w := tl_write_int32 w total_parts in
    tl_write_bytes w bytes
  else
    let w := tl_write_uint32 w CRC_upload_saveFilePart in
    let w := tl_write_int64 w file_id in
    let w := tl_write_int32 w part_idx in
    tl_write_bytes w bytes.

Record UploadedFile := mkUploaded {
  uf_file_id : Z; uf_part_count : Z; uf_is_big : bool; uf_file_name : list byte }.

(** The size of a file that can be uploaded, [None] otherwise. *)
Definition upload_size (path : string) : prog (option Z) :=
  st ← call (SStat path);
  mret (match st with
        | Some size => if (size <=? 0) || (UPLOAD_MAX_SIZE <? size) then None else Some size
        | None => None
        end).

Section Upload.
Context `{C : Crypto} `{R : Rsa} (server_key : ServerKeyState).
Context (malloc_bytes : nat -> list byte) (tinf : Z -> list byte -> option (list byte)).
Context (cfg : ApiConfig).

(** The object is the data centre that the server names. *)
Definition save_part (is_big : bool) (file_id part_idx total_parts : Z) (bytes : list byte)
    : M (Z * Conn) unit :=
  upd_ctx (fun _ => 0) ;;
  resp ← call_api tinf cfg (w_data (part_query is_big file_id part_idx total_parts bytes)) 256;
  check_top keep_migrate (Z.eqb TL_boolTrue) resp.

(** [done] bytes were sent in [part_idx] parts; every round sends some, so the
    number of parts bounds the loop. *)
Fixpoint parts_loop (fuel : nat) (fp : nat) (is_big : bool) (total file_id total_parts part_idx done : Z)
    : Fx Z Z :=
  match fuel with
  | O => no_fuel
  | S fuel =>
      if negb (done <? total) then mret part_idx
      else
        let want := Z.min (total - done) UPLOAD_CHUNK_SIZE in
        chunk ← files (call (SPread fp (Z.to_nat done) (Z.to_nat want)));
        if negb (zlen chunk =? want) then fail
        else
          on_answer (save_part is_big file_id part_idx total_parts chunk) ;;
          parts_loop fuel fp is_big total file_id total_parts (part_idx + 1) (done + zlen chunk)
  end.

Definition upload_all_parts (fp : nat) (is_big : bool) (total file_id total_parts : Z) : Fx Z Z :=
  upd_obj (fun _ => 0) ;;
  parts_loop (S (Z.to_nat total_parts)) fp is_big total file_id total_parts 0 0.

(** [crypto_rand_bytes(buf, 8)] as an [int64_t]. *)
Definition rand_int64 {X} : Fx X Z :=
  buf ← on_snd (on_snd (crypto_rand_bytes 8));
  mret (s64 (le_combine buf)).

(** The file at the data centre [dc]; the number and the parts of the file. *)
Definition upload_at_dc {X} (dc : Z) (fp : nat) (is_big : bool) (total total_parts : Z) : Fx X (Z * Z) :=
  xdc ← dc_session_open server_key malloc_bytes dc;
  r ← succeeded_with (dc_session_ensure_authorized tinf cfg xdc);
  match r with
  | None => dc_session_close xdc ;; fail
  | Some xdc =>
      file_id ← rand_int64;
      r ← abroad xdc (with_obj 0 (upload_all_parts fp is_big total file_id total_parts));
      dc_session_close (snd r) ;;
      match fst r with Some (Some parts, _) => mret (file_id, parts) | _ => fail end
  end.

Definition upload_chunk_phase {X} (file_path : list byte) : Fx X UploadedFile :=
  size ← files (upload_size (string_of_list_byte file_path));
  match size with
  | None => fail
  | Some total =>
      let is_big := UPLOAD_BIG_THRESHOLD <=? total in
      let total_parts := (total + UPLOAD_CHUNK_SIZE - 1) / UPLOAD_CHUNK_SIZE in
      fp ← files (call (SOpen (string_of_list_byte file_path) false false));
      match fp with
      | None => fail
      | Some fp =>
          finally
            (file_id ← rand_int64;
             r ← with_obj 0 (upload_all_parts fp is_big total file_id total_parts);
             '(file_id, parts) ←
               match r with
               | (Some parts, _) => mret (file_id, parts)
               | (None, home_migrate) =>
                   if home_migrate <=? 0 then fail
                   else upload_at_dc home_migrate fp is_big total total_parts
               end;
             mret (mkUploaded file_id parts is_big (copy_trunc 256 (basename_of file_path))))
            (files (call (SClose fp)))
      end
  end.

(** ** The message *)

Definition write_input_file (w : TlWriter) (uf : UploadedFile) : TlWriter :=
  if uf_is_big uf then
    let w := tl_write_uint32 w CRC_inputFileBig in
    let w := tl_write_int64 w (uf_file_id uf) in
    let w := tl_write_int32 w (uf_part_count uf) in
    tl_write_string w (Some (uf_file_name uf))
  else
    let w := tl_write_uint32 w CRC_inputFile in
    let w := tl_write_int64 w (uf_file_id uf) in
    let w := tl_write_int32 w (uf_part_count uf) in
    let w := tl_write_string w (Some (uf_file_name uf)) in
    tl_write_string w (Some []).

(** Every answer that is not an error counts as success. *)
Definition send_media_call (query : list byte) : Cx RpcError unit :=
  resp ← call_api tinf cfg query 4096;
  check_top keep_err any_top resp.

Definition document_query (peer : HistoryPeer) (uf : UploadedFile) (caption mime_type : list byte)
    (random_id : Z) : TlWriter :=
  let w := tl_writer_init in
  let w := tl_write_uint32 w CRC_messages_sendMedia in
  let w := tl_write_uint32 w 0 in
  let w := write_input_peer w peer in
  let w := tl_write_uint32 w CRC_inputMediaUploadedDocument in
  let w := tl_write_uint32 w 0 in
  let w := write_input_file w uf in
  let w := tl_write_string w (Some mime_type) in
  let w := tl_write_uint32 w TL_vector in
  let w := tl_write_uint32 w 1 in
  let w := tl_write_uint32 w CRC_documentAttributeFilename in
  let w := tl_write_string w (Some (uf_file_name uf)) in
  let w := tl_write_string w (Some caption) in
  tl_write_int64 w random_id.

Definition photo_query (peer : HistoryPeer) (uf : UploadedFile) (caption : list byte) (random_id : Z)
    : TlWriter :=
  let w := tl_writer_init in
  let w := tl_write_uint32 w CRC_messages_sendMedia in
  let w := tl_write_uint32 w 0 in
  let w := write_input_peer w peer in
  let w := tl_write_uint32 w CRC_inputMediaUploadedPhoto in
  let w := tl_write_uint32 w 0 in
  let w := write_input_file w uf in
  let w := tl_write_string w (Some caption) in
  tl_write_int64 w random_id.

Definition domain_send_file (peer : HistoryPeer) (file_path caption mime_type : list byte)
    : Fx RpcError unit :=
  uf ← upload_chunk_phase file_path;
  random_id ← rand_int64;
  on_answer (send_media_call (w_data (document_query peer uf caption mime_type random_id))).

Definition domain_send_photo (peer : HistoryPeer) (file_path caption : list byte) : Fx RpcError unit :=
  uf ← upload_chunk_phase file_path;
  random_id ← rand_int64;
  on_answer (send_media_call (w_data (photo_query peer uf caption random_id))).

End Upload.
