(* ===== verification/TransferTheorems.v ===== *)
(** * Downloads and uploads: theorems

    What a finished download has written and a finished upload has sent,
    whatever the server, the network and the kernel did; that both end; and
    that a download takes an answer that is cut short for the end of the
    file. *)

From Stdlib Require Import String.
From S2P Require Import Prelude CLib TlSerial TlLogic TlCrc TlSkipBase TlSkipMedia TlSkipSafe TlRefine World MtprotoCrypto.
From S2P Require Import MtprotoSession Transport WireTheorems MtprotoRpc RpcCorrect ApiCall ApiCorrect RpcTheorems.
From S2P Require Import Request CallLogic BigNum ServerKey MtprotoAuth AuthSafe AuthTheorems FileSys FileLogic.
From S2P Require Import SessionStore Auth2fa LoginCorrect LoginTheorems DomainWrite DomainWriteTheorems.
From S2P Require Import Progress Machine AuthFlow DcSession ProcessLogic MediaIndex Media Upload.

#[local] Open Scope Z_scope.

(** ** Requests *)

Definition location_bytes (info : MediaInfo) : list byte :=
  if decide (kind info = MEDIA_DOCUMENT) then
    enc32 CRC_inputDocumentFileLocation ++ enc64 (document_id info) ++ enc64 (access_hash info) ++
    enc_bytes (file_reference info) ++ enc_bytes []
  else
    enc32 CRC_inputPhotoFileLocation ++ enc64 (photo_id info) ++ enc64 (access_hash info) ++
    enc_bytes (file_reference info) ++ enc_bytes (match thumb_type info with [] => ascii "y" | t => t end).

(** upload.getFile for the whole media in steps of CHUNK_SIZE. *)
Definition getfile_bytes (info : MediaInfo) (offset : Z) : list byte :=
  enc32 CRC_upload_getFile ++ enc32 0 ++ location_bytes info ++ enc64 offset ++ enc32 CHUNK_SIZE.

(** What tl_skip.c puts into the object. *)
Definition media_ok (info : MediaInfo) : Prop :=
  zlen (file_reference info) <= MEDIA_FILE_REF_MAX /\ zlen (thumb_type info) < 16.

Definition getfile_writer (info : MediaInfo) (offset limit : Z) : TlWriter :=
  let w := tl_writer_init in
  let w := tl_write_uint32 w CRC_upload_getFile in
  let w := tl_write_uint32 w 0 in
  let w := write_location w info in
  let w := tl_write_int64 w offset in
  tl_write_int32 w limit.

Lemma thumb_len info : media_ok info ->
  zlen (match thumb_type info with [] => ascii "y" | t => t end) <= 16.
Proof. intros [_ H]. destruct (thumb_type info) as [|b l]; [by vm_compute|lia]. Qed.

Lemma getfile_written info offset : media_ok info ->
  w_data (getfile_writer info offset CHUNK_SIZE) = getfile_bytes info offset /\
  counts (getfile_writer info offset CHUNK_SIZE) /\ zlen (getfile_bytes info offset) <= 1024.
Proof.
  intros Hm. pose proof (thumb_len info Hm) as Ht. destruct Hm as [Hr _]. unfold MEDIA_FILE_REF_MAX in Hr.
  unfold getfile_writer, getfile_bytes, write_location, location_bytes. cbn zeta.
  destruct (decide _); (split; [|split]).
  - wdata. rewrite write_string_data by (cbn [default id]; first [lia|by vm_compute]). wdata.
    by rewrite <- ?app_assoc.
  - by counts_tac.
  - pose proof (@zlen_nil byte). enc_lia.
  - wdata. rewrite write_string_data by (cbn [default id]; first [lia|by vm_compute]). wdata.
    by rewrite <- ?app_assoc.
  - by counts_tac.
  - pose proof (@zlen_nil byte). enc_lia.
Qed.

(** upload.saveFilePart or saveBigFilePart. *)
Definition part_bytes (is_big : bool) (file_id part_idx total_parts : Z) (bytes : list byte) : list byte :=
  enc32 (if is_big then CRC_upload_saveBigFilePart else CRC_upload_saveFilePart) ++ enc64 file_id ++
  enc32 part_idx ++ optional is_big (enc32 total_parts) ++ enc_bytes bytes.

Lemma part_written is_big file_id part_idx total_parts bytes : zlen bytes < 2 ^ 60 ->
  w_data (part_query is_big file_id part_idx total_parts bytes) =
    part_bytes is_big file_id part_idx total_parts bytes.
Proof.
  intros Hz. unfold part_query, part_bytes, optional. destruct is_big; wdata; by rewrite <- ?app_assoc.
Qed.

(** ** Safety *)

Lemma px_file {X} (I : X -> Prop) : px_safe I parse_file any_result.
Proof. unfold parse_file. by px_tac. Qed.

Section Safe.
Context `{Io : Stdio}.
Context `{C : Crypto} {HC : CryptoLaws C} `{R : Rsa} {HB : BigNumLaws B} {HR : RsaLaws R}.
Context (server_key : ServerKeyState) (malloc_bytes : nat -> list byte).
Context (tinf : Z -> list byte -> option (list byte)) (cfg : ApiConfig).
Context (rnd : nat -> byte) (Hmalloc : malloc_sized malloc_bytes) (Hrnd : nonzero_rand rnd).
Context (Hcfg : cfg_small cfg) (Hf : tinf_fits tinf).

(** *** Downloads *)

Lemma get_chunk_eq info off :
  get_chunk tinf cfg info off =
    (query ← take_query (getfile_writer info off CHUNK_SIZE) 1024;
     resp ← call_api tinf cfg query (CHUNK_SIZE + 4096);
     check_top keep_migrate (Z.eqb CRC_upload_file) resp ;;
     with_parser resp parse_file).
Proof. reflexivity. Qed.

Lemma get_chunk_safe info off : media_ok info -> cx_safe no_inv (get_chunk tinf cfg info off) any_result.
Proof using HC Hcfg Hf.
  intros Hm. destruct (getfile_written info off Hm) as (Hd & Hc & Hl).
  rewrite get_chunk_eq.
  eapply cx_exchange; [exact _|done|done|done|rewrite Hd; lia|lia|unfold CHUNK_SIZE; lia|done|].
  intros resp Hz _. apply cx_parser; [unfold SIZE_LIM, CHUNK_SIZE in *; lia|apply px_file].
Qed.

Lemma tracks_get_chunk info off : tracks (get_chunk tinf cfg info off).
Proof. rewrite get_chunk_eq. tracks_tac. Qed.

Lemma eats_get_chunk info off : eats (get_chunk tinf cfg info off).
Proof.
  rewrite get_chunk_eq. apply eats_then; [tracks_tac|]. intros q.
  apply eats_first; [apply eats_call_api|]. intros resp. tracks_tac.
Qed.

(** What a finished chunk was: an answer upload.file to the request for
    [off], and the bytes field the parser finds in it, [[]] when it is cut. *)
Definition chunk_answer (info : MediaInfo) (off : Z) (c : Conn) (b : list byte) (c' : Conn) : Prop :=
  exists resp o x, api_call tinf cfg (getfile_bytes info off) (CHUNK_SIZE + 4096) c = Done resp c' /\
    4 <= zlen resp /\ first_word resp = CRC_upload_file /\
    with_parser resp parse_file (x : Z, c') = Done o (x, c') /\ b = default [] o.

(** The chunks of a file: all full but the last, each asked for at the end of
    the ones before. *)
Inductive chunks_received (info : MediaInfo) : Z -> list (list byte) -> Conn -> Conn -> Prop :=
| received_last off b c c' :
    chunk_answer info off c b c' -> zlen b < CHUNK_SIZE -> chunks_received info off [b] c c'
| received_more off b bs c c1 c2 :
    chunk_answer info off c b c1 -> CHUNK_SIZE <= zlen b ->
    chunks_received info (off + zlen b) bs c1 c2 -> chunks_received info off (b :: bs) c c2.

Lemma parser_keeps {X A} resp (m : Px X A) x c a x' c' :
  with_parser resp m (x, c) = Done a (x', c' : Conn) -> c' = c.
Proof. unfold with_parser. cbn [fst snd]. destruct (m _); try done. by intros [= _ _ <-]. Qed.

Lemma lift_obj {X A} (m : Rd A) r (x : X) a r' x' : lift m (r, x) = Done a (r', x') -> x' = x.
Proof. unfold lift. cbn [fst snd]. destruct (m r); try done. by intros [= _ _ <-]. Qed.

Lemma parse_file_obj resp (x : Z) (c : Conn) o x' c' :
  with_parser resp parse_file (x, c) = Done o (x', c') -> x' = x.
Proof.
  unfold with_parser. cbn [fst snd]. destruct (parse_file _) as [a [r y]| | |] eqn:E; try done.
  intros [= _ <- _]. unfold parse_file in E.
  do 3 (apply run_inv in E as (? & [? ?] & ->%lift_obj & E)). by apply lift_obj in E.
Qed.

(** What a check that succeeds has seen. *)
Lemma check_top_done {X W} on_error expected resp (st st' : X * W) :
  check_top on_error expected resp st = Done tt st' ->
  st' = st /\ 4 <= zlen resp /\ expected (first_word resp) = true.
Proof.
  intros E. pose proof (check_top_inv _ _ _ _ _ E) as ->. unfold check_top in E.
  destruct (Z.ltb_spec (zlen resp) 4); [done|]. cbn zeta in E.
  destruct (first_word resp =? TL_rpc_error); [by destruct (rpc_parse_error resp)|].
  destruct (expected (first_word resp)); by inversion E.
Qed.

(** One step of the loop. *)
Lemma chunk_at info off x m s t w :
  media_ok info -> session_wf s -> w_rand w = rnd ->
  match on_answer (get_chunk tinf cfg info off) ((x, m), (s, t, w)) with
  | Done o ((x', m'), (s', t', w')) =>
      session_wf s' /\ w_rand w' = rnd /\ (incoming w' < incoming w)%nat /\ m' = m /\
      chunk_answer info off (s, t, w) (default [] o) (s', t', w')
  | Fail (_, (s', _, w')) => session_wf s' /\ w_rand w' = rnd
  | Fault | NoFuel => False
  end.
Proof using HC Hcfg Hf.
  intros Hm Hs Hw. pose proof (get_chunk_safe info off Hm x s t w Logic.I Hs) as Hsafe.
  pose proof (tracks_get_chunk info off (x, (s, t, w))) as Ht.
  pose proof (eats_get_chunk info off (x, (s, t, w))) as He. unfold on_answer.
  destruct (get_chunk _ _ _ _ _) as [o [y [[s1 t1] w1]]|[y [[s1 t1] w1]]| |] eqn:E; try done.
  - specialize (He _ _ eq_refl). destruct Hsafe as (Hk & _), Ht as (Hr & _).
    split_and!; [apply Hk|by rewrite <- Hw|done|done|].
    rewrite get_chunk_eq in E.
    apply run_inv in E as (q & st1 & [-> ->]%take_query_inv & E).
    apply run_inv in E as (resp & [y2 st2] & [-> Ea]%call_api_inv & E).
    apply run_inv in E as ([] & st3 & Ec & E).
    destruct (getfile_written info off Hm) as (Hd & _). rewrite Hd in Ea.
    apply check_top_done in Ec as (-> & Hz & Hfw). apply Z.eqb_eq in Hfw.
    pose proof (parser_keeps _ _ _ _ _ _ _ E) as <-.
    pose proof (parse_file_obj _ _ _ _ _ _ E) as ->. by exists resp, o, x.
  - destruct Hsafe as (Hk & _), Ht as (Hr & _). split; [apply Hk|by rewrite <- Hw].
Qed.

(** A file that is being written. *)
Definition writing (path : string) (fd : nat) (y : list byte) (fs : FS) : Prop :=
  fs_wf fs /\ exists i, fs_fds fs !! fd = Some i /\ fs_names fs !! path = Some i /\ fs_inodes fs !! i = Some y.

Lemma writing_file path fd y fs : writing path fd y fs -> file path fs = Some y.
Proof. intros [_ (i & _ & Hp & Hi)]. unfold file. rewrite Hp. exact Hi. Qed.

Lemma append_writes path fd y data d fs n fs' :
  writing path fd y fs -> exec d (SAppend fd data) fs = (n, fs') ->
  writing path fd (y ++ moved d data) fs' /\ (n = zlen data -> moved d data = data).
Proof.
  intros [[H1 H2] (i & Hfd & Hp & Hi)] E. cbn in E. rewrite Hfd, Hi in E. cbn in E.
  injection E as Hm <-. split.
  - split; [split; [|done]|].
    + cbn. intros p j Hj. apply H1 in Hj as [? ?]. split; [done|].
      destruct (decide (i = j)) as [->|]; [by rewrite lookup_insert_eq|by rewrite lookup_insert_ne].
    + exists i. cbn. by rewrite lookup_insert_eq.
  - intros Hn. destruct d as [| |k]; cbn in *; [done| |].
    + unfold zlen in *. lia.
    + apply take_ge. subst n. unfold zlen in *. rewrite length_take in *. lia.
Qed.

Lemma next_decision_from ds d ds' :
  next_decision ds = (d, ds') -> ds' `suffix_of` ds /\ (d = DOk \/ d ∈ ds).
Proof.
  destruct ds as [|d1 ds1]; intros [= <- <-].
  - split; [done|by left].
  - split; [by exists [d1]|right; left].
Qed.

(** What a stream holds after a chunk, and what it has handed over: an empty
    chunk is not given to [fwrite]. *)
Definition held_after (held b : list byte) : list byte := match b with [] => held | _ => kept held b end.
Definition handed_at (held b : list byte) : list byte := match b with [] => [] | _ => handed held b end.

Definition buffered (held : list byte) (bs : list (list byte)) : list byte := fold_left held_after bs held.

(** A write that succeeds: what it handed over is in the file. *)
Lemma stream_write_at path fd y held data x m (c : Conn) :
  match files (stream_write fd held data) ((x : Z, m), c) with
  | Done w ((_, m'), c') =>
      c' = c /\ (fst w = true -> snd w = kept held data /\ m_ds m' `suffix_of` m_ds m /\
        (writing path fd y (m_fs m) -> writing path fd (y ++ handed held data) (m_fs m')))
  | _ => False
  end.
Proof.
  unfold files, stream_write. destruct (handed held data) as [|b l] eqn:Eh; cbn.
  - split; [done|]. intros _. rewrite app_nil_r. by split_and!.
  - destruct (next_decision (m_ds m)) as [d ds] eqn:Ed.
    destruct (exec d (SAppend fd (b :: l)) (m_fs m)) as [n fs] eqn:E. cbn in E. rewrite E.
    apply next_decision_from in Ed as [Hds _].
    destruct (Z.eqb_spec n (zlen (b :: l))) as [Hn|]; cbn; (split; [done|]); [|done].
    intros _. split_and!; [done|done|]. intros Hw.
    destruct (append_writes _ _ _ _ _ _ _ _ Hw E) as [Hw' Hm]. by rewrite Hm in Hw'.
Qed.

Lemma handed_held held b : handed_at held b ++ held_after held b = held ++ b.
Proof. unfold handed_at, held_after. destruct b; [by rewrite app_nil_r|apply take_drop]. Qed.

Lemma chunk_write_at path fd y held b x m (c : Conn) :
  let write : Fx Z (bool * list byte) :=
    if 0 <? zlen b then files (stream_write fd held b) else mret (true, held) in
  match write ((x, m), c) with
  | Done r ((_, m'), c') => c' = c /\ (fst r = true -> snd r = held_after held b /\
      m_ds m' `suffix_of` m_ds m /\
      (writing path fd y (m_fs m) -> writing path fd (y ++ handed_at held b) (m_fs m')))
  | _ => False
  end.
Proof.
  intros write. subst write. destruct b as [|b0 bl]; [|apply stream_write_at]. cbn. split; [done|]. intros _.
  rewrite app_nil_r. by split_and!.
Qed.

(** The loop: when it is left by its [break], the bytes in the file and those
    in the buffer are those of the chunks. *)
Lemma chunk_loop_at info path fd : media_ok info -> forall fuel held off y x m s t w,
  session_wf s -> w_rand w = rnd -> (incoming w < fuel)%nat ->
  match chunk_loop tinf cfg fuel info fd held off ((x, m), (s, t, w)) with
  | Done r ((_, m'), (s', t', w')) =>
      session_wf s' /\ w_rand w' = rnd /\ (fst r = true ->
        exists bs, chunks_received info off bs (s, t, w) (s', t', w') /\
          snd r = buffered held bs /\ m_ds m' `suffix_of` m_ds m /\
          (writing path fd y (m_fs m) ->
           exists z, writing path fd z (m_fs m') /\ z ++ snd r = y ++ held ++ concat bs))
  | _ => False
  end.
Proof using HC Hcfg Hf.
  intros Hm. induction fuel as [|fuel IH]; intros held off y x m s t w Hs Hw Hfuel; [lia|].
  cbn [chunk_loop]. pose proof (chunk_at info off x m s t w Hm Hs Hw) as Hc.
  unfold mbind at 1, M_bind at 1, succeeded_with.
  destruct (on_answer _ _) as [o [[x1 m1] [[s1 t1] w1]]|[[x1 m1] [[s1 t1] w1]]| |]; try done;
    [|by destruct Hc].
  destruct Hc as (Hs1 & Hw1 & Hin & -> & Hans). cbn zeta. set (b := default [] o) in *.
  pose proof (chunk_write_at path fd y held b x1 m (s1, t1, w1)) as Hw'. cbn zeta in Hw'.
  pose proof (handed_held held b) as Ho. set (held2 := held_after held b) in *. set (out := handed_at held b) in *.
  set (write := if 0 <? zlen b then files (stream_write fd held b) else mret (true, held)) in *.
  unfold mbind at 1, M_bind at 1.
  destruct (write _) as [[[] h2] [[x2 m2] c2]| | |]; try done; cbn [fst snd negb] in *;
    destruct Hw' as [-> Hw']; [|done]. destruct (Hw' eq_refl) as (-> & Hds & Hfs). clear Hw'.
  destruct (Z.ltb_spec (zlen b) CHUNK_SIZE) as [Hb|Hb].
  - split_and!; try done. intros _. exists [b]. split_and!; [by constructor|done|done|].
    intros Hy. exists (y ++ out). split; [auto|]. cbn [concat snd]. by rewrite app_nil_r, <- app_assoc, Ho.
  - specialize (IH held2 (off + zlen b) (y ++ out) x2 m2 s1 t1 w1 Hs1 Hw1 ltac:(lia)).
    destruct (chunk_loop _ _ _ _ _ _ _ _) as [r [[x3 m3] [[s3 t3] w3]]| | |]; try done.
    destruct IH as (Hs3 & Hw3 & IH). split_and!; try done. intros Hr.
    destruct (IH Hr) as (bs & Hbs & Hsnd & Hds3 & Hfs3). exists (b :: bs).
    split_and!; [by econstructor|done|by etransitivity|]. intros Hy.
    destruct (Hfs3 (Hfs Hy)) as (z & Hz & Ez). exists z. split; [done|]. rewrite Ez. cbn [concat].
    rewrite <- (app_assoc y out), (app_assoc out), Ho. by rewrite <- !app_assoc.
Qed.

(** [fclose]: the kernel decides about the bytes in the buffer. *)
Lemma stream_close_at path fd held x m (c : Conn) :
  match files (stream_close fd held) ((x : Z, m), c) with
  | Done _ ((_, m'), c') =>
      c' = c /\ exists d, (d = DOk \/ d ∈ m_ds m) /\ forall z,
        writing path fd z (m_fs m) -> file path (m_fs m') = Some (z ++ moved d held)
  | _ => False
  end.
Proof.
  assert (Hclose : forall y fs d u fs', writing path fd y fs -> exec d (SClose fd) fs = (u, fs') ->
    file path fs' = Some y).
  { intros y fs d u fs' Hw E. apply exec_quiet in E as [_ ->]; [by eapply writing_file|done|apply Hw]. }
  unfold files, stream_close, mbind, prog_mbind, call. destruct held as [|b l]; cbn -[exec].
  - destruct (next_decision (m_ds m)) as [d1 ds1]. destruct (exec d1 (SClose fd) (m_fs m)) as [u fs1] eqn:E1.
    split; [done|]. exists DOk. split; [by left|]. intros z Hw. cbn. rewrite app_nil_r. by eapply Hclose.
  - destruct (next_decision (m_ds m)) as [d ds] eqn:Ed.
    destruct (exec d (SAppend fd (b :: l)) (m_fs m)) as [n fs] eqn:E.
    destruct (next_decision ds) as [d1 ds1]. destruct (exec d1 (SClose fd) fs) as [u fs1] eqn:E1.
    split; [done|]. exists d. split; [by eapply next_decision_from|]. intros z Hw.
    eapply Hclose; [|exact E1]. by eapply append_writes.
Qed.

(** Opening for writing gives an empty file. *)
Lemma open_writes path fs ds o fs' ds' :
  fs_wf fs -> exec_prog (call (SOpen path true true)) fs ds = (o, fs', ds') ->
  fs_wf fs' /\ forall fd, o = Some fd -> writing path fd [] fs'.
Proof.
  intros Hwf. unfold call. cbn [exec_prog]. destruct (next_decision ds) as [d ds1].
  destruct (exec d (SOpen path true true) fs) as [o1 fs1] eqn:E. intros [= <- <- <-].
  assert (Hd : o1 = None /\ fs1 = fs \/ open_at path true true fs = (o1, fs1)).
  { cbn in E. destruct d; [by right|left; by inversion E|by right]. }
  destruct Hd as [[-> ->]|Ho]; [done|].
  destruct (open_at_spec _ _ _ _ _ _ Hwf Ho) as (Hwf' & _ & Hspec). split; [done|].
  intros fd ->. destruct Hspec as (i & ? & ? & ? & _). split; [done|]. by exists i.
Qed.

(** A download with a result. *)
Lemma download_loop_at info out_path x m s t w :
  media_ok info -> session_wf s -> w_rand w = rnd ->
  match download_loop tinf cfg info out_path ((x, m), (s, t, w)) with
  | Done _ ((_, m'), (s', t', w')) =>
      session_wf s' /\ w_rand w' = rnd /\
      exists bs d, chunks_received info 0 bs (s, t, w) (s', t', w') /\ (d = DOk \/ d ∈ m_ds m) /\
        (fs_wf (m_fs m) -> exists z, z ++ buffered [] bs = concat bs /\
           file (path_of out_path) (m_fs m') = Some (z ++ moved d (buffered [] bs)))
  | Fail (_, (s', _, w')) => session_wf s' /\ w_rand w' = rnd
  | Fault | NoFuel => False
  end.
Proof using HC Hcfg Hf.
  intros Hm Hs Hw. unfold download_loop. unfold mbind at 1, M_bind at 1, files at 1.
  destruct (exec_prog _ (m_fs m) (m_ds m)) as [[o fs1] ds1] eqn:E.
  destruct o as [fd|]; [|done]. set (m1 := set_files fs1 ds1 m).
  assert (Hds1 : ds1 `suffix_of` m_ds m).
  { unfold call in E. cbn -[exec] in E. destruct (next_decision (m_ds m)) as [d ds] eqn:Ed.
    destruct (exec d _ _). injection E as _ _ <-. by eapply next_decision_from. }
  pose proof (chunk_loop_at info (path_of out_path) fd Hm (S (length (n_in (w_net w)))) [] 0 [] x m1 s t w
    Hs Hw ltac:(unfold incoming; lia)) as H.
  unfold mbind at 1, M_bind at 1. cbn [snd]. unfold mbind at 1, M_bind at 1.
  destruct (chunk_loop _ _ _ _ _ _ _ _) as [[ok held] [[x3 m3] [[s3 t3] w3]]| | |]; try done.
  destruct H as (Hs3 & Hw3 & H). cbn [fst snd] in *.
  pose proof (stream_close_at (path_of out_path) fd held x3 m3 (s3, t3, w3)) as Hc.
  unfold mbind at 1, M_bind at 1.
  destruct (files (stream_close fd held) _) as [[] [[x4 m4] c4]| | |]; try done.
  destruct Hc as (-> & d & Hd & Hfile). destruct ok; [|done].
  destruct (H eq_refl) as (bs & Hbs & -> & Hds3 & Hfs3). split_and!; [done|done|].
  exists bs, d. split_and!; [done| |].
  - destruct Hd as [|Hd]; [by left|right]. eapply elem_of_suffix; [exact Hd|by etransitivity].
  - intros Hfs. apply open_writes in E as [_ Ho]; [|done].
    destruct (Hfs3 (Ho fd eq_refl)) as (z & Hz & Ez). exists z. split; [exact Ez|by apply Hfile].
Qed.

Lemma download_loop_safe info out_path :
  media_ok info -> fx_safe rnd (download_loop tinf cfg info out_path) any_result.
Proof using HC Hcfg Hf.
  intros Hm [x m] s t w Hs Hw. pose proof (download_loop_at info out_path x m s t w Hm Hs Hw) as H.
  destruct (download_loop _ _ _ _ _) as [[] [[x3 m3] [[s3 t3] w3]]|[[x3 m3] [[s3 t3] w3]]| |]; try done.
  by destruct H as (? & ? & _).
Qed.

Lemma download_safe id info out_path :
  media_ok info -> fx_safe rnd (download tinf cfg id info out_path) any_result.
Proof using HC Hcfg Hf.
  intros Hm. pose proof (download_loop_safe info out_path Hm). unfold download. fx_tac.
Qed.

Lemma download_any_safe info out_path :
  media_ok info -> fx_safe rnd (download_any tinf cfg info out_path) any_result.
Proof using HC Hcfg Hf.
  intros Hm. pose proof (fun id => download_safe id info out_path Hm).
  unfold download_any, domain_download_photo, domain_download_document.
  fx_tac; auto.
Qed.

Lemma cross_dc_safe info out_path :
  media_ok info ->
  fx_safe rnd (domain_download_media_cross_dc server_key malloc_bytes tinf cfg info out_path) any_result.
Proof using HB HC HR Hcfg Hf Hmalloc Hrnd.
  intros Hm. pose proof (download_any_safe info out_path Hm) as Ha. unfold domain_download_media_cross_dc.
  eapply fx_bind; [apply fx_upd_obj|]. intros _ _.
  eapply fx_bind; [by eapply fx_succeeded|]. intros ok _. destruct ok; [by apply fx_ret|].
  eapply fx_bind; [apply fx_obj|]. intros wrong_dc _. destruct (_ <=? 0); [apply fx_fail|].
  eapply fx_bind; [by apply dc_open_safe|]. intros xdc Hx.
  eapply fx_bind; [by eapply fx_succeeded_with, dc_ensure_safe|]. intros [d|] Hd; cbn in Hd.
  - eapply fx_bind; [apply fx_abroad; [done|]|].
    { eapply fx_bind; [apply fx_upd_obj|]. intros _ _. exact Ha. }
    intros [o d'] [_ Hd']. eapply fx_bind; [by apply dc_close_safe|]. intros _ _. by destruct o; fx_step.
  - eapply fx_bind; [by apply dc_close_safe|]. intros _ _. apply fx_fail.
Qed.

(** *** Uploads *)

Lemma part_len is_big file_id idx total_parts bytes : zlen bytes <= UPLOAD_CHUNK_SIZE ->
  zlen (part_bytes is_big file_id idx total_parts bytes) <= 600000.
Proof.
  unfold UPLOAD_CHUNK_SIZE, part_bytes, optional. intros Hz. destruct is_big; enc_lia.
Qed.

(** The part went out as one request, which was answered with boolTrue. *)
Definition part_accepted (is_big : bool) (file_id total_parts idx : Z) (bytes : list byte) (c c' : Conn) : Prop :=
  exists resp, api_call tinf cfg (part_bytes is_big file_id idx total_parts bytes) 256 c = Done resp c' /\
    4 <= zlen resp /\ first_word resp = TL_boolTrue.

Inductive parts_accepted (is_big : bool) (file_id total_parts : Z) : Z -> list (list byte) -> Conn -> Conn -> Prop :=
| accepted_none idx c : parts_accepted is_big file_id total_parts idx [] c c
| accepted_part idx b bs c c1 c2 :
    part_accepted is_big file_id total_parts idx b c c1 ->
    parts_accepted is_big file_id total_parts (idx + 1) bs c1 c2 ->
    parts_accepted is_big file_id total_parts idx (b :: bs) c c2.

Lemma save_part_eq is_big file_id idx total_parts bytes : zlen bytes < 2 ^ 60 ->
  save_part tinf cfg is_big file_id idx total_parts bytes =
    (upd_ctx (fun _ => 0) ;;
     resp ← call_api tinf cfg (part_bytes is_big file_id idx total_parts bytes) 256;
     check_top keep_migrate (Z.eqb TL_boolTrue) resp).
Proof. intros Hz. unfold save_part. by rewrite part_written. Qed.

Lemma save_part_at is_big file_id idx total_parts bytes x m s t w :
  zlen bytes <= UPLOAD_CHUNK_SIZE -> session_wf s -> w_rand w = rnd ->
  match on_answer (save_part tinf cfg is_big file_id idx total_parts bytes) ((x, m), (s, t, w)) with
  | Done _ ((_, m'), (s', t', w')) =>
      session_wf s' /\ w_rand w' = rnd /\ m' = m /\
      part_accepted is_big file_id total_parts idx bytes (s, t, w) (s', t', w')
  | Fail (_, (s', _, w')) => session_wf s' /\ w_rand w' = rnd
  | Fault | NoFuel => False
  end.
Proof using HC Hcfg Hf.
  intros Hz Hs Hw. pose proof (part_len is_big file_id idx total_parts bytes Hz) as Hl.
  rewrite save_part_eq by (unfold UPLOAD_CHUNK_SIZE in Hz; lia). set (m0 := _ ;; _).
  assert (Hsafe : cx_safe (X := Z) no_inv m0 any_result).
  { unfold m0. eapply cx_bind; [by apply cx_upd|]. intros _ _. eapply cx_bind; [apply cx_call; try done|].
    - rewrite wrapped_len. unfold cfg_small, RPC_BUF_SIZE in *. lia.
    - intros resp _. eapply cx_weaken; [by apply cx_check_top|done]. }
  assert (Ht : tracks m0) by (unfold m0; tracks_tac).
  specialize (Hsafe x s t w Logic.I Hs). specialize (Ht (x, (s, t, w))). unfold on_answer.
  destruct (m0 _) as [[] [y [[s1 t1] w1]]|[y [[s1 t1] w1]]| |] eqn:E; try done.
  - destruct Hsafe as (Hk & _), Ht as (Hr & _). split_and!; [apply Hk|by rewrite <- Hw|done|].
    unfold m0 in E. apply run_inv in E as ([] & st1 & E1 & E). injection E1 as <-.
    apply run_inv in E as (resp & [y2 st2] & [-> Ea]%call_api_inv & E).
    apply check_top_done in E as (E2 & Hz2 & Hfw). injection E2 as -> <-. apply Z.eqb_eq in Hfw.
    by exists resp.
  - destruct Hsafe as (Hk & _), Ht as (Hr & _). split; [apply Hk|by rewrite <- Hw].
Qed.

(** What the descriptor stands for. *)
Definition contents (fd : nat) (fs : FS) : list byte := default [] (fs_fds fs !! fd ≫= (fs_inodes fs !!.)).

(** [chunks] are [data] in parts of UPLOAD_CHUNK_SIZE, the last one shorter. *)
Definition split_in_parts (data : list byte) (chunks : list (list byte)) : Prop :=
  concat chunks = data /\
  (forall i b, chunks !! i = Some b -> 0 < zlen b <= UPLOAD_CHUNK_SIZE /\
     ((S i < length chunks)%nat -> zlen b = UPLOAD_CHUNK_SIZE)).

Lemma split_count data chunks : split_in_parts data chunks ->
  zlen chunks = (zlen data + UPLOAD_CHUNK_SIZE - 1) / UPLOAD_CHUNK_SIZE.
Proof.
  intros [<- Hc]. unfold UPLOAD_CHUNK_SIZE in *. induction chunks as [|b bs IH]; [done|].
  cbn [concat]. rewrite zlen_app, zlen_cons. destruct (Hc 0%nat b eq_refl) as [Hb Hfull].
  assert (IH' : zlen bs = (zlen (concat bs) + 512 * 1024 - 1) / (512 * 1024)).
  { apply IH. intros i b' Hi. destruct (Hc (S i) b' Hi) as [H1 H2]. split; [done|].
    intros Hlt. apply H2. cbn. lia. }
  destruct bs as [|b' bs].
  - assert (Hn : zlen (@nil (list byte)) = 0) by done. assert (Hn' : zlen (concat (@nil (list byte))) = 0) by done.
    apply Z.div_unique with (r := zlen b - 1); lia.
  - rewrite Hfull by (cbn; lia). rewrite IH'.
    replace (512 * 1024 + zlen (concat (b' :: bs)) + 512 * 1024 - 1)
      with (1 * (512 * 1024) + (zlen (concat (b' :: bs)) + 512 * 1024 - 1)) by lia.
    rewrite Z.div_add_l; lia.
Qed.

Lemma read_part fd off n x m (c : Conn) :
  match files (call (SPread fd off n)) ((x : Z, m), c) with
  | Done b ((x', m'), c') =>
      x' = x /\ c' = c /\ m_fs m' = m_fs m /\
      (zlen b = Z.of_nat n -> b = take n (drop off (contents fd (m_fs m))))
  | _ => False
  end.
Proof.
  unfold files, call. cbn [exec_prog]. destruct (next_decision (m_ds m)) as [d ds]. cbn [exec fst snd].
  split_and!; try done. unfold contents. set (l := take n _). intros Hz.
  assert (Hl : (length l <= n)%nat) by (unfold l; rewrite length_take; lia).
  destruct d as [| |k]; cbn [moved] in *; unfold zlen in *; [done| |].
  - cbn [length] in Hz. symmetry. apply length_zero_iff_nil. lia.
  - apply take_ge. rewrite length_take in Hz. lia.
Qed.

Lemma parts_loop_at fp is_big total file_id total_parts : forall fuel idx done x m s t w,
  session_wf s -> w_rand w = rnd -> 0 <= done <= total ->
  total - done <= (Z.of_nat fuel - 1) * UPLOAD_CHUNK_SIZE ->
  match parts_loop tinf cfg fuel fp is_big total file_id total_parts idx done ((x, m), (s, t, w)) with
  | Done n ((_, m'), (s', t', w')) =>
      session_wf s' /\ w_rand w' = rnd /\ m_fs m' = m_fs m /\
      exists chunks, parts_accepted is_big file_id total_parts idx chunks (s, t, w) (s', t', w') /\
        n = idx + zlen chunks /\
        split_in_parts (slice (Z.to_nat done) (Z.to_nat (total - done)) (contents fp (m_fs m))) chunks
  | Fail (_, (s', _, w')) => session_wf s' /\ w_rand w' = rnd
  | Fault | NoFuel => False
  end.
Proof using HC Hcfg Hf.
  unfold UPLOAD_CHUNK_SIZE.
  induction fuel as [|fuel IH]; intros idx done x m s t w Hs Hw Hdone Hfuel; [lia|].
  cbn [parts_loop]. destruct (Z.ltb_spec done total) as [Hlt|Hge]; cbn [negb].
  2: { do 3 (split; [done|]). exists []. split; [constructor|]. split; [unfold zlen; cbn; lia|].
    replace (Z.to_nat (total - done)) with 0%nat by lia. split; [done|]. intros i b Hi. done. }
  cbn zeta. set (want := Z.min (total - done) UPLOAD_CHUNK_SIZE).
  assert (Hwant : 0 < want <= 512 * 1024 /\ want <= total - done /\ (want < 512 * 1024 -> want = total - done))
    by (unfold want, UPLOAD_CHUNK_SIZE; lia).
  unfold mbind at 1, M_bind at 1.
  pose proof (read_part fp (Z.to_nat done) (Z.to_nat want) x m (s, t, w)) as Hr.
  destruct (files _ _) as [chunk [[x1 m1] c1]|?| |]; try done. destruct Hr as (-> & -> & Hm1 & Hchunk).
  destruct (Z.eqb_spec (zlen chunk) want) as [Hz|]; cbn [negb]; [|done].
  specialize (Hchunk ltac:(lia)). unfold mbind at 1, M_bind at 1.
  pose proof (save_part_at is_big file_id idx total_parts chunk x m1 s t w
    ltac:(unfold UPLOAD_CHUNK_SIZE; lia) Hs Hw) as Hp.
  destruct (on_answer _ _) as [[] [[x2 m2] [[s2 t2] w2]]|[[x2 m2] [[s2 t2] w2]]| |]; try done.
  destruct Hp as (Hs2 & Hw2 & -> & Hacc). rewrite Hz in *.
  specialize (IH (idx + 1) (done + want) x2 m1 s2 t2 w2 Hs2 Hw2 ltac:(lia) ltac:(lia)).
  destruct (parts_loop _ _ _ _ _ _ _ _ _ _ _) as [n [[x3 m3] [[s3 t3] w3]]|[[x3 m3] [[s3 t3] w3]]| |]; try done.
  destruct IH as (Hs3 & Hw3 & Hm3 & chunks & Hacc3 & Hn & Hsplit). rewrite Hm1 in *.
  do 2 (split; [done|]). split; [by rewrite Hm3|]. exists (chunk :: chunks).
  split; [by econstructor|]. split; [rewrite zlen_cons; lia|].
  destruct Hsplit as [Hcat Hsizes]. split.
  - cbn [concat]. rewrite Hcat, Hchunk. fold (slice (Z.to_nat done) (Z.to_nat want) (contents fp (m_fs m))).
    replace (Z.to_nat (done + want)) with (Z.to_nat done + Z.to_nat want)%nat by lia.
    rewrite <- slice_app. f_equal. lia.
  - intros [|i] b Hi; cbn in Hi.
    + injection Hi as <-. rewrite Hz. unfold UPLOAD_CHUNK_SIZE. split; [lia|]. intros Hlen.
      destruct (Z.ltb_spec want (512 * 1024)); [|lia]. destruct chunks as [|b bs]; [cbn in Hlen; lia|].
      destruct (Hsizes 0%nat b eq_refl) as [Hb _]. exfalso.
      replace (Z.to_nat (total - (done + want))) with 0%nat in Hcat by lia. cbn in Hcat.
      destruct b; [unfold zlen in Hb; cbn in Hb; lia|done].
    + destruct (Hsizes i b Hi) as [H1 H2]. split; [done|]. intros Hlen. apply H2. cbn in Hlen. lia.
Qed.

Lemma upload_all_at fp is_big total file_id total_parts x m s t w :
  session_wf s -> w_rand w = rnd -> 0 <= total <= total_parts * UPLOAD_CHUNK_SIZE ->
  match upload_all_parts tinf cfg fp is_big total file_id total_parts ((x, m), (s, t, w)) with
  | Done n ((_, m'), (s', t', w')) =>
      session_wf s' /\ w_rand w' = rnd /\ m_fs m' = m_fs m /\
      exists chunks, parts_accepted is_big file_id total_parts 0 chunks (s, t, w) (s', t', w') /\
        n = zlen chunks /\ split_in_parts (take (Z.to_nat total) (contents fp (m_fs m))) chunks
  | Fail (_, (s', _, w')) => session_wf s' /\ w_rand w' = rnd
  | Fault | NoFuel => False
  end.
Proof using HC Hcfg Hf.
  intros Hs Hw Ht. unfold upload_all_parts, UPLOAD_CHUNK_SIZE in *. unfold mbind, M_bind, upd_obj.
  pose proof (parts_loop_at fp is_big total file_id total_parts (S (Z.to_nat total_parts)) 0 0 0 m s t w
    Hs Hw ltac:(lia) ltac:(unfold UPLOAD_CHUNK_SIZE; lia)) as H.
  destruct (parts_loop _ _ _ _ _ _ _ _ _ _ _) as [n [[x3 m3] [[s3 t3] w3]]|[[x3 m3] [[s3 t3] w3]]| |]; try done.
  by rewrite Z.sub_0_r in H.
Qed.

Lemma upload_all_safe fp is_big total file_id total_parts :
  0 <= total <= total_parts * UPLOAD_CHUNK_SIZE ->
  fx_safe rnd (upload_all_parts tinf cfg fp is_big total file_id total_parts) any_result.
Proof using HC Hcfg Hf.
  intros Ht [x m] s t w Hs Hw. pose proof (upload_all_at fp is_big total file_id total_parts x m s t w Hs Hw Ht) as H.
  destruct (upload_all_parts _ _ _ _ _ _ _ _) as [n [[x3 m3] [[s3 t3] w3]]|[[x3 m3] [[s3 t3] w3]]| |]; try done.
  by destruct H as (? & ? & _).
Qed.

Lemma rand_id_safe {X} : fx_safe (X := X) rnd rand_int64 any_result.
Proof. unfold rand_int64. fx_tac. Qed.

Lemma upload_at_safe {X} dc fp is_big total total_parts :
  0 <= total <= total_parts * UPLOAD_CHUNK_SIZE ->
  fx_safe (X := X) rnd (upload_at_dc server_key malloc_bytes tinf cfg dc fp is_big total total_parts) any_result.
Proof using HB HC HR Hcfg Hf Hmalloc Hrnd.
  intros Ht. unfold upload_at_dc. eapply fx_bind; [by apply dc_open_safe|]. intros xdc Hx.
  eapply fx_bind; [by eapply fx_succeeded_with, dc_ensure_safe|]. intros [d|] Hd; cbn in Hd.
  - eapply fx_bind; [apply rand_id_safe|]. intros file_id _.
    eapply fx_bind; [apply fx_abroad; [done|]; by eapply fx_with_obj, upload_all_safe|].
    intros [o d'] [_ Hd']. eapply fx_bind; [by apply dc_close_safe|]. intros _ _.
    destruct o as [[[n|] ?]|]; cbn [fst]; [by apply fx_ret|apply fx_fail..].
  - eapply fx_bind; [by apply dc_close_safe|]. intros _ _. apply fx_fail.
Qed.

(** The file id, the name and the number of parts are small. *)
Definition uploaded_ok (uf : UploadedFile) : Prop := zlen (uf_file_name uf) < 256.

Lemma upload_size_returns path :
  returns (fun o => match o with Some size => 0 < size <= UPLOAD_MAX_SIZE | None => True end) (upload_size path).
Proof.
  unfold upload_size. apply returns_then. intros [size|]; [|done]. cbn.
  destruct (Z.leb_spec size 0); [done|]. destruct (Z.ltb_spec UPLOAD_MAX_SIZE size); [done|]. cbn. lia.
Qed.

Lemma chunk_phase_safe {X} path :
  fx_safe (X := X) rnd (upload_chunk_phase server_key malloc_bytes tinf cfg path) uploaded_ok.
Proof using HB HC HR Hcfg Hf Hmalloc Hrnd.
  unfold upload_chunk_phase. eapply fx_bind; [apply fx_files, upload_size_returns|].
  intros [total|] Ht; [|apply fx_fail]. cbn zeta. set (parts := (total + _ - 1) / _).
  assert (Hp : 0 <= total <= parts * UPLOAD_CHUNK_SIZE).
  { unfold parts, UPLOAD_CHUNK_SIZE in *. pose proof (Z.div_mod (total + 512 * 1024 - 1) (512 * 1024)).
    pose proof (Z.mod_pos_bound (total + 512 * 1024 - 1) (512 * 1024)). lia. }
  eapply fx_bind; [apply fx_any|]. intros [fp|] _; [|apply fx_fail].
  apply fx_finally; [|apply fx_any]. eapply fx_bind; [apply rand_id_safe|]. intros file_id _.
  eapply fx_bind; [by eapply fx_with_obj, upload_all_safe|]. intros [o home_migrate] _.
  eapply fx_bind with any_result.
  - destruct o as [n|]; [by apply fx_ret|]. destruct (_ <=? 0); [apply fx_fail|]. by apply upload_at_safe.
  - intros [fid n] _. apply fx_ret. unfold uploaded_ok. cbn. 
    unfold copy_trunc. eapply Z.le_lt_trans; [apply zlen_take_le|]. destruct (Z.leb_spec 256 (strlen (basename_of path))); lia.
Qed.

(** *** The message *)

Definition input_file_bytes (uf : UploadedFile) : list byte :=
  enc32 (if uf_is_big uf then CRC_inputFileBig else CRC_inputFile) ++ enc64 (uf_file_id uf) ++
  enc32 (uf_part_count uf) ++ enc_bytes (uf_file_name uf) ++
  optional (negb (uf_is_big uf)) (enc_bytes []).

(** messages.sendMedia with a document of one attribute, and with a photo. *)
Definition document_bytes (peer : HistoryPeer) (uf : UploadedFile) (caption mime_type : list byte)
    (random_id : Z) : list byte :=
  enc32 CRC_messages_sendMedia ++ enc32 0 ++ enc_peer peer ++ enc32 CRC_inputMediaUploadedDocument ++
  enc32 0 ++ input_file_bytes uf ++ enc_bytes mime_type ++ enc32 TL_vector ++ enc32 1 ++
  enc32 CRC_documentAttributeFilename ++ enc_bytes (uf_file_name uf) ++ enc_bytes caption ++ enc64 random_id.

Definition photo_bytes (peer : HistoryPeer) (uf : UploadedFile) (caption : list byte) (random_id : Z)
    : list byte :=
  enc32 CRC_messages_sendMedia ++ enc32 0 ++ enc_peer peer ++ enc32 CRC_inputMediaUploadedPhoto ++
  enc32 0 ++ input_file_bytes uf ++ enc_bytes caption ++ enc64 random_id.

Lemma input_file_written w uf : uploaded_ok uf ->
  w_data (write_input_file w uf) = w_data w ++ input_file_bytes uf.
Proof.
  unfold uploaded_ok, write_input_file, input_file_bytes, optional. intros Hn.
  destruct (uf_is_big uf); cbn [negb];
    repeat (wdata; try rewrite write_string_data by (cbn [default id]; first [lia|by vm_compute]));
    by rewrite <- ?app_assoc, ?app_nil_r.
Qed.

Ltac media_bytes :=
  repeat first
    [ progress wdata
    | rewrite input_file_written by done
    | rewrite write_string_data by (cbn [default id]; lia)
    | match goal with |- context [w_data (write_input_peer ?w ?p)] => rewrite (write_peer_data w p) end ];
  cbn [default from_option id]; by rewrite <- ?app_assoc.

Lemma document_written peer uf caption mime_type random_id :
  uploaded_ok uf -> zlen caption < 2 ^ 60 -> zlen mime_type < 2 ^ 60 ->
  w_data (document_query peer uf caption mime_type random_id) =
    document_bytes peer uf caption mime_type random_id.
Proof.
  intros Huf Hc Hm. pose proof Huf as Hn. unfold uploaded_ok in Hn. unfold document_query, document_bytes.
  cbn zeta. media_bytes.
Qed.

Lemma photo_written peer uf caption random_id :
  uploaded_ok uf -> zlen caption < 2 ^ 60 ->
  w_data (photo_query peer uf caption random_id) = photo_bytes peer uf caption random_id.
Proof.
  intros Huf Hc. pose proof Huf as Hn. unfold uploaded_ok in Hn. unfold photo_query, photo_bytes.
  cbn zeta. media_bytes.
Qed.

Lemma input_file_len uf : uploaded_ok uf -> zlen (input_file_bytes uf) <= 400.
Proof.
  unfold uploaded_ok, input_file_bytes, optional. intros Hn. pose proof (@zlen_nil byte).
  destruct (uf_is_big uf); cbn [negb]; enc_lia.
Qed.

(** A text that leaves room in the buffers of a call. *)
Definition modest (s : list byte) : Prop := zlen s <= 65536.

Lemma document_len peer uf caption mime_type random_id : uploaded_ok uf -> modest caption -> modest mime_type ->
  zlen (document_bytes peer uf caption mime_type random_id) <= 200000.
Proof.
  unfold modest. intros Huf Hc Hm. pose proof (input_file_len uf Huf). unfold uploaded_ok in Huf.
  unfold document_bytes. peer_lia.
Qed.

Lemma photo_len peer uf caption random_id : uploaded_ok uf -> modest caption ->
  zlen (photo_bytes peer uf caption random_id) <= 200000.
Proof.
  unfold modest. intros Huf Hc. pose proof (input_file_len uf Huf). unfold uploaded_ok in Huf.
  unfold photo_bytes. peer_lia.
Qed.

Lemma send_media_safe q : zlen q <= 200000 -> fx_safe rnd (on_answer (send_media_call tinf cfg q)) any_result.
Proof using HC Hcfg Hf.
  intros Hq. apply fx_on_answer with no_inv; [done| |unfold send_media_call; tracks_tac].
  unfold send_media_call. eapply cx_bind; [apply cx_call; try done|].
  - rewrite wrapped_len. unfold cfg_small, RPC_BUF_SIZE in *. lia.
  - intros resp _. eapply cx_weaken; [by apply cx_check_top|done].
Qed.

Lemma send_file_safe peer path caption mime_type : modest caption -> modest mime_type ->
  fx_safe rnd (domain_send_file server_key malloc_bytes tinf cfg peer path caption mime_type) any_result.
Proof using HB HC HR Hcfg Hf Hmalloc Hrnd.
  intros Hc Hm. unfold domain_send_file. eapply fx_bind; [apply chunk_phase_safe|]. intros uf Huf.
  eapply fx_bind; [apply rand_id_safe|]. intros rid _.
  rewrite document_written by (unfold modest in *; first [done|lia]). by apply send_media_safe, document_len.
Qed.

Lemma send_photo_safe peer path caption : modest caption ->
  fx_safe rnd (domain_send_photo server_key malloc_bytes tinf cfg peer path caption) any_result.
Proof using HB HC HR Hcfg Hf Hmalloc Hrnd.
  intros Hc. unfold domain_send_photo. eapply fx_bind; [apply chunk_phase_safe|]. intros uf Huf.
  eapply fx_bind; [apply rand_id_safe|]. intros rid _.
  rewrite photo_written by (unfold modest in *; first [done|lia]). by apply send_media_safe, photo_len.
Qed.

End Safe.

(** ** Answers that are cut short *)

(** A length with fewer bytes behind it: no bytes, and the cursor at the end. *)
Lemma read_cut_bytes r n part :
  reader_wf r -> rest r = bytes_prefix n ++ part -> zlen part < n < 2 ^ 24 ->
  tl_read_bytes r = Done None (set_pos r (r_len r)).
Proof.
  intros Hwf Hr Hn. pose proof (zlen_nonneg part) as Hp0.
  assert (Hr' : rest r = (bytes_prefix n ++ part) ++ []) by (by rewrite app_nil_r).
  assert (Hz : zlen (bytes_prefix n ++ part) = (if n <? 254 then 1 else 4) + zlen part)
    by (rewrite zlen_app, bytes_prefix_len; done).
  assert (Hend : r_len r = r_pos r + zlen (bytes_prefix n ++ part)).
  { pose proof (rest_len r Hwf) as Hl. rewrite Hr in Hl. unfold left in Hl. destruct (n <? 254); lia. }
  assert (Hlim : 0 <= r_pos r <= SIZE_LIM) by (unfold reader_wf in Hwf; destruct (n <? 254); lia).
  pose proof (mem_at r _ _ Hwf Hr') as Hmem.
  unfold tl_read_bytes. rewrite !(reader_has_le r) by (done || unfold SIZE_LIM; lia).
  rewrite (proj2 (Z.leb_le (r_pos r + 1) (r_len r))) by (destruct (n <? 254); lia). cbn [negb].
  pose proof (Hmem 0 1) as H1. rewrite Z.add_0_r in H1.
  assert (Hbody : forall h, h = (if n <? 254 then 1 else 4) ->
    read_bytes_body h n r = Done None (set_pos r (r_len r))).
  { intros h ->. unfold read_bytes_body, SIZE_LIM in *.
    rewrite u64_id by (unfold is_u64; destruct (n <? 254); lia).
    rewrite reader_has_le by (done || unfold SIZE_LIM; destruct (n <? 254); lia).
    rewrite (proj2 (Z.leb_gt _ _)) by lia. done. }
  unfold bytes_prefix in *. destruct (Z.ltb_spec n 254) as [Hs|Hs]; cbn [app] in *;
    rewrite !zlen_cons in *; rewrite H1 by lia;
    change (Z.to_nat 1) with 1%nat; change (Z.to_nat 0) with 0%nat; cbn [take drop].
  - rewrite byte.unsigned_of_Z. unfold byte.wrap. rewrite Z.mod_small by lia.
    rewrite (proj2 (Z.ltb_lt n 254)) by lia. by apply Hbody.
  - change (byte.unsigned (byte.of_Z 254) <? 254) with false. cbn iota.
    rewrite (proj2 (Z.leb_le (r_pos r + 4) (r_len r))) by lia. cbn [negb]. unfold SIZE_LIM in Hlim.
    rewrite (u64_id (r_pos r + 1)), Hmem by (unfold is_u64; lia).
    change (Z.to_nat 1) with 1%nat. change (Z.to_nat 3) with 3%nat. cbn [take drop].
    rewrite le_prefix3 by lia. by apply Hbody.
Qed.

Definition file_head (typ mtime : Z) : list byte := enc32 CRC_upload_file ++ enc32 typ ++ enc32 mtime.

Lemma lift_then {X A} (m : Rd unit) (k : Px X A) bs x r tl :
  reads m bs tt -> reader_wf r -> rest r = bs ++ tl -> (lift m ;; k) (r, x) = k (adv r (zlen bs), x).
Proof. intros Hm Hwf Hr. apply (bind_Done _ (fun _ => k) _ tt). unfold lift. cbn [fst snd]. by rewrite (Hm r tl Hwf Hr). Qed.

(** The parser behind the head of an upload.file. *)
Lemma parse_file_head {X} (x : X) typ mtime tl r : reader_wf r -> rest r = file_head typ mtime ++ tl ->
  parse_file (r, x) = lift tl_read_bytes (adv r 12, x).
Proof.
  intros Hwf Hr. unfold file_head in Hr. rewrite <- !app_assoc in Hr. unfold parse_file.
  pose proof (reads_skip_uint32 (enc32 CRC_upload_file) (enc32_len _)) as H1.
  pose proof (reads_skip_uint32 (enc32 typ) (enc32_len _)) as H2.
  pose proof (reads_skip_int32 (enc32 mtime) (enc32_len _)) as H3.
  rewrite (lift_then _ _ _ _ _ _ H1 Hwf Hr).
  pose proof (adv_wf _ _ _ Hwf Hr _ eq_refl) as Hwf1. pose proof (rest_adv _ _ _ Hwf Hr _ eq_refl) as Hr1.
  rewrite (lift_then _ _ _ _ _ _ H2 Hwf1 Hr1).
  pose proof (adv_wf _ _ _ Hwf1 Hr1 _ eq_refl) as Hwf2. pose proof (rest_adv _ _ _ Hwf1 Hr1 _ eq_refl) as Hr2.
  rewrite (lift_then _ _ _ _ _ _ H3 Hwf2 Hr2). by rewrite !adv_adv, !enc32_len.
Qed.

Lemma file_head_len typ mtime : zlen (file_head typ mtime) = 12.
Proof. unfold file_head. rewrite !zlen_app, !enc32_len. done. Qed.

(** A whole answer and one that ends too early. *)
Lemma parse_file_at {X} (x : X) (c : Conn) typ mtime data tl :
  zlen data < 2 ^ 24 -> zlen (file_head typ mtime ++ enc_bytes data ++ tl) <= SIZE_LIM ->
  with_parser (file_head typ mtime ++ enc_bytes data ++ tl) parse_file (x, c) = Done (Some data) (x, c).
Proof.
  intros Hd Hz. unfold with_parser. cbn [fst snd]. set (buf := _ ++ _) in *. pose proof (zlen_nonneg buf).
  assert (Hwf : reader_wf (tl_reader_init buf (zlen buf))) by (apply reader_init_wf; lia).
  assert (Hr : rest (tl_reader_init buf (zlen buf)) = file_head typ mtime ++ enc_bytes data ++ tl) by apply rest_init.
  rewrite (parse_file_head x typ mtime _ _ Hwf Hr). unfold lift. cbn [fst snd].
  rewrite (read_bytes_at _ data tl); [done| | |done].
  - by eapply adv_wf; [|exact Hr|by rewrite file_head_len].
  - by eapply rest_adv; [|exact Hr|by rewrite file_head_len].
Qed.

Lemma parse_file_cut {X} (x : X) (c : Conn) typ mtime n part :
  zlen part < n < 2 ^ 24 ->
  with_parser (file_head typ mtime ++ bytes_prefix n ++ part) parse_file (x, c) = Done None (x, c).
Proof.
  intros Hn. unfold with_parser. cbn [fst snd]. set (buf := _ ++ _). pose proof (zlen_nonneg buf).
  assert (Hz : zlen buf <= SIZE_LIM).
  { unfold buf, SIZE_LIM. rewrite !zlen_app, file_head_len, bytes_prefix_len. destruct (n <? 254); lia. }
  assert (Hwf : reader_wf (tl_reader_init buf (zlen buf))) by (apply reader_init_wf; lia).
  assert (Hr : rest (tl_reader_init buf (zlen buf)) = file_head typ mtime ++ bytes_prefix n ++ part) by apply rest_init.
  rewrite (parse_file_head x typ mtime _ _ Hwf Hr). unfold lift. cbn [fst snd].
  rewrite (read_cut_bytes _ n part); [done| | |done].
  - by eapply adv_wf; [|exact Hr|by rewrite file_head_len].
  - by eapply rest_adv; [|exact Hr|by rewrite file_head_len].
Qed.

Section Cut.
Context `{C : Crypto} (tinf : Z -> list byte -> option (list byte)) (cfg : ApiConfig).

(** A request whose answer is an upload.file. *)
Lemma get_chunk_at info off x (c c' : Conn) rest o :
  media_ok info ->
  api_call tinf cfg (getfile_bytes info off) (CHUNK_SIZE + 4096) c = Done (enc32 CRC_upload_file ++ rest) c' ->
  with_parser (enc32 CRC_upload_file ++ rest) parse_file (x, c') = Done o (x, c') ->
  get_chunk tinf cfg info off (x, c) = Done o (x, c').
Proof.
  intros Hm Ha Hp. destruct (getfile_written info off Hm) as (Hd & Hc & Hl). rewrite get_chunk_eq.
  rewrite (exchange_at tinf cfg _ (getfile_bytes info off) 1024 _ keep_migrate (Z.eqb CRC_upload_file) _
    x c c' CRC_upload_file rest); try done; lia.
Qed.

End Cut.

(** ** Theorems *)

(** (C15) Whatever the server answers, the network loses and the kernel
    refuses, the login flow, a download that may move to another data centre
    and the upload of a file or a photo end inside their buffers and leave a
    well-formed session. *)
Theorem transfers_end `{Io : Stdio} `{C : Crypto} {HC : CryptoLaws C} `{R : Rsa} {HB : BigNumLaws B} {HR : RsaLaws R}
    `{K : Kdf} server_key malloc_bytes tinf cfg rnd cb info path peer caption mime_type :
  malloc_sized malloc_bytes -> nonzero_rand rnd -> cfg_small cfg -> tinf_fits tinf ->
  short (default [] (api_hash cfg)) -> opt short (get_phone cb) -> opt short (get_code cb) ->
  media_ok info -> modest caption -> modest mime_type ->
  fx_safe rnd (auth_flow_login server_key malloc_bytes tinf cfg cb) any_result /\
  fx_safe rnd (domain_download_media_cross_dc server_key malloc_bytes tinf cfg info path) any_result /\
  fx_safe rnd (domain_send_file server_key malloc_bytes tinf cfg peer path caption mime_type) any_result /\
  fx_safe rnd (domain_send_photo server_key malloc_bytes tinf cfg peer path caption) any_result.
Proof.
  intros. split_and!;
    [by apply login_safe|by apply cross_dc_safe|by apply send_file_safe|by apply send_photo_safe].
Qed.

(** (C12) A download that succeeds has asked for the chunks one behind the
    other, each answered by an upload.file and all full but the last, and their
    bytes in order are in the file, except what was still in the stream's
    buffer after the last one: of those bytes the file has what the kernel
    takes when [fclose] writes them.  So the file is exact when no call is
    refused or cut short, or the buffer is empty; otherwise its end may be
    missing.  The download ends in any case, however the C library buffers. *)
Theorem download_writes_file `{Io : Stdio} `{C : Crypto} {HC : CryptoLaws C} tinf cfg info out_path x m s t w :
  cfg_small cfg -> tinf_fits tinf -> media_ok info -> session_wf s -> fs_wf (m_fs m) ->
  match download_loop tinf cfg info out_path ((x, m), (s, t, w)) with
  | Done _ ((_, m'), c') =>
      exists bs z d, chunks_received tinf cfg info 0 bs (s, t, w) c' /\
        z ++ buffered [] bs = concat bs /\ (d = DOk \/ d ∈ m_ds m) /\
        file (path_of out_path) (m_fs m') = Some (z ++ moved d (buffered [] bs)) /\
        (Forall (eq DOk) (m_ds m) \/ buffered [] bs = [] ->
         file (path_of out_path) (m_fs m') = Some (concat bs))
  | Fail (_, (s', _, _)) => session_wf s'
  | Fault | NoFuel => False
  end.
Proof.
  intros Hc Hf Hm Hs Hfs. pose proof (download_loop_at tinf cfg (w_rand w) Hc Hf info out_path x m s t w Hm Hs eq_refl) as H.
  destruct (download_loop _ _ _ _ _) as [[] [[x3 m3] [[s3 t3] w3]]|[[x3 m3] [[s3 t3] w3]]| |]; try done;
    [|by destruct H].
  destruct H as (_ & _ & bs & d & Hbs & Hd & Hfile). destruct (Hfile Hfs) as (z & Hz & Ef).
  exists bs, z, d. split_and!; try done. intros Hok. rewrite Ef, <- Hz. do 2 f_equal.
  destruct Hok as [Hok| ->]; [|by destruct d; cbn; rewrite ?take_nil].
  destruct Hd as [->|Hd]; [done|]. by apply (proj1 (Forall_forall _ _) Hok) in Hd as <-.
Qed.

(** (C13) An upload that succeeds has sent the first [total] bytes of the file
    in parts of 512 KiB, numbered from 0 and each accepted by the server, and
    returns their number, the one that was announced; it ends in any case. *)
Theorem upload_sends_file `{C : Crypto} {HC : CryptoLaws C} tinf cfg fp is_big total file_id x m s t w :
  cfg_small cfg -> tinf_fits tinf -> session_wf s -> 0 <= total <= zlen (contents fp (m_fs m)) ->
  let total_parts := (total + UPLOAD_CHUNK_SIZE - 1) / UPLOAD_CHUNK_SIZE in
  match upload_all_parts tinf cfg fp is_big total file_id total_parts ((x, m), (s, t, w)) with
  | Done n ((_, m'), c') =>
      n = total_parts /\ m_fs m' = m_fs m /\
      exists chunks, split_in_parts (take (Z.to_nat total) (contents fp (m_fs m))) chunks /\
        parts_accepted tinf cfg is_big file_id total_parts 0 chunks (s, t, w) c'
  | Fail (_, (s', _, _)) => session_wf s'
  | Fault | NoFuel => False
  end.
Proof.
  intros Hc Hf Hs Ht parts.
  assert (Hp : 0 <= total <= parts * UPLOAD_CHUNK_SIZE).
  { unfold parts, UPLOAD_CHUNK_SIZE. pose proof (Z.div_mod (total + 512 * 1024 - 1) (512 * 1024)).
    pose proof (Z.mod_pos_bound (total + 512 * 1024 - 1) (512 * 1024)). lia. }
  pose proof (upload_all_at tinf cfg (w_rand w) Hc Hf fp is_big total file_id parts x m s t w Hs eq_refl Hp) as H.
  destruct (upload_all_parts _ _ _ _ _ _ _ _) as [n [[x3 m3] [[s3 t3] w3]]|[[x3 m3] [[s3 t3] w3]]| |]; try done.
  - destruct H as (_ & _ & Hm & chunks & Hacc & -> & Hsplit). split; [|by eauto].
    rewrite (split_count _ _ Hsplit). unfold zlen in *. by rewrite length_take_le, Z2Nat.id by lia.
  - by destruct H.
Qed.

(** (C39) An answer that announces [n] bytes and ends before them is taken for
    the end of the file: the download succeeds with an empty file, which goes
    into the index as the media. *)
Theorem truncated_download_succeeds `{Io : Stdio} `{C : Crypto} tinf cfg id info out_path x m (c c' : Conn)
    fs1 ds1 fd fs2 ds2 typ mtime n part :
  media_ok info -> id <> 0 -> access_hash info <> 0 -> 0 < zlen (file_reference info) -> fs_wf fs1 ->
  exec_prog (serve_indexed id out_path) (m_fs m) (m_ds m) = (false, fs1, ds1) ->
  exec_prog (call (SOpen (path_of out_path) true true)) fs1 ds1 = (Some fd, fs2, ds2) ->
  api_call tinf cfg (getfile_bytes info 0) (CHUNK_SIZE + 4096) c =
    Done (file_head typ mtime ++ bytes_prefix n ++ part) c' ->
  zlen part < n < 2 ^ 24 ->
  exists m1 put m2, file (path_of out_path) (m_fs m1) = Some [] /\
    exec_prog (media_index_put id out_path) (m_fs m1) (m_ds m1) = (put, m_fs m2, m_ds m2) /\
    download tinf cfg id info out_path ((x, m), c) = Done tt ((x, m2), c').
Proof.
  intros Hm Hid Hah Hfr Hfs Hserve Hopen Hcall Hn.
  pose proof (get_chunk_at tinf cfg info 0 x c c' _ None Hm Hcall (parse_file_cut x c' typ mtime n part Hn)) as Hg.
  apply open_writes in Hopen as H1; [|done]. destruct H1 as [_ H1]. specialize (H1 fd eq_refl).
  destruct (exec_prog (call (SClose fd)) fs2 ds2) as [[u fs3] ds3] eqn:Eclose.
  set (m1 := set_files fs3 ds3 m).
  destruct (exec_prog (media_index_put id out_path) fs3 ds3) as [[put fs4] ds4] eqn:Eput.
  exists m1, put, (set_files fs4 ds4 m1). split; [|split; [exact Eput|]].
  - unfold call in Eclose. cbn [exec_prog] in Eclose. destruct (next_decision ds2) as [d ds].
    destruct (exec d (SClose fd) fs2) as [u' fs'] eqn:Ec. injection Eclose as <- <- <-.
    apply exec_quiet in Ec as [_ Hsame]; [|done|by destruct H1]. cbn. rewrite Hsame. by eapply writing_file.
  - unfold download. rewrite (proj2 (Z.eqb_neq _ _) Hid), (proj2 (Z.eqb_neq _ _) Hah).
    rewrite (proj2 (Z.eqb_neq (zlen _) 0)) by lia. cbn [orb].
    rewrite (bind_Done _ _ _ _ _ (files_at _ x m c _ _ _ Hserve)). set (m0 := set_files fs1 ds1 m).
    assert (Hloop : download_loop tinf cfg info out_path ((x, m0), c) = Done tt ((x, m1), c')).
    { unfold download_loop. rewrite (bind_Done _ _ _ _ _ (files_at _ x m0 c _ _ _ Hopen)).
      unfold mbind at 1, M_bind at 1. cbn [chunk_loop]. unfold mbind at 1, M_bind at 1.
      unfold mbind at 1, M_bind at 1, succeeded_with, on_answer at 1. rewrite Hg.
      cbn [default]. exact (bind_Done _ (fun _ => mret tt) _ _ _ (files_at _ x (set_files fs2 ds2 m0) c' _ _ _ Eclose)). }
    rewrite (bind_Done _ _ _ _ _ Hloop). exact (bind_Done _ (fun _ => mret tt) _ _ _ (files_at _ x m1 c' _ _ _ Eput)).
Qed.

(** ** Concrete runs *)

Definition toy_media : MediaInfo :=
  mkMediaInfo MEDIA_PHOTO 77 0 2 (-9) [Byte.x01; Byte.x02] (ascii "y") 0 [] [].

Definition toy_out : list byte := ascii "/tmp/photo.jpg".

(** No file is there, every system call proceeds, no connection is dialled. *)
Definition toy_fs : FS := mkFS ∅ ∅ ∅ ∅ 1.
Definition toy_machine (fs : FS) : Machine :=
  mkMachine fs (replicate 40 DOk) (fun _ _ => w_net (sample_world [] [])) [] (dc_config_init None None).

Definition toy_chunk : list byte := ascii "Hi!".
Definition toy_conn (answer : list byte) : Conn := (sample_session, sample_transport, answering_world answer).
Definition toy_file_answer : list byte := file_head 5 6 ++ enc_bytes toy_chunk.

Lemma toy_media_ok : media_ok toy_media.
Proof. by split; vm_compute. Qed.

Lemma toy_fs_wf : fs_wf toy_fs.
Proof. split; intros p; cbn; intros *; by rewrite lookup_empty. Qed.

Lemma toy_cfg_small : cfg_small api_config_init.
Proof. by vm_compute. Qed.

Lemma toy_session_wf : session_wf sample_session.
Proof. by vm_compute. Qed.

(** A C library that keeps what it gets until [fclose]. *)
Definition lazy_stdio : Stdio := {| spill := fun _ _ => O; salvage := fun l => l |}.

Definition toy_machine_with (ds : list decision) : Machine :=
  mkMachine toy_fs ds (fun _ _ => w_net (sample_world [] [])) [] (dc_config_init None None).

(** What the file holds after a photo of one chunk was downloaded. *)
Definition toy_downloaded (ds : list decision) : option (list byte) :=
  match download_loop (Io := lazy_stdio) (C := toy_crypto) store_tinf api_config_init toy_media toy_out
          ((0, toy_machine_with ds), toy_conn toy_file_answer) with
  | Done _ ((_, m), _) => file (path_of toy_out) (m_fs m)
  | _ => None
  end.

Example toy_download : toy_downloaded (replicate 40 DOk) = Some toy_chunk.
Proof. vm_compute. reflexivity. Qed.

(** The kernel refuses the bytes that [fclose] writes, as on a full disk: the
    download succeeds and the file is empty. *)
Lemma short_download_succeeds : toy_downloaded [DOk; DErr] = Some [].
Proof. vm_compute. reflexivity. Qed.

Lemma download_writes_file_witness :
  match download_loop (Io := lazy_stdio) (C := toy_crypto) store_tinf api_config_init toy_media toy_out
          ((0, toy_machine toy_fs), toy_conn toy_file_answer) with
  | Done _ ((_, m'), c') =>
      exists bs z d, chunks_received (C := toy_crypto) store_tinf api_config_init toy_media 0 bs
                   (toy_conn toy_file_answer) c' /\
        z ++ buffered (Io := lazy_stdio) [] bs = concat bs /\ (d = DOk \/ d ∈ replicate 40 DOk) /\
        file (path_of toy_out) (m_fs m') = Some (z ++ moved d (buffered (Io := lazy_stdio) [] bs)) /\
        (Forall (eq DOk) (replicate 40 DOk) \/ buffered (Io := lazy_stdio) [] bs = [] ->
         file (path_of toy_out) (m_fs m') = Some (concat bs))
  | Fail (_, (s', _, _)) => session_wf s'
  | Fault | NoFuel => False
  end.
Proof.
  exact (download_writes_file (Io := lazy_stdio) (C := toy_crypto) store_tinf api_config_init toy_media toy_out 0
    (toy_machine toy_fs) sample_session sample_transport (answering_world toy_file_answer) toy_cfg_small
    store_tinf_fits toy_media_ok toy_session_wf toy_fs_wf).
Defined.

(** A file of three bytes behind descriptor 9 is uploaded in one part. *)
Definition toy_upload_fs : FS :=
  mkFS {["/tmp/hi.txt"%string := 1%nat]} {[1%nat := toy_chunk]} {[9%nat := 1%nat]} ∅ 10.

Definition toy_upload :=
  upload_all_parts (C := toy_crypto) store_tinf api_config_init 9 false 3 4711 1
    ((0, toy_machine toy_upload_fs), toy_conn (enc32 TL_boolTrue)).

Example toy_upload_runs : match toy_upload with Done n _ => n | _ => -1 end = 1.
Proof. vm_compute. reflexivity. Qed.

Lemma upload_sends_file_witness :
  match toy_upload with
  | Done n ((_, m'), c') =>
      n = 1 /\ m_fs m' = toy_upload_fs /\
      exists chunks, split_in_parts (take 3 (contents 9 toy_upload_fs)) chunks /\
        parts_accepted (C := toy_crypto) store_tinf api_config_init false 4711 1 0 chunks
          (toy_conn (enc32 TL_boolTrue)) c'
  | Fail (_, (s', _, _)) => session_wf s'
  | Fault | NoFuel => False
  end.
Proof.
  exact (upload_sends_file (C := toy_crypto) store_tinf api_config_init 9 false 3 4711 0
    (toy_machine toy_upload_fs) sample_session sample_transport (answering_world (enc32 TL_boolTrue))
    toy_cfg_small store_tinf_fits toy_session_wf ltac:(by vm_compute)).
Defined.

(** Three of 200 announced bytes arrive. *)
Definition toy_cut_answer : list byte := file_head 5 6 ++ bytes_prefix 200 ++ toy_chunk.

Lemma toy_cut_answered :
  api_call (C := toy_crypto) store_tinf api_config_init (getfile_bytes toy_media 0) (CHUNK_SIZE + 4096)
    (toy_conn toy_cut_answer) =
  Done toy_cut_answer (answered_in (toy_conn toy_cut_answer) (getfile_bytes toy_media 0) (CHUNK_SIZE + 4096)).
Proof. apply answered_in_at. vm_cast_no_check (eq_refl true). Qed.

Definition toy_opened := exec_prog (call (SOpen (path_of toy_out) true true)) toy_fs (replicate 38 DOk).

Lemma truncated_download_succeeds_witness :
  exists m1 put m2, file (path_of toy_out) (m_fs m1) = Some [] /\
    exec_prog (media_index_put 77 toy_out) (m_fs m1) (m_ds m1) = (put, m_fs m2, m_ds m2) /\
    download (Io := lazy_stdio) (C := toy_crypto) store_tinf api_config_init 77 toy_media toy_out
      ((0, toy_machine toy_fs), toy_conn toy_cut_answer) =
    Done tt ((0, m2), answered_in (toy_conn toy_cut_answer) (getfile_bytes toy_media 0) (CHUNK_SIZE + 4096)).
Proof.
  refine (truncated_download_succeeds (Io := lazy_stdio) (C := toy_crypto) store_tinf api_config_init 77 toy_media toy_out 0
    (toy_machine toy_fs) (toy_conn toy_cut_answer) _ toy_fs (replicate 38 DOk) 2
    (snd (fst toy_opened)) (snd toy_opened) 5 6 200 toy_chunk toy_media_ok _ _ _ toy_fs_wf _ _ toy_cut_answered _);
    first [done | by vm_compute | reflexivity].
Defined.

Lemma transfers_end_witness :
  fx_safe (fun _ => Byte.x01)
    (domain_send_photo (C := toy_crypto) (R := toy_rsa) toy_key toy_malloc store_tinf api_config_init
       toy_peer toy_out toy_chunk) any_result.
Proof.
  refine (proj2 (proj2 (proj2 (transfers_end (Io := lazy_stdio) (C := toy_crypto) (R := toy_rsa) (K := toy_kdf) toy_key toy_malloc
    store_tinf api_config_init (fun _ => Byte.x01) (mkCallbacks (Some toy_chunk) (Some toy_chunk) None)
    toy_media toy_out toy_peer toy_chunk toy_chunk toy_malloc_sized ones_nonzero toy_cfg_small store_tinf_fits
    _ _ _ toy_media_ok _ _)))); by vm_compute.
Defined.
