(* ===== verification/FlowTheorems.v ===== *)
(** * The login flow: theorems

    A login that succeeds is found again by the next start, and the soft
    migration behind a failed handshake cannot work. *)

From Stdlib Require Import String.
From S2P Require Import Prelude CLib TlSerial TlLogic World MtprotoCrypto MtprotoSession Transport WireTheorems.
From S2P Require Import MtprotoRpc RpcCorrect ApiCall ApiCorrect RpcTheorems Request CallLogic BigNum ServerKey.
From S2P Require Import MtprotoAuth AuthCorrect AuthSafe AuthTheorems FileSys FileLogic SessionStore StoreTheorems.
From S2P Require Import Login Auth2fa LoginCorrect LoginTheorems Progress Machine AuthFlow DcSession ProcessLogic.
From S2P Require Import MediaIndex Media TransferTheorems.

#[local] Open Scope Z_scope.

(** ** Without a key nothing is sent *)

Lemma send_needs_key `{C : Crypto} data c s t w : has_auth_key s = false -> rpc_send_encrypted data c (s, t, w) = Fail (s, t, w).
Proof. intros H. unfold rpc_send_encrypted. rewrite (bind_Done _ _ _ s (s, t, w)) by done. by rewrite H. Qed.

Lemma api_needs_key `{C : Crypto} tinf cfg q n s t w :
  has_auth_key s = false -> api_call tinf cfg q n (s, t, w) = Fail (s, t, w).
Proof.
  intros H. unfold api_call. apply bind_Fail. unfold api_call_once.
  destruct (api_wrap_query _ _ _); [|done]. by apply bind_Fail, send_needs_key.
Qed.

Lemma call_needs_key `{C : Crypto} {X} tinf cfg q n (x : X) s t w :
  has_auth_key s = false -> call_api tinf cfg q n (x, (s, t, w)) = Fail (x, (s, t, w)).
Proof. intros H. unfold call_api, on_snd. cbn [fst snd]. by rewrite api_needs_key. Qed.

Lemma send_code_needs_key `{C : Crypto} tinf cfg phone sent err s t w : has_auth_key s = false ->
  auth_send_code tinf cfg phone ((sent, err), (s, t, w)) = Fail ((sent, no_error), (s, t, w)).
Proof.
  intros H. unfold auth_send_code. rewrite (bind_Done _ _ _ tt ((sent, no_error), (s, t, w))) by done.
  unfold build_send_code, take_query. cbn zeta. match goal with |- context [if ?b then fail else _] => destruct b end; [done|].
  apply (bind_Fail (call_api tinf cfg _ _)). by apply call_needs_key.
Qed.

(** ** The soft migration *)

Section Soft.
Context `{C : Crypto} `{R : Rsa} (server_key : ServerKeyState) (malloc_bytes : nat -> list byte).
Context (tinf : Z -> list byte -> option (list byte)) (cfg : ApiConfig).

Definition no_key {X} (st : (X * Machine) * Conn) : Prop := has_auth_key (fst (fst (snd st))) = false.

(** Work that leaves the session as it is. *)
Definition same_session {X A} (m : Fx X A) : Prop := forall xm s t w,
  match m (xm, (s, t, w)) with
  | Done _ (_, (s', _, _)) | Fail (_, (s', _, _)) => s' = s
  | Fault | NoFuel => False
  end.

Lemma same_session_bind {X A D} (m : Fx X A) (k : A -> Fx X D) :
  same_session m -> (forall a, same_session (k a)) -> same_session (m ≫= k).
Proof.
  intros Hm Hk xm s t w. specialize (Hm xm s t w). unfold mbind, M_bind.
  destruct (m _) as [a [xm1 [[s1 t1] w1]]|[xm1 [[s1 t1] w1]]| |]; try done. subst s1. apply Hk.
Qed.

Lemma same_session_tr {X} (m : TM unit) :
  (forall tw, match m tw with Fault | NoFuel => False | _ => True end) ->
  same_session (X := X) (on_snd (on_tr m)).
Proof.
  intros Hm xm s t w. specialize (Hm (t, w)). unfold on_snd. cbn [fst snd]. rewrite on_tr_cases.
  by destruct (m (t, w)) as [a [t' w']|[t' w']| |].
Qed.

Lemma same_session_close {X} : same_session (X := X) close.
Proof.
  apply same_session_tr. intros [t w]. unfold transport_close, mbind, M_bind, get_fst. cbn [fst].
  by destruct (0 <=? fd t).
Qed.

Lemma same_session_put_dc {X} v : same_session (X := X) (put_dc_id v).
Proof. apply same_session_tr. by intros [t w]. Qed.

Lemma same_session_dial {X} ep : same_session (X := X) (dial ep).
Proof.
  unfold dial. apply same_session_bind; [by intros [x m] s t w|]. intros _. apply same_session_tr.
  intros [t w]. pose proof (connect_rand t w) as H. by destruct (transport_connect (t, w)) as [? []|[]| |].
Qed.

(** A failed handshake leaves no key. *)
Lemma connect_fails_keyless {X} phys dh (st st' : (X * Machine) * Conn) :
  no_key st -> connect_dc_ex server_key malloc_bytes phys dh st = Fail st' -> no_key st'.
Proof.
  destruct st as [[x m] [[s t] w]]. unfold no_key at 1. cbn [fst snd]. intros Hk.
  unfold connect_dc_ex. rewrite (bind_Done _ _ _ (dc_lookup (m_config m) phys) ((x, m), (s, t, w))) by done.
  destruct (dc_lookup (m_config m) phys) as [ep|]; [|by intros [= <-]].
  assert (Hd : same_session (X := X) (dial ep ;; put_dc_id dh)).
  { apply same_session_bind; [apply same_session_dial|]. intros _. apply same_session_put_dc. }
  assert (Hassoc : forall (k : Fx X unit) st0, (dial ep ;; put_dc_id dh ;; k) st0 = ((dial ep ;; put_dc_id dh) ;; k) st0).
  { intros k st0. unfold mbind, M_bind. by destruct (dial ep st0). }
  rewrite Hassoc. specialize (Hd (x, m) s t w). unfold mbind at 1, M_bind at 1.
  destruct ((dial ep ;; put_dc_id dh) _) as [[] [xm1 [[s1 t1] w1]]|[xm1 [[s1 t1] w1]]| |]; try done; subst s1.
  2: { by intros [= <-]. }
  unfold mbind at 1, M_bind at 1, succeeded, on_snd. cbn [fst snd].
  destruct (mtproto_auth_key_gen server_key malloc_bytes (s, t1, w1)) as [[] st2|[[s2 t2] w2]| |] eqn:E; cbn [negb]; try done.
  - intros H. pose proof (same_session_put_dc (X := X) phys xm1) as Hp. destruct st2 as [[s2 t2] w2].
    specialize (Hp s2 t2 w2). by rewrite H in Hp.
  - unfold mtproto_auth_key_gen in E.
    pose proof (fail_keeps_steps server_key malloc_bytes (auth_ctx_init (dc_id t1)) s t1 w1) as Hf.
    cbn [fst snd] in E. destruct (auth_steps _ _ _) as [|[c3 [[s3 t3] w3]]| |]; try done.
    injection E as -> -> ->. destruct Hf as [(_ & Hk2 & _) _].
    pose proof (same_session_close (X := X) xm1 s2 t2 w2) as Hc. unfold mbind, M_bind.
    destruct (close _) as [? [xm4 [[s4 t4] w4]]|[xm4 [[s4 t4] w4]]| |]; try done; subst s4;
      intros [= <-]; unfold no_key; cbn; congruence.
Qed.

Lemma session_init_keyless {X} (st st' : (X * Machine) * Conn) u : session_init st = Done u st' -> no_key st'.
Proof.
  destruct st as [xm [[s t] w]]. unfold session_init, on_snd, on_ses, mtproto_session_init. cbn [fst snd].
  rewrite (bind_Done _ _ _ tt (session_zero, w)) by done.
  unfold fresh_session_id, modify_session, get_fst, put_fst, on_snd, crypto_rand_bytes, when, mret, M_ret, mbind, M_bind.
  cbn [fst snd]. match goal with |- context [session_id ?y =? 0] => destruct (session_id y =? 0) end; by intros [= _ <-].
Qed.

Lemma migrate_fails_keyless {X} new_dc dh (st st' : (X * Machine) * Conn) :
  migrate server_key malloc_bytes new_dc dh st = Fail st' -> no_key st'.
Proof.
  unfold migrate. unfold mbind at 1, M_bind at 1. destruct st as [xm [[s t] w]].
  pose proof (same_session_close (X := X) xm s t w) as Hc.
  destruct (close (xm, (s, t, w))) as [u st1|st1| |] eqn:E1; [|exfalso|done..].
  2: { revert E1. unfold close, on_snd, transport_close. cbn [fst snd]. rewrite on_tr_cases.
       unfold mbind, M_bind, get_fst. cbn [fst]. by destruct (0 <=? fd t). }
  unfold mbind at 1, M_bind at 1. destruct (session_init st1) as [u2 st2|st2| |] eqn:E2; [|exfalso|done..].
  2: { revert E2. clear. destruct st1 as [xm [[s t] w]]. unfold session_init, on_snd, on_ses, mtproto_session_init.
       cbn [fst snd]. rewrite (bind_Done _ _ _ tt (session_zero, w)) by done.
       unfold fresh_session_id, modify_session, get_fst, put_fst, on_snd, crypto_rand_bytes, when, mret, M_ret, mbind, M_bind.
       cbn [fst snd]. by match goal with |- context [session_id ?y =? 0] => destruct (session_id y =? 0) end. }
  apply session_init_keyless in E2. by apply connect_fails_keyless.
Qed.

Lemma same_session_soft {X} new_dc : same_session (X := X) (migrate_soft new_dc).
Proof.
  unfold migrate_soft. apply same_session_bind; [apply same_session_close|]. intros _.
  apply same_session_bind; [by intros xm s t w|]. intros [ep|]; [|by intros xm s t w].
  apply same_session_bind; [apply same_session_dial|]. intros _. apply same_session_put_dc.
Qed.

(** Without a key the code cannot be asked for. *)
Lemma send_code_loop_keyless {X} quota phone dc sent (st : (X * Machine) * Conn) :
  no_key st -> exists st', send_code_loop server_key malloc_bytes tinf cfg quota phone dc sent st = Fail st'.
Proof.
  destruct st as [xm [[s t] w]]. unfold no_key. cbn [fst snd]. intros Hk.
  assert (E : local_call (sent, no_error) (auth_send_code tinf cfg phone) (xm, (s, t, w)) =
              Done (None, (sent, no_error)) (xm, (s, t, w))).
  { unfold local_call. by rewrite send_code_needs_key. }
  exists (xm, (s, t, w)). destruct quota; cbn [send_code_loop]; by rewrite (bind_Done _ _ _ _ _ E).
Qed.

(** (C38) The server names another data centre and the handshake there fails:
    the soft migration that follows, which is to go on with the existing key,
    has no key any more, and the login fails whether it connects or not. *)
Theorem soft_migration_fails {X} quota phone dc sent sent' err (st st1 st2 : (X * Machine) * Conn) :
  local_call (sent, no_error) (auth_send_code tinf cfg phone) st = Done (None, (sent', err)) st1 ->
  0 < migrate_dc err ->
  migrate server_key malloc_bytes (migration_target dc (migrate_dc err))
    (migration_target dc (migrate_dc err)) st1 = Fail st2 ->
  exists st3, send_code_loop server_key malloc_bytes tinf cfg (S quota) phone dc sent st = Fail st3.
Proof.
  intros Hcall Hdc Hmig. cbn [send_code_loop]. rewrite (bind_Done _ _ _ _ _ Hcall).
  rewrite (proj2 (Z.ltb_lt _ _) Hdc). cbn zeta. unfold mbind at 1, M_bind at 1, succeeded. rewrite Hmig.
  apply migrate_fails_keyless in Hmig. destruct st2 as [xm2 [[s2 t2] w2]].
  pose proof (same_session_soft (X := X) (migration_target dc (migrate_dc err)) xm2 s2 t2 w2) as Hs.
  unfold mbind at 1, M_bind at 1.
  destruct (migrate_soft _ _) as [u [xm3 [[s3 t3] w3]]|[xm3 [[s3 t3] w3]]| |]; try done; subst s3; [|by eexists].
  by apply send_code_loop_keyless.
Qed.

End Soft.

(** ** What a login leaves

    [flow m Q]: [m] leaves the files, and the session as [fx_safe] says; its
    result and the session behind it satisfy [Q].  [c0] is the configuration
    of the process. *)

Section Remembered.
Context `{C : Crypto} {HC : CryptoLaws C} `{R : Rsa} {HB : BigNumLaws B} {HR : RsaLaws R} `{K : Kdf}.
Context (server_key : ServerKeyState) (malloc_bytes : nat -> list byte).
Context (tinf : Z -> list byte -> option (list byte)) (cfg : ApiConfig).
Context (rnd : nat -> byte) (Hmalloc : malloc_sized malloc_bytes) (Hrnd : nonzero_rand rnd).
Context (Hcfg : cfg_small cfg) (Hf : tinf_fits tinf) (Hhash : short (default [] (api_hash cfg))).
Context (c0 : DcConfig).

Definition same_files (m m' : Machine) : Prop :=
  m_fs m' = m_fs m /\ m_ds m' = m_ds m /\ m_config m' = m_config m.

Definition keeps_files {X A} (m : Fx X A) : Prop := forall x m0 c,
  match m ((x, m0), c) with
  | Done _ ((_, m'), _) | Fail ((_, m'), _) => same_files m0 m'
  | Fault | NoFuel => True
  end.

Definition flow {X A} (m : Fx X A) (Q : A -> MtProtoSession -> Prop) : Prop := forall x m0 s t w,
  session_wf s -> w_rand w = rnd -> m_config m0 = c0 ->
  match m ((x, m0), (s, t, w)) with
  | Done a ((_, m'), (s', _, w')) => same_files m0 m' /\ session_wf s' /\ w_rand w' = rnd /\ Q a s'
  | Fail ((_, m'), (s', _, w')) => same_files m0 m' /\ session_wf s' /\ w_rand w' = rnd
  | Fault | NoFuel => False
  end.

Lemma same_files_trans m1 m2 m3 : same_files m1 m2 -> same_files m2 m3 -> same_files m1 m3.
Proof. unfold same_files. intuition congruence. Qed.

Section Rules.
Context {X : Type}.

Lemma flow_safe {A} (m : Fx X A) Q : fx_safe rnd m Q -> keeps_files m -> flow m (fun a _ => Q a).
Proof.
  intros Hs Hk x m0 s t w Hwf Hw Hc. specialize (Hs (x, m0) s t w Hwf Hw). specialize (Hk x m0 (s, t, w)).
  destruct (m _) as [a [[x1 m1] [[s1 t1] w1]]|[[x1 m1] [[s1 t1] w1]]| |]; try done; naive_solver.
Qed.

Lemma flow_bind {A D} (m : Fx X A) (k : A -> Fx X D) Q Q' :
  flow m Q -> (forall a, (exists s, Q a s) -> flow (k a) Q') -> flow (m ≫= k) Q'.
Proof.
  intros Hm Hk x m0 s t w Hwf Hw Hc. specialize (Hm x m0 s t w Hwf Hw Hc). unfold mbind, M_bind.
  destruct (m _) as [a [[x1 m1] [[s1 t1] w1]]|[[x1 m1] [[s1 t1] w1]]| |]; try done.
  destruct Hm as (Hf1 & Hs1 & Hw1 & Ha).
  specialize (Hk a (ex_intro _ s1 Ha) x1 m1 s1 t1 w1 Hs1 Hw1 ltac:(by rewrite (proj2 (proj2 Hf1)))).
  destruct (k a _) as [b [[x2 m2] [[s2 t2] w2]]|[[x2 m2] [[s2 t2] w2]]| |]; try done.
  - destruct Hk as (Hf2 & ?). split; [by eapply same_files_trans|done].
  - destruct Hk as (Hf2 & ?). split; [by eapply same_files_trans|done].
Qed.

(** The same with what is known of the session behind the first step. *)
Lemma flow_last {A D} (m : Fx X A) (k : A -> D) (P : A -> bool) Q :
  flow m (fun a s => P a = true -> Q s) ->
  flow (m ≫= fun a => if P a then mret (k a) else fail) (fun _ s => Q s).
Proof.
  intros Hm x m0 s t w Hwf Hw Hc. specialize (Hm x m0 s t w Hwf Hw Hc). unfold mbind, M_bind.
  destruct (m _) as [a [[x1 m1] [[s1 t1] w1]]|[[x1 m1] [[s1 t1] w1]]| |]; try done.
  destruct Hm as (? & ? & ? & Ha). destruct (P a); cbn; [|done]. split_and!; auto.
Qed.

Lemma flow_ret {A} (a : A) (Q : A -> MtProtoSession -> Prop) : (forall s, Q a s) -> flow (X := X) (mret a) Q.
Proof. intros Ha x m0 s t w Hwf Hw Hc. by split_and!. Qed.

Lemma flow_fail {A} (Q : A -> MtProtoSession -> Prop) : flow (X := X) fail Q.
Proof. by intros x m0 s t w Hwf Hw Hc. Qed.

Lemma flow_weaken {A} (m : Fx X A) (Q Q' : A -> MtProtoSession -> Prop) :
  flow m Q -> (forall a s, Q a s -> Q' a s) -> flow m Q'.
Proof.
  intros Hm HQ x m0 s t w Hwf Hw Hc. specialize (Hm x m0 s t w Hwf Hw Hc).
  destruct (m _) as [a [[x1 m1] [[s1 t1] w1]]|[[x1 m1] [[s1 t1] w1]]| |]; try done. naive_solver.
Qed.

Lemma flow_and {A} (m : Fx X A) Q Q' : flow m Q -> fx_safe rnd m Q' -> flow m (fun a s => Q a s /\ Q' a).
Proof.
  intros Hm Hs x m0 s t w Hwf Hw Hc. specialize (Hm x m0 s t w Hwf Hw Hc). specialize (Hs (x, m0) s t w Hwf Hw).
  destruct (m _) as [a [[x1 m1] [[s1 t1] w1]]|[[x1 m1] [[s1 t1] w1]]| |]; try done. tauto.
Qed.

Lemma keeps_same {A} (m : Fx X A) :
  (forall x m0 c, match m ((x, m0), c) with
   | Done _ ((_, m'), _) | Fail ((_, m'), _) => m' = m0 | _ => True end) -> keeps_files m.
Proof. intros H x m0 c. specialize (H x m0 c). by destruct (m _) as [? [[] ]|[[] ]| |]; try done; subst. Qed.

Lemma keeps_conn {A} (m : M Conn A) : keeps_files (X := X) (on_snd m).
Proof. apply keeps_same. intros x m0 c. unfold on_snd. cbn [fst snd]. by destruct (m c). Qed.

Lemma keeps_call {Y A} (y : Y) (m : M (Y * Conn) A) : keeps_files (X := X) (local_call y m).
Proof. apply keeps_same. intros x m0 c. unfold local_call. by destruct (m (y, c)) as [? []|[]| |]. Qed.

Lemma keeps_bind_files {A D} (m : Fx X A) (k : A -> Fx X D) :
  keeps_files m -> (forall a, keeps_files (k a)) -> keeps_files (m ≫= k).
Proof.
  intros Hm Hk x m0 c. specialize (Hm x m0 c). unfold mbind, M_bind.
  destruct (m _) as [a [[x1 m1] c1]|[[x1 m1] c1]| |]; try done. specialize (Hk a x1 m1 c1).
  destruct (k a _) as [b [[x2 m2] c2]|[[x2 m2] c2]| |]; try done; by eapply same_files_trans.
Qed.

Lemma keeps_dial ep : keeps_files (X := X) (dial ep).
Proof. apply keeps_bind_files; [by intros x m0 [[s t] w]|]. intros _. apply keeps_conn. Qed.

Lemma keeps_succeeded {A} (m : Fx X A) : keeps_files m -> keeps_files (succeeded m).
Proof.
  intros Hm x m0 c. specialize (Hm x m0 c). unfold succeeded.
  by destruct (m _) as [a [[x1 m1] c1]|[[x1 m1] c1]| |].
Qed.

(** What succeeded. *)
Lemma flow_succeeded {A} (m : Fx X A) Q : flow m (fun _ _ => Q) -> flow (succeeded m) (fun b _ => b = true -> Q).
Proof.
  intros Hm x m0 s t w Hwf Hw Hc. specialize (Hm x m0 s t w Hwf Hw Hc). unfold succeeded.
  destruct (m _) as [a [[x1 m1] [[s1 t1] w1]]|[[x1 m1] [[s1 t1] w1]]| |]; try done; naive_solver.
Qed.

Lemma flow_lookup dc : flow (X := X) (lookup dc) (fun o _ => o = dc_lookup c0 dc).
Proof. intros x m0 s t w Hwf Hw <-. by split_and!. Qed.

End Rules.

(** *** Connecting *)

Lemma keeps_connect {X} phys dh : keeps_files (X := X) (connect_dc_ex server_key malloc_bytes phys dh).
Proof.
  unfold connect_dc_ex. apply keeps_bind_files; [by apply keeps_same; intros x m0 c|]. intros [ep|];
    [|by apply keeps_same; intros x m0 c].
  apply keeps_bind_files; [apply keeps_dial|]. intros _. apply keeps_bind_files; [apply keeps_conn|]. intros _.
  apply keeps_bind_files; [apply keeps_succeeded, keeps_conn|]. intros ok. destruct (negb ok); [|apply keeps_conn].
  apply keeps_bind_files; [apply keeps_conn|]. intros _. by apply keeps_same; intros x m0 c.
Qed.

Lemma keeps_migrate {X} dc dh : keeps_files (X := X) (migrate server_key malloc_bytes dc dh).
Proof.
  unfold migrate. apply keeps_bind_files; [apply keeps_conn|]. intros _.
  apply keeps_bind_files; [apply keeps_conn|]. intros _. apply keeps_connect.
Qed.

Lemma keeps_soft {X} dc : keeps_files (X := X) (migrate_soft dc).
Proof.
  unfold migrate_soft. apply keeps_bind_files; [apply keeps_conn|]. intros _.
  apply keeps_bind_files; [by apply keeps_same; intros x m0 c|]. intros [ep|];
    [|by apply keeps_same; intros x m0 c].
  apply keeps_bind_files; [apply keeps_dial|]. intros _. apply keeps_conn.
Qed.

(** A data centre that is in the table. *)
Definition known (dc : Z) : Prop := is_Some (dc_lookup c0 dc).

Lemma flow_known {X} dc (k : DcEndpoint -> Fx X unit) :
  (forall ep, fx_safe rnd (k ep) any_result) -> (forall ep, keeps_files (k ep)) ->
  flow (ep ← lookup dc; match ep with None => fail | Some ep => k ep end) (fun _ _ => known dc).
Proof.
  intros Hs Hk. eapply flow_bind; [apply flow_lookup|]. intros o [_ ->]. unfold known.
  destruct (dc_lookup c0 dc) as [ep|]; [|apply flow_fail].
  eapply flow_weaken; [by apply flow_safe|]. intros _ _ _. by eexists.
Qed.

Lemma flow_connect {X} phys dh : flow (X := X) (connect_dc_ex server_key malloc_bytes phys dh) (fun _ _ => known phys).
Proof using HB HC HR Hmalloc Hrnd.
  apply flow_known; intros ep.
  - eapply fx_bind; [apply fx_dial|]. intros _ _. eapply fx_bind; [apply fx_put_dc_id|]. intros _ _.
    eapply fx_bind; [by eapply fx_succeeded, key_gen_safe|]. intros ok _. destruct (negb ok); [|apply fx_put_dc_id].
    eapply fx_bind; [apply fx_close|]. intros _ _. apply fx_fail.
  - apply keeps_bind_files; [apply keeps_dial|]. intros _. apply keeps_bind_files; [apply keeps_conn|]. intros _.
    apply keeps_bind_files; [apply keeps_succeeded, keeps_conn|]. intros ok. destruct (negb ok); [|apply keeps_conn].
    apply keeps_bind_files; [apply keeps_conn|]. intros _. by apply keeps_same; intros x m0 c.
Qed.

Lemma flow_migrate {X} dc dh : flow (X := X) (migrate server_key malloc_bytes dc dh) (fun _ _ => known dc).
Proof using HB HC HR Hmalloc Hrnd.
  unfold migrate. eapply flow_bind; [apply (flow_safe _ any_result); [apply fx_close|apply keeps_conn]|].
  intros _ _. eapply flow_bind; [apply (flow_safe _ any_result); [apply fx_session_init|apply keeps_conn]|].
  intros _ _. apply flow_connect.
Qed.

Lemma flow_soft {X} dc : flow (X := X) (migrate_soft dc) (fun _ _ => known dc).
Proof.
  unfold migrate_soft. eapply flow_bind; [apply (flow_safe _ any_result); [apply fx_close|apply keeps_conn]|].
  intros _ _. apply flow_known; intros ep.
  - eapply fx_bind; [apply fx_dial|]. intros _ _. apply fx_put_dc_id.
  - apply keeps_bind_files; [apply keeps_dial|]. intros _. apply keeps_conn.
Qed.

Lemma flow_any_call {X Y A} (y : Y) (m : M (Y * Conn) A) Q :
  fx_safe (X := X) rnd (local_call y m) Q -> flow (X := X) (local_call y m) (fun r _ => Q r).
Proof. intros Hs. apply flow_safe; [done|apply keeps_call]. Qed.

(** The data centre of the login is one of the table, and not 0. *)
Lemma flow_send_code {X} quota phone : short phone -> forall dc sent,
  code_inv (sent, no_error) -> known dc -> dc <> 0 ->
  flow (X := X) (send_code_loop server_key malloc_bytes tinf cfg quota phone dc sent)
    (fun r _ => known (snd (fst r)) /\ snd (fst r) <> 0 /\ code_inv (fst (fst r), no_error)).
Proof using HB HC HR Hcfg Hf Hhash Hmalloc Hrnd.
  intros Hp. induction quota as [|quota IH]; intros dc sent Hs Hk Hdc; cbn [send_code_loop];
    (eapply flow_bind; [by apply flow_any_call, (send_code_local tinf cfg rnd Hcfg Hf Hhash)|]); intros [[[]|] [s e]] [_ Hr];
    try by apply flow_ret.
  - apply flow_fail.
  - destruct (Z.ltb_spec 0 (migrate_dc e)) as [Hm|]; [|apply flow_fail]. cbn zeta.
    assert (Ht : migration_target dc (migrate_dc e) <> 0) by (unfold migration_target; destruct (dc <? 0); lia).
    eapply flow_bind; [apply flow_succeeded, flow_migrate|]. intros ok [_ Hok]. destruct ok; [by apply IH; auto|].
    eapply flow_bind; [apply flow_soft|]. intros _ [_ Hk2]. by apply IH.
Qed.

(** *** Calls need a key *)

Definition needs_key {Y A} (m : M (Y * Conn) A) : Prop := forall y s t w a y' c',
  m (y, (s, t, w)) = Done a (y', c') -> has_auth_key s = true.

(** Work in front of a call. *)
Definition keeps_session {Y A} (m : M (Y * Conn) A) : Prop := forall y s t w a y' s' t' w',
  m (y, (s, t, w)) = Done a (y', (s', t', w')) -> s' = s.

Lemma needs_key_first {Y A D} (m : M (Y * Conn) A) (k : A -> M (Y * Conn) D) :
  needs_key m -> needs_key (m ≫= k).
Proof. intros Hm y s t w a y' c' E. apply run_inv in E as (a1 & [y1 c1] & E1 & _). by eapply Hm. Qed.

Lemma needs_key_then {Y A D} (m : M (Y * Conn) A) (k : A -> M (Y * Conn) D) :
  keeps_session m -> (forall a, needs_key (k a)) -> needs_key (m ≫= k).
Proof.
  intros Hm Hk y s t w a y' c' E. apply run_inv in E as (a1 & [y1 [[s1 t1] w1]] & E1 & E2).
  rewrite <- (Hm _ _ _ _ _ _ _ _ _ E1). by eapply Hk.
Qed.

Lemma needs_key_call {Y} q n : needs_key (call_api (X := Y) tinf cfg q n).
Proof.
  intros y s t w a y' c' E. destruct (has_auth_key s) eqn:Hk; [done|]. by rewrite call_needs_key in E.
Qed.

Lemma needs_key_fail {Y A} : needs_key (fail : M (Y * Conn) A).
Proof. by intros y s t w a y' c' E. Qed.

Lemma session_bind {Y A D} (m : M (Y * Conn) A) (k : A -> M (Y * Conn) D) :
  keeps_session m -> (forall a, keeps_session (k a)) -> keeps_session (m ≫= k).
Proof.
  intros Hm Hk y s t w a y' s' t' w' E. apply run_inv in E as (a1 & [y1 [[s1 t1] w1]] & E1 & E2).
  rewrite <- (Hm _ _ _ _ _ _ _ _ _ E1). by eapply Hk.
Qed.

Lemma session_pure {Y A} (m : M (Y * Conn) A) : pure_m m -> keeps_session m.
Proof. intros Hm y s t w a y' s' t' w' E. specialize (Hm (y, (s, t, w))). rewrite E in Hm. by injection Hm. Qed.

Lemma session_query {Y} w0 n : keeps_session (Y := Y) (take_query w0 n).
Proof. apply session_pure. intros st. unfold take_query. by destruct (n <? w_len w0). Qed.

Lemma session_upd {Y} (f : Y -> Y) : keeps_session (upd_ctx f).
Proof. by intros y s t w a y' s' t' w' [= _ _ <- _ _]. Qed.

Lemma session_rand {Y} n : keeps_session (Y := Y) (on_snd (on_snd (crypto_rand_bytes n))).
Proof. by intros y s t w a y' s' t' w' [= _ _ <- _ _]. Qed.

Lemma session_srp {Y} p pwd : keeps_session (Y := Y) (srp_compute p pwd None).
Proof.
  unfold srp_compute, srp_secret. apply session_bind; [apply session_rand|]. intros a.
  apply session_bind; [apply session_pure, pure_mod_exp|]. intros gA.
  destruct (compute_x _ _ _); [|by intros y s t w b y' s' t' w' E].
  repeat (apply session_bind; [apply session_pure; first [apply pure_mod_exp|apply pure_mod_op]|intros ?]).
  by intros y s t w b y' s' t' w' [= _ _ <- _ _].
Qed.

Lemma sign_in_key phone hash code : needs_key (Login.auth_sign_in tinf cfg phone hash code).
Proof.
  unfold auth_sign_in, build_sign_in. apply needs_key_then; [apply session_upd|]. intros _.
  apply needs_key_then; [apply session_query|]. intros q. apply needs_key_first, needs_key_call.
Qed.

Lemma sign_up_key phone hash first last : needs_key (auth_sign_up tinf cfg phone hash first last).
Proof.
  unfold auth_sign_up, build_sign_up. apply needs_key_then; [apply session_upd|]. intros _.
  apply needs_key_then; [apply session_query|]. intros q. apply needs_key_first, needs_key_call.
Qed.

Lemma check_password_key p pwd : needs_key (auth_2fa_check_password tinf cfg p pwd).
Proof.
  unfold auth_2fa_check_password. destruct (negb _); [apply needs_key_fail|].
  apply needs_key_then; [apply session_srp|]. intros r.
  apply needs_key_then; [apply session_query|]. intros q. apply needs_key_first, needs_key_call.
Qed.

(** The key that was needed is still there. *)
Definition key_kept {Y A} (y : Y) (m : M (Y * Conn) A) : Prop := forall s t w a y' s' t' w',
  session_wf s -> w_rand w = rnd -> m (y, (s, t, w)) = Done a (y', (s', t', w')) ->
  has_auth_key s' = has_auth_key s.

Lemma key_kept_safe {Y A} (I : Y -> Prop) (y : Y) (m : M (Y * Conn) A) Q : I y -> cx_safe I m Q -> key_kept y m.
Proof.
  intros Hy Hm s t w a y' s' t' w' Hs _ E. specialize (Hm y s t w Hy Hs). rewrite E in Hm.
  destruct Hm as ((_ & _ & Hk & _) & _). exact Hk.
Qed.

Lemma flow_call {X Y A} (y : Y) (m : M (Y * Conn) A) Q :
  fx_safe (X := X) rnd (local_call y m) Q -> needs_key m -> key_kept y m ->
  flow (X := X) (local_call y m) (fun r s => Q r /\ (is_Some (fst r) -> has_auth_key s = true)).
Proof.
  intros Hs Hn Hk x m0 s t w Hwf Hw Hc. specialize (Hs (x, m0) s t w Hwf Hw). unfold local_call in *.
  destruct (m (y, (s, t, w))) as [a [y1 [[s1 t1] w1]]|[y1 [[s1 t1] w1]]| |] eqn:E; try done.
  - destruct Hs as (Hs1 & Hw1 & HQ). split_and!; try done. intros _.
    rewrite (Hk _ _ _ _ _ _ _ _ Hwf Hw E). by eapply Hn.
  - destruct Hs as (Hs1 & Hw1 & HQ). split_and!; try done. by intros [? ?].
Qed.

(** A result that needed the key. *)
Definition keyed_flow {X A} (m : Fx X A) : Prop := flow m (fun _ s => has_auth_key s = true).

Lemma keyed_then {X A D} (m : Fx X A) (k : A -> Fx X D) Q :
  flow m (fun a _ => Q a) -> (forall a, Q a -> keyed_flow (k a)) -> keyed_flow (m ≫= k).
Proof. intros Hm Hk. eapply flow_bind; [exact Hm|]. intros a [_ Ha]. by apply Hk. Qed.

(** A call whose success is the end, and something else behind its failure. *)
Lemma keyed_call {X Y A D} (y : Y) (m : M (Y * Conn) A) (k : option A * Y -> Fx X D) Q :
  fx_safe (X := X) rnd (local_call y m) Q -> needs_key m -> key_kept y m ->
  (forall a y', exists d, k (Some a, y') = mret d) ->
  (forall y', Q (None, y') -> keyed_flow (k (None, y'))) -> keyed_flow (local_call y m ≫= k).
Proof.
  intros Hs Hn Hk Hend Hrest x m0 s t w Hwf Hw Hc.
  pose proof (flow_call y m Q Hs Hn Hk x m0 s t w Hwf Hw Hc) as H. unfold mbind, M_bind.
  destruct (local_call y m _) as [[[a|] y1] [[x1 m1] [[s1 t1] w1]]|[[x1 m1] [[s1 t1] w1]]| |]; try done;
    destruct H as (Hf1 & Hs1 & Hw1 & HQ & Hkey).
  - destruct (Hend a y1) as [d ->]. split_and!; try done. by apply Hkey.
  - specialize (Hrest y1 HQ x1 m1 s1 t1 w1 Hs1 Hw1 ltac:(by rewrite (proj2 (proj2 Hf1)))).
    destruct (k _ _) as [b [[x2 m2] [[s2 t2] w2]]|[[x2 m2] [[s2 t2] w2]]| |]; try done;
      (destruct Hrest as (Hf2 & Hrest); split; [by eapply same_files_trans|done]).
Qed.

Lemma keyed_fail {X A} : keyed_flow (fail : Fx X A).
Proof. apply flow_fail. Qed.

Lemma keyed_end {X Y A D} (y : Y) (m : M (Y * Conn) A) (k : option A * Y -> D) Q :
  fx_safe (X := X) rnd (local_call y m) Q -> needs_key m -> key_kept y m ->
  keyed_flow (X := X) (r ← local_call y m; match fst r with Some _ => mret (k r) | None => fail end).
Proof.
  intros Hs Hn Hk. eapply keyed_call; [done..| |].
  - intros a y'. by eexists.
  - intros y' _. apply keyed_fail.
Qed.

Lemma keyed_password cb : keyed_flow (password_login tinf cfg cb).
Proof using HB HC Hcfg Hf Hrnd.
  unfold password_login. eapply keyed_then; [apply (flow_safe _ any_result), keeps_same; [apply fx_upd_obj|by intros x m0 c]|].
  intros _ _. destruct (get_password cb) as [answer|]; [|apply keyed_fail].
  eapply keyed_then; [eapply flow_any_call, (fx_local rnd pw_inv _ _ any_result)|].
  - by split_and!.
  - by apply get_password_safe.
  - apply tracks_get_password.
  - intros [o [params e]] [_ H]. cbn [snd] in H. destruct o; [|apply keyed_fail].
    destruct (negb _); [apply keyed_fail|]. destruct answer as [pwd|]; [|apply keyed_fail].
    eapply (keyed_end _ _ (fun r => fst (snd r))); [apply check_password_local; [done..|apply H]|apply check_password_key|].
    destruct (decide (0 < srp_N params)) as [Hp|Hp].
    + eapply (key_kept_safe no_inv); [done|]. apply check_password_safe; [done..| |done]. apply H.
    + intros s t w a y' s' t' w' Hs Hw E.
      destruct (check_password_zero tinf cfg rnd Hrnd params pwd (0, mkError 0 [] 0 0) s t w Hp Hw) as (w2 & E2 & _).
      by rewrite E2 in E.
Qed.

Lemma keyed_sign_in cb quota phone hash code dc : short phone -> short hash -> short code ->
  keyed_flow (AuthFlow.sign_in server_key malloc_bytes tinf cfg cb quota phone hash code dc).
Proof using HB HC HR Hcfg Hf Hmalloc Hrnd.
  intros Hp Hh Hc. unfold AuthFlow.sign_in.
  assert (Hin := sign_in_safe tinf cfg Hcfg Hf phone hash code Hp Hh Hc).
  assert (Hup := sign_up_safe tinf cfg Hcfg Hf phone hash (ascii "Test") (Some (ascii "Account")) Hp Hh
                   ltac:(by vm_compute) ltac:(by vm_compute)).
  eapply (keyed_call _ _ _ any_result); [|apply sign_in_key|by eapply (key_kept_safe no_inv)| |].
  { eapply fx_weaken; [by eapply (fx_local rnd no_inv); [|exact Hin|apply tracks_sign_in]|done]. }
  { intros a [o e]. by eexists. }
  intros [o e] _. destruct (negb _).
  - eapply (keyed_end _ _ (fun r => user_id_out (fst (snd r))));
      [|apply sign_up_key|by eapply (key_kept_safe no_inv)].
    by eapply (fx_local rnd no_inv); [|exact Hup|apply tracks_sign_up].
  - destruct (_ && _); [|destruct (str_eq _ _); [apply keyed_password|apply keyed_fail]]. cbn zeta.
    eapply keyed_then; [apply (flow_safe _ any_result); [by apply migrate_safe|apply keeps_migrate]|].
    intros _ _. apply keyed_fail.
Qed.


(** ** The next start *)

Lemma exec_complete {A} (p : prog A) fs : exec_prog p fs [] = (fst (complete p fs), snd (complete p fs), []).
Proof.
  revert fs. induction p as [a|T c k IH]; intros fs; [done|]. cbn [exec_prog complete next_decision].
  destruct (exec DOk c fs) as [r fs']. apply IH.
Qed.

(** A save that is not disturbed, and a load. *)
Lemma save_run y fs dc s : ready y ∅ fs -> savable dc s ->
  (st_count (default store_zero (stored y)) < SESSION_STORE_MAX_DCS)%nat ->
  exists g z, complete (session_store_save s dc) fs = (true, g) /\ ready z ∅ g /\
    store_state z = spec_save dc (session_creds s) true (store_state y).
Proof.
  intros Hr (Hd & Hsalt & Hsid & Hkey & Hk) Hc.
  destruct (upsert_ok y dc s true fs Hr Hk) as [g Hu].
  pose proof (upsert_store_spec dc s true _ (stored_ok y) Hd Hsalt Hsid Hkey) as Hs.
  destruct (upsert_store dc s true _) as [st'|].
  - destruct Hu as [E Hg], Hs as [Hok Ha]. exists g, (Some (store_bytes st')). split; [exact E|]. split; [done|].
    unfold store_state at 1. by rewrite stored_written.
  - destruct Hs as [_ Hfull]. lia.
Qed.

Lemma load_run y fs s0 : ready y ∅ fs ->
  exists g, ready (touched y) ∅ g /\ complete (session_store_load s0) fs =
    (if fst (store_state y) =? 0 then None
     else (fun c => (loaded c, fst (store_state y))) <$> snd (store_state y) !! fst (store_state y), g).
Proof.
  intros Hr. destruct (read_shared_ok y fs Hr) as (g & E & Hg). exists g. split; [done|].
  destruct (loaders_at y fs 0 s0 Hr) as [_ <-]. unfold session_store_load.
  by rewrite (complete_bind _ _ _ _ _ E).
Qed.

Lemma state_touched y : store_state (touched y) = store_state y.
Proof. unfold store_state. by rewrite stored_of_touched. Qed.


(** The part of [restore_session] behind the load. *)
Definition restore_tail (saved : option (MtProtoSession * Z)) : Fx AuthFlowResult bool :=
  match saved with
  | None => mret false
  | Some (s, saved_dc) =>
      put_session s ;;
      if negb (has_auth_key s) then mret false
      else
        on_snd (on_ses mtproto_session_renew_id) ;;
        ep ← lookup saved_dc;
        ok ← match ep with Some ep => succeeded (dial ep) | None => mret false end;
        if ok : bool then
          put_dc_id saved_dc ;;
          upd_obj (set_flow saved_dc 0) ;;
          mret true
        else
          match ep with Some _ => close | None => mret tt end ;;
          session_init ;;
          mret false
  end.

Lemma session_init_at {X} (xm : X * Machine) s t w : exists s1 w1,
  session_init (xm, (s, t, w)) = Done tt (xm, (s1, t, w1)) /\ session_wf s1 /\ w_rand w1 = w_rand w.
Proof.
  destruct (fresh_id_wf session_zero w) as (s' & w' & E & Hs' & Hw'); [done|]. exists s', w'. split; [|done].
  unfold session_init, on_snd, on_ses, mtproto_session_init. cbn [fst snd].
  rewrite (bind_Done _ _ _ tt (session_zero, w)) by done. by rewrite E.
Qed.

Lemma restore_at y x m s t w : ready y ∅ (m_fs m) -> m_ds m = [] -> exists g s1 w1,
  ready (touched y) ∅ g /\ session_wf s1 /\ w_rand w1 = w_rand w /\
  restore_session ((x, m), (s, t, w)) =
    restore_tail (if fst (store_state y) =? 0 then None
                  else (fun c => (loaded c, fst (store_state y))) <$> snd (store_state y) !! fst (store_state y))
      ((x, set_files g [] m), (s1, t, w1)).
Proof.
  intros Hr Hds. destruct (session_init_at (x, m) s t w) as (s1 & w1 & E & Hs1 & Hw1).
  destruct (load_run y (m_fs m) s1 Hr) as (g & Hg & El). exists g, s1, w1. split_and!; try done.
  unfold restore_session. rewrite (bind_Done _ _ _ _ _ E).
  rewrite (bind_Done _ _ _ s1 ((x, m), (s1, t, w1))) by done.
  rewrite (bind_Done _ _ _ _ _ (files_at _ x m (s1, t, w1) _ _ _ (eq_trans (f_equal _ Hds) (exec_complete _ _)))).
  rewrite El. done.
Qed.

(** The new id leaves key and salt. *)
Lemma renew_at {X} (xm : X * Machine) s t w : exists s1 w1,
  on_snd (on_ses mtproto_session_renew_id) (xm, (s, t, w)) = Done tt (xm, (s1, t, w1)) /\
  auth_key s1 = auth_key s /\ server_salt s1 = server_salt s /\ has_auth_key s1 = has_auth_key s.
Proof.
  unfold on_snd, on_ses, mtproto_session_renew_id, fresh_session_id, modify_session, get_fst, put_fst, on_snd,
    crypto_rand_bytes, when, mret, M_ret, mbind, M_bind. cbn [fst snd].
  match goal with |- context [session_id ?z =? 0] => destruct (session_id z =? 0) end; by do 2 eexists.
Qed.

Lemma close_at {X} (xm : X * Machine) s t w : exists t', close (xm, (s, t, w)) = Done tt (xm, (s, t', w)).
Proof.
  unfold close, on_snd, transport_close. cbn [fst snd]. rewrite on_tr_cases. unfold mbind, M_bind, get_fst. cbn [fst].
  destruct (0 <=? fd t); by eexists.
Qed.

(** Going on without the session. *)
Lemma drop_at {X} (xm : X * Machine) (m : Fx X unit) s t w :
  m = close \/ m = mret tt -> exists st, (m ;; session_init ;; mret false) (xm, (s, t, w)) = Done false st.
Proof.
  intros Hm. assert (H : exists t', m (xm, (s, t, w)) = Done tt (xm, (s, t', w))).
  { destruct Hm as [->| ->]; [apply close_at|by exists t]. }
  destruct H as [t' H]. destruct (session_init_at xm s t' w) as (s1 & w1 & E & _).
  eexists. rewrite (bind_Done _ _ _ _ _ H). exact (bind_Done _ (fun _ => mret false) _ _ _ E).
Qed.

Lemma dial_at ep x m s t w :
  match transport_connect (t, set_net w (m_dial m ep (length (m_dials m)))) with
  | Done _ (t2, w2) => succeeded (dial ep) ((x : AuthFlowResult, m), (s, t, w)) =
      Done true ((x, mkMachine (m_fs m) (m_ds m) (m_dial m) (m_dials m ++ [ep]) (m_config m)), (s, t2, w2))
  | Fail (t2, w2) => succeeded (dial ep) ((x : AuthFlowResult, m), (s, t, w)) =
      Done false ((x, mkMachine (m_fs m) (m_ds m) (m_dial m) (m_dials m ++ [ep]) (m_config m)), (s, t2, w2))
  | _ => False
  end.
Proof.
  set (n := m_dial m ep _).
  assert (E : dial ep ((x, m), (s, t, w)) = on_snd (on_tr transport_connect)
    ((x, mkMachine (m_fs m) (m_ds m) (m_dial m) (m_dials m ++ [ep]) (m_config m)), (s, t, set_net w n))) by done.
  pose proof (connect_rand t (set_net w n)) as H. unfold succeeded. rewrite E. unfold on_snd. cbn [fst snd].
  rewrite on_tr_cases. by destruct (transport_connect (t, set_net w n)) as [[] [t2 w2]|[t2 w2]| |].
Qed.

Lemma tail_at s dc x m s0 t w : has_auth_key s = true ->
  match dc_lookup (m_config m) dc with
  | None => exists st, restore_tail (Some (s, dc)) ((x, m), (s0, t, w)) = Done false st
  | Some ep => exists s1 w1 m1, same_files m m1 /\
      auth_key s1 = auth_key s /\ server_salt s1 = server_salt s /\ has_auth_key s1 = true /\
      match transport_connect (t, set_net w1 (m_dial m ep (length (m_dials m)))) with
      | Done _ (t2, w2) =>
          restore_tail (Some (s, dc)) ((x, m), (s0, t, w)) =
            Done true ((set_flow dc 0 x, m1), (s1, set_transport_dc dc t2, w2))
      | Fail _ => exists st, restore_tail (Some (s, dc)) ((x, m), (s0, t, w)) = Done false st
      | _ => False
      end
  end.
Proof.
  intros Hk. unfold restore_tail. rewrite Hk. cbn [negb].
  destruct (renew_at (x, m) s t w) as (s1 & w1 & E & Hak & Hsalt & Hhas).
  assert (Hpre : forall (k : Fx AuthFlowResult bool),
    (put_session s ;; on_snd (on_ses mtproto_session_renew_id) ;; k) ((x, m), (s0, t, w)) = k ((x, m), (s1, t, w1))).
  { intros k. rewrite (bind_Done _ _ _ tt ((x, m), (s, t, w))) by done.
    exact (bind_Done _ (fun _ => k) _ _ _ E). }
  destruct (dc_lookup (m_config m) dc) as [ep|] eqn:El.
  - exists s1, w1, (mkMachine (m_fs m) (m_ds m) (m_dial m) (m_dials m ++ [ep]) (m_config m)).
    split; [done|]. do 2 (split; [done|]). split; [by rewrite Hhas|]. rewrite Hpre.
    rewrite (bind_Done _ _ _ (Some ep) ((x, m), (s1, t, w1))) by (unfold lookup; cbn; by rewrite El).
    pose proof (dial_at ep x m s1 t w1) as H. destruct (transport_connect _) as [[] [t2 w2]|[t2 w2]| |]; [| |done..].
    + by rewrite (bind_Done _ _ _ _ _ H).
    + rewrite (bind_Done _ _ _ _ _ H).
      refine (drop_at (x, mkMachine (m_fs m) (m_ds m) (m_dial m) (m_dials m ++ [ep]) (m_config m)) close s1 t2 w2 _).
      by left.
  - rewrite Hpre. rewrite (bind_Done _ _ _ None ((x, m), (s1, t, w1))) by (unfold lookup; cbn; by rewrite El).
    rewrite (bind_Done _ _ _ false ((x, m), (s1, t, w1))) by done.
    refine (drop_at (x, m) (mret tt) s1 t w1 _). by right.
Qed.

(** What a restore that gives up leaves in the files. *)
Lemma keeps_tail saved : keeps_files (restore_tail saved).
Proof.
  assert (Hany : forall A (a : A) (X : Type), keeps_files (X := X) (mret a)).
  { intros. apply keeps_same. by intros x m0 c. }
  unfold restore_tail. destruct saved as [[s dc]|]; [|apply Hany].
  apply keeps_bind_files; [apply keeps_conn|]. intros _. destruct (negb _); [apply Hany|].
  apply keeps_bind_files; [apply keeps_conn|]. intros _.
  apply keeps_bind_files; [by apply keeps_same; intros x m0 c|]. intros ep.
  apply keeps_bind_files; [destruct ep; [apply keeps_succeeded, keeps_dial|apply Hany]|]. intros [|].
  - apply keeps_bind_files; [apply keeps_conn|]. intros _.
    apply keeps_bind_files; [by apply keeps_same; intros x m0 c|]. intros _. apply Hany.
  - apply keeps_bind_files; [destruct ep; [apply keeps_conn|apply Hany]|]. intros _.
    apply keeps_bind_files; [apply keeps_conn|]. intros _. apply Hany.
Qed.

Lemma keeps_resend {X} phone sent : keeps_files (X := X) (resend_by_sms tinf cfg phone sent).
Proof.
  unfold resend_by_sms. destruct (_ && _); [|by apply keeps_same; intros x m0 c].
  apply keeps_bind_files; [apply keeps_call|]. intros r. by apply keeps_same; intros x m0 c.
Qed.

(** *** What the next process finds

    The credentials of the session under its data centre, the home of the
    store, with no file system work left half done. *)
Definition remembered (r : AuthFlowResult) (s : MtProtoSession) (m : Machine) : Prop :=
  exists y c, ready y ∅ (m_fs m) /\ m_ds m = [] /\ m_config m = c0 /\
    fst (store_state y) = fl_dc_id r /\ fl_dc_id r <> 0 /\ known (fl_dc_id r) /\
    snd (store_state y) !! fl_dc_id r = Some c /\
    auth_key (loaded c) = auth_key s /\ server_salt (loaded c) = server_salt s.

(** [leaves P m]: [m], started in a session with [P], is remembered when it
    succeeds.  The session file is [y] with a free place in the store. *)
Definition leaves (y : option (list byte)) (P : MtProtoSession -> Prop) {A} (m : Fx AuthFlowResult A) : Prop :=
  forall x m0 s t w, session_wf s -> w_rand w = rnd -> P s -> m_config m0 = c0 ->
  ready y ∅ (m_fs m0) -> m_ds m0 = [] ->
  match m ((x, m0), (s, t, w)) with
  | Done _ ((r, m'), (s', _, _)) => remembered r s' m'
  | _ => True
  end.

Lemma leaves_bind y {A D} (m : Fx AuthFlowResult A) (k : A -> Fx AuthFlowResult D) P Q :
  flow m Q -> (forall a, (exists s, Q a s) -> leaves y (Q a) (k a)) -> leaves y P (m ≫= k).
Proof.
  intros Hm Hk x m0 s t w Hwf Hw _ Hc Hr Hds. specialize (Hm x m0 s t w Hwf Hw Hc). unfold mbind, M_bind.
  destruct (m _) as [a [[x1 m1] [[s1 t1] w1]]|[[x1 m1] [[s1 t1] w1]]| |]; try done.
  destruct Hm as ((Hf1 & Hf2 & Hf3) & Hs1 & Hw1 & Ha).
  apply (Hk a (ex_intro _ s1 Ha) x1 m1 s1 t1 w1 Hs1 Hw1 Ha); congruence.
Qed.

Lemma leaves_fail y P {A} : leaves y P (fail : Fx AuthFlowResult A).
Proof. by intros x m0 s t w Hwf Hw HP Hc Hr Hds. Qed.

Context (Henv : non_empty (env_host c0) = None \/ non_empty (env_port c0) = None).

Lemma known_range dc : known dc -> - DC_ID_MAX <= dc <= DC_ID_MAX.
Proof. by apply dc_lookup_known. Qed.

(** The end of a login: the session is saved under its data centre. *)
Lemma leaves_save y dc uid :
  (st_count (default store_zero (stored y)) < SESSION_STORE_MAX_DCS)%nat -> known dc -> dc <> 0 ->
  leaves y (fun s => has_auth_key s = true)
    (upd_obj (set_flow dc uid) ;; s ← this_session; files (session_store_save s dc) ;; mret tt).
Proof using Henv.
  intros Hn Hk Hdc x m0 s t w Hwf Hw Hkey Hc Hr Hds. pose proof (known_range dc Hk) as Hran. unfold DC_ID_MAX in Hran.
  assert (Hsav : savable dc s).
  { destruct Hwf as (H1 & H2 & _ & _ & _ & H6). split_and!; try done; unfold is_s32; lia. }
  destruct (save_run y (m_fs m0) dc s Hr Hsav Hn) as (g & z & E & Hz & Hst).
  rewrite (bind_Done _ _ _ tt ((set_flow dc uid x, m0), (s, t, w))) by done.
  rewrite (bind_Done _ _ _ s ((set_flow dc uid x, m0), (s, t, w))) by done.
  assert (Ex : exec_prog (session_store_save s dc) (m_fs m0) (m_ds m0) = (true, g, [])).
  { rewrite Hds, exec_complete. by rewrite E. }
  rewrite (bind_Done _ _ _ _ _ (files_at _ _ m0 _ _ _ _ Ex)).
  exists z, (session_creds s). cbn [fl_dc_id set_flow m_fs m_ds m_config set_files mret M_ret].
  rewrite Hst. unfold spec_save. cbn [fst snd orb]. rewrite lookup_insert_eq. split_and!; try done.
  unfold session_creds, loaded. cbn. apply take_ge. destruct Hwf as (_ & _ & _ & _ & _ & ->). reflexivity.
Qed.

(** The login behind a restore that gave up. *)
Lemma leaves_login cb y dc :
  (st_count (default store_zero (stored y)) < SESSION_STORE_MAX_DCS)%nat -> dc <> 0 ->
  opt short (get_phone cb) -> opt short (get_code cb) ->
  leaves y (fun _ => True)
    (connect_dc_ex server_key malloc_bytes dc dc ;;
     match get_phone cb with
     | None => fail
     | Some phone =>
         r ← send_code_loop server_key malloc_bytes tinf cfg AUTH_MAX_MIGRATIONS phone dc sent_zero;
         let '(sent, dc, quota) := r in
         sent ← resend_by_sms tinf cfg phone sent;
         match get_code cb with
         | None => fail
         | Some code =>
             uid ← AuthFlow.sign_in server_key malloc_bytes tinf cfg cb quota phone (phone_code_hash sent) code dc;
             upd_obj (set_flow dc uid) ;;
             s ← this_session;
             files (session_store_save s dc) ;;
             mret tt
         end
     end).
Proof using HB HC HR Hcfg Henv Hf Hhash Hmalloc Hrnd.
  intros Hn Hdc Hp Hcode. eapply leaves_bind; [apply flow_connect|]. intros _ [_ Hk].
  destruct (get_phone cb) as [phone|]; [|apply leaves_fail].
  eapply leaves_bind; [by apply flow_send_code|]. intros [[sent dc'] quota] (_ & Hk' & Hdc' & Hs).
  eapply leaves_bind; [by apply flow_safe; [apply resend_safe|apply keeps_resend]|]. intros sent' [_ Hs'].
  destruct (get_code cb) as [code|]; [|apply leaves_fail].
  eapply leaves_bind; [apply keyed_sign_in; [done| |done]|].
  { unfold code_inv, AUTH_CODE_HASH_MAX in Hs'. cbn in Hs'. unfold short. lia. }
  intros uid _. by apply leaves_save.
Qed.

Lemma login_leaves cb y r m s t w r' m' s' t' w' :
  (st_count (default store_zero (stored y)) < SESSION_STORE_MAX_DCS)%nat ->
  start_dc_set cfg = 0 \/ start_dc cfg <> 0 ->
  opt short (get_phone cb) -> opt short (get_code cb) ->
  session_wf s -> w_rand w = rnd -> ready y ∅ (m_fs m) -> m_ds m = [] -> m_config m = c0 ->
  auth_flow_login server_key malloc_bytes tinf cfg cb ((r, m), (s, t, w)) = Done tt ((r', m'), (s', t', w')) ->
  remembered r' s' m'.
Proof using HB HC HR Hcfg Henv Hf Hhash Hmalloc Hrnd.
  intros Hn Hstart Hp Hcode Hwf Hw Hr Hds Hc. unfold auth_flow_login.
  rewrite (bind_Done _ _ _ tt ((flow_zero, m), (s, t, w))) by done.
  destruct (restore_at y flow_zero m s t w Hr Hds) as (g & s1 & w1 & Hg & Hs1 & Hw1 & E).
  set (saved := if _ =? 0 then None else _) in E. set (m1 := set_files g [] m) in E.
  intros Hrun. apply run_inv in Hrun as (restored & [[x2 m2] [[s2 t2] w2]] & Er & Hrest).
  rewrite E in Er. destruct restored.
  - injection Hrest as <- <- <- <- <-. unfold saved in Er.
    destruct (Z.eqb_spec (fst (store_state y)) 0) as [|Hdc]; [done|].
    destruct (snd (store_state y) !! fst (store_state y)) as [c|] eqn:El; [|done]. cbn [fmap option_fmap option_map] in Er.
    assert (Hkey : has_auth_key (loaded c) = true) by (by destruct c as [[? ?] ?]).
    pose proof (tail_at (loaded c) (fst (store_state y)) flow_zero m1 s1 t w1 Hkey) as Ht.
    destruct (dc_lookup (m_config m1) (fst (store_state y))) as [ep|] eqn:Ek;
      [|destruct Ht as [st Ht]; by rewrite Ht in Er].
    destruct Ht as (s4 & w4 & m4 & (Hm1 & Hm2 & Hm3) & Ha & Hsalt & _ & Ht).
    destruct (transport_connect _) as [? [t5 w5]|? | |]; [|destruct Ht as [st Ht]; by rewrite Ht in Er|done..].
    rewrite Ht in Er. injection Er as <- <- <- <- <-. exists (touched y), c. rewrite state_touched.
    cbn [fl_dc_id set_flow]. split_and!; try done.
    + by rewrite Hm1.
    + by rewrite Hm3.
    + exists ep. rewrite <- Hc. exact Ek.
  - pose proof (keeps_tail saved flow_zero m1 (s1, t, w1)) as Hk. rewrite Er in Hk. destruct Hk as (Hk1 & Hk2 & Hk3).
    pose proof (restore_safe rnd (flow_zero, m) s t w Hwf Hw) as Hsafe. rewrite E, Er in Hsafe.
    destruct Hsafe as (Hs2 & Hw2 & _). cbn zeta in Hrest.
    set (dc := if start_dc_set cfg =? 0 then _ else _) in Hrest.
    assert (Hdc : dc <> 0) by (unfold dc, DEFAULT_DC_ID; destruct (Z.eqb_spec (start_dc_set cfg) 0); lia).
    assert (Hn' : (st_count (default store_zero (stored (touched y))) < SESSION_STORE_MAX_DCS)%nat)
      by by rewrite stored_of_touched.
    pose proof (leaves_login cb (touched y) dc Hn' Hdc Hp Hcode x2 m2 s2 t2 w2 Hs2 Hw2 I) as Hl.
    cbn zeta in Hl. rewrite Hrest in Hl. apply Hl; [by rewrite Hk3|by rewrite Hk1|by rewrite Hk2].
Qed.

(** Every connection to come is made. *)
Definition always_connects (m : Machine) : Prop := forall ep n t w,
  exists st, transport_connect (t, set_net w (m_dial m ep n)) = Done tt st.

(** The start of the next process. *)
Lemma login_again cb r s m x m2 s2 t2 w2 :
  remembered r s m -> m_fs m2 = m_fs m -> m_ds m2 = [] -> m_config m2 = c0 -> always_connects m2 ->
  exists m3 s3 t3 w3,
    auth_flow_login server_key malloc_bytes tinf cfg cb ((x, m2), (s2, t2, w2)) =
      Done tt ((mkFlow (fl_dc_id r) 0 false, m3), (s3, t3, w3)) /\ auth_key s3 = auth_key s /\ server_salt s3 = server_salt s /\ has_auth_key s3 = true.
Proof.
  intros (y & c & Hr & _ & _ & Hhome & Hdc & [ep Hep] & Hc & Hkey & Hsalt) Hfs Hds Hc0 Hdial. unfold auth_flow_login.
  rewrite (bind_Done _ _ _ tt ((flow_zero, m2), (s2, t2, w2))) by done.
  destruct (restore_at y flow_zero m2 s2 t2 w2) as (g & s1 & w1 & Hg & _ & _ & E); [by rewrite Hfs|done|].
  rewrite Hhome, (proj2 (Z.eqb_neq _ _) Hdc), Hc in E. cbn [fmap option_fmap option_map] in E.
  assert (Hk : has_auth_key (loaded c) = true) by (by destruct c as [[? ?] ?]).
  pose proof (tail_at (loaded c) (fl_dc_id r) flow_zero (set_files g [] m2) s1 t2 w1 Hk) as Ht.
  cbn [m_config m_dial m_dials set_files] in Ht. rewrite Hc0, Hep in Ht.
  destruct Ht as (s4 & w4 & m4 & _ & Ha & Hs & Hh & Ht).
  destruct (Hdial ep (length (m_dials m2)) t2 w4) as [[t5 w5] Ec]. rewrite Ec in Ht. rewrite Ht in E.
  exists m4, s4, (set_transport_dc (fl_dc_id r) t5), w5. rewrite (bind_Done _ _ _ _ _ E). split_and!; try done; congruence.
Qed.

End Remembered.

(** ** Logging in again *)

(** (C8) A login that succeeds is found by the next start: a process with the
    same files and configuration, whatever it was before, whose connections
    are made, is logged in to the same data centre with the same key and salt,
    and asks its user for nothing.  The store must have a free place, or the
    session is not saved; the data centre 0 is the sign of an empty store. *)
Theorem login_is_remembered `{C : Crypto} {HC : CryptoLaws C} `{R : Rsa} {HB : BigNumLaws B} {HR : RsaLaws R}
    `{K : Kdf} server_key malloc_bytes tinf cfg cb y r m s t w r' m' s' t' w' :
  malloc_sized malloc_bytes -> nonzero_rand (w_rand w) -> cfg_small cfg -> tinf_fits tinf ->
  short (default [] (api_hash cfg)) -> opt short (get_phone cb) -> opt short (get_code cb) ->
  start_dc_set cfg = 0 \/ start_dc cfg <> 0 ->
  non_empty (env_host (m_config m)) = None \/ non_empty (env_port (m_config m)) = None ->
  session_wf s -> ready y ∅ (m_fs m) -> m_ds m = [] ->
  (st_count (default store_zero (stored y)) < SESSION_STORE_MAX_DCS)%nat ->
  auth_flow_login server_key malloc_bytes tinf cfg cb ((r, m), (s, t, w)) = Done tt ((r', m'), (s', t', w')) ->
  forall cb2 x m2 s2 t2 w2,
  m_fs m2 = m_fs m' -> m_ds m2 = [] -> m_config m2 = m_config m -> always_connects m2 ->
  exists m3 s3 t3 w3,
    auth_flow_login server_key malloc_bytes tinf cfg cb2 ((x, m2), (s2, t2, w2)) =
      Done tt ((mkFlow (fl_dc_id r') 0 false, m3), (s3, t3, w3)) /\
    auth_key s3 = auth_key s' /\ server_salt s3 = server_salt s' /\ has_auth_key s3 = true.
Proof.
  intros Hmalloc Hrnd Hcfg Hf Hhash Hp Hcode Hstart Henv Hwf Hr Hds Hn Hrun cb2 x m2 s2 t2 w2 Hfs Hds2 Hc Hdial.
  eapply (login_again server_key malloc_bytes tinf cfg (m_config m)); [|exact Hfs|exact Hds2|exact Hc|exact Hdial].
  by eapply login_leaves.
Qed.

(** ** Concrete runs *)

Definition toy_login_fs : FS := sample_fs (Some (store_bytes sample_store)).
Definition toy_process (fs : FS) (ds : list decision) (net : Net) : Machine :=
  mkMachine fs ds (fun _ _ => net) [] (dc_config_init None None).

Definition toy_net : Net := w_net (sample_world [SockN 200] []).
Definition toy_start_world : World := mkWorld (fun _ => Byte.x01) 0 (fun _ => 1700000000) 0 toy_net.
Definition toy_callbacks : AuthFlowCallbacks := mkCallbacks (Some (ascii "123")) (Some (ascii "9")) None.
Definition toy_login (cb : AuthFlowCallbacks) (fs : FS) :=
  auth_flow_login (C := toy_crypto) (R := toy_rsa) (K := toy_kdf) toy_key toy_malloc store_tinf api_config_init cb
    ((flow_zero, toy_process fs [] toy_net), (session_zero, sample_transport, toy_start_world)).

Lemma toy_connects fs : always_connects (toy_process fs [] toy_net).
Proof. intros ep n [f d c] [rand pos clock ticks net]. vm_compute. by eexists. Qed.

Example toy_login_restored : match toy_login toy_callbacks toy_login_fs with
  | Done _ ((r, _), (s, _, _)) => (fl_dc_id r, str_eq (auth_key s) (auth_key sample_session))
  | _ => (0, false) end = (2, true).
Proof. vm_compute. reflexivity. Qed.

(** What it left. *)
Definition toy_left := match toy_login toy_callbacks toy_login_fs with
  | Done _ st => st
  | _ => ((flow_zero, toy_process toy_login_fs [] toy_net), (session_zero, sample_transport, toy_start_world))
  end.

Definition toy_r := fst (fst toy_left).
Definition toy_m := snd (fst toy_left).
Definition toy_s := fst (fst (snd toy_left)).

Lemma toy_login_runs : toy_login toy_callbacks toy_login_fs =
  Done tt ((toy_r, toy_m), (toy_s, snd (fst (snd toy_left)), snd (snd toy_left))).
Proof. vm_compute. reflexivity. Qed.

Lemma toy_zero_wf : session_wf session_zero.
Proof. by vm_compute. Qed.

Lemma toy_free : (st_count (default store_zero (stored (Some (store_bytes sample_store)))) < SESSION_STORE_MAX_DCS)%nat.
Proof. vm_compute. lia. Qed.

Lemma toy_short : opt short (get_phone toy_callbacks) /\ opt short (get_code toy_callbacks) /\
  short (default [] (api_hash api_config_init)).
Proof. by vm_compute. Qed.

Lemma toy_files fs : m_fs (toy_process fs [] toy_net) = fs.
Proof. done. Qed.

Lemma login_is_remembered_witness :
  exists m3 s3 t3 w3,
    toy_login (mkCallbacks None None None) (m_fs toy_m) =
      Done tt ((mkFlow (fl_dc_id toy_r) 0 false, m3), (s3, t3, w3)) /\
    auth_key s3 = auth_key toy_s /\ server_salt s3 = server_salt toy_s /\ has_auth_key s3 = true.
Proof.
  destruct toy_short as (Hp & Hc & Hh).
  exact (login_is_remembered (C := toy_crypto) (R := toy_rsa) (K := toy_kdf) toy_key toy_malloc store_tinf
    api_config_init toy_callbacks (Some (store_bytes sample_store)) flow_zero (toy_process toy_login_fs [] toy_net)
    session_zero sample_transport toy_start_world toy_r toy_m toy_s (snd (fst (snd toy_left))) (snd (snd toy_left))
    toy_malloc_sized ones_nonzero toy_cfg_small store_tinf_fits Hh Hp Hc (or_introl eq_refl) (or_introl eq_refl)
    toy_zero_wf (sample_fs_ready _) eq_refl toy_free toy_login_runs (mkCallbacks None None None) flow_zero
    (toy_process (m_fs toy_m) [] toy_net) session_zero sample_transport toy_start_world (toy_files _) eq_refl eq_refl
    (toy_connects _)).
Defined.

(** The server names data centre 4, where no connection can be made. *)
Definition toy_redirect : list byte := enc32 CRC_rpc_error ++ enc32 303 ++ enc_bytes (ascii "PHONE_MIGRATE_4").

Definition toy_asked := local_call (sent_zero, no_error)
  (auth_send_code (C := toy_crypto) store_tinf api_config_init (ascii "123"))
  ((tt, toy_process toy_fs [] (mkNet [] [] [] [] (-1) 0)), toy_conn toy_redirect).

Example toy_redirected : match toy_asked with Done (None, (_, e)) _ => migrate_dc e | _ => 0 end = 4.
Proof. vm_compute. reflexivity. Qed.

Definition toy_behind := match toy_asked with
  | Done _ st => st
  | _ => ((tt, toy_process toy_fs [] toy_net), toy_conn [])
  end.
Definition toy_answered : AuthSentCode * RpcError := match toy_asked with
  | Done (_, x) _ => x
  | _ => (sent_zero, no_error)
  end.

Lemma toy_asked_at : local_call (sent_zero, no_error)
  (auth_send_code (C := toy_crypto) store_tinf api_config_init (ascii "123"))
  ((tt, toy_process toy_fs [] (mkNet [] [] [] [] (-1) 0)), toy_conn toy_redirect) =
  Done (None, (fst toy_answered, snd toy_answered)) toy_behind.
Proof. vm_compute. reflexivity. Qed.

Lemma toy_redirect_dc : migrate_dc (snd toy_answered) = 4.
Proof. vm_compute. reflexivity. Qed.

Definition toy_migrated := migrate (C := toy_crypto) (R := toy_rsa) toy_key toy_malloc
  (migration_target 2 4) (migration_target 2 4) toy_behind.
Definition toy_lost := match toy_migrated with Fail st => st | _ => toy_behind end.

Lemma toy_migrated_at dc : dc = 4 -> migrate (C := toy_crypto) (R := toy_rsa) toy_key toy_malloc
  (migration_target 2 dc) (migration_target 2 dc) toy_behind = Fail toy_lost.
Proof. intros ->. vm_compute. reflexivity. Qed.

Lemma soft_migration_fails_witness :
  exists st, send_code_loop (C := toy_crypto) (R := toy_rsa) toy_key toy_malloc store_tinf api_config_init 3
    (ascii "123") 2 sent_zero ((tt, toy_process toy_fs [] (mkNet [] [] [] [] (-1) 0)), toy_conn toy_redirect) = Fail st.
Proof.
  refine (soft_migration_fails (C := toy_crypto) (R := toy_rsa) toy_key toy_malloc store_tinf api_config_init 2
    (ascii "123") 2 sent_zero (fst toy_answered) (snd toy_answered) _ toy_behind toy_lost toy_asked_at _
    (toy_migrated_at _ toy_redirect_dc)).
  by rewrite toy_redirect_dc.
Defined.
