(* ===== verification/Config.v ===== *)
(** * The configuration file (src/app: credentials.c, config_wizard.c, bootstrap.c)

    Three parts of the program meet in config.ini: the wizard writes it with
    the credentials, [credentials_load] reads the credentials from it, and
    [app_bootstrap] the server key and the hosts of data centres.  Each of the
    two readers has a parser of its own.  Messages to the user and the log are
    left out. *)

From Stdlib Require Import String.
From S2P Require Import Prelude CLib World BigNum ServerKey FileSys ApiCall Machine MediaIndex.

#[local] Open Scope Z_scope.

Definition config_path : string := "config.ini"%string.
Definition config_tmp_path : string := "config.ini.tmp"%string.

(** ** Lines *)

Definition dquote : byte := Byte.x22.

Definition is_blank (b : byte) : bool := Byte.eqb b Byte.x20 || Byte.eqb b tab.

(** [while ( *p == ' ' || *p == '\t') p++;] *)
Fixpoint skip_blank (p : list byte) : list byte :=
  match p with
  | b :: p' => if is_blank b then skip_blank p' else p
  | [] => []
  end.

(** [strncmp(p, key, strlen(key)) == 0], and what follows then. *)
Fixpoint after_key (key p : list byte) : option (list byte) :=
  match key, p with
  | [], _ => Some p
  | k :: key, b :: p => if Byte.eqb k b then after_key key p else None
  | _, [] => None
  end.

(** The end of a line and the two signs that start a comment. *)
Definition skips_line (b : byte) : bool :=
  Byte.eqb b newline || Byte.eqb b carriage || Byte.eqb b Byte.x23 || Byte.eqb b Byte.x3b.

(** The text behind [key =] in a line that is no comment. *)
Definition line_value (key line : list byte) : option (list byte) :=
  match skip_blank line with
  | [] => None
  | b :: p =>
      if skips_line b then None
      else
        rest ← after_key key (b :: p);
        match skip_blank rest with
        | c :: value => if Byte.eqb c Byte.x3d then Some (skip_blank value) else None
        | [] => None
        end
  end.

(** Without newlines, carriage returns and blanks at the end. *)
Fixpoint rtrim_inplace (s : list byte) : list byte :=
  match s with
  | [] => []
  | b :: s =>
      match rtrim_inplace s with
      | [] => if Byte.eqb b newline || Byte.eqb b carriage || is_blank b then [] else [b]
      | s => b :: s
      end
  end.

(** One pair of double quotes around the text is dropped. *)
Definition unquote_inplace (s : list byte) : list byte :=
  match s with
  | b :: s' => if Byte.eqb b dquote && bool_decide (last s' = Some dquote) then removelast s' else s
  | [] => s
  end.

(** ** Credentials *)

Definition API_HASH_MAX : nat := 64.
Definition API_HASH_EXPECT : Z := 32.
Definition INI_LINE : nat := 512.

(** The strings that successive calls of [fgets] leave in the line. *)
Fixpoint ini_lines (fuel : nat) (file : list byte) : list (list byte) :=
  match fuel with
  | O => []
  | S fuel =>
      match fgets INI_LINE file with
      | None => []
      | Some (buf, rest) => cstr buf :: ini_lines fuel rest
      end
  end.

(** The byte order mark at the start of the file. *)
Definition skip_bom (lines : list (list byte)) : list (list byte) :=
  match lines with
  | (b1 :: b2 :: b3 :: line) :: lines' =>
      if Byte.eqb b1 Byte.xef && Byte.eqb b2 Byte.xbb && Byte.eqb b3 Byte.xbf then line :: lines' else lines
  | _ => lines
  end.

(** Return values 0, -1, -2 and -3. *)
Inductive ini_rc := IniOk (value : list byte) | IniNoFile | IniMissing | IniEmpty.

(** The loop: what the last line with the key has put into the array [out] of
    [cap] bytes. *)
Fixpoint ini_loop (key : list byte) (cap : nat) (lines : list (list byte)) (out : option (list byte))
    : option (list byte) :=
  match lines with
  | [] => out
  | line :: lines =>
      match line_value key line with
      | None => ini_loop key cap lines out
      | Some p => ini_loop key cap lines (Some (unquote_inplace (rtrim_inplace (take (cap - 1) p))))
      end
  end.

Definition scan_ini (key : list byte) (cap : nat) (file : list byte) : ini_rc :=
  match ini_loop key cap (skip_bom (ini_lines (length file) file)) None with
  | None => IniMissing
  | Some [] => IniEmpty
  | Some value => IniOk value
  end.

Definition read_ini_key (key : list byte) (cap : nat) : prog ini_rc :=
  fp ← call (SOpen config_path false false);
  match fp with
  | None => mret IniNoFile
  | Some fp =>
      file ← call (SReadAll fp);
      call (SClose fp) ;;
      mret (scan_ini key cap file)
  end.

Definition is_lower_hex (c : byte) : bool :=
  is_digit c || ((97 <=? byte.unsigned c) && (byte.unsigned c <=? 102)).

Definition is_valid_api_hash (s : list byte) : bool :=
  (zlen s =? API_HASH_EXPECT) && forallb is_lower_hex s.

Definition is_empty (s : list byte) : bool := match s with [] => true | _ => false end.

Definition set_credentials (id : Z) (hash : list byte) (c : ApiConfig) : ApiConfig :=
  mkApiConfig id (Some hash) (device_model c) (system_version c) (app_version c) (system_lang_code c)
    (lang_pack c) (lang_code c) (start_dc c) (start_dc_set c).

(** The number and the hash behind the fall-back to the file, 0 and the empty
    string for those that are missing or refused. *)
Definition find_credentials (id : Z) (hash : list byte) : prog (Z * list byte) :=
  if (id =? 0) || is_empty hash then
    dir ← call SConfigDir;
    if negb dir then mret (id, hash)
    else
      id ← (if id =? 0 then
              rc ← read_ini_key (ascii "api_id") 32;
              mret (match rc with IniOk v => atoi v | _ => 0 end)
            else mret id);
      hash ← (if is_empty hash then
                rc ← read_ini_key (ascii "api_hash") (API_HASH_MAX + 1);
                mret (match rc with IniOk v => if is_valid_api_hash v then v else [] | _ => [] end)
              else mret hash);
      mret (id, hash)
  else mret (id, if is_valid_api_hash hash then hash else []).

(** [env_id] and [env_hash] are what [getenv] returns for TG_CLI_API_ID and
    TG_CLI_API_HASH; [None] is the return value -1. *)
Definition credentials_load (env_id env_hash : option (list byte)) : prog (option ApiConfig) :=
  let id := match non_empty env_id with Some s => atoi s | None => 0 end in
  let hash := match non_empty env_hash with Some s => take API_HASH_MAX s | None => [] end in
  found ← find_credentials id hash;
  let '(id, hash) := found in
  mret (if (id =? 0) || is_empty hash then None else Some (set_credentials id hash api_config_init)).

(** ** The wizard *)

Definition MAX_RETRIES : nat := 3.

Definition parse_api_id (s : list byte) : Z :=
  match s with
  | [] => -1
  | _ =>
      let '(v, rest) := strtol s in
      if negb (is_empty rest) then -1
      else if (v <=? 0) || (0x7FFFFFFF <? v) then -1
      else v
  end.

Definition validate_api_hash (s : list byte) : bool :=
  (zlen s =? API_HASH_EXPECT) && forallb is_lower_hex s.

Definition file_nonempty : prog bool :=
  size ← call (SStat config_path);
  mret (match size with Some n => 0 <? n | None => false end).

Definition config_text (id : Z) (hash : list byte) : list byte :=
  file_text [ascii "# tg-cli configuration";
             ascii "# Generated by `login` wizard. Do NOT share this file.";
             ascii "api_id=" ++ print_dec id;
             ascii "api_hash=" ++ hash].

(** The text fits the buffer of the stream, so [fflush] writes it; what the
    [fclose] behind a failed [fflush] may still write goes to the temporary
    file, which is not read. *)
Definition write_config (id : Z) (hash : list byte) : prog bool :=
  dir ← call SMkdir;
  if negb dir then mret false
  else
    fd ← call (SOpen config_tmp_path true true);
    match fd with
    | None => mret false
    | Some fd =>
        fp ← call (SFdopen fd);
        if negb fp then call (SClose fd) ;; mret false
        else
          n ← call (SWrite fd (config_text id hash));
          if negb (n =? zlen (config_text id hash)) then call (SClose fd) ;; mret false
          else
            synced ← call (SFsync fd);
            call (SClose fd) ;;
            if negb synced then mret false
            else call (SRename config_tmp_path config_path)
    end.

(** What both wizards do with checked values. *)
Definition store_config (force : bool) (values : prog (option (Z * list byte))) : prog bool :=
  dir ← call SConfigDir;
  if negb dir then mret false
  else
    exists_already ← (if force then mret false else file_nonempty);
    if exists_already : bool then mret false
    else
      v ← values;
      match v with
      | None => mret false
      | Some (id, hash) => write_config id hash
      end.

Definition config_wizard_run_batch (id_str hash_str : option (list byte)) (force : bool) : prog bool :=
  match id_str, hash_str with
  | Some id_str, Some hash_str =>
      let id := parse_api_id id_str in
      if id <=? 0 then mret false
      else if negb (validate_api_hash hash_str) then mret false
      else store_config force (mret (Some (id, hash_str)))
  | _, _ => mret false
  end.

(** The rounds of the two prompts: the lines of the standard input, and what
    the password reader has put into the array of 36 bytes, [None] when it
    was aborted. *)
Fixpoint prompt_api_id (attempts : nat) (stdin : list byte) : option Z :=
  match attempts with
  | O => None
  | S attempts =>
      match fgets 64 stdin with
      | None => None
      | Some (buf, stdin) =>
          let id := parse_api_id (strip_eol (cstr buf)) in
          if 0 <? id then Some id else prompt_api_id attempts stdin
      end
  end.

Fixpoint prompt_api_hash (attempts : nat) (answers : list (option (list byte))) : option (list byte) :=
  match attempts, answers with
  | S attempts, Some answer :: answers =>
      let hash := strip_eol answer in
      if validate_api_hash hash then Some hash else prompt_api_hash attempts answers
  | _, _ => None
  end.

Definition config_wizard_run_interactive (isatty : bool) (stdin : list byte) (answers : list (option (list byte)))
    (force : bool) : prog bool :=
  if negb isatty then mret false
  else
    store_config force
      (mret (id ← prompt_api_id MAX_RETRIES stdin; hash ← prompt_api_hash MAX_RETRIES answers; Some (id, hash))).

(** ** Bootstrap *)

Definition BOOT_LINE : nat := Z.to_nat 8192.

(** Return values 0, -1 and -2. *)
Inductive boot_rc := BootOk (value : list byte) | BootMissing | BootTooLong.

Definition boot_found (value : list byte) : boot_rc :=
  match value with [] => BootMissing | _ => BootOk value end.

(** A line and what is left of the file; the rest of a line that does not fit
    is dropped. *)
Definition boot_line (file : list byte) : option (list byte * list byte) :=
  '(buf, rest) ← fgets BOOT_LINE file;
  let line := cstr buf in
  Some (line,
    if (zlen line =? Z.of_nat BOOT_LINE - 1) && negb (bool_decide (last line = Some newline))
    then default [] (snd (split_at newline rest)) else rest).

(** A quoted value, up to the next quote in this line or a later one; [out]
    holds the lines so far.  [None] when it does not fit into [cap] bytes. *)
Fixpoint boot_quoted (fuel : nat) (cap : Z) (p rest out : list byte) : option (list byte * list byte) :=
  match split_at dquote p with
  | (chunk, Some _) => if cap <=? zlen out + zlen chunk then None else Some (out ++ chunk, rest)
  | (_, None) =>
      let chunk := strip_eol p in
      if cap <=? zlen out + zlen chunk + 1 then None
      else
        let out := out ++ chunk ++ [newline] in
        match fuel, fgets BOOT_LINE rest with
        | S fuel, Some (buf, rest) => boot_quoted fuel cap (cstr buf) rest out
        | _, _ => Some (out, rest)
        end
  end.

Fixpoint boot_loop (fuel : nat) (key : list byte) (cap : Z) (file : list byte) (result : boot_rc) : boot_rc :=
  match fuel with
  | O => result
  | S fuel =>
      match boot_line file with
      | None => result
      | Some (line, file) =>
          match line_value key line with
          | None => boot_loop fuel key cap file result
          | Some p =>
              if bool_decide (head p = Some dquote) then
                match boot_quoted (length file) cap (tail p) file [] with
                | None => BootTooLong
                | Some (value, file) => boot_loop fuel key cap file (boot_found value)
                end
              else if cap <=? zlen p then BootTooLong
              else boot_loop fuel key cap file (boot_found (rtrim_inplace p))
          end
      end
  end.

Definition scan_boot (key : list byte) (cap : Z) (file : list byte) : boot_rc :=
  boot_loop (length file) key cap file BootMissing.

Definition bootstrap_read_ini_key (key : list byte) (cap : Z) : prog boot_rc :=
  fp ← call (SOpen config_path false false);
  match fp with
  | None => mret BootMissing
  | Some fp =>
      file ← call (SReadAll fp);
      call (SClose fp) ;;
      mret (scan_boot key cap file)
  end.

Section Bootstrap.
Context `{C : Crypto} `{R : Rsa}.

Definition host_key (id : Z) : list byte := ascii "dc_" ++ print_dec id ++ ascii "_host".

Fixpoint apply_hosts (ids : list Z) (dc : DcConfig) : prog DcConfig :=
  match ids with
  | [] => mret dc
  | id :: ids =>
      rc ← bootstrap_read_ini_key (host_key id) 256;
      apply_hosts ids (match rc with BootOk host => dc_config_set_host_override id (Some host) dc | _ => dc end)
  end.

(** A key that does not load leaves the one that was there. *)
Definition apply_pem (pem : list byte) (st : ServerKeyState) : ServerKeyState :=
  match telegram_server_key_set_override (Some pem) st with
  | Done _ st' | Fail st' => st'
  | Fault | NoFuel => st
  end.

Definition apply_config_overrides (st : ServerKeyState) (dc : DcConfig) : prog (ServerKeyState * DcConfig) :=
  rc ← bootstrap_read_ini_key (ascii "rsa_pem") 8192;
  let st := match rc with BootOk pem => apply_pem pem st | _ => st end in
  dc ← apply_hosts [1; 2; 3; 4; 5] dc;
  mret (st, dc).

(** Directories that cannot be made are not looked at. *)
Definition app_bootstrap (st : ServerKeyState) (dc : DcConfig) : prog (bool * (ServerKeyState * DcConfig)) :=
  cache_dir ← call SConfigDir;
  config_dir ← call SConfigDir;
  (if cache_dir : bool then call SMkdir else mret true) ;;
  (if config_dir : bool then call SMkdir else mret true) ;;
  call SMkdir ;;
  r ← (if config_dir : bool then apply_config_overrides st dc else mret (st, dc));
  mret (match telegram_server_key_get_pem (fst r) with Some _ => true | None => false end, r).

End Bootstrap.
