(* ===== verification/ConfigTheorems.v ===== *)
(** * The configuration file: theorems

    What the wizard writes is what [credentials_load] reads, for every number
    and hash it accepts; the readers stay inside their arrays on every file.
    Two things do not fit: the wizard replaces the whole file, so that the
    server key in it is lost, and a hash from the environment is not looked at
    when the number comes from the file. *)

From Stdlib Require Import String.
From S2P Require Import Prelude CLib World BigNum ServerKey AuthTheorems FileSys FileLogic ApiCall Machine MediaIndex.
From S2P Require Import Config.

#[local] Open Scope Z_scope.

(** ** Lines *)

Definition line_ok (l : list byte) : Prop :=
  Forall (fun b => b <> newline) l /\ no_nul l /\ (length l < 500)%nat.

Definition with_newline (l : list byte) : list byte := l ++ [newline].

Lemma text_cons l ls : file_text (l :: ls) = l ++ newline :: file_text ls.
Proof. unfold file_text. cbn [flat_map]. by rewrite <- app_assoc. Qed.

Lemma line_cstr l : line_ok l -> cstr (l ++ [newline]) = with_newline l.
Proof. intros (_ & Hn & _). apply cstr_no_nul, Forall_app. split; [done|]. by repeat constructor. Qed.

Lemma ini_lines_text ls fuel : Forall line_ok ls -> (length ls <= fuel)%nat ->
  ini_lines fuel (file_text ls) = map with_newline ls.
Proof.
  intros Hls. revert fuel. induction Hls as [|l ls Hl _ IH]; intros fuel Hf; [by destruct fuel|].
  destruct fuel as [|fuel]; [cbn in Hf; lia|]. cbn [ini_lines map]. rewrite text_cons.
  pose proof Hl as (Hn & _ & Hlen). rewrite fgets_line by (done || (unfold INI_LINE; lia)).
  rewrite line_cstr by done. f_equal. apply IH. cbn in Hf. lia.
Qed.

Lemma text_len ls : (length ls <= length (file_text ls))%nat.
Proof. induction ls as [|l ls IH]; [done|]. rewrite text_cons, length_app. cbn [length]. lia. Qed.

Lemma boot_line_text l ls : line_ok l -> boot_line (file_text (l :: ls)) = Some (with_newline l, file_text ls).
Proof.
  intros Hl. pose proof Hl as (Hn & _ & Hlen). unfold boot_line. rewrite text_cons.
  rewrite fgets_line by (done || (unfold BOOT_LINE; lia)). cbn [mbind option_bind].
  rewrite line_cstr by done. rewrite (proj2 (Z.eqb_neq _ _)); [done|].
  unfold with_newline, zlen, BOOT_LINE. rewrite length_app. cbn [length]. lia.
Qed.

(** A file in which no line has the key. *)
Lemma boot_loop_absent ls fuel key cap rc :
  Forall line_ok ls -> Forall (fun l => line_value key (with_newline l) = None) ls -> (length ls <= fuel)%nat ->
  boot_loop fuel key cap (file_text ls) rc = rc.
Proof.
  intros Hls. revert fuel. induction Hls as [|l ls Hl _ IH]; intros fuel Hv Hf.
  - destruct fuel; done.
  - apply Forall_cons in Hv as [Hv Hvs]. destruct fuel as [|fuel]; [cbn in Hf; lia|]. cbn [boot_loop].
    rewrite boot_line_text by done. rewrite Hv. apply IH; [done|]. cbn in Hf. lia.
Qed.

Lemma scan_boot_absent ls key cap :
  Forall line_ok ls -> Forall (fun l => line_value key (with_newline l) = None) ls ->
  scan_boot key cap (file_text ls) = BootMissing.
Proof. intros. apply boot_loop_absent; [done..|apply text_len]. Qed.

(** ** Values *)

Lemma after_key_app key r : after_key key (key ++ r) = Some r.
Proof. induction key as [|k key IH]; [done|]. cbn. by rewrite byte_eqb_refl. Qed.

(** A text that starts and ends with other bytes than blanks and quotes. *)
Definition plain (b : byte) : bool :=
  negb (is_blank b || Byte.eqb b newline || Byte.eqb b carriage || Byte.eqb b dquote || Byte.eqb b Byte.x00).

Definition plain_text (v : list byte) : Prop := v <> [] /\ Forall (fun b => plain b = true) v.

Lemma plain_first b v : plain b = true -> skip_blank (b :: v) = b :: v.
Proof. unfold plain. cbn. by destruct (is_blank b). Qed.

Lemma rtrim_plain v : Forall (fun b => plain b = true) v -> rtrim_inplace (v ++ [newline]) = v.
Proof.
  induction 1 as [|b v Hb _ IH]; [done|]. cbn [app rtrim_inplace]. rewrite IH. destruct v; [|done].
  unfold plain in Hb. by destruct (is_blank b), (Byte.eqb b newline), (Byte.eqb b carriage).
Qed.

Lemma unquote_plain b v : plain b = true -> unquote_inplace (b :: v) = b :: v.
Proof. unfold plain, unquote_inplace. destruct (Byte.eqb b dquote); [|done]. by rewrite !orb_true_r. Qed.

(** The line of a key. *)
Lemma line_value_plain k key v : is_blank k = false -> skips_line k = false -> plain_text v ->
  line_value (k :: key) (with_newline ((k :: key) ++ Byte.x3d :: v)) = Some (with_newline v).
Proof.
  intros Hb Hk [Hne Hv]. unfold line_value, with_newline. rewrite <- app_assoc. cbn [app skip_blank].
  rewrite Hb, Hk. change (k :: key ++ Byte.x3d :: v ++ [newline]) with ((k :: key) ++ Byte.x3d :: v ++ [newline]).
  rewrite after_key_app. cbn [mbind option_bind]. destruct v as [|b v]; [done|].
  apply Forall_cons in Hv as [Hb' _]. change (Some (skip_blank ((b :: v) ++ [newline])) = Some ((b :: v) ++ [newline])).
  cbn [app]. by rewrite plain_first.
Qed.

(** What the loop keeps of it. *)
Lemma value_kept cap v : plain_text v -> (length v + 1 < cap)%nat ->
  unquote_inplace (rtrim_inplace (take (cap - 1) (with_newline v))) = v.
Proof.
  intros [Hne Hv] Hc. rewrite take_ge by (unfold with_newline; rewrite length_app; cbn; lia).
  unfold with_newline. rewrite rtrim_plain by done. destruct v as [|b v]; [done|]. apply Forall_cons in Hv as [Hb _].
  by apply unquote_plain.
Qed.

Lemma digit_plain b : is_digit b = true -> plain b = true.
Proof. by destruct b. Qed.

Lemma hex_plain b : is_lower_hex b = true -> plain b = true.
Proof. by destruct b. Qed.

Lemma forallb_all {A} (f : A -> bool) l : forallb f l = true -> Forall (fun x => f x = true) l.
Proof.
  induction l as [|x l IH]; [constructor|]. cbn. intros H. apply andb_true_iff in H as [Hx H].
  constructor; [exact Hx|auto].
Qed.

(** ** The file of the wizard *)

Definition good_id (id : Z) : Prop := 0 < id < 2 ^ 31.

Definition config_lines (id : Z) (hash : list byte) : list (list byte) :=
  [ascii "# tg-cli configuration"; ascii "# Generated by `login` wizard. Do NOT share this file.";
   ascii "api_id=" ++ print_dec id; ascii "api_hash=" ++ hash].

Lemma id_plain id : good_id id -> plain_text (print_dec id) /\ (length (print_dec id) <= 20)%nat.
Proof.
  intros [H1 H2]. unfold print_dec. rewrite (proj2 (Z.ltb_ge _ _)) by lia.
  destruct (print_nat_spec 20 id) as (Hd & _ & Hl); [lia..|]. split; [split|lia].
  - intros E. rewrite E in Hl. cbn in Hl. lia.
  - eapply Forall_impl; [exact Hd|apply digit_plain].
Qed.

Lemma hash_plain hash : is_valid_api_hash hash = true -> plain_text hash /\ length hash = 32%nat.
Proof.
  unfold is_valid_api_hash, API_HASH_EXPECT, zlen. intros H. apply andb_true_iff in H as [Hl Hh].
  apply Z.eqb_eq in Hl. assert (length hash = 32%nat) by lia. split; [split|done]; [by intros ->|].
  eapply Forall_impl; [by apply forallb_all|apply hex_plain].
Qed.

Lemma plain_line v : plain_text v -> (length v < 100)%nat -> line_ok v.
Proof.
  intros [_ Hv] Hl. split_and!; [..|lia]; (eapply Forall_impl; [exact Hv|]); intros b Hb ->; done.
Qed.

Lemma line_ok_app a b : line_ok a -> line_ok b -> (length a + length b < 500)%nat -> line_ok (a ++ b).
Proof.
  intros (A1 & A2 & _) (B1 & B2 & _) Hl. split_and!; [by apply Forall_app..|]. by rewrite length_app.
Qed.

Lemma literal_ok l : forallb (fun b => negb (Byte.eqb b newline || Byte.eqb b Byte.x00)) l && (length l <? 100)%nat = true ->
  line_ok l.
Proof.
  intros H. apply andb_true_iff in H as [H Hl]. apply Nat.ltb_lt in Hl.
  split_and!; [..|lia]; (eapply Forall_impl; [by apply forallb_all|]); intros b Hb ->; done.
Qed.

Lemma config_lines_ok id hash : good_id id -> is_valid_api_hash hash = true -> Forall line_ok (config_lines id hash).
Proof.
  intros Hid Hh. apply id_plain in Hid as [Hi Hil]. apply hash_plain in Hh as [Hh Hhl].
  repeat apply Forall_cons_2; [by apply literal_ok..| | |done];
    apply line_ok_app; first [by apply literal_ok|by apply plain_line; [|lia]|cbn; lia].
Qed.

(** A key with another first letter, or another letter behind the common part. *)
Lemma config_lines_other key id hash : after_key key (ascii "#") = None ->
  (forall v, after_key key (ascii "api_id=" ++ v) = None) ->
  (forall v, after_key key (ascii "api_hash=" ++ v) = None) ->
  Forall (fun l => line_value key (with_newline l) = None) (config_lines id hash).
Proof.
  intros Hc Hi Hh. unfold config_lines.
  assert (Hl : forall k l v, is_blank k = false -> skips_line k = false ->
    (forall v, after_key key ((k :: l) ++ v) = None) -> line_value key (with_newline ((k :: l) ++ v)) = None).
  { intros k l v Hb Hk Hv. unfold line_value, with_newline. cbn [app skip_blank]. rewrite Hb, Hk.
    specialize (Hv (v ++ [newline])). cbn [app] in Hv. rewrite app_assoc in Hv. by rewrite Hv. }
  repeat apply Forall_cons_2; try done; by apply Hl.
Qed.

Lemma ini_loop_skip key cap l lines out :
  line_value key l = None -> ini_loop key cap (l :: lines) out = ini_loop key cap lines out.
Proof. intros E. cbn [ini_loop]. by rewrite E. Qed.

Lemma ini_loop_kept k key cap v lines out : is_blank k = false -> skips_line k = false ->
  plain_text v -> (length v + 1 < cap)%nat ->
  ini_loop (k :: key) cap (with_newline ((k :: key) ++ Byte.x3d :: v) :: lines) out =
  ini_loop (k :: key) cap lines (Some v).
Proof. intros Hb Hk Hv Hc. cbn [ini_loop]. rewrite line_value_plain by done. by rewrite value_kept. Qed.

Lemma scan_lines key cap id hash : good_id id -> is_valid_api_hash hash = true ->
  scan_ini key cap (config_text id hash) =
  match ini_loop key cap (map with_newline (config_lines id hash)) None with
  | None => IniMissing | Some [] => IniEmpty | Some value => IniOk value
  end.
Proof.
  intros Hid Hh. unfold scan_ini, config_text. change [_; _; _; _] with (config_lines id hash).
  by rewrite ini_lines_text by (apply text_len || by apply config_lines_ok).
Qed.

Lemma scan_id id hash : good_id id -> is_valid_api_hash hash = true ->
  scan_ini (ascii "api_id") 32 (config_text id hash) = IniOk (print_dec id).
Proof.
  intros Hid Hh. rewrite scan_lines by done. apply id_plain in Hid as [Hi Hl]. unfold config_lines. cbn [map].
  do 2 rewrite ini_loop_skip by done.
  rewrite (ini_loop_kept Byte.x61 (ascii "pi_id") 32 (print_dec id)) by (done || lia).
  rewrite ini_loop_skip by done. cbn [ini_loop]. by destruct Hi as [Hne _], (print_dec id).
Qed.

Lemma scan_hash id hash : good_id id -> is_valid_api_hash hash = true ->
  scan_ini (ascii "api_hash") 65 (config_text id hash) = IniOk hash.
Proof.
  intros Hid Hh. rewrite scan_lines by done. apply hash_plain in Hh as [Hi Hl]. unfold config_lines. cbn [map].
  do 2 rewrite ini_loop_skip by done.
  rewrite ini_loop_skip by done.
  rewrite (ini_loop_kept Byte.x61 (ascii "pi_hash") 65 hash) by (done || lia).
  cbn [ini_loop]. by destruct Hi as [Hne _], hash.
Qed.

(** ** Runs of the programs *)

Abbreviation config_settled := (settled config_path).

Lemma config_tmp_other : config_tmp_path <> config_path.
Proof. done. Qed.

(** Opening, reading and closing the file. *)
Lemma read_config_ok {A} (missing : A) (parse : list byte -> A) x fs :
  config_settled x ∅ fs -> exists g, config_settled x ∅ g /\
  complete (fp ← call (SOpen config_path false false);
            match fp with
            | None => mret missing
            | Some fp => file ← call (SReadAll fp); call (SClose fp) ;; mret (parse file)
            end) fs = (match x with Some c => parse c | None => missing end, g).
Proof.
  intros Hs. destruct x as [c|].
  - destruct (open_read_ok _ _ _ _ Hs) as (fd & g & E & Hs1 & HLfd & Hc).
    destruct (close_ok _ _ _ fd _ Hs1 HLfd) as (g' & E' & Hs' & _). exists g'. split; [done|].
    rewrite (complete_bind _ _ _ _ _ E).
    rewrite (complete_bind _ _ _ c g) by (rewrite complete_call; cbn; by rewrite Hc).
    by rewrite (complete_bind _ _ _ _ _ E').
  - exists fs. split; [done|]. by rewrite (complete_bind _ _ _ _ _ (open_read_absent _ _ _ Hs)).
Qed.

Definition ini_of (key : list byte) (cap : nat) (x : option (list byte)) : ini_rc :=
  match x with Some c => scan_ini key cap c | None => IniNoFile end.

Lemma read_ini_ok key cap x fs : config_settled x ∅ fs ->
  exists g, config_settled x ∅ g /\ complete (read_ini_key key cap) fs = (ini_of key cap x, g).
Proof. apply read_config_ok. Qed.

Definition boot_of (key : list byte) (cap : Z) (x : option (list byte)) : boot_rc :=
  match x with Some c => scan_boot key cap c | None => BootMissing end.

Lemma read_boot_ok key cap x fs : config_settled x ∅ fs ->
  exists g, config_settled x ∅ g /\ complete (bootstrap_read_ini_key key cap) fs = (boot_of key cap x, g).
Proof. apply read_config_ok. Qed.

Lemma write_config_ok id hash x fs : config_settled x ∅ fs ->
  exists g, complete (write_config id hash) fs = (true, g) /\ config_settled (Some (config_text id hash)) ∅ g.
Proof.
  intros Hr. unfold write_config. rewrite (complete_bind _ _ _ true fs) by done. cbn [negb].
  destruct (open_tmp_ok _ _ config_tmp_other _ _ _ Hr) as (fd & g & E & Hr1 & HLfd & Ho).
  rewrite (complete_bind _ _ _ _ _ E), (complete_bind _ _ _ true g) by done. cbn [negb].
  destruct (write_tmp_ok _ _ config_tmp_other _ _ _ (config_text id hash) _ Hr1 Ho) as (g1 & E1 & Hr2 & Ht).
  rewrite (complete_bind _ _ _ _ _ E1), Z.eqb_refl. cbn [negb].
  rewrite (complete_bind _ _ _ true g1) by done.
  destruct (close_ok _ _ _ fd _ Hr2 HLfd) as (g2 & E2 & Hr3 & Hf2).
  rewrite (complete_bind _ _ _ _ _ E2). cbn [negb].
  destruct (rename_ok _ _ config_tmp_other _ _ (config_text id hash) _ Hr3) as (g3 & E3 & Hr4);
    [by rewrite Hf2|]. by exists g3.
Qed.

Lemma parse_api_id_range s : 0 < parse_api_id s -> good_id (parse_api_id s).
Proof.
  unfold parse_api_id, good_id. destruct s; [lia|]. destruct (strtol _) as [v r]. destruct (negb _); [lia|].
  destruct (Z.leb_spec v 0), (Z.ltb_spec 0x7FFFFFFF v); cbn [orb]; lia.
Qed.

Lemma batch_ok id_str hash force x fs :
  config_settled x ∅ fs -> 0 < parse_api_id id_str -> is_valid_api_hash hash = true ->
  force = true \/ default [] x = [] ->
  exists g, complete (config_wizard_run_batch (Some id_str) (Some hash) force) fs = (true, g) /\
    config_settled (Some (config_text (parse_api_id id_str) hash)) ∅ g.
Proof.
  intros Hs Hid Hh Hforce. unfold config_wizard_run_batch. rewrite (proj2 (Z.leb_gt _ _)) by lia.
  unfold validate_api_hash. fold (is_valid_api_hash hash). rewrite Hh. cbn [negb]. unfold store_config.
  rewrite (complete_bind _ _ _ true fs) by done. cbn [negb].
  rewrite (complete_bind _ _ _ false fs).
  - rewrite (complete_bind _ _ _ (Some (parse_api_id id_str, hash)) fs) by done. by eapply write_config_ok.
  - destruct force; [done|]. destruct Hforce as [|Hx]; [done|]. unfold file_nonempty.
    rewrite (complete_bind _ _ _ (zlen <$> x) fs).
    + destruct x as [c|]; [|done]. cbn in Hx. by subst c.
    + rewrite complete_call. cbn. destruct Hs as [[_ Hf] _]. unfold file in Hf. by rewrite Hf.
Qed.

(** A file that is there is left alone. *)
Lemma batch_refused id_str hash x fs :
  config_settled x ∅ fs -> 0 < parse_api_id id_str -> is_valid_api_hash hash = true ->
  is_empty (default [] x) = false ->
  complete (config_wizard_run_batch (Some id_str) (Some hash) false) fs = (false, fs).
Proof.
  intros Hs Hid Hh Hx. unfold config_wizard_run_batch. rewrite (proj2 (Z.leb_gt _ _)) by lia.
  unfold validate_api_hash. fold (is_valid_api_hash hash). rewrite Hh. cbn [negb]. unfold store_config.
  rewrite (complete_bind _ _ _ true fs) by done. cbn [negb].
  rewrite (complete_bind _ _ _ true fs); [done|]. unfold file_nonempty.
  rewrite (complete_bind _ _ _ (zlen <$> x) fs).
  - destruct x as [[|b c]|]; [done| |done]. cbn [fmap option_fmap option_map]. done.
  - rewrite complete_call. cbn. destruct Hs as [[_ Hf] _]. unfold file in Hf. by rewrite Hf.
Qed.

Lemma atoi_id id : good_id id -> atoi (print_dec id) = id.
Proof.
  intros [H1 H2]. unfold atoi. rewrite <- (app_nil_r (print_dec id)), strtol_print by (done || (unfold is_s64; lia)).
  apply s32_id. unfold is_s32. lia.
Qed.

(** [credentials_load] with at most one of the two in the environment. *)
Lemma find_credentials_ok (i0 : Z) (h0 : list byte) id hash fs :
  config_settled (Some (config_text id hash)) ∅ fs -> good_id id -> is_valid_api_hash hash = true ->
  i0 = 0 \/ h0 = [] ->
  fst (complete (find_credentials i0 h0) fs) = (if i0 =? 0 then id else i0, if is_empty h0 then hash else h0).
Proof.
  intros Hs Hid Hh Hmiss. unfold find_credentials.
  rewrite (proj2 (orb_true_iff _ _)) by (destruct Hmiss as [-> | ->]; [by left|by right]).
  rewrite (complete_bind _ _ _ true fs) by done. cbn [negb].
  assert (Hi : exists g, config_settled (Some (config_text id hash)) ∅ g /\
    complete (if i0 =? 0 then
                rc ← read_ini_key (ascii "api_id") 32; mret (match rc with IniOk v => atoi v | _ => 0 end)
              else mret i0) fs = (if i0 =? 0 then id else i0, g)).
  { destruct (i0 =? 0); [|by exists fs]. destruct (read_ini_ok (ascii "api_id") 32 _ _ Hs) as (g & Hg & E).
    exists g. split; [done|]. rewrite (complete_bind _ _ _ _ _ E). cbn [ini_of].
    rewrite scan_id by done. cbn. by rewrite atoi_id. }
  destruct Hi as (g & Hg & E). rewrite (complete_bind _ _ _ _ _ E).
  assert (Hj : exists g', complete (if is_empty h0 then
                rc ← read_ini_key (ascii "api_hash") (API_HASH_MAX + 1);
                mret (match rc with IniOk v => if is_valid_api_hash v then v else [] | _ => [] end)
              else mret h0) g = (if is_empty h0 then hash else h0, g')).
  { destruct (is_empty h0); [|by exists g].
    destruct (read_ini_ok (ascii "api_hash") (API_HASH_MAX + 1) _ _ Hg) as (g' & _ & E').
    exists g'. rewrite (complete_bind _ _ _ _ _ E'). cbn [ini_of].
    change (API_HASH_MAX + 1)%nat with 65%nat. rewrite scan_hash by done. cbn. by rewrite Hh. }
  destruct Hj as (g' & E'). by rewrite (complete_bind _ _ _ _ _ E').
Qed.

Lemma load_config_ok env_id env_hash i0 h0 id hash fs :
  config_settled (Some (config_text id hash)) ∅ fs -> good_id id -> is_valid_api_hash hash = true ->
  i0 = match non_empty env_id with Some s => atoi s | None => 0 end ->
  h0 = match non_empty env_hash with Some s => take API_HASH_MAX s | None => [] end ->
  i0 = 0 \/ h0 = [] ->
  fst (complete (credentials_load env_id env_hash) fs) =
    Some (set_credentials (if i0 =? 0 then id else i0) (if is_empty h0 then hash else h0) api_config_init).
Proof.
  intros Hs Hid Hh Ei Eh Hmiss. unfold credentials_load. rewrite <- Ei, <- Eh.
  pose proof (find_credentials_ok i0 h0 id hash fs Hs Hid Hh Hmiss) as E.
  destruct (complete (find_credentials i0 h0) fs) as [r g] eqn:Er. cbn [fst] in E. subst r.
  rewrite (complete_bind _ _ _ _ _ Er). cbn. destruct Hid as [Hid _].
  rewrite (proj2 (orb_false_iff _ _)); [done|]. split.
  - destruct (Z.eqb_spec i0 0); [apply Z.eqb_neq; lia|by apply Z.eqb_neq].
  - destruct (is_empty h0) eqn:Eb; [|done]. apply hash_plain in Hh as [_ Hl]. by destruct hash.
Qed.

(** *** Bootstrap on the file of the wizard *)

Lemma boot_absent id hash key cap : good_id id -> is_valid_api_hash hash = true ->
  after_key key (ascii "#") = None -> (forall v, after_key key (ascii "api_id=" ++ v) = None) ->
  (forall v, after_key key (ascii "api_hash=" ++ v) = None) ->
  boot_of key cap (Some (config_text id hash)) = BootMissing.
Proof.
  intros Hid Hh H1 H2 H3. cbn [boot_of]. unfold config_text. change [_; _; _; _] with (config_lines id hash).
  apply scan_boot_absent; [by apply config_lines_ok|by apply config_lines_other].
Qed.

Section Boot.
Context `{C : Crypto} `{R : Rsa}.

Lemma apply_hosts_absent ids dc id hash fs :
  config_settled (Some (config_text id hash)) ∅ fs -> good_id id -> is_valid_api_hash hash = true ->
  exists g, config_settled (Some (config_text id hash)) ∅ g /\ complete (apply_hosts ids dc) fs = (dc, g).
Proof.
  intros Hs Hid Hh. revert fs Hs. induction ids as [|i ids IH]; intros fs Hs; [by exists fs|]. cbn [apply_hosts].
  destruct (read_boot_ok (host_key i) 256 _ _ Hs) as (g & Hg & E). rewrite (complete_bind _ _ _ _ _ E).
  rewrite boot_absent by done. by apply IH.
Qed.

Lemma bootstrap_absent st dc id hash fs :
  config_settled (Some (config_text id hash)) ∅ fs -> good_id id -> is_valid_api_hash hash = true ->
  fst (complete (app_bootstrap st dc) fs) =
    (match g_pem st with Some _ => true | None => false end, (st, dc)).
Proof.
  intros Hs Hid Hh. unfold app_bootstrap.
  do 5 rewrite (complete_bind _ _ _ true fs) by done.
  destruct (read_boot_ok (ascii "rsa_pem") 8192 _ _ Hs) as (g & Hg & E).
  rewrite boot_absent in E by done.
  destruct (apply_hosts_absent [1; 2; 3; 4; 5] dc id hash g Hg Hid Hh) as (g' & _ & E').
  erewrite (complete_bind (apply_config_overrides st dc) _ _ (st, dc) g'); [done|].
  unfold apply_config_overrides. rewrite (complete_bind _ _ _ _ _ E). by rewrite (complete_bind _ _ _ _ _ E').
Qed.

End Boot.

(** ** Bounds *)

(** The front or the back of a text is dropped. *)
Definition part_of (s l : list byte) : Prop := exists a b, l = a ++ s ++ b.

Lemma part_refl l : part_of l l.
Proof. exists [], []. by rewrite app_nil_r. Qed.

Lemma part_trans a b c : part_of a b -> part_of b c -> part_of a c.
Proof. intros (p & q & ->) (p' & q' & ->). exists (p' ++ p), (q ++ q'). by rewrite !app_assoc. Qed.

Lemma part_cons b s l : part_of s l -> part_of s (b :: l).
Proof. intros (p & q & ->). by exists (b :: p), q. Qed.

Lemma part_keeps s l P : part_of s l -> Forall P l -> Forall P s.
Proof. intros (a & b & ->) H. apply Forall_app in H as [_ H]. by apply Forall_app in H as [H _]. Qed.

Lemma part_length s l : part_of s l -> (length s <= length l)%nat.
Proof. intros (a & b & ->). rewrite !length_app. lia. Qed.

Lemma skip_blank_part l : part_of (skip_blank l) l.
Proof. induction l as [|b l IH]; [apply part_refl|]. cbn. destruct (is_blank b); [by apply part_cons|apply part_refl]. Qed.

Lemma after_key_part key l r : after_key key l = Some r -> part_of r l.
Proof.
  revert l. induction key as [|k key IH]; intros l E; cbn in E; [injection E as <-; apply part_refl|].
  destruct l as [|b l]; [done|]. destruct (Byte.eqb k b); [|done]. by apply part_cons, IH.
Qed.

Lemma line_value_part key l v : line_value key l = Some v -> part_of v l.
Proof.
  unfold line_value. pose proof (skip_blank_part l) as H. destruct (skip_blank l) as [|b p]; [done|].
  destruct (skips_line b); [done|]. intros E. destruct (after_key key (b :: p)) as [r|] eqn:Ea; [|done].
  cbn [mbind option_bind] in E. apply after_key_part in Ea. pose proof (skip_blank_part r) as Hr.
  destruct (skip_blank r) as [|c w]; [done|]. destruct (Byte.eqb c Byte.x3d); [|done]. injection E as <-.
  eapply part_trans; [apply skip_blank_part|]. eapply part_trans; [|exact H]. eapply part_trans; [|exact Ea].
  eapply part_trans; [|exact Hr]. apply part_cons, part_refl.
Qed.

Lemma front_part s l : s `prefix_of` l -> part_of s l.
Proof. intros [b ->]. by exists [], b. Qed.

Lemma take_part n (l : list byte) : part_of (take n l) l.
Proof. apply front_part, prefix_take. Qed.

(** A strip of bytes at the end, by any test. *)
Lemma rtrim_part l : part_of (rtrim_inplace l) l.
Proof.
  apply front_part. induction l as [|b l IH]; [done|]. cbn. destruct (rtrim_inplace l) as [|c r].
  - destruct (_ || _); [apply prefix_nil|]. by exists l.
  - by apply prefix_cons.
Qed.

Lemma strip_eol_part l : part_of (strip_eol l) l.
Proof.
  apply front_part. induction l as [|b l IH]; [done|]. cbn. destruct (strip_eol l) as [|c r].
  - destruct (_ || _); [apply prefix_nil|]. by exists l.
  - by apply prefix_cons.
Qed.

Lemma unquote_part l : part_of (unquote_inplace l) l.
Proof.
  unfold unquote_inplace. destruct l as [|b l]; [apply part_refl|]. destruct (_ && _) eqn:E; [|apply part_refl].
  apply andb_true_iff in E as [_ E]. apply bool_decide_eq_true in E. apply part_cons, front_part.
  destruct (List.exists_last (l := l)) as (l' & c & ->); [by intros ->|]. rewrite removelast_last. by exists [c].
Qed.

(** What an array of [cap] bytes can hold. *)
Definition fits_array (cap : Z) (v : list byte) : Prop := zlen v < cap /\ no_nul v.

Lemma part_fits cap v l : part_of v l -> zlen l < cap -> no_nul l -> fits_array cap v.
Proof. intros Hp Hl Hn. split; [apply part_length in Hp; unfold zlen in *; lia|by eapply part_keeps]. Qed.

Lemma ini_lines_no_nul fuel file : Forall no_nul (ini_lines fuel file).
Proof.
  revert file. induction fuel as [|fuel IH]; intros file; [constructor|]. cbn.
  destruct (fgets INI_LINE file) as [[buf rest]|]; constructor; [apply no_nul_cstr|apply IH].
Qed.

Lemma skip_bom_no_nul lines : Forall no_nul lines -> Forall no_nul (skip_bom lines).
Proof.
  intros H. destruct lines as [|[|b1 [|b2 [|b3 l]]] lines]; try done. cbn. destruct (_ && _); [|done].
  apply Forall_cons in H as [H Hs]. constructor; [|done]. by do 3 apply Forall_cons in H as [_ H].
Qed.

Lemma ini_loop_fits key cap lines out : (0 < cap)%nat ->
  Forall no_nul lines -> match out with Some v => fits_array (Z.of_nat cap) v | None => True end ->
  match ini_loop key cap lines out with Some v => fits_array (Z.of_nat cap) v | None => True end.
Proof.
  intros Hc Hl. revert out. induction Hl as [|l lines Hl _ IH]; intros out Ho; [done|]. cbn.
  destruct (line_value key l) as [p|] eqn:E; [|by apply IH]. apply IH. apply line_value_part in E.
  eapply (part_fits _ _ (take (cap - 1) p)).
  - eapply part_trans; [apply unquote_part|apply rtrim_part].
  - unfold zlen. rewrite length_take. lia.
  - apply no_nul_take. by eapply part_keeps.
Qed.

Lemma boot_line_no_nul file line rest : boot_line file = Some (line, rest) -> no_nul line.
Proof.
  unfold boot_line. destruct (fgets BOOT_LINE file) as [[buf r]|]; [|done]. cbn. intros [= <- _]. apply no_nul_cstr.
Qed.

Lemma split_at_part c l : part_of (fst (split_at c l)) l.
Proof.
  apply front_part. induction l as [|b l IH]; [done|]. cbn. destruct (Byte.eqb b c); [apply prefix_nil|].
  destruct (split_at c l). by apply prefix_cons.
Qed.

Lemma boot_quoted_fits fuel cap p rest out : no_nul p -> fits_array cap out ->
  match boot_quoted fuel cap p rest out with Some (v, _) => fits_array cap v | None => True end.
Proof.
  revert p rest out. induction fuel as [|fuel IH]; intros p rest out Hp [Ho Hn]; cbn [boot_quoted];
    pose proof (split_at_part dquote p) as Hs; destruct (split_at dquote p) as [chunk [more|]]; cbn [fst] in Hs.
  1, 3: destruct (Z.leb_spec cap (zlen out + zlen chunk)); [done|];
    split; [rewrite zlen_app; lia|apply Forall_app; split; [done|by eapply part_keeps]].
  all: cbn zeta; destruct (Z.leb_spec cap (zlen out + zlen (strip_eol p) + 1)); [done|];
    assert (Hf : fits_array cap (out ++ strip_eol p ++ [newline]))
      by (split; [rewrite !zlen_app; change (zlen [newline]) with 1; lia|apply Forall_app; split; [done|]; apply Forall_app; split;
          [eapply part_keeps; [apply strip_eol_part|done]|by repeat constructor]]).
  - done.
  - destruct (fgets BOOT_LINE rest) as [[buf r]|]; [|done]. apply IH; [apply no_nul_cstr|done].
Qed.

Definition boot_fits (cap : Z) (rc : boot_rc) : Prop :=
  match rc with BootOk v => v <> [] /\ fits_array cap v | _ => True end.

Lemma boot_found_fits cap v : fits_array cap v -> boot_fits cap (boot_found v).
Proof. by destruct v. Qed.

Lemma boot_loop_fits fuel key cap file rc : 0 < cap -> boot_fits cap rc -> boot_fits cap (boot_loop fuel key cap file rc).
Proof.
  intros Hc. revert file rc. induction fuel as [|fuel IH]; intros file rc Hrc; [done|]. cbn [boot_loop].
  destruct (boot_line file) as [[line rest]|] eqn:E; [|done]. apply boot_line_no_nul in E.
  destruct (line_value key line) as [p|] eqn:Ev; [|by apply IH].
  assert (Hp : no_nul p) by (eapply part_keeps; [by eapply line_value_part|done]).
  destruct (bool_decide _).
  - pose proof (boot_quoted_fits (length rest) cap (tail p) rest []) as H.
    destruct (boot_quoted _ _ _ _ _) as [[v file']|]; [|done]. apply IH, boot_found_fits, H.
    + destruct p; [done|]. by apply Forall_cons in Hp as [_ Hp].
    + split; [exact Hc|constructor].
  - destruct (Z.leb_spec cap (zlen p)); [done|]. apply IH, boot_found_fits. eapply part_fits; [apply rtrim_part|done..].
Qed.

(** ** The loops end *)

Lemma line_upto_rest k l : (length (snd (line_upto k l)) <= length l)%nat.
Proof.
  revert l. induction k as [|k IH]; intros [|b l]; cbn; try lia. destruct (Byte.eqb b newline); cbn; [lia|].
  specialize (IH l). destruct (line_upto k l). cbn in *. lia.
Qed.

Lemma fgets_shorter cap file buf rest : (1 < cap)%nat -> fgets cap file = Some (buf, rest) ->
  (length rest < length file)%nat.
Proof.
  intros Hc. unfold fgets. destruct file as [|b l]; [done|]. destruct cap as [|[|k]]; [lia..|].
  cbn [Nat.sub line_upto]. destruct (Byte.eqb b newline); [intros [= _ <-]; cbn; lia|].
  pose proof (line_upto_rest k l) as H. cbn [length].
  destruct (line_upto k l). intros [= _ <-]. cbn in H. lia.
Qed.

Lemma ini_lines_end f1 f2 file : (length file <= f1)%nat -> (length file <= f2)%nat ->
  ini_lines f1 file = ini_lines f2 file.
Proof.
  revert f2 file. induction f1 as [|f1 IH]; intros [|f2] file H1 H2; cbn [ini_lines]; try done;
    try (by (destruct file; [|cbn in *; lia])).
  destruct (fgets INI_LINE file) as [[buf rest]|] eqn:E; [|done].
  apply fgets_shorter in E; [|unfold INI_LINE; lia]. f_equal. apply IH; lia.
Qed.

Lemma split_at_rest c l r : snd (split_at c l) = Some r -> (length r <= length l)%nat.
Proof.
  induction l as [|b l IH]; [done|]. cbn. destruct (Byte.eqb b c); [intros [= <-]; lia|].
  destruct (split_at c l). cbn in *. intros H. specialize (IH H). lia.
Qed.

Lemma boot_line_shorter file line rest : boot_line file = Some (line, rest) -> (length rest < length file)%nat.
Proof.
  unfold boot_line. destruct (fgets BOOT_LINE file) as [[buf r]|] eqn:E; [|done]. cbn [mbind option_bind].
  apply fgets_shorter in E; [|unfold BOOT_LINE; lia]. intros [= _ <-]. destruct (_ && _); [|done].
  destruct (snd (split_at newline r)) as [r'|] eqn:Es; cbn; [apply split_at_rest in Es; lia|lia].
Qed.

Lemma boot_quoted_shorter fuel cap p rest out v rest' :
  boot_quoted fuel cap p rest out = Some (v, rest') -> (length rest' <= length rest)%nat.
Proof.
  revert p rest out. induction fuel as [|fuel IH]; intros p rest out; cbn [boot_quoted];
    destruct (split_at dquote p) as [chunk [more|]]; cbn zeta; (destruct (_ <=? _); [done|]);
    try (intros [= _ <-]; lia).
  destruct (fgets BOOT_LINE rest) as [[buf r]|] eqn:E; [|intros [= _ <-]; lia].
  apply fgets_shorter in E; [|unfold BOOT_LINE; lia]. intros H. apply IH in H. lia.
Qed.

Lemma boot_quoted_end f1 f2 cap p rest out : (length rest <= f1)%nat -> (length rest <= f2)%nat ->
  boot_quoted f1 cap p rest out = boot_quoted f2 cap p rest out.
Proof.
  revert f2 p rest out. induction f1 as [|f1 IH]; intros [|f2] p rest out H1 H2; cbn [boot_quoted];
    try done; destruct (split_at dquote p) as [chunk [more|]]; cbn zeta; (destruct (_ <=? _); [done|]);
    try done; try (by (destruct rest; [|cbn in *; lia])).
  destruct (fgets BOOT_LINE rest) as [[buf r]|] eqn:E; [|done].
  apply fgets_shorter in E; [|unfold BOOT_LINE; lia]. apply IH; lia.
Qed.

Lemma boot_loop_end f1 f2 key cap file rc : (length file <= f1)%nat -> (length file <= f2)%nat ->
  boot_loop f1 key cap file rc = boot_loop f2 key cap file rc.
Proof.
  revert f2 file rc. induction f1 as [|f1 IH]; intros [|f2] file rc H1 H2; cbn [boot_loop]; try done;
    try (by (destruct file; [|cbn in *; lia])).
  destruct (boot_line file) as [[line rest]|] eqn:E; [|done]. apply boot_line_shorter in E.
  destruct (line_value key line) as [p|]; [|apply IH; lia]. destruct (bool_decide _).
  - destruct (boot_quoted _ _ _ _ _) as [[v rest']|] eqn:Eq; [|done]. apply boot_quoted_shorter in Eq. apply IH; lia.
  - destruct (_ <=? _); [done|]. apply IH; lia.
Qed.

(** ** Theorems *)

(** (C25) The batch wizard, with a number and a hash that it accepts, leaves a
    file that is there alone unless it is forced; otherwise it writes one from
    which [credentials_load] reads exactly this number and this hash. *)
Theorem wizard_credentials_round_trip x fs id_str hash force :
  config_settled x ∅ fs -> 0 < parse_api_id id_str -> is_valid_api_hash hash = true ->
  let '(ok, g) := complete (config_wizard_run_batch (Some id_str) (Some hash) force) fs in
  if force || is_empty (default [] x) then
    ok = true /\
    fst (complete (credentials_load None None) g) =
      Some (set_credentials (parse_api_id id_str) hash api_config_init)
  else ok = false /\ g = fs.
Proof.
  intros Hs Hid Hh. destruct (force || is_empty (default [] x)) eqn:Hf.
  - destruct (batch_ok id_str hash force x fs Hs Hid Hh) as (g & E & Hg).
    { apply orb_true_iff in Hf as [->|Hf]; [by left|]. right. by destruct (default [] x). }
    rewrite E. split; [done|]. by apply (load_config_ok None None 0 []); auto using parse_api_id_range.
  - apply orb_false_iff in Hf as [-> Hx]. by rewrite (batch_refused id_str hash x fs).
Qed.

(** (C40) Whatever the file was, a server key or hosts in it are gone behind a
    forced run of the wizard: the next start does not have a key and gives
    up. *)
Theorem wizard_drops_server_key `{C : Crypto} `{R : Rsa} x fs id_str hash dc :
  config_settled x ∅ fs -> 0 < parse_api_id id_str -> is_valid_api_hash hash = true ->
  let '(ok, g) := complete (config_wizard_run_batch (Some id_str) (Some hash) true) fs in
  ok = true /\
  fst (complete (app_bootstrap (mkServerKey None 0) dc) g) = (false, (mkServerKey None 0, dc)).
Proof.
  intros Hs Hid Hh. destruct (batch_ok id_str hash true x fs Hs Hid Hh) as (g & E & Hg); [by left|].
  rewrite E. split; [done|]. by rewrite (bootstrap_absent _ _ _ _ _ Hg) by auto using parse_api_id_range.
Qed.

(** Any text in the environment is taken for the hash when the number
    comes from the file; when both are in the environment, one that is not of
    32 hexadecimal digits is refused. *)
Theorem env_hash_unchecked id hash h env_id fs :
  config_settled (Some (config_text id hash)) ∅ fs -> good_id id -> is_valid_api_hash hash = true ->
  h <> [] -> atoi env_id <> 0 ->
  fst (complete (credentials_load None (Some h)) fs) =
    Some (set_credentials id (take API_HASH_MAX h) api_config_init) /\
  (is_valid_api_hash (take API_HASH_MAX h) = false ->
   fst (complete (credentials_load (Some env_id) (Some h)) fs) = None).
Proof.
  intros Hs Hid Hh Hne Henv. assert (Eh : is_empty (take API_HASH_MAX h) = false) by (by destruct h).
  split.
  - rewrite (load_config_ok None (Some h) 0 (take API_HASH_MAX h) id hash fs Hs Hid Hh); [by rewrite Eh|done| |by left].
    by destruct h.
  - intros Hv. unfold credentials_load. assert (En : non_empty (Some env_id) = Some env_id) by (by destruct env_id).
    rewrite En. replace (non_empty (Some h)) with (Some h) by (by destruct h).
    unfold find_credentials. rewrite (proj2 (Z.eqb_neq _ _) Henv), Eh, Hv. cbn [orb].
    rewrite (complete_bind _ _ _ (atoi env_id, []) fs) by done. by rewrite orb_true_r.
Qed.

(** (C27) On every file both readers end, and a value they return fits the
    array of [cap] bytes with its terminator, and is not empty. *)
Theorem config_readers_bounded key cap file fuel : (0 < cap)%nat -> (length file <= fuel)%nat ->
  match scan_ini key cap file with IniOk v => v <> [] /\ fits_array (Z.of_nat cap) v | _ => True end /\
  match scan_boot key (Z.of_nat cap) file with BootOk v => v <> [] /\ fits_array (Z.of_nat cap) v | _ => True end /\
  ini_lines fuel file = ini_lines (length file) file /\
  boot_loop fuel key (Z.of_nat cap) file BootMissing = scan_boot key (Z.of_nat cap) file.
Proof.
  intros Hc Hf. split_and!.
  - pose proof (ini_loop_fits key cap (skip_bom (ini_lines (length file) file)) None Hc
                  (skip_bom_no_nul _ (ini_lines_no_nul _ _)) I) as H.
    unfold scan_ini. by destruct (ini_loop _ _ _ _) as [[|b v]|].
  - apply (boot_loop_fits (length file) key (Z.of_nat cap) file BootMissing); [lia|done].
  - by apply ini_lines_end.
  - by apply boot_loop_end.
Qed.

(** ** Concrete files *)

Definition sample_hash : list byte := ascii "0123456789abcdef0123456789abcdef".

(** A file with a server key and a host, over which the wizard runs. *)
Definition sample_config : list byte :=
  file_text [ascii "; my own server"; ascii "rsa_pem = " ++ dquote :: ascii "PEM" ++ [dquote]; ascii "dc_2_host=10.0.0.2"].

Definition config_fs (c : list byte) : FS :=
  mkFS {["config.ini"%string := 0%nat]} {[0%nat := c]} ∅ ∅ 1.

Lemma config_fs_settled c : config_settled (Some c) ∅ (config_fs c).
Proof.
  split; [|split; [done|intros fd [v H]; by rewrite lookup_empty in H]]. split; [|done].
  split; intros p; cbn; intros *.
  - intros [<- <-]%lookup_singleton_Some. split; [lia|]. by rewrite lookup_singleton_eq.
  - by intros [<- _]%lookup_singleton_Some [<- _]%lookup_singleton_Some.
Qed.

(** The readers on it. *)
Example sample_key_read : scan_boot (ascii "rsa_pem") 8192 sample_config = BootOk (ascii "PEM").
Proof. vm_compute. reflexivity. Qed.

Example sample_host_read : scan_boot (ascii "dc_2_host") 256 sample_config = BootOk (ascii "10.0.0.2").
Proof. vm_compute. reflexivity. Qed.

(** The last of several lines decides. *)
Example last_line_wins :
  scan_ini (ascii "api_id") 32 (file_text [ascii "api_id = 1"; ascii "# api_id=2"; ascii " api_id=3 "]) = IniOk (ascii "3").
Proof. vm_compute. reflexivity. Qed.

Lemma wizard_credentials_round_trip_witness :
  let '(ok, g) := complete (config_wizard_run_batch (Some (ascii "12345")) (Some sample_hash) true)
                    (config_fs sample_config) in
  ok = true /\
  fst (complete (credentials_load None None) g) =
    Some (set_credentials (parse_api_id (ascii "12345")) sample_hash api_config_init).
Proof.
  apply (wizard_credentials_round_trip (Some sample_config) (config_fs sample_config) (ascii "12345") sample_hash true
    (config_fs_settled _)); by vm_compute.
Defined.

Lemma wizard_drops_server_key_witness :
  let '(ok, g) := complete (config_wizard_run_batch (Some (ascii "12345")) (Some sample_hash) true)
                    (config_fs sample_config) in
  ok = true /\
  fst (complete (app_bootstrap (C := toy_crypto) (R := toy_rsa) (mkServerKey None 0) (dc_config_init None None)) g) =
    (false, (mkServerKey None 0, dc_config_init None None)).
Proof.
  apply (wizard_drops_server_key (C := toy_crypto) (R := toy_rsa) (Some sample_config) (config_fs sample_config)
    (ascii "12345") sample_hash (dc_config_init None None) (config_fs_settled _)); by vm_compute.
Defined.

Lemma env_hash_unchecked_witness :
  fst (complete (credentials_load None (Some (ascii "oops"))) (config_fs (config_text 12345 sample_hash))) =
    Some (set_credentials 12345 (ascii "oops") api_config_init).
Proof.
  apply (env_hash_unchecked 12345 sample_hash (ascii "oops") (ascii "7") (config_fs (config_text 12345 sample_hash))
    (config_fs_settled _)); by vm_compute.
Defined.

Lemma config_readers_bounded_witness :
  boot_loop 200 (ascii "rsa_pem") 8192 sample_config BootMissing = scan_boot (ascii "rsa_pem") 8192 sample_config.
Proof.
  apply (config_readers_bounded (ascii "rsa_pem") (Z.to_nat 8192) sample_config 200); vm_compute; lia.
Defined.
